(* ===== verification/_CoqProject ===== *)
-Q . S2P
Prelude.v
GoValue.v
Secrets.v
ApiTypes.v
GoTime.v
Policy.v
Registry.v
ConfigSchema.v
Validate.v
ValidateSpec.v
PipelineDoc.v
Status.v
SqlParams.v
CommitTable.v
CommitPool.v
Gateway.v
Partition.v
TableWriter.v
WriterInv.v
WriterRun.v
Preview.v
PreviewStore.v
Authz.v
RunTypes.v
PreviewService.v
PreviewPurge.v
PreviewCreate.v
Tokens.v
Password.v
Calls.v
Authn.v
RunWorld.v
RunMirror.v
RunBackend.v
RunReaper.v
RunGrants.v
RunSweep.v
RunStart.v
BackendExamples.v
AppStore.v
AppInv.v
AppHistory.v
AppHandlers.v
AppGrants.v
AppLedger.v
AppInternal.v
WorkerClient.v
WorkerRevoke.v
WorkerCache.v
WorkerAuth.v
WorkerAuthOk.v
AppExamples.v
WorkerExamples.v
ArrowSink.v
InferSink.v
SinkOk.v
InferSinkOk.v
StringSinkOk.v
SinkExamples.v
RunJobs.v
RunController.v
RunMachine.v
RunRefine.v
RunSystem.v
RunAdmission.v
RunStages.v
RunLiveness.v
RunExamples.v
