(* ===== verification/Prelude.v ===== *)
(** * Datuplet: a verification development (root file)

    Datuplet runs data pipelines on Kubernetes.  A pipeline is a list of stages
    of components; the operator (src/pkg/k8s/controllers) freezes a pipeline into
    a run and starts one Job per component, stage by stage; beside each component
    runs a data gateway (src/pkg/datagateway) through which it reads and writes
    Iceberg tables (src/pkg/icebergjob); the API server (src/pkg/pipelineapi)
    offers previews of pipelines; the query engine (src/components/queryengine)
    answers SQL.  This library translates the core of these parts from the Go
    source and proves what makes them correct.

    ** Files and the code they model

    - Prelude: results, 64-bit integers, byte strings and UTF-8, Go maps, the
      lemmas and tactics the other files share.  GoValue: decoded JSON values.
    - Secrets (pkg/lib/secrets): [$[name]] references, [Validate], [Resolve].
    - ApiTypes, RunTypes (pkg/k8s/api/v1): the resources, with the accessors.
    - GoTime: [parseSinceDuration] (pkg/pipeline/validate, config), time.Duration.
    - Policy (validate/policy.go, controllers/resource_clamp.go): bounds and the
      clamp.  Registry (validate/registry.go): version resolution.
    - ConfigSchema (validate/schema.go, walker.go, secrets.go): configuration
      against a component's JSON schema.
    - Validate, ValidateSpec (validate/validate.go): pipeline validation, and the
      declarative specification it is proved equal to.
    - PipelineDoc (pkg/pipeline/config): the document form, [Parse], the
      conversions to and from the resource.
    - Status (pkg/lib/status): exit codes and the status message in a log.
    - RunJobs (controllers/pipelinerun_jobs.go, iter_tag.go): the Job and the
      gateway configuration of a component.  RunController
      (pipelinerun_controller.go, pipelinerun_status.go): [Reconcile] and every
      handler it calls.  RunMachine: the abstract state machine of a run.
      RunRefine: a reconcile is one step of it or none.  RunSystem: the operator,
      the Jobs and a cache that may be stale, interleaved.  RunAdmission,
      RunStages, RunLiveness: what single handlers do, and that runs end.
      RunExamples: one concrete run that the theorems are applied to.
    - SqlParams (queryengine/params.go, sqlescape.go): placeholders, validation
      and binding of query parameters.
    - CommitTable (icebergjob/commit_shared.go, catalogwriter/retry.go): a commit
      with retries.  CommitPool (datagateway/commit_pool.go): the worker pool.
      Gateway (datagateway/server_v2_writing.go, server_v2_commit.go): the write
      session: fence, CloseWriter, Commit.
    - Preview (pipelineapi/preview/rewrite.go): the rewrite onto scratch names.
    - PreviewStore (pipelineapi/store/preview.go): the previews table.  Authz
      (pipelineapi/authz): OpenFGA objects, the writers of project tuples.
      PreviewService (preview/service.go, sweep.go, catalog.go, and
      k8s/preview_create.go): create, cancel, delete, purge, sweep.  PreviewPurge,
      PreviewCreate: what these do, and a concrete cluster they run on.
    - Partition (datagateway/goplane/partition.go): tuples, keys and the split of
      a batch.  TableWriter (goplane/writer.go, plane.go): what the goroutine of a
      table's writer does.  WriterInv: the invariant it keeps.  WriterRun: the
      goroutine, its senders, Close and Abort, interleaved.
    - Tokens (pipelineapi/tokens, datagateway/runtoken and jwks, auth/bearer_
      resolver.go, queryproxy/app_query.go, query-worker/verify.go): every minter
      and every verifier.  Password (auth/password.go).  Authn (auth, http/auth_
      handlers.go, cli_token_handler.go): the rate limiter, the gate, sessions,
      resolvers, login and logout.
    - Calls: operations made of calls that may fail, lose their answer or be the
      last of their process, with a logic for what holds at the end and after a
      crash.  RunWorld (store/run.go, run_tuples.go, authz/openfga.go): the tables,
      grants and objects behind runs.  RunMirror (pipelineapi/k8s/observer.go,
      coalesce.go, db_updater.go, preview_updater.go): from objects to rows.
      RunBackend (runbackend/k8s.go and pipelineapi/k8s): trigger, cancel,
      complete.  RunReaper (k8s/reaper.go, reap_run_tuples.go): the sweep.
      RunGrants, RunSweep, RunStart: what these three promise; BackendExamples:
      concrete histories.
    - AppStore (pipelineapi/apps/store.go): the tables of user apps and every
      statement on them; AppInv: the invariant they keep; AppHistory: concurrent
      promotions, uploads, tokens over time.  AppHandlers (apps/handlers.go,
      identity.go): the author routes and the grant of an app; AppGrants,
      AppLedger: whom they obey, and that grants and rows stay together.
      AppInternal (apps/internal.go): the routes for app-worker.  WorkerClient
      (appworker/apiclient.go): their client, with its caches; WorkerRevoke: a
      token's life across both; WorkerCache: the bundles.  WorkerAuth,
      WorkerAuthOk (appworker/auth.go): cookies, addresses, rate limits and
      [authenticate].  AppExamples, WorkerExamples: concrete requests.
    - ArrowSink (sdk/go/arrow/typed_sink.go): batches of rows to a writer of the
      gateway.  InferSink (sink.go, inferring_sink.go): records to columns, with
      types that are declared or inferred.  SinkOk, InferSinkOk, StringSinkOk: what
      the sinks ship; SinkExamples: concrete records.
    Names are the code's where Rocq allows it; record fields carry a short prefix.

    ** How the code is modelled

    A Go function is a function; [(value, error)] is [result]; an error is its
    text, or a record with the sentinels it wraps where the code tests for them
    (CommitTable).  [int64] arithmetic is Z with [wrap64] where it can overflow;
    [float64] is [spec_float]; [big.Rat] a pair of integers.  Strings are byte
    strings; loops over runes decode UTF-8 as Go does.  A map that is ranged over
    is the list of its entries in the order one execution visits them, so that
    theorems hold for every order; a map that is only looked up is a gmap.
    Loops that are not structural have fuel equal to the length of their input
    ([spans_loop] in SqlParams, [parse_terms] in GoTime, [segments_loop] in
    Secrets); their specifications are proved without mentioning fuel, so it is
    always enough.

    The reconciler is a monad over an explicit cluster ([World]): API calls are
    numbered and a fault plan may fail any of them, writes carry optimistic
    concurrency, and an early return is an exit of the monad.  [sys_seen] of
    RunSystem is the version of the run that the cache returns, which may be any
    older one.  Time is an integer of nanoseconds read once per reconcile; the
    retry maps of the reconciler are counters, since one run is modelled.

    The preview service is a function over the rows of its table, a log of calls
    with their answers, and a state of the outside that answers anything; the
    poll loop has fuel for one poll per interval of its bounded wait and three
    more, which is proved to suffice.  Two operations run one after the other,
    except where an example splits a create in two.

    A commit is a function over a world that the catalog and other writers
    change; [CatalogLaws] says that a load sees the snapshots of some moment of
    the call and that a commit adds its snapshot or not, whatever it answers.
    The pool is a transition system whose steps are the critical sections of
    Dispatch, of its goroutine, of Wait and of Cancel, in any interleaving
    allowed by the documented contract that no Dispatch runs during a Wait; its
    session counter is taken not to wrap around in 2^64 Waits.

    The writer of a table is a function over its fields and a world of encoders
    and uploads that answers anything; the only law is that Take takes the rows
    it is asked for.  [f_content] of a data file is a ghost: the rows its encoder
    accepted.  A batch is one step of the goroutine; [enforceBudget] has fuel for
    one flush per open file and one pass more, which is proved to suffice.

    The API server's operations on PostgreSQL, OpenFGA and the cluster run one
    after the other over one shared world ([Op] of Calls).  Each call takes effect
    in one step; [Faults] decides whether it succeeds, fails before or after its
    effect, or ends the process; [HonestErrors] (an error of the transport is not
    worded like OpenFGA's answers on tuples) is assumed where it is needed.  Interleavings of two operations appear in
    examples only.  A JWT is what its library signs: [JwtLaws] says that a signed
    token parses back to its header and claims under the options given, and to
    nothing else; forged tokens are outside the model.

    A transaction of the store of apps is one step, under the lock it takes;
    Promote reads its target in a step of its own, and [store_step] of AppHistory
    interleaves the statements of any number of requests.  Author routes run one
    after the other.  The caches of app-worker are shared by its requests: [wstep]
    of WorkerRevoke has any number of verifications in flight, between whose steps
    the clock, the store and the other requests move; a call in flight has a
    deadline.  Requests that single flight joins are requests that ask for
    themselves there, or that use an answer another one has got.  The visits of
    WorkerAuthOk, which go through [authenticate], come one after the other, with
    any change of the store between them.

    A sink of the SDK is a function over its fields and the calls of its writer,
    which answers anything; [None] is a panic.  A record is a value: its caller
    does not change it while the sink gathers its sample.

    Parameters, each a class, stand for code outside the repository: the Unicode
    tables, Arrow's encoding, JSON and YAML encoders, the JSON schema library, iceberg's transform
    parser, quantities ([Quantities] with laws), Kubernetes helpers, float
    printing, SHA-256, iceberg-go with the object store, the gateway's plane.
    Every theorem that assumes a law has a witness with a concrete instance.

    ** What the theorems show

    - Runs: a reconcile refines the abstract machine (RunSystem); Succeeded means
      every frozen component succeeded; stages run in order; what admission
      froze never changes; admission freezes exactly what validation, the
      registry and the clamp give; secrets are snapshot once, only the
      referenced keys, and reach only the sidecar; outcomes follow the documented
      precedence; error budgets; a healthy run is Succeeded after 3n+1 rounds.
    - Validation: [ValidateTyped] and [ValidateConfig] accept exactly what their
      specifications say; the clamp and the check agree; documents round trip.
    - Queries: the scanner is the lexical grammar; accepted parameters bind, and
      integral numbers bind exactly; escaped literals cannot be left.
    - Writes: at most one snapshot per idempotency key, exactly one on success,
      also when a commit is delivered again; the pool keeps its bounds, does not
      get stuck and returns every result of a session; Commit reports success
      only for writers that are committed; undeclared buckets are refused.
    - Previews: the rewrite is the declarative one; a preview writes only its own
      namespaces, and two previews share none.
      The caps on previews hold; a purge touches the
      catalog only after the run and its pods are gone, and marks a row cleaned
      only if everything succeeded; a stuck preview does not hold up a sweep; a
      create starts nothing before its row and undoes what failed.
    - Data files: a batch is split by canonical keys into exactly its groups; a
      Close that returns files returns every accepted row once, under its tuple;
      it returns; an abort returns none; the budget of buffered bytes holds.
    - Tokens and sessions: a token is taken only by the verifier of its kind; the
      gateway reads back what a run token was minted with; a request acts only as
      the user of a live session; a session that is over stays over; a login
      needs the password; the limiter bounds what a window admits.
    - The lifecycle of runs on the API server: no grant is lost track of, over any
      history with failures and crashes, but one whose write answered with an
      error although it took effect; a sweep takes exactly what is due and
      spares the rest; what a trigger and a cancel that succeed have done; the
      rows mirror the newest observation, with or without the cache.
    - User apps: the tables stay in order and in their limits; promotions are a
      compare-and-swap however requests interleave; what is resolved can be
      fetched; a request changes only what its caller may change, in the app it
      names; no grant is left for an app that is gone; a token works until it is
      revoked, and then no longer than fifteen seconds and one call, wherever its
      verifications are; nobody's guesses shut out its holder; nobody is let
      through to an app without a cookie for that app or a membership, as the
      server saw them at most fifteen seconds ago; without the service credential the internal routes do nothing.
    - Sinks of the SDK: every record of a sink with columns is shipped once, in order
      and in full batches; the types that are inferred are the least that hold the sample; what falls
      outside it is reported; a failure is final.
    Findings (also in the manifest): Job names keep ten bytes of a component
    name, so a component can be skipped; day counts of incremental reads
    overflow; a preview deleted between its row and its start runs on with its
    grant; a closed writer can keep its context; a grant whose write lost its
    answer is never revoked; a trigger that crashes after its row strands it; a
    run cancelled during its trigger starts without its grant; an app whose deletion
    was cut short is uploaded again without its grant; an upload that races a
    deletion leaves a grant without an app; a Finish whose last batch is refused
    leaves its writer open; a sink whose sample has no keys
    counts its records but ships none of their rows; and the divergences noted at the
    theorems that show them.

    ** Not modelled

    Transport and processes (gRPC, HTTP, commands), generated code, listings
    of the database, key files, Parquet encoding, DuckDB sessions
    and the user interface: they are libraries' work with little logic of the
    repository's own.  Logging and metrics are left out of every function.
    Snapshot expiry is outside [CatalogLaws]. *)

From Stdlib Require Export ZArith NArith Ascii Bool Lia.
From Stdlib Require String.
From Stdlib Require Export Sorting.Permutation.
From stdpp Require Export base tactics decidable sorting pretty option strings gmap list.
From stdpp Require Import options.

(** ** Results: the (value, error) pairs of Go *)

Inductive result (E A : Type) : Type :=
| Ok (a : A)
| Err (e : E).
Arguments Ok {E A} a.
Arguments Err {E A} e.

#[export] Instance result_ret {E} : MRet (result E) := λ A a, Ok a.
#[export] Instance result_bind {E} : MBind (result E) :=
  λ A B f m, match m with Ok a => f a | Err e => Err e end.
#[export] Instance result_fmap {E} : FMap (result E) :=
  λ A B f m, match m with Ok a => Ok (f a) | Err e => Err e end.

Definition is_ok {E A} (r : result E A) : bool :=
  match r with Ok _ => true | Err _ => false end.

Definition map_err {E E' A} (f : E → E') (r : result E A) : result E' A :=
  match r with Ok a => Ok a | Err e => Err (f e) end.

(** Left-to-right traversal that stops at the first error, the shape of a Go
    loop that returns from its body on [err != nil]. *)
Fixpoint mapM_res {E A B} (f : A → result E B) (l : list A) : result E (list B) :=
  match l with
  | [] => Ok []
  | x :: l => y ← f x; ys ← mapM_res f l; Ok (y :: ys)
  end.

(** ** State passing *)

Definition St (S A : Type) : Type := S → S * A.
#[export] Instance St_ret {S} : MRet (St S) := λ A a s, (s, a).
#[export] Instance St_bind {S} : MBind (St S) := λ A B f m s, let (s', a) := m s in f a s'.
(** [v, err := m; if err != nil { return ..., err }]. *)
Definition try {S E A B} (m : St S (result E A)) (f : A → St S (result E B)) : St S (result E B) :=
  λ s, let (s', r) := m s in match r with Ok a => f a s' | Err e => (s', Err e) end.

(** ** Machine integers *)

Definition two63 : Z := 2 ^ 63.
Definition min_int64 : Z := - two63.
Definition max_int64 : Z := two63 - 1.
Definition two64 : Z := 2 ^ 64.

(** Two's complement wrap-around of Go's [int64] (and of [int] on 64-bit). *)
Definition wrap64 (z : Z) : Z := (z + two63) `mod` two64 - two63.

(** The same for [int32]. *)
Definition wrap32 (z : Z) : Z := (z + 2 ^ 31) `mod` 2 ^ 32 - 2 ^ 31.

Definition in_int64 (z : Z) : bool := (min_int64 <=? z)%Z && (z <=? max_int64)%Z.

(** ** Byte strings

    A Go [string] is a sequence of bytes, an [ascii] is a byte: [string] is the
    same data. *)

Definition code (c : ascii) : N := N_of_ascii c.
Definition byte_between (lo hi : N) (c : ascii) : bool :=
  (lo <=? code c)%N && (code c <=? hi)%N.

Definition is_digit_byte (c : ascii) : bool := byte_between 48 57 c.
Definition is_lower_byte (c : ascii) : bool := byte_between 97 122 c.
Definition is_upper_byte (c : ascii) : bool := byte_between 65 90 c.

Fixpoint str_list (s : string) : list ascii :=
  match s with
  | EmptyString => []
  | String c s => c :: str_list s
  end.

Fixpoint list_str (l : list ascii) : string :=
  match l with
  | [] => EmptyString
  | c :: l => String c (list_str l)
  end.

Definition str_empty (s : string) : bool :=
  match s with EmptyString => true | String _ _ => false end.

Fixpoint forall_byte (P : ascii → bool) (s : string) : bool :=
  match s with
  | EmptyString => true
  | String c s => P c && forall_byte P s
  end.

Definition slen (s : string) : nat := String.length s.

(** [strings.HasPrefix], [strings.CutPrefix]. *)
Fixpoint cut_prefix (p s : string) : option string :=
  match p with
  | EmptyString => Some s
  | String a p =>
    match s with
    | EmptyString => None
    | String b s => if Ascii.eqb a b then cut_prefix p s else None
    end
  end.
Definition has_prefix (p s : string) : bool :=
  match cut_prefix p s with Some _ => true | None => false end.

(** [strings.Contains s sub]. *)
Fixpoint contains (sub s : string) : bool :=
  has_prefix sub s ||
  match s with
  | EmptyString => false
  | String _ s => contains sub s
  end.

(** What follows the first occurrence of [sub]: the second result of [strings.Cut]. *)
Fixpoint cut_after (sub s : string) : option string :=
  match cut_prefix sub s with
  | Some r => Some r
  | None => match s with EmptyString => None | String _ s => cut_after sub s end
  end.

(** [strings.HasSuffix] for a one-byte suffix, with what precedes it. *)
Fixpoint cut_last (s : string) : option (string * ascii) :=
  match s with
  | EmptyString => None
  | String c s =>
    match cut_last s with
    | None => Some (EmptyString, c)
    | Some (r, l) => Some (String c r, l)
    end
  end.
Definition cut_suffix_byte (b : ascii) (s : string) : option string :=
  match cut_last s with
  | Some (r, l) => if Ascii.eqb l b then Some r else None
  | None => None
  end.

(** [s[:n]] for [n <= len(s)]. *)
Fixpoint str_take (n : nat) (s : string) : string :=
  match n, s with
  | S n, String c s => String c (str_take n s)
  | _, _ => EmptyString
  end.
Fixpoint str_drop (n : nat) (s : string) : string :=
  match n, s with
  | S n, String _ s => str_drop n s
  | _, _ => s
  end.

(** [strings.Join]. *)
Fixpoint join (sep : string) (l : list string) : string :=
  match l with
  | [] => EmptyString
  | [x] => x
  | x :: l => x +:+ sep +:+ join sep l
  end.

(** [strings.Split s sep] for a one-byte separator. *)
Fixpoint split_byte (b : ascii) (s : string) : list string :=
  match s with
  | EmptyString => [EmptyString]
  | String c s =>
    if Ascii.eqb c b then EmptyString :: split_byte b s
    else match split_byte b s with
         | [] => [String c EmptyString]
         | x :: l => String c x :: l
         end
  end.

(** The longest prefix of bytes that satisfy [P], and the rest. *)
Fixpoint span_byte (P : ascii → bool) (s : string) : string * string :=
  match s with
  | String c r => if P c then let (k, r) := span_byte P r in (String c k, r) else (EmptyString, s)
  | EmptyString => (EmptyString, EmptyString)
  end.
Definition head_not (P : ascii → bool) (s : string) : bool :=
  match s with String c _ => negb (P c) | EmptyString => true end.

(** Decimal printing: [strconv.Itoa], [%d]. *)
Definition itoa (z : Z) : string := pretty z.
Definition itoa_nat (n : nat) : string := pretty n.

(** ** UTF-8 and the Unicode tables

    Go decodes strings as UTF-8 when it ranges over them; an invalid byte reads
    as U+FFFD of width one.  The Unicode property tables above Latin-1 are a
    parameter of the development. *)

Class UnicodeTables : Type := {
  is_print_above_latin1 : N → bool;
  to_upper_above_latin1 : N → N;
}.

Definition rune_error : N := 65533.

(** One decoded rune with the bytes it was read from; [width1] tells the
    decoding error (rune U+FFFD of width one) from a literal U+FFFD. *)
Record rune_span := MkRune { rs_rune : N; rs_bytes : string; rs_bad : bool }.

Definition cont_byte (c : ascii) : bool := byte_between 128 191 c.
Definition low6 (c : ascii) : N := N.land (code c) 63.

Definition bad_rune (c : ascii) : rune_span := MkRune rune_error (String c EmptyString) true.

Definition second_ok3 (a b : ascii) : bool :=
  if (code a =? 224)%N then byte_between 160 191 b
  else if (code a =? 237)%N then byte_between 128 159 b
  else cont_byte b.
Definition second_ok4 (a b : ascii) : bool :=
  if (code a =? 240)%N then byte_between 144 191 b
  else if (code a =? 244)%N then byte_between 128 143 b
  else cont_byte b.

(** [for _, r := range s]. *)
Fixpoint runes (s : string) : list rune_span :=
  match s with
  | EmptyString => []
  | String a s1 =>
    if (code a <? 128)%N then MkRune (code a) (String a EmptyString) false :: runes s1
    else if byte_between 194 223 a then
      match s1 with
      | String b s2 =>
        if cont_byte b
        then MkRune (N.land (code a) 31 * 64 + low6 b)
               (String a (String b EmptyString)) false :: runes s2
        else bad_rune a :: runes s1
      | EmptyString => bad_rune a :: runes s1
      end
    else if byte_between 224 239 a then
      match s1 with
      | String b (String c s3) =>
        if second_ok3 a b && cont_byte c
        then MkRune (N.land (code a) 15 * 4096 + low6 b * 64 + low6 c)
               (String a (String b (String c EmptyString))) false :: runes s3
        else bad_rune a :: runes s1
      | _ => bad_rune a :: runes s1
      end
    else if byte_between 240 244 a then
      match s1 with
      | String b (String c (String d s4)) =>
        if second_ok4 a b && cont_byte c && cont_byte d
        then MkRune (N.land (code a) 7 * 262144 + low6 b * 4096 + low6 c * 64 + low6 d)
               (String a (String b (String c (String d EmptyString)))) false :: runes s4
        else bad_rune a :: runes s1
      | _ => bad_rune a :: runes s1
      end
    else bad_rune a :: runes s1
  end.

Definition byte_of (n : N) : ascii := ascii_of_N n.
Definition utf8_encode (r : N) : string :=
  if (r <? 128)%N then String (byte_of r) EmptyString
  else if (r <? 2048)%N then
    String (byte_of (192 + r / 64)) (String (byte_of (128 + r mod 64)) EmptyString)
  else if (r <? 65536)%N then
    String (byte_of (224 + r / 4096)) (String (byte_of (128 + (r / 64) mod 64))
      (String (byte_of (128 + r mod 64)) EmptyString))
  else
    String (byte_of (240 + r / 262144)) (String (byte_of (128 + (r / 4096) mod 64))
      (String (byte_of (128 + (r / 64) mod 64)) (String (byte_of (128 + r mod 64)) EmptyString))).

Definition hex_digit (n : N) : ascii :=
  if (n <? 10)%N then byte_of (48 + n) else byte_of (87 + n).
Fixpoint hex (width : nat) (n : N) : string :=
  match width with
  | O => EmptyString
  | S w => hex w (n / 16) +:+ String (hex_digit (n mod 16)) EmptyString
  end.

Definition backslash : ascii := "\"%char.
Definition dquote : ascii := "034"%char.

Section Unicode.
Context `{UT : !UnicodeTables}.

(** [unicode.IsPrint]. *)
Definition is_print (r : N) : bool :=
  if (r <=? 255)%N
  then ((32 <=? r)%N && (r <=? 126)%N) || ((161 <=? r)%N && negb (r =? 173)%N)
  else is_print_above_latin1 r.

Definition quote_rune (x : rune_span) : string :=
  let esc c := String backslash (String c EmptyString) in
  let r := rs_rune x in
  if rs_bad x then
    match rs_bytes x with
    | String c _ => esc "x"%char +:+ hex 2 (code c)
    | EmptyString => EmptyString
    end
  else if (r =? 34)%N || (r =? 92)%N then esc (byte_of r)
  else if is_print r then rs_bytes x
  else if (r =? 7)%N then esc "a"%char
  else if (r =? 8)%N then esc "b"%char
  else if (r =? 12)%N then esc "f"%char
  else if (r =? 10)%N then esc "n"%char
  else if (r =? 13)%N then esc "r"%char
  else if (r =? 9)%N then esc "t"%char
  else if (r =? 11)%N then esc "v"%char
  else if (r <? 32)%N || (r =? 127)%N then esc "x"%char +:+ hex 2 r
  else if (r <? 65536)%N then esc "u"%char +:+ hex 4 r
  else esc "U"%char +:+ hex 8 r.

(** [%q], [strconv.Quote]. *)
Definition quote (s : string) : string :=
  String dquote (foldr (λ x acc, quote_rune x +:+ acc) (String dquote EmptyString) (runes s)).

Definition to_upper_rune (r : N) : N :=
  if (r <? 128)%N then (if (97 <=? r)%N && (r <=? 122)%N then r - 32 else r)%N
  else if (r <=? 255)%N then
    (if (r =? 181)%N then 924
     else if (r =? 255)%N then 376
     else if (224 <=? r)%N && negb (r =? 247)%N then r - 32 else r)%N
  else to_upper_above_latin1 r.

(** [strings.ToUpper]: an invalid byte is replaced by U+FFFD. *)
Definition to_upper (s : string) : string :=
  foldr (λ x acc, utf8_encode (to_upper_rune (rs_rune x)) +:+ acc) EmptyString (runes s).
End Unicode.

(** ** Sorted sets of names

    [sort.Strings] over the keys of a set: bytewise order, no duplicates. *)
Definition sorted_names (X : gset string) : list string := merge_sort String.le (elements X).

(** ** Go maps

    A map that the code ranges over is the association list of its entries, in
    the order one execution visits them; its keys are distinct. *)
Abbreviation gomap A := (list (string * A)).

Fixpoint gm_get {A} (k : string) (m : gomap A) : option A :=
  match m with
  | [] => None
  | (k', v) :: m => if decide (k = k') then Some v else gm_get k m
  end.
Definition gm_keys {A} (m : gomap A) : list string := m.*1.
Definition gm_ok {A} (m : gomap A) : Prop := NoDup (gm_keys m).

(** ** Automation *)

Create HintDb datuplet.

Ltac split_and_all := repeat match goal with
  | H : _ && _ = true |- _ => apply andb_true_iff in H as [? ?]
  | H : _ || _ = false |- _ => apply orb_false_iff in H as [? ?]
  | H : negb _ = true |- _ => apply negb_true_iff in H
  | H : negb _ = false |- _ => apply negb_false_iff in H
  end.
(** Case analysis on the innermost [match] of the goal or of a hypothesis. *)
Ltac cases := repeat (case_match; simplify_eq/=; try done).
(** Rewrites a boolean statement on numbers into arithmetic. *)
Ltac to_arith := repeat match goal with
  | H : (_ <=? _)%Z = true |- _ => apply Z.leb_le in H
  | H : (_ <=? _)%Z = false |- _ => apply Z.leb_gt in H
  | H : (_ <? _)%Z = true |- _ => apply Z.ltb_lt in H
  | H : (_ <? _)%Z = false |- _ => apply Z.ltb_ge in H
  | H : (_ =? _)%Z = true |- _ => apply Z.eqb_eq in H
  | H : (_ =? _)%Z = false |- _ => apply Z.eqb_neq in H
  | H : (_ <=? _)%N = true |- _ => apply N.leb_le in H
  | H : (_ <=? _)%N = false |- _ => apply N.leb_gt in H
  | H : (_ <? _)%N = true |- _ => apply N.ltb_lt in H
  | H : (_ <? _)%N = false |- _ => apply N.ltb_ge in H
  | H : (_ =? _)%N = true |- _ => apply N.eqb_eq in H
  | H : (_ =? _)%N = false |- _ => apply N.eqb_neq in H
  end.

(** ** Generic lemmas *)

Lemma elem_of_sorted_names X x : x ∈ sorted_names X ↔ x ∈ X.
Proof. unfold sorted_names. by rewrite merge_sort_Permutation, elem_of_elements. Qed.

Lemma sorted_names_sorted X : StronglySorted String.le (sorted_names X).
Proof. apply (StronglySorted_merge_sort _). Qed.

Lemma sorted_names_NoDup X : NoDup (sorted_names X).
Proof. unfold sorted_names. rewrite merge_sort_Permutation. apply NoDup_elements. Qed.

Lemma merge_sort_perm (l l' : list string) : l ≡ₚ l' → merge_sort String.le l = merge_sort String.le l'.
Proof.
  intros H. apply (StronglySorted_unique String.le).
  1, 2: apply (StronglySorted_merge_sort _).
  by rewrite !merge_sort_Permutation.
Qed.

Lemma sorted_names_inj X Y : sorted_names X = sorted_names Y → X = Y.
Proof. intros H. apply set_eq. intros x. by rewrite <-!elem_of_sorted_names, H. Qed.

Lemma is_ok_true {E A} (r : result E A) : is_ok r = true ↔ ∃ a, r = Ok a.
Proof. destruct r; naive_solver. Qed.

Lemma mapM_res_Ok {Er A B} (f : A → result Er B) l k :
  mapM_res f l = Ok k ↔ Forall2 (λ x y, f x = Ok y) l k.
Proof.
  revert k. induction l as [|x l IH]; intros k; simpl.
  { split; [intros [= <-]; constructor|by intros ->%Forall2_nil_inv_l]. }
  destruct (f x) as [y|e] eqn:E; simpl.
  - destruct (mapM_res f l) as [ys|e]; simpl.
    + split; [intros [= <-]; constructor; [done|by apply IH]|].
      intros (z & zs & Hz & Hzs%IH & ->)%Forall2_cons_inv_l. simpl in *. congruence.
    + split; [done|]. by intros (z & zs & Hz & Hzs%IH & ->)%Forall2_cons_inv_l.
  - split; [done|]. intros (z & zs & Hz & _)%Forall2_cons_inv_l. congruence.
Qed.

Lemma forallb_perm {A} (P : A → bool) l1 l2 : l1 ≡ₚ l2 → forallb P l1 = forallb P l2.
Proof. induction 1; simpl; try congruence. by destruct (P x), (P y). Qed.

Lemma forallb_elem {A} (P : A → bool) l : forallb P l = true ↔ ∀ x, x ∈ l → P x = true.
Proof.
  rewrite forallb_forall. split; intros H x Hx; apply H; by apply list_elem_of_In.
Qed.

Lemma gm_get_elem {A} k (v : A) m : gm_get k m = Some v → (k, v) ∈ m.
Proof.
  induction m as [|[k' v'] m IH]; simpl; [done|]. case_decide; intros; simplify_eq;
    [constructor|constructor; auto].
Qed.

Lemma gm_get_None {A} k (m : gomap A) : gm_get k m = None ↔ k ∉ gm_keys m.
Proof.
  induction m as [|[k' v'] m IH]; simpl; [split; [intros _ H; inv H|done]|].
  unfold gm_keys in *. simpl. rewrite not_elem_of_cons. case_decide; naive_solver.
Qed.

Lemma elem_gm_get {A} k (v : A) m : gm_ok m → (k, v) ∈ m → gm_get k m = Some v.
Proof.
  unfold gm_ok, gm_keys. induction m as [|[k' v'] m IH]; intros Hok Hin; [inv Hin|].
  simpl in *. apply NoDup_cons in Hok as [Hk Hok]. apply elem_of_cons in Hin as [Hin|Hin].
  - simplify_eq. by rewrite decide_True.
  - rewrite decide_False; [auto|]. intros ->. apply Hk. apply list_elem_of_fmap. by exists (k', v).
Qed.

Lemma gm_get_perm {A} k (m m' : gomap A) : gm_ok m → m ≡ₚ m' → gm_get k m = gm_get k m'.
Proof.
  intros Hok Hp. assert (Hok' : gm_ok m') by (unfold gm_ok, gm_keys in *; by rewrite <-Hp).
  destruct (gm_get k m) as [v|] eqn:E.
  - symmetry. apply elem_gm_get; [done|]. rewrite <-Hp. by apply gm_get_elem.
  - symmetry. apply gm_get_None. apply gm_get_None in E. unfold gm_keys in *. by rewrite <-Hp.
Qed.

(** A loop that only adds to a set. *)
Lemma elem_foldl {A} (f : gset string → A → gset string) (P : A → Prop) x l R :
  (∀ R a, x ∈ f R a ↔ x ∈ R ∨ P a) → x ∈ foldl f R l ↔ x ∈ R ∨ ∃ a, a ∈ l ∧ P a.
Proof.
  intros Hf. revert R. induction l as [|a l IH]; intros R; simpl.
  { split; [by left|by intros [?|(? & ?%elem_of_nil & _)]]. }
  rewrite IH, Hf. setoid_rewrite elem_of_cons. naive_solver.
Qed.

Lemma slen_app s t : slen (s +:+ t) = (slen s + slen t)%nat.
Proof. induction s as [|c s IH]; [done|]. unfold slen in *. cbn. by rewrite <-IH. Qed.

Lemma str_nil_app s : EmptyString +:+ s = s.
Proof. done. Qed.
Lemma str_app_cons c s t : String c s +:+ t = String c (s +:+ t).
Proof. done. Qed.

Lemma str_app_nil s : s +:+ EmptyString = s.
Proof.
  induction s as [|c s IH]; [done|]. change (String c (s +:+ EmptyString) = String c s). by rewrite IH.
Qed.

Lemma str_app_assoc s t u : (s +:+ t) +:+ u = s +:+ (t +:+ u).
Proof.
  induction s as [|c s IH]; [done|].
  change (String c ((s +:+ t) +:+ u) = String c (s +:+ (t +:+ u))). by rewrite IH.
Qed.

Lemma str_app_inj_l s t u : s +:+ t = s +:+ u → t = u.
Proof. induction s; simpl; [done|]. intros [= H]. auto. Qed.
Lemma str_app_inj_r s t u : s +:+ u = t +:+ u → s = t.
Proof.
  revert t. induction s as [|c s IH]; intros [|d t] H; [done|..].
  1, 2: exfalso; apply (f_equal slen) in H; rewrite !slen_app in H; unfold slen in H; simpl in H; lia.
  injection H as -> H. by rewrite (IH t).
Qed.

Lemma str_take_min n s : str_take (Nat.min n (slen s)) s = str_take n s.
Proof. revert n. induction s as [|c s IH]; intros [|n]; simpl; [done..|]. by rewrite IH. Qed.

Lemma str_empty_true s : str_empty s = true ↔ s = EmptyString.
Proof. by destruct s. Qed.

Lemma str_empty_false s : str_empty s = false ↔ s ≠ EmptyString.
Proof. by destruct s. Qed.

Lemma str_app_empty s t : str_empty (s +:+ t) = str_empty s && str_empty t.
Proof. by destruct s. Qed.

Lemma forall_byte_app P s t : forall_byte P (s +:+ t) = forall_byte P s && forall_byte P t.
Proof.
  induction s as [|c s IH]; [done|]. change (String c s +:+ t) with (String c (s +:+ t)). simpl.
  by rewrite IH, andb_assoc.
Qed.

Lemma forall_byte_impl (P Q : ascii → bool) s :
  (∀ c, P c = true → Q c = true) → forall_byte P s = true → forall_byte Q s = true.
Proof.
  intros HPQ. induction s as [|c s IH]; [done|]. simpl. intros H. split_and_all.
  by rewrite HPQ, IH.
Qed.

Lemma cut_last_Some s r l : cut_last s = Some (r, l) ↔ s = r +:+ String l EmptyString.
Proof.
  split.
  - revert r l. induction s as [|c s IH]; intros r l; [done|]. simpl.
    destruct (cut_last s) as [[r' l']|] eqn:E; intros; simplify_eq.
    + change (String c r' +:+ String l EmptyString) with (String c (r' +:+ String l EmptyString)).
      by rewrite <-(IH r' l).
    + destruct s as [|d s]; [done|]. simpl in E. by destruct (cut_last s) as [[]|].
  - intros ->. induction r as [|c r IH]; [done|].
    change (String c r +:+ String l EmptyString) with (String c (r +:+ String l EmptyString)). simpl.
    by rewrite IH.
Qed.

Lemma span_byte_app P k r :
  forall_byte P k = true → head_not P r = true → span_byte P (k +:+ r) = (k, r).
Proof.
  induction k as [|c k IH]; intros Hk Hr.
  - change (EmptyString +:+ r) with r. destruct r as [|c r]; [done|]. simpl in *.
    apply negb_true_iff in Hr. by rewrite Hr.
  - simpl in Hk. split_and_all. change (String c k +:+ r) with (String c (k +:+ r)). simpl.
    by rewrite H, IH.
Qed.

(** Two prefixes of bytes in [P], each followed by a byte outside, are equal. *)
Lemma span_byte_inj P k1 r1 k2 r2 :
  forall_byte P k1 = true → forall_byte P k2 = true →
  head_not P r1 = true → head_not P r2 = true →
  k1 +:+ r1 = k2 +:+ r2 → k1 = k2 ∧ r1 = r2.
Proof.
  intros H1 H2 H3 H4 E. pose proof (span_byte_app P k1 r1 H1 H3) as E1.
  rewrite E, span_byte_app in E1 by done. by simplify_eq.
Qed.

Lemma wrap64_id z : (min_int64 ≤ z ≤ max_int64)%Z → wrap64 z = z.
Proof.
  unfold wrap64, min_int64, max_int64. intros H. rewrite Z.mod_small; [lia|].
  change two64 with (2 * two63)%Z. lia.
Qed.

Lemma wrap64_mul a b : wrap64 (wrap64 a * b) = wrap64 (a * b).
Proof.
  unfold wrap64. f_equal. set (q := ((a + two63) `div` two64)%Z).
  replace ((a + two63) `mod` two64)%Z with (a + two63 - two64 * q)%Z
    by (pose proof (Z.div_mod (a + two63) two64 ltac:(done)); unfold q; lia).
  replace ((a + two63 - two64 * q - two63) * b + two63)%Z
    with (a * b + two63 + (- (q * b)) * two64)%Z by lia.
  by rewrite Z.mod_add.
Qed.

#[export] Hint Resolve gm_get_elem sorted_names_sorted sorted_names_NoDup : datuplet.
