(* ===== verification/GoValue.v ===== *)
(** * GoValue: decoded JSON / YAML trees

    The generic values ([any]) that [encoding/json] and the YAML decoders hand
    to the code, the string leaves of such a tree with their dotted paths, and
    the equivalence of two trees that differ only in the iteration order of
    their maps.  [Secrets] and [ConfigSchema] walk these trees. *)

From S2P Require Import Prelude.

(** The key of a [map[any]any], kept as the code prints it with [%v]. *)
Inductive any_key : Type :=
| KStr (s : string)
| KInt (z : Z)
| KBool (b : bool).

(** [fmt.Sprintf("%v", k)]. *)
Definition key_text (k : any_key) : string :=
  match k with
  | KStr s => s
  | KInt z => itoa z
  | KBool true => "true"
  | KBool false => "false"
  end.

(** Numbers are opaque: no code of this development inspects one. *)
Inductive value : Type :=
| VNull
| VBool (b : bool)
| VNum (lit : string)
| VStr (s : string)
| VArr (l : list value)
| VObj (m : list (string * value))
| VAnyObj (m : list (any_key * value)).

Fixpoint value_ind' (P : value → Prop)
    (Hnull : P VNull) (Hbool : ∀ b, P (VBool b)) (Hnum : ∀ n, P (VNum n))
    (Hstr : ∀ s, P (VStr s))
    (Harr : ∀ l, Forall P l → P (VArr l))
    (Hobj : ∀ m, Forall (λ kv, P kv.2) m → P (VObj m))
    (Hany : ∀ m, Forall (λ kv, P kv.2) m → P (VAnyObj m))
    (v : value) {struct v} : P v :=
  let rec_ := value_ind' P Hnull Hbool Hnum Hstr Harr Hobj Hany in
  match v with
  | VNull => Hnull
  | VBool b => Hbool b
  | VNum n => Hnum n
  | VStr s => Hstr s
  | VArr l => Harr l ((fix go l := match l return Forall P l with
      | [] => Forall_nil_2 _
      | x :: l => Forall_cons_2 _ _ _ (rec_ x) (go l) end) l)
  | VObj m => Hobj m ((fix go m := match m return Forall (λ kv, P kv.2) m with
      | [] => Forall_nil_2 _
      | x :: m => Forall_cons_2 _ _ _ (rec_ x.2) (go m) end) m)
  | VAnyObj m => Hany m ((fix go m := match m return Forall (λ kv, P kv.2) m with
      | [] => Forall_nil_2 _
      | x :: m => Forall_cons_2 _ _ _ (rec_ x.2) (go m) end) m)
  end.

(** Dotted paths: [joinKey] / [joinPathKey] and the [%s[%d]] of an element. *)
Definition joinPathKey (path key : string) : string :=
  if str_empty path then key else path +:+ "." +:+ key.
Definition indexPath (path : string) (i : nat) : string :=
  path +:+ "[" +:+ itoa_nat i +:+ "]".

(** The string leaves of a tree with their paths, in traversal order. *)
Fixpoint leaves (v : value) (path : string) : list (string * string) :=
  match v with
  | VStr s => [(path, s)]
  | VArr l =>
    (fix go (i : nat) (l : list value) := match l with
      | [] => []
      | x :: l => leaves x (indexPath path i) ++ go (S i) l end) 0 l
  | VObj m =>
    (fix go (m : list (string * value)) := match m with
      | [] => []
      | (k, x) :: m => leaves x (joinPathKey path k) ++ go m end) m
  | VAnyObj m =>
    (fix go (m : list (any_key * value)) := match m with
      | [] => []
      | (k, x) :: m => leaves x (joinPathKey path (key_text k)) ++ go m end) m
  | _ => []
  end.

(** A tree without [map[any]any] nodes: what [encoding/json] decodes. *)
Fixpoint json_tree (v : value) : bool :=
  match v with
  | VArr l => (fix go l := match l with [] => true | x :: l => json_tree x && go l end) l
  | VObj m => (fix go (m : list (string * value)) := match m with
      | [] => true | (_, x) :: m => json_tree x && go m end) m
  | VAnyObj _ => false
  | _ => true
  end.

(** Every leaf rewritten by [f], nothing else changed. *)
Fixpoint map_leaves (f : string → string) (v : value) : value :=
  match v with
  | VStr s => VStr (f s)
  | VArr l => VArr (map (map_leaves f) l)
  | VObj m => VObj (map (λ kv, (kv.1, map_leaves f kv.2)) m)
  | VAnyObj m => VAnyObj (map (λ kv, (kv.1, map_leaves f kv.2)) m)
  | v => v
  end.

(** Two trees that differ only in the iteration order of their maps. *)
Inductive veq : value → value → Prop :=
| veq_null : veq VNull VNull
| veq_bool b : veq (VBool b) (VBool b)
| veq_num n : veq (VNum n) (VNum n)
| veq_str s : veq (VStr s) (VStr s)
| veq_arr l l' : Forall2 veq l l' → veq (VArr l) (VArr l')
| veq_obj m m1 m' : Permutation m m1 →
    Forall2 (λ p q, p.1 = q.1 ∧ veq p.2 q.2) m1 m' → veq (VObj m) (VObj m')
| veq_any m m1 m' : Permutation m m1 →
    Forall2 (λ p q, p.1 = q.1 ∧ veq p.2 q.2) m1 m' → veq (VAnyObj m) (VAnyObj m').

(** ** Lemmas *)

Definition elem_leaves (path : string) (i : nat) (l : list value) : list (string * string) :=
  concat (imap (λ j x, leaves x (indexPath path (i + j))) l).
Definition entry_leaves {K} (text : K → string) (path : string) (m : list (K * value)) :=
  concat (map (λ kv, leaves kv.2 (joinPathKey path (text kv.1))) m).

Lemma leaves_arr l path : leaves (VArr l) path = elem_leaves path 0 l.
Proof.
  simpl. generalize 0 as i. induction l as [|x l IH]; intros i; [done|].
  unfold elem_leaves in *. rewrite IH. cbn. rewrite Nat.add_0_r. f_equal.
  f_equal. apply imap_ext. intros j y _. cbn. do 2 f_equal. lia.
Qed.

Lemma leaves_obj m path : leaves (VObj m) path = entry_leaves id path m.
Proof. simpl. induction m as [|[k x] m IH]; cbn; [done|]. by rewrite IH. Qed.

Lemma leaves_any m path : leaves (VAnyObj m) path = entry_leaves key_text path m.
Proof. simpl. induction m as [|[k x] m IH]; cbn; [done|]. by rewrite IH. Qed.

Lemma elem_leaves_cons path i x l :
  elem_leaves path i (x :: l) = leaves x (indexPath path i) ++ elem_leaves path (S i) l.
Proof.
  unfold elem_leaves. cbn. rewrite Nat.add_0_r. f_equal. f_equal.
  apply imap_ext. intros j y _. cbn. do 2 f_equal. lia.
Qed.

Lemma entry_leaves_cons {K} (text : K → string) path k x m :
  entry_leaves text path ((k, x) :: m) =
  leaves x (joinPathKey path (text k)) ++ entry_leaves text path m.
Proof. done. Qed.

Lemma entry_leaves_perm {K} (text : K → string) path m m' :
  m ≡ₚ m' → entry_leaves text path m ≡ₚ entry_leaves text path m'.
Proof. intros Hm. unfold entry_leaves. by rewrite Hm. Qed.

Fixpoint veq_refl (v : value) {struct v} : veq v v.
Proof.
  destruct v as [|b|n|s|l|m|m]; try constructor.
  - induction l as [|x l IH]; constructor; auto.
  - apply (veq_obj m m); [done|].
    induction m as [|x m IH]; constructor; auto.
  - apply (veq_any m m); [done|].
    induction m as [|x m IH]; constructor; auto.
Qed.
#[export] Hint Resolve veq_refl : datuplet.

Lemma leaves_veq v w path : veq v w → leaves v path ≡ₚ leaves w path.
Proof.
  revert v w path. fix IH 4. intros v w path Hvw. destruct Hvw as
    [| | | |l l' Hl|m m1 m' Hp Hm|m m1 m' Hp Hm]; try reflexivity.
  - rewrite !leaves_arr. generalize 0 as i.
    induction Hl as [|x y l l' Hxy Hl IHl]; intros i; [done|].
    rewrite !elem_leaves_cons. f_equiv; [by apply IH|apply IHl].
  - rewrite !leaves_obj, (entry_leaves_perm id path _ _ Hp). clear Hp.
    induction Hm as [|[k x] [k' y] m1 m' [Hk Hxy] Hm IHm]; [done|]. cbn in Hk, Hxy.
    rewrite Hk, !entry_leaves_cons. f_equiv; [by apply IH|apply IHm].
  - rewrite !leaves_any, (entry_leaves_perm key_text path _ _ Hp). clear Hp.
    induction Hm as [|[k x] [k' y] m1 m' [Hk Hxy] Hm IHm]; [done|]. cbn in Hk, Hxy.
    rewrite Hk, !entry_leaves_cons. f_equiv; [by apply IH|apply IHm].
Qed.
