(* ===== verification/Secrets.v ===== *)
(** * Secrets: [$[name]] references (pkg/lib/secrets)

    The leaf grammar, [Validate], [Resolve] and [FileProvider.Get] of
    pkg/lib/secrets/secrets.go.  The theorems relate the two walks: a tree
    resolves exactly when it validates and the provider knows every name it
    references, and neither walk depends on the iteration order of a map. *)

From S2P Require Import Prelude GoValue.

(** ** The grammar of a leaf *)

(** [[A-Za-z0-9_-]]. *)
Definition name_byte (c : ascii) : bool :=
  is_upper_byte c || is_lower_byte c || is_digit_byte c ||
  Ascii.eqb c "_"%char || Ascii.eqb c "-"%char.

(** [[A-Za-z0-9_-]+]. *)
Definition secret_name (s : string) : bool := negb (str_empty s) && forall_byte name_byte s.

(** The submatch of [open ++ name ++ "]"], anchored at both ends. *)
Definition bracketed (open s : string) : option string :=
  match cut_prefix open s with
  | Some rest =>
    match cut_suffix_byte "]"%char rest with
    | Some n => if secret_name n then Some n else None
    | None => None
    end
  | None => None
  end.
Definition refPattern : string → option string := bracketed "$[".
Definition escapePattern : string → option string := bracketed "$$[".
Definition anyRefLike (s : string) : bool := contains "$[" s.

Section Secrets.
Context `{UT : !UnicodeTables}.

Definition bad_ref_message (path s : string) : string :=
  "invalid secret reference at " +:+ path +:+
  ": only whole-scalar $[name] is supported (got " +:+ quote s +:+ ")".

(** ** Validate *)

Definition checkLeafSyntax (s path : string) (refs : gset string) : result string (gset string) :=
  match refPattern s with
  | Some n => Ok ({[n]} ∪ refs)
  | None =>
    match escapePattern s with
    | Some _ => Ok refs
    | None => if anyRefLike s then Err (bad_ref_message path s) else Ok refs
    end
  end.

Fixpoint walkValidate (node : value) (path : string) (refs : gset string)
    : result string (gset string) :=
  match node with
  | VObj m =>
    (fix go (m : list (string * value)) refs := match m with
      | [] => Ok refs
      | (k, child) :: m => refs ← walkValidate child (joinPathKey path k) refs; go m refs
      end) m refs
  | VAnyObj m =>
    (fix go (m : list (any_key * value)) refs := match m with
      | [] => Ok refs
      | (k, child) :: m => refs ← walkValidate child (joinPathKey path (key_text k)) refs; go m refs
      end) m refs
  | VArr l =>
    (fix go (i : nat) (l : list value) refs := match l with
      | [] => Ok refs
      | child :: l => refs ← walkValidate child (indexPath path i) refs; go (S i) l refs
      end) 0 l refs
  | VStr s => checkLeafSyntax s path refs
  | _ => Ok refs
  end.

Definition Validate (tree : value) : result string (list string) :=
  refs ← walkValidate tree EmptyString ∅;
  Ok (sorted_names refs).

(** ** Resolve *)

Inductive get_error : Type :=
| ErrNotFound
| ErrOther (msg : string).

(** [Provider.Get]. *)
Definition provider : Type := string → result get_error string.

Definition resolveLeaf (s path : string) (p : provider) (resolved : gset string)
    : result string (string * gset string) :=
  match refPattern s with
  | Some name =>
    match p name with
    | Err ErrNotFound =>
      Err ("secret " +:+ quote name +:+ " referenced at " +:+ path +:+ " was not found")
    | Err (ErrOther msg) =>
      Err ("reading secret " +:+ quote name +:+ " at " +:+ path +:+ ": " +:+ msg)
    | Ok val => Ok (val, {[name]} ∪ resolved)
    end
  | None =>
    match escapePattern s with
    | Some n => Ok ("$[" +:+ n +:+ "]", resolved)
    | None => if anyRefLike s then Err (bad_ref_message path s) else Ok (s, resolved)
    end
  end.

Fixpoint walkResolve (node : value) (path : string) (p : provider) (resolved : gset string)
    : result string (value * gset string) :=
  match node with
  | VObj m =>
    '(out, resolved) ← (fix go (m : list (string * value)) resolved := match m with
      | [] => Ok ([], resolved)
      | (k, child) :: m =>
        '(c, resolved) ← walkResolve child (joinPathKey path k) p resolved;
        '(out, resolved) ← go m resolved;
        Ok ((k, c) :: out, resolved)
      end) m resolved;
    Ok (VObj out, resolved)
  | VAnyObj m =>
    '(out, resolved) ← (fix go (m : list (any_key * value)) resolved := match m with
      | [] => Ok ([], resolved)
      | (k, child) :: m =>
        '(c, resolved) ← walkResolve child (joinPathKey path (key_text k)) p resolved;
        '(out, resolved) ← go m resolved;
        Ok ((k, c) :: out, resolved)
      end) m resolved;
    Ok (VAnyObj out, resolved)
  | VArr l =>
    '(out, resolved) ← (fix go (i : nat) (l : list value) resolved := match l with
      | [] => Ok ([], resolved)
      | child :: l =>
        '(c, resolved) ← walkResolve child (indexPath path i) p resolved;
        '(out, resolved) ← go (S i) l resolved;
        Ok (c :: out, resolved)
      end) 0 l resolved;
    Ok (VArr out, resolved)
  | VStr s => '(s', resolved) ← resolveLeaf s path p resolved; Ok (VStr s', resolved)
  | v => Ok (v, resolved)
  end.

Definition Resolve (tree : value) (p : provider) : result string (value * list string) :=
  '(out, resolved) ← walkResolve tree EmptyString p ∅;
  Ok (out, sorted_names resolved).

(** ** FileProvider

    [files dir name] is the outcome of [os.ReadFile (filepath.Join dir name)]. *)
Inductive read_outcome : Type :=
| ReadData (data : string)
| ReadNotExist
| ReadError (msg : string).

Definition newline : ascii := "010"%char.
Definition carriage_return : ascii := "013"%char.

Definition strip_newline (s : string) : string :=
  match cut_suffix_byte newline s with
  | Some r =>
    match cut_suffix_byte carriage_return r with
    | Some r' => r'
    | None => r
    end
  | None => s
  end.

Definition FileProvider_Get (files : string → string → read_outcome) (dir : string) : provider :=
  λ name, match files dir name with
  | ReadNotExist => Err ErrNotFound
  | ReadError msg => Err (ErrOther msg)
  | ReadData s => Ok (strip_newline s)
  end.

(** ** Specification of the two walks *)

(** A leaf is well formed when it is a reference, an escape, or holds no "$[". *)
Definition leaf_ok (s : string) : bool :=
  match refPattern s, escapePattern s with
  | None, None => negb (anyRefLike s)
  | _, _ => true
  end.

(** The names a list of leaves references. *)
Definition leaf_refs (ls : list (string * string)) : gset string :=
  list_to_set (omap (λ ps, refPattern ps.2) ls).

(** The value of a well-formed leaf once every reference is replaced. *)
Definition leaf_value (p : provider) (s : string) : string :=
  match refPattern s with
  | Some n => match p n with Ok v => v | Err _ => EmptyString end
  | None => match escapePattern s with
            | Some n => "$[" +:+ n +:+ "]"
            | None => s
            end
  end.

Definition walk_leaves (ls : list (string * string)) (refs : gset string)
    : result string (gset string) :=
  foldl (λ acc ps, refs ← acc; checkLeafSyntax ps.2 ps.1 refs) (Ok refs) ls.

#[local] Arguments walk_leaves : simpl never.
#[local] Arguments leaf_refs : simpl never.

(** A leaf that resolves: well formed, and its name known to the provider. *)
Definition resolvable (p : provider) (s : string) : bool :=
  leaf_ok s && match refPattern s with Some n => is_ok (p n) | None => true end.

(** ** Lemmas: Validate *)

Lemma walk_leaves_app l1 l2 refs :
  walk_leaves (l1 ++ l2) refs = (refs' ← walk_leaves l1 refs; walk_leaves l2 refs').
Proof.
  unfold walk_leaves. rewrite foldl_app. destruct (foldl _ _ l1) as [r|e]; [done|].
  cbn. induction l2 as [|x l2 IH]; [done|]. apply IH.
Qed.

Lemma walk_leaves_cons x ls refs :
  walk_leaves (x :: ls) refs = (refs' ← checkLeafSyntax x.2 x.1 refs; walk_leaves ls refs').
Proof. exact (walk_leaves_app [x] ls refs). Qed.

Lemma walkValidate_leaves v path refs :
  walkValidate v path refs = walk_leaves (leaves v path) refs.
Proof.
  revert path refs.
  induction v as [| | | |l IH|m IH|m IH] using value_ind'; intros path refs; try done.
  - rewrite leaves_arr. simpl. generalize 0 as i. revert refs.
    induction IH as [|x l Hx _ IHl]; intros refs i; [done|].
    rewrite elem_leaves_cons, walk_leaves_app, Hx.
    destruct (walk_leaves _ refs); [apply IHl|done].
  - rewrite leaves_obj. simpl. revert refs.
    induction IH as [|[k x] m Hx _ IHm]; intros refs; [done|]. cbn in Hx.
    rewrite entry_leaves_cons, walk_leaves_app, Hx.
    destruct (walk_leaves _ refs); [apply IHm|done].
  - rewrite leaves_any. simpl. revert refs.
    induction IH as [|[k x] m Hx _ IHm]; intros refs; [done|]. cbn in Hx.
    rewrite entry_leaves_cons, walk_leaves_app, Hx.
    destruct (walk_leaves _ refs); [apply IHm|done].
Qed.

Lemma checkLeafSyntax_ok s path refs :
  leaf_ok s = true → checkLeafSyntax s path refs = Ok (leaf_refs [(path, s)] ∪ refs).
Proof.
  unfold leaf_ok, checkLeafSyntax, leaf_refs. cbn. destruct (refPattern s); cbn.
  { intros _. f_equal. set_solver. }
  destruct (escapePattern s); [intros _; f_equal; set_solver|].
  destruct (anyRefLike s); [done|]. intros _. f_equal. set_solver.
Qed.

Lemma checkLeafSyntax_err s path refs :
  leaf_ok s = false → checkLeafSyntax s path refs = Err (bad_ref_message path s).
Proof. unfold leaf_ok, checkLeafSyntax. cases. Qed.

Lemma leaf_refs_cons x ls : leaf_refs (x :: ls) = leaf_refs [x] ∪ leaf_refs ls.
Proof. unfold leaf_refs. cbn. destruct (refPattern _); cbn; set_solver. Qed.

Lemma walk_leaves_ok ls refs :
  forallb (λ ps, leaf_ok ps.2) ls = true → walk_leaves ls refs = Ok (leaf_refs ls ∪ refs).
Proof.
  revert refs. induction ls as [|[q s] ls IH]; intros refs H; simpl in H.
  { unfold leaf_refs. cbn. by rewrite (left_id_L ∅ (∪)). }
  apply andb_true_iff in H as [Hs Hls].
  rewrite walk_leaves_cons, checkLeafSyntax_ok by done. simpl. rewrite IH by done.
  rewrite (leaf_refs_cons (q, s) ls), assoc_L, (comm_L (∪) (leaf_refs ls)) by apply _. done.
Qed.

Lemma walk_leaves_err ls refs :
  forallb (λ ps, leaf_ok ps.2) ls = false →
  ∃ ps, ps ∈ ls ∧ leaf_ok ps.2 = false ∧ walk_leaves ls refs = Err (bad_ref_message ps.1 ps.2).
Proof.
  revert refs. induction ls as [|[q s] ls IH]; intros refs H; simpl in H; [done|].
  setoid_rewrite walk_leaves_cons. destruct (leaf_ok s) eqn:Hs.
  - setoid_rewrite checkLeafSyntax_ok; [|done]. simpl.
    destruct (IH (leaf_refs [(q, s)] ∪ refs) H) as (ps & Hin & Hbad & Hw).
    exists ps. split_and!; [by constructor|done|exact Hw].
  - exists (q, s). split_and!; [constructor|done|]. by rewrite checkLeafSyntax_err.
Qed.

(** ** Lemmas: Resolve *)

Lemma resolveLeaf_ok s path p R :
  resolvable p s = true →
  resolveLeaf s path p R = Ok (leaf_value p s, leaf_refs [(path, s)] ∪ R).
Proof.
  unfold resolvable, leaf_ok, resolveLeaf, leaf_value, leaf_refs. cbn.
  destruct (refPattern s) as [n|]; cbn.
  { destruct (p n); [|done]. intros _. do 2 f_equal. set_solver. }
  destruct (escapePattern s); cbn; [intros _; do 2 f_equal; set_solver|].
  destruct (anyRefLike s); [done|]. intros _. do 2 f_equal. set_solver.
Qed.

Lemma resolveLeaf_err s path p R :
  resolvable p s = false → is_ok (resolveLeaf s path p R) = false.
Proof.
  unfold resolvable, leaf_ok, resolveLeaf.
  destruct (refPattern s) as [n|]; cbn; [destruct (p n) as [|[]]; done|].
  destruct (escapePattern s); cbn; [done|]. by destruct (anyRefLike s).
Qed.

(** The loops of [walkResolve], named. *)
Fixpoint resolve_elems (path : string) (p : provider) (i : nat) (l : list value)
    (R : gset string) : result string (list value * gset string) :=
  match l with
  | [] => Ok ([], R)
  | child :: l =>
    '(c, R) ← walkResolve child (indexPath path i) p R;
    '(out, R) ← resolve_elems path p (S i) l R;
    Ok (c :: out, R)
  end.

Fixpoint resolve_entries {K} (text : K → string) (path : string) (p : provider)
    (m : list (K * value)) (R : gset string) : result string (list (K * value) * gset string) :=
  match m with
  | [] => Ok ([], R)
  | (k, child) :: m =>
    '(c, R) ← walkResolve child (joinPathKey path (text k)) p R;
    '(out, R) ← resolve_entries text path p m R;
    Ok ((k, c) :: out, R)
  end.

#[local] Ltac name_loop l :=
  induction l as [|x l IH]; intros; simpl; [done|try destruct x as [k x]];
  destruct (walkResolve _ _ _ _) as [[]|]; simpl; [by rewrite IH|done].

Lemma walkResolve_arr l path p R :
  walkResolve (VArr l) path p R = ('(out, R) ← resolve_elems path p 0 l R; Ok (VArr out, R)).
Proof.
  simpl. match goal with |- ?f 0 l R ≫= _ = _ =>
    assert (∀ i R, f i l R = resolve_elems path p i l R) as ->; [|done] end.
  name_loop l.
Qed.

Lemma walkResolve_obj m path p R :
  walkResolve (VObj m) path p R =
  ('(out, R) ← resolve_entries id path p m R; Ok (VObj out, R)).
Proof.
  simpl. match goal with |- ?f m R ≫= _ = _ =>
    assert (∀ R, f m R = resolve_entries id path p m R) as ->; [|done] end.
  name_loop m.
Qed.

Lemma walkResolve_any m path p R :
  walkResolve (VAnyObj m) path p R =
  ('(out, R) ← resolve_entries key_text path p m R; Ok (VAnyObj out, R)).
Proof.
  simpl. match goal with |- ?f m R ≫= _ = _ =>
    assert (∀ R, f m R = resolve_entries key_text path p m R) as ->; [|done] end.
  name_loop m.
Qed.

(** What a walk over a (part of a) tree returns: the rewritten part and the
    names, when every leaf of it resolves; an error otherwise. *)
Definition walk_result {A} (p : provider) (ls : list (string * string)) (out : A)
    (R : gset string) (r : result string (A * gset string)) : Prop :=
  if forallb (λ ps, resolvable p ps.2) ls then r = Ok (out, leaf_refs ls ∪ R)
  else is_ok r = false.

Lemma leaf_refs_app l1 l2 : leaf_refs (l1 ++ l2) = leaf_refs l1 ∪ leaf_refs l2.
Proof. unfold leaf_refs. rewrite omap_app, list_to_set_app_L. done. Qed.

Lemma walk_result_seq {A B C} p l1 l2 (x : A) (y : B) (z : C) R r1 r2 (k : A → B → C) :
  z = k x y →
  walk_result p l1 x R r1 →
  (∀ R', walk_result p l2 y R' (r2 R')) →
  walk_result p (l1 ++ l2) z R ('(c, R1) ← r1; '(d, R2) ← r2 R1; Ok (k c d, R2)).
Proof.
  intros -> H1 H2. unfold walk_result in *. rewrite forallb_app.
  destruct (forallb _ l1); cbn; [subst r1|by destruct r1].
  cbn. specialize (H2 (leaf_refs l1 ∪ R)). destruct (forallb _ l2).
  - rewrite H2. cbn. rewrite leaf_refs_app, assoc_L, (comm_L (∪) (leaf_refs l2)) by apply _. done.
  - by destruct (r2 _).
Qed.

Lemma walk_result_map {A B} p ls (x : A) (y : B) R r (k : A → B) :
  y = k x → walk_result p ls x R r → walk_result p ls y R ('(o, R') ← r; Ok (k o, R')).
Proof.
  intros -> H. unfold walk_result in *. destruct (forallb _ ls); [by subst r|by destruct r].
Qed.

Lemma walk_result_nil {A} p (x : A) R : walk_result p [] x R (Ok (x, R)).
Proof. unfold walk_result, leaf_refs. cbn. by rewrite (left_id_L ∅ (∪)). Qed.
#[local] Hint Resolve walk_result_nil : datuplet.

Lemma resolve_entries_spec {K} (text : K → string) p path m R :
  Forall (λ kv, ∀ path R, walk_result p (leaves kv.2 path) (map_leaves (leaf_value p) kv.2) R
    (walkResolve kv.2 path p R)) m →
  walk_result p (entry_leaves text path m)
    (map (λ kv, (kv.1, map_leaves (leaf_value p) kv.2)) m) R (resolve_entries text path p m R).
Proof.
  intros H. revert R. induction H as [|[k x] m Hx _ IHm]; intros R; [apply walk_result_nil|].
  rewrite entry_leaves_cons. simpl resolve_entries.
  apply (walk_result_seq p _ _ _ _ _ R _ _ (λ c o, (k, c) :: o) (eq_refl _)); auto.
Qed.

Lemma walkResolve_spec p v path R :
  walk_result p (leaves v path) (map_leaves (leaf_value p) v) R (walkResolve v path p R).
Proof.
  revert path R.
  induction v as [|b|n|s|l IH|m IH|m IH] using value_ind'; intros path R;
    try apply walk_result_nil.
  - apply (walk_result_map p [(path, s)] (leaf_value p s)); [done|]. unfold walk_result.
    destruct (resolvable p s) eqn:Hs; simpl; rewrite Hs; simpl;
      [by apply resolveLeaf_ok|by apply resolveLeaf_err].
  - rewrite leaves_arr, walkResolve_arr.
    apply (walk_result_map p _ (map (map_leaves (leaf_value p)) l)); [done|].
    generalize 0 as i. revert R. induction IH as [|x l Hx _ IHl]; intros R i;
      [apply walk_result_nil|].
    rewrite elem_leaves_cons. simpl resolve_elems.
    apply (walk_result_seq p _ _ _ _ _ R _ _ cons (eq_refl _)); auto.
  - rewrite leaves_obj, walkResolve_obj. apply (walk_result_map p _ _ _ _ _ VObj eq_refl).
    by apply resolve_entries_spec.
  - rewrite leaves_any, walkResolve_any. apply (walk_result_map p _ _ _ _ _ VAnyObj eq_refl).
    by apply resolve_entries_spec.
Qed.

Lemma Validate_eq tree :
  Validate tree =
  if forallb (λ ps, leaf_ok ps.2) (leaves tree EmptyString)
  then Ok (sorted_names (leaf_refs (leaves tree EmptyString)))
  else Validate tree.
Proof.
  destruct (forallb _ _) eqn:H; [|done]. unfold Validate. rewrite walkValidate_leaves.
  rewrite walk_leaves_ok by done. simpl. by rewrite (right_id_L ∅ (∪)).
Qed.

Lemma Validate_bad tree :
  forallb (λ ps, leaf_ok ps.2) (leaves tree EmptyString) = false →
  ∃ ps, ps ∈ leaves tree EmptyString ∧ leaf_ok ps.2 = false ∧
    Validate tree = Err (bad_ref_message ps.1 ps.2).
Proof.
  intros (ps & Hin & Hbad & Hw)%(walk_leaves_err _ ∅). exists ps. split_and!; [done..|].
  unfold Validate. by rewrite walkValidate_leaves, Hw.
Qed.

Lemma elem_of_leaf_refs n ls :
  n ∈ leaf_refs ls ↔ ∃ ps, ps ∈ ls ∧ refPattern ps.2 = Some n.
Proof. unfold leaf_refs. rewrite elem_of_list_to_set, list_elem_of_omap. naive_solver. Qed.

(** All leaves resolve exactly when they are well formed and the provider
    knows every referenced name. *)
Lemma resolvable_all p ls :
  forallb (λ ps, resolvable p ps.2) ls = true ↔
  forallb (λ ps, leaf_ok ps.2) ls = true ∧ ∀ n, n ∈ leaf_refs ls → is_ok (p n) = true.
Proof.
  rewrite !forallb_elem. unfold resolvable. split.
  - intros H. split; [intros x Hx; specialize (H x Hx); by split_and_all|].
    intros n (ps & Hin & Hn)%elem_of_leaf_refs. specialize (H ps Hin). rewrite Hn in H.
    by split_and_all.
  - intros [Hok Hp] x Hx. rewrite Hok by done. simpl.
    destruct (refPattern x.2) as [n|] eqn:Hn; [|done]. apply Hp, elem_of_leaf_refs. eauto.
Qed.

(** Two outcomes that agree up to the text of the error. *)
Definition same_verdict (r1 r2 : result string (list string)) : Prop :=
  match r1, r2 with
  | Ok a, Ok b => a = b
  | Err _, Err _ => True
  | _, _ => False
  end.

Lemma leaf_refs_perm l1 l2 : l1 ≡ₚ l2 → leaf_refs l1 = leaf_refs l2.
Proof.
  intros H. apply set_eq. intros n. rewrite !elem_of_leaf_refs. by setoid_rewrite H.
Qed.

Lemma Validate_veq t1 t2 : veq t1 t2 → same_verdict (Validate t1) (Validate t2).
Proof.
  intros H%(leaves_veq _ _ EmptyString).
  pose proof (forallb_perm (λ ps, leaf_ok ps.2) _ _ H) as Hf.
  destruct (forallb (λ ps, leaf_ok ps.2) (leaves t1 EmptyString)) eqn:H1.
  - rewrite Validate_eq, H1, (Validate_eq t2), <-Hf. simpl. f_equal. by apply leaf_refs_perm.
  - destruct (Validate_bad t1 H1) as (? & _ & _ & ->).
    by destruct (Validate_bad t2 (eq_sym Hf)) as (? & _ & _ & ->).
Qed.

#[export] Instance Validate_proper : Proper (veq ==> same_verdict) Validate.
Proof. exact Validate_veq. Qed.

(** ** Properties *)

(** [Validate] accepts a tree exactly when every string leaf is a whole
    reference, an escape, or free of "$["; it then returns the sorted,
    duplicate-free names of all references, and otherwise the error of a leaf
    that is none of these, with its path. *)
Theorem Validate_correct tree :
  let ls := leaves tree EmptyString in
  match Validate tree with
  | Ok names =>
    (∀ ps, ps ∈ ls → leaf_ok ps.2 = true) ∧
    StronglySorted String.le names ∧ NoDup names ∧
    (∀ n, n ∈ names ↔ ∃ ps, ps ∈ ls ∧ refPattern ps.2 = Some n)
  | Err msg => ∃ ps, ps ∈ ls ∧ leaf_ok ps.2 = false ∧ msg = bad_ref_message ps.1 ps.2
  end.
Proof.
  intros ls. destruct (forallb (λ ps, leaf_ok ps.2) ls) eqn:H.
  - rewrite Validate_eq. fold ls. rewrite H. split_and!; auto with datuplet.
    + by apply forallb_elem.
    + intros n. by rewrite elem_of_sorted_names, elem_of_leaf_refs.
  - destruct (Validate_bad tree H) as (ps & Hin & Hbad & ->). eauto.
Qed.

(** [Resolve] succeeds exactly when [Validate] succeeds and the provider
    has a value for every name [Validate] reports; it returns the same names
    and the tree with each leaf replaced once (a resolved value is never
    resolved again), everything else unchanged. *)
Theorem Resolve_correct tree p out names :
  Resolve tree p = Ok (out, names) ↔
  Validate tree = Ok names ∧ (∀ n, n ∈ names → is_ok (p n) = true) ∧
  out = map_leaves (leaf_value p) tree.
Proof.
  set (ls := leaves tree EmptyString).
  pose proof (walkResolve_spec p tree EmptyString ∅) as Hr. unfold walk_result in Hr. fold ls in Hr.
  pose proof (resolvable_all p ls) as Hall. unfold Resolve.
  destruct (forallb (λ ps, resolvable p ps.2) ls) eqn:Hres.
  - rewrite Hr, (Validate_eq tree). fold ls. destruct Hall as [[-> Hp] _]; [done|].
    simpl. rewrite (right_id_L ∅ (∪)). split.
    + intros [= <- <-]. split_and!; [done| |done].
      intros n Hn. by apply Hp, elem_of_sorted_names.
    + intros ([= <-] & _ & ->). done.
  - split; [by destruct (walkResolve tree _ p ∅)|]. intros (Hv & Hp & _).
    destruct (forallb (λ ps, leaf_ok ps.2) ls) eqn:H.
    + rewrite Validate_eq in Hv. fold ls in Hv. rewrite H in Hv. injection Hv as <-.
      destruct Hall as [_ Hall]. discriminate Hall. split; [done|].
      intros n Hn. by apply Hp, elem_of_sorted_names.
    + destruct (Validate_bad tree H) as (? & _ & _ & E). by rewrite Hv in E.
Qed.

(** Neither the verdict of [Validate] nor the names it returns depend on
    the order in which the maps of the tree are iterated. *)
Theorem Validate_order_independent t1 t2 :
  veq t1 t2 → same_verdict (Validate t1) (Validate t2).
Proof. exact (Validate_veq t1 t2). Qed.
End Secrets.

(** ** Witnesses and sanity checks *)

Module Examples.
#[local] Instance ascii_tables : UnicodeTables :=
  {| is_print_above_latin1 _ := true; to_upper_above_latin1 r := r |}.

Definition sample : value :=
  VObj [("url", VStr "https://x"); ("token", VStr "$[api-key]");
        ("nested", VArr [VStr "$$[literal]"; VNum "3"; VStr "$[db_pw]"])].
Definition sample' : value :=
  VObj [("nested", VArr [VStr "$$[literal]"; VNum "3"; VStr "$[db_pw]"]);
        ("url", VStr "https://x"); ("token", VStr "$[api-key]")].

Example validate_sample : Validate sample = Ok ["api-key"; "db_pw"].
Proof. vm_compute. reflexivity. Qed.

Example validate_midstring :
  Validate (VObj [("a", VStr "x$[y]")]) =
  Err ("invalid secret reference at a: only whole-scalar $[name] is supported (got " +:+
       quote "x$[y]" +:+ ")").
Proof. vm_compute. reflexivity. Qed.

(** A provider whose value looks like a reference: it is not resolved again. *)
Example resolve_sample :
  Resolve sample (λ n, if decide (n = "db_pw") then Ok "$[api-key]" else Ok "k") =
  Ok (VObj [("url", VStr "https://x"); ("token", VStr "k");
            ("nested", VArr [VStr "$[literal]"; VNum "3"; VStr "$[api-key]"])],
      ["api-key"; "db_pw"]).
Proof. vm_compute. reflexivity. Qed.

Example strip_crlf : strip_newline (String "a" (String carriage_return (String newline EmptyString))) = "a".
Proof. reflexivity. Qed.

Lemma Validate_order_independent_witness :
  veq sample sample' ∧ same_verdict (Validate sample) (Validate sample').
Proof.
  assert (H : veq sample sample').
  { apply (veq_obj _ [("nested", VArr [VStr "$$[literal]"; VNum "3"; VStr "$[db_pw]"]);
      ("url", VStr "https://x"); ("token", VStr "$[api-key]")]).
    - symmetry. apply (Permutation_cons_append [_; _]).
    - repeat constructor; simpl; apply veq_refl. }
  split; [exact H|exact (Validate_order_independent sample sample' H)].
Defined.
End Examples.
