(* ===== verification/ApiTypes.v ===== *)
(** * ApiTypes: the resources of the API group (pkg/k8s/api/v1)

    The Pipeline and ComponentDefinition types of pipeline_types.go and
    component_types.go with their methods.  [LatestStable] is proved to pick the
    highest stable semver. *)

From S2P Require Import Prelude GoValue.

(** ** Parameters

    [resource.Quantity] of k8s.io/apimachinery and the [encoding/json] codec. *)

Class Quantities : Type := {
  quantity : Type;
  q_cmp : quantity → quantity → comparison;
  q_string : quantity → string;
  q_parse : string → option quantity;
}.

(** [Cmp] compares the numeric values of two quantities. *)
Class QuantityLaws `{Quantities} : Prop := {
  q_cmp_refl : ∀ a, q_cmp a a = Eq;
  q_cmp_antisym : ∀ a b, q_cmp b a = CompOpp (q_cmp a b);
  q_cmp_trans : ∀ a b c, q_cmp a b ≠ Gt → q_cmp b c ≠ Gt → q_cmp a c ≠ Gt;
}.

(** [json_object raw] is [json.Unmarshal] of [raw] into a [map[string]any]
    ([None]: the JSON null, which leaves the map nil); [json_any] decodes into
    [any] ([None] on an error, which leaves the variable nil). *)
Class Json : Type := {
  json_object : string → result string (option (gomap value));
  json_any : string → option value;
  json_marshal : gomap value → string;
}.

(** ** Pipeline *)

Record GatewaySpec := MkGatewaySpec {
  gw_ChunkSize : Z;
  gw_BufferSize : Z;
  gw_RowGroupSize : Z;
  gw_TargetFileSize : Z;
}.

Record InputTableSpec := MkInputTableSpec {
  it_Bucket : string;
  it_Table : string;
  it_LogicalName : string;
  it_Since : string;
  it_SinceSnapshot : option Z;
  it_SinceDays : option Z;
  it_TimestampColumn : string;
}.

Record InputSpec := MkInputSpec {
  in_Buckets : list string;
  in_Tables : list InputTableSpec;
}.

Record OutputBucketSpec := MkOutputBucketSpec {
  ob_Name : string;
  ob_WriteMode : string;
}.

Record PartitionFieldSpec := MkPartitionFieldSpec {
  pf_SourceColumn : string;
  pf_Transform : string;
}.

Record ColumnSpec := MkColumnSpec {
  col_Name : string;
  col_Type : string;
}.

Record OutputTableSpec := MkOutputTableSpec {
  ot_Name : string;
  ot_Bucket : string;
  ot_LogicalName : string;
  ot_WriteMode : string;
  ot_PartitionFields : list PartitionFieldSpec;
  ot_Columns : list ColumnSpec;
}.

Record ProcessorSpec := MkProcessorSpec {
  proc_Type : string;
  proc_Columns : list string;
}.

Record OutputSpec := MkOutputSpec {
  o_DefaultBucket : string;
  o_DefaultWriteMode : string;
  o_Buckets : list OutputBucketSpec;
  o_Tables : list OutputTableSpec;
  o_Processors : list ProcessorSpec;
}.

#[export] Instance GatewaySpec_eq_dec : EqDecision GatewaySpec.
Proof. solve_decision. Defined.
#[export] Instance InputTableSpec_eq_dec : EqDecision InputTableSpec.
Proof. solve_decision. Defined.
#[export] Instance InputSpec_eq_dec : EqDecision InputSpec.
Proof. solve_decision. Defined.
#[export] Instance OutputBucketSpec_eq_dec : EqDecision OutputBucketSpec.
Proof. solve_decision. Defined.
#[export] Instance PartitionFieldSpec_eq_dec : EqDecision PartitionFieldSpec.
Proof. solve_decision. Defined.
#[export] Instance ColumnSpec_eq_dec : EqDecision ColumnSpec.
Proof. solve_decision. Defined.
#[export] Instance OutputTableSpec_eq_dec : EqDecision OutputTableSpec.
Proof. solve_decision. Defined.
#[export] Instance ProcessorSpec_eq_dec : EqDecision ProcessorSpec.
Proof. solve_decision. Defined.
#[export] Instance OutputSpec_eq_dec : EqDecision OutputSpec.
Proof. solve_decision. Defined.

Section WithQuantities.
Context `{Q : !Quantities}.

(** [corev1.ResourceList] and [corev1.ResourceRequirements]. *)
Definition ResourceList : Type := gomap quantity.
Record ResourceRequirements := MkResourceRequirements {
  rr_Limits : ResourceList;
  rr_Requests : ResourceList;
}.

Record ComponentSpec := MkComponentSpec {
  c_Name : string;
  c_Component : string;
  c_Version : string;
  c_Config : string;
  c_Inputs : option InputSpec;
  c_Outputs : option OutputSpec;
  c_Resources : option ResourceRequirements;
}.

Record StageSpec := MkStageSpec {
  st_Name : string;
  st_Components : list ComponentSpec;
}.

Record PipelineSpec := MkPipelineSpec {
  ps_Gateway : GatewaySpec;
  ps_Stages : list StageSpec;
}.

Record Pipeline := MkPipeline {
  p_Name : string;
  p_Namespace : string;
  p_Generation : Z;
  p_Spec : PipelineSpec;
}.

(** [ComponentSpec.ConfigMap]: an empty [Raw] is a nil map. *)
Definition ConfigMap `{!UnicodeTables, !Json} (c : ComponentSpec)
    : result string (option (gomap value)) :=
  if str_empty (c_Config c) then Ok None
  else map_err (λ e, "component " +:+ quote (c_Name c) +:+ " config: " +:+ e)
         (json_object (c_Config c)).

(** ** ComponentDefinition *)

Record ComponentResources := MkComponentResources {
  cr_Default : ResourceRequirements;
  cr_Max : ResourceList;
}.

Record VersionSpec := MkVersionSpec {
  v_Version : string;
  v_Image : string;
  v_Prerelease : bool;
  v_ConfigSchema : string;
  v_Resources : option ComponentResources;
}.

Record ComponentIO := MkComponentIO {
  io_Inputs : string;
  io_Outputs : string;
}.

Record ComponentDefinitionSpec := MkComponentDefinitionSpec {
  cd_DisplayName : string;
  cd_Description : string;
  cd_Maintainer : string;
  cd_Deprecated : bool;
  cd_DefaultVersion : string;
  cd_Versions : list VersionSpec;
  cd_IO : option ComponentIO;
}.

Record ComponentDefinition := MkComponentDefinition {
  cdef_Spec : ComponentDefinitionSpec;
  cdef_Phase : string;
  cdef_Message : string;
}.

Definition InputsMode (io : option ComponentIO) : string :=
  match io with
  | None => "optional"
  | Some io => if str_empty (io_Inputs io) then "optional" else io_Inputs io
  end.

Definition OutputsMode (io : option ComponentIO) : string :=
  match io with
  | None => "optional"
  | Some io => if str_empty (io_Outputs io) then "optional" else io_Outputs io
  end.
End WithQuantities.

(** ** Stable versions *)

(** The decimal value of a digit string. *)
Fixpoint digits_from (acc : Z) (s : string) : Z :=
  match s with
  | EmptyString => acc
  | String c s => digits_from (acc * 10 + (Z.of_N (code c) - 48)) s
  end.
Definition digits_value : string → Z := digits_from 0.
Definition all_digits (s : string) : bool := negb (str_empty s) && forall_byte is_digit_byte s.

(** [strconv.Atoi] of a digit string, its error dropped: the value, or the
    largest [int] when it does not fit. *)
Definition atoi_saturated (s : string) : Z := Z.min (digits_value s) max_int64.

(** The submatches of [^v(\d+)\.(\d+)\.(\d+)$]. *)
Definition stableVersionPattern (v : string) : option (string * string * string) :=
  match cut_prefix "v" v with
  | Some rest =>
    match split_byte "."%char rest with
    | [a; b; c] => if all_digits a && all_digits b && all_digits c then Some (a, b, c) else None
    | _ => None
    end
  | None => None
  end.

Definition IsStableVersion (v : string) : bool :=
  match stableVersionPattern v with Some _ => true | None => false end.

Definition parseStableVersion (v : string) : option (Z * Z * Z) :=
  match stableVersionPattern v with
  | Some (a, b, c) => Some (atoi_saturated a, atoi_saturated b, atoi_saturated c)
  | None => None
  end.

(** The comparison of [LatestStable]'s loop: strictly newer. *)
Definition newer (x y : Z * Z * Z) : bool :=
  let '(major, minor, patch) := x in
  let '(bestMajor, bestMinor, bestPatch) := y in
  (bestMajor <? major)%Z ||
  ((major =? bestMajor)%Z && (bestMinor <? minor)%Z) ||
  ((major =? bestMajor)%Z && (minor =? bestMinor)%Z && (bestPatch <? patch)%Z).

Section Versions.
Context `{Q : !Quantities}.

Fixpoint latest_from (best : option (VersionSpec * (Z * Z * Z))) (vs : list VersionSpec)
    : option (VersionSpec * (Z * Z * Z)) :=
  match vs with
  | [] => best
  | v :: vs =>
    if v_Prerelease v then latest_from best vs
    else match parseStableVersion (v_Version v) with
         | None => latest_from best vs
         | Some n =>
           match best with
           | None => latest_from (Some (v, n)) vs
           | Some (_, b) => latest_from (if newer n b then Some (v, n) else best) vs
           end
         end
  end.

Definition LatestStable (s : ComponentDefinitionSpec) : option VersionSpec :=
  fst <$> latest_from None (cd_Versions s).

Definition FindVersion (s : ComponentDefinitionSpec) (v : string) : option VersionSpec :=
  find (λ ver, bool_decide (v_Version ver = v)) (cd_Versions s).
End Versions.

(** ** Lemmas *)

Ltac lex := unfold newer in *;
  repeat match goal with n : (Z * Z * Z)%type |- _ => destruct n as [[? ?] ?] end; lia.

Lemma newer_irrefl n : newer n n = false.
Proof. lex. Qed.

Lemma newer_le_trans a b c : newer a b = false → newer b c = false → newer a c = false.
Proof. lex. Qed.

Lemma newer_asym a b : newer a b = true → newer b a = false.
Proof. lex. Qed.
#[export] Hint Resolve newer_irrefl newer_asym newer_le_trans : datuplet.

Section VersionLemmas.
Context `{Q : !Quantities}.

(** The version number of a candidate of [LatestStable]. *)
Definition candidate (v : VersionSpec) : option (Z * Z * Z) :=
  if v_Prerelease v then None else parseStableVersion (v_Version v).

Lemma latest_from_cons best v vs :
  latest_from best (v :: vs) =
  latest_from (match candidate v with
    | None => best
    | Some n => match best with
                | None => Some (v, n)
                | Some (w, b) => if newer n b then Some (v, n) else Some (w, b)
                end end) vs.
Proof.
  unfold candidate. simpl. destruct (v_Prerelease v); [done|].
  destruct (parseStableVersion _); [|done]. destruct best as [[]|]; [|done]. by destruct newer.
Qed.

(** Once there is a best version, the fold ends with one at least as new. *)
Lemma latest_from_Some vs w b :
  ∃ v n, latest_from (Some (w, b)) vs = Some (v, n) ∧ newer b n = false ∧
    ((v, n) = (w, b) ∨ (v ∈ vs ∧ candidate v = Some n)) ∧
    (∀ u m, u ∈ vs → candidate u = Some m → newer m n = false).
Proof.
  revert w b. induction vs as [|x vs IH]; intros w b.
  { exists w, b. split_and!; auto with datuplet. by intros ? ? ?%elem_of_nil. }
  rewrite latest_from_cons. destruct (candidate x) as [n|] eqn:Hx.
  - set (best := if newer n b then (x, n) else (w, b)).
    replace (if newer n b then Some (x, n) else Some (w, b)) with (Some (best.1, best.2))
      by (unfold best; by destruct (newer n b)).
    destruct (IH best.1 best.2) as (v & m & Hl & Hge & Hin & Hall).
    assert (newer b best.2 = false ∧ newer n best.2 = false) as [Hb Hn].
    { unfold best. destruct (newer n b) eqn:E; simpl; eauto with datuplet. }
    exists v, m. split_and!; [done|by eapply newer_le_trans| |].
    + destruct Hin as [Hin|[? ?]]; [|by right; split; [constructor|]].
      unfold best in Hin. destruct (newer n b); simplify_eq/=; [right|by left].
      by split; [constructor|].
    + intros u k [->|Hu]%elem_of_cons Hk; [|eauto]. simplify_eq. by eapply newer_le_trans.
  - destruct (IH w b) as (v & m & Hl & Hge & Hin & Hall). exists v, m. split_and!; [done..| |].
    + destruct Hin as [?|[? ?]]; [by left|right; by split; [constructor|]].
    + intros u k [->|Hu]%elem_of_cons Hk; [congruence|eauto].
Qed.

Lemma latest_from_None vs :
  match latest_from None vs with
  | None => ∀ u, u ∈ vs → candidate u = None
  | Some (v, n) => v ∈ vs ∧ candidate v = Some n ∧
      (∀ u m, u ∈ vs → candidate u = Some m → newer m n = false)
  end.
Proof.
  induction vs as [|x vs IH]; [by intros ? ?%elem_of_nil|].
  rewrite latest_from_cons. destruct (candidate x) as [n|] eqn:Hx.
  - destruct (latest_from_Some vs x n) as (v & m & -> & Hge & Hin & Hall). split_and!.
    + destruct Hin as [?|[? ?]]; simplify_eq; [by constructor|by constructor].
    + destruct Hin as [?|[? ?]]; by simplify_eq.
    + intros u k [->|Hu]%elem_of_cons Hk; [by simplify_eq|eauto].
  - destruct (latest_from None vs) as [[v n]|].
    + destruct IH as (? & ? & Hall). split_and!; [by constructor|done|].
      intros u k [->|Hu]%elem_of_cons Hk; [congruence|eauto].
    + intros u [->|Hu]%elem_of_cons; eauto.
Qed.

Lemma FindVersion_Some s v ver :
  FindVersion s v = Some ver → ver ∈ cd_Versions s ∧ v_Version ver = v.
Proof.
  unfold FindVersion. intros [Hin Heq]%find_some. split; [by apply list_elem_of_In|].
  by apply bool_decide_eq_true in Heq.
Qed.

Lemma FindVersion_None s v :
  FindVersion s v = None ↔ ∀ ver, ver ∈ cd_Versions s → v_Version ver ≠ v.
Proof.
  unfold FindVersion. induction (cd_Versions s) as [|x l IH]; simpl.
  { split; [by intros _ ? ?%elem_of_nil|done]. }
  case_bool_decide as H; split; intros Hn.
  - done.
  - exfalso. by apply (Hn x); [constructor|].
  - intros u [->|Hu]%elem_of_cons; [done|by apply IH].
  - apply IH. intros u Hu. apply Hn. by constructor.
Qed.

(** ** Properties *)

(** [LatestStable] returns a registered, non-prerelease version whose name
    is a stable semver, and no such version of the definition is newer; it
    returns nothing only when the definition has no such version. *)
Theorem LatestStable_highest (s : ComponentDefinitionSpec) :
  match LatestStable s with
  | Some v =>
    v ∈ cd_Versions s ∧ v_Prerelease v = false ∧
    ∃ n, parseStableVersion (v_Version v) = Some n ∧
      ∀ u m, u ∈ cd_Versions s → v_Prerelease u = false →
        parseStableVersion (v_Version u) = Some m → newer m n = false
  | None => ∀ u, u ∈ cd_Versions s → v_Prerelease u = true ∨ IsStableVersion (v_Version u) = false
  end.
Proof.
  unfold LatestStable. pose proof (latest_from_None (cd_Versions s)) as H.
  destruct (latest_from None _) as [[v n]|]; simpl.
  - destruct H as (Hin & Hc & Hall). unfold candidate in Hc, Hall.
    destruct (v_Prerelease v); [done|]. split_and!; [done..|]. exists n. split; [done|].
    intros u m Hu Hp Hm. apply (Hall u); [done|]. by rewrite Hp.
  - intros u Hu%H. unfold candidate, parseStableVersion, IsStableVersion in *.
    destruct (v_Prerelease u); [by left|right]. by destruct (stableVersionPattern _) as [[[]]|].
Qed.
End VersionLemmas.

Module VersionExamples.
#[local] Instance int_quantities : Quantities :=
  {| quantity := Z; q_cmp := Z.compare; q_string := itoa; q_parse _ := None |}.
Definition ver (v : string) (pre : bool) : VersionSpec := MkVersionSpec v "img" pre EmptyString None.
Definition def (vs : list VersionSpec) : ComponentDefinitionSpec :=
  MkComponentDefinitionSpec EmptyString EmptyString EmptyString false EmptyString vs None.

Example latest_example :
  LatestStable (def [ver "v0.9.0" false; ver "v0.10.0" false; ver "v1.0.0" true; ver "dev" false])
  = Some (ver "v0.10.0" false).
Proof. vm_compute. reflexivity. Qed.
End VersionExamples.
