(* ===== verification/GoTime.v ===== *)
(** * GoTime: durations

    The parts of Go's [strconv] and [time] the code relies on ([Atoi],
    [time.ParseDuration]), and [parseSinceDuration] of
    pkg/pipeline/validate/validate.go, which pkg/pipeline/config/parser.go
    repeats.  A [time.Duration] is an [int64] count of nanoseconds, kept as a [Z]
    with the wrap-around written out. *)

From Stdlib Require Import SpecFloat.
From S2P Require Import Prelude ApiTypes.
Local Open Scope Z_scope.

(** ** strconv.Atoi *)

Definition split_sign (s : string) : bool * string :=
  match s with
  | String c r =>
    if Ascii.eqb c "-"%char then (true, r)
    else if Ascii.eqb c "+"%char then (false, r) else (false, s)
  | EmptyString => (false, s)
  end.

(** [None] is any error (syntax or range). *)
Definition Atoi (s : string) : option Z :=
  let (neg, digits) := split_sign s in
  if all_digits digits then
    let n := if neg then - digits_value digits else digits_value digits in
    if in_int64 n then Some n else None
  else None.

(** ** time.ParseDuration *)

Definition nanosecond : Z := 1.
Definition microsecond : Z := 1000 * nanosecond.
Definition millisecond : Z := 1000 * microsecond.
Definition second : Z := 1000 * millisecond.
Definition minute : Z := 60 * second.
Definition hour : Z := 60 * minute.

Definition unit_of (u : string) : option Z :=
  if decide (u = "ns") then Some nanosecond
  else if decide (u = "us") then Some microsecond
  else if decide (u = String "194" (String "181" "s")) then Some microsecond
  else if decide (u = String "206" (String "188" "s")) then Some microsecond
  else if decide (u = "ms") then Some millisecond
  else if decide (u = "s") then Some second
  else if decide (u = "m") then Some minute
  else if decide (u = "h") then Some hour
  else None.

(** [float64] arithmetic, as the binary64 of the Standard Library. *)
Definition float64_of (z : Z) : spec_float := binary_normalize 53 1024 z 0 false.
Definition float64_mul : spec_float → spec_float → spec_float := SFmul 53 1024.
Definition float64_div : spec_float → spec_float → spec_float := SFdiv 53 1024.
(** The conversion [uint64(x)] of a finite non-negative float. *)
Definition uint64_of (x : spec_float) : Z :=
  match x with
  | S754_finite false m e => if 0 <=? e then Zpos m * 2 ^ e else Zpos m / 2 ^ (- e)
  | _ => 0
  end.

Definition digit_of (c : ascii) : Z := Z.of_N (code c) - 48.

(** [leadingInt]: [None] on overflow. *)
Fixpoint leadingInt (x : Z) (s : string) : option (Z * string) :=
  match s with
  | String c r =>
    if is_digit_byte c then
      if two63 / 10 <? x then None
      else let x := x * 10 + digit_of c in
           if two63 <? x then None else leadingInt x r
    else Some (x, s)
  | EmptyString => Some (x, s)
  end.

Fixpoint leadingFraction (overflow : bool) (x : Z) (scale : spec_float) (s : string)
    : Z * spec_float * string :=
  match s with
  | String c r =>
    if is_digit_byte c then
      if overflow then leadingFraction true x scale r
      else if (two63 - 1) / 10 <? x then leadingFraction true x scale r
      else let y := x * 10 + digit_of c in
           if two63 <? y then leadingFraction true x scale r
           else leadingFraction false y (float64_mul scale (float64_of 10)) r
    else (x, scale, s)
  | EmptyString => (x, scale, s)
  end.

Definition dot_or_digit (c : ascii) : bool := Ascii.eqb c "."%char || is_digit_byte c.

(** The unit: the bytes up to the next digit or period. *)
Fixpoint unit_span (s : string) : string * string :=
  match s with
  | String c r =>
    if dot_or_digit c then (EmptyString, s)
    else let (u, r) := unit_span r in (String c u, r)
  | EmptyString => (EmptyString, s)
  end.

Inductive duration_error : Type :=
| InvalidDuration
| MissingUnit
| UnknownUnit (u : string)
| OutOfFuel.

(** One term (digits, an optional fraction, a unit) with its value in nanoseconds. *)
Definition parse_term (s : string) : result duration_error (Z * string) :=
  match s with
  | EmptyString => Err InvalidDuration
  | String c _ =>
    if negb (dot_or_digit c) then Err InvalidDuration else
    match leadingInt 0 s with
    | None => Err InvalidDuration
    | Some (v, s1) =>
      let pre := negb (slen s =? slen s1)%nat in
      let '(f, scale, s2, post) :=
        match s1 with
        | String c1 r =>
          if Ascii.eqb c1 "."%char then
            let '(f, scale, s2) := leadingFraction false 0 (float64_of 1) r in
            (f, scale, s2, negb (slen r =? slen s2)%nat)
          else (0, float64_of 1, s1, false)
        | EmptyString => (0, float64_of 1, s1, false)
        end in
      if negb pre && negb post then Err InvalidDuration else
      let (u, s3) := unit_span s2 in
      if str_empty u then Err MissingUnit else
      match unit_of u with
      | None => Err (UnknownUnit u)
      | Some unit =>
        if two63 / unit <? v then Err InvalidDuration else
        let v := v * unit in
        let v := if 0 <? f
                 then (v + uint64_of (float64_mul (float64_of f)
                                        (float64_div (float64_of unit) scale))) mod two64
                 else v in
        if (0 <? f) && (two63 <? v) then Err InvalidDuration else Ok (v, s3)
      end
    end
  end.

Fixpoint parse_terms (fuel : nat) (d : Z) (s : string) : result duration_error Z :=
  match s, fuel with
  | EmptyString, _ => Ok d
  | _, O => Err OutOfFuel
  | _, S fuel =>
    '(v, r) ← parse_term s;
    let d := (d + v) mod two64 in
    if two63 <? d then Err InvalidDuration else parse_terms fuel d r
  end.

Definition ParseDuration (s : string) : result duration_error Z :=
  let (neg, r) := split_sign s in
  if decide (r = "0") then Ok 0
  else if str_empty r then Err InvalidDuration
  else
    d ← parse_terms (slen r) 0 r;
    if neg then Ok (wrap64 (- d))
    else if two63 - 1 <? d then Err InvalidDuration else Ok d.

(** [time.quote]: bytes outside printable ASCII in hexadecimal. *)
Fixpoint time_quote_bytes (s : string) : string :=
  match s with
  | EmptyString => String dquote EmptyString
  | String c s =>
    if (128 <=? code c)%N || (code c <? 32)%N
    then String backslash (String "x" EmptyString) +:+ hex 2 (code c) +:+ time_quote_bytes s
    else if Ascii.eqb c dquote || Ascii.eqb c backslash
    then String backslash (String c (time_quote_bytes s))
    else String c (time_quote_bytes s)
  end.
Definition time_quote (s : string) : string := String dquote (time_quote_bytes s).

Definition duration_error_text (orig : string) (e : duration_error) : string :=
  match e with
  | InvalidDuration | OutOfFuel => "time: invalid duration " +:+ time_quote orig
  | MissingUnit => "time: missing unit in duration " +:+ time_quote orig
  | UnknownUnit u => "time: unknown unit " +:+ time_quote u +:+ " in duration " +:+ time_quote orig
  end.

Section Since.
Context `{UT : !UnicodeTables}.

Definition parseSinceDuration (s : string) : result string Z :=
  if str_empty s then Err "empty duration string" else
  match cut_suffix_byte "d"%char s with
  | Some r =>
    match Atoi r with
    | Some n => if 0 <? n then Ok (wrap64 (wrap64 (n * 24) * hour))
                else Err ("invalid since duration " +:+ quote s +:+
                          ": must be a positive integer followed by d")
    | None => Err ("invalid since duration " +:+ quote s +:+
                   ": must be a positive integer followed by d")
    end
  | None =>
    match cut_suffix_byte "w"%char s with
    | Some r =>
      match Atoi r with
      | Some n => if 0 <? n then Ok (wrap64 (wrap64 (wrap64 (n * 7) * 24) * hour))
                  else Err ("invalid since duration " +:+ quote s +:+
                            ": must be a positive integer followed by w")
      | None => Err ("invalid since duration " +:+ quote s +:+
                     ": must be a positive integer followed by w")
      end
    | None =>
      match ParseDuration s with
      | Err e => Err ("invalid since duration " +:+ quote s +:+ ": " +:+ duration_error_text s e)
      | Ok d => if d <=? 0
                then Err ("invalid since duration " +:+ quote s +:+ ": must be positive")
                else Ok d
      end
    end
  end.
End Since.

(** ** Lemmas: decimal numbers *)

Lemma pretty_N_char_digit x : (x < 10)%N →
  is_digit_byte (pretty_N_char x) = true ∧ digit_of (pretty_N_char x) = Z.of_N x.
Proof.
  intros Hx. assert (x = 0 ∨ x = 1 ∨ x = 2 ∨ x = 3 ∨ x = 4 ∨ x = 5 ∨ x = 6 ∨ x = 7 ∨ x = 8
    ∨ x = 9)%N as Hc by lia. by destruct_or! Hc; subst.
Qed.

(** A property of strings that a decimal digit in front preserves, followed
    along the printing of a number. *)
Lemma pretty_N_go_ind (P : N → string → Prop) :
  (∀ s, P 0%N s) →
  (∀ x s, (0 < x)%N → P (x `div` 10)%N (String (pretty_N_char (x `mod` 10)) s) → P x s) →
  ∀ x s, P x s.
Proof.
  intros H0 HS x. induction (N.lt_wf_0 x) as [x _ IH]. intros s.
  destruct (decide (x = 0)%N) as [->|]; [done|]. apply HS; [lia|]. apply IH.
  apply N.div_lt; lia.
Qed.

Lemma forall_digits_go x s :
  forall_byte is_digit_byte (pretty_N_go x s) = forall_byte is_digit_byte s.
Proof.
  revert x s. apply pretty_N_go_ind; [done|]. intros x s Hx IH.
  rewrite pretty_N_go_step, IH by done. simpl.
  by destruct (pretty_N_char_digit (x `mod` 10)) as [-> _]; [apply N.mod_lt|].
Qed.

Lemma digits_from_go x s : digits_from 0 (pretty_N_go x s) = digits_from (Z.of_N x) s.
Proof.
  revert x s. apply pretty_N_go_ind; [done|]. intros x s Hx IH.
  rewrite pretty_N_go_step, IH by done. cbn [digits_from].
  destruct (pretty_N_char_digit (x `mod` 10)) as [_ Hd]; [by apply N.mod_lt|].
  unfold digit_of in Hd. rewrite Hd. f_equal. pose proof (N.div_mod x 10). lia.
Qed.

Lemma pretty_N_go_app x s t : pretty_N_go x s +:+ t = pretty_N_go x (s +:+ t).
Proof.
  revert x s. apply pretty_N_go_ind; [done|]. intros x s Hx IH.
  by rewrite (pretty_N_go_step x s), (pretty_N_go_step x (s +:+ t)), IH.
Qed.

(** The text of a positive number: one digit, then digits. *)
Lemma itoa_pos p : itoa (Z.pos p) = pretty_N_go (N.pos p) EmptyString.
Proof. done. Qed.

Lemma pretty_N_go_nonempty x s : (0 < x)%N → pretty_N_go x s ≠ EmptyString.
Proof.
  intros Hx. rewrite pretty_N_go_step by done. generalize (pretty_N_char (x `mod` 10)) as c.
  revert s. generalize (x `div` 10)%N as y. intros y s c.
  assert (∀ z t, t ≠ EmptyString → pretty_N_go z t ≠ EmptyString) as Hne; [|by apply Hne].
  clear. apply (pretty_N_go_ind (λ z t, t ≠ EmptyString → pretty_N_go z t ≠ EmptyString)); [done|].
  intros z t Hz IH _. rewrite pretty_N_go_step by done. by apply IH.
Qed.

Lemma all_digits_itoa n : 0 < n → all_digits (itoa n) = true ∧ digits_value (itoa n) = n.
Proof.
  destruct n as [|p|p]; try lia. intros _. rewrite itoa_pos.
  unfold all_digits, digits_value. rewrite forall_digits_go, digits_from_go.
  pose proof (pretty_N_go_nonempty (N.pos p) EmptyString ltac:(lia)) as Hne.
  by destruct (pretty_N_go (N.pos p) EmptyString).
Qed.

Lemma split_sign_digit c s : is_digit_byte c = true → split_sign (String c s) = (false, String c s).
Proof.
  intros H. unfold split_sign. destruct (Ascii.eqb_spec c "-"%char) as [->|]; [done|].
  by destruct (Ascii.eqb_spec c "+"%char) as [->|].
Qed.

(** The text of a positive number, followed by anything. *)
Lemma itoa_app_head n u : 0 < n →
  ∃ d t, itoa n +:+ u = String d t ∧ is_digit_byte d = true.
Proof.
  intros Hn. destruct (all_digits_itoa n Hn) as [Hd _]. unfold all_digits in Hd.
  destruct (itoa n) as [|d s]; [done|]. simpl in Hd. split_and_all. by exists d, (s +:+ u).
Qed.

Lemma itoa_app_sign n u : 0 < n → split_sign (itoa n +:+ u) = (false, itoa n +:+ u).
Proof.
  intros Hn. destruct (itoa_app_head n u Hn) as (d & t & -> & Hd). by apply split_sign_digit.
Qed.

(** [Atoi] reads back what [Itoa] prints. *)
Lemma Atoi_itoa n : 0 < n → n ≤ max_int64 → Atoi (itoa n) = Some n.
Proof.
  intros Hn Hmax. destruct (all_digits_itoa n Hn) as [Hd Hv].
  unfold Atoi. rewrite <-(str_app_nil (itoa n)), itoa_app_sign, str_app_nil, Hd, Hv by done.
  unfold in_int64, min_int64. cases. split_and_all.
  rewrite andb_false_iff in *. unfold max_int64, two63 in *. lia.
Qed.

Lemma cut_last_app s c : cut_last (s +:+ String c EmptyString) = Some (s, c).
Proof. induction s as [|d s IH]; [done|]. simpl. by rewrite IH. Qed.

Lemma cut_suffix_app s t b : str_empty t = false →
  cut_suffix_byte b (s +:+ t) = (λ r, s +:+ r) <$> cut_suffix_byte b t.
Proof.
  intros Ht. unfold cut_suffix_byte.
  assert (cut_last (s +:+ t) = (λ p, (s +:+ p.1, p.2)) <$> cut_last t) as ->.
  { induction s as [|c s IH].
    { change (EmptyString +:+ t) with t. by destruct (cut_last t) as [[]|]. }
    change (String c s +:+ t) with (String c (s +:+ t)). cbn [cut_last]. rewrite IH.
    destruct (cut_last t) as [[r l]|] eqn:E; [done|].
    destruct t as [|a t]; [done|]. simpl in E. by destruct (cut_last t) as [[]|]. }
  destruct (cut_last t) as [[r l]|]; [|done]. simpl. by destruct (Ascii.eqb l b).
Qed.

(** ** Lemmas: the duration parser consumes its input *)

Lemma leadingInt_len s x v r : leadingInt x s = Some (v, r) → (slen r ≤ slen s)%nat.
Proof.
  revert x. induction s as [|c s IH]; simpl; intros x H; [by simplify_eq|].
  cases. apply IH in H. unfold slen in *. simpl. lia.
Qed.

Lemma leadingFraction_len s o x sc v sc' r :
  leadingFraction o x sc s = (v, sc', r) → (slen r ≤ slen s)%nat.
Proof.
  revert o x sc. induction s as [|c s IH]; simpl; intros o x sc H; [by simplify_eq|].
  cases; apply IH in H; unfold slen in *; simpl; lia.
Qed.

Lemma unit_span_len s u r : unit_span s = (u, r) → (slen u + slen r = slen s)%nat.
Proof.
  revert u r. induction s as [|c s IH]; simpl; intros u r H; [by simplify_eq|].
  destruct (dot_or_digit c); [by simplify_eq|].
  destruct (unit_span s) as [u' r'] eqn:E. simplify_eq. specialize (IH _ _ eq_refl).
  unfold slen in *. simpl. lia.
Qed.

Lemma parse_term_len s v r : parse_term s = Ok (v, r) → (slen r < slen s)%nat.
Proof.
  unfold parse_term. destruct s as [|c s]; [done|]. destruct (negb _); [done|].
  destruct (leadingInt 0 (String c s)) as [[w s1]|] eqn:E1; [|done].
  apply leadingInt_len in E1. set (t := match s1 with EmptyString => _ | String _ _ => _ end).
  assert (slen t.1.2 ≤ slen s1)%nat as Ht.
  { unfold t. destruct s1 as [|c1 s1]; [done|]. destruct (Ascii.eqb c1 "."%char); [|done].
    destruct (leadingFraction false 0 (float64_of 1) s1) as [[f sc] s2] eqn:E2.
    apply leadingFraction_len in E2. unfold slen in *. simpl. lia. }
  destruct t as [[[f sc] s2] post]. simpl in Ht. destruct (_ && _); [done|].
  destruct (unit_span s2) as [u s3] eqn:E3. apply unit_span_len in E3.
  destruct u as [|a u]; [done|]. simpl str_empty. destruct (unit_of _); [|done].
  intros H. assert (r = s3) as -> by cases. unfold slen in *. simpl in *. lia.
Qed.

Lemma parse_term_fuel s : parse_term s ≠ Err OutOfFuel.
Proof. unfold parse_term. by repeat case_match. Qed.

(** As many steps as bytes are enough. *)
Lemma parse_terms_fuel fuel d s : (slen s ≤ fuel)%nat → parse_terms fuel d s ≠ Err OutOfFuel.
Proof.
  revert d s. induction fuel as [|fuel IH]; intros d s Hs.
  { destruct s; [done|unfold slen in Hs; simpl in Hs; lia]. }
  destruct s as [|c s]; [done|]. cbn [parse_terms].
  destruct (parse_term (String c s)) as [[v r]|e] eqn:E; simpl.
  - apply parse_term_len in E. case_match; [done|]. apply IH. lia.
  - pose proof (parse_term_fuel (String c s)). congruence.
Qed.

Lemma parse_terms_nonneg fuel d t d' : 0 ≤ d → parse_terms fuel d t = Ok d' → 0 ≤ d'.
Proof.
  revert d t. induction fuel as [|fuel IH]; intros d t Hd; destruct t as [|c t];
    cbn [parse_terms]; try done; [by intros; simplify_eq..|].
  destruct (parse_term _) as [[v r]|]; simpl; [|done].
  case_match; [done|]. apply IH. by apply Z.mod_pos_bound.
Qed.

Lemma ParseDuration_range s d : ParseDuration s = Ok d → min_int64 ≤ d ≤ max_int64.
Proof.
  unfold ParseDuration. destruct (split_sign s) as [neg r].
  case_decide; [intros; simplify_eq; by compute|]. destruct (str_empty r); [done|].
  destruct (parse_terms _ _ _) as [d'|] eqn:E; simpl; [|done].
  apply parse_terms_nonneg in E; [|done].
  destruct neg.
  - intros [= <-]. unfold wrap64, min_int64, max_int64.
    pose proof (Z.mod_pos_bound (- d' + two63) two64 ltac:(done)).
    change two64 with (2 * two63) in *. lia.
  - case_match; [done|]. intros [= <-]. to_arith. unfold min_int64, max_int64, two63 in *. lia.
Qed.

(** ** Lemmas: one number, one unit *)

Lemma is_digit_value c : is_digit_byte c = true → 0 ≤ digit_of c ≤ 9.
Proof.
  unfold is_digit_byte, byte_between, digit_of. intros H. split_and_all. to_arith. lia.
Qed.

Lemma digits_from_ge x s : 0 ≤ x → forall_byte is_digit_byte s = true → x ≤ digits_from x s.
Proof.
  revert x. induction s as [|c s IH]; simpl; intros x Hx H; [lia|]. split_and_all.
  pose proof (is_digit_value c ltac:(done)) as Hd. unfold digit_of in Hd.
  etrans; [|apply IH; [lia|done]]. lia.
Qed.

Lemma leadingInt_digits x s c t :
  0 ≤ x → forall_byte is_digit_byte s = true → is_digit_byte c = false →
  digits_from x s ≤ max_int64 →
  leadingInt x (s +:+ String c t) = Some (digits_from x s, String c t).
Proof.
  revert x. induction s as [|d s IH]; intros x Hx Hs Hc Hle.
  { change (EmptyString +:+ String c t) with (String c t). cbn [leadingInt]. by rewrite Hc. }
  change (String d s +:+ String c t) with (String d (s +:+ String c t)).
  cbn [leadingInt forall_byte digits_from] in *.
  split_and_all. rewrite H. pose proof (is_digit_value d H) as Hd.
  pose proof (digits_from_ge (x * 10 + digit_of d) s ltac:(lia) H0) as Hge.
  change (Z.of_N (code d) - 48) with (digit_of d) in *. unfold max_int64 in *.
  destruct (two63 / 10 <? x) eqn:E1; to_arith.
  { pose proof (Z.mul_succ_div_gt two63 10 ltac:(lia)). nia. }
  destruct (two63 <? _) eqn:E2; to_arith; [lia|]. apply IH; try done. lia.
Qed.

(** A unit of [time.ParseDuration] is read back whole. *)
Definition unit_like (u : string) : bool :=
  negb (str_empty u) && forall_byte (λ c, negb (dot_or_digit c)) u.

Lemma unit_span_all u : forall_byte (λ c, negb (dot_or_digit c)) u = true →
  unit_span u = (u, EmptyString).
Proof.
  induction u as [|c u IH]; simpl; intros H; [done|]. split_and_all.
  by rewrite H, IH.
Qed.

Lemma unit_of_like u unit : unit_of u = Some unit → unit_like u = true ∧ 0 < unit.
Proof. unfold unit_of. by repeat (case_decide; [intros; simplify_eq|]). Qed.

Lemma parse_term_number n u unit :
  0 < n → unit_of u = Some unit → n * unit ≤ max_int64 →
  parse_term (itoa n +:+ u) = Ok (n * unit, EmptyString).
Proof.
  intros Hn Hu Hle. destruct (unit_of_like _ _ Hu) as [Hl Hpos].
  destruct (all_digits_itoa n Hn) as [Hd Hv]. unfold all_digits in Hd. split_and_all.
  destruct u as [|c u]; [done|]. unfold unit_like in Hl.
  apply andb_true_iff in Hl as [_ Hl]. pose proof Hl as Hspan. simpl in Hl.
  apply andb_true_iff in Hl as [Hc _]. unfold dot_or_digit in Hc. apply negb_true_iff in Hc.
  apply orb_false_iff in Hc as [Hdot Hdig].
  assert (leadingInt 0 (itoa n +:+ String c u) = Some (n, String c u)) as HL.
  { change (digits_from 0 (itoa n) = n) in Hv.
    rewrite leadingInt_digits; rewrite ?Hv; try done. nia. }
  assert ((slen (itoa n +:+ String c u) =? slen (String c u))%nat = false) as Hlen.
  { apply Nat.eqb_neq. rewrite slen_app. destruct (itoa n); [done|unfold slen; simpl; lia]. }
  destruct (itoa_app_head n (String c u) Hn) as (d & t & E & Hdd).
  rewrite E in *. unfold parse_term. rewrite HL, Hlen, Hdot.
  unfold dot_or_digit at 1. rewrite Hdd, orb_true_r. cbn [negb andb].
  rewrite unit_span_all by done. cbn [str_empty]. rewrite Hu.
  destruct (two63 / unit <? n) eqn:E2; [|done].
  to_arith. pose proof (Z.mul_succ_div_gt two63 unit Hpos). unfold max_int64 in *. nia.
Qed.

Lemma parse_terms_nil fuel d : parse_terms fuel d EmptyString = Ok d.
Proof. by destruct fuel. Qed.

(** [ParseDuration] reads a number followed by one of its units. *)
Lemma ParseDuration_number n u unit :
  0 < n → unit_of u = Some unit → n * unit ≤ max_int64 →
  ParseDuration (itoa n +:+ u) = Ok (n * unit).
Proof.
  intros Hn Hu Hle. pose proof (parse_term_number n u unit Hn Hu Hle) as Hp.
  destruct (unit_of_like _ _ Hu) as [Hl Hpos].
  unfold ParseDuration. rewrite itoa_app_sign by done.
  destruct (itoa n +:+ u) as [|c s] eqn:E; [done|].
  rewrite decide_False; [|intros Hz; rewrite Hz in Hp; vm_compute in Hp; congruence].
  cbn [str_empty]. change (slen (String c s)) with (S (slen s)). cbn [parse_terms].
  rewrite Hp. unfold mbind at 2, result_bind at 2. cbv zeta. unfold max_int64 in *.
  rewrite Z.mod_small by (change two64 with (2 * two63); nia).
  destruct (two63 <? 0 + n * unit) eqn:E1; to_arith; [lia|].
  rewrite parse_terms_nil. cbn [mbind result_bind].
  destruct (two63 - 1 <? 0 + n * unit) eqn:E2; to_arith; [lia|done].
Qed.

(** ** Properties *)

Section SinceProperties.
Context `{UT : !UnicodeTables}.

(** The units of a [since] duration, in nanoseconds. *)
Definition since_unit (u : string) : option Z :=
  if decide (u = "d") then Some (24 * hour)
  else if decide (u = "w") then Some (7 * 24 * hour)
  else unit_of u.

Lemma since_days n : 0 < n → n ≤ max_int64 →
  parseSinceDuration (itoa n +:+ "d") = Ok (wrap64 (n * (24 * hour))).
Proof.
  intros Hn Hle. unfold parseSinceDuration. rewrite str_app_empty, andb_false_r.
  rewrite !cut_suffix_app by done.
  simpl. rewrite str_app_nil, Atoi_itoa by done. destruct (0 <? n) eqn:E; to_arith; [|lia].
  by rewrite wrap64_mul, <-Z.mul_assoc.
Qed.

Lemma since_weeks n : 0 < n → n ≤ max_int64 →
  parseSinceDuration (itoa n +:+ "w") = Ok (wrap64 (n * (7 * 24 * hour))).
Proof.
  intros Hn Hle. unfold parseSinceDuration. rewrite str_app_empty, andb_false_r.
  rewrite !cut_suffix_app by done.
  simpl. rewrite str_app_nil, Atoi_itoa by done. destruct (0 <? n) eqn:E; to_arith; [|lia].
  rewrite wrap64_mul, <-!Z.mul_assoc, wrap64_mul. f_equal. f_equal. lia.
Qed.

(** A [since] window written as a positive whole number and one of the
    units d, w, ns, us, ms, s, m, h is read as that many units, as long as the
    window fits the 63 bits of a [time.Duration]. *)
Theorem parseSinceDuration_reads (n : Z) (u : string) (unit : Z)
    (Hn : 0 < n) (Hu : since_unit u = Some unit) (Hfit : n * unit ≤ max_int64) :
  parseSinceDuration (itoa n +:+ u) = Ok (n * unit).
Proof.
  unfold since_unit in Hu. case_decide as Hd; [|case_decide as Hw].
  - simplify_eq. change (24 * hour) with 86400000000000 in Hfit.
    rewrite since_days, wrap64_id; [done| |done|lia].
    change (24 * hour) with 86400000000000. unfold min_int64, two63. lia.
  - simplify_eq. change (7 * 24 * hour) with 604800000000000 in Hfit.
    rewrite since_weeks, wrap64_id; [done| |done|lia].
    change (7 * 24 * hour) with 604800000000000. unfold min_int64, two63. lia.
  - destruct (unit_of_like _ _ Hu) as [_ Hpos].
    assert (str_empty u = false ∧ cut_suffix_byte "d"%char u = None ∧
      cut_suffix_byte "w"%char u = None) as (Hne & Hd' & Hw').
    { unfold unit_of in Hu. by repeat (case_decide; [by subst|]). }
    unfold parseSinceDuration. rewrite str_app_empty, Hne, andb_false_r.
    rewrite !cut_suffix_app, Hd', Hw' by done. simpl.
    rewrite (ParseDuration_number n u unit) by done.
    destruct (n * unit <=? 0) eqn:E; to_arith; [nia|done].
Qed.

(** Outside that range the d suffix is read modulo 2^64: from 106752 days on
    the window comes back negative, and no error is reported. *)
Theorem parseSinceDuration_days_overflow (n : Z) (Hlo : 106751 < n) (Hhi : n ≤ 213503) :
  parseSinceDuration (itoa n +:+ "d") = Ok (n * (24 * hour) - two64) ∧
  n * (24 * hour) - two64 < 0.
Proof.
  rewrite since_days by (unfold max_int64, two63; lia).
  change (24 * hour) with 86400000000000. change two64 with 18446744073709551616.
  split; [|lia]. f_equal. unfold wrap64. change two63 with 9223372036854775808.
  change two64 with 18446744073709551616.
  rewrite <-(Z.mod_unique _ _ 1 (n * 86400000000000 + 9223372036854775808 - 18446744073709551616));
    lia.
Qed.

(** Every accepted window that does not use the d or w suffix is positive and fits a [time.Duration]. *)
Theorem parseSinceDuration_positive (s : string) (d : Z)
    (Hd : cut_suffix_byte "d"%char s = None) (Hw : cut_suffix_byte "w"%char s = None)
    (Hs : parseSinceDuration s = Ok d) :
  0 < d ≤ max_int64.
Proof.
  unfold parseSinceDuration in Hs. rewrite Hd, Hw in Hs. destruct (str_empty s); [done|].
  destruct (ParseDuration s) as [d'|] eqn:E; [|done].
  destruct (d' <=? 0) eqn:E0; [done|]. simplify_eq. to_arith.
  apply ParseDuration_range in E. lia.
Qed.
End SinceProperties.

Module DurationExamples.
#[local] Instance ascii_tables : UnicodeTables :=
  {| is_print_above_latin1 _ := false; to_upper_above_latin1 r := r |}.

Lemma parseSinceDuration_reads_witness :
  parseSinceDuration (itoa 36 +:+ "h") = Ok (36 * hour).
Proof. apply (parseSinceDuration_reads 36 "h" hour); vm_compute; congruence. Defined.

Lemma parseSinceDuration_positive_witness :
  parseSinceDuration "90m" = Ok (90 * minute) ∧ 0 < 90 * minute ≤ max_int64.
Proof.
  split; [vm_compute; reflexivity|].
  apply (parseSinceDuration_positive "90m"); vm_compute; reflexivity.
Defined.

Lemma parseSinceDuration_days_overflow_witness :
  parseSinceDuration (itoa 106752 +:+ "d") = Ok (106752 * (24 * hour) - two64) ∧
  106752 * (24 * hour) - two64 < 0.
Proof. apply (parseSinceDuration_days_overflow 106752); lia. Defined.

Example overflow_example : parseSinceDuration "106752d" = Ok (- 9223371273709551616).
Proof. vm_compute. reflexivity. Qed.
Example fraction_example : parseSinceDuration "1.5h" = Ok (90 * minute).
Proof. vm_compute. reflexivity. Qed.
Example unit_example : is_ok (parseSinceDuration "3") = false.
Proof. vm_compute. reflexivity. Qed.
End DurationExamples.
