(* ===== verification/Policy.v ===== *)
(** * Policy: resource and gateway bounds

    The findings of pkg/pipeline/validate, the bound checks of policy.go, and
    the clamp the controller applies to the same bounds
    (pkg/k8s/controllers/resource_clamp.go).  The theorems state what each of
    them enforces and that they agree: what the clamp lets through the check
    accepts, and what the check accepts the clamp leaves alone. *)

From S2P Require Import Prelude ApiTypes.

(** ** Findings *)

Record Finding := MkFinding {
  f_Path : string;
  f_Message : string;
  f_Severity : string;
}.
#[export] Instance Finding_eq_dec : EqDecision Finding.
Proof. solve_decision. Defined.

Definition severityError : string := "error".
Definition severityWarning : string := "warning".

Definition error_finding (path msg : string) : Finding := MkFinding path msg severityError.
Definition warning_finding (path msg : string) : Finding := MkFinding path msg severityWarning.
(** The append of one finding under a condition. *)
Definition report (b : bool) (f : Finding) : list Finding := if b then [f] else [].

Definition is_error (f : Finding) : bool := bool_decide (f_Severity f = severityError).
(** The findings that reject a pipeline. *)
Definition errors (fs : list Finding) : list Finding := filter (λ f, is_error f = true) fs.

Record GatewayBounds := MkGatewayBounds {
  MaxChunkSize : Z;
  MaxBufferSize : Z;
  MaxTargetFileSize : Z;
}.
Record PolicySpec := MkPolicy { pol_Gateway : GatewayBounds }.

Section Policy.
Context `{Q : !Quantities}.

Definition q_exceeds (a b : quantity) : bool :=
  match q_cmp a b with Gt => true | _ => false end.

(** The body of [check]'s loop: one entry of a resource list. *)
Definition check_entry (max : ResourceList) (pathPrefix component kind : string)
    (e : string * quantity) : list Finding :=
  let (name, q) := e in
  match gm_get name max with
  | None =>
    [error_finding (pathPrefix +:+ ".resources")
       ("resource " +:+ String dquote name +:+ String dquote " is not allowed for component " +:+
        component +:+ " (not listed in registry max)")]
  | Some maxq =>
    report (q_exceeds q maxq)
      (error_finding (pathPrefix +:+ ".resources." +:+ kind +:+ "." +:+ name)
         ("resources." +:+ kind +:+ "." +:+ name +:+ "=" +:+ q_string q +:+
          " exceeds registry max " +:+ q_string maxq))
  end.

Definition checkResourcesAgainstMax (rr : option ResourceRequirements) (max : ResourceList)
    (pathPrefix component : string) : list Finding :=
  match rr with
  | None => []
  | Some rr =>
    flat_map (check_entry max pathPrefix component "limits") (rr_Limits rr) ++
    flat_map (check_entry max pathPrefix component "requests") (rr_Requests rr)
  end.

Definition check_knob (knob bound : Z) (name : string) : list Finding :=
  report (negb (bound =? 0)%Z && (bound <? knob)%Z)
    (error_finding ("gateway." +:+ name)
       ("gateway." +:+ name +:+ "=" +:+ itoa knob +:+ " exceeds policy max " +:+ itoa bound)).

Definition checkGatewayBounds (p : Pipeline) (pol : option PolicySpec) : list Finding :=
  match pol with
  | None => []
  | Some pol =>
    let gw := ps_Gateway (p_Spec p) in
    check_knob (gw_ChunkSize gw) (MaxChunkSize (pol_Gateway pol)) "chunkSize" ++
    check_knob (gw_BufferSize gw) (MaxBufferSize (pol_Gateway pol)) "bufferSize" ++
    check_knob (gw_TargetFileSize gw) (MaxTargetFileSize (pol_Gateway pol)) "targetFileSize"
  end.

(** ** The controller's clamp *)

Record clampResult := MkClampResult {
  cl_Resources : ResourceRequirements;
  cl_Note : string;
}.

(** [clampList]: the clamped list and the notes it appends. *)
Fixpoint clampList (max : ResourceList) (l : ResourceList) : ResourceList * list string :=
  match l with
  | [] => ([], [])
  | (name, q) :: l =>
    let (res, notes) := clampList max l in
    match gm_get name max with
    | None => (res, ("dropped " +:+ name) :: notes)
    | Some maxq =>
      if q_exceeds q maxq
      then ((name, maxq) :: res, (name +:+ " " +:+ q_string q +:+ "→" +:+ q_string maxq) :: notes)
      else ((name, q) :: res, notes)
    end
  end.

(** A request above its limit is pulled down to it. *)
Definition lower_request (limits : ResourceList) (e : string * quantity) : string * quantity :=
  let (name, rq) := e in
  match gm_get name limits with
  | Some lq => if q_exceeds rq lq then (name, lq) else (name, rq)
  | None => (name, rq)
  end.

Definition is_empty {A} (l : list A) : bool := match l with [] => true | _ => false end.

Definition applyDefaultsThenClamp (spec : option ResourceRequirements) (def : ResourceRequirements)
    (max : ResourceList) : clampResult :=
  match spec with
  | None => MkClampResult def EmptyString
  | Some spec =>
    if is_empty (rr_Requests spec) && is_empty (rr_Limits spec)
    then MkClampResult def EmptyString
    else
      let (limits, notes1) := clampList max (rr_Limits spec) in
      let (requests, notes2) := clampList max (rr_Requests spec) in
      MkClampResult (MkResourceRequirements limits (map (lower_request limits) requests))
        (join ", " (notes1 ++ notes2))
  end.

(** ** Specification *)

Definition le_q (a b : quantity) : Prop := q_cmp a b ≠ Gt.
(** Every entry is listed in [max] and does not exceed it. *)
Definition within (max l : ResourceList) : Prop :=
  ∀ name q, (name, q) ∈ l → ∃ maxq, gm_get name max = Some maxq ∧ le_q q maxq.
Definition rr_within (max : ResourceList) (rr : ResourceRequirements) : Prop :=
  within max (rr_Limits rr) ∧ within max (rr_Requests rr).
(** No request above the limit of the same name. *)
Definition requests_under_limits (rr : ResourceRequirements) : Prop :=
  ∀ name rq lq, (name, rq) ∈ rr_Requests rr → gm_get name (rr_Limits rr) = Some lq → le_q rq lq.
Definition rr_ok (rr : ResourceRequirements) : Prop := gm_ok (rr_Limits rr) ∧ gm_ok (rr_Requests rr).

(** The smaller of two quantities, the first one on a tie. *)
Definition min_q (a b : quantity) : quantity := if q_exceeds a b then b else a.

(** ** Lemmas *)

Lemma q_exceeds_false a b : q_exceeds a b = false ↔ le_q a b.
Proof. unfold q_exceeds, le_q. by destruct (q_cmp a b). Qed.

Lemma check_entry_nil max path comp kind name q :
  check_entry max path comp kind (name, q) = [] ↔
  ∃ maxq, gm_get name max = Some maxq ∧ le_q q maxq.
Proof.
  simpl. destruct (gm_get name max) as [maxq|]; [|naive_solver].
  unfold report. destruct (q_exceeds q maxq) eqn:E.
  - split; [done|]. intros (? & [= <-] & Hle). apply q_exceeds_false in Hle. congruence.
  - apply q_exceeds_false in E. naive_solver.
Qed.

Lemma flat_map_nil {A B} (f : A → list B) l : flat_map f l = [] ↔ ∀ x, x ∈ l → f x = [].
Proof.
  induction l as [|a l IH]; simpl; [split; [by intros _ x ?%elem_of_nil|done]|].
  rewrite app_nil, IH. split.
  - intros [Ha Hl] x [->|Hx]%elem_of_cons; auto.
  - intros H. split; [apply H; constructor|intros x Hx; apply H; by constructor].
Qed.

Lemma check_list_nil max path comp kind l :
  flat_map (check_entry max path comp kind) l = [] ↔ within max l.
Proof.
  rewrite flat_map_nil. unfold within. split.
  - intros H name q Hin. by eapply check_entry_nil, H.
  - intros H [name q] Hin. by apply check_entry_nil, H.
Qed.

Lemma checkResources_nil rr max path comp :
  checkResourcesAgainstMax (Some rr) max path comp = [] ↔ rr_within max rr.
Proof. simpl. rewrite app_nil, !check_list_nil. done. Qed.

(** What an entry of the clamped list is. *)
Lemma clampList_elem max l name q :
  (name, q) ∈ (clampList max l).1 ↔
  ∃ q0 maxq, (name, q0) ∈ l ∧ gm_get name max = Some maxq ∧ q = min_q q0 maxq.
Proof.
  induction l as [|[n p] l IH]; simpl; [split; [by intros ?%elem_of_nil|]|].
  { by intros (? & ? & ?%elem_of_nil & _). }
  destruct (clampList max l) as [res notes]. simpl in IH. unfold min_q in *.
  destruct (gm_get n max) as [m|] eqn:Em.
  - transitivity ((name, q) = (n, if q_exceeds p m then m else p) ∨ (name, q) ∈ res).
    { by destruct (q_exceeds p m); simpl; rewrite elem_of_cons. }
    rewrite IH. split.
    + intros [[= -> ->]|(q0 & maxq & ? & ? & ?)].
      * exists p, m. split_and!; [constructor|done..].
      * exists q0, maxq. split_and!; [by constructor|done..].
    + intros (q0 & maxq & [?|?]%elem_of_cons & ? & ?); [left|right]; simplify_eq; eauto.
  - simpl. rewrite IH. split.
    + intros (q0 & maxq & ? & ? & ?). exists q0, maxq. split_and!; [by constructor|done..].
    + intros (q0 & maxq & [?|?]%elem_of_cons & ? & ?); simplify_eq; eauto.
Qed.

Lemma clampList_keys max l : sublist (gm_keys (clampList max l).1) (gm_keys l).
Proof.
  unfold gm_keys. induction l as [|[n p] l IH]; simpl; [constructor|].
  destruct (clampList max l) as [res notes]. simpl in *.
  destruct (gm_get n max); [destruct (q_exceeds _ _)|]; simpl; by constructor.
Qed.

Lemma clampList_ok max l : gm_ok l → gm_ok (clampList max l).1.
Proof. unfold gm_ok. intros H. eapply sublist_NoDup; [|apply clampList_keys]. done. Qed.

Lemma lower_request_keys limits l : gm_keys (map (lower_request limits) l) = gm_keys l.
Proof.
  unfold gm_keys. induction l as [|[n q] l IH]; [done|]. cbn. f_equal; [|exact IH].
  unfold lower_request. by repeat case_match.
Qed.

(** A list already within its bounds is left alone, without a note. *)
Lemma clampList_id max l : within max l → clampList max l = (l, []).
Proof.
  intros H. induction l as [|[n q] l IH]; simpl; [done|].
  rewrite IH by (intros ? ? ?; apply H; by constructor).
  destruct (H n q) as (m & -> & Hle); [constructor|]. apply q_exceeds_false in Hle. by rewrite Hle.
Qed.

(** The gateway check accepts a pipeline exactly when every knob with a
    non-zero bound stays at or under it. *)
Theorem checkGatewayBounds_correct (p : Pipeline) (pol : PolicySpec) :
  checkGatewayBounds p (Some pol) = [] ↔
  ∀ knob bound, (knob, bound) ∈
      [(gw_ChunkSize (ps_Gateway (p_Spec p)), MaxChunkSize (pol_Gateway pol));
       (gw_BufferSize (ps_Gateway (p_Spec p)), MaxBufferSize (pol_Gateway pol));
       (gw_TargetFileSize (ps_Gateway (p_Spec p)), MaxTargetFileSize (pol_Gateway pol))] →
    bound = 0%Z ∨ (knob ≤ bound)%Z.
Proof.
  assert (∀ k b n, check_knob k b n = [] ↔ b = 0%Z ∨ (k ≤ b)%Z) as Hk.
  { intros k b n. unfold check_knob, report. destruct (b =? 0)%Z eqn:E; to_arith; simpl.
    - naive_solver.
    - destruct (b <? k)%Z eqn:E2; to_arith; naive_solver lia. }
  simpl. rewrite !app_nil, !Hk. set_solver.
Qed.

Context `{QL : !QuantityLaws}.

Lemma le_q_refl a : le_q a a.
Proof. unfold le_q. by rewrite q_cmp_refl. Qed.

Lemma le_q_trans a b c : le_q a b → le_q b c → le_q a c.
Proof. apply q_cmp_trans. Qed.

Lemma min_q_le a b : le_q (min_q a b) a ∧ le_q (min_q a b) b.
Proof.
  unfold min_q. destruct (q_exceeds a b) eqn:E; [|apply q_exceeds_false in E; auto using le_q_refl].
  split; [|apply le_q_refl]. unfold q_exceeds, le_q in *. rewrite q_cmp_antisym.
  by destruct (q_cmp a b).
Qed.

Lemma min_q_le_l a b : le_q (min_q a b) a.
Proof. apply min_q_le. Qed.
Lemma min_q_le_r a b : le_q (min_q a b) b.
Proof. apply min_q_le. Qed.

(** The final value of an entry of the clamped requests. *)
Lemma lowered_elem limits l name q :
  (name, q) ∈ map (lower_request limits) l ↔
  ∃ q0, (name, q0) ∈ l ∧
    q = match gm_get name limits with Some lq => min_q q0 lq | None => q0 end.
Proof.
  rewrite list_elem_of_In, in_map_iff. setoid_rewrite <-list_elem_of_In. split.
  - intros ([n q0] & Heq & Hin). exists q0. unfold lower_request, min_q in *.
    destruct (gm_get n limits) as [lq|] eqn:E; [destruct (q_exceeds q0 lq) eqn:E2|];
      simplify_eq; rewrite E, ?E2; done.
  - intros (q0 & Hin & ->). exists (name, q0). split; [|done]. unfold lower_request, min_q.
    destruct (gm_get name limits); [|done]. by destruct (q_exceeds _ _).
Qed.

(** What the clamp returns for a component that declares resources. *)
Definition clamped (spec : ResourceRequirements) (max : ResourceList) : ResourceRequirements :=
  let limits := (clampList max (rr_Limits spec)).1 in
  MkResourceRequirements limits (map (lower_request limits) (clampList max (rr_Requests spec)).1).

Lemma clamp_eq spec def max :
  rr_Limits spec ≠ [] ∨ rr_Requests spec ≠ [] →
  cl_Resources (applyDefaultsThenClamp (Some spec) def max) = clamped spec max ∧
  cl_Note (applyDefaultsThenClamp (Some spec) def max) =
    join ", " ((clampList max (rr_Limits spec)).2 ++ (clampList max (rr_Requests spec)).2).
Proof.
  intros Hne. unfold applyDefaultsThenClamp, clamped.
  destruct (is_empty (rr_Requests spec) && is_empty (rr_Limits spec)) eqn:E.
  { split_and_all. destruct (rr_Requests spec), (rr_Limits spec); naive_solver. }
  destruct (clampList max (rr_Limits spec)), (clampList max (rr_Requests spec)). done.
Qed.

Lemma clamped_within spec max : rr_within max (clamped spec max).
Proof.
  split; intros name q Hin; simpl in Hin.
  - apply clampList_elem in Hin as (q0 & maxq & _ & Hm & ->). exists maxq.
    split; [done|]. apply min_q_le_r.
  - apply lowered_elem in Hin as (q1 & Hin & ->).
    apply clampList_elem in Hin as (q0 & maxq & _ & Hm & ->). exists maxq. split; [done|].
    destruct (gm_get name (clampList _ _).1); [eapply le_q_trans; [apply min_q_le_l|]|];
      apply min_q_le_r.
Qed.

Lemma clamped_requests spec max : requests_under_limits (clamped spec max).
Proof.
  intros name rq lq Hin Hl. simpl in *. apply lowered_elem in Hin as (q0 & _ & ->).
  rewrite Hl. apply min_q_le_r.
Qed.

Lemma lower_request_id limits l :
  (∀ name rq lq, (name, rq) ∈ l → gm_get name limits = Some lq → le_q rq lq) →
  map (lower_request limits) l = l.
Proof.
  intros H. induction l as [|[n q] l IH]; simpl; [done|].
  rewrite IH by (intros ? ? ? ?; apply H; by constructor). f_equal.
  destruct (gm_get n limits) as [lq|] eqn:E; [|done].
  assert (le_q q lq) as Hle by (eapply H; [constructor|done]).
  apply q_exceeds_false in Hle. by rewrite Hle.
Qed.

(** ** Properties *)

(** For a component that declares resources, the controller's clamp lowers
    every limit to the smaller of what was asked and the registry maximum,
    every request to the smallest of what was asked, the maximum and the
    resulting limit, and drops exactly the names the maximum does not list. *)
Theorem applyDefaultsThenClamp_spec (spec def : ResourceRequirements) (max : ResourceList)
    (Hok : rr_ok spec) (Hne : rr_Limits spec ≠ [] ∨ rr_Requests spec ≠ []) :
  let out := cl_Resources (applyDefaultsThenClamp (Some spec) def max) in
  rr_within max out ∧ requests_under_limits out ∧ rr_ok out ∧
  (∀ name q, (name, q) ∈ rr_Limits out ↔
    ∃ q0 maxq, (name, q0) ∈ rr_Limits spec ∧ gm_get name max = Some maxq ∧ q = min_q q0 maxq) ∧
  (∀ name q, (name, q) ∈ rr_Requests out ↔
    ∃ q0 maxq, (name, q0) ∈ rr_Requests spec ∧ gm_get name max = Some maxq ∧
      q = match gm_get name (rr_Limits out) with
          | Some lq => min_q (min_q q0 maxq) lq
          | None => min_q q0 maxq
          end).
Proof.
  destruct (clamp_eq spec def max Hne) as [-> _]. destruct Hok as [Hl Hr]. cbv zeta.
  split; [apply clamped_within|]. split; [apply clamped_requests|]. split; [split|split].
  - by apply clampList_ok.
  - unfold gm_ok. simpl. rewrite lower_request_keys. by apply clampList_ok.
  - intros name q. apply clampList_elem.
  - intros name q. unfold clamped. cbn [rr_Requests rr_Limits]. rewrite lowered_elem. split.
    + intros (q1 & (q0 & maxq & ? & ? & ->)%clampList_elem & ->). eauto.
    + intros (q0 & maxq & ? & ? & ->). exists (min_q q0 maxq). rewrite clampList_elem. eauto 6.
Qed.

(** The API check and the controller's clamp agree on the bounds of the
    registry: the check accepts exactly the declared resources within the
    maximum, it accepts whatever the clamp sets on a container, and the clamp
    leaves accepted resources as they are, without a note, unless a request
    exceeds its limit. *)
Theorem check_clamp_agree (spec def : ResourceRequirements) (max : ResourceList)
    (path comp : string) (Hne : rr_Limits spec ≠ [] ∨ rr_Requests spec ≠ []) :
  (checkResourcesAgainstMax (Some spec) max path comp = [] ↔ rr_within max spec) ∧
  checkResourcesAgainstMax
    (Some (cl_Resources (applyDefaultsThenClamp (Some spec) def max))) max path comp = [] ∧
  (checkResourcesAgainstMax (Some spec) max path comp = [] → requests_under_limits spec →
    applyDefaultsThenClamp (Some spec) def max = MkClampResult spec EmptyString).
Proof.
  split_and!; [apply checkResources_nil| |].
  - destruct (clamp_eq spec def max Hne) as [-> _].
    apply checkResources_nil, clamped_within.
  - intros [Hl Hr]%checkResources_nil Hu.
    unfold applyDefaultsThenClamp.
    destruct (is_empty (rr_Requests spec) && is_empty (rr_Limits spec)) eqn:E.
    { split_and_all. destruct (rr_Requests spec), (rr_Limits spec); naive_solver. }
    rewrite !clampList_id by done. rewrite lower_request_id by apply Hu. by destruct spec.
Qed.

End Policy.

Module PolicyExamples.
#[local] Instance int_quantities : Quantities :=
  {| quantity := Z; q_cmp := Z.compare; q_string := itoa; q_parse _ := None |}.
#[local] Instance int_quantity_laws : QuantityLaws.
Proof.
  split; simpl; [apply Z.compare_refl|intros; apply Z.compare_antisym|].
  intros a b c. rewrite !Z.compare_ngt_iff. lia.
Qed.
Definition max : ResourceList := [("cpu", 2%Z); ("memory", 10%Z)].
Definition spec : ResourceRequirements :=
  MkResourceRequirements [("cpu", 4%Z); ("nvidia.com/gpu", 1%Z)] [("cpu", 3%Z); ("memory", 5%Z)].
Definition def : ResourceRequirements := MkResourceRequirements [] [].

Example clamp_example :
  applyDefaultsThenClamp (Some spec) def max =
  MkClampResult (MkResourceRequirements [("cpu", 2%Z)] [("cpu", 2%Z); ("memory", 5%Z)])
    "cpu 4→2, dropped nvidia.com/gpu, cpu 3→2".
Proof. vm_compute. reflexivity. Qed.

Lemma applyDefaultsThenClamp_spec_witness :
  rr_ok spec ∧ rr_within max (cl_Resources (applyDefaultsThenClamp (Some spec) def max)).
Proof.
  assert (rr_ok spec) as H by (split; unfold gm_ok; apply (bool_decide_unpack _); vm_compute; done).
  split; [exact H|]. apply (applyDefaultsThenClamp_spec spec def max H). by left.
Defined.

Lemma check_clamp_agree_witness :
  checkResourcesAgainstMax (Some (cl_Resources (applyDefaultsThenClamp (Some spec) def max)))
    max "stages[0]" "c" = [].
Proof. apply (check_clamp_agree spec def max "stages[0]" "c"). by left. Defined.
End PolicyExamples.
