(* ===== verification/Registry.v ===== *)
(** * Registry: component resolution (pkg/pipeline/validate/registry.go)

    [RegistryView] is the interface [ValidateTyped] and the controller resolve
    components through; [StaticRegistry] is its implementation over a set of
    ComponentDefinitions.  The compiled JSON Schemas are those of the
    jsonschema library, a parameter. *)

From S2P Require Import Prelude GoValue ApiTypes Policy.

(** ** The JSON Schema library

    [OutputUnit] is the library's report tree with the fields the code reads
    ([Error] with its text). *)

Inductive OutputUnit : Type :=
| MkOutputUnit (InstanceLocation : string) (Error : option string) (Errors : list OutputUnit).

(** The error of [Schema.Validate]: a [*ValidationError], with its
    [BasicOutput], or any other error. *)
Inductive schema_error : Type :=
| ValidationError (basic : OutputUnit)
| OtherError (msg : string).

Class JsonSchema : Type := {
  js_doc : Type;
  js_compiler : Type;
  js_schema : Type;
  js_unmarshal : string → result string js_doc;
  js_add_resource : string → js_doc → result string js_compiler;
  js_compile : js_compiler → string → result string js_schema;
  js_validate : js_schema → value → option schema_error;
}.

Section Registry.
Context `{Q : !Quantities} `{JS : !JsonSchema} `{UT : !UnicodeTables}.

Definition CompileSchema (raw : string) : result string js_schema :=
  doc ← js_unmarshal raw;
  c ← js_add_resource "schema.json" doc;
  js_compile c "schema.json".

Record ResolvedComponent := MkResolvedComponent {
  rc_Component : string;
  rc_Version : string;
  rc_Image : string;
  rc_Prerelease : bool;
  rc_ConfigSchema : option js_schema;
  rc_Resources : ComponentResources;
  rc_IO : option ComponentIO;
  rc_rawConfigSchema : string;
}.

(** ** The interface *)

Class RegistryView (R : Type) : Type :=
  Resolve : R → string → string → option ResolvedComponent * list Finding.

(** What a client may rely on: a component that does not resolve is reported
    as an error. *)
Class RegistryViewLaws (R : Type) `{!RegistryView R} : Prop :=
  resolve_reported : ∀ (r : R) c v, (Resolve r c v).1 = None → errors (Resolve r c v).2 ≠ [].

(** ** StaticRegistry *)

Definition StaticRegistry : Type := gmap string ComponentDefinition.

Definition resolveVersion (component version : string) (spec : ComponentDefinitionSpec)
    : result (list Finding) VersionSpec :=
  if negb (str_empty version) then
    match FindVersion spec version with
    | Some v => Ok v
    | None => Err [error_finding "version"
        ("component " +:+ quote component +:+ " has no version " +:+ quote version)]
    end
  else if negb (str_empty (cd_DefaultVersion spec)) then
    match FindVersion spec (cd_DefaultVersion spec) with
    | Some v => Ok v
    | None => Err [error_finding "version"
        ("component " +:+ quote component +:+ " default version " +:+
         quote (cd_DefaultVersion spec) +:+ " is not registered")]
    end
  else
    match LatestStable spec with
    | Some v => Ok v
    | None => Err [error_finding "version"
        ("component " +:+ quote component +:+
         " has no stable version and no default; pin an explicit version")]
    end.

Definition no_resources : ComponentResources :=
  MkComponentResources (MkResourceRequirements [] []) [].

#[export] Instance StaticRegistry_Resolve : RegistryView StaticRegistry := λ r component version,
  match r !! component with
  | None => (None, [error_finding "component" ("unknown component " +:+ quote component)])
  | Some def =>
    if bool_decide (cdef_Phase def = "Invalid") then
      (None, [error_finding "component"
        ("component " +:+ quote component +:+ " definition is invalid" +:+
         (if str_empty (cdef_Message def) then EmptyString else ": " +:+ cdef_Message def))])
    else
      let spec := cdef_Spec def in
      match resolveVersion component version spec with
      | Err bad => (None, bad)
      | Ok ver =>
        let rc schema raw :=
          MkResolvedComponent component (v_Version ver) (v_Image ver) (v_Prerelease ver) schema
            (match v_Resources ver with Some res => res | None => no_resources end) (cd_IO spec) raw in
        let findings := if cd_Deprecated spec
          then [warning_finding "component" ("component " +:+ quote component +:+ " is deprecated")]
          else [] in
        if str_empty (v_ConfigSchema ver) then (Some (rc None EmptyString), findings)
        else match CompileSchema (v_ConfigSchema ver) with
             | Err err => (Some (rc None EmptyString), findings ++
                 [error_finding "component"
                    ("component " +:+ quote component +:+ " version " +:+ quote (v_Version ver) +:+
                     " has an invalid config schema: " +:+ err)])
             | Ok schema => (Some (rc (Some schema) (v_ConfigSchema ver)), findings)
             end
      end
  end.

(** ** Specification *)

(** The version a pin selects: the pinned one, else the definition's default,
    else the highest stable one. *)
Definition selects (spec : ComponentDefinitionSpec) (version : string) (v : VersionSpec) : Prop :=
  (version ≠ EmptyString ∧ FindVersion spec version = Some v) ∨
  (version = EmptyString ∧ cd_DefaultVersion spec ≠ EmptyString ∧
    FindVersion spec (cd_DefaultVersion spec) = Some v) ∨
  (version = EmptyString ∧ cd_DefaultVersion spec = EmptyString ∧ LatestStable spec = Some v).

Lemma resolveVersion_Ok c version spec v :
  resolveVersion c version spec = Ok v ↔ selects spec version v.
Proof.
  unfold resolveVersion, selects. destruct version as [|a version]; simpl.
  - destruct (cd_DefaultVersion spec) as [|b d] eqn:Hd; simpl.
    + destruct (LatestStable spec); naive_solver.
    + destruct (FindVersion spec _); naive_solver.
  - destruct (FindVersion spec _); naive_solver.
Qed.

Lemma resolveVersion_Err c version spec bad :
  resolveVersion c version spec = Err bad → errors bad = bad ∧ bad ≠ [].
Proof. unfold resolveVersion. intros H. by repeat case_match; simplify_eq. Qed.

#[export] Instance StaticRegistry_laws : RegistryViewLaws StaticRegistry.
Proof.
  intros r c v. unfold Resolve, StaticRegistry_Resolve.
  destruct (r !! c) as [def|]; [|done]. case_bool_decide; [done|].
  destruct (resolveVersion c v (cdef_Spec def)) as [ver|bad] eqn:E.
  - destruct (str_empty _); [done|]. by destruct (CompileSchema _).
  - intros _. simpl. by destruct (resolveVersion_Err _ _ _ _ E) as [-> ?].
Qed.

(** The compiled config schema of a version, if it has one that compiles. *)
Definition compiled (v : VersionSpec) : option js_schema :=
  if str_empty (v_ConfigSchema v) then None
  else match CompileSchema (v_ConfigSchema v) with Ok s => Some s | Err _ => None end.

(** Version [v] of definition [def], resolved. *)
Definition resolved (c : string) (def : ComponentDefinition) (v : VersionSpec) : ResolvedComponent :=
  MkResolvedComponent c (v_Version v) (v_Image v) (v_Prerelease v) (compiled v)
    (match v_Resources v with Some res => res | None => no_resources end) (cd_IO (cdef_Spec def))
    (match compiled v with Some _ => v_ConfigSchema v | None => EmptyString end).

(** The definition and version a reference stands for. *)
Definition refers (r : StaticRegistry) (c version : string) (def : ComponentDefinition)
    (v : VersionSpec) : Prop :=
  r !! c = Some def ∧ cdef_Phase def ≠ "Invalid" ∧ selects (cdef_Spec def) version v.

Lemma Resolve_cases (r : StaticRegistry) c version :
  (∃ def v, refers r c version def v ∧
    (Resolve r c version).1 = Some (resolved c def v) ∧
    (errors (Resolve r c version).2 = [] ↔
      v_ConfigSchema v = EmptyString ∨ is_ok (CompileSchema (v_ConfigSchema v)) = true)) ∨
  ((∀ def v, ¬ refers r c version def v) ∧ (Resolve r c version).1 = None).
Proof.
  unfold Resolve, StaticRegistry_Resolve, refers.
  destruct (r !! c) as [def|]; [|right; naive_solver].
  case_bool_decide as Hph; [right; naive_solver|].
  setoid_rewrite <-(resolveVersion_Ok c).
  destruct (resolveVersion c version (cdef_Spec def)) as [v|bad] eqn:Ev.
  - left. exists def, v. split; [done|]. unfold resolved, compiled.
    destruct (v_ConfigSchema v) as [|a s]; simpl.
    { split; [done|]. destruct (cd_Deprecated _); naive_solver. }
    by destruct (CompileSchema _), (cd_Deprecated _); simpl; split_and!; naive_solver.
  - right. split; [|done]. intros def' v' (? & _ & ?). congruence.
Qed.

Lemma selects_unique spec version v1 v2 :
  selects spec version v1 → selects spec version v2 → v1 = v2.
Proof. unfold selects. naive_solver. Qed.

Lemma refers_unique r c version d1 v1 d2 v2 :
  refers r c version d1 v1 → refers r c version d2 v2 → d1 = d2 ∧ v1 = v2.
Proof.
  intros (H1 & _ & S1) (H2 & _ & S2). simplify_eq. split; [done|]. by eapply selects_unique.
Qed.

(** ** Properties *)

(** A reference resolves exactly when it names a registered, valid
    definition and its pin selects a version, and what comes back is that
    version of that definition; it resolves without an error exactly when that
    version's config schema is absent or compiles. *)
Theorem StaticRegistry_Resolve_correct (r : StaticRegistry) (c version : string) :
  (∀ rc, (Resolve r c version).1 = Some rc ↔
    ∃ def v, refers r c version def v ∧ rc = resolved c def v) ∧
  (errors (Resolve r c version).2 = [] ↔
    ∃ def v, refers r c version def v ∧
      (v_ConfigSchema v = EmptyString ∨ is_ok (CompileSchema (v_ConfigSchema v)) = true)).
Proof.
  destruct (Resolve_cases r c version) as [(def & v & Hr & -> & He)|[Hno Hnone]].
  - split; [|rewrite He]; [intros rc|]; split.
    + intros [= <-]. eauto.
    + intros (d' & v' & Hr' & ->). by destruct (refers_unique _ _ _ _ _ _ _ Hr Hr') as [<- <-].
    + eauto.
    + intros (d' & v' & Hr' & Hs). by destruct (refers_unique _ _ _ _ _ _ _ Hr Hr') as [<- <-].
  - pose proof (resolve_reported r c version Hnone). rewrite Hnone.
    split; [intros rc|]; split; naive_solver.
Qed.
End Registry.
