(* ===== verification/ConfigSchema.v ===== *)
(** * ConfigSchema: component configs against their schema

    pkg/pipeline/validate/schema.go, walker.go and secrets.go: the layering of
    secret references over JSON Schema validation.  [ValidateConfig_accepts] says
    exactly which configs are accepted when the keys are free of the bytes
    the dotted paths are built with; [secret_required_bypass] and
    [numeric_key_not_dropped] show what happens when they are not. *)

From S2P Require Import Prelude GoValue Secrets ApiTypes GoTime Policy Registry.

(** ** walker.go *)

Definition joinKey (path key : string) : string :=
  if str_empty path then key else path +:+ "." +:+ key.

(** The callback updates a state [acc]. *)
Fixpoint walkStrings {A} (fn : string → string → A → A) (v : value) (path : string) (acc : A) : A :=
  match v with
  | VObj m =>
    (fix go (m : list (string * value)) (acc : A) := match m with
      | [] => acc
      | (k, child) :: m => go m (walkStrings fn child (joinKey path k) acc)
      end) m acc
  | VArr l =>
    (fix go (i : nat) (l : list value) (acc : A) := match l with
      | [] => acc
      | child :: l => go (S i) l (walkStrings fn child (indexPath path i) acc)
      end) 0 l acc
  | VStr s => fn path s acc
  | _ => acc
  end.

(** ** Segments *)

Record segment := MkSegment { key : string; isIndex : bool; isAnyKey : bool }.
#[export] Instance segment_eq_dec : EqDecision segment.
Proof. solve_decision. Defined.
Definition seg_key (k : string) : segment := MkSegment k false false.
Definition seg_index : segment := MkSegment EmptyString true false.
Definition seg_any : segment := MkSegment EmptyString false true.

(** The bytes up to the next period or bracket. *)
Definition is_sep (c : ascii) : bool := Ascii.eqb c "."%char || Ascii.eqb c "["%char.
Definition in_key (c : ascii) : bool := negb (is_sep c).
(** What follows the first [b] of [s]. *)
Fixpoint after_byte (b : ascii) (s : string) : option string :=
  match s with
  | String c r => if Ascii.eqb c b then Some r else after_byte b r
  | EmptyString => None
  end.

Fixpoint segments_loop (fuel : nat) (s : string) : list segment :=
  match fuel, s with
  | S fuel, String c r =>
    if Ascii.eqb c "."%char then segments_loop fuel r
    else if Ascii.eqb c "["%char then
      match after_byte "]"%char s with
      | None => []
      | Some r => seg_index :: segments_loop fuel r
      end
    else let (k, r) := span_byte in_key s in seg_key k :: segments_loop fuel r
  | _, _ => []
  end.
(** Every iteration consumes a byte. *)
Definition pathSegments (path : string) : list segment := segments_loop (slen path) path.

(** ** Schema introspection *)

(** [v.(map[string]any)]. *)
Definition as_obj (v : option value) : option (gomap value) :=
  match v with Some (VObj m) => Some m | _ => None end.

Definition descendKey (node : gomap value) (k : string) : option (gomap value) :=
  match (match as_obj (gm_get "properties" node) with
         | Some props => as_obj (gm_get k props)
         | None => None
         end) with
  | Some sub => Some sub
  | None => as_obj (gm_get "additionalProperties" node)
  end.

Fixpoint resolve_segments (node : gomap value) (segs : list segment) : option (gomap value) :=
  match segs with
  | [] => Some node
  | seg :: segs =>
    if isIndex seg
    then match as_obj (gm_get "items" node) with
         | None => None
         | Some items => resolve_segments items segs
         end
    else match descendKey node (key seg) with
         | None => None
         | Some next => resolve_segments next segs
         end
  end.
Definition resolveSchemaNode (root : option value) (path : string) : option (gomap value) :=
  match as_obj root with
  | None => None
  | Some node => resolve_segments node (pathSegments path)
  end.

Definition typeAdmitsString (node : gomap value) : bool :=
  match gm_get "type" node with
  | None => true
  | Some (VStr tv) => bool_decide (tv = "string")
  | Some (VArr tv) => existsb (λ x, match x with VStr s => bool_decide (s = "string") | _ => false end) tv
  | Some _ => true
  end.

Definition xDatupletSecret : string := "x-datuplet-secret".
Definition annotated (m : gomap value) : bool :=
  match gm_get xDatupletSecret m with Some (VBool b) => b | _ => false end.

Fixpoint collectSecretPaths (node : value) (prefix : list segment) : list (list segment) :=
  match node with
  | VObj m =>
    (if annotated m then [prefix] else []) ++
    (fix at_properties (m : gomap value) := match m with
      | [] => []
      | (k, x) :: m =>
        if decide ("properties" = k) then
          match x with
          | VObj props =>
            (fix go (props : gomap value) := match props with
              | [] => []
              | (k, sub) :: props => collectSecretPaths sub (prefix ++ [seg_key k]) ++ go props
              end) props
          | _ => []
          end
        else at_properties m
      end) m ++
    (fix at_items (m : gomap value) := match m with
      | [] => []
      | (k, x) :: m =>
        if decide ("items" = k) then
          match x with VObj _ => collectSecretPaths x (prefix ++ [seg_index]) | _ => [] end
        else at_items m
      end) m ++
    (fix at_additional (m : gomap value) := match m with
      | [] => []
      | (k, x) :: m =>
        if decide ("additionalProperties" = k) then
          match x with VObj _ => collectSecretPaths x (prefix ++ [seg_any]) | _ => [] end
        else at_additional m
      end) m
  | _ => []
  end.

Fixpoint lookupInstances (node : value) (segs : list segment) (path : string) : list string :=
  match segs with
  | [] => [path]
  | seg :: segs =>
    if isIndex seg then
      match node with
      | VArr arr => concat (imap (λ i child, lookupInstances child segs (indexPath path i)) arr)
      | _ => []
      end
    else if isAnyKey seg then
      match node with
      | VObj m => concat (map (λ kv, lookupInstances kv.2 segs (joinKey path kv.1)) m)
      | _ => []
      end
    else
      match node with
      | VObj m =>
        match gm_get (key seg) m with
        | None => []
        | Some child => lookupInstances child segs (joinKey path (key seg))
        end
      | _ => []
      end
  end.

(** ** Library errors *)

(** Location and text of the units that carry an error. *)
Fixpoint collectLeafErrors (u : OutputUnit) : list (string * string) :=
  match u with
  | MkOutputUnit loc err [] => match err with Some e => [(loc, e)] | None => [] end
  | MkOutputUnit _ _ errs =>
    (fix go (us : list OutputUnit) := match us with
      | [] => []
      | u :: us => collectLeafErrors u ++ go us
      end) errs
  end.

(** [strings.ReplaceAll] of the two-byte [String a (String b _)]. *)
Fixpoint replace2 (a b : ascii) (by_ : string) (s : string) : string :=
  match s with
  | String c r =>
    match r with
    | String d r' => if Ascii.eqb c a && Ascii.eqb d b then by_ +:+ replace2 a b by_ r'
                     else String c (replace2 a b by_ r)
    | EmptyString => s
    end
  | EmptyString => s
  end.

Definition isAllDigits (s : string) : bool := all_digits s.

Definition pointerToDotted (ptr : string) : string :=
  if str_empty ptr then EmptyString
  else
    let trimmed := match cut_prefix "/" ptr with Some r => r | None => ptr end in
    foldl (λ b tok,
      let tok := replace2 "~"%char "0"%char "~" (replace2 "~"%char "1"%char "/" tok) in
      if isAllDigits tok then b +:+ "[" +:+ tok +:+ "]"
      else if str_empty b then tok else b +:+ "." +:+ tok)
      EmptyString (split_byte "/"%char trimmed).

Definition withPrefix (prefix path : string) : string :=
  if str_empty path then prefix
  else if str_empty prefix then path
  else prefix +:+ "." +:+ path.

Definition refSentinel : string := "x".
Definition msgSecretOnNonString : string := "secret reference not allowed on non-string field".
Definition msgSecretRequired : string := "field requires a $[secret] reference".

Section ConfigSchema.
Context `{UT : !UnicodeTables} `{J : !Json} `{JS : !JsonSchema}.

Definition isWholeScalarRef (s : string) : bool :=
  match Validate (VStr s) with Ok names => negb (is_empty names) | Err _ => false end.

Fixpoint sanitizeRefs (v : value) : value :=
  match v with
  | VObj m => VObj ((fix go (m : gomap value) := match m with
      | [] => []
      | (k, child) :: m => (k, sanitizeRefs child) :: go m
      end) m)
  | VArr l => VArr (map sanitizeRefs l)
  | VStr s => VStr (if isWholeScalarRef s then refSentinel else s)
  | _ => v
  end.

(** Step 1: the locations that hold a reference. *)
Definition refPaths (cfg : gomap value) : gset string :=
  walkStrings (λ path s refs, if isWholeScalarRef s then {[path]} ∪ refs else refs)
    (VObj cfg) EmptyString ∅.

(** Step 2; the set is visited in some order. *)
Definition nonStringFindings (schemaDoc : option value) (refs : gset string) (pathPrefix : string)
    : list Finding :=
  flat_map (λ path,
    match resolveSchemaNode schemaDoc path with
    | None => []
    | Some node =>
      report (negb (typeAdmitsString node))
        (error_finding (withPrefix pathPrefix path) msgSecretOnNonString)
    end) (elements refs).

(** Step 3. *)
Definition secretFindings (schemaDoc : option value) (cfg : gomap value) (refs : gset string)
    (pathPrefix : string) : list Finding :=
  flat_map (λ segs,
    flat_map (λ h, report (negb (bool_decide (h ∈ refs)))
                     (error_finding (withPrefix pathPrefix h) msgSecretRequired))
      (lookupInstances (VObj cfg) segs EmptyString))
    (match schemaDoc with Some doc => collectSecretPaths doc [] | None => [] end).

(** Step 4. *)
Definition libraryFindings (schema : js_schema) (cfg : gomap value) (refs : gset string)
    (pathPrefix : string) : list Finding :=
  match js_validate schema (sanitizeRefs (VObj cfg)) with
  | None => []
  | Some (OtherError msg) => [error_finding pathPrefix msg]
  | Some (ValidationError u) =>
    flat_map (λ leaf : string * string,
      let dotted := pointerToDotted leaf.1 in
      report (negb (bool_decide (dotted ∈ refs)))
        (error_finding (withPrefix pathPrefix dotted) leaf.2)) (collectLeafErrors u)
  end.

(** A nil config is the empty map. *)
Definition ValidateConfig (schema : js_schema) (rawSchema : string) (cfg : option (gomap value))
    (pathPrefix : string) : list Finding :=
  let cfg := default [] cfg in
  let refs := refPaths cfg in
  let schemaDoc := json_any rawSchema in
  nonStringFindings schemaDoc refs pathPrefix ++
  secretFindings schemaDoc cfg refs pathPrefix ++
  libraryFindings schema cfg refs pathPrefix.

(** ** secrets.go *)

Definition ReferencedSecrets `{Q : !Quantities} (p : option Pipeline) : list string :=
  match p with
  | None => []
  | Some p =>
    sorted_names
      (foldl (λ refs c,
         match ConfigMap c with
         | Ok (Some cfg) =>
           walkStrings (λ _ s refs,
               match Validate (VStr s) with
               | Ok names => list_to_set names ∪ refs
               | Err _ => refs
               end) (VObj cfg) EmptyString refs
         | _ => refs
         end) ∅ (flat_map st_Components (ps_Stages (p_Spec p))))
  end.
End ConfigSchema.

(** ** Specification: locations *)

Inductive step : Type := SKey (k : string) | SIdx (i : nat).

(** [w] is what the config [v] holds at a location. *)
Inductive at_loc : value → list step → value → Prop :=
| at_here v : at_loc v [] v
| at_key m k v steps w : (k, v) ∈ m → at_loc v steps w → at_loc (VObj m) (SKey k :: steps) w
| at_idx l i v steps w : l !! i = Some v → at_loc v steps w → at_loc (VArr l) (SIdx i :: steps) w.

Definition render (path : string) (s : step) : string :=
  match s with SKey k => joinKey path k | SIdx i => indexPath path i end.
(** The dotted path of a location. *)
Definition dotted (path : string) (steps : list step) : string := foldl render path steps.

(** A key that the dotted form keeps apart from the path syntax. *)
Definition plain_key (k : string) : bool := negb (str_empty k) && forall_byte in_key k.
Definition plain_step (s : step) : bool := match s with SKey k => plain_key k | SIdx _ => true end.

(** Distinct, plain keys in every object of the tree. *)
Fixpoint plain_tree (v : value) : bool :=
  match v with
  | VArr l => (fix go (l : list value) := match l with [] => true | x :: l => plain_tree x && go l end) l
  | VObj m =>
    bool_decide (NoDup (gm_keys m)) &&
    (fix go (m : gomap value) := match m with
      | [] => true | (k, x) :: m => plain_key k && plain_tree x && go m end) m
  | _ => true
  end.

Definition seg_of (s : step) : segment :=
  match s with SKey k => seg_key k | SIdx _ => seg_index end.
(** The instance steps a schema segment applies to. *)
Definition seg_matches (seg : segment) (s : step) : Prop :=
  match s with
  | SIdx _ => isIndex seg = true
  | SKey k => isIndex seg = false ∧ (isAnyKey seg = true ∨ key seg = k)
  end.

(** [m] is the schema object that the schema [doc] applies at [segs]. *)
Inductive schema_at : value → list segment → gomap value → Prop :=
| schema_here m : schema_at (VObj m) [] m
| schema_property m props k sub segs n :
    gm_get "properties" m = Some (VObj props) → (k, sub) ∈ props →
    schema_at sub segs n → schema_at (VObj m) (seg_key k :: segs) n
| schema_items m x segs n :
    gm_get "items" m = Some x → schema_at x segs n → schema_at (VObj m) (seg_index :: segs) n
| schema_additional m x segs n :
    gm_get "additionalProperties" m = Some x → schema_at x segs n →
    schema_at (VObj m) (seg_any :: segs) n.

(** ** Lemmas: walking a config *)

(** The string leaves the walk visits. *)
Fixpoint strings (v : value) (path : string) : list (string * string) :=
  match v with
  | VObj m =>
    (fix go (m : list (string * value)) := match m with
      | [] => []
      | (k, child) :: m => strings child (joinKey path k) ++ go m
      end) m
  | VArr l =>
    (fix go (i : nat) (l : list value) := match l with
      | [] => []
      | child :: l => strings child (indexPath path i) ++ go (S i) l
      end) 0 l
  | VStr s => [(path, s)]
  | _ => []
  end.

Lemma walkStrings_fold {A} (fn : string → string → A → A) v path acc :
  walkStrings fn v path acc = foldl (λ acc ps, fn ps.1 ps.2 acc) acc (strings v path).
Proof.
  revert path acc.
  induction v as [| | | |l IH|m IH|m IH] using value_ind'; intros path acc; try done; simpl.
  - generalize 0 as i. revert acc.
    induction IH as [|x l Hx _ IHl]; intros acc i; [done|]. by rewrite foldl_app, <-Hx, <-IHl.
  - revert acc.
    induction IH as [|[k x] m Hx _ IHm]; intros acc; [done|]. by rewrite foldl_app, <-Hx, <-IHm.
Qed.

Lemma elem_strings_arr l path i p s :
  (p, s) ∈ (fix go (i : nat) (l : list value) := match l with
      | [] => []
      | child :: l => strings child (indexPath path i) ++ go (S i) l
      end) i l ↔ ∃ j x, l !! j = Some x ∧ (p, s) ∈ strings x (indexPath path (i + j)).
Proof.
  revert i. induction l as [|x l IH]; intros i.
  { split; [by intros ?%elem_of_nil|naive_solver]. }
  rewrite elem_of_app, IH. split.
  - intros [Hx|(j & y & Hj & Hy)].
    + exists 0, x. by rewrite Nat.add_0_r.
    + exists (S j), y. by rewrite Nat.add_succ_r.
  - intros ([|j] & y & Hj & Hy); simplify_eq/=; [left; by rewrite Nat.add_0_r in Hy|right].
    exists j, y. by rewrite Nat.add_succ_r in Hy.
Qed.

Lemma elem_strings_obj m path p s :
  (p, s) ∈ (fix go (m : list (string * value)) := match m with
      | [] => []
      | (k, child) :: m => strings child (joinKey path k) ++ go m
      end) m ↔ ∃ k x, (k, x) ∈ m ∧ (p, s) ∈ strings x (joinKey path k).
Proof.
  induction m as [|[k x] m IH].
  { split; [by intros ?%elem_of_nil|by intros (? & ? & ?%elem_of_nil & ?)]. }
  rewrite elem_of_app, IH. split.
  - intros [Hx|(j & y & Hj & Hy)]; [exists k, x|exists j, y]; split; [constructor|done|by constructor|done].
  - intros (j & y & [?|?]%elem_of_cons & Hy); simplify_eq; [by left|right; eauto].
Qed.

Lemma elem_strings v path p s :
  (p, s) ∈ strings v path ↔ ∃ steps, at_loc v steps (VStr s) ∧ p = dotted path steps.
Proof.
  split.
  - revert path.
    induction v as [| | |s'|l IH|m IH|m IH] using value_ind'; intros path; simpl;
      try by intros ?%elem_of_nil.
    + intros Hin%list_elem_of_singleton. simplify_eq. exists []. by split; [constructor|].
    + rewrite elem_strings_arr. intros (j & x & Hj & Hx). rewrite Forall_lookup in IH.
      destruct (IH _ _ Hj _ Hx) as (steps & ? & ->). exists (SIdx j :: steps).
      split; [by econstructor|done].
    + rewrite elem_strings_obj. intros (k & x & Hin & Hx). rewrite Forall_forall in IH.
      destruct (IH (k, x) Hin _ Hx) as (steps & ? & ->). exists (SKey k :: steps).
      split; [by econstructor|done].
  - intros (steps & Hat & ->). remember (VStr s) as w eqn:Ew. revert path.
    induction Hat as [v|m k v steps w Hin _ IH|l i v steps w Hi _ IH]; intros path.
    + subst. by constructor.
    + simpl. apply elem_strings_obj. exists k, v. split; [done|]. by apply IH.
    + simpl. apply elem_strings_arr. exists i, v. split; [done|]. by apply IH.
Qed.

(** ** Lemmas: dotted paths *)

Fixpoint suffix_path (steps : list step) : string :=
  match steps with
  | [] => EmptyString
  | SKey k :: steps => String "."%char (k +:+ suffix_path steps)
  | SIdx i :: steps => String "["%char (itoa_nat i +:+ String "]"%char (suffix_path steps))
  end.

Lemma dotted_suffix path steps :
  path ≠ EmptyString → dotted path steps = path +:+ suffix_path steps.
Proof.
  revert path. induction steps as [|[k|i] steps IH]; intros path Hp; simpl.
  - by rewrite str_app_nil.
  - unfold joinKey. destruct (str_empty path) eqn:E; [by apply str_empty_true in E|].
    rewrite IH; [by rewrite !str_app_assoc|]. by destruct path.
  - unfold indexPath. rewrite IH; [by rewrite !str_app_assoc|]. by destruct path.
Qed.

Lemma plain_key_ne k : plain_key k = true → k ≠ EmptyString.
Proof. by destruct k. Qed.

Lemma dotted_key k steps :
  plain_key k = true → dotted EmptyString (SKey k :: steps) = k +:+ suffix_path steps.
Proof.
  intros Hk. simpl. unfold joinKey. simpl. by apply dotted_suffix, plain_key_ne.
Qed.

Lemma itoa_nat_digits i : forall_byte is_digit_byte (itoa_nat i) = true.
Proof.
  unfold itoa_nat, pretty, pretty_nat, pretty, pretty_N.
  case_decide; [done|]. by rewrite forall_digits_go.
Qed.

Lemma suffix_head steps : head_not in_key (suffix_path steps) = true.
Proof. by destruct steps as [|[]]. Qed.

Lemma suffix_inj s1 s2 :
  forallb plain_step s1 = true → forallb plain_step s2 = true →
  suffix_path s1 = suffix_path s2 → s1 = s2.
Proof.
  revert s2. induction s1 as [|[k|i] s1 IH]; intros [|[k'|i'] s2] H1 H2 E; simplify_eq/=; [done|..].
  - apply andb_true_iff in H1 as [Hk H1], H2 as [Hk' H2]. unfold plain_key in *. split_and_all.
    destruct (span_byte_inj in_key k (suffix_path s1) k' (suffix_path s2)) as [-> E']; auto using suffix_head.
    by rewrite (IH s2).
  - destruct (span_byte_inj is_digit_byte (itoa_nat i) (String "]"%char (suffix_path s1))
      (itoa_nat i') (String "]"%char (suffix_path s2))) as [E1 E2]; auto using itoa_nat_digits.
    apply (inj pretty) in E1 as ->. injection E2 as E2. by rewrite (IH s2).
Qed.

(** Two plain locations of an object with the same dotted path are one. *)
Lemma dotted_inj s1 s2 m w1 w2 :
  at_loc (VObj m) s1 w1 → at_loc (VObj m) s2 w2 →
  forallb plain_step s1 = true → forallb plain_step s2 = true →
  dotted EmptyString s1 = dotted EmptyString s2 → s1 = s2.
Proof.
  intros A1 A2 H1 H2 E. inversion A1 as [|? k1 v1 r1 ? Hin1 L1|]; subst;
    inversion A2 as [|? k2 v2 r2 ? Hin2 L2|]; subst; [done|..].
  - apply andb_true_iff in H2 as [Hk _]. rewrite dotted_key in E by done. by destruct k2.
  - apply andb_true_iff in H1 as [Hk _]. rewrite dotted_key in E by done. by destruct k1.
  - apply suffix_inj; [done..|]. apply andb_true_iff in H1 as [Hk1 _], H2 as [Hk2 _].
    rewrite !dotted_key in E by done. simpl. by rewrite E.
Qed.

Lemma after_byte_digits s r : forall_byte is_digit_byte s = true →
  after_byte "]"%char (s +:+ String "]"%char r) = Some r.
Proof.
  induction s as [|c s IH]; intros H; [done|]. simpl in H. split_and_all.
  change (String c s +:+ String "]"%char r) with (String c (s +:+ String "]"%char r)). simpl.
  destruct (Ascii.eqb_spec c "]"%char) as [->|]; [done|auto].
Qed.

Lemma segments_key fuel k r :
  plain_key k = true → head_not in_key r = true →
  segments_loop (S fuel) (k +:+ r) = seg_key k :: segments_loop fuel r.
Proof.
  intros Hk Hr. apply andb_true_iff in Hk as [Hne Hk]. destruct k as [|c k]; [done|].
  pose proof (span_byte_app in_key (String c k) r Hk Hr) as Hs.
  change (String c k +:+ r) with (String c (k +:+ r)) in *. cbn [segments_loop].
  apply andb_true_iff in Hk as [Hc _]. apply negb_true_iff, orb_false_iff in Hc as [-> ->].
  by rewrite Hs.
Qed.

(** Following a dotted path recovers its steps, whatever fuel is left over. *)
Lemma segments_suffix steps fuel :
  forallb plain_step steps = true → slen (suffix_path steps) ≤ fuel →
  segments_loop fuel (suffix_path steps) = map seg_of steps.
Proof.
  revert fuel. induction steps as [|[k|i] steps IH]; intros fuel H Hf; [by destruct fuel|..].
  - apply andb_true_iff in H as [Hk H]. simpl in Hk.
    cbn [suffix_path slen String.length] in Hf.
    change (String.length (k +:+ suffix_path steps)) with (slen (k +:+ suffix_path steps)) in Hf.
    rewrite slen_app in Hf. destruct fuel as [|[|fuel]]; [lia| |].
    { destruct k; [done|]. unfold slen in Hf. simpl in Hf. lia. }
    cbn [suffix_path]. cbn [map seg_of].
    change (segments_loop (S (S fuel)) (String "."%char (k +:+ suffix_path steps)))
      with (segments_loop (S fuel) (k +:+ suffix_path steps)).
    rewrite segments_key, IH; [done|done| |done|apply suffix_head].
    destruct k; [done|]. unfold slen in *. simpl in *. lia.
  - apply andb_true_iff in H as [_ H]. destruct fuel as [|fuel]; [unfold slen in Hf; simpl in Hf; lia|].
    cbn [suffix_path map seg_of]. set (r := String "]"%char (suffix_path steps)).
    change (segments_loop (S fuel) (String "["%char (itoa_nat i +:+ r)))
      with (match after_byte "]"%char (itoa_nat i +:+ r) with
            | None => [] | Some r => seg_index :: segments_loop fuel r end).
    unfold r. rewrite after_byte_digits by apply itoa_nat_digits. rewrite IH; [done|done|].
    cbn [suffix_path slen String.length] in Hf.
    change (String.length ?s) with (slen s) in Hf. rewrite slen_app in Hf.
    unfold slen in *. simpl in *. lia.
Qed.

Lemma pathSegments_dotted m steps w :
  at_loc (VObj m) steps w → forallb plain_step steps = true →
  pathSegments (dotted EmptyString steps) = map seg_of steps.
Proof.
  intros A H. inversion A as [|? k v r ? Hin L|]; subst; [done|].
  apply andb_true_iff in H as [Hk H]. rewrite dotted_key by done.
  unfold pathSegments. assert (0 < slen k).
  { destruct k; [done|]. unfold slen. simpl. lia. }
  rewrite slen_app. destruct (slen k + slen (suffix_path r)) as [|n] eqn:E; [lia|].
  rewrite segments_key, segments_suffix; [done|done|lia|done|apply suffix_head].
Qed.

(** ** Lemmas: instances and annotations *)

Lemma plain_tree_arr l : plain_tree (VArr l) = true ↔ ∀ i x, l !! i = Some x → plain_tree x = true.
Proof.
  simpl. induction l as [|x l IH]; [done|]. rewrite andb_true_iff, IH. split.
  - intros [Hx Hl] [|i] y Hy; simplify_eq/=; eauto.
  - intros H. split; [by apply (H 0)|]. intros i y Hy. by apply (H (S i)).
Qed.

Lemma plain_tree_obj m : plain_tree (VObj m) = true ↔
  gm_ok m ∧ ∀ k x, (k, x) ∈ m → plain_key k = true ∧ plain_tree x = true.
Proof.
  simpl. rewrite andb_true_iff, bool_decide_eq_true. unfold gm_ok. f_equiv.
  induction m as [|[k x] m IH].
  { split; [|done]. by intros _ ? ? ?%elem_of_nil. }
  rewrite !andb_true_iff, IH. split.
  - intros [[? ?] Hm] k' x' [?|?]%elem_of_cons; simplify_eq; eauto.
  - intros H. destruct (H k x) as [-> ->]; [constructor|]. split; [done|].
    intros k' x' ?. apply H. by constructor.
Qed.

Lemma plain_loc v steps w : plain_tree v = true → at_loc v steps w →
  forallb plain_step steps = true ∧ plain_tree w = true.
Proof.
  intros Hv A. induction A as [v|m k v steps w Hin _ IH|l i v steps w Hi _ IH]; [done|..].
  - apply plain_tree_obj in Hv as [_ Hv]. destruct (Hv _ _ Hin) as [Hk Hx].
    simpl. rewrite Hk. auto.
  - rewrite plain_tree_arr in Hv. simpl. eauto.
Qed.

Lemma elem_of_concat_map {A B} (f : A → list B) l y :
  y ∈ concat (map f l) ↔ ∃ x, x ∈ l ∧ y ∈ f x.
Proof.
  induction l as [|x l IH]; simpl.
  { split; [by intros ?%elem_of_nil|by intros (? & ?%elem_of_nil & _)]. }
  rewrite elem_of_app, IH. split.
  - intros [?|(z & ? & ?)]; [exists x|exists z]; by split; [constructor|].
  - intros (z & [->|?]%elem_of_cons & ?); [by left|right; eauto].
Qed.

(** One segment, then the others. *)
Lemma matches_cons v path seg segs h :
  (∃ steps w, Forall2 seg_matches (seg :: segs) steps ∧ at_loc v steps w ∧ h = dotted path steps) ↔
  ∃ s v', seg_matches seg s ∧ at_loc v [s] v' ∧
    ∃ steps w, Forall2 seg_matches segs steps ∧ at_loc v' steps w ∧ h = dotted (render path s) steps.
Proof.
  split.
  - intros (steps & w & F & A & ->). inversion F as [|? s ? r Hm Hr]; subst.
    inversion A as [|? ? v' ? ? Hin L|? ? v' ? ? Hi L]; subst;
      eexists _, v'; (split_and!; [done|econstructor; [done|constructor]|by eexists r, w]).
  - intros (s & v' & Hm & As & steps & w & F & A & ->). exists (s :: steps), w.
    split_and!; [by constructor| |done].
    inversion As as [|? ? ? ? ? Hin L|? ? ? ? ? Hi L]; subst; inversion L; subst; by econstructor.
Qed.

Lemma no_step_in v s v' : at_loc v [s] v' →
  match s with
  | SKey k => ∃ m, v = VObj m ∧ (k, v') ∈ m
  | SIdx i => ∃ l, v = VArr l ∧ l !! i = Some v'
  end.
Proof. intros A. inversion A as [|? ? ? ? ? ? L|? ? ? ? ? ? L]; subst; inversion L; subst; eauto. Qed.

Lemma step_in_obj m k x : (k, x) ∈ m → at_loc (VObj m) [SKey k] x.
Proof. intros. by econstructor; [|constructor]. Qed.

Lemma step_in_arr l i x : l !! i = Some x → at_loc (VArr l) [SIdx i] x.
Proof. intros. by econstructor; [|constructor]. Qed.

(** What one segment selects. *)
Definition select (seg : segment) (path : string) (node : value) : list (string * value) :=
  if isIndex seg then
    match node with VArr arr => imap (λ i child, (indexPath path i, child)) arr | _ => [] end
  else if isAnyKey seg then
    match node with VObj m => map (λ kv, (joinKey path kv.1, kv.2)) m | _ => [] end
  else
    match node with
    | VObj m => match gm_get (key seg) m with
                | Some child => [(joinKey path (key seg), child)] | None => [] end
    | _ => []
    end.

Lemma lookupInstances_select seg segs v path :
  lookupInstances v (seg :: segs) path =
  concat (map (λ pc, lookupInstances pc.2 segs pc.1) (select seg path v)).
Proof.
  unfold select. cbn [lookupInstances]. destruct (isIndex seg); [|destruct (isAnyKey seg)].
  - destruct v; try done. f_equal. symmetry. exact (fmap_imap _ _ _).
  - destruct v; try done. by rewrite map_map.
  - destruct v; try done. destruct (gm_get _ _); [|done]. simpl. by rewrite app_nil_r.
Qed.

Lemma select_elem seg path v p c : plain_tree v = true →
  (p, c) ∈ select seg path v ↔ ∃ s, seg_matches seg s ∧ at_loc v [s] c ∧ p = render path s.
Proof.
  intros Hv. unfold select. destruct (isIndex seg) eqn:Ei; [|destruct (isAnyKey seg) eqn:Ea].
  - split.
    + destruct v as [| | | |arr| |]; try by intros ?%elem_of_nil.
      intros (i & x & [= -> ->] & Hi)%elem_of_lookup_imap. exists (SIdx i). eauto using step_in_arr.
    + intros ([k|i] & Hm & A & ->); [by destruct Hm; congruence|].
      apply no_step_in in A as (l & -> & Hi). apply elem_of_lookup_imap. eauto.
  - split.
    + destruct v as [| | | | |m|]; try by intros ?%elem_of_nil.
      intros Hin. apply list_elem_of_In, in_map_iff in Hin as ([k x] & [= <- <-] & Hin).
      exists (SKey k). apply list_elem_of_In in Hin. split_and!; [by split; [|left]|by apply step_in_obj|done].
    + intros ([k|i] & Hm & A & ->); [|simpl in Hm; congruence].
      apply no_step_in in A as (m & -> & Hi). apply list_elem_of_In, in_map_iff. exists (k, c).
      split; [done|]. by apply list_elem_of_In.
  - split.
    + destruct v as [| | | | |m|]; try by intros ?%elem_of_nil.
      destruct (gm_get (key seg) m) as [x|] eqn:Hg; [|by intros ?%elem_of_nil].
      intros [= -> ->]%list_elem_of_singleton. exists (SKey (key seg)).
      split_and!; [by split; [|right]|by apply step_in_obj, gm_get_elem|done].
    + intros ([k|i] & Hm & A & ->); [|simpl in Hm; congruence].
      apply no_step_in in A as (m & -> & Hin). apply plain_tree_obj in Hv as [Hok _].
      destruct Hm as [_ [?|<-]]; [congruence|]. rewrite (elem_gm_get _ _ _ Hok Hin). by constructor.
Qed.

Lemma lookupInstances_elem segs v path h : plain_tree v = true →
  h ∈ lookupInstances v segs path ↔
  ∃ steps w, Forall2 seg_matches segs steps ∧ at_loc v steps w ∧ h = dotted path steps.
Proof.
  revert v path. induction segs as [|seg segs IH]; intros v path Hv.
  { cbn [lookupInstances]. rewrite list_elem_of_singleton. split.
    - intros ->. exists [], v. split_and!; [constructor|constructor|done].
    - intros (steps & w & F & _ & ->). by inversion F. }
  rewrite lookupInstances_select, elem_of_concat_map, matches_cons. split.
  - intros ([p c] & Hin & Hx). apply select_elem in Hin as (s & Hm & A & ->); [|done].
    destruct (plain_loc _ _ _ Hv A) as [_ Hc]. apply IH in Hx; [|done]. by exists s, c.
  - intros (s & c & Hm & A & Hx). destruct (plain_loc _ _ _ Hv A) as [_ Hc].
    exists (render path s, c). split; [apply select_elem; eauto|by apply IH].
Qed.

Lemma collect_obj m prefix :
  collectSecretPaths (VObj m) prefix =
  (if annotated m then [prefix] else []) ++
  match gm_get "properties" m with
  | Some (VObj props) => concat (map (λ kv, collectSecretPaths kv.2 (prefix ++ [seg_key kv.1])) props)
  | _ => []
  end ++
  match gm_get "items" m with
  | Some (VObj x) => collectSecretPaths (VObj x) (prefix ++ [seg_index]) | _ => [] end ++
  match gm_get "additionalProperties" m with
  | Some (VObj x) => collectSecretPaths (VObj x) (prefix ++ [seg_any]) | _ => [] end.
Proof.
  cbn [collectSecretPaths]. f_equal. f_equal; [|f_equal].
  - induction m as [|[k x] m IH]; [done|]. cbn [gm_get]. destruct (decide _); [|exact IH].
    destruct x as [| | | | |props|]; try done.
    clear. induction props as [|[k x] props IH]; [done|]. simpl. by rewrite <-IH.
  - induction m as [|[k x] m IH]; [done|]. cbn [gm_get]. destruct (decide _); [|exact IH]. by destruct x.
  - induction m as [|[k x] m IH]; [done|]. cbn [gm_get]. destruct (decide _); [|exact IH]. by destruct x.
Qed.

Lemma schema_at_obj v segs n : schema_at v segs n → ∃ m, v = VObj m.
Proof. destruct 1; eauto. Qed.

(** The recorded segment paths are those of the annotated schema objects. *)
Lemma collect_complete doc segs n prefix :
  schema_at doc segs n → annotated n = true → (prefix ++ segs) ∈ collectSecretPaths doc prefix.
Proof.
  intros A Hn. revert prefix. induction A as [m|m props k sub segs n Hg Hin _ IH|m x segs n Hg A IH
    |m x segs n Hg A IH]; intros prefix; rewrite collect_obj, ?elem_of_app.
  - left. rewrite Hn, app_nil_r. constructor.
  - right. left. rewrite Hg, elem_of_concat_map. exists (k, sub). split; [done|].
    rewrite (cons_middle (seg_key k)), app_assoc. auto.
  - right. right. left. destruct (schema_at_obj _ _ _ A) as [y ->]. rewrite Hg.
    rewrite (cons_middle seg_index), app_assoc. auto.
  - right. right. right. destruct (schema_at_obj _ _ _ A) as [y ->]. rewrite Hg.
    rewrite (cons_middle seg_any), app_assoc. auto.
Qed.

Fixpoint vsize (v : value) : nat :=
  match v with
  | VArr l => S ((fix go l := match l with [] => 0 | x :: l => vsize x + go l end) l)
  | VObj m => S ((fix go (m : gomap value) := match m with [] => 0 | (_, x) :: m => vsize x + go m end) m)
  | VAnyObj m => S ((fix go (m : list (any_key * value)) := match m with
                       [] => 0 | (_, x) :: m => vsize x + go m end) m)
  | _ => 1
  end.

Lemma vsize_entry m k x : (k, x) ∈ m → vsize x < vsize (VObj m).
Proof.
  simpl. induction m as [|[k' x'] m IH]; [by intros ?%elem_of_nil|].
  intros [?|Hin]%elem_of_cons; simplify_eq; [lia|]. apply IH in Hin. lia.
Qed.

Lemma collect_sound doc prefix p :
  p ∈ collectSecretPaths doc prefix →
  ∃ segs n, p = prefix ++ segs ∧ schema_at doc segs n ∧ annotated n = true.
Proof.
  remember (vsize doc) as n eqn:Hn. revert doc prefix Hn. induction (lt_wf n) as [n _ IH].
  intros doc prefix -> Hp. destruct doc as [| | | | |m|]; try by apply elem_of_nil in Hp.
  assert (∀ k x q, gm_get k m = Some x → p ∈ collectSecretPaths x (prefix ++ [q]) →
    ∃ segs n, p = prefix ++ q :: segs ∧ schema_at x segs n ∧ annotated n = true) as Hsub.
  { intros k x q Hg Hx. eapply IH in Hx as (segs & n & -> & A & Hn);
      [|eapply vsize_entry; eauto using gm_get_elem|done].
    exists segs, n. by rewrite <-app_assoc. }
  rewrite collect_obj, !elem_of_app in Hp. destruct Hp as [Hp|[Hp|[Hp|Hp]]].
  - destruct (annotated m) eqn:Ha; [|by apply elem_of_nil in Hp].
    apply list_elem_of_singleton in Hp as ->. exists [], m. rewrite app_nil_r. by split_and!; [|constructor|].
  - destruct (gm_get "properties" m) as [[]|] eqn:Hg; try by apply elem_of_nil in Hp.
    apply elem_of_concat_map in Hp as ([k sub] & Hin & Hp).
    eapply IH in Hp as (segs & n & -> & A & Hn);
      [|etrans; [eapply vsize_entry, Hin|eapply vsize_entry; eauto using gm_get_elem]|done].
    exists (seg_key k :: segs), n. rewrite <-app_assoc. split_and!; [done|by econstructor|done].
  - destruct (gm_get "items" m) as [[]|] eqn:Hg; try by apply elem_of_nil in Hp.
    destruct (Hsub _ _ _ Hg Hp) as (segs & n & -> & A & Hn).
    exists (seg_index :: segs), n. split_and!; [done|by econstructor|done].
  - destruct (gm_get "additionalProperties" m) as [[]|] eqn:Hg; try by apply elem_of_nil in Hp.
    destruct (Hsub _ _ _ Hg Hp) as (segs & n & -> & A & Hn).
    exists (seg_any :: segs), n. split_and!; [done|by econstructor|done].
Qed.

Lemma at_loc_fun v steps w1 w2 :
  plain_tree v = true → at_loc v steps w1 → at_loc v steps w2 → w1 = w2.
Proof.
  intros Hv A1. revert w2. induction A1 as [v|m k v steps w Hin _ IH|l i v steps w Hi _ IH];
    intros w2 A2; inversion A2; subst; [done|..].
  - apply plain_tree_obj in Hv as [Hok Hv].
    assert (v = v0) as <- by (eapply elem_gm_get in Hin, H2; [congruence|done..]).
    apply IH; [by eapply Hv|done].
  - rewrite plain_tree_arr in Hv. simplify_eq. eauto.
Qed.

Section ConfigLemmas.
Context `{UT : !UnicodeTables} `{J : !Json} `{JS : !JsonSchema}.

Lemma isWholeScalarRef_pattern s : isWholeScalarRef s = match refPattern s with Some _ => true | None => false end.
Proof.
  unfold isWholeScalarRef, Validate. simpl. unfold checkLeafSyntax.
  destruct (refPattern s) as [n|]; simpl.
  - assert (n ∈ sorted_names ({[n]} ∪ ∅)) as Hn by (apply elem_of_sorted_names; set_solver).
    by destruct (sorted_names _); [apply elem_of_nil in Hn|].
  - by destruct (escapePattern s), (anyRefLike s).
Qed.

Lemma elem_refPaths cfg h :
  h ∈ refPaths cfg ↔
  ∃ steps s, at_loc (VObj cfg) steps (VStr s) ∧ isWholeScalarRef s = true ∧ h = dotted EmptyString steps.
Proof.
  unfold refPaths. rewrite walkStrings_fold.
  rewrite (elem_foldl _ (λ ps, ps.1 = h ∧ isWholeScalarRef ps.2 = true)).
  - split.
    + intros [?%elem_of_empty|([p s] & Hin & <- & Hs)]; [done|].
      apply elem_strings in Hin as (steps & A & ->). eauto.
    + intros (steps & s & A & Hs & ->). right. exists (dotted EmptyString steps, s).
      rewrite elem_strings. eauto.
  - intros R [p s]. simpl. destruct (isWholeScalarRef s); set_solver.
Qed.

(** At a plain location the set of paths tells whether the value is a reference. *)
Lemma refPaths_at cfg steps v : plain_tree (VObj cfg) = true → at_loc (VObj cfg) steps v →
  dotted EmptyString steps ∈ refPaths cfg ↔ ∃ s, v = VStr s ∧ isWholeScalarRef s = true.
Proof.
  intros Hp A. rewrite elem_refPaths. split.
  - intros (steps' & s & A' & Hs & E).
    assert (steps = steps') as <- by (eapply dotted_inj; eauto; by eapply plain_loc).
    exists s. split; [|done]. by eapply at_loc_fun.
  - intros (s & -> & Hs). eauto.
Qed.

(** ** Properties *)

Lemma report_nil b f : report b f = [] ↔ b = false.
Proof. by destruct b. Qed.

Lemma strings_sanitize v path :
  strings (sanitizeRefs v) path =
  map (λ ps, (ps.1, if isWholeScalarRef ps.2 then refSentinel else ps.2)) (strings v path).
Proof.
  revert path. induction v as [| | | |l IH|m IH|m IH] using value_ind'; intros path; try done; simpl.
  - generalize 0 as i. induction IH as [|x l Hx _ IHl]; intros i; [done|].
    simpl. by rewrite map_app, Hx, IHl.
  - induction IH as [|[k x] m Hx _ IHm]; [done|]. simpl in *. by rewrite map_app, Hx, IHm.
Qed.

(** The config handed to the JSON Schema library has the same string leaves
    at the same paths, the sentinel in place of every secret reference, and so
    no reference is left in it. *)
Theorem sanitizeRefs_hides (v : value) (path : string) :
  strings (sanitizeRefs v) path =
    map (λ ps, (ps.1, if isWholeScalarRef ps.2 then refSentinel else ps.2)) (strings v path) ∧
  (∀ p s, (p, s) ∈ strings (sanitizeRefs v) path → isWholeScalarRef s = false).
Proof.
  split; [apply strings_sanitize|]. intros p s. rewrite strings_sanitize.
  rewrite list_elem_of_In, in_map_iff. intros ([q t] & [= <- <-] & _). simpl.
  destruct (isWholeScalarRef t) eqn:E; [|done].
  by rewrite isWholeScalarRef_pattern.
Qed.

(** On a config with plain, distinct keys, [ValidateConfig] has nothing to
    report exactly when no secret reference sits where the schema's type
    excludes strings, every value at a location the schema annotates with
    x-datuplet-secret is a reference, and the library accepts the config with
    the references replaced, up to errors anchored at a reference. *)
Theorem ValidateConfig_accepts (schema : js_schema) (raw prefix : string) (cfg : gomap value)
    (Hplain : plain_tree (VObj cfg) = true) :
  ValidateConfig schema raw (Some cfg) prefix = [] ↔
  (∀ steps s, at_loc (VObj cfg) steps (VStr s) → isWholeScalarRef s = true →
    ∀ doc node, json_any raw = Some (VObj doc) →
      resolve_segments doc (map seg_of steps) = Some node → typeAdmitsString node = true) ∧
  (∀ doc segs node steps v, json_any raw = Some doc → schema_at doc segs node → annotated node = true →
    Forall2 seg_matches segs steps → at_loc (VObj cfg) steps v →
    ∃ s, v = VStr s ∧ isWholeScalarRef s = true) ∧
  match js_validate schema (sanitizeRefs (VObj cfg)) with
  | None => True
  | Some (OtherError _) => False
  | Some (ValidationError u) => ∀ loc msg, (loc, msg) ∈ collectLeafErrors u →
      ∃ steps s, at_loc (VObj cfg) steps (VStr s) ∧ isWholeScalarRef s = true ∧
        pointerToDotted loc = dotted EmptyString steps
  end.
Proof.
  unfold ValidateConfig. simpl default. rewrite !app_nil. f_equiv; [|f_equiv].
  - unfold nonStringFindings. rewrite flat_map_nil. setoid_rewrite elem_of_elements. split.
    + intros Hf steps s A Hs doc node Hdoc Hnode.
      specialize (Hf (dotted EmptyString steps)). unfold resolveSchemaNode in Hf. rewrite Hdoc in Hf.
      simpl in Hf. erewrite pathSegments_dotted, Hnode in Hf by (done || by eapply plain_loc).
      specialize (Hf ltac:(apply elem_refPaths; eauto)). apply report_nil in Hf.
      by apply negb_false_iff in Hf.
    + intros Hf h (steps & s & A & Hs & ->)%elem_refPaths. unfold resolveSchemaNode.
      destruct (json_any raw) as [[| | | | |doc|]|] eqn:Hdoc; try done. simpl.
      erewrite pathSegments_dotted by (done || by eapply plain_loc).
      destruct (resolve_segments doc _) as [node|] eqn:Hnode; [|done].
      by rewrite (Hf _ _ A Hs _ _ eq_refl Hnode).
  - unfold secretFindings. rewrite flat_map_nil. split.
    + intros Hf doc segs node steps v Hdoc Hat Hann F A. rewrite Hdoc in Hf.
      specialize (Hf segs (collect_complete _ _ _ [] Hat Hann)). rewrite flat_map_nil in Hf.
      specialize (Hf (dotted EmptyString steps)). rewrite report_nil, negb_false_iff, bool_decide_eq_true in Hf.
      apply (refPaths_at cfg steps v Hplain A), Hf, lookupInstances_elem; eauto.
    + intros Hf segs Hsegs. destruct (json_any raw) as [doc|] eqn:Hdoc; [|by apply elem_of_nil in Hsegs].
      apply collect_sound in Hsegs as (segs' & node & -> & Hat & Hann). simpl.
      apply flat_map_nil. intros h Hh. apply lookupInstances_elem in Hh as (steps & v & F & A & ->); [|done].
      apply report_nil, negb_false_iff, bool_decide_eq_true.
      apply (refPaths_at cfg steps v Hplain A). eauto.
  - unfold libraryFindings. destruct (js_validate _ _) as [[u|msg]|]; [|done..].
    rewrite flat_map_nil. split.
    + intros Hf loc msg Hin. specialize (Hf _ Hin). simpl in Hf.
      rewrite report_nil, negb_false_iff, bool_decide_eq_true in Hf. by apply elem_refPaths.
    + intros Hf [loc msg] Hin. apply report_nil, negb_false_iff, bool_decide_eq_true.
      apply elem_refPaths. destruct (Hf _ _ Hin) as (steps & s & ? & ? & ?). eauto.
Qed.

(** The names of one leaf: none unless the whole leaf is a reference. *)
Lemma leaf_names s n :
  (∃ names, Validate (VStr s) = Ok names ∧ n ∈ names) ↔ refPattern s = Some n.
Proof.
  unfold Validate. simpl. unfold checkLeafSyntax. destruct (refPattern s) as [m|]; simpl.
  - setoid_rewrite (inj_iff Some). split.
    + intros (names & [= <-] & Hn). apply elem_of_sorted_names in Hn. set_solver.
    + intros ->. eexists. split; [done|]. apply elem_of_sorted_names. set_solver.
  - split; [|done]. intros (names & E & Hn).
    assert (names = sorted_names ∅) as -> by (destruct (escapePattern s), (anyRefLike s); naive_solver).
    apply elem_of_sorted_names in Hn. set_solver.
Qed.

Definition leaf_names_step (s : string) (refs : gset string) : gset string :=
  match Validate (VStr s) with Ok names => list_to_set names ∪ refs | Err _ => refs end.

Lemma elem_leaf_names_step n s R : n ∈ leaf_names_step s R ↔ refPattern s = Some n ∨ n ∈ R.
Proof.
  rewrite <-leaf_names. unfold leaf_names_step. destruct (Validate (VStr s)) as [names|e].
  - rewrite elem_of_union, elem_of_list_to_set. naive_solver.
  - naive_solver.
Qed.

Lemma elem_walk_names cfg R n :
  n ∈ walkStrings (λ _ s refs, leaf_names_step s refs) (VObj cfg) EmptyString R ↔
  n ∈ R ∨ ∃ steps s, at_loc (VObj cfg) steps (VStr s) ∧ refPattern s = Some n.
Proof.
  rewrite walkStrings_fold.
  rewrite (elem_foldl _ (λ ps, refPattern ps.2 = Some n))
    by (intros; rewrite elem_leaf_names_step; naive_solver).
  f_equiv. split.
  - intros ([p s] & (steps & A & _)%elem_strings & Hs). eauto.
  - intros (steps & s & A & Hs). exists (dotted EmptyString steps, s). rewrite elem_strings. eauto.
Qed.

(** [ReferencedSecrets] lists, sorted and without repetition, exactly the
    names of the whole-scalar references in the decodable configs of the
    pipeline's components. *)
Theorem ReferencedSecrets_correct `{Q : !Quantities} (p : Pipeline) :
  StronglySorted String.le (ReferencedSecrets (Some p)) ∧ NoDup (ReferencedSecrets (Some p)) ∧
  ∀ n, n ∈ ReferencedSecrets (Some p) ↔
    ∃ st c cfg steps s, st ∈ ps_Stages (p_Spec p) ∧ c ∈ st_Components st ∧
      ConfigMap c = Ok (Some cfg) ∧ at_loc (VObj cfg) steps (VStr s) ∧ refPattern s = Some n.
Proof.
  split; [apply sorted_names_sorted|]. split; [apply sorted_names_NoDup|]. intros n.
  unfold ReferencedSecrets. rewrite elem_of_sorted_names.
  change (λ (_ s : string) (refs : gset string), match Validate (VStr s) with
    Ok names => list_to_set names ∪ refs | Err _ => refs end)
    with (λ (_ s : string) (refs : gset string), leaf_names_step s refs).
  rewrite (elem_foldl _ (λ c, ∃ cfg steps s, ConfigMap c = Ok (Some cfg) ∧
      at_loc (VObj cfg) steps (VStr s) ∧ refPattern s = Some n)).
  - setoid_rewrite list_elem_of_In. setoid_rewrite in_flat_map. split.
    + intros [?%elem_of_empty|(c & (st & ? & ?) & cfg & steps & s & ? & ? & ?)]; [done|].
      exists st, c, cfg, steps, s. done.
    + intros (st & c & cfg & steps & s & ? & ? & ? & ? & ?). right.
      exists c. split; [by exists st|by exists cfg, steps, s].
  - intros R c. destruct (ConfigMap c) as [[cfg|]|].
    + rewrite elem_walk_names. split; [intros [?|(? & ? & ? & ?)]|]; [by left|eauto 8|].
      intros [?|(? & ? & ? & [= <-] & ? & ?)]; eauto.
    + split; [by left|by intros [?|(? & ? & ? & ? & _)]].
    + split; [by left|by intros [?|(? & ? & ? & ? & _)]].
Qed.
End ConfigLemmas.

(** ** What plain keys rule out *)

Module KeyCollisions.
Section Collisions.
Context `{UT : !UnicodeTables} `{J : !Json} `{JS : !JsonSchema}.

(** The schema {a: {b: secret}}. *)
Definition secret_doc : value :=
  VObj [("properties", VObj [("a", VObj [("properties", VObj [("b",
    VObj [("type", VStr "string"); (xDatupletSecret, VBool true)])])])])].
(** {a: {b: pw}} with a second top-level key that reads "a.b". *)
Definition colliding (pw : string) : gomap value :=
  [("a", VObj [("b", VStr pw)]); ("a.b", VStr "$[k]")].

(** With a key that reads "a.b" beside the object a, the plain-key condition
    of [ValidateConfig_accepts] fails and so does its conclusion: the dotted
    path of the reference under that key is the path of the secret field b of
    a, and a plaintext value in that field is not reported. *)
Theorem secret_required_bypass (schema : js_schema) (raw prefix pw : string)
    (Hpw : isWholeScalarRef pw = false)
    (Hraw : json_any raw = Some secret_doc)
    (Hlib : js_validate schema (sanitizeRefs (VObj (colliding pw))) = None) :
  ValidateConfig schema raw (Some (colliding pw)) prefix = [] ∧
  (∃ steps, at_loc (VObj (colliding pw)) steps (VStr pw) ∧
    Forall2 seg_matches [seg_key "a"; seg_key "b"] steps ∧
    [seg_key "a"; seg_key "b"] ∈ collectSecretPaths secret_doc []).
Proof.
  split.
  - unfold ValidateConfig. simpl default. unfold libraryFindings. rewrite Hlib, app_nil_r, app_nil.
    assert (refPaths (colliding pw) = {["a.b"]}) as ->.
    { unfold refPaths. rewrite walkStrings_fold. cbn -[isWholeScalarRef]. rewrite Hpw.
      rewrite isWholeScalarRef_pattern. cbn. set_solver. }
    unfold nonStringFindings, secretFindings. rewrite Hraw, elements_singleton. split; [done|].
    simpl. by rewrite bool_decide_true by set_solver.
  - exists [SKey "a"; SKey "b"]. split_and!.
    + do 2 (econstructor; [constructor|]). constructor.
    + by repeat constructor; right.
    + simpl. constructor.
Qed.

(** An object key made of digits reads as an array index in a JSON pointer, so an
    error of the library anchored at the reference it holds is not dropped. *)
Definition numeric_key_cfg : gomap value := [("h", VObj [("0", VStr "$[k]")])].

Theorem numeric_key_not_dropped (schema : js_schema) (raw prefix msg : string)
    (Hlib : js_validate schema (sanitizeRefs (VObj numeric_key_cfg)) =
            Some (ValidationError (MkOutputUnit "/h/0" (Some msg) []))) :
  at_loc (VObj numeric_key_cfg) [SKey "h"; SKey "0"] (VStr "$[k]") ∧
  error_finding (withPrefix prefix "h[0]") msg ∈ ValidateConfig schema raw (Some numeric_key_cfg) prefix.
Proof.
  split; [do 2 (econstructor; [constructor|]); constructor|].
  unfold ValidateConfig. simpl default. unfold libraryFindings. rewrite Hlib, !elem_of_app. right. right.
  assert (refPaths numeric_key_cfg = {["h.0"]}) as ->.
  { unfold refPaths. rewrite walkStrings_fold. cbn -[isWholeScalarRef].
    rewrite isWholeScalarRef_pattern. cbn. set_solver. }
  cbn -[bool_decide]. rewrite bool_decide_false by set_solver. simpl. constructor.
Qed.
End Collisions.
End KeyCollisions.

Module ConfigExamples.
#[local] Instance ascii_tables : UnicodeTables :=
  {| is_print_above_latin1 _ := false; to_upper_above_latin1 r := r |}.
#[local] Instance no_json : Json :=
  {| json_object _ := Ok None; json_any _ := Some KeyCollisions.secret_doc; json_marshal _ := EmptyString |}.
(** A library that rejects the sentinel at "/a/b". *)
#[local] Instance one_schema : JsonSchema :=
  {| js_doc := unit; js_compiler := unit; js_schema := unit;
     js_unmarshal _ := Ok tt; js_add_resource _ _ := Ok tt; js_compile _ _ := Ok tt;
     js_validate _ _ := Some (ValidationError (MkOutputUnit EmptyString None
                          [MkOutputUnit "/a/b" (Some "minLength") []])) |}.
Definition cfg : gomap value := [("a", VObj [("b", VStr "$[pw]")]); ("n", VArr [VNum "1"; VStr "y"])].

Example segments_example : pathSegments "a.b[0].c" = [seg_key "a"; seg_key "b"; seg_index; seg_key "c"].
Proof. vm_compute. reflexivity. Qed.
Example pointer_example : pointerToDotted "/a/b~1c/0/d" = "a.b/c[0].d".
Proof. vm_compute. reflexivity. Qed.
Example plaintext_example :
  map f_Message (ValidateConfig tt EmptyString (Some [("a", VObj [("b", VStr "plain")])]) "p") =
  [msgSecretRequired; "minLength"].
Proof. vm_compute. reflexivity. Qed.

Definition accepting : JsonSchema :=
  {| js_doc := unit; js_compiler := unit; js_schema := unit;
     js_unmarshal _ := Ok tt; js_add_resource _ _ := Ok tt; js_compile _ _ := Ok tt;
     js_validate _ _ := None |}.

Lemma secret_required_bypass_witness :
  ValidateConfig (JS := accepting) tt EmptyString (Some (KeyCollisions.colliding "hunter2")) "p" = [].
Proof.
  apply (KeyCollisions.secret_required_bypass (JS := accepting) tt EmptyString "p" "hunter2");
    [vm_compute; reflexivity|reflexivity|reflexivity].
Defined.

Lemma ValidateConfig_accepts_witness :
  plain_tree (VObj cfg) = true ∧ ValidateConfig tt EmptyString (Some cfg) "p" = [] ∧
  typeAdmitsString [("type", VStr "string"); (xDatupletSecret, VBool true)] = true.
Proof.
  assert (plain_tree (VObj cfg) = true) as Hp by (vm_compute; reflexivity).
  assert (ValidateConfig tt EmptyString (Some cfg) "p" = []) as Hv by (vm_compute; reflexivity).
  split; [exact Hp|]. split; [exact Hv|].
  apply (ValidateConfig_accepts (JS := one_schema) tt EmptyString "p" cfg Hp) in Hv as [Hv _].
  eapply (Hv [SKey "a"; SKey "b"] "$[pw]").
  - econstructor; [constructor|]. econstructor; [constructor|]. constructor.
  - vm_compute. reflexivity.
  - reflexivity.
  - reflexivity.
Defined.
End ConfigExamples.
