(* ===== verification/Validate.v ===== *)
(** * Validate: pipeline validation (pkg/pipeline/validate/validate.go)

    Every validator of validate.go, composed as [ValidateTyped] composes them.
    [ValidateTyped_accepts] says exactly which pipelines have no error finding,
    as a well-formedness predicate on the pipeline.  Parameters: the transform
    parser of iceberg-go, the registry, the JSON Schema and JSON libraries. *)

From S2P Require Import Prelude GoValue Secrets ApiTypes GoTime Policy Registry ConfigSchema.

(** ** iceberg-go's transforms *)

(** The dynamic types the code tells apart. *)
Inductive transform_type : Type :=
| YearTransform | MonthTransform | DayTransform | HourTransform
| UnknownTransform | OtherTransform.

Class Transforms : Type := {
  Transform : Type;
  ParseTransform : string → option Transform;
  tr_String : Transform → string;
  tr_type : Transform → transform_type;
}.

(** ** Names and modes *)

Definition lower_alnum (c : ascii) : bool := is_lower_byte c || is_digit_byte c.
Definition bucket_byte (c : ascii) : bool := lower_alnum c || Ascii.eqb c "-"%char.
(** [^[a-z0-9][a-z0-9-]{1,61}[a-z0-9]$]. *)
Definition bucketNameRegex (s : string) : bool :=
  match s with
  | String c r =>
    match cut_last r with
    | Some (mid, l) =>
      lower_alnum c && forall_byte bucket_byte mid && (1 <=? slen mid)%nat && (slen mid <=? 61)%nat &&
      lower_alnum l
    | None => false
    end
  | EmptyString => false
  end.

Definition alpha_under (c : ascii) : bool :=
  is_upper_byte c || is_lower_byte c || Ascii.eqb c "_"%char.
(** [^[a-zA-Z_][a-zA-Z0-9_]*$]. *)
Definition tableNameRegex (s : string) : bool :=
  match s with
  | String c r => alpha_under c && forall_byte (λ c, alpha_under c || is_digit_byte c) r
  | EmptyString => false
  end.

Definition validColumnTypes : gset string :=
  {["int"; "long"; "float"; "double"; "boolean"; "string"; "variant"]}.
Definition supportedPartitionTransforms : string :=
  "identity, year, month, day, hour, void, bucket[N], truncate[W]".

Section Validate.
Context `{UT : !UnicodeTables} `{Q : !Quantities} `{J : !Json} `{JS : !JsonSchema} `{TR : !Transforms}.

Definition parsePartitionTransform (s : string) : option Transform :=
  match ParseTransform s with
  | None => None
  | Some tr =>
    match tr_type tr with
    | UnknownTransform => None
    | _ => if bool_decide (tr_String tr ≠ s) then None else Some tr
    end
  end.

Definition isTimeTransform (tr : Transform) : bool :=
  match tr_type tr with
  | YearTransform | MonthTransform | DayTransform | HourTransform => true
  | _ => false
  end.

(** The empty string is no error. *)
Definition bucketNameError (name : string) : string :=
  if str_empty name then "bucket name is required"
  else if contains "." name then "bucket name " +:+ quote name +:+ " cannot contain dots"
  else if negb (bucketNameRegex name) then
    "bucket name " +:+ quote name +:+
    " is invalid: must be lowercase alphanumeric with hyphens, 3-63 chars"
  else EmptyString.

Definition tableNameError (name : string) : string :=
  if str_empty name then "table name is required"
  else if negb (tableNameRegex name) then
    "table name " +:+ quote name +:+
    " is invalid: must be alphanumeric with underscores, start with letter or underscore"
  else EmptyString.

Definition writeModeError (mode : string) : string :=
  let up := to_upper mode in
  if bool_decide (up = "APPEND") || bool_decide (up = "FULL_LOAD") || str_empty up then EmptyString
  else "invalid writeMode " +:+ quote mode +:+ ", must be APPEND or FULL_LOAD".

(** A finding for a non-empty message. *)
Definition report_msg (path prefix msg : string) : list Finding :=
  report (negb (str_empty msg)) (error_finding path (prefix +:+ msg)).

Definition index (base field : string) (i : nat) : string :=
  base +:+ field +:+ "[" +:+ itoa_nat i +:+ "]".
Definition component_path (stageIdx compIdx : nat) : string :=
  index (index "stages" EmptyString stageIdx) ".components" compIdx.

(** ** Outputs *)

Definition registerOutputs (out : OutputSpec) (st : gset string * gset string)
    : gset string * gset string :=
  let (tables, buckets) := st in
  if negb (str_empty (o_DefaultBucket out)) then (tables, {[o_DefaultBucket out]} ∪ buckets)
  else
    let buckets := foldl (λ bs b, {[ob_Name b]} ∪ bs) buckets (o_Buckets out) in
    foldl (λ st t, ({[ot_Bucket t +:+ "." +:+ ot_Name t]} ∪ st.1, {[ot_Bucket t]} ∪ st.2))
      (tables, buckets) (o_Tables out).

Definition validateProcessors (compName : string) (processors : list ProcessorSpec) (base : string)
    : list Finding :=
  concat (imap (λ i proc,
    let procPath := index base ".processors" i in
    let who := "component " +:+ compName +:+ ", processor " +:+ itoa_nat i +:+ ": " in
    if bool_decide (proc_Type proc ≠ "drop") then
      [error_finding (procPath +:+ ".type")
         (who +:+ "invalid type " +:+ quote (proc_Type proc) +:+ " (supported: drop)")]
    else report (is_empty (proc_Columns proc))
           (error_finding (procPath +:+ ".columns") (who +:+ "drop requires columns"))) processors).

(** The state of [validatePartitionSpec]'s loop: the keys seen, and the time
    transform of each source column. *)
Definition partition_state : Type := gset string * gmap string string.
(** Source column and transform, joined by a NUL byte. *)
Definition partition_key (src tr : string) : string := src +:+ String "000"%char tr.

Definition partition_field (compName tableName tablePath : string) (i : nat)
    (field : PartitionFieldSpec) (st : partition_state) : list Finding * partition_state :=
  let '(seen, timeSource) := st in
  let fieldPath := index tablePath ".partitionFields" i in
  let who := "component " +:+ compName +:+ ", output table " +:+ tableName +:+ ", partitionSpec" in
  let whoi := index who EmptyString i in
  let f1 := report (str_empty (pf_SourceColumn field))
    (error_finding (fieldPath +:+ ".sourceColumn") (whoi +:+ ": source_column is required")) in
  let f2 := report (str_empty (pf_Transform field))
    (error_finding (fieldPath +:+ ".transform") (whoi +:+ ": transform is required")) in
  let tr := parsePartitionTransform (pf_Transform field) in
  let ok := match tr with Some _ => true | None => false end in
  let f3 := report (negb (str_empty (pf_Transform field)) && negb ok)
    (error_finding (fieldPath +:+ ".transform")
       (whoi +:+ ": invalid transform " +:+ quote (pf_Transform field) +:+ " (supported: " +:+
        supportedPartitionTransforms +:+ "; N and W integers 1-2147483647)")) in
  match tr with
  | Some tr =>
    if str_empty (pf_SourceColumn field) then (f1 ++ f2 ++ f3, (seen, timeSource))
    else
      let src := pf_SourceColumn field in
      let key := partition_key src (tr_String tr) in
      let f4 := report (bool_decide (key ∈ seen))
        (error_finding fieldPath
           (who +:+ ": duplicate partition field " +:+ tr_String tr +:+ "(" +:+ src +:+ ")")) in
      let seen := {[key]} ∪ seen in
      if isTimeTransform tr then
        let f5 := match timeSource !! src with
          | Some prev => report (bool_decide (prev ≠ tr_String tr))
              (error_finding (fieldPath +:+ ".transform")
                 (who +:+ ": " +:+ prev +:+ "(" +:+ src +:+ ") and " +:+ tr_String tr +:+
                  "(" +:+ src +:+ ") are redundant; use one time transform per column"))
          | None => []
          end in
        (f1 ++ f2 ++ f3 ++ f4 ++ f5, (seen, <[src := tr_String tr]> timeSource))
      else (f1 ++ f2 ++ f3 ++ f4, (seen, timeSource))
  | None => (f1 ++ f2 ++ f3, (seen, timeSource))
  end.

Fixpoint partition_loop (compName tableName tablePath : string) (i : nat)
    (spec : list PartitionFieldSpec) (st : partition_state) : list Finding :=
  match spec with
  | [] => []
  | field :: spec =>
    let (fs, st) := partition_field compName tableName tablePath i field st in
    fs ++ partition_loop compName tableName tablePath (S i) spec st
  end.
Definition validatePartitionSpec (compName tableName : string) (spec : list PartitionFieldSpec)
    (tablePath : string) : list Finding :=
  partition_loop compName tableName tablePath 0 spec (∅, ∅).

Fixpoint column_loop (compName tableName tablePath : string) (i : nat) (cols : list ColumnSpec)
    (seen : gset string) : list Finding :=
  match cols with
  | [] => []
  | col :: cols =>
    let colPath := index tablePath ".columns" i in
    let who := "component " +:+ compName +:+ ", output table " +:+ tableName +:+ ", columns" in
    let (f1, seen) :=
      if str_empty (col_Name col) then
        ([error_finding (colPath +:+ ".name") (index who EmptyString i +:+ ": name is required")], seen)
      else if bool_decide (col_Name col ∈ seen) then
        ([error_finding (colPath +:+ ".name")
            (who +:+ ": duplicate column name " +:+ quote (col_Name col))], seen)
      else ([], {[col_Name col]} ∪ seen) in
    let f2 := report (bool_decide (col_Type col ∉ validColumnTypes))
      (error_finding (colPath +:+ ".type")
         (index who EmptyString i +:+ ": invalid type " +:+ quote (col_Type col) +:+
          " (supported: int, long, float, double, boolean, string, variant)")) in
    f1 ++ f2 ++ column_loop compName tableName tablePath (S i) cols seen
  end.
Definition validateColumnSpec (compName tableName : string) (cols : list ColumnSpec)
    (tablePath : string) : list Finding :=
  column_loop compName tableName tablePath 0 cols ∅.

Definition output_bucket_findings (compName base : string) (i : nat) (b : OutputBucketSpec)
    : list Finding :=
  report_msg (index base ".buckets" i +:+ ".name")
    ("component " +:+ compName +:+ ", output bucket " +:+ itoa_nat i +:+ ": ")
    (bucketNameError (ob_Name b)) ++
  report_msg (index base ".buckets" i +:+ ".writeMode")
    ("component " +:+ compName +:+ ", output bucket " +:+ ob_Name b +:+ ": ")
    (writeModeError (ob_WriteMode b)).

Definition output_table_findings (compName base : string) (i : nat) (t : OutputTableSpec)
    : list Finding :=
  let tablePath := index base ".tables" i in
  (if str_empty (ot_Name t) then
     [error_finding (tablePath +:+ ".name")
        ("component " +:+ compName +:+ ", output table " +:+ itoa_nat i +:+ ": name is required")]
   else report_msg (tablePath +:+ ".name")
          ("component " +:+ compName +:+ ", output table " +:+ itoa_nat i +:+ ": ")
          (tableNameError (ot_Name t))) ++
  report_msg (tablePath +:+ ".bucket")
    ("component " +:+ compName +:+ ", output table " +:+ ot_Name t +:+ " bucket: ")
    (bucketNameError (ot_Bucket t)) ++
  report_msg (tablePath +:+ ".writeMode")
    ("component " +:+ compName +:+ ", output table " +:+ ot_Name t +:+ ": ")
    (writeModeError (ot_WriteMode t)) ++
  validatePartitionSpec compName (ot_Name t) (ot_PartitionFields t) tablePath ++
  validateColumnSpec compName (ot_Name t) (ot_Columns t) tablePath.

Definition validateOutputs (compName : string) (out : OutputSpec) (stageIdx compIdx : nat)
    : list Finding :=
  let base := component_path stageIdx compIdx +:+ ".outputs" in
  let hasDefaultBucket := negb (str_empty (o_DefaultBucket out)) in
  let hasBuckets := negb (is_empty (o_Buckets out)) in
  let hasTables := negb (is_empty (o_Tables out)) in
  report (hasDefaultBucket && (hasBuckets || hasTables))
    (error_finding base ("component " +:+ compName +:+
       ": defaultBucket is exclusive, cannot be combined with buckets or tables")) ++
  (if hasDefaultBucket then
     report_msg (base +:+ ".defaultBucket") ("component " +:+ compName +:+ ", defaultBucket: ")
       (bucketNameError (o_DefaultBucket out)) ++
     report_msg (base +:+ ".defaultWriteMode") ("component " +:+ compName +:+ ", defaultWriteMode: ")
       (writeModeError (o_DefaultWriteMode out))
   else []) ++
  concat (imap (output_bucket_findings compName base) (o_Buckets out)) ++
  concat (imap (output_table_findings compName base) (o_Tables out)) ++
  validateProcessors compName (o_Processors out) base.

(** ** Inputs *)

Definition count (b : bool) : nat := if b then 1 else 0.

Definition input_bucket_findings (compName base : string) (stageIdx : nat)
    (availableBuckets : gset string) (k : nat) (bucket : string) : list Finding :=
  report_msg (index base ".buckets" k) ("component " +:+ compName +:+ ", input bucket: ")
    (bucketNameError bucket) ++
  report ((0 <? stageIdx)%nat && negb (bool_decide (bucket ∈ availableBuckets)))
    (error_finding (index base ".buckets" k)
       ("component " +:+ compName +:+ ": input bucket " +:+ quote bucket +:+
        " not available from previous stages")).

Definition input_table_findings (compName base : string) (stageIdx : nat)
    (availableTables availableBuckets : gset string) (k : nat) (t : InputTableSpec) : list Finding :=
  let tablePath := index base ".tables" k in
  let who := "component " +:+ compName +:+ ", input table " +:+ it_Bucket t +:+ "." +:+ it_Table t in
  report_msg (tablePath +:+ ".bucket") ("component " +:+ compName +:+ ", input table bucket: ")
    (bucketNameError (it_Bucket t)) ++
  report_msg (tablePath +:+ ".table") ("component " +:+ compName +:+ ", input table: ")
    (tableNameError (it_Table t)) ++
  (let sinceCount := count (negb (str_empty (it_Since t))) +
     count (match it_SinceSnapshot t with Some _ => true | None => false end) +
     count (match it_SinceDays t with Some _ => true | None => false end) in
   report (1 <? sinceCount)%nat
     (error_finding tablePath
        (who +:+ ": since, sinceSnapshot and sinceDays are mutually exclusive"))) ++
  (if str_empty (it_Since t) then []
   else match parseSinceDuration (it_Since t) with
        | Ok _ => []
        | Err e => [error_finding (tablePath +:+ ".since") (who +:+ ": " +:+ e)]
        end) ++
  (match it_SinceDays t with
   | Some days => report (days <=? 0)%Z
       (error_finding (tablePath +:+ ".sinceDays")
          (who +:+ ": sinceDays must be positive (got " +:+ itoa days +:+ ")"))
   | None => []
   end) ++
  (let tableKey := it_Bucket t +:+ "." +:+ it_Table t in
   report ((0 <? stageIdx)%nat && negb (bool_decide (tableKey ∈ availableTables)) &&
           negb (bool_decide (it_Bucket t ∈ availableBuckets)))
     (warning_finding tablePath
        ("component " +:+ compName +:+ ": input table " +:+ quote tableKey +:+
         " not produced by an earlier stage — assumed to pre-exist in storage;" +:+
         " the run fails at read time if it doesn't"))).

Definition validateInputs (compName : string) (inp : InputSpec) (stageIdx compIdx : nat)
    (availableTables availableBuckets : gset string) : list Finding :=
  let base := component_path stageIdx compIdx +:+ ".inputs" in
  concat (imap (input_bucket_findings compName base stageIdx availableBuckets) (in_Buckets inp)) ++
  concat (imap (input_table_findings compName base stageIdx availableTables availableBuckets)
            (in_Tables inp)).

(** ** Components *)

Definition componentHasInputs (c : ComponentSpec) : bool :=
  match c_Inputs c with
  | Some i => negb (is_empty (in_Buckets i)) || negb (is_empty (in_Tables i))
  | None => false
  end.
Definition componentHasOutputs (c : ComponentSpec) : bool :=
  match c_Outputs c with
  | Some o => negb (str_empty (o_DefaultBucket o)) || negb (is_empty (o_Buckets o)) ||
              negb (is_empty (o_Tables o))
  | None => false
  end.

Definition validateComponent (c : ComponentSpec) (stageIdx compIdx : nat)
    (availableTables availableBuckets : gset string) : list Finding :=
  let base := component_path stageIdx compIdx in
  report (str_empty (c_Name c))
    (error_finding (base +:+ ".name")
       ("stage " +:+ itoa_nat stageIdx +:+ ", component " +:+ itoa_nat compIdx +:+ ": name is required")) ++
  report (str_empty (c_Component c))
    (error_finding (base +:+ ".component") ("component " +:+ c_Name c +:+ ": component is required")) ++
  (match c_Inputs c with
   | Some i => validateInputs (c_Name c) i stageIdx compIdx availableTables availableBuckets
   | None => []
   end) ++
  (match c_Outputs c with
   | Some o => validateOutputs (c_Name c) o stageIdx compIdx
   | None => []
   end) ++
  report (negb (componentHasInputs c) && negb (componentHasOutputs c))
    (error_finding base
       ("component " +:+ c_Name c +:+ ": must have at least inputs or outputs defined")).

Definition validateSecretRefs (c : ComponentSpec) (stageIdx compIdx : nat) : list Finding :=
  let base := component_path stageIdx compIdx +:+ ".config" in
  match ConfigMap c with
  | Err e => [error_finding base e]
  | Ok None => []
  | Ok (Some cfg) =>
    walkStrings (λ path s findings,
        match Validate (VStr s) with
        | Ok _ => findings
        | Err e => findings ++ [error_finding path e]
        end) (VObj cfg) base []
  end.

(** One direction of [checkIOCapability]. *)
Definition check_io (mode : string) (has : bool) (path takes_none requires : string) : list Finding :=
  if bool_decide (mode = "none") then report has (error_finding path takes_none)
  else if bool_decide (mode = "required") then report (negb has) (error_finding path requires)
  else [].

Definition checkIOCapability (c : ComponentSpec) (io : option ComponentIO) (base : string) : list Finding :=
  check_io (InputsMode io) (componentHasInputs c) (base +:+ ".inputs")
    ("component " +:+ c_Name c +:+ " takes no inputs")
    ("component " +:+ c_Name c +:+ " requires at least one input") ++
  check_io (OutputsMode io) (componentHasOutputs c) (base +:+ ".outputs")
    ("component " +:+ c_Name c +:+ " takes no outputs")
    ("component " +:+ c_Name c +:+ " requires at least one output").

(** The components with their stage and component index, in order. *)
Definition positions (p : Pipeline) : list (nat * nat * ComponentSpec) :=
  concat (imap (λ i stage, imap (λ j c, (i, j, c)) (st_Components stage)) (ps_Stages (p_Spec p))).

Fixpoint unique_names (ps : list (nat * nat * ComponentSpec)) (seen : gset string) : list Finding :=
  match ps with
  | [] => []
  | (i, j, c) :: ps =>
    if str_empty (c_Name c) then unique_names ps seen
    else if bool_decide (c_Name c ∈ seen) then
      error_finding (component_path i j +:+ ".name")
        ("component name " +:+ quote (c_Name c) +:+
         " is not unique — component instance names must be unique across the whole pipeline")
      :: unique_names ps seen
    else unique_names ps ({[c_Name c]} ∪ seen)
  end.
Definition checkUniqueComponentNames (p : Pipeline) : list Finding := unique_names (positions p) ∅.

Section WithRegistry.
Context {R : Type} `{RV : !RegistryView R}.

Definition validateRegistry (c : ComponentSpec) (stageIdx compIdx : nat) (reg : option R)
    : list Finding :=
  match reg with
  | None => []
  | Some reg =>
    let base := component_path stageIdx compIdx in
    let (rc, resolveFindings) := Resolve reg (c_Component c) (c_Version c) in
    let findings := map (λ f, MkFinding (joinKey base (f_Path f)) (f_Message f) (f_Severity f))
                      resolveFindings in
    match rc with
    | None => findings
    | Some rc =>
      findings ++ checkIOCapability c (rc_IO rc) base ++
      checkResourcesAgainstMax (c_Resources c) (cr_Max (rc_Resources rc)) base (c_Component c) ++
      match rc_ConfigSchema rc with
      | None => []
      | Some schema =>
        match ConfigMap c with
        | Err _ => []
        | Ok cfg => ValidateConfig schema (rc_rawConfigSchema rc) cfg (base +:+ ".config")
        end
      end
    end
  end.

(** The components of one stage, in order; the outputs of each are registered
    before the next is checked. *)
Fixpoint validate_components (stageIdx compIdx : nat) (cs : list ComponentSpec) (reg : option R)
    (avail : gset string * gset string) : list Finding * (gset string * gset string) :=
  match cs with
  | [] => ([], avail)
  | c :: cs =>
    let f1 := validateComponent c stageIdx compIdx avail.1 avail.2 in
    let f2 := validateRegistry c stageIdx compIdx reg in
    let avail := match c_Outputs c with Some o => registerOutputs o avail | None => avail end in
    let (fs, avail) := validate_components stageIdx (S compIdx) cs reg avail in
    (f1 ++ f2 ++ fs, avail)
  end.

Fixpoint validate_stages (i : nat) (stages : list StageSpec) (reg : option R)
    (avail : gset string * gset string) : list Finding :=
  match stages with
  | [] => []
  | stage :: stages =>
    let f1 := report (str_empty (st_Name stage))
      (error_finding (index "stages" EmptyString i +:+ ".name")
         ("stage " +:+ itoa_nat i +:+ ": name is required")) in
    let f2 := report (is_empty (st_Components stage))
      (error_finding (index "stages" EmptyString i +:+ ".components")
         ("stage " +:+ st_Name stage +:+ ": must have at least one component")) in
    let (fs, avail) := validate_components i 0 (st_Components stage) reg avail in
    f1 ++ f2 ++ fs ++ validate_stages (S i) stages reg avail
  end.

Definition ValidateTyped (p : option Pipeline) (reg : option R) (pol : option PolicySpec)
    : list Finding :=
  match p with
  | None => [error_finding EmptyString "pipeline is nil"]
  | Some p =>
    let stages := ps_Stages (p_Spec p) in
    report (str_empty (p_Name p))
      (error_finding "metadata.name" "pipeline metadata.name is required") ++
    report (is_empty stages)
      (error_finding "spec.stages" "pipeline must have at least one stage") ++
    validate_stages 0 stages reg (∅, ∅) ++
    checkUniqueComponentNames p ++
    concat (imap (λ i stage,
      concat (imap (λ j c, validateSecretRefs c i j) (st_Components stage))) stages) ++
    checkGatewayBounds p pol
  end.

(** [yaml.UnmarshalStrict] is [decode]. *)
Definition ValidatePipeline (decode : string → result string Pipeline) (data : string)
    (reg : option R) (pol : option PolicySpec) : option Pipeline * list Finding :=
  match decode data with
  | Err e => (None, [error_finding EmptyString e])
  | Ok p => (Some p, ValidateTyped (Some p) reg pol)
  end.
End WithRegistry.
End Validate.
