(* ===== verification/ValidateSpec.v ===== *)
(** * ValidateSpec: what [ValidateTyped] accepts

    The well-formedness predicate a pipeline must satisfy, validator by
    validator, and the proof that validate.go enforces exactly it:
    [ValidateTyped_accepts]. *)

From S2P Require Import Prelude GoValue Secrets ApiTypes GoTime Policy Registry ConfigSchema Validate.

(** ** Lemmas: error findings *)

Lemma errors_app a b : errors (a ++ b) = errors a ++ errors b.
Proof. apply filter_app. Qed.

Lemma errors_nil_app a b : errors (a ++ b) = [] ↔ errors a = [] ∧ errors b = [].
Proof. rewrite errors_app. apply app_nil. Qed.

Lemma errors_report b path msg : errors (report b (error_finding path msg)) = [] ↔ b = false.
Proof. by destruct b. Qed.

Lemma errors_one path msg : errors [error_finding path msg] = [] ↔ False.
Proof. done. Qed.

Lemma errors_warning b path msg : errors (report b (warning_finding path msg)) = [].
Proof. by destruct b. Qed.

Lemma errors_report_msg path prefix msg :
  errors (report_msg path prefix msg) = [] ↔ msg = EmptyString.
Proof. unfold report_msg. rewrite errors_report. by destruct msg. Qed.

Lemma errors_concat_imap {A} (f : nat → A → list Finding) l :
  errors (concat (imap f l)) = [] ↔ ∀ i x, l !! i = Some x → errors (f i x) = [].
Proof.
  revert f. induction l as [|x l IH]; intros f; [done|]. simpl. rewrite errors_nil_app, IH. split.
  - intros [Hx Hl] [|i] y Hy; simplify_eq/=; [done|]. by apply (Hl i).
  - intros H. split; [by apply (H 0)|]. intros i y Hy. by apply (H (S i)).
Qed.

Lemma imap_forall {A} (P : A → Prop) (Q : nat → A → Prop) l :
  (∀ i x, Q i x ↔ P x) → (∀ i x, l !! i = Some x → Q i x) ↔ Forall P l.
Proof. intros HQ. rewrite Forall_lookup. by setoid_rewrite HQ. Qed.

(** Findings that are all errors. *)
Definition all_errors (fs : list Finding) : Prop := errors fs = fs.
Lemma all_errors_flat_map {A} (f : A → list Finding) l :
  (∀ x, all_errors (f x)) → all_errors (flat_map f l).
Proof.
  intros H. unfold all_errors in *. induction l as [|x l IH]; [done|]. simpl.
  by rewrite errors_app, H, IH.
Qed.
Lemma all_errors_app a b : all_errors a → all_errors b → all_errors (a ++ b).
Proof. unfold all_errors. intros Ha Hb. by rewrite errors_app, Ha, Hb. Qed.
Lemma all_errors_report b path msg : all_errors (report b (error_finding path msg)).
Proof. by destruct b. Qed.
Lemma all_errors_one path msg : all_errors [error_finding path msg].
Proof. done. Qed.
#[export] Hint Resolve all_errors_flat_map all_errors_app all_errors_report all_errors_one : datuplet.

(** ** Names *)

Lemma contains_byte c s : contains (String c EmptyString) s = negb (forall_byte (λ d, negb (Ascii.eqb c d)) s).
Proof.
  induction s as [|d s IH]; [done|]. simpl. rewrite IH. unfold has_prefix. simpl.
  destruct (Ascii.eqb c d); [by destruct s|done].
Qed.

(** A bucket name: 3 to 63 lowercase letters, digits and hyphens, with a letter
    or digit at both ends. *)
Definition bucket_name (s : string) : Prop :=
  ∃ c mid l, s = String c (mid +:+ String l EmptyString) ∧ (1 ≤ slen mid ≤ 61) ∧
    lower_alnum c = true ∧ lower_alnum l = true ∧ forall_byte bucket_byte mid = true.

Lemma bucketNameRegex_spec s : bucketNameRegex s = true ↔ bucket_name s.
Proof.
  unfold bucketNameRegex, bucket_name. destruct s as [|c r].
  { split; [done|by intros (? & ? & ? & ? & _)]. }
  destruct (cut_last r) as [[mid l]|] eqn:E.
  - apply cut_last_Some in E as ->. rewrite !andb_true_iff, !Nat.leb_le. split.
    + intros [[[[? ?] ?] ?] ?]. exists c, mid, l. split_and!; done.
    + intros (c' & mid' & l' & [= <- E] & [? ?] & ? & ? & ?).
      assert (Some (mid, l) = Some (mid', l')) as [= <- <-]; [|done].
      rewrite <-(proj2 (cut_last_Some _ mid l) eq_refl), E. by apply cut_last_Some.
  - split; [done|]. intros (c' & mid' & l' & [= <- ->] & _).
    by rewrite (proj2 (cut_last_Some _ mid' l') eq_refl) in E.
Qed.

Lemma bucket_byte_not_dot c : bucket_byte c = true → negb (Ascii.eqb "."%char c) = true.
Proof. by destruct (Ascii.eqb_spec "."%char c) as [<-|]. Qed.

Lemma bucket_name_plain s : bucketNameRegex s = true → str_empty s = false ∧ contains "." s = false.
Proof.
  intros (c & mid & l & -> & _ & Hc & Hl & Hm)%bucketNameRegex_spec. split; [done|].
  rewrite contains_byte. apply negb_false_iff, (forall_byte_impl bucket_byte); [apply bucket_byte_not_dot|].
  simpl. unfold bucket_byte at 1. by rewrite Hc, forall_byte_app, Hm; simpl; unfold bucket_byte; rewrite Hl.
Qed.

Section ValidateSpec.
Context `{UT : !UnicodeTables} `{Q : !Quantities} `{J : !Json} `{JS : !JsonSchema} `{TR : !Transforms}.

Lemma bucketNameError_spec s : bucketNameError s = EmptyString ↔ bucket_name s.
Proof.
  rewrite <-bucketNameRegex_spec. unfold bucketNameError.
  destruct (bucketNameRegex s) eqn:E; [by destruct (bucket_name_plain s E) as [-> ->]|].
  by destruct (str_empty s), (contains "." s).
Qed.

Lemma tableNameError_spec s : tableNameError s = EmptyString ↔ tableNameRegex s = true.
Proof. unfold tableNameError. destruct s as [|c s]; [done|]. simpl str_empty. by destruct (tableNameRegex _). Qed.

Definition write_mode (mode : string) : Prop :=
  to_upper mode = EmptyString ∨ to_upper mode = "APPEND" ∨ to_upper mode = "FULL_LOAD".
Lemma writeModeError_spec mode : writeModeError mode = EmptyString ↔ write_mode mode.
Proof.
  unfold writeModeError, write_mode. repeat case_bool_decide; simpl; [naive_solver..|].
  destruct (to_upper mode); simpl; [naive_solver|]. split; [done|]. by intros [|[|]].
Qed.

(** ** Outputs *)

Definition time_field (f : PartitionFieldSpec) : bool :=
  match parsePartitionTransform (pf_Transform f) with Some tr => isTimeTransform tr | None => false end.
Definition field_key (f : PartitionFieldSpec) : string :=
  partition_key (pf_SourceColumn f) (pf_Transform f).
Definition field_ok (f : PartitionFieldSpec) : Prop :=
  pf_SourceColumn f ≠ EmptyString ∧ pf_Transform f ≠ EmptyString ∧
  is_Some (parsePartitionTransform (pf_Transform f)).

(** Known transforms in canonical spelling, no field twice, and at most one time
    transform per column. *)
Definition partition_ok (fs : list PartitionFieldSpec) : Prop :=
  Forall field_ok fs ∧ NoDup (map field_key fs) ∧
  NoDup (map pf_SourceColumn (filter (λ f, time_field f = true) fs)).

Definition columns_ok (cols : list ColumnSpec) : Prop :=
  Forall (λ c, col_Name c ≠ EmptyString ∧ col_Type c ∈ validColumnTypes) cols ∧
  NoDup (map col_Name cols).

Definition output_table_ok (t : OutputTableSpec) : Prop :=
  tableNameRegex (ot_Name t) = true ∧ bucket_name (ot_Bucket t) ∧ write_mode (ot_WriteMode t) ∧
  partition_ok (ot_PartitionFields t) ∧ columns_ok (ot_Columns t).

Definition outputs_ok (o : OutputSpec) : Prop :=
  (o_DefaultBucket o ≠ EmptyString →
    o_Buckets o = [] ∧ o_Tables o = [] ∧ bucket_name (o_DefaultBucket o) ∧
    write_mode (o_DefaultWriteMode o)) ∧
  Forall (λ b, bucket_name (ob_Name b) ∧ write_mode (ob_WriteMode b)) (o_Buckets o) ∧
  Forall output_table_ok (o_Tables o) ∧
  Forall (λ p, proc_Type p = "drop" ∧ proc_Columns p ≠ []) (o_Processors o).

Lemma parsePartitionTransform_canonical s tr :
  parsePartitionTransform s = Some tr → tr_String tr = s.
Proof.
  unfold parsePartitionTransform. destruct (ParseTransform s) as [tr'|]; [|done].
  destruct (tr_type tr'); try done; case_bool_decide as E; try done; intros [= <-];
    (done || by apply dec_stable).
Qed.

(** The state of the loop after the fields [pre], all of them accepted. *)
Definition partition_inv (pre : list PartitionFieldSpec) (st : partition_state) : Prop :=
  (∀ k, k ∈ st.1 ↔ k ∈ map field_key pre) ∧
  (∀ src, is_Some (st.2 !! src) ↔
    src ∈ map pf_SourceColumn (filter (λ f, time_field f = true) pre)) ∧
  (∀ src t, st.2 !! src = Some t → partition_key src t ∈ map field_key pre).

Lemma partition_field_ok comp tab path i f pre st : partition_inv pre st →
  (errors (partition_field comp tab path i f st).1 = []) ↔
  field_ok f ∧ field_key f ∉ map field_key pre ∧
  (time_field f = true →
    pf_SourceColumn f ∉ map pf_SourceColumn (filter (λ f, time_field f = true) pre)).
Proof.
  intros (Hseen & Htime & Hkeys). unfold partition_field, field_ok, time_field at 1, field_key at 1.
  destruct st as [seen ts]. simpl in *.
  destruct (parsePartitionTransform (pf_Transform f)) as [tr|] eqn:Ep.
  2: { cbn [fst]. rewrite !errors_nil_app, !errors_report. split; [|by intros ((_ & _ & [? ?]) & _)].
       destruct (pf_Transform f); naive_solver. }
  rewrite (parsePartitionTransform_canonical _ _ Ep), <-Hseen, <-Htime.
  destruct (str_empty (pf_SourceColumn f)) eqn:Es.
  { cbn [fst]. rewrite !errors_nil_app, !errors_report. apply str_empty_true in Es. naive_solver. }
  apply str_empty_false in Es. rewrite andb_false_r.
  destruct (isTimeTransform tr) eqn:Et; cbn [fst]; rewrite !errors_nil_app, !errors_report, bool_decide_eq_false.
  2: { rewrite str_empty_false. naive_solver. }
  rewrite str_empty_false.
  destruct (ts !! pf_SourceColumn f) as [prev|] eqn:Ets.
  - rewrite errors_report, bool_decide_eq_false. split; [|naive_solver].
    intros (_ & ? & _ & Hk & Hp). destruct Hk. apply Hseen.
    rewrite <-(dec_stable Hp). by eapply Hkeys.
  - split; [|naive_solver]. intros (_ & ? & _ & Hk & _). split_and!; [done..|eauto|done|].
    by intros _ [? ?].
Qed.

Lemma partition_inv_step comp tab path i f pre st :
  partition_inv pre st → field_ok f →
  partition_inv (f :: pre) (partition_field comp tab path i f st).2.
Proof.
  intros (Hseen & Htime & Hkeys) (Hsrc & _ & tr & Ep). unfold partition_field.
  destruct st as [seen ts]. simpl in *. rewrite Ep. apply str_empty_false in Hsrc. rewrite Hsrc.
  rewrite (parsePartitionTransform_canonical _ _ Ep).
  assert (time_field f = isTimeTransform tr) as Htf by (unfold time_field; by rewrite Ep).
  change (partition_key (pf_SourceColumn f) (pf_Transform f)) with (field_key f).
  unfold partition_inv. destruct (isTimeTransform tr); cbn [fst snd map];
    [rewrite filter_cons_True by done|rewrite filter_cons_False by (by rewrite Htf)]; cbn [map].
  - split_and!.
    + intros k. rewrite elem_of_cons. set_solver.
    + intros src. rewrite elem_of_cons, lookup_insert_is_Some', <-Htime. naive_solver.
    + intros src t. rewrite lookup_insert_Some, elem_of_cons. intros [[<- <-]|[_ ?%Hkeys]]; auto.
  - split_and!; [|done|].
    + intros k. rewrite elem_of_cons. set_solver.
    + intros src t ?%Hkeys. by constructor.
Qed.

Lemma partition_loop_ok comp tab path i fs pre st :
  partition_inv pre st → NoDup (map field_key pre) →
  NoDup (map pf_SourceColumn (filter (λ f, time_field f = true) pre)) →
  errors (partition_loop comp tab path i fs st) = [] ↔
  Forall field_ok fs ∧ NoDup (map field_key (fs ++ pre)) ∧
  NoDup (map pf_SourceColumn (filter (λ f, time_field f = true) (fs ++ pre))).
Proof.
  revert i pre st. induction fs as [|f fs IH]; intros i pre st Hinv Hk Ht; simpl.
  { split; [|done]. intros _. split_and!; [constructor|done|done]. }
  pose proof (partition_field_ok comp tab path i f pre st Hinv) as Hf.
  pose proof (partition_inv_step comp tab path i f pre st Hinv) as Hs.
  destruct (partition_field comp tab path i f st) as [f1 st']. simpl in Hf, Hs.
  rewrite errors_nil_app, Hf, Forall_cons.
  assert (f :: fs ++ pre ≡ₚ fs ++ f :: pre) as Hp by apply Permutation_middle.
  assert (NoDup (map field_key (f :: fs ++ pre)) ↔ NoDup (map field_key (fs ++ f :: pre))) as HK
    by (by rewrite Hp).
  assert (NoDup (map pf_SourceColumn (filter (λ f, time_field f = true) (f :: fs ++ pre))) ↔
    NoDup (map pf_SourceColumn (filter (λ f, time_field f = true) (fs ++ f :: pre)))) as HT
    by (by rewrite Hp).
  change (field_key f :: map field_key (fs ++ pre)) with (map field_key (f :: fs ++ pre)).
  rewrite HK, HT. split.
  - intros ((Hok & Hn & Hts) & Hloop). apply (IH (S i) (f :: pre)) in Hloop as (? & ? & ?);
      [by split_and!|by apply Hs| |].
    + by constructor.
    + rewrite filter_cons. case_decide; [|done]. constructor; auto.
  - intros ([Hok Hoks] & Hkeys & Hts).
    assert (field_key f ∉ map field_key pre ∧ NoDup (map field_key (f :: pre))) as [Hn1 Hn2].
    { rewrite map_app in Hkeys. apply NoDup_app in Hkeys as (_ & _ & Hd). split; [|done].
      by apply NoDup_cons in Hd as [? _]. }
    assert (NoDup (map pf_SourceColumn (filter (λ f, time_field f = true) (f :: pre)))) as Ht2.
    { rewrite filter_app, map_app in Hts. by apply NoDup_app in Hts as (_ & _ & Hd). }
    split; [split_and!; try done|by apply (IH (S i) (f :: pre)); auto].
    intros Htf. rewrite filter_cons_True in Ht2 by done. by apply NoDup_cons in Ht2 as [? _].
Qed.

Lemma validatePartitionSpec_ok comp tab fs path :
  errors (validatePartitionSpec comp tab fs path) = [] ↔ partition_ok fs.
Proof.
  unfold validatePartitionSpec. rewrite (partition_loop_ok _ _ _ _ _ []); [by rewrite app_nil_r| |constructor..].
  unfold partition_inv. cbn [fst snd map]. setoid_rewrite lookup_empty.
  split_and!; [set_solver|intros; split; [by intros [? ?]|by intros ?%elem_of_nil]|done].
Qed.

Lemma column_loop_ok comp tab path i cols seen :
  errors (column_loop comp tab path i cols seen) = [] ↔
  Forall (λ c, col_Name c ≠ EmptyString ∧ col_Type c ∈ validColumnTypes) cols ∧
  NoDup (map col_Name cols) ∧ ∀ c, c ∈ cols → col_Name c ∉ seen.
Proof.
  revert i seen. induction cols as [|c cols IH]; intros i seen; simpl.
  { split; [|done]. intros _. split_and!; [constructor..|]. by intros ? ?%elem_of_nil. }
  rewrite Forall_cons, NoDup_cons. setoid_rewrite elem_of_cons.
  destruct (str_empty (col_Name c)) eqn:En.
  { apply str_empty_true in En. rewrite errors_nil_app, errors_one. naive_solver. }
  apply str_empty_false in En. case_bool_decide as Hs.
  { rewrite errors_nil_app, errors_one. naive_solver. }
  simpl. rewrite errors_nil_app, errors_report, bool_decide_eq_false, IH.
  assert (∀ x, col_Name x ∉ {[col_Name c]} ∪ seen ↔ col_Name x ≠ col_Name c ∧ col_Name x ∉ seen)
    as Hu by (intros; by rewrite not_elem_of_union, not_elem_of_singleton).
  setoid_rewrite Hu. split.
  - intros (Ht & Hall & Hnd & Hseen). apply dec_stable in Ht. split_and!; try done.
    + intros (c' & Hc' & Hin)%list_elem_of_fmap. by destruct (Hseen c' Hin).
    + intros c' [->|Hc']; [done|]. by apply Hseen.
  - intros ([[_ Ht] Hall] & [Hn Hnd] & Hseen). split_and!; [auto|done|done|].
    intros c' Hc'. split; [|by apply Hseen; right]. intros E. apply Hn, list_elem_of_fmap. eauto.
Qed.

Lemma validateColumnSpec_ok comp tab cols path :
  errors (validateColumnSpec comp tab cols path) = [] ↔ columns_ok cols.
Proof.
  unfold validateColumnSpec, columns_ok. rewrite column_loop_ok. split; [naive_solver|].
  intros [? ?]. split_and!; [done..|]. intros. apply not_elem_of_empty.
Qed.

Lemma is_empty_true {A} (l : list A) : is_empty l = true ↔ l = [].
Proof. by destruct l. Qed.
Lemma is_empty_false {A} (l : list A) : is_empty l = false ↔ l ≠ [].
Proof. by destruct l. Qed.

Lemma validateProcessors_ok comp ps base :
  errors (validateProcessors comp ps base) = [] ↔
  Forall (λ p, proc_Type p = "drop" ∧ proc_Columns p ≠ []) ps.
Proof.
  unfold validateProcessors. rewrite errors_concat_imap. apply imap_forall. intros i p.
  cbv zeta. case_bool_decide as E.
  - rewrite errors_one. naive_solver.
  - rewrite errors_report, is_empty_false. naive_solver.
Qed.

Lemma output_table_findings_ok comp base i t :
  errors (output_table_findings comp base i t) = [] ↔ output_table_ok t.
Proof.
  unfold output_table_findings, output_table_ok. cbv zeta.
  rewrite !errors_nil_app, !errors_report_msg, bucketNameError_spec, writeModeError_spec,
    validatePartitionSpec_ok, validateColumnSpec_ok. f_equiv.
  destruct (str_empty (ot_Name t)) eqn:E.
  - apply str_empty_true in E. by rewrite E.
  - by rewrite errors_report_msg, tableNameError_spec.
Qed.

Lemma validateOutputs_ok comp o i j :
  errors (validateOutputs comp o i j) = [] ↔ outputs_ok o.
Proof.
  unfold validateOutputs, outputs_ok. cbv zeta.
  rewrite !errors_nil_app, errors_report, validateProcessors_ok, !errors_concat_imap.
  rewrite (imap_forall output_table_ok _ (o_Tables o)) by (intros; apply output_table_findings_ok).
  rewrite (imap_forall (λ b, bucket_name (ob_Name b) ∧ write_mode (ob_WriteMode b)) _ (o_Buckets o)).
  2: { intros k b. unfold output_bucket_findings.
       by rewrite errors_nil_app, !errors_report_msg, bucketNameError_spec, writeModeError_spec. }
  rewrite <-(is_empty_true (o_Buckets o)), <-(is_empty_true (o_Tables o)).
  destruct (str_empty (o_DefaultBucket o)) eqn:E; simpl.
  - apply str_empty_true in E. rewrite E. naive_solver.
  - apply str_empty_false in E.
    rewrite errors_nil_app, !errors_report_msg, bucketNameError_spec, writeModeError_spec.
    rewrite orb_false_iff, !negb_false_iff. naive_solver.
Qed.

(** ** Inputs *)

(** The buckets and tables the outputs of a component make available. *)
Definition produces_bucket (o : OutputSpec) (b : string) : Prop :=
  if str_empty (o_DefaultBucket o)
  then b ∈ map ob_Name (o_Buckets o) ∨ b ∈ map ot_Bucket (o_Tables o)
  else b = o_DefaultBucket o.
Definition available_after (pre : list ComponentSpec) (b : string) : Prop :=
  ∃ c o, c ∈ pre ∧ c_Outputs c = Some o ∧ produces_bucket o b.

Definition input_table_ok (t : InputTableSpec) : Prop :=
  bucket_name (it_Bucket t) ∧ tableNameRegex (it_Table t) = true ∧
  count (negb (str_empty (it_Since t))) + count (bool_decide (is_Some (it_SinceSnapshot t))) +
    count (bool_decide (is_Some (it_SinceDays t))) ≤ 1 ∧
  (it_Since t ≠ EmptyString → is_ok (parseSinceDuration (it_Since t)) = true) ∧
  (∀ d, it_SinceDays t = Some d → (0 < d)%Z).

(** [pre]: the components before this one. *)
Definition inputs_ok (stageIdx : nat) (pre : list ComponentSpec) (i : InputSpec) : Prop :=
  Forall (λ b, bucket_name b ∧ (0 < stageIdx → available_after pre b)) (in_Buckets i) ∧
  Forall input_table_ok (in_Tables i).

Lemma elem_of_foldl_insert {A} (f : A → string) l X x :
  x ∈ foldl (λ (bs : gset string) a, {[f a]} ∪ bs) X l ↔ x ∈ X ∨ x ∈ map f l.
Proof.
  rewrite (elem_foldl _ (λ a, f a = x)) by (intros; set_solver).
  rewrite list_elem_of_fmap. naive_solver.
Qed.

Lemma registerOutputs_buckets o st b :
  b ∈ (registerOutputs o st).2 ↔ b ∈ st.2 ∨ produces_bucket o b.
Proof.
  unfold registerOutputs, produces_bucket. destruct st as [ts bs].
  destruct (str_empty (o_DefaultBucket o)); cbn [negb fst snd]; [|set_solver].
  assert (∀ l (ts bs : gset string), (foldl (λ st t, ({[ot_Bucket t +:+ "." +:+ ot_Name t]} ∪ st.1,
    {[ot_Bucket t]} ∪ st.2)) (ts, bs) l).2 = foldl (λ bs t, {[ot_Bucket t]} ∪ bs) bs l) as ->.
  { induction l as [|t l IH]; intros; [done|]. simpl. apply IH. }
  rewrite !elem_of_foldl_insert. naive_solver.
Qed.

Lemma input_table_findings_ok comp base i ats abs k t :
  errors (input_table_findings comp base i ats abs k t) = [] ↔ input_table_ok t.
Proof.
  unfold input_table_findings, input_table_ok. cbv zeta.
  rewrite !errors_nil_app, !errors_report_msg, errors_warning, errors_report, bucketNameError_spec,
    tableNameError_spec, Nat.ltb_ge.
  assert (errors (if str_empty (it_Since t) then [] else match parseSinceDuration (it_Since t) with
    | Ok _ => [] | Err e => [error_finding (index base ".tables" k +:+ ".since")
        (("component " +:+ comp +:+ ", input table " +:+ it_Bucket t +:+ "." +:+ it_Table t) +:+
         ": " +:+ e)] end) = [] ↔
    (it_Since t ≠ EmptyString → is_ok (parseSinceDuration (it_Since t)) = true)) as ->.
  { destruct (it_Since t); simpl str_empty; [naive_solver|]. destruct (parseSinceDuration _); naive_solver. }
  destruct (it_SinceDays t) as [d|], (it_SinceSnapshot t) as [sn|]; rewrite ?errors_report; simpl;
    rewrite ?Z.leb_gt; naive_solver.
Qed.

Lemma validateInputs_ok comp inp i j ats abs pre :
  (∀ b, b ∈ abs ↔ available_after pre b) →
  errors (validateInputs comp inp i j ats abs) = [] ↔ inputs_ok i pre inp.
Proof.
  intros Hab. unfold validateInputs, inputs_ok. cbv zeta.
  rewrite errors_nil_app, !errors_concat_imap.
  rewrite (imap_forall input_table_ok _ (in_Tables inp)) by (intros; apply input_table_findings_ok).
  rewrite (imap_forall (λ b, bucket_name b ∧ (0 < i → available_after pre b))); [done|].
  intros k b. unfold input_bucket_findings.
  rewrite errors_nil_app, errors_report_msg, errors_report, bucketNameError_spec, andb_false_iff,
    Nat.ltb_ge, negb_false_iff, bool_decide_eq_true, Hab.
  f_equiv. destruct i; [split; [intros _ Hn; lia|by left]|].
  split; [intros [Hn|?] _; [lia|done]|]. intros H. right. apply H. lia.
Qed.

(** ** Components *)

Definition secrets_ok (c : ComponentSpec) : Prop :=
  match ConfigMap c with
  | Err _ => False
  | Ok None => True
  | Ok (Some cfg) => ∀ steps s, at_loc (VObj cfg) steps (VStr s) → leaf_ok s = true
  end.

Definition io_ok (mode : string) (has : bool) : Prop :=
  (mode = "none" → has = false) ∧ (mode = "required" → has = true).

Lemma Validate_leaf s : is_ok (Validate (VStr s)) = leaf_ok s.
Proof.
  unfold Validate, leaf_ok. simpl. unfold checkLeafSyntax.
  by destruct (refPattern s), (escapePattern s), (anyRefLike s).
Qed.

Lemma validateSecretRefs_ok c i j : errors (validateSecretRefs c i j) = [] ↔ secrets_ok c.
Proof.
  unfold validateSecretRefs, secrets_ok. destruct (ConfigMap c) as [[cfg|]|]; [|done..].
  rewrite walkStrings_fold. set (base := _ +:+ _).
  assert (∀ ls fs, errors (foldl (λ findings ps, match Validate (VStr ps.2) with
      | Ok _ => findings | Err e => findings ++ [error_finding ps.1 e] end) fs ls) = [] ↔
    errors fs = [] ∧ ∀ ps, ps ∈ ls → leaf_ok ps.2 = true) as ->.
  { induction ls as [|ps ls IH]; intros fs; simpl.
    { split; [|by intros [? _]]. intros ?. split; [done|]. by intros ? ?%elem_of_nil. }
    rewrite IH. setoid_rewrite elem_of_cons. pose proof (Validate_leaf ps.2) as Hl.
    destruct (Validate (VStr ps.2)); simpl in Hl; rewrite ?errors_nil_app, ?errors_one.
    - split; [|naive_solver]. intros [? H]. split; [done|]. by intros ? [->|?]; auto.
    - split; [by intros [[_ []]]|]. intros [_ H]. by rewrite H in Hl by (by left). }
  split.
  - intros [_ H] steps s A. apply (H (dotted base steps, s)), elem_strings. eauto.
  - intros H. split; [done|]. intros [p s] (steps & A & _)%elem_strings. eauto.
Qed.

Lemma check_io_ok mode has path m1 m2 : errors (check_io mode has path m1 m2) = [] ↔ io_ok mode has.
Proof.
  unfold check_io, io_ok. repeat case_bool_decide; subst; rewrite ?errors_report, ?negb_false_iff;
    naive_solver.
Qed.

(** [pre]: the components before [c] in the pipeline. *)
Definition component_ok (stageIdx : nat) (pre : list ComponentSpec) (c : ComponentSpec) : Prop :=
  c_Name c ≠ EmptyString ∧ c_Component c ≠ EmptyString ∧
  (∀ inp, c_Inputs c = Some inp → inputs_ok stageIdx pre inp) ∧
  (∀ o, c_Outputs c = Some o → outputs_ok o) ∧
  (componentHasInputs c = true ∨ componentHasOutputs c = true).

Lemma validateComponent_ok c i j ats abs pre :
  (∀ b, b ∈ abs ↔ available_after pre b) →
  errors (validateComponent c i j ats abs) = [] ↔ component_ok i pre c.
Proof.
  intros Hab. unfold validateComponent, component_ok. cbv zeta.
  rewrite !errors_nil_app, !errors_report, !str_empty_false, andb_false_iff, !negb_false_iff.
  do 2 f_equiv. f_equiv; [|f_equiv].
  - destruct (c_Inputs c); [|naive_solver]. rewrite validateInputs_ok by done. naive_solver.
  - destruct (c_Outputs c); [|naive_solver]. rewrite validateOutputs_ok by done. naive_solver.
Qed.

Lemma ValidateConfig_all_errors schema raw cfg prefix : all_errors (ValidateConfig schema raw cfg prefix).
Proof.
  unfold ValidateConfig, nonStringFindings, secretFindings, libraryFindings. cbv zeta.
  repeat apply all_errors_app; repeat (apply all_errors_flat_map; intros);
    repeat case_match; auto with datuplet; done.
Qed.

Lemma check_entry_all_errors max path comp kind e : all_errors (check_entry max path comp kind e).
Proof. unfold check_entry. destruct e. destruct (gm_get _ _); auto with datuplet. Qed.

Lemma checkResources_all_errors rr max path comp :
  all_errors (checkResourcesAgainstMax rr max path comp).
Proof.
  destruct rr; [|done]. simpl. apply all_errors_app; apply all_errors_flat_map; intros;
    apply check_entry_all_errors.
Qed.

(** ** The registry *)

Section WithRegistry.
Context {R : Type} `{RV : !RegistryView R}.

(** What the registry requires of a component: it resolves without an error, its
    inputs and outputs are of the declared kind, its resources stay within the
    maximum, and its config passes the schema of its version. *)
Definition registry_ok (reg : option R) (base : string) (c : ComponentSpec) : Prop :=
  match reg with
  | None => True
  | Some r => ∃ rc, (Resolve r (c_Component c) (c_Version c)).1 = Some rc ∧
      errors (Resolve r (c_Component c) (c_Version c)).2 = [] ∧
      io_ok (InputsMode (rc_IO rc)) (componentHasInputs c) ∧
      io_ok (OutputsMode (rc_IO rc)) (componentHasOutputs c) ∧
      (∀ rr, c_Resources c = Some rr → rr_within (cr_Max (rc_Resources rc)) rr) ∧
      (∀ schema cfg, rc_ConfigSchema rc = Some schema → ConfigMap c = Ok cfg →
        ValidateConfig schema (rc_rawConfigSchema rc) cfg (base +:+ ".config") = [])
  end.

Lemma errors_reprefix base fs :
  errors (map (λ f, MkFinding (joinKey base (f_Path f)) (f_Message f) (f_Severity f)) fs) = [] ↔
  errors fs = [].
Proof.
  induction fs as [|f fs IH]; [done|]. simpl. unfold errors in *. rewrite !filter_cons.
  assert (is_error (MkFinding (joinKey base (f_Path f)) (f_Message f) (f_Severity f)) = is_error f)
    as -> by done.
  destruct (is_error f); [done|apply IH].
Qed.

Context `{RL : !RegistryViewLaws R}.

Lemma validateRegistry_ok c i j reg :
  errors (validateRegistry c i j reg) = [] ↔ registry_ok reg (component_path i j) c.
Proof.
  unfold validateRegistry, registry_ok. destruct reg as [r|]; [|done]. cbv zeta.
  pose proof (resolve_reported r (c_Component c) (c_Version c)) as Hrep.
  destruct (Resolve r _ _) as [rc fs]. cbn [fst snd] in *. destruct rc as [rc|].
  2: { rewrite errors_reprefix. split; [by intros ?; destruct Hrep|by intros (? & ? & _)]. }
  rewrite !errors_nil_app, errors_reprefix. unfold checkIOCapability.
  rewrite errors_nil_app, !check_io_ok, checkResources_all_errors.
  setoid_rewrite (inj_iff Some).
  assert (checkResourcesAgainstMax (c_Resources c) (cr_Max (rc_Resources rc)) (component_path i j)
    (c_Component c) = [] ↔ ∀ rr, c_Resources c = Some rr → rr_within (cr_Max (rc_Resources rc)) rr) as ->.
  { destruct (c_Resources c) as [rr|]; [|naive_solver]. rewrite checkResources_nil. naive_solver. }
  assert (errors match rc_ConfigSchema rc with
      | Some schema => match ConfigMap c with
        | Ok cfg => ValidateConfig schema (rc_rawConfigSchema rc) cfg (component_path i j +:+ ".config")
        | Err _ => [] end
      | None => [] end = [] ↔ ∀ schema cfg, rc_ConfigSchema rc = Some schema → ConfigMap c = Ok cfg →
        ValidateConfig schema (rc_rawConfigSchema rc) cfg (component_path i j +:+ ".config") = []) as ->.
  { destruct (rc_ConfigSchema rc) as [schema|]; [|naive_solver].
    destruct (ConfigMap c) as [cfg|]; [|naive_solver]. rewrite ValidateConfig_all_errors. naive_solver. }
  naive_solver.
Qed.

(** ** The pipeline *)

Lemma available_step pre c b :
  available_after (pre ++ [c]) b ↔
  available_after pre b ∨ ∃ o, c_Outputs c = Some o ∧ produces_bucket o b.
Proof.
  unfold available_after. split.
  - intros (c' & o & [Hin|Hin]%elem_of_app & Ho & Hp); [left; by exists c', o|].
    apply list_elem_of_singleton in Hin as ->. right. by exists o.
  - intros [(c' & o & Hin & ? & ?)|(o & ? & ?)].
    + exists c', o. split_and!; [apply elem_of_app; by left|done..].
    + exists c, o. split_and!; [apply elem_of_app; right; constructor|done..].
Qed.

Lemma validate_components_ok i k cs reg avail pre :
  (∀ b, b ∈ avail.2 ↔ available_after pre b) →
  (errors (validate_components i k cs reg avail).1 = [] ↔
    ∀ j c, cs !! j = Some c →
      component_ok i (pre ++ take j cs) c ∧ registry_ok reg (component_path i (k + j)) c) ∧
  (∀ b, b ∈ (validate_components i k cs reg avail).2.2 ↔ available_after (pre ++ cs) b).
Proof.
  revert k avail pre. induction cs as [|c cs IH]; intros k avail pre Hab.
  { simpl. rewrite app_nil_r. done. }
  cbn [validate_components]. cbv zeta.
  set (avail' := match c_Outputs c with Some o => registerOutputs o avail | None => avail end).
  destruct (IH (S k) avail' (pre ++ [c])) as [Hf Hb].
  { intros b. rewrite available_step, <-Hab. unfold avail'.
    destruct (c_Outputs c); [rewrite registerOutputs_buckets|]; naive_solver. }
  destruct (validate_components i (S k) cs reg avail') as [fs avail'']. cbn [fst snd] in *.
  rewrite (cons_middle c pre cs). rewrite <-app_assoc in Hb. split; [|done].
  rewrite !errors_nil_app, (validateComponent_ok _ _ _ _ _ pre Hab), validateRegistry_ok, Hf. split.
  - intros (? & ? & Hrest) [|j] c' Hj; simplify_eq/=.
    + by rewrite app_nil_r, Nat.add_0_r.
    + specialize (Hrest j c' Hj). rewrite <-app_assoc in Hrest. by rewrite Nat.add_succ_r.
  - intros Hall. pose proof (Hall 0 c eq_refl) as H0. simpl in H0.
    rewrite app_nil_r, Nat.add_0_r in H0. destruct H0. split; [done|]. split; [done|].
    intros j c' Hj. specialize (Hall (S j) c' Hj). rewrite Nat.add_succ_r in Hall. by rewrite <-app_assoc.
Qed.

(** [pre]: the components of the stages before this one. *)
Definition stage_ok (reg : option R) (i : nat) (pre : list ComponentSpec) (st : StageSpec) : Prop :=
  st_Name st ≠ EmptyString ∧ st_Components st ≠ [] ∧
  ∀ j c, st_Components st !! j = Some c →
    component_ok i (pre ++ take j (st_Components st)) c ∧ registry_ok reg (component_path i j) c.

Lemma validate_stages_ok k stages reg avail pre :
  (∀ b, b ∈ avail.2 ↔ available_after pre b) →
  errors (validate_stages k stages reg avail) = [] ↔
  ∀ i st, stages !! i = Some st →
    stage_ok reg (k + i) (pre ++ flat_map st_Components (take i stages)) st.
Proof.
  revert k avail pre. induction stages as [|st stages IH]; intros k avail pre Hab; [done|].
  cbn [validate_stages]. cbv zeta.
  destruct (validate_components_ok k 0 (st_Components st) reg avail pre Hab) as [Hf Hb].
  destruct (validate_components k 0 (st_Components st) reg avail) as [fs avail']. cbn [fst snd] in *.
  rewrite !errors_nil_app, !errors_report, str_empty_false, is_empty_false, Hf.
  rewrite (IH (S k) avail' (pre ++ st_Components st) Hb). unfold stage_ok. split.
  - intros (? & ? & ? & Hrest) [|i] st' Hi; simplify_eq/=.
    + by rewrite app_nil_r, Nat.add_0_r.
    + specialize (Hrest i st' Hi). rewrite <-app_assoc in Hrest. by rewrite Nat.add_succ_r.
  - intros Hall. pose proof (Hall 0 st eq_refl) as H0. simpl in H0.
    rewrite app_nil_r, Nat.add_0_r in H0. destruct H0 as (? & ? & ?).
    split; [done|]. split; [done|]. split; [done|].
    intros i st' Hi. specialize (Hall (S i) st' Hi). rewrite Nat.add_succ_r in Hall. by rewrite <-app_assoc.
Qed.

Lemma positions_components p :
  map snd (positions p) = flat_map st_Components (ps_Stages (p_Spec p)).
Proof.
  unfold positions. generalize 0 as k.
  assert (∀ sts (f : nat → nat), map snd (concat (imap (λ i stage,
    imap (λ j c, (f i, j, c)) (st_Components stage)) sts)) = flat_map st_Components sts) as H.
  { induction sts as [|st sts IH]; intros f; [done|]. simpl. rewrite map_app.
    f_equal; [|exact (IH (f ∘ S))].
    change (snd <$> imap (λ j c, (f 0, j, c)) (st_Components st) = st_Components st).
    rewrite fmap_imap. transitivity (imap (const id) (st_Components st)); [done|].
    rewrite imap_const. apply list_fmap_id. }
  intros _. apply (H _ id).
Qed.

Lemma unique_names_ok ps seen :
  Forall (λ x, c_Name x.2 ≠ EmptyString) ps →
  errors (unique_names ps seen) = [] ↔
  NoDup (map (λ x, c_Name x.2) ps) ∧ ∀ x, x ∈ ps → c_Name x.2 ∉ seen.
Proof.
  revert seen. induction ps as [|[[i j] c] ps IH]; intros seen Hne; simpl.
  { split; [|done]. intros _. split; [constructor|]. by intros ? ?%elem_of_nil. }
  apply Forall_cons in Hne as [Hc Hne]. simpl in Hc. apply str_empty_false in Hc. rewrite Hc.
  rewrite NoDup_cons. setoid_rewrite elem_of_cons. case_bool_decide as Hs.
  { change (errors (?f :: ?fs)) with (errors ([f] ++ fs)). rewrite errors_nil_app, errors_one.
    split; [by intros [[] _]|]. intros [_ Hn]. by destruct (Hn (i, j, c) (or_introl eq_refl)). }
  rewrite IH by done. split.
  - intros [Hnd Hn]. split_and!; [|done|].
    + intros (x & Hx & Hin)%list_elem_of_fmap. apply (Hn x Hin). set_solver.
    + intros x [->|Hin]; [done|]. specialize (Hn x Hin). set_solver.
  - intros [[Hn Hnd] Hall]. split; [done|]. intros x Hin.
    apply not_elem_of_union. split; [|by apply Hall; right].
    intros E%elem_of_singleton. apply Hn, list_elem_of_fmap. eauto.
Qed.

(** A well-formed pipeline, for a registry and a policy. *)
Definition pipeline_ok (p : Pipeline) (reg : option R) (pol : option PolicySpec) : Prop :=
  let stages := ps_Stages (p_Spec p) in
  p_Name p ≠ EmptyString ∧ stages ≠ [] ∧
  (∀ i st, stages !! i = Some st → stage_ok reg i (flat_map st_Components (take i stages)) st) ∧
  NoDup (map c_Name (flat_map st_Components stages)) ∧
  (∀ c, c ∈ flat_map st_Components stages → secrets_ok c) ∧
  checkGatewayBounds p pol = [].

Lemma stages_ok_names p reg :
  (∀ i st, ps_Stages (p_Spec p) !! i = Some st →
    stage_ok reg i (flat_map st_Components (take i (ps_Stages (p_Spec p)))) st) →
  ∀ c, c ∈ flat_map st_Components (ps_Stages (p_Spec p)) → c_Name c ≠ EmptyString.
Proof.
  intros Hall c Hin. apply list_elem_of_In, in_flat_map in Hin as (st & Hst & Hc).
  apply list_elem_of_In, list_elem_of_lookup in Hst as [i Hi].
  apply list_elem_of_In, list_elem_of_lookup in Hc as [j Hj].
  destruct (Hall i st Hi) as (_ & _ & Hcs). by destruct (Hcs j c Hj) as [[? _] _].
Qed.

Lemma checkGateway_all_errors p pol : all_errors (checkGatewayBounds p pol).
Proof.
  destruct pol; [|done]. simpl. unfold check_knob. auto 6 with datuplet.
Qed.

Lemma validate_typed_ok (p : Pipeline) (reg : option R) (pol : option PolicySpec) :
  errors (ValidateTyped (Some p) reg pol) = [] ↔ pipeline_ok p reg pol.
Proof.
  unfold ValidateTyped, pipeline_ok. cbv zeta.
  rewrite !errors_nil_app, !errors_report, str_empty_false, is_empty_false, checkGateway_all_errors.
  rewrite (validate_stages_ok 0 _ reg (∅, ∅) []).
  2: { intros b. split; [set_solver|]. by intros (? & ? & ?%elem_of_nil & _). }
  do 2 f_equiv. cbn [app Nat.add].
  assert (errors (concat (imap (λ i stage, concat (imap (λ j c, validateSecretRefs c i j)
      (st_Components stage))) (ps_Stages (p_Spec p)))) = [] ↔
    ∀ c, c ∈ flat_map st_Components (ps_Stages (p_Spec p)) → secrets_ok c) as ->.
  { rewrite errors_concat_imap. setoid_rewrite errors_concat_imap.
    setoid_rewrite validateSecretRefs_ok. setoid_rewrite list_elem_of_In.
    setoid_rewrite in_flat_map. setoid_rewrite <-list_elem_of_In.
    setoid_rewrite list_elem_of_lookup. naive_solver. }
  split.
  - intros (Hst & Hu & ? & ?). split_and!; [done| |done..].
    unfold checkUniqueComponentNames in Hu. rewrite unique_names_ok in Hu.
    + rewrite <-positions_components, map_map. apply Hu.
    + apply Forall_forall. intros x Hx. eapply stages_ok_names; [done|].
      rewrite <-positions_components. apply list_elem_of_fmap. eauto.
  - intros (Hst & Hu & ? & ?). split_and!; [done| |done..].
    unfold checkUniqueComponentNames. rewrite unique_names_ok.
    + split; [by rewrite <-positions_components, map_map in Hu|set_solver].
    + apply Forall_forall. intros x Hx. eapply stages_ok_names; [done|].
      rewrite <-positions_components. apply list_elem_of_fmap. eauto.
Qed.

(** C37: [ValidateTyped] reports no error exactly on the well-formed pipelines:
    named, with non-empty named stages; every component named, typed, with
    inputs or outputs whose names, modes, since windows, partition fields,
    columns and processors are valid, input buckets (after the first stage)
    that an earlier component produces, resolved by the registry and within
    its schema and resource bounds; component names unique; secret references
    whole scalars; gateway knobs within the policy. *)
Theorem ValidateTyped_accepts (p : Pipeline) (reg : option R) (pol : option PolicySpec) :
  errors (ValidateTyped (Some p) reg pol) = [] ↔ pipeline_ok p reg pol.
Proof. apply validate_typed_ok. Qed.
End WithRegistry.
End ValidateSpec.

Module ValidateExamples.
#[local] Instance ascii_tables : UnicodeTables :=
  {| is_print_above_latin1 _ := false; to_upper_above_latin1 r := r |}.
#[local] Instance int_quantities : Quantities :=
  {| quantity := Z; q_cmp := Z.compare; q_string := itoa; q_parse _ := None |}.
#[local] Instance empty_json : Json :=
  {| json_object _ := Ok (Some []); json_any _ := None; json_marshal _ := "{}" |}.
#[local] Instance any_schema : JsonSchema :=
  {| js_doc := unit; js_compiler := unit; js_schema := unit; js_unmarshal _ := Ok tt;
     js_add_resource _ _ := Ok tt; js_compile _ _ := Ok tt; js_validate _ _ := None |}.
(** Transforms as their text; only the time transforms and identity are known. *)
#[local] Instance text_transforms : Transforms :=
  {| Transform := string; ParseTransform s := Some s; tr_String s := s;
     tr_type s := if decide (s = "day") then DayTransform
                  else if decide (s = "hour") then HourTransform
                  else if decide (s = "identity") then OtherTransform else UnknownTransform |}.

Definition inputs (b : string) : InputSpec := MkInputSpec [b] [].
Definition outputs (b : string) (fs : list PartitionFieldSpec) : OutputSpec :=
  MkOutputSpec EmptyString EmptyString []
    [MkOutputTableSpec "t" b EmptyString "append" fs [MkColumnSpec "a" "long"]] [].
Definition comp (name : string) (i : option InputSpec) (o : option OutputSpec) : ComponentSpec :=
  MkComponentSpec name "csv" EmptyString EmptyString i o (Some (MkResourceRequirements [("cpu", 1%Z)] [])).
Definition pipeline (stages : list StageSpec) : Pipeline :=
  MkPipeline "p" "ns" 1 (MkPipelineSpec (MkGatewaySpec 0 0 0 0) stages).
Definition registry : StaticRegistry :=
  {["csv" := MkComponentDefinition (MkComponentDefinitionSpec EmptyString EmptyString EmptyString false
     EmptyString [MkVersionSpec "v1.0.0" "img" false "{}"
       (Some (MkComponentResources (MkResourceRequirements [] []) [("cpu", 2%Z)]))] None)
     "Ready" EmptyString]}.

Definition good : Pipeline := pipeline
  [MkStageSpec "extract" [comp "a" None (Some (outputs "raw-data" [MkPartitionFieldSpec "ts" "day"]))];
   MkStageSpec "load" [comp "b" (Some (inputs "raw-data")) (Some (outputs "out" []))]].

Lemma ValidateTyped_accepts_witness :
  errors (ValidateTyped (Some good) (Some registry) None) = [] ∧ pipeline_ok good (Some registry) None.
Proof.
  assert (errors (ValidateTyped (Some good) (Some registry) None) = []) as H by (vm_compute; reflexivity).
  split; [exact H|]. apply (ValidateTyped_accepts good (Some registry) None). exact H.
Defined.

(** Two time transforms on one column are refused. *)
Example two_time_transforms :
  map f_Path (ValidateTyped (Some (pipeline [MkStageSpec "s" [comp "a" None
    (Some (outputs "raw" [MkPartitionFieldSpec "ts" "day"; MkPartitionFieldSpec "ts" "hour"]))]]))
    (Some registry) None)
  = ["stages[0].components[0].outputs.tables[0].partitionFields[1].transform"].
Proof. vm_compute. reflexivity. Qed.

(** The outputs of a component are available to the later components of its own
    stage, although the message of the check speaks of previous stages. *)
Example same_stage_output_available :
  ValidateTyped (Some (pipeline
    [MkStageSpec "one" [comp "a" None (Some (outputs "raw" []))];
     MkStageSpec "two" [comp "b" None (Some (outputs "mid" []));
                        comp "c" (Some (inputs "mid")) (Some (outputs "out" []))]]))
    (Some registry) None = [].
Proof. vm_compute. reflexivity. Qed.
End ValidateExamples.
