(* ===== verification/PipelineDoc.v ===== *)
(** * PipelineDoc: the envelope-free document (pkg/pipeline/config)

    The PipelineDoc types of types.go, the conversions of convert.go, [Parse] of
    parser.go with its helpers, and [ValidatePipelineDoc] of
    pkg/pipeline/validate.  The conversions are proved to lose nothing but what
    they are documented to lose. *)

From S2P Require Import Prelude GoValue ApiTypes GoTime Policy Registry ConfigSchema Validate ValidateSpec.

(** ** types.go *)

Record DocInputTable := MkDocInputTable {
  di_Bucket : string;
  di_Table : string;
  di_As : string;
  di_Since : string;
  di_SinceSnapshot : option Z;
  di_SinceDays : option Z;
  di_TimestampColumn : string;
}.
Record DocInputs := MkDocInputs { din_Buckets : list string; din_Tables : list DocInputTable }.
Record DocOutputBucket := MkDocOutputBucket { dob_Name : string; dob_WriteMode : string }.
Record DocPartitionField := MkDocPartitionField { dpf_SourceColumn : string; dpf_Transform : string }.
Record DocColumn := MkDocColumn { dcol_Name : string; dcol_Type : string }.
Record DocOutputTable := MkDocOutputTable {
  dot_Name : string;
  dot_Bucket : string;
  dot_WriteMode : string;
  dot_LogicalName : string;
  dot_PartitionSpec : list DocPartitionField;
  dot_Columns : list DocColumn;
}.
Record DocProcessor := MkDocProcessor { dp_Type : string; dp_Columns : list string }.
Record DocOutputs := MkDocOutputs {
  do_DefaultBucket : string;
  do_DefaultWriteMode : string;
  do_Buckets : list DocOutputBucket;
  do_Tables : list DocOutputTable;
  do_Processors : list DocProcessor;
}.
Record DocResources := MkDocResources { dr_Memory : string; dr_CPU : string }.
Record DocComponent := MkDocComponent {
  dc_Name : string;
  dc_Component : string;
  dc_Version : string;
  dc_Image : string;
  dc_Config : gomap value;
  dc_Inputs : option DocInputs;
  dc_Outputs : option DocOutputs;
  dc_Resources : option DocResources;
}.
Record DocStage := MkDocStage { ds_Name : string; ds_Components : list DocComponent }.
Record DocGateway := MkDocGateway {
  dg_ChunkSize : Z;
  dg_BufferSize : Z;
  dg_RowGroupSize : Z;
  dg_TargetFileSize : Z;
}.
Record DocPipeline := MkDocPipeline {
  d_Name : string;
  d_Description : string;
  d_Gateway : DocGateway;
  d_Stages : list DocStage;
}.

Definition DefaultWriteMode : string := "FULL_LOAD".

(** ** convert.go *)

Definition gatewayToCRD (g : DocGateway) : GatewaySpec :=
  MkGatewaySpec (dg_ChunkSize g) (dg_BufferSize g) (dg_RowGroupSize g) (dg_TargetFileSize g).
Definition gatewayFromCRD (g : GatewaySpec) : DocGateway :=
  MkDocGateway (gw_ChunkSize g) (gw_BufferSize g) (gw_RowGroupSize g) (gw_TargetFileSize g).

Definition inputTableToCRD (t : DocInputTable) : InputTableSpec :=
  MkInputTableSpec (di_Bucket t) (di_Table t) (di_As t) (di_Since t) (di_SinceSnapshot t)
    (di_SinceDays t) (di_TimestampColumn t).
Definition inputTableFromCRD (t : InputTableSpec) : DocInputTable :=
  MkDocInputTable (it_Bucket t) (it_Table t) (it_LogicalName t) (it_Since t) (it_SinceSnapshot t)
    (it_SinceDays t) (it_TimestampColumn t).

Definition inputsToCRD (i : option DocInputs) : option InputSpec :=
  match i with
  | None => None
  | Some i => Some (MkInputSpec (din_Buckets i) (map inputTableToCRD (din_Tables i)))
  end.
Definition inputsFromCRD (i : option InputSpec) : option DocInputs :=
  match i with
  | None => None
  | Some i => Some (MkDocInputs (in_Buckets i) (map inputTableFromCRD (in_Tables i)))
  end.

Definition outputTableToCRD (t : DocOutputTable) : OutputTableSpec :=
  MkOutputTableSpec (dot_Name t) (dot_Bucket t) (dot_LogicalName t) (dot_WriteMode t)
    (map (λ f, MkPartitionFieldSpec (dpf_SourceColumn f) (dpf_Transform f)) (dot_PartitionSpec t))
    (map (λ c, MkColumnSpec (dcol_Name c) (dcol_Type c)) (dot_Columns t)).
Definition outputTableFromCRD (t : OutputTableSpec) : DocOutputTable :=
  MkDocOutputTable (ot_Name t) (ot_Bucket t) (ot_WriteMode t) (ot_LogicalName t)
    (map (λ f, MkDocPartitionField (pf_SourceColumn f) (pf_Transform f)) (ot_PartitionFields t))
    (map (λ c, MkDocColumn (col_Name c) (col_Type c)) (ot_Columns t)).

Definition outputsToCRD (o : option DocOutputs) : option OutputSpec :=
  match o with
  | None => None
  | Some o => Some (MkOutputSpec (do_DefaultBucket o) (do_DefaultWriteMode o)
      (map (λ b, MkOutputBucketSpec (dob_Name b) (dob_WriteMode b)) (do_Buckets o))
      (map outputTableToCRD (do_Tables o))
      (map (λ p, MkProcessorSpec (dp_Type p) (dp_Columns p)) (do_Processors o)))
  end.
Definition outputsFromCRD (o : option OutputSpec) : option DocOutputs :=
  match o with
  | None => None
  | Some o => Some (MkDocOutputs (o_DefaultBucket o) (o_DefaultWriteMode o)
      (map (λ b, MkDocOutputBucket (ob_Name b) (ob_WriteMode b)) (o_Buckets o))
      (map outputTableFromCRD (o_Tables o))
      (map (λ p, MkDocProcessor (proc_Type p) (proc_Columns p)) (o_Processors o)))
  end.

Section Convert.
Context `{Q : !Quantities} `{J : !Json}.

Definition configToCRD (m : gomap value) : string :=
  if is_empty m then EmptyString else json_marshal m.
(** [Err] is a panic. *)
Definition configFromCRD (raw : string) : result string (gomap value) :=
  if str_empty raw then Ok [] else m ← json_object raw; Ok (default [] m).

(** A quantity that does not parse is dropped. *)
Definition limit_entry (name text : string) : ResourceList :=
  if str_empty text then []
  else match q_parse text with Some q => [(name, q)] | None => [] end.
Definition resourcesToCRD (r : option DocResources) : option ResourceRequirements :=
  match r with
  | None => None
  | Some r =>
    if str_empty (dr_Memory r) && str_empty (dr_CPU r) then None
    else Some (MkResourceRequirements
           (limit_entry "memory" (dr_Memory r) ++ limit_entry "cpu" (dr_CPU r)) [])
  end.
Definition limit_text (name : string) (l : ResourceList) : string :=
  match gm_get name l with Some q => q_string q | None => EmptyString end.
Definition resourcesFromCRD (r : option ResourceRequirements) : option DocResources :=
  match r with
  | None => None
  | Some r =>
    if is_empty (rr_Limits r) then None
    else
      let memory := limit_text "memory" (rr_Limits r) in
      let cpu := limit_text "cpu" (rr_Limits r) in
      if str_empty memory && str_empty cpu then None else Some (MkDocResources memory cpu)
  end.

Definition componentToCRD (c : DocComponent) : ComponentSpec :=
  MkComponentSpec (dc_Name c) (dc_Component c) (dc_Version c) (configToCRD (dc_Config c))
    (inputsToCRD (dc_Inputs c)) (outputsToCRD (dc_Outputs c)) (resourcesToCRD (dc_Resources c)).
Definition componentFromCRD (c : ComponentSpec) : result string DocComponent :=
  config ← configFromCRD (c_Config c);
  Ok (MkDocComponent (c_Name c) (c_Component c) (c_Version c) EmptyString config
        (inputsFromCRD (c_Inputs c)) (outputsFromCRD (c_Outputs c)) (resourcesFromCRD (c_Resources c))).

Definition stageToCRD (s : DocStage) : StageSpec :=
  MkStageSpec (ds_Name s) (map componentToCRD (ds_Components s)).
Definition stageFromCRD (s : StageSpec) : result string DocStage :=
  cs ← mapM_res componentFromCRD (st_Components s);
  Ok (MkDocStage (st_Name s) cs).

(** Namespace and generation are left to the API server. *)
Definition DocToCR (p : DocPipeline) : Pipeline :=
  MkPipeline (d_Name p) EmptyString 0
    (MkPipelineSpec (gatewayToCRD (d_Gateway p)) (map stageToCRD (d_Stages p))).
Definition CRToDoc (cr : Pipeline) : result string DocPipeline :=
  stages ← mapM_res stageFromCRD (ps_Stages (p_Spec cr));
  Ok (MkDocPipeline (p_Name cr) EmptyString (gatewayFromCRD (ps_Gateway (p_Spec cr))) stages).
End Convert.

(** ** parser.go

    The two YAML decoders of sigs.k8s.io/yaml. *)
Class Yaml : Type := {
  yaml_probe : string → result string (gomap value);
  yaml_strict : string → result string DocPipeline;
}.

Definition Parse `{Y : !Yaml} (data : string) : result string DocPipeline :=
  match yaml_probe data with
  | Err e => Err ("parse pipeline doc: " +:+ e)
  | Ok probe =>
    if existsb (λ k, match gm_get k probe with Some _ => true | None => false end)
         ["apiVersion"; "kind"; "metadata"]
    then Err ("legacy Kubernetes CR format — Datuplet pipelines are envelope-free now; " +:+
              "see docs/pipeline-api.md")
    else map_err (λ e, "parse pipeline doc: " +:+ e) (yaml_strict data)
  end.

(** In some order. *)
Definition GetOutputBuckets (c : DocComponent) : list string :=
  match dc_Outputs c with
  | None => []
  | Some o =>
    let buckets : gset string := if str_empty (do_DefaultBucket o) then ∅ else {[do_DefaultBucket o]} in
    let buckets := foldl (λ bs b, {[dob_Name b]} ∪ bs) buckets (do_Buckets o) in
    elements (foldl (λ bs t, {[dot_Bucket t]} ∪ bs) buckets (do_Tables o))
  end.
Definition GetInputBuckets (c : DocComponent) : list string :=
  match dc_Inputs c with
  | None => []
  | Some i =>
    let buckets : gset string := foldl (λ bs b, {[b]} ∪ bs) ∅ (din_Buckets i) in
    elements (foldl (λ bs t, {[di_Bucket t]} ∪ bs) buckets (din_Tables i))
  end.

Definition IsDefaultBucketMode (o : option DocOutputs) : bool :=
  match o with Some o => negb (str_empty (do_DefaultBucket o)) | None => false end.

Section WriteModes.
Context `{UT : !UnicodeTables}.

Definition mode_or_default (mode : string) : string :=
  if str_empty mode then DefaultWriteMode else to_upper mode.

Definition GetWriteModeForBucket (o : option DocOutputs) (bucket : string) : string :=
  match o with
  | None => DefaultWriteMode
  | Some o =>
    if decide (do_DefaultBucket o = bucket) then mode_or_default (do_DefaultWriteMode o)
    else match find (λ b, bool_decide (dob_Name b = bucket)) (do_Buckets o) with
         | Some b => mode_or_default (dob_WriteMode b)
         | None => DefaultWriteMode
         end
  end.

Definition GetWriteModeForTable (o : option DocOutputs) (tableName : string) : string :=
  match o with
  | None => DefaultWriteMode
  | Some o =>
    match find (λ t, bool_decide (dot_Name t = tableName)) (do_Tables o) with
    | Some t => mode_or_default (dot_WriteMode t)
    | None => DefaultWriteMode
    end
  end.
End WriteModes.

(** ** ValidatePipelineDoc *)

Section ValidateDoc.
Context `{UT : !UnicodeTables} `{Q : !Quantities} `{J : !Json} `{JS : !JsonSchema} `{TR : !Transforms}
  `{Y : !Yaml}.
Context {R : Type} `{RV : !RegistryView R}.
(** [validation.IsDNS1123Subdomain] of k8s.io/apimachinery: the messages. *)
Variable IsDNS1123Subdomain : string → list string.

Definition with_name (doc : DocPipeline) (name : string) : DocPipeline :=
  MkDocPipeline name (d_Description doc) (d_Gateway doc) (d_Stages doc).

Definition ValidatePipelineDoc (raw contextName : string) (reg : option R) (pol : option PolicySpec)
    : option Pipeline * list Finding :=
  match Parse raw with
  | Err e => (None, [error_finding EmptyString e])
  | Ok doc =>
    let effectiveName := if str_empty contextName then d_Name doc else contextName in
    let f1 := if str_empty effectiveName then []
      else map (λ msg, error_finding "name"
             ("invalid pipeline name " +:+ quote effectiveName +:+ ": " +:+ msg))
             (IsDNS1123Subdomain effectiveName) in
    let f2 := report (negb (str_empty contextName) && negb (str_empty (d_Name doc)) &&
                      negb (bool_decide (d_Name doc = contextName)))
      (error_finding "name"
         ("name " +:+ quote (d_Name doc) +:+ " does not match the pipeline name " +:+
          quote contextName +:+ " it is being saved under")) in
    let cr := DocToCR (with_name doc effectiveName) in
    (Some cr, f1 ++ f2 ++ ValidateTyped (Some cr) reg pol)
  end.
End ValidateDoc.

(** ** Specification of the conversions *)

Section ConvertSpec.
Context `{UT : !UnicodeTables} `{Q : !Quantities} `{J : !Json}.

(** The text of a quantity once parsed and printed; nothing if it is malformed. *)
Definition canon_quantity (s : string) : string :=
  if str_empty s then EmptyString
  else match q_parse s with Some q => q_string q | None => EmptyString end.
Definition canon_resources (r : option DocResources) : option DocResources :=
  match r with
  | None => None
  | Some r =>
    let memory := canon_quantity (dr_Memory r) in
    let cpu := canon_quantity (dr_CPU r) in
    if str_empty memory && str_empty cpu then None else Some (MkDocResources memory cpu)
  end.

Definition component_equiv (c c' : DocComponent) : Prop :=
  dc_Name c' = dc_Name c ∧ dc_Component c' = dc_Component c ∧ dc_Version c' = dc_Version c ∧
  dc_Image c' = EmptyString ∧ veq (VObj (dc_Config c)) (VObj (dc_Config c')) ∧
  dc_Inputs c' = dc_Inputs c ∧ dc_Outputs c' = dc_Outputs c ∧
  dc_Resources c' = canon_resources (dc_Resources c).
Definition stage_equiv (s s' : DocStage) : Prop :=
  ds_Name s' = ds_Name s ∧ Forall2 component_equiv (ds_Components s) (ds_Components s').
(** Equal up to what the resource does not carry: the description, the image, the
    order of config keys and the spelling of quantities. *)
Definition doc_equiv (p p' : DocPipeline) : Prop :=
  d_Name p' = d_Name p ∧ d_Description p' = EmptyString ∧ d_Gateway p' = d_Gateway p ∧
  Forall2 stage_equiv (d_Stages p) (d_Stages p').

(** [encoding/json] reads back the map it writes. *)
Definition json_reads_back (m : gomap value) : Prop :=
  json_marshal m ≠ EmptyString ∧
  ∃ m', json_object (json_marshal m) = Ok (Some m') ∧ veq (VObj m) (VObj m').

Lemma inputs_roundtrip i : inputsFromCRD (inputsToCRD i) = i.
Proof.
  destruct i as [[bs ts]|]; [|done]. simpl. do 2 f_equal. rewrite map_map.
  rewrite <-(map_id ts) at 2. apply map_ext. by intros [].
Qed.

Lemma output_table_roundtrip t : outputTableFromCRD (outputTableToCRD t) = t.
Proof.
  destruct t as [n b w l fs cs]. unfold outputTableFromCRD, outputTableToCRD. simpl. rewrite !map_map.
  f_equal; [rewrite <-(map_id fs) at 2|rewrite <-(map_id cs) at 2]; apply map_ext; by intros [].
Qed.

Lemma outputs_roundtrip o : outputsFromCRD (outputsToCRD o) = o.
Proof.
  destruct o as [[d w bs ts ps]|]; [|done]. simpl. do 2 f_equal; rewrite map_map;
    [rewrite <-(map_id bs) at 2|rewrite <-(map_id ts) at 2|rewrite <-(map_id ps) at 2];
    apply map_ext; [by intros []|apply output_table_roundtrip|by intros []].
Qed.

Lemma limit_entry_memory m c :
  limit_text "memory" (limit_entry "memory" m ++ limit_entry "cpu" c) = canon_quantity m.
Proof.
  unfold limit_entry, limit_text, canon_quantity.
  destruct (str_empty m), (str_empty c), (q_parse m), (q_parse c); done.
Qed.

Lemma limit_entry_cpu m c :
  limit_text "cpu" (limit_entry "memory" m ++ limit_entry "cpu" c) = canon_quantity c.
Proof.
  unfold limit_entry, limit_text, canon_quantity.
  destruct (str_empty m), (str_empty c), (q_parse m), (q_parse c); done.
Qed.

Lemma resources_roundtrip r : resourcesFromCRD (resourcesToCRD r) = canon_resources r.
Proof.
  destruct r as [[m c]|]; [|done]. unfold canon_resources, resourcesToCRD. cbn [dr_Memory dr_CPU].
  destruct (str_empty m && str_empty c) eqn:E.
  { split_and_all. unfold canon_quantity. by rewrite H, H0. }
  cbn [resourcesFromCRD rr_Limits]. rewrite limit_entry_memory, limit_entry_cpu.
  destruct (is_empty _) eqn:El; [|done]. apply is_empty_true in El.
  rewrite <-(limit_entry_memory m c), <-(limit_entry_cpu m c), El. done.
Qed.

Lemma config_roundtrip m : (m ≠ [] → json_reads_back m) →
  ∃ m', configFromCRD (configToCRD m) = Ok m' ∧ veq (VObj m) (VObj m').
Proof.
  intros Hm. unfold configToCRD, configFromCRD. destruct m as [|e m]; simpl.
  { exists []. split; [done|apply veq_refl]. }
  destruct Hm as (Hne & m' & Hj & Heq); [done|]. apply str_empty_false in Hne. rewrite Hne, Hj.
  by exists m'.
Qed.

Lemma component_roundtrip c : (dc_Config c ≠ [] → json_reads_back (dc_Config c)) →
  ∃ c', componentFromCRD (componentToCRD c) = Ok c' ∧ component_equiv c c'.
Proof.
  intros Hc. destruct (config_roundtrip _ Hc) as (m & Hm & Heq). unfold componentFromCRD. simpl.
  rewrite Hm. simpl. eexists. split; [done|]. unfold component_equiv. simpl.
  by rewrite inputs_roundtrip, outputs_roundtrip, resources_roundtrip.
Qed.

Lemma mapM_res_total {A B} (f : A → result string B) (P : A → B → Prop) l :
  (∀ x, x ∈ l → ∃ y, f x = Ok y ∧ P x y) → ∃ k, mapM_res f l = Ok k ∧ Forall2 P l k.
Proof.
  induction l as [|x l IH]; intros H; [by exists []; split; [|constructor]|].
  destruct (H x) as (y & Hy & Hp); [constructor|].
  destruct IH as (k & Hk & Hps); [intros; apply H; by constructor|].
  exists (y :: k). simpl. rewrite Hy. simpl. rewrite Hk. split; [done|by constructor].
Qed.

Lemma mapM_res_map {A B C} (f : B → result string C) (g : A → B) l :
  mapM_res f (map g l) = mapM_res (λ x, f (g x)) l.
Proof. induction l as [|x l IH]; [done|]. simpl. by rewrite IH. Qed.

(** ** Properties *)

(** A document converted to the resource and back is the same document,
    up to its description and images, the key order of its configs and the
    spelling of its quantities, which a resource does not carry. *)
Theorem DocToCR_CRToDoc (p : DocPipeline)
    (Hjson : ∀ s c, s ∈ d_Stages p → c ∈ ds_Components s → dc_Config c ≠ [] →
      json_reads_back (dc_Config c)) :
  ∃ p', CRToDoc (DocToCR p) = Ok p' ∧ doc_equiv p p'.
Proof.
  unfold CRToDoc, DocToCR. cbn [p_Spec ps_Stages ps_Gateway p_Name]. rewrite mapM_res_map.
  destruct (mapM_res_total (λ s, stageFromCRD (stageToCRD s)) stage_equiv (d_Stages p))
    as (ss & -> & Hss).
  - intros s Hs. unfold stageFromCRD, stageToCRD. cbn [st_Components st_Name]. rewrite mapM_res_map.
    destruct (mapM_res_total (λ c, componentFromCRD (componentToCRD c)) component_equiv
      (ds_Components s)) as (cs & -> & Hcs).
    + intros c Hc. apply component_roundtrip. eauto.
    + simpl. eexists. split; [done|]. by split.
  - simpl. eexists. split; [done|]. split_and!; [done|done|by destruct (d_Gateway p)|done].
Qed.

(** What a resource keeps through the document. *)
Definition component_kept (c c' : ComponentSpec) : Prop :=
  c_Name c' = c_Name c ∧ c_Component c' = c_Component c ∧ c_Version c' = c_Version c ∧
  c_Inputs c' = c_Inputs c ∧ c_Outputs c' = c_Outputs c.
Definition stage_kept (s s' : StageSpec) : Prop :=
  st_Name s' = st_Name s ∧ Forall2 component_kept (st_Components s) (st_Components s').

Lemma inputs_roundtrip_cr i : inputsToCRD (inputsFromCRD i) = i.
Proof.
  destruct i as [[bs ts]|]; [|done]. simpl. do 2 f_equal. rewrite map_map.
  rewrite <-(map_id ts) at 2. apply map_ext. by intros [].
Qed.

Lemma outputs_roundtrip_cr o : outputsToCRD (outputsFromCRD o) = o.
Proof.
  destruct o as [[d w bs ts ps]|]; [|done]. simpl. do 2 f_equal; rewrite map_map;
    [rewrite <-(map_id bs) at 2|rewrite <-(map_id ts) at 2|rewrite <-(map_id ps) at 2];
    apply map_ext; [by intros []| |by intros []].
  intros [n b l w' fs cs]. unfold outputTableFromCRD, outputTableToCRD. simpl. rewrite !map_map.
  f_equal; [rewrite <-(map_id fs) at 2|rewrite <-(map_id cs) at 2]; apply map_ext; by intros [].
Qed.

(** A resource converted to a document and back keeps its name, its gateway
    and, stage by stage and component by component, every name, reference,
    version, input and output. *)
Theorem CRToDoc_DocToCR (cr : Pipeline) (p : DocPipeline) (Hp : CRToDoc cr = Ok p) :
  p_Name (DocToCR p) = p_Name cr ∧
  ps_Gateway (p_Spec (DocToCR p)) = ps_Gateway (p_Spec cr) ∧
  Forall2 stage_kept (ps_Stages (p_Spec cr)) (ps_Stages (p_Spec (DocToCR p))).
Proof.
  unfold CRToDoc in Hp. destruct (mapM_res stageFromCRD _) as [ss|] eqn:Hss; simplify_eq/=.
  split; [done|]. split; [by destruct (ps_Gateway _)|].
  apply mapM_res_Ok in Hss. apply Forall2_fmap_r. eapply Forall2_impl; [exact Hss|].
  intros s s' Hs. unfold stageFromCRD in Hs.
  destruct (mapM_res componentFromCRD _) as [cs|] eqn:Hcs; simplify_eq/=. split; [done|].
  apply mapM_res_Ok in Hcs. apply Forall2_fmap_r. eapply Forall2_impl; [exact Hcs|].
  intros c c' Hc. unfold componentFromCRD in Hc. destruct (configFromCRD _); simplify_eq/=.
  unfold component_kept. simpl. by rewrite inputs_roundtrip_cr, outputs_roundtrip_cr.
Qed.

Lemma utf8_encode_nonempty r : utf8_encode r ≠ EmptyString.
Proof. unfold utf8_encode. by repeat case_match. Qed.

Lemma to_upper_empty s : to_upper s = EmptyString → s = EmptyString.
Proof.
  destruct s as [|c s]; [done|]. unfold to_upper.
  assert (∃ x l, runes (String c s) = x :: l) as (x & l & ->)
    by (simpl; repeat case_match; eauto).
  simpl. pose proof (utf8_encode_nonempty (to_upper_rune (rs_rune x))). by destruct (utf8_encode _).
Qed.

Lemma mode_or_default_ok mode : write_mode mode →
  mode_or_default mode = "APPEND" ∨ mode_or_default mode = "FULL_LOAD".
Proof.
  unfold write_mode, mode_or_default. destruct (str_empty mode) eqn:E; [by right|].
  apply str_empty_false in E. intros [Hm%to_upper_empty|[-> | ->]]; [done|by left|by right].
Qed.

Lemma find_In {A} (f : A → bool) l x : find f l = Some x → x ∈ l.
Proof. intros [H _]%find_some. by apply list_elem_of_In. Qed.

(** For outputs that pass validation, the write mode of every named bucket
    and table is APPEND or FULL_LOAD, whatever the case it was written in. *)
Theorem write_modes_total `{TR : !Transforms} (o : DocOutputs) (out : OutputSpec) (name : string)
    (Ho : outputsToCRD (Some o) = Some out) (Hok : outputs_ok out) (Hname : name ≠ EmptyString) :
  (GetWriteModeForBucket (Some o) name = "APPEND" ∨ GetWriteModeForBucket (Some o) name = "FULL_LOAD") ∧
  (GetWriteModeForTable (Some o) name = "APPEND" ∨ GetWriteModeForTable (Some o) name = "FULL_LOAD").
Proof.
  simplify_eq/=. destruct Hok as (Hd & Hb & Ht & _). simpl in *.
  rewrite Forall_forall in Hb. rewrite Forall_forall in Ht. split.
  - case_decide as E; [apply mode_or_default_ok; apply Hd; congruence|].
    destruct (find _ _) as [b|] eqn:Hf; [|by right].
    apply mode_or_default_ok, (Hb (MkOutputBucketSpec (dob_Name b) (dob_WriteMode b))).
    apply list_elem_of_fmap. exists b. split; [done|by eapply find_In].
  - destruct (find _ _) as [t|] eqn:Hf; [|by right].
    apply mode_or_default_ok, (Ht (outputTableToCRD t)).
    apply list_elem_of_fmap. exists t. split; [done|by eapply find_In].
Qed.
End ConvertSpec.

Section ValidateDocSpec.
Context `{UT : !UnicodeTables} `{Q : !Quantities} `{J : !Json} `{JS : !JsonSchema} `{TR : !Transforms}
  `{Y : !Yaml}.
Context {R : Type} `{RV : !RegistryView R} `{RL : !RegistryViewLaws R}.

(** A document is accepted under a routing name exactly when it parses, the
    effective name (the routing name, else its own) is a DNS-1123 subdomain, its
    own name does not contradict the routing name, and the resource it converts
    to under the effective name is well formed. *)
Theorem ValidatePipelineDoc_accepts (dns : string → list string) (raw contextName : string)
    (reg : option R) (pol : option PolicySpec) :
  errors (ValidatePipelineDoc dns raw contextName reg pol).2 = [] ↔
  ∃ doc, Parse raw = Ok doc ∧
    let name := if str_empty contextName then d_Name doc else contextName in
    dns name = [] ∧ (contextName ≠ EmptyString → d_Name doc = EmptyString ∨ d_Name doc = contextName) ∧
    pipeline_ok (DocToCR (with_name doc name)) reg pol.
Proof.
  unfold ValidatePipelineDoc. destruct (Parse raw) as [doc|e]; [|split; [done|naive_solver]].
  cbv zeta. cbn [snd]. set (name := if str_empty contextName then d_Name doc else contextName).
  rewrite !errors_nil_app, errors_report.
  assert (errors (ValidateTyped (Some (DocToCR (with_name doc name))) reg pol) = [] ↔
    pipeline_ok (DocToCR (with_name doc name)) reg pol) as -> by apply validate_typed_ok.
  assert (name ≠ EmptyString → errors (if str_empty name then [] else map (λ msg, error_finding "name"
      ("invalid pipeline name " +:+ quote name +:+ ": " +:+ msg)) (dns name)) = [] ↔ dns name = []) as H1.
  { intros Hn%str_empty_false. rewrite Hn. by destruct (dns name). }
  assert (negb (str_empty contextName) && negb (str_empty (d_Name doc)) &&
      negb (bool_decide (d_Name doc = contextName)) = false ↔
    (contextName ≠ EmptyString → d_Name doc = EmptyString ∨ d_Name doc = contextName)) as ->.
  { rewrite !andb_false_iff, !negb_false_iff, !str_empty_true, bool_decide_eq_true.
    destruct (decide (contextName = EmptyString)); naive_solver. }
  split.
  - intros (Hf & ? & Hok). exists doc. split; [done|]. split_and!; [|done|done].
    apply H1; [apply Hok|done].
  - intros (doc' & [= <-] & Hf & ? & Hok). split_and!; [|done|done]. apply H1; [apply Hok|done].
Qed.
End ValidateDocSpec.

Module DocExamples.
#[local] Instance ascii_tables : UnicodeTables :=
  {| is_print_above_latin1 _ := false; to_upper_above_latin1 r := r |}.
#[local] Instance int_quantities : Quantities :=
  {| quantity := Z; q_cmp := Z.compare; q_string := itoa; q_parse := Atoi |}.
Definition config : gomap value := [("url", VStr "https://x")].
#[local] Instance one_json : Json :=
  {| json_object _ := Ok (Some config); json_any _ := None; json_marshal _ := "{...}" |}.
#[local] Instance any_schema : JsonSchema :=
  {| js_doc := unit; js_compiler := unit; js_schema := unit; js_unmarshal _ := Ok tt;
     js_add_resource _ _ := Ok tt; js_compile _ _ := Ok tt; js_validate _ _ := None |}.
#[local] Instance text_transforms : Transforms :=
  {| Transform := string; ParseTransform s := Some s; tr_String s := s; tr_type _ := OtherTransform |}.

Definition outs : DocOutputs := MkDocOutputs EmptyString EmptyString [MkDocOutputBucket "raw" "append"] [] [].
Definition doc : DocPipeline :=
  MkDocPipeline EmptyString "nightly" (MkDocGateway 0 0 0 0)
    [MkDocStage "extract" [MkDocComponent "a" "csv" EmptyString "img" config None (Some outs)
       (Some (MkDocResources "007" "lots"))]].
#[local] Instance one_yaml : Yaml := {| yaml_probe _ := Ok []; yaml_strict _ := Ok doc |}.

Lemma DocToCR_CRToDoc_witness : ∃ p', CRToDoc (DocToCR doc) = Ok p' ∧ doc_equiv doc p'.
Proof.
  apply (DocToCR_CRToDoc doc). intros s c Hs Hc _. apply list_elem_of_singleton in Hs as ->.
  apply list_elem_of_singleton in Hc as ->. split; [done|]. exists config.
  split; [reflexivity|apply veq_refl].
Defined.

Definition back : DocPipeline :=
  MkDocPipeline EmptyString EmptyString (MkDocGateway 0 0 0 0)
    [MkDocStage "extract" [MkDocComponent "a" "csv" EmptyString EmptyString config None (Some outs)
       (Some (MkDocResources "7" EmptyString))]].

Lemma CRToDoc_DocToCR_witness :
  CRToDoc (DocToCR doc) = Ok back ∧ p_Name (DocToCR back) = p_Name (DocToCR doc).
Proof.
  assert (CRToDoc (DocToCR doc) = Ok back) as H by (vm_compute; reflexivity).
  split; [exact H|]. apply (CRToDoc_DocToCR (DocToCR doc) back H).
Defined.

Lemma write_modes_total_witness :
  GetWriteModeForBucket (Some outs) "raw" = "APPEND" ∨ GetWriteModeForBucket (Some outs) "raw" = "FULL_LOAD".
Proof.
  apply (write_modes_total outs (default (MkOutputSpec EmptyString EmptyString [] [] []) (outputsToCRD (Some outs)))
    "raw"); [reflexivity| |done].
  apply (validateOutputs_ok "a" _ 0 0). vm_compute. reflexivity.
Defined.

Lemma ValidatePipelineDoc_accepts_witness :
  ∃ p, Parse "..." = Ok p ∧ d_Name p = EmptyString ∧ p_Name (DocToCR (with_name p "nightly")) = "nightly".
Proof.
  assert (errors (ValidatePipelineDoc (λ _, []) "..." "nightly" (None : option StaticRegistry) None).2 = [])
    as H by (vm_compute; reflexivity).
  apply (ValidatePipelineDoc_accepts (λ _, []) "..." "nightly" (None : option StaticRegistry) None) in H
    as (p & Hp & _ & Hn & _).
  exists p. injection Hp as <-. split; [reflexivity|]. split; reflexivity.
Defined.

Example legacy_example : yaml_probe (Yaml := {| yaml_probe _ := Ok [("kind", VStr "Pipeline")];
  yaml_strict _ := Ok doc |}) "..." = Ok [("kind", VStr "Pipeline")] ∧
  is_ok (Parse (Y := {| yaml_probe _ := Ok [("kind", VStr "Pipeline")]; yaml_strict _ := Ok doc |}) "...") = false.
Proof. split; reflexivity. Qed.
End DocExamples.
