(* ===== verification/Status.v ===== *)
(** * Status: exit codes and status messages (pkg/lib/status/status.go)

    The classification of exit codes, the status-message protocol of the
    component logs, and the sanitizer.  A message a component emits as the last
    marked line comes back unchanged; what comes back is always short and free
    of control bytes. *)

From S2P Require Import Prelude GoTime.

(** ** unicode and strings *)

(** [unicode.IsSpace]: the White_Space property. *)
Definition is_space (r : N) : bool :=
  ((9 <=? r)%N && (r <=? 13)%N) || (r =? 32)%N || (r =? 133)%N || (r =? 160)%N ||
  (r =? 5760)%N || ((8192 <=? r)%N && (r <=? 8202)%N) || (r =? 8232)%N || (r =? 8233)%N ||
  (r =? 8239)%N || (r =? 8287)%N || (r =? 12288)%N.
(** [unicode.IsControl]. *)
Definition is_control (r : N) : bool := (r <? 32)%N || ((127 <=? r)%N && (r <=? 159)%N).

Fixpoint drop_spaces (l : list rune_span) : list rune_span :=
  match l with
  | x :: l' => if is_space (rs_rune x) then drop_spaces l' else l
  | [] => []
  end.
Definition bytes_of (l : list rune_span) : string := foldr (λ x acc, rs_bytes x +:+ acc) EmptyString l.

(** [strings.TrimSpace]. *)
Definition TrimSpace (s : string) : string :=
  bytes_of (rev (drop_spaces (rev (drop_spaces (runes s))))).

(** ** status.go *)

Inductive FailureType : Type := FailureTypeNone | FailureTypeUser | FailureTypeApplication.

Definition StatusMessagePrefix : string := "DUPLET_STATUS_MESSAGE:".
Definition MaxMessageLength : nat := 1024.

Definition ClassifyExitCode (exitCode : Z) : FailureType :=
  if (exitCode =? 0)%Z then FailureTypeNone
  else if (exitCode =? 1)%Z then FailureTypeUser
  else FailureTypeApplication.

(** The rune the sanitizer writes, if any. *)
Definition sanitize_rune (r : N) : string :=
  if (r =? 10)%N || (r =? 13)%N then " "
  else if is_control r then EmptyString
  else utf8_encode r.

Definition SanitizeMessage (msg : string) : string :=
  let result := TrimSpace (foldr (λ x acc, sanitize_rune (rs_rune x) +:+ acc) EmptyString (runes msg)) in
  if (MaxMessageLength <? slen result)%nat then str_take MaxMessageLength result else result.

(** The digits are written from the end of a 20-byte array; [None] is an index
    out of range. *)
Fixpoint itoa_loop (slots : nat) (n : Z) (digits : string) : option (nat * string) :=
  if (0 <? n)%Z then
    match slots with
    | O => None
    | S slots => itoa_loop slots (n / 10) (String (byte_of (Z.to_N (48 + n mod 10))) digits)
    end
  else Some (slots, digits).
Definition status_itoa (n : Z) : option string :=
  if (n =? 0)%Z then Some "0"
  else
    let negative := (n <? 0)%Z in
    let n := if negative then wrap64 (- n) else n in
    match itoa_loop 20 n EmptyString with
    | None => None
    | Some (slots, digits) =>
      if negative then match slots with O => None | S _ => Some (String "-"%char digits) end
      else Some digits
    end.

(** The message of the last marked line, so far [last]. *)
Definition marked_line (last line : string) : string :=
  match cut_after StatusMessagePrefix (TrimSpace line) with
  | Some after => TrimSpace after
  | None => last
  end.

Definition newline_byte : ascii := "010"%char.

(** [None] is the panic of [status_itoa]. *)
Definition ExtractStatusMessage (logs : string) (exitCode : Z) : option string :=
  let lines := split_byte newline_byte logs in
  let lastStatusMsg := foldl marked_line EmptyString lines in
  if negb (str_empty lastStatusMsg) then Some (SanitizeMessage lastStatusMsg)
  else
    match find (λ l, negb (str_empty (TrimSpace l))) (rev lines) with
    | Some line => Some (SanitizeMessage (TrimSpace line))
    | None =>
      if negb (exitCode =? 0)%Z
      then code ← status_itoa exitCode; Some (SanitizeMessage ("component exited with code " +:+ code))
      else Some EmptyString
    end.

(** ** Specification *)

(** No control byte (a multi-byte rune has none). *)
Definition clean_byte (c : ascii) : bool := (32 <=? code c)%N && negb (code c =? 127)%N.
Definition printable (c : ascii) : bool := byte_between 32 126 c.
Definition no_edge_space (s : string) : Prop :=
  (∀ t, s ≠ String " "%char t) ∧ (∀ t, s ≠ t +:+ " ").

(** ** Lemmas: runes *)

Lemma bytes_of_app l1 l2 : bytes_of (l1 ++ l2) = bytes_of l1 +:+ bytes_of l2.
Proof. induction l1 as [|x l IH]; [done|]. simpl. by rewrite IH, str_app_assoc. Qed.

Lemma str_cons_app c s : String c s = String c EmptyString +:+ s.
Proof. done. Qed.

Lemma bytes_of_cons x l : bytes_of (x :: l) = rs_bytes x +:+ bytes_of l.
Proof. done. Qed.

Lemma land_mask x n : (N.land x (N.ones n) < 2 ^ n)%N.
Proof. rewrite N.land_ones. apply N.mod_lt. by apply N.pow_nonzero. Qed.

Lemma low6_lt c : (low6 c < 64)%N.
Proof. exact (land_mask (code c) 6). Qed.

Ltac low6_bounds := repeat match goal with |- context [low6 ?c] =>
  generalize (low6_lt c); generalize (low6 c); intros ? ? end.

Lemma code_lt c : (code c < 256)%N.
Proof. apply N_ascii_bounded. Qed.

(** Decoding a string splits it into the bytes of its runes, which are below
    2^21. *)
Lemma runes_spec s :
  bytes_of (runes s) = s ∧ Forall (λ x, (rs_rune x < 2097152)%N) (runes s).
Proof.
  remember (slen s) as n eqn:Hn. revert s Hn. induction (lt_wf n) as [n _ IH].
  intros s ->. destruct s as [|a s1]; [by split; [|constructor]|]. unfold slen in IH.
  assert (∀ x t u, String a s1 = rs_bytes x +:+ t → String.length t < String.length (String a s1) →
    (rs_rune x < 2097152)%N → u = x :: runes t →
    bytes_of u = String a s1 ∧ Forall (λ x, (rs_rune x < 2097152)%N) u) as Hstep.
  { intros x t u Hs Ht Hx ->. destruct (IH _ Ht t eq_refl) as [Hb Hf].
    rewrite bytes_of_cons, Hb. split; [done|by constructor]. }
  pose proof (code_lt a). pose proof (land_mask (code a) 5). pose proof (land_mask (code a) 4).
  pose proof (land_mask (code a) 3).
  change (N.ones 5) with 31%N in *. change (N.ones 4) with 15%N in *. change (N.ones 3) with 7%N in *.
  cbn [runes]. repeat case_match; (eapply Hstep; [| | |reflexivity]); cbn [rs_rune rs_bytes bad_rune];
    subst; first [reflexivity | simpl; lia | low6_bounds; unfold rune_error; lia].
Qed.

Lemma runes_bytes s : bytes_of (runes s) = s.
Proof. apply runes_spec. Qed.

(** What the bytes of a string satisfy, the trimmed string satisfies. *)
Lemma drop_spaces_suffix l : ∃ k, l = k ++ drop_spaces l.
Proof.
  induction l as [|x l [k IH]]; [by exists []|]. simpl. destruct (is_space _); [|by exists []].
  exists (x :: k). by rewrite IH at 1.
Qed.

Lemma TrimSpace_infix s : ∃ p q, s = p +:+ TrimSpace s +:+ q.
Proof.
  unfold TrimSpace. destruct (drop_spaces_suffix (runes s)) as [k1 H1].
  destruct (drop_spaces_suffix (rev (drop_spaces (runes s)))) as [k2 H2].
  exists (bytes_of k1), (bytes_of (rev k2)).
  rewrite <-!bytes_of_app. rewrite <-(rev_app_distr k2), <-H2, rev_involutive, <-H1.
  by rewrite runes_bytes.
Qed.

Lemma TrimSpace_forall P s : forall_byte P s = true → forall_byte P (TrimSpace s) = true.
Proof.
  destruct (TrimSpace_infix s) as (p & q & E). intros H. rewrite E, !forall_byte_app in H.
  by split_and_all.
Qed.

Lemma str_take_forall P n s : forall_byte P s = true → forall_byte P (str_take n s) = true.
Proof.
  revert s. induction n as [|n IH]; intros [|c s] H; try done. simpl in *. split_and_all.
  by rewrite H, IH.
Qed.

Lemma str_take_len n s : slen (str_take n s) ≤ n.
Proof.
  revert s. unfold slen. induction n as [|n IH]; intros [|c s]; simpl; try lia.
  specialize (IH s). lia.
Qed.

(** ** Lemmas: the sanitizer *)

Lemma code_byte_of n : (n < 256)%N → code (byte_of n) = n.
Proof. apply N_ascii_embedding. Qed.

Lemma clean_high k n m : (n < m)%N → (128 <= k)%N → (k + m <= 256)%N →
  clean_byte (byte_of (k + n)) = true.
Proof.
  intros H1 H2 H3. unfold clean_byte. rewrite code_byte_of by lia.
  apply andb_true_iff. split; [apply N.leb_le; lia|]. apply negb_true_iff, N.eqb_neq. lia.
Qed.

Lemma utf8_encode_clean r : (r < 2097152)%N → is_control r = false →
  forall_byte clean_byte (utf8_encode r) = true.
Proof.
  intros Hr Hc. unfold is_control in Hc. split_and_all. to_arith. apply andb_false_iff in H0.
  assert (∀ x, clean_byte (byte_of (128 + x mod 64)) = true) as Hm
    by (intros x; by apply (clean_high _ _ 64); [apply N.mod_lt|..]).
  unfold utf8_encode. destruct (r <? 128)%N eqn:E1; to_arith.
  { cbn [forall_byte]. rewrite andb_true_r. unfold clean_byte. rewrite code_byte_of by lia.
    apply andb_true_iff. split; [apply N.leb_le; lia|]. apply negb_true_iff, N.eqb_neq.
    destruct H0; to_arith; lia. }
  destruct (r <? 2048)%N eqn:E2; to_arith; [|destruct (r <? 65536)%N eqn:E3; to_arith];
    cbn [forall_byte]; rewrite !Hm, !andb_true_r.
  - apply (clean_high _ _ 32); [by apply N.Div0.div_lt_upper_bound|done..].
  - apply (clean_high _ _ 16); [by apply N.Div0.div_lt_upper_bound|done..].
  - apply (clean_high _ _ 8); [by apply N.Div0.div_lt_upper_bound|done..].
Qed.

Lemma sanitize_rune_clean r : (r < 2097152)%N → forall_byte clean_byte (sanitize_rune r) = true.
Proof.
  intros Hr. unfold sanitize_rune. destruct (_ || _); [done|].
  destruct (is_control r) eqn:E; [done|by apply utf8_encode_clean].
Qed.

Lemma SanitizeMessage_clean msg :
  forall_byte clean_byte (SanitizeMessage msg) = true ∧ slen (SanitizeMessage msg) ≤ MaxMessageLength.
Proof.
  unfold SanitizeMessage. set (body := foldr _ _ (runes msg)).
  assert (forall_byte clean_byte (TrimSpace body) = true) as H.
  { apply TrimSpace_forall. unfold body. destruct (runes_spec msg) as [_ Hf].
    induction Hf as [|x l Hx _ IH]; [done|]. simpl.
    by rewrite forall_byte_app, sanitize_rune_clean, IH. }
  destruct (MaxMessageLength <? slen (TrimSpace body))%nat eqn:E.
  - split; [by apply str_take_forall|apply str_take_len].
  - apply Nat.ltb_ge in E. done.
Qed.

(** ** Lemmas: printable messages *)

Definition ascii_rune (c : ascii) : rune_span := MkRune (code c) (String c EmptyString) false.

Lemma runes_app_ascii s c : forall_byte printable s = true → printable c = true →
  runes (s +:+ String c EmptyString) = runes s ++ [ascii_rune c].
Proof.
  assert (∀ d t, printable d = true → runes (String d t) = ascii_rune d :: runes t) as Hd.
  { intros d t H. unfold printable, byte_between in H. split_and_all. to_arith. cbn [runes].
    destruct (code d <? 128)%N eqn:E; to_arith; [done|lia]. }
  intros Hs Hc. induction s as [|d s IH]; simpl in Hs.
  - change (EmptyString +:+ String c EmptyString) with (String c EmptyString). by rewrite Hd.
  - split_and_all. change (String d s +:+ String c EmptyString) with (String d (s +:+ String c EmptyString)).
    by rewrite !Hd, IH.
Qed.

Lemma runes_cons_ascii c s : printable c = true → runes (String c s) = ascii_rune c :: runes s.
Proof.
  intros H. unfold printable, byte_between in H. split_and_all. to_arith. cbn [runes].
  destruct (code c <? 128)%N eqn:E; to_arith; [done|lia].
Qed.

Lemma printable_space c : printable c = true → c ≠ " "%char → is_space (code c) = false.
Proof.
  unfold printable, byte_between. intros H Hc. split_and_all. to_arith.
  assert (code c ≠ 32)%N.
  { intros E. apply Hc. rewrite <-(ascii_N_embedding c). change (N_of_ascii c) with (code c). by rewrite E. }
  unfold is_space. repeat (apply orb_false_iff; split); try (apply N.eqb_neq; lia);
    apply andb_false_iff; try (left; apply N.leb_gt; lia); right; apply N.leb_gt; lia.
Qed.

Lemma TrimSpace_id s : forall_byte printable s = true → no_edge_space s → TrimSpace s = s.
Proof.
  intros Hp [Hl Hr]. destruct s as [|c s0]; [done|].
  assert (drop_spaces (runes (String c s0)) = runes (String c s0)) as H1.
  { simpl in Hp. split_and_all. rewrite runes_cons_ascii by done. simpl.
    rewrite printable_space; [done|done|]. intros ->. by apply (Hl s0). }
  destruct (cut_last (String c s0)) as [[t d]|] eqn:E.
  2: { simpl in E. by destruct (cut_last s0) as [[]|]. }
  apply cut_last_Some in E. rewrite E in *. rewrite forall_byte_app in Hp. simpl in Hp. split_and_all.
  unfold TrimSpace. rewrite H1, runes_app_ascii, rev_app_distr by done. cbn [rev app drop_spaces].
  cbn [rs_rune ascii_rune]. rewrite printable_space; [|done|].
  - change (ascii_rune d :: rev (runes t)) with ([ascii_rune d] ++ rev (runes t)).
    rewrite rev_app_distr, rev_involutive. cbn [rev app].
    rewrite <-runes_app_ascii by done. apply runes_bytes.
  - intros ->. by apply (Hr t).
Qed.

Lemma Sanitize_id s : forall_byte printable s = true → no_edge_space s → slen s ≤ MaxMessageLength →
  SanitizeMessage s = s.
Proof.
  intros Hp He Hlen. unfold SanitizeMessage.
  assert (foldr (λ x acc, sanitize_rune (rs_rune x) +:+ acc) EmptyString (runes s) = s) as ->.
  { clear He Hlen. induction s as [|c s IH]; [done|]. simpl in Hp. split_and_all.
    rewrite runes_cons_ascii by done. cbn [foldr rs_rune ascii_rune]. rewrite IH by done.
    unfold printable, byte_between in H. split_and_all. to_arith. unfold sanitize_rune, is_control.
    destruct (code c =? 10)%N eqn:E1; to_arith; [lia|]. destruct (code c =? 13)%N eqn:E2; to_arith; [lia|].
    destruct (code c <? 32)%N eqn:E3; to_arith; [lia|]. destruct (127 <=? code c)%N eqn:E4; to_arith; [lia|].
    simpl. unfold utf8_encode. destruct (code c <? 128)%N eqn:E5; to_arith; [|lia].
    unfold byte_of, code. by rewrite ascii_N_embedding. }
  rewrite TrimSpace_id by done. apply Nat.ltb_ge in Hlen. by rewrite Hlen.
Qed.

(** ** Lemmas: lines *)

Lemma split_byte_nonempty b s : split_byte b s ≠ [].
Proof. destruct s as [|c s]; [done|]. simpl. destruct (Ascii.eqb c b); [done|]. by destruct split_byte. Qed.

Lemma split_byte_app b s t :
  split_byte b (s +:+ String b t) = split_byte b s ++ split_byte b t.
Proof.
  induction s as [|c s IH].
  - change (EmptyString +:+ String b t) with (String b t). simpl. by rewrite Ascii.eqb_refl.
  - change (String c s +:+ String b t) with (String c (s +:+ String b t)). simpl. rewrite IH.
    destruct (Ascii.eqb c b); [done|]. pose proof (split_byte_nonempty b s).
    by destruct (split_byte b s).
Qed.

Lemma split_byte_one b s : forall_byte (λ c, negb (Ascii.eqb c b)) s = true → split_byte b s = [s].
Proof.
  induction s as [|c s IH]; [done|]. simpl. intros H. split_and_all.
  by rewrite H, IH.
Qed.

Lemma cut_prefix_self p s : cut_prefix p (p +:+ s) = Some s.
Proof.
  induction p as [|c p IH]; [by destruct s|].
  change (String c p +:+ s) with (String c (p +:+ s)). simpl. by rewrite Ascii.eqb_refl.
Qed.

Lemma cut_after_app p s : cut_after p (p +:+ s) = Some s.
Proof. destruct (p +:+ s) as [|c r] eqn:E; simpl; by rewrite <-E, cut_prefix_self. Qed.

Lemma no_newline s : forall_byte printable s = true →
  forall_byte (λ c, negb (Ascii.eqb c newline_byte)) s = true.
Proof.
  apply forall_byte_impl. intros c H. by destruct (Ascii.eqb_spec c newline_byte) as [->|].
Qed.

Lemma marked_line_message last m : forall_byte printable m = true → m ≠ EmptyString → no_edge_space m →
  marked_line last (StatusMessagePrefix +:+ m) = m.
Proof.
  intros Hp Hm He. unfold marked_line. rewrite TrimSpace_id, cut_after_app.
  - by apply TrimSpace_id.
  - by rewrite forall_byte_app, Hp.
  - destruct He as [_ Hr]. split; [done|]. intros t E.
    destruct (cut_last m) as [[r l]|] eqn:El.
    + apply cut_last_Some in El. subst m. rewrite <-str_app_assoc in E.
      pose proof (proj2 (cut_last_Some _ _ _) E) as E1.
      rewrite (proj2 (cut_last_Some _ _ l) eq_refl) in E1. simplify_eq. by apply (Hr r).
    + destruct m as [|c m]; [done|]. simpl in El. by destruct (cut_last m) as [[]|].
Qed.

(** ** Lemmas: itoa *)

Lemma digit_char d : (d < 10)%N → pretty_N_char d = byte_of (48 + d).
Proof.
  intros Hx. assert (d = 0 ∨ d = 1 ∨ d = 2 ∨ d = 3 ∨ d = 4 ∨ d = 5 ∨ d = 6 ∨ d = 7 ∨ d = 8
    ∨ d = 9)%N as Hc by lia. by destruct_or! Hc; subst.
Qed.

(** A number of [e] digits takes [e] slots. *)
Lemma itoa_loop_pretty e slots n digits : (0 ≤ n < 10 ^ Z.of_nat e)%Z → e ≤ slots →
  ∃ k, itoa_loop slots n digits = Some (k, pretty_N_go (Z.to_N n) digits) ∧ slots - e ≤ k.
Proof.
  revert slots n digits. induction e as [|e IH]; intros slots n digits Hn He.
  { assert (n = 0%Z) as -> by (simpl in Hn; lia). exists slots. destruct slots; simpl; split; lia || done. }
  destruct slots as [|slots]; [lia|]. cbn [itoa_loop]. destruct (0 <? n)%Z eqn:E; to_arith.
  - rewrite Nat2Z.inj_succ, Z.pow_succ_r in Hn by lia.
    destruct (IH slots (n / 10)%Z (String (byte_of (Z.to_N (48 + n mod 10))) digits)) as (k & Hk & Hle);
      [split; [apply Z.div_pos|apply Z.div_lt_upper_bound]; lia|lia|].
    exists k. split; [|lia]. rewrite Hk. do 2 f_equal.
    destruct n as [|p|p]; [lia| |lia]. rewrite (pretty_N_go_step (Z.to_N (Z.pos p))) by done.
    rewrite digit_char by (by apply N.mod_lt). f_equal; [by rewrite Z2N.inj_div|]. do 2 f_equal.
    rewrite Z2N.inj_add by (done || by apply Z.mod_pos_bound). by rewrite Z2N.inj_mod.
  - assert (n = 0%Z) as -> by lia. exists (S slots). split; [done|lia].
Qed.

(** ** Properties *)

(** What is reported of a component is at most 1024 bytes long and has no
    control byte, and no newline in particular, whatever its logs hold. *)
Theorem ExtractStatusMessage_clean (logs msg : string) (exitCode : Z)
    (H : ExtractStatusMessage logs exitCode = Some msg) :
  forall_byte clean_byte msg = true ∧ slen msg ≤ MaxMessageLength.
Proof.
  unfold ExtractStatusMessage in H. destruct (negb (str_empty _)).
  { injection H as <-. apply SanitizeMessage_clean. }
  destruct (find _ _); [injection H as <-; apply SanitizeMessage_clean|].
  destruct (negb _); [|injection H as <-; split; [done|unfold slen; simpl; lia]].
  destruct (status_itoa exitCode); simpl in H; [|done]. injection H as <-. apply SanitizeMessage_clean.
Qed.

(** A message a component prints after the marker, as its last marked line,
    is reported unchanged: for every printable message of at most 1024 bytes
    without a space at its ends, whatever the lines before and after. *)
Theorem status_message_roundtrip (logs m rest : string) (exitCode : Z)
    (Hp : forall_byte printable m = true) (Hne : m ≠ EmptyString) (Hedge : no_edge_space m)
    (Hlen : slen m ≤ MaxMessageLength)
    (Hrest : ∀ line, line ∈ split_byte newline_byte rest →
      cut_after StatusMessagePrefix (TrimSpace line) = None) :
  ExtractStatusMessage (logs +:+ String newline_byte (StatusMessagePrefix +:+ m +:+
                          String newline_byte rest)) exitCode = Some m.
Proof.
  unfold ExtractStatusMessage. rewrite split_byte_app, <-str_app_assoc, split_byte_app.
  rewrite (split_byte_one newline_byte (StatusMessagePrefix +:+ m)) by (by apply no_newline; rewrite forall_byte_app, Hp).
  rewrite !foldl_app. cbn [foldl]. rewrite marked_line_message by done.
  assert (foldl marked_line m (split_byte newline_byte rest) = m) as ->.
  { clear -Hrest. induction (split_byte newline_byte rest) as [|l ls IH]; [done|]. simpl.
    unfold marked_line at 2. rewrite Hrest by constructor. apply IH. intros. apply Hrest. by constructor. }
  apply str_empty_false in Hne. rewrite Hne. simpl. by rewrite Sanitize_id.
Qed.

(** The hand-written itoa prints every int but the smallest in decimal,
    within its 20-byte buffer; the smallest, whose negation wraps around, it
    prints as a lone sign. *)
Theorem status_itoa_correct (n : Z) :
  ((min_int64 < n ≤ max_int64)%Z → status_itoa n = Some (itoa n)) ∧
  status_itoa min_int64 = Some "-".
Proof.
  split; [|by vm_compute]. intros Hn. unfold status_itoa. destruct (n =? 0)%Z eqn:E0; to_arith; [by subst|].
  destruct (n <? 0)%Z eqn:E1; to_arith.
  - rewrite wrap64_id by (unfold min_int64, max_int64 in *; lia).
    destruct (itoa_loop_pretty 19 20 (- n) EmptyString) as (k & -> & Hk);
      [unfold min_int64, two63 in *; lia|lia|].
    destruct k as [|k]; [lia|]. destruct n as [|p|p]; [lia..|]. done.
  - destruct (itoa_loop_pretty 19 20 n EmptyString) as (k & -> & Hk);
      [unfold max_int64, two63 in *; lia|lia|]. by destruct n.
Qed.

Module StatusExamples.
Lemma status_message_roundtrip_witness :
  ExtractStatusMessage ("starting" +:+ String newline_byte (StatusMessagePrefix +:+ "bad column" +:+
    String newline_byte "bye")) 1 = Some "bad column".
Proof.
  apply (status_message_roundtrip "starting" "bad column" "bye" 1).
  - reflexivity.
  - discriminate.
  - split; [discriminate|]. intros t E. apply (f_equal cut_last) in E.
    pose proof (proj2 (cut_last_Some (t +:+ " ") t " "%char) eq_refl) as E2. rewrite E2 in E. discriminate.
  - vm_compute. lia.
  - intros line Hl. apply list_elem_of_singleton in Hl as ->. reflexivity.
Defined.

Lemma ExtractStatusMessage_clean_witness :
  ExtractStatusMessage (String newline_byte EmptyString) 137 = Some "component exited with code 137" ∧
  slen "component exited with code 137" ≤ MaxMessageLength.
Proof.
  assert (ExtractStatusMessage (String newline_byte EmptyString) 137 = Some "component exited with code 137")
    as H by (vm_compute; reflexivity).
  split; [exact H|]. apply (ExtractStatusMessage_clean _ _ _ H).
Defined.

Lemma status_itoa_correct_witness : status_itoa (-42) = Some "-42".
Proof. apply (status_itoa_correct (-42)). split; reflexivity || discriminate. Defined.
End StatusExamples.
