(* ===== verification/SqlParams.v ===== *)
(** * SqlParams: placeholders and parameters of a query (components/queryengine)

    [ValidateParams] and [bindArgs] of params.go with the scanner of the SQL
    text, and [escapeSQL] of sqlescape.go.  The scanner is proved equal to a
    lexical grammar of the text; numbers are exact rationals.  Positions in the
    text are suffixes: the offset [i] of the code is [slen sql - slen rest]. *)

From Stdlib Require Import SpecFloat.
From S2P Require Import Prelude GoValue ApiTypes GoTime Status.

(** ** Characters *)

Definition isDigit (c : ascii) : bool := is_digit_byte c.
Definition isNameStart (c : ascii) : bool :=
  is_lower_byte c || is_upper_byte c || Ascii.eqb c "_"%char.
Definition isNameChar (c : ascii) : bool := isNameStart c || isDigit c.

Definition maxNameLen : nat := 64.
Definition maxSafeInteger : Z := 9007199254740991.

(** ** The scanner *)

Record span := MkSpan { sp_offset : nat; sp_name : string }.

(** After the opening quote [q]: what follows the closing one. *)
Fixpoint skipQuoted (q : ascii) (s : string) : string :=
  match s with
  | EmptyString => EmptyString
  | String c s' =>
    if Ascii.eqb c q then
      match s' with
      | String d s'' => if Ascii.eqb d q then skipQuoted q s'' else s'
      | EmptyString => s'
      end
    else skipQuoted q s'
  end.

(** After the opening delimiter: what follows the closing one. *)
Definition skipDollarQuoted (delim body : string) : string := default EmptyString (cut_after delim body).

(** After [--]: the newline, not consumed, or the end. *)
Fixpoint skipLineComment (s : string) : string :=
  match s with
  | EmptyString => EmptyString
  | String c s' => if Ascii.eqb c newline_byte then s else skipLineComment s'
  end.

(** After the opener, inside [depth] comments. *)
Fixpoint skipBlockComment (depth : nat) (s : string) : string :=
  match s with
  | String a s' =>
    match s' with
    | String b s'' =>
      if Ascii.eqb a "/"%char && Ascii.eqb b "*"%char then skipBlockComment (S depth) s''
      else if Ascii.eqb a "*"%char && Ascii.eqb b "/"%char then
        match depth with S (S d) => skipBlockComment (S d) s'' | _ => s'' end
      else skipBlockComment depth s'
    | EmptyString => EmptyString
    end
  | EmptyString => EmptyString
  end.

(** After a [$] at offset [i]: where to go on, and the placeholder. *)
Definition scanDollar (i : nat) (s : string) : string * option span :=
  let (tag, rest) := span_byte isNameChar s in
  let starts := match tag with String c _ => isNameStart c | EmptyString => false end in
  let validTag := str_empty tag || starts in
  match validTag, cut_prefix "$" rest with
  | true, Some body => (skipDollarQuoted ("$" +:+ tag +:+ "$") body, None)
  | _, _ => if starts then (rest, Some (MkSpan (S i) tag)) else (s, None)
  end.

(** The loop, for a text of length [n]; each round consumes a byte. *)
Fixpoint spans_loop (fuel n : nat) (s : string) : list span :=
  match fuel with
  | O => []
  | S fuel =>
    match s with
    | EmptyString => []
    | String c s' =>
      if Ascii.eqb c "'"%char || Ascii.eqb c dquote then spans_loop fuel n (skipQuoted c s')
      else if Ascii.eqb c "-"%char && has_prefix "-" s' then
        spans_loop fuel n (skipLineComment (str_drop 1 s'))
      else if Ascii.eqb c "/"%char && has_prefix "*" s' then
        spans_loop fuel n (skipBlockComment 1 (str_drop 1 s'))
      else if Ascii.eqb c "$"%char then
        let (next, sp) := scanDollar (n - slen s) s' in
        match sp with Some sp => sp :: spans_loop fuel n next | None => spans_loop fuel n next end
      else spans_loop fuel n s'
    end
  end.
Definition placeholderSpans (sql : string) : list span := spans_loop (slen sql) (slen sql) sql.

(** ** escapeSQL *)

Fixpoint escapeSQL (s : string) : string :=
  match s with
  | EmptyString => EmptyString
  | String c s => if Ascii.eqb c "'"%char then String c (String c (escapeSQL s)) else String c (escapeSQL s)
  end.

(** ** A lexical grammar of the text *)

Definition is_quote (c : ascii) : bool := Ascii.eqb c "'"%char || Ascii.eqb c dquote.
(** The inside of a quoted string: its quotes are doubled. *)
Inductive quoted_body (q : ascii) : string → Prop :=
| qb_nil : quoted_body q EmptyString
| qb_char c b : c ≠ q → quoted_body q b → quoted_body q (String c b)
| qb_quote b : quoted_body q b → quoted_body q (String q (String q b)).

(** [comment d s rest]: [s], inside [d] comments, ends them all before [rest]. *)
Inductive comment : nat → string → string → Prop :=
| cm_last rest : comment 1 (String "*" (String "/" rest)) rest
| cm_close d s rest : comment (S d) s rest → comment (S (S d)) (String "*" (String "/" s)) rest
| cm_open d s rest : comment (S d) s rest → comment d (String "/" (String "*" s)) rest
| cm_char d c s rest : has_prefix "*/" (String c s) = false → has_prefix "/*" (String c s) = false →
    comment d s rest → comment d (String c s) rest.

Definition starts_name (s : string) : bool :=
  match s with String c _ => isNameStart c | EmptyString => false end.
(** A name, not followed by one of its characters. *)
Definition name_before (name rest : string) : Prop :=
  forall_byte isNameChar name = true ∧ head_not isNameChar rest = true.
Definition tag_before (tag rest : string) : Prop :=
  name_before tag rest ∧ (tag = EmptyString ∨ starts_name tag = true).

(** [lex o s l]: the text [s], at offset [o], has the placeholders [l]. *)
Inductive lex : nat → string → list span → Prop :=
| lex_end o : lex o EmptyString []
| lex_quoted o q b rest l : is_quote q = true → quoted_body q b → head_not (Ascii.eqb q) rest = true →
    lex (o + 2 + slen b) rest l → lex o (String q (b +:+ String q rest)) l
| lex_quoted_open o q b : is_quote q = true → quoted_body q b → lex o (String q b) []
| lex_line o b rest l : forall_byte (λ c, negb (Ascii.eqb c newline_byte)) b = true →
    (rest = EmptyString ∨ has_prefix (String newline_byte EmptyString) rest = true) →
    lex (o + 2 + slen b) rest l → lex o ("--" +:+ b +:+ rest) l
| lex_block o s rest l : comment 1 s rest → lex (o + 2 + (slen s - slen rest)) rest l → lex o ("/*" +:+ s) l
| lex_block_open o s : (∀ rest, ¬ comment 1 s rest) → lex o ("/*" +:+ s) []
| lex_dollar o tag body rest l : tag_before tag (String "$" body) →
    cut_after ("$" +:+ tag +:+ "$") body = Some rest →
    lex (o + 2 + slen tag + (slen body - slen rest)) rest l → lex o ("$" +:+ tag +:+ "$" +:+ body) l
| lex_dollar_open o tag body : tag_before tag (String "$" body) →
    cut_after ("$" +:+ tag +:+ "$") body = None → lex o ("$" +:+ tag +:+ "$" +:+ body) []
| lex_placeholder o name rest l : name_before name rest → starts_name name = true →
    has_prefix "$" rest = false → lex (o + 1 + slen name) rest l →
    lex o ("$" +:+ name +:+ rest) (MkSpan (S o) name :: l)
| lex_sigil o s l :
    (* a dollar that starts neither a literal nor a placeholder *)
    starts_name s = false →
    (∀ tag body, tag_before tag (String "$" body) → s ≠ tag +:+ "$" +:+ body) →
    lex (S o) s l → lex o (String "$" s) l
| lex_char o c s l : is_quote c = false → c ≠ "$"%char → has_prefix "--" (String c s) = false →
    has_prefix "/*" (String c s) = false → lex (S o) s l → lex o (String c s) l.

(** ** Lemmas: the skipping functions *)

Ltac len := unfold slen in *; cbn [String.length] in *; lia.

Lemma skipQuoted_2 q c d s : skipQuoted q (String c (String d s)) =
  if Ascii.eqb c q then if Ascii.eqb d q then skipQuoted q s else String d s else skipQuoted q (String d s).
Proof. done. Qed.
Lemma skipBlock_2 d a b s : skipBlockComment d (String a (String b s)) =
  if Ascii.eqb a "/" && Ascii.eqb b "*" then skipBlockComment (S d) s
  else if Ascii.eqb a "*" && Ascii.eqb b "/" then
    match d with S (S d) => skipBlockComment (S d) s | _ => s end
  else skipBlockComment d (String b s).
Proof. done. Qed.

Lemma skipQuoted_len_aux q n s : slen s ≤ n → slen (skipQuoted q s) ≤ slen s.
Proof.
  revert s. induction n as [|n IH]; intros [|c [|d s]] H; try (cbn [skipQuoted]; len).
  - cbn [skipQuoted]. destruct (Ascii.eqb c q); len.
  - rewrite skipQuoted_2. specialize (IH s) as IH1. specialize (IH (String d s)) as IH2.
    destruct (Ascii.eqb c q); [destruct (Ascii.eqb d q)|]; len.
Qed.
Lemma skipQuoted_len q s : slen (skipQuoted q s) ≤ slen s.
Proof. by apply (skipQuoted_len_aux q (slen s)). Qed.
Lemma skipLine_len s : slen (skipLineComment s) ≤ slen s.
Proof. induction s as [|c s IH]; cbn [skipLineComment]; [len|]. destruct (Ascii.eqb c newline_byte); len. Qed.
Lemma skipBlock_len_aux n d s : slen s ≤ n → slen (skipBlockComment d s) ≤ slen s.
Proof.
  revert d s. induction n as [|n IH]; intros d [|a [|b s]] H; try (cbn [skipBlockComment]; len).
  rewrite skipBlock_2.
  assert (∀ d, slen (skipBlockComment d s) ≤ slen s) as Hs by (intros; apply IH; len).
  specialize (IH d (String b s)).
  destruct (Ascii.eqb a "/" && Ascii.eqb b "*"); [specialize (Hs (S d)); len|].
  destruct (Ascii.eqb a "*" && Ascii.eqb b "/"); [|len].
  destruct d as [|[|d]]; [len..|]. specialize (Hs (S d)). len.
Qed.
Lemma skipBlock_len d s : slen (skipBlockComment d s) ≤ slen s.
Proof. by apply (skipBlock_len_aux (slen s)). Qed.
Lemma cut_prefix_app p s r : cut_prefix p s = Some r ↔ s = p +:+ r.
Proof.
  revert s. induction p as [|c p IH]; intros s; simpl; [naive_solver|].
  destruct s as [|d s]; [done|]. destruct (Ascii.eqb_spec c d) as [->|Hne].
  - rewrite IH. split; [by intros ->|by intros [= ->]].
  - split; [done|]. intros [= ? _]. by destruct Hne.
Qed.
Lemma cut_after_len sub s r : cut_after sub s = Some r → slen r ≤ slen s.
Proof.
  assert (∀ s r, cut_prefix sub s = Some r → slen r ≤ slen s) as Hp.
  { intros ? ? ->%cut_prefix_app. rewrite slen_app. lia. }
  induction s as [|c s IH]; cbn [cut_after].
  - destruct (cut_prefix sub EmptyString) eqn:E; [|done]. intros [= <-]. by apply Hp in E.
  - destruct (cut_prefix sub (String c s)) eqn:E; [intros [= <-]; by apply Hp in E|]. intros H%IH. len.
Qed.

Lemma skipQuoted_body q b rest : quoted_body q b → head_not (Ascii.eqb q) rest = true →
  skipQuoted q (b +:+ String q rest) = rest.
Proof.
  intros Hb Hr. induction Hb as [|c b Hne Hb IH|b Hb IH].
  - rewrite ?str_nil_app, ?str_app_cons; cbn [skipQuoted]. rewrite Ascii.eqb_refl. destruct rest as [|d rest]; [done|]. cbn [head_not] in Hr.
    rewrite Ascii.eqb_sym. by destruct (Ascii.eqb q d).
  - rewrite ?str_nil_app, ?str_app_cons; cbn [skipQuoted]. apply Ascii.eqb_neq in Hne. by rewrite Hne.
  - by rewrite !str_app_cons, skipQuoted_2, !Ascii.eqb_refl.
Qed.
Lemma skipQuoted_open q b : quoted_body q b → skipQuoted q b = EmptyString.
Proof.
  induction 1 as [|c b Hne Hb IH|b Hb IH]; [done| |].
  - cbn [skipQuoted]. apply Ascii.eqb_neq in Hne. by rewrite Hne.
  - by rewrite skipQuoted_2, !Ascii.eqb_refl.
Qed.
Lemma skipQuoted_split q s : quoted_body q s ∨
  ∃ b, quoted_body q b ∧ head_not (Ascii.eqb q) (skipQuoted q s) = true ∧ s = b +:+ String q (skipQuoted q s).
Proof.
  remember (slen s) as n eqn:Hn. revert s Hn. induction n as [n IH] using lt_wf_ind. intros [|c s] ->.
  { left. constructor. }
  destruct (Ascii.eqb_spec c q) as [->|Hne].
  - destruct s as [|d s].
    { right. exists EmptyString. cbn [skipQuoted]. rewrite Ascii.eqb_refl. split_and!; try done. constructor. }
    rewrite skipQuoted_2, Ascii.eqb_refl. destruct (Ascii.eqb_spec d q) as [->|Hd].
    + destruct (IH (slen s) ltac:(len) s eq_refl) as [H|(b & Hb & Hh & Hs)]; [left; by constructor|right].
      exists (String q (String q b)). split_and!; [by constructor|done|]. rewrite !str_app_cons. by rewrite <-Hs.
    + right. exists EmptyString. split_and!; [constructor| |done]. cbn [head_not].
      rewrite Ascii.eqb_sym. by apply Ascii.eqb_neq in Hd as ->.
  - cbn [skipQuoted]. pose proof (proj2 (Ascii.eqb_neq c q) Hne) as ->.
    destruct (IH (slen s) ltac:(len) s eq_refl) as [H|(b & Hb & Hh & Hs)]; [left; by constructor|right].
    exists (String c b). split_and!; [by constructor|done|]. rewrite !str_app_cons. by rewrite <-Hs.
Qed.

Definition ends_line (s : string) : Prop :=
  s = EmptyString ∨ has_prefix (String newline_byte EmptyString) s = true.
Lemma skipLine_body b rest : forall_byte (λ c, negb (Ascii.eqb c newline_byte)) b = true → ends_line rest →
  skipLineComment (b +:+ rest) = rest.
Proof.
  intros Hb Hr. induction b as [|c b IH].
  - destruct Hr as [->|Hr]; [done|]. destruct rest as [|c rest]; [done|]. unfold has_prefix in Hr.
    cbn [cut_prefix] in Hr. rewrite ?str_nil_app, ?str_app_cons; cbn [skipLineComment]. rewrite Ascii.eqb_sym. by destruct (Ascii.eqb newline_byte c).
  - cbn [forall_byte] in Hb. apply andb_true_iff in Hb as [Hc Hb]. rewrite ?str_nil_app, ?str_app_cons; cbn [skipLineComment].
    destruct (Ascii.eqb c newline_byte); [done|auto].
Qed.
Lemma skipLine_split s : ∃ b, forall_byte (λ c, negb (Ascii.eqb c newline_byte)) b = true ∧
  ends_line (skipLineComment s) ∧ s = b +:+ skipLineComment s.
Proof.
  induction s as [|c s (b & Hb & He & Hs)]; [exists EmptyString; split_and!; try done; by left|].
  cbn [skipLineComment]. destruct (Ascii.eqb c newline_byte) eqn:E.
  - exists EmptyString. split_and!; try done. right. apply Ascii.eqb_eq in E as ->. done.
  - exists (String c b). split_and!; [|done|rewrite str_app_cons; by rewrite <-Hs]. cbn [forall_byte]. by rewrite E.
Qed.

Lemma has_prefix2 a b c d s : has_prefix (String a (String b EmptyString)) (String c (String d s)) =
  Ascii.eqb a c && Ascii.eqb b d.
Proof. unfold has_prefix. cbn [cut_prefix]. by destruct (Ascii.eqb a c), (Ascii.eqb b d). Qed.
Lemma has_prefix2_1 a b c : has_prefix (String a (String b EmptyString)) (String c EmptyString) = false.
Proof. unfold has_prefix. cbn [cut_prefix]. by destruct (Ascii.eqb a c). Qed.

Lemma skipBlock_comment d s rest : comment d s rest → 1 ≤ d → skipBlockComment d s = rest.
Proof.
  induction 1 as [rest|d s rest Hc IH|d s rest Hc IH|d c s rest Hn1 Hn2 Hc IH]; intros Hd.
  - done.
  - rewrite skipBlock_2. cbn. apply IH. lia.
  - rewrite skipBlock_2. cbn. apply IH. lia.
  - destruct s as [|b s]; [inv Hc|]. rewrite has_prefix2 in Hn1, Hn2. rewrite skipBlock_2.
    rewrite (Ascii.eqb_sym c "/"), (Ascii.eqb_sym b "*"), (Ascii.eqb_sym c "*"), (Ascii.eqb_sym b "/").
    rewrite Hn1, Hn2. auto.
Qed.
Lemma skipBlock_split d s : 1 ≤ d →
  comment d s (skipBlockComment d s) ∨ (∀ r, ¬ comment d s r) ∧ skipBlockComment d s = EmptyString.
Proof.
  remember (slen s) as n eqn:Hn. revert d s Hn. induction n as [n IH] using lt_wf_ind.
  intros d [|a [|b s]] -> Hd.
  { right. split; [by intros r Hr; inv Hr|done]. }
  { right. split; [|done]. intros r Hr. inv Hr. by match goal with H : comment _ EmptyString _ |- _ => inv H end. }
  rewrite skipBlock_2. destruct (Ascii.eqb a "/" && Ascii.eqb b "*") eqn:E1.
  { apply andb_true_iff in E1 as [->%Ascii.eqb_eq ->%Ascii.eqb_eq].
    destruct (IH (slen s) ltac:(len) (S d) s eq_refl ltac:(lia)) as [H|[Hno He]]; [left; by apply cm_open|right].
    split; [|done]. intros r Hr. inv Hr. by eapply Hno. }
  destruct (Ascii.eqb a "*" && Ascii.eqb b "/") eqn:E2.
  { apply andb_true_iff in E2 as [->%Ascii.eqb_eq ->%Ascii.eqb_eq].
    destruct d as [|[|d]]; [lia|left; by apply cm_last|].
    destruct (IH (slen s) ltac:(len) (S d) s eq_refl ltac:(lia)) as [H|[Hno He]]; [left; by apply cm_close|right].
    split; [|done]. intros r Hr. inv Hr. by eapply Hno. }
  assert (has_prefix "/*" (String a (String b s)) = false ∧ has_prefix "*/" (String a (String b s)) = false)
    as [H1 H2].
  { by rewrite !has_prefix2, !(Ascii.eqb_sym _ a), !(Ascii.eqb_sym _ b). }
  destruct (IH (slen (String b s)) ltac:(len) d (String b s) eq_refl Hd) as [H|[Hno He]]; [left; by apply cm_char|right].
  split; [|done]. intros r Hr. inv Hr; try done. by eapply Hno.
Qed.

(** ** Lemmas: the scanner *)

Lemma span_name s : let (tag, rest) := span_byte isNameChar s in s = tag +:+ rest ∧ name_before tag rest.
Proof.
  induction s as [|c s IH]; cbn [span_byte]; [done|]. destruct (isNameChar c) eqn:E.
  - destruct (span_byte isNameChar s) as [tag rest]. destruct IH as (-> & Hk & Hr).
    split; [by rewrite str_app_cons|]. split; [|done]. cbn [forall_byte]. by rewrite E.
  - split; [done|]. split; [done|]. cbn [head_not]. by rewrite E.
Qed.
Lemma span_name_app tag rest : name_before tag rest → span_byte isNameChar (tag +:+ rest) = (tag, rest).
Proof. intros []. by apply span_byte_app. Qed.

Lemma has_prefix_cut p s : has_prefix p s = true ↔ ∃ r, s = p +:+ r.
Proof.
  unfold has_prefix. destruct (cut_prefix p s) eqn:E; split; try done.
  - intros _. apply cut_prefix_app in E. eauto.
  - intros [r Hr]. apply cut_prefix_app in Hr. congruence.
Qed.

(** What [scanDollar] finds. *)
Lemma scanDollar_spec i s :
  (∃ tag body, s = tag +:+ "$" +:+ body ∧ tag_before tag (String "$" body) ∧
     scanDollar i s = (skipDollarQuoted ("$" +:+ tag +:+ "$") body, None)) ∨
  (∃ name rest, s = name +:+ rest ∧ name_before name rest ∧ starts_name name = true ∧
     has_prefix "$" rest = false ∧ scanDollar i s = (rest, Some (MkSpan (S i) name))) ∨
  (starts_name s = false ∧ (∀ tag body, tag_before tag (String "$" body) → s ≠ tag +:+ "$" +:+ body) ∧
     scanDollar i s = (s, None)).
Proof.
  unfold scanDollar. pose proof (span_name s) as H. destruct (span_byte isNameChar s) as [tag rest] eqn:Es.
  destruct H as [Hs Hb]. fold (starts_name tag).
  destruct (str_empty tag || starts_name tag) eqn:Ev.
  - assert (tag = EmptyString ∨ starts_name tag = true) as Htag.
    { apply orb_true_iff in Ev as [->%str_empty_true|?]; auto. }
    destruct (cut_prefix "$" rest) as [body|] eqn:Ec.
    + left. exists tag, body. apply cut_prefix_app in Ec as ->. done.
    + right. destruct (starts_name tag) eqn:Et.
      * left. exists tag, rest. split_and!; try done. unfold has_prefix. by rewrite Ec.
      * right. destruct Htag as [->|]; [|done]. rewrite str_nil_app in Hs. subst rest.
        split_and!; try done.
        { destruct s as [|c s]; [done|]. destruct Hb as [_ Hb]. cbn [head_not] in Hb. simpl.
          unfold isNameChar in Hb. by destruct (isNameStart c). }
        intros tag body [Htb _] ->. pose proof (span_name_app _ _ Htb) as Hsp.
        change (String "$" body) with ("$" +:+ body) in Hsp. rewrite Es in Hsp. injection Hsp as <- Hr.
        by rewrite str_nil_app in Ec.
  - right. right. apply orb_false_iff in Ev as [Ee Et]. rewrite Et.
    destruct tag as [|c tag]; [done|]. split_and!; [by rewrite Hs| |done].
    intros tag' body [Htb Ht'] Heq. pose proof (span_name_app _ _ Htb) as Hsp.
    change (String "$" body) with ("$" +:+ body) in Hsp. rewrite <-Heq, Es in Hsp. injection Hsp as <- _.
    destruct Ht' as [|Ht']; [done|]. congruence.
Qed.

Lemma skipDollar_len delim body : slen (skipDollarQuoted delim body) ≤ slen body.
Proof.
  unfold skipDollarQuoted. destruct (cut_after delim body) eqn:E; [by eapply cut_after_len|]. simpl. len.
Qed.
Lemma scanDollar_len i s : slen (scanDollar i s).1 ≤ slen s.
Proof.
  destruct (scanDollar_spec i s) as [(tag & body & -> & _ & ->)|[(name & rest & -> & _ & _ & _ & ->)|(_ & _ & ->)]];
    rewrite ?slen_app; cbn [fst]; [|lia|lia].
  pose proof (skipDollar_len ("$" +:+ tag +:+ "$") body). lia.
Qed.

Lemma str_drop1_len s : slen (str_drop 1 s) ≤ slen s.
Proof. destruct s; cbn; len. Qed.

(** Any fuel that is at least the length gives the same spans. *)
Lemma spans_fuel f1 f2 n s : slen s ≤ f1 → slen s ≤ f2 → spans_loop f1 n s = spans_loop f2 n s.
Proof.
  revert f2 s. induction f1 as [|f1 IH]; intros [|f2] [|c s] H1 H2; try done; try len. cbn [spans_loop].
  assert (∀ t, slen t ≤ slen s → spans_loop f1 n t = spans_loop f2 n t) as Hs by (intros; apply IH; len).
  pose proof (str_drop1_len s) as Hd.
  rewrite (Hs (skipQuoted c s)) by apply skipQuoted_len.
  rewrite (Hs (skipLineComment (str_drop 1 s))) by (pose proof (skipLine_len (str_drop 1 s)); lia).
  rewrite (Hs (skipBlockComment 1 (str_drop 1 s))) by (pose proof (skipBlock_len 1 (str_drop 1 s)); lia).
  rewrite (Hs s) by done. pose proof (scanDollar_len (n - slen (String c s)) s) as Hsd.
  destruct (scanDollar _ s) as [next sp]. by rewrite (Hs next).
Qed.

Definition spans (n : nat) (s : string) : list span := spans_loop (slen s) n s.
Lemma spans_cons n c s : spans n (String c s) =
  if is_quote c then spans n (skipQuoted c s)
  else if Ascii.eqb c "-"%char && has_prefix "-" s then spans n (skipLineComment (str_drop 1 s))
  else if Ascii.eqb c "/"%char && has_prefix "*" s then spans n (skipBlockComment 1 (str_drop 1 s))
  else if Ascii.eqb c "$"%char then
    let (next, sp) := scanDollar (n - slen (String c s)) s in
    match sp with Some sp => sp :: spans n next | None => spans n next end
  else spans n s.
Proof.
  unfold spans. cbn [slen String.length spans_loop]. fold (is_quote c). pose proof (str_drop1_len s) as Hd.
  assert (∀ t, slen t ≤ slen s → spans_loop (String.length s) n t = spans_loop (slen t) n t) as Hs
    by (intros; by apply spans_fuel).
  rewrite (Hs (skipQuoted c s)) by apply skipQuoted_len.
  rewrite (Hs (skipLineComment (str_drop 1 s))) by (pose proof (skipLine_len (str_drop 1 s)); lia).
  rewrite (Hs (skipBlockComment 1 (str_drop 1 s))) by (pose proof (skipBlock_len 1 (str_drop 1 s)); lia).
  rewrite (Hs s) by done. pose proof (scanDollar_len (n - slen (String c s)) s) as Hsd.
  unfold slen in *. cbn [String.length] in *. destruct (scanDollar _ s) as [next sp]. by rewrite (Hs next).
Qed.

Lemma is_quote_chars c : is_quote c = true → c = "'"%char ∨ c = dquote.
Proof. unfold is_quote. intros [->%Ascii.eqb_eq| ->%Ascii.eqb_eq]%orb_true_iff; auto. Qed.
Lemma has_prefix_tail a p c s : has_prefix (String a p) (String c s) = Ascii.eqb a c && has_prefix p s.
Proof. unfold has_prefix. cbn [cut_prefix]. by destruct (Ascii.eqb a c). Qed.

(** The scanner on each form of the grammar. *)
Lemma spans_quoted n q s : is_quote q = true → spans n (String q s) = spans n (skipQuoted q s).
Proof. intros H. by rewrite spans_cons, H. Qed.
Lemma spans_line n s : spans n ("--" +:+ s) = spans n (skipLineComment s).
Proof. change ("--" +:+ s) with (String "-" (String "-" s)). by rewrite spans_cons. Qed.
Lemma spans_block n s : spans n ("/*" +:+ s) = spans n (skipBlockComment 1 s).
Proof. change ("/*" +:+ s) with (String "/" (String "*" s)). by rewrite spans_cons. Qed.
Lemma spans_dollar n s : spans n (String "$" s) =
  let (next, sp) := scanDollar (n - slen (String "$" s)) s in
  match sp with Some sp => sp :: spans n next | None => spans n next end.
Proof. by rewrite spans_cons. Qed.
Lemma spans_char n c s : is_quote c = false → c ≠ "$"%char → has_prefix "--" (String c s) = false →
  has_prefix "/*" (String c s) = false → spans n (String c s) = spans n s.
Proof.
  intros Hq Hd H1 H2. rewrite spans_cons, Hq. rewrite has_prefix_tail in H1, H2.
  rewrite (Ascii.eqb_sym c "-"), (Ascii.eqb_sym c "/"), H1, H2. apply Ascii.eqb_neq in Hd. by rewrite Hd.
Qed.

Lemma scanDollar_literal i tag body : tag_before tag (String "$" body) →
  scanDollar i (tag +:+ "$" +:+ body) = (skipDollarQuoted ("$" +:+ tag +:+ "$") body, None).
Proof.
  intros [Hb Ht]. unfold scanDollar. change ("$" +:+ body) with (String "$" body). rewrite span_name_app by done.
  fold (starts_name tag).
  assert (str_empty tag || starts_name tag = true) as -> by (destruct Ht as [->|Ht]; [done|by rewrite Ht, orb_true_r]).
  done.
Qed.
Lemma scanDollar_name i name rest : name_before name rest → starts_name name = true →
  has_prefix "$" rest = false → scanDollar i (name +:+ rest) = (rest, Some (MkSpan (S i) name)).
Proof.
  intros Hb Hs Hp. unfold scanDollar. rewrite span_name_app by done. fold (starts_name name).
  rewrite Hs, orb_true_r. unfold has_prefix in Hp. by destruct (cut_prefix "$" rest).
Qed.
Lemma starts_name_app name rest : starts_name name = true → starts_name (name +:+ rest) = true.
Proof. by destruct name. Qed.
Lemma scanDollar_sigil i s : starts_name s = false →
  (∀ tag body, tag_before tag (String "$" body) → s ≠ tag +:+ "$" +:+ body) → scanDollar i s = (s, None).
Proof.
  intros Hs Hno. destruct (scanDollar_spec i s) as [(tag & body & -> & Ht & _)|[(name & rest & -> & _ & Hn & _)|(_ & _ & ->)]].
  - by destruct (Hno tag body Ht).
  - by rewrite starts_name_app in Hs.
  - done.
Qed.

Lemma slen_sub o s n : n = o + slen s → n - slen s = o.
Proof. lia. Qed.

Lemma lex_spans o s l : lex o s l → spans (o + slen s) s = l.
Proof.
  induction 1 as [o|o q b rest l Hq Hb Hr _ IH|o q b Hq Hb|o b rest l Hb Hr _ IH|o s rest l Hc _ IH|o s Hno
    |o tag body rest l Ht Hc _ IH|o tag body Ht Hc|o name rest l Hb Hs Hp _ IH|o s l Hs Hno _ IH
    |o c s l Hq Hd H1 H2 _ IH].
  - done.
  - rewrite spans_quoted, skipQuoted_body by done. rewrite <-IH. f_equal.
    unfold slen. cbn [String.length]. fold (slen (b +:+ String q rest)). rewrite slen_app. len.
  - rewrite spans_quoted, skipQuoted_open by done. done.
  - rewrite spans_line, skipLine_body by done. rewrite <-IH, !slen_app. f_equal. change (slen "--") with 2. lia.
  - rewrite spans_block, (skipBlock_comment _ _ _ Hc) by lia. rewrite <-IH, slen_app. change (slen "/*") with 2.
    pose proof (skipBlock_len 1 s) as Hl. rewrite (skipBlock_comment _ _ _ Hc) in Hl by lia. f_equal. lia.
  - rewrite spans_block. destruct (skipBlock_split 1 s) as [H|[_ ->]]; [lia|by destruct (Hno _ H)|done].
  - change ("$" +:+ tag +:+ "$" +:+ body) with (String "$" (tag +:+ "$" +:+ body)).
    rewrite spans_dollar, scanDollar_literal by done. unfold skipDollarQuoted. rewrite Hc. cbn [default from_option id].
    rewrite <-IH. unfold slen. cbn [String.length]. fold (slen (tag +:+ "$" +:+ body)).
    rewrite !slen_app. apply cut_after_len in Hc. change (slen "$") with 1.
    f_equal. len.
  - change ("$" +:+ tag +:+ "$" +:+ body) with (String "$" (tag +:+ "$" +:+ body)).
    rewrite spans_dollar, scanDollar_literal by done. unfold skipDollarQuoted. by rewrite Hc.
  - change ("$" +:+ name +:+ rest) with (String "$" (name +:+ rest)).
    rewrite spans_dollar, (slen_sub o) by done. rewrite scanDollar_name by done. f_equal. rewrite <-IH. f_equal.
    unfold slen. cbn [String.length]. fold (slen (name +:+ rest)). rewrite slen_app. len.
  - rewrite spans_dollar, scanDollar_sigil by done. rewrite <-IH. f_equal. len.
  - rewrite spans_char by done. rewrite <-IH. f_equal. len.
Qed.

Lemma lex_exists o s : lex o s (spans (o + slen s) s).
Proof.
  remember (slen s) as n eqn:Hn. revert o s Hn. induction n as [n IH] using lt_wf_ind. intros o [|c s] Hn.
  { constructor. }
  assert (∀ o' t, slen t ≤ slen s → o' + slen t = o + n → lex o' t (spans (o + n) t)) as Hrec.
  { intros o' t Hle <-. eapply IH; [|done]. len. }
  destruct (is_quote c) eqn:Eq.
  { rewrite spans_quoted by done. pose proof (skipQuoted_len c s) as Hl.
    destruct (skipQuoted_split c s) as [Hb|(b & Hb & Hh & Hs)].
    - rewrite skipQuoted_open by done. by apply lex_quoted_open.
    - rewrite Hs at 1. apply lex_quoted; try done. apply Hrec; [done|].
      apply (f_equal slen) in Hs. rewrite slen_app in Hs. len. }
  destruct (has_prefix "--" (String c s)) eqn:E1.
  { apply has_prefix_cut in E1 as [r Hr]. rewrite Hr, spans_line.
    assert (slen s = S (slen r)) as Hlen by (apply (f_equal slen) in Hr; rewrite slen_app in Hr; change (slen "--") with 2 in Hr; len).
    destruct (skipLine_split r) as (b & Hb & He & Hs). rewrite Hs at 1. apply lex_line; [done|done|].
    pose proof (skipLine_len r). apply Hrec; [lia|].
    apply (f_equal slen) in Hs. rewrite slen_app in Hs. len. }
  destruct (has_prefix "/*" (String c s)) eqn:E2.
  { apply has_prefix_cut in E2 as [r Hr]. rewrite Hr, spans_block.
    assert (slen s = S (slen r)) as Hlen by (apply (f_equal slen) in Hr; rewrite slen_app in Hr; change (slen "/*") with 2 in Hr; len).
    pose proof (skipBlock_len 1 r). destruct (skipBlock_split 1 r) as [Hc|[Hno ->]]; [lia| |by apply lex_block_open].
    eapply lex_block; [exact Hc|]. apply Hrec; len. }
  destruct (decide (c = "$"%char)) as [->|Hd].
  - rewrite spans_dollar, (slen_sub o) by (by rewrite Hn). 
    destruct (scanDollar_spec o s) as [(tag & body & Hs & Ht & ->)|[(name & rest & Hs & Hb & Hst & Hp & ->)|(Hst & Hno & ->)]].
    + assert (slen s = slen tag + S (slen body)) as Hlen
        by (rewrite Hs, !slen_app; change (slen "$") with 1; lia).
      rewrite Hs. change (String "$" (tag +:+ "$" +:+ body)) with ("$" +:+ tag +:+ "$" +:+ body).
      unfold skipDollarQuoted. destruct (cut_after _ body) as [rest|] eqn:Ec; cbn [default from_option id].
      * unfold id. eapply lex_dollar; [done..|]. apply cut_after_len in Ec. apply Hrec; len.
      * by apply lex_dollar_open.
    + assert (slen s = slen name + slen rest) as Hlen by (by rewrite Hs, slen_app).
      rewrite Hs. change (String "$" (name +:+ rest)) with ("$" +:+ name +:+ rest).
      apply lex_placeholder; try done. apply Hrec; len.
    + apply lex_sigil; try done. apply Hrec; len.
  - rewrite spans_char by done. apply lex_char; try done. apply Hrec; len.
Qed.

(** ** Properties of the scanner *)

(** The scanner finds exactly the placeholders of the lexical grammar, with
    their offsets: it skips quoted and dollar-quoted literals, line comments and
    nested block comments, terminated or not, and nothing else. *)
Theorem placeholderSpans_lex (sql : string) (l : list span) : placeholderSpans sql = l ↔ lex 0 sql l.
Proof.
  split.
  - intros <-. exact (lex_exists 0 sql).
  - exact (lex_spans 0 sql l).
Qed.

(** ** An escaped literal *)

Lemma escape_body s : quoted_body "'" (escapeSQL s).
Proof.
  induction s as [|c s IH]; [constructor|]. cbn [escapeSQL]. destruct (Ascii.eqb_spec c "'") as [->|Hne];
    by constructor.
Qed.
(** What a quoted body stands for. *)
Fixpoint unescape (s : string) : string :=
  match s with
  | String c s' =>
    if Ascii.eqb c "'"%char then match s' with String _ s'' => String c (unescape s'') | EmptyString => s' end
    else String c (unescape s')
  | EmptyString => EmptyString
  end.
Lemma unescape_escape s : unescape (escapeSQL s) = s.
Proof.
  induction s as [|c s IH]; [done|]. cbn [escapeSQL]. destruct (Ascii.eqb c "'") eqn:E; cbn [unescape];
    rewrite E; by rewrite IH.
Qed.

(** A value embedded in a single-quoted literal through escapeSQL cannot
    leave the literal: the literal ends exactly at its closing quote, its body
    reads back as the value, and whatever the value is, the placeholders of the
    statement are those of the text after the literal. *)
Theorem escapeSQL_contained (value rest : string) (n : nat) (Hr : head_not (Ascii.eqb "'"%char) rest = true) :
  skipQuoted "'" (escapeSQL value +:+ "'" +:+ rest) = rest ∧ unescape (escapeSQL value) = value ∧
  spans n ("'" +:+ escapeSQL value +:+ "'" +:+ rest) = spans n rest.
Proof.
  change ("'" +:+ rest) with (String "'" rest).
  pose proof (skipQuoted_body "'" _ rest (escape_body value) Hr) as H. split_and!; [done|apply unescape_escape|].
  change ("'" +:+ escapeSQL value +:+ String "'" rest) with (String "'" (escapeSQL value +:+ String "'" rest)).
  by rewrite spans_quoted, H.
Qed.

(** ** Numbers *)

(** [big.Rat], with a positive denominator, not reduced. *)
Record rat := MkRat { r_num : Z; r_den : Z }.
Definition int_rat (z : Z) : rat := MkRat z 1.
Definition r_IsInt (r : rat) : bool := (r_num r mod r_den r =? 0)%Z.
(** [Num().Int64()] of an integral value. *)
Definition r_Int (r : rat) : Z := (r_num r / r_den r)%Z.
(** [SetFloat64] of a finite float. *)
Definition float_rat (f : spec_float) : rat :=
  match f with
  | S754_finite s m e =>
    let n := if s then Z.neg m else Z.pos m in
    if (0 <=? e)%Z then int_rat (n * 2 ^ e) else MkRat n (2 ^ (- e))
  | _ => int_rat 0
  end.
(** [Float64]: the nearest float. *)
Definition rat_float (r : rat) : spec_float :=
  match r_num r with
  | Z0 => S754_zero false
  | n =>
    let '(m, e, l) := SFdiv_core_binary 53 1024 (Z.abs n) 0 (r_den r) 0 in
    binary_round_aux 53 1024 (n <? 0)%Z m e l
  end.

(** The parts of a number: sign, integer digits, what follows the point, the
    exponent with its sign, and what is left. *)
Record number_parts := MkNumber {
  nu_neg : bool;
  nu_int : string;
  nu_frac : option string;
  nu_exp : option (bool * string);
  nu_rest : string;
}.
Definition cut_char (c : ascii) (s : string) : option string :=
  match s with String d r => if Ascii.eqb d c then Some r else None | EmptyString => None end.
(** An exponent mark, and a sign after it. *)
Definition cut_mark (s : string) : option string :=
  match s with
  | String c r => if Ascii.eqb c "e"%char || Ascii.eqb c "E"%char then Some r else None
  | EmptyString => None
  end.
Definition cut_sign (s : string) : bool * string :=
  match s with
  | String c r =>
    if Ascii.eqb c "+"%char then (false, r) else if Ascii.eqb c "-"%char then (true, r) else (false, s)
  | EmptyString => (false, s)
  end.
Definition cut_frac (s : string) : option string * string :=
  match cut_char "." s with
  | Some r => let (f, r) := span_byte isDigit r in (Some f, r)
  | None => (None, s)
  end.
Definition cut_exp (s : string) : option (bool * string) * string :=
  match cut_mark s with
  | Some r =>
    let (neg, r) := cut_sign r in
    let (digits, r) := span_byte isDigit r in (Some (neg, digits), r)
  | None => (None, s)
  end.
Definition number_of (s : string) : number_parts :=
  let (neg, s) := match cut_char "-" s with Some r => (true, r) | None => (false, s) end in
  let (int, s) := span_byte isDigit s in
  let (frac, s) := cut_frac s in
  let (exp, s) := cut_exp s in
  MkNumber neg int frac exp s.

Definition isJSONNumberLiteral (s : string) : bool :=
  let p := number_of s in
  negb (str_empty (nu_int p)) &&
  negb (has_prefix "0" (nu_int p) && (1 <? slen (nu_int p))%nat) &&
  match nu_frac p with Some f => negb (str_empty f) | None => true end &&
  match nu_exp p with Some (_, e) => negb (str_empty e) | None => true end &&
  str_empty (nu_rest p).

(** [big.Rat.SetString] of a JSON number: the exponent has to fit an int64 and,
    unless the mantissa is zero, the decimal scale is at most a million. *)
Definition Rat_SetString (s : string) : option rat :=
  let p := number_of s in
  let frac := default EmptyString (nu_frac p) in
  let exp := match nu_exp p with
    | Some (neg, digits) => if neg then (- digits_value digits)%Z else digits_value digits
    | None => 0%Z
    end in
  let mant := digits_value (nu_int p +:+ frac) in
  let mant := if nu_neg p then (- mant)%Z else mant in
  if negb (in_int64 exp) then None
  else if (mant =? 0)%Z then Some (int_rat 0)
  else
    let exp5 := wrap64 (exp - Z.of_nat (slen frac)) in
    if (1000000 <? Z.abs exp5)%Z then None
    else if (0 <=? exp5)%Z then Some (int_rat (mant * 10 ^ exp5))
    else Some (MkRat mant (10 ^ (- exp5))).

(** ** Parameters *)

(** [strconv.FormatFloat(f, 'g', -1, 64)], which only error texts use. *)
Class FloatText : Type := { float_text : spec_float → string }.

(** The values of a parameter map; [POther] is any other Go type, by name. *)
Inductive param : Type :=
| PNil
| PString (s : string)
| PBool (b : bool)
| PInt (z : Z)  (** int, int32, int64 *)
| PFloat (f : spec_float)
| PNumber (lit : string)  (** json.Number *)
| POther (type_name : string).

(** What the driver is given. *)
Inductive bound : Type :=
| BNil
| BString (s : string)
| BBool (b : bool)
| BBigint (z : Z)
| BDouble (f : spec_float).

Section Params.
Context `{UT : !UnicodeTables} `{FT : !FloatText}.

Definition validateNumber (r : rat) (display : string) : option string :=
  if negb (r_IsInt r) then None
  else if (maxSafeInteger * r_den r <? Z.abs (r_num r))%Z then
    Some ("numeric value " +:+ display +:+ " exceeds MAX_SAFE_INTEGER (" +:+ itoa maxSafeInteger +:+
          "); pass it as a string with an explicit CAST")
  else None.

Definition is_finite (f : spec_float) : bool :=
  match f with S754_zero _ | S754_finite _ _ _ => true | _ => false end.
Definition validateFloat (f : spec_float) : option string :=
  if negb (is_finite f) then
    Some ("invalid parameter value: " +:+ float_text f +:+ " is not a finite number")
  else validateNumber (float_rat f) (float_text f).

Definition not_numeric (s : string) : string :=
  "invalid parameter type: json.Number(" +:+ quote s +:+ ") is not numeric".
Definition validateJSONNumber (s : string) : option string :=
  if negb (isJSONNumberLiteral s) then Some (not_numeric s)
  else match Rat_SetString s with
       | None => Some (not_numeric s)
       | Some r => validateNumber r s
       end.

Definition validateParamValue (v : param) : option string :=
  match v with
  | PNil | PString _ | PBool _ => None
  | PInt z => validateNumber (int_rat z) (itoa z)
  | PFloat f => validateFloat f
  | PNumber s => validateJSONNumber s
  | POther t => Some ("invalid parameter type: " +:+ t)
  end.

(** The distinct names in order, or the error of the first that is too long. *)
Fixpoint distinct_names (seen : gset string) (l : list span) : result string (list string) :=
  match l with
  | [] => Ok []
  | s :: l =>
    let name := sp_name s in
    if (maxNameLen <? slen name)%nat then
      Err ("placeholder name " +:+ quote (str_take maxNameLen name) +:+ "… (" +:+ itoa_nat (slen name) +:+
           " characters) exceeds the " +:+ itoa_nat maxNameLen +:+ "-character limit")
    else if bool_decide (name ∈ seen) then distinct_names seen l
    else cons name <$> distinct_names ({[name]} ∪ seen) l
  end.

(** The order of the entries of [params] is the order the map is ranged over. *)
Definition ValidateParams (sql : string) (params : gomap param) : result string (list string) :=
  orderedNames ← distinct_names ∅ (placeholderSpans sql);
  match find (λ name, negb (bool_decide (name ∈ gm_keys params))) orderedNames with
  | Some name => Err ("missing required parameter " +:+ quote name)
  | None =>
    match find (λ key, negb (bool_decide (key ∈ orderedNames))) (gm_keys params) with
    | Some key => Err ("unreferenced parameter " +:+ quote key)
    | None =>
      match omap (λ name, v ← gm_get name params; validateParamValue v) orderedNames with
      | e :: _ => Err e
      | [] => Ok orderedNames
      end
    end
  end.

Definition bindRat (r : rat) (display : string) : result string bound :=
  match validateNumber r display with
  | Some e => Err e
  | None => if r_IsInt r then Ok (BBigint (r_Int r)) else Ok (BDouble (rat_float r))
  end.

Definition bindValue (v : param) : result string bound :=
  match v with
  | PNil => Ok BNil
  | PString s => Ok (BString s)
  | PBool b => Ok (BBool b)
  | PInt z => bindRat (int_rat z) (itoa z)
  | PFloat f =>
    match validateFloat f with Some e => Err e | None => bindRat (float_rat f) (float_text f) end
  | PNumber s =>
    match validateJSONNumber s with
    | Some e => Err e
    | None => match Rat_SetString s with Some r => bindRat r s | None => Err (not_numeric s) end
    end
  | POther t => Err ("invalid parameter type: " +:+ t)
  end.

(** The arguments by name; a nil and an empty list are the same. *)
Definition bindArgs (params : gomap param) : result string (list (string * bound)) :=
  mapM_res (λ name,
    v ← map_err (λ e, "parameter " +:+ quote name +:+ ": " +:+ e)
          (match gm_get name params with Some v => bindValue v | None => bindValue PNil end);
    Ok (name, v)) (merge_sort String.le (gm_keys params)).
End Params.

(** ** Lemmas: numbers *)

Lemma span_split P s : let (k, r) := span_byte P s in s = k +:+ r ∧ forall_byte P k = true ∧ head_not P r = true.
Proof.
  induction s as [|c s IH]; cbn [span_byte]; [done|]. destruct (P c) eqn:E.
  - destruct (span_byte P s) as [k r]. destruct IH as (-> & Hk & Hr).
    rewrite str_app_cons. split_and!; [done| |done]. cbn [forall_byte]. by rewrite E.
  - split_and!; [done|done|]. cbn [head_not]. by rewrite E.
Qed.
Lemma cut_char_Some c s r : cut_char c s = Some r ↔ s = String c r.
Proof.
  destruct s as [|d s]; cbn [cut_char]; [by split|]. destruct (Ascii.eqb_spec d c) as [->|Hne].
  - split; [by intros [= ->]|by intros [= ->]].
  - split; [done|]. by intros [= ? _].
Qed.
Lemma cut_char_None c s : cut_char c s = None ↔ head_not (Ascii.eqb c) s = true.
Proof.
  destruct s as [|d s]; cbn [cut_char head_not]; [by split|]. rewrite (Ascii.eqb_sym c).
  by destruct (Ascii.eqb d c).
Qed.

Definition digits1 (s : string) : Prop := s ≠ EmptyString ∧ forall_byte isDigit s = true.
(** RFC 8259: an integer part without a leading zero. *)
Definition json_int (s : string) : Prop :=
  digits1 s ∧ (s = "0" ∨ ∀ r, s ≠ String "0" r).
Inductive json_frac : string → Prop :=
| jf_none : json_frac EmptyString
| jf_some d : digits1 d → json_frac (String "." d).
Inductive json_exp : string → Prop :=
| je_none : json_exp EmptyString
| je_some e sign d : e = "e"%char ∨ e = "E"%char → sign = EmptyString ∨ sign = "+" ∨ sign = "-" → digits1 d →
    json_exp (String e (sign +:+ d)).
Definition json_number (s : string) : Prop :=
  ∃ sign int frac exp, s = sign +:+ int +:+ frac +:+ exp ∧ (sign = EmptyString ∨ sign = "-") ∧
    json_int int ∧ json_frac frac ∧ json_exp exp.

Lemma digits1_head d : digits1 d → ∃ c r, d = String c r ∧ isDigit c = true.
Proof.
  intros [Hne Hd]. destruct d as [|c r]; [done|]. exists c, r. cbn [forall_byte] in Hd.
  apply andb_true_iff in Hd as [? _]. done.
Qed.
Lemma not_digit c : isDigit c = true → c ≠ "."%char ∧ c ≠ "e"%char ∧ c ≠ "E"%char ∧ c ≠ "+"%char ∧ c ≠ "-"%char.
Proof. intros H. split_and!; intros ->; done. Qed.
Lemma digits_head_not c d r : digits1 d → isDigit c = false → head_not (Ascii.eqb c) (d +:+ r) = true.
Proof.
  intros (x & t & -> & Hx)%digits1_head Hc. rewrite str_app_cons. cbn [head_not].
  destruct (Ascii.eqb_spec c x) as [->|]; [congruence|done].
Qed.
Lemma span_digits d r : forall_byte isDigit d = true → head_not isDigit r = true →
  span_byte isDigit (d +:+ r) = (d, r).
Proof. apply span_byte_app. Qed.

(** The parts of a number of the grammar. *)
Lemma exp_head exp : json_exp exp → head_not isDigit exp = true ∧ cut_char "." exp = None.
Proof. by intros [|e sign d [->| ->] _ _]. Qed.
Lemma cut_exp_json exp : json_exp exp → ∃ x, cut_exp exp = (x, EmptyString) ∧ ∀ b e, x = Some (b, e) → e ≠ EmptyString.
Proof.
  intros [|e sign d He Hs Hd]; [by exists None|].
  assert (∃ neg, cut_sign (sign +:+ d) = (neg, d)) as [neg Hn].
  { destruct Hs as [->|[->| ->]]; [|by eexists..]. destruct (digits1_head d Hd) as (c & r & -> & Hc).
    apply not_digit in Hc as (_ & _ & _ & Hp & Hm). exists false. rewrite str_nil_app. cbn [cut_sign].
    by rewrite (proj2 (Ascii.eqb_neq _ _) Hp), (proj2 (Ascii.eqb_neq _ _) Hm). }
  exists (Some (neg, d)). destruct Hd as [Hne Hd]. split; [|by intros ? ? [= <- <-]]. unfold cut_exp.
  assert (cut_mark (String e (sign +:+ d)) = Some (sign +:+ d)) as -> by (by destruct He as [->| ->]).
  rewrite Hn. rewrite <-(str_app_nil d) at 1. by rewrite span_digits.
Qed.
Lemma cut_frac_json frac exp : json_frac frac → json_exp exp →
  ∃ x, cut_frac (frac +:+ exp) = (x, exp) ∧ ∀ f, x = Some f → f ≠ EmptyString.
Proof.
  intros [|d [Hne Hd]] He; apply exp_head in He as [Hh Hc]; unfold cut_frac.
  - exists None. by rewrite str_nil_app, Hc.
  - exists (Some d). rewrite str_app_cons. cbn [cut_char]. rewrite Ascii.eqb_refl, span_digits by done.
    split; [done|]. by intros ? [= <-].
Qed.
Lemma number_of_grammar sign int frac exp :
  sign = EmptyString ∨ sign = "-" → json_int int → json_frac frac → json_exp exp →
  let p := number_of (sign +:+ int +:+ frac +:+ exp) in
  nu_int p = int ∧ nu_rest p = EmptyString ∧
  (∀ f, nu_frac p = Some f → f ≠ EmptyString) ∧ (∀ b e, nu_exp p = Some (b, e) → e ≠ EmptyString).
Proof.
  intros Hs [Hi _] Hf He.
  assert (match cut_char "-" (sign +:+ int +:+ frac +:+ exp) with Some r => (true, r)
    | None => (false, sign +:+ int +:+ frac +:+ exp) end =
    (bool_decide (sign = "-"), int +:+ frac +:+ exp)) as Hsign.
  { destruct Hs as [->| ->]; [|done]. rewrite str_nil_app.
    by rewrite (proj2 (cut_char_None "-" _)) by (by apply digits_head_not). }
  unfold number_of. rewrite Hsign.
  assert (span_byte isDigit (int +:+ frac +:+ exp) = (int, frac +:+ exp)) as ->.
  { destruct Hi as [_ Hi]. apply span_digits; [done|]. destruct Hf; [by apply exp_head|done]. }
  destruct (cut_frac_json frac exp Hf He) as (x & -> & Hx), (cut_exp_json exp He) as (y & -> & Hy).
  cbn. done.
Qed.

(** What the parts of any text say of it. *)
Lemma cut_exp_split s : let (x, r) := cut_exp s in
  match x with
  | Some (_, d) => d ≠ EmptyString → ∃ e, json_exp e ∧ s = e +:+ r
  | None => s = r
  end.
Proof.
  unfold cut_exp. destruct s as [|c s]; [done|]. cbn [cut_mark].
  destruct (Ascii.eqb c "e" || Ascii.eqb c "E") eqn:Ec; [|done].
  assert (c = "e"%char ∨ c = "E"%char) as He.
  { apply orb_true_iff in Ec as [?%Ascii.eqb_eq|?%Ascii.eqb_eq]; auto. }
  assert (∃ sign, (sign = EmptyString ∨ sign = "+" ∨ sign = "-") ∧ s = sign +:+ (cut_sign s).2) as (sign & Hs & Hsplit).
  { destruct s as [|d s]; [exists EmptyString; by auto|]. cbn [cut_sign].
    destruct (Ascii.eqb_spec d "+") as [->|]; [exists "+"; by auto|].
    destruct (Ascii.eqb_spec d "-") as [->|]; [exists "-"; by auto|]. exists EmptyString. by auto. }
  destruct (cut_sign s) as [neg r]. cbn [snd] in Hsplit. pose proof (span_split isDigit r) as Hd.
  destruct (span_byte isDigit r) as [d r']. destruct Hd as (-> & Hd & _). intros Hne.
  exists (String c (sign +:+ d)). split; [by constructor|].
  by rewrite Hsplit, !str_app_cons, str_app_assoc.
Qed.
Lemma cut_frac_split s : let (x, r) := cut_frac s in
  match x with
  | Some d => d ≠ EmptyString → ∃ f, json_frac f ∧ s = f +:+ r
  | None => s = r
  end.
Proof.
  unfold cut_frac. destruct (cut_char "." s) as [t|] eqn:Ec; [|done]. apply cut_char_Some in Ec as ->.
  pose proof (span_split isDigit t) as Hd. destruct (span_byte isDigit t) as [d r]. destruct Hd as (-> & Hd & _).
  intros Hne. exists (String "." d). split; [by constructor|]. by rewrite str_app_cons.
Qed.

Lemma isJSONNumberLiteral_iff (s : string) : isJSONNumberLiteral s = true ↔ json_number s.
Proof.
  split.
  - unfold isJSONNumberLiteral, number_of. intros H.
    assert (∃ sign t neg, (sign = EmptyString ∨ sign = "-") ∧ s = sign +:+ t ∧
      match cut_char "-" s with Some r => (true, r) | None => (false, s) end = (neg, t)) as (sign & t & neg & Hs & -> & Heq).
    { destruct (cut_char "-" s) as [r|] eqn:E.
      - apply cut_char_Some in E as ->. exists "-", r, true. by auto.
      - exists EmptyString, s, false. by auto. }
    rewrite Heq in H. pose proof (span_split isDigit t) as Ht.
    destruct (span_byte isDigit t) as [int t1]. destruct Ht as (-> & Hi & _).
    pose proof (cut_frac_split t1) as Hf. destruct (cut_frac t1) as [frac t2].
    pose proof (cut_exp_split t2) as He. destruct (cut_exp t2) as [exp t3]. cbn in H.
    split_and_all. apply str_empty_true in H0 as ->.
    assert (int ≠ EmptyString) as Hine by (by apply str_empty_false).
    assert (∃ f, json_frac f ∧ t1 = f +:+ t2) as (f & Hf' & ->).
    { destruct frac as [d|]; [by apply Hf, str_empty_false, negb_true_iff|]. subst. exists EmptyString.
      split; [constructor|done]. }
    assert (∃ e, json_exp e ∧ t2 = e) as (e & He' & ->).
    { destruct exp as [[? d]|].
      - destruct He as (e & ? & ->); [by apply str_empty_false, negb_true_iff|]. exists e. by rewrite str_app_nil.
      - subst. exists EmptyString. split; [constructor|done]. }
    exists sign, int, f, e. split; [done|]. split; [done|]. split; [|done]. split; [done|].
    match goal with H : has_prefix "0" int && _ = false |- _ => rename H into Hz end.
    destruct int as [|c int]; [by destruct Hine|]. destruct (decide (c = "0"%char)) as [->|Hne].
    + left. destruct int; [done|]. cbn in Hz. done.
    + right. by intros r [= Hc _].
  - intros (sign & int & frac & exp & -> & Hs & Hi & Hf & He).
    destruct (number_of_grammar sign int frac exp Hs Hi Hf He) as (H1 & H2 & H3 & H4).
    unfold isJSONNumberLiteral. rewrite H1, H2. destruct Hi as [[Hne _] Hz].
    destruct int as [|c int]; [by destruct Hne|]. cbn [str_empty negb].
    assert (has_prefix "0" (String c int) && (1 <? slen (String c int))%nat = false) as ->.
    { destruct Hz as [[= -> ->]|Hz]; [done|]. unfold has_prefix. cbn [cut_prefix].
      destruct (decide (c = "0"%char)) as [->|Hc]; [by destruct (Hz int)|].
      by rewrite (proj2 (Ascii.eqb_neq _ _) (not_eq_sym Hc)). }
    destruct (nu_frac _) as [f|]; [rewrite (proj2 (str_empty_false f)) by auto|];
      (destruct (nu_exp _) as [[b e]|]; [rewrite (proj2 (str_empty_false e)) by eauto|]); done.
Qed.

(** The gate in front of big.Rat accepts exactly the numbers of RFC 8259:
    an optional minus, an integer part with no leading zero, an optional
    fraction and exponent, each with at least one digit, and nothing else. *)
Theorem isJSONNumberLiteral_correct (s : string) : isJSONNumberLiteral s = true ↔ json_number s.
Proof. exact (isJSONNumberLiteral_iff s). Qed.

(** ** Validation *)

(** The elements of a list where they occur first. *)
Fixpoint first_occurrences (l : list string) : list string :=
  match l with
  | [] => []
  | x :: l => x :: filter (.≠ x) (first_occurrences l)
  end.
Lemma elem_of_first_occurrences x l : x ∈ first_occurrences l ↔ x ∈ l.
Proof.
  induction l as [|y l IH]; cbn; [done|]. rewrite !elem_of_cons, list_elem_of_filter, IH.
  destruct (decide (x = y)); naive_solver.
Qed.
Lemma first_occurrences_NoDup l : NoDup (first_occurrences l).
Proof.
  induction l as [|x l IH]; cbn; [constructor|]. apply NoDup_cons. split; [|by apply NoDup_filter].
  rewrite list_elem_of_filter. by intros [? _].
Qed.

Definition short (name : string) : Prop := slen name ≤ maxNameLen.

Section Validation.
Context `{UT : !UnicodeTables} `{FT : !FloatText}.

Lemma filter_all (P : string → Prop) `{∀ x, Decision (P x)} (l : list string) : (∀ x, P x) → filter P l = l.
Proof. intros HP. induction l as [|x l IH]; [done|]. by rewrite filter_cons_True, IH. Qed.
Lemma distinct_names_Ok seen l ns : distinct_names seen l = Ok ns ↔
  Forall short (sp_name <$> l) ∧ ns = filter (.∉ seen) (first_occurrences (sp_name <$> l)).
Proof.
  revert seen ns. induction l as [|s l IH]; intros seen ns; cbn [distinct_names fmap list_fmap first_occurrences].
  { split; [by intros [= <-]|by intros [_ ->]]. }
  rewrite Forall_cons. unfold short at 1. destruct (Nat.ltb_spec maxNameLen (slen (sp_name s))).
  { split; [done|]. intros [[? _] _]. lia. }
  rewrite filter_cons. destruct (bool_decide_reflect (sp_name s ∈ seen)) as [Hin|Hni].
  - rewrite IH, decide_False by (intros Hn; by apply Hn). rewrite list_filter_filter.
    assert (filter (λ x, x ∉ seen ∧ x ≠ sp_name s) (first_occurrences (sp_name <$> l)) =
      filter (.∉ seen) (first_occurrences (sp_name <$> l))) as ->.
    { apply list_filter_iff. set_solver. }
    naive_solver.
  - rewrite decide_True by done. rewrite list_filter_filter.
    assert (filter (λ x, x ∉ seen ∧ x ≠ sp_name s) (first_occurrences (sp_name <$> l)) =
      filter (.∉ {[sp_name s]} ∪ seen) (first_occurrences (sp_name <$> l))) as ->.
    { apply list_filter_iff. set_solver. }
    destruct (distinct_names _ l) as [ns'|e] eqn:E; cbn.
    + apply IH in E as [? ->]. naive_solver.
    + split; [done|]. intros [[_ Hs] ->]. exfalso.
      enough (distinct_names ({[sp_name s]} ∪ seen) l = Ok (filter (.∉ {[sp_name s]} ∪ seen)
        (first_occurrences (sp_name <$> l)))) by congruence. by apply IH.
Qed.

(** A number is bound exactly: as a 64-bit integer when it is integral, and
    then within the safe range, else as the nearest double. *)
Definition number_ok (r : rat) : Prop := r_IsInt r = true → (Z.abs (r_num r) ≤ maxSafeInteger * r_den r)%Z.
Inductive acceptable : param → Prop :=
| acc_nil : acceptable PNil
| acc_string s : acceptable (PString s)
| acc_bool b : acceptable (PBool b)
| acc_int z : (Z.abs z ≤ maxSafeInteger)%Z → acceptable (PInt z)
| acc_float f : is_finite f = true → number_ok (float_rat f) → acceptable (PFloat f)
| acc_number s r : json_number s → Rat_SetString s = Some r → number_ok r → acceptable (PNumber s).

Lemma validateNumber_None r d : validateNumber r d = None ↔ number_ok r.
Proof.
  unfold validateNumber, number_ok. destruct (r_IsInt r); cbn [negb]; [|done].
  destruct (Z.ltb_spec (maxSafeInteger * r_den r) (Z.abs (r_num r))); naive_solver lia.
Qed.
Lemma int_rat_IsInt z : r_IsInt (int_rat z) = true.
Proof. unfold r_IsInt, int_rat. cbn. by rewrite Z.mod_1_r. Qed.
Lemma validateParamValue_None v : validateParamValue v = None ↔ acceptable v.
Proof.
  destruct v as [|s|b|z|f|s|t]; cbn [validateParamValue].
  1-3: by split; [constructor|].
  - rewrite validateNumber_None. unfold number_ok. split.
    + intros H. constructor. specialize (H (int_rat_IsInt z)). cbn [int_rat r_num r_den] in H. lia.
    + intros H. inv H. cbn [int_rat r_num r_den]. lia.
  - unfold validateFloat. split.
    + destruct (is_finite f) eqn:E; cbn [negb]; [|done]. rewrite validateNumber_None. by constructor.
    + intros H. inv H. by rewrite H1; cbn [negb]; apply validateNumber_None.
  - unfold validateJSONNumber. split.
    + destruct (isJSONNumberLiteral s) eqn:E; cbn [negb]; [|done]. destruct (Rat_SetString s) as [r|] eqn:Er; [|done].
      rewrite validateNumber_None. intros H. apply (acc_number s r); [|done..]. by apply isJSONNumberLiteral_iff.
    + intros H. inversion H as [| | | | |? r Hj Hr Hn]; subst. apply isJSONNumberLiteral_iff in Hj.
      rewrite Hj, Hr. cbn [negb]. by apply validateNumber_None.
  - split; [done|]. intros H. inv H.
Qed.

Lemma find_None_iff {A} (P : A → bool) l : find P l = None ↔ ∀ x, x ∈ l → P x = false.
Proof.
  split.
  - intros H x Hx. eapply find_none; [done|]. by apply list_elem_of_In.
  - intros H. destruct (find P l) as [x|] eqn:E; [|done]. apply find_some in E as [Hx Hp].
    apply list_elem_of_In in Hx. rewrite H in Hp; done.
Qed.
Lemma omap_nil_iff {A B} (f : A → option B) l : omap f l = [] ↔ ∀ x, x ∈ l → f x = None.
Proof.
  induction l as [|x l IH]; cbn; [split; [by intros _ ? ?%elem_of_nil|done]|].
  setoid_rewrite elem_of_cons. destruct (f x) eqn:E; naive_solver.
Qed.

Definition placeholder_names (sql : string) : list string := first_occurrences (sp_name <$> placeholderSpans sql).

Lemma ValidateParams_Ok sql params names : gm_ok params →
  ValidateParams sql params = Ok names ↔
  names = placeholder_names sql ∧ Forall short names ∧ (∀ n, n ∈ names ↔ n ∈ gm_keys params) ∧
  ∀ k v, (k, v) ∈ params → acceptable v.
Proof.
  intros Hok. unfold ValidateParams. fold (placeholder_names sql).
  assert (∀ ns, distinct_names ∅ (placeholderSpans sql) = Ok ns ↔ Forall short ns ∧ ns = placeholder_names sql) as Hd.
  { intros ns. rewrite distinct_names_Ok, filter_all by set_solver. fold (placeholder_names sql).
    split; intros [H ->]; (split; [|done]); rewrite !Forall_forall in *; intros x Hx; apply H;
      by apply elem_of_first_occurrences. }
  destruct (distinct_names _ _) as [ns|e] eqn:E; cbn.
  2: { split; [done|]. intros (-> & Hs & _). by destruct (proj2 (Hd (placeholder_names sql)) (conj Hs eq_refl)). }
  destruct (proj1 (Hd ns) eq_refl) as [Hs ->]. set (ns := placeholder_names sql) in *.
  destruct (find _ ns) as [n|] eqn:E1.
  { split; [done|]. intros (-> & _ & Hk & _). apply find_some in E1 as [Hn%list_elem_of_In Hf].
    rewrite bool_decide_eq_true_2 in Hf by (by apply Hk). done. }
  destruct (find _ (gm_keys params)) as [n|] eqn:E2.
  { split; [done|]. intros (-> & _ & Hk & _). apply find_some in E2 as [Hn%list_elem_of_In Hf].
    rewrite bool_decide_eq_true_2 in Hf by (by apply Hk). done. }
  rewrite find_None_iff in E1, E2.
  assert (∀ n, n ∈ ns ↔ n ∈ gm_keys params) as Hk.
  { intros n. split; intros Hn.
    - apply E1 in Hn. by apply negb_false_iff, bool_decide_eq_true in Hn.
    - apply E2 in Hn. by apply negb_false_iff, bool_decide_eq_true in Hn. }
  destruct (omap _ ns) as [|e l] eqn:E3.
  - rewrite omap_nil_iff in E3. split; [intros [= <-]|by intros [-> _]]. split_and!; try done.
    intros k v Hkv. apply validateParamValue_None. assert (k ∈ ns) as Hn.
    { apply Hk. apply list_elem_of_fmap. by exists (k, v). }
    specialize (E3 k Hn). by rewrite (elem_gm_get k v) in E3.
  - split; [done|]. intros (-> & _ & _ & Ha). assert (omap (λ name, v ← gm_get name params; validateParamValue v) ns = []);
      [|congruence]. apply omap_nil_iff. intros x Hx. destruct (gm_get x params) as [v|] eqn:Eg; [|done]. cbn.
    apply validateParamValue_None. eapply Ha. by apply gm_get_elem.
Qed.

(** A statement and its parameters are accepted exactly when every
    placeholder name has at most 64 characters, the names and the keys are the
    same set and every value is a scalar whose number, if it is integral, is
    within the safe range; the result is the names, where each occurs first. *)
Theorem ValidateParams_accepts (sql : string) (params : gomap param) (names : list string) (Hok : gm_ok params) :
  ValidateParams sql params = Ok names ↔
  names = placeholder_names sql ∧ Forall short names ∧ (∀ n, n ∈ names ↔ n ∈ gm_keys params) ∧
  ∀ k v, (k, v) ∈ params → acceptable v.
Proof. exact (ValidateParams_Ok sql params names Hok). Qed.
End Validation.

(** ** Binding *)

(** The exact value of a number. *)
Definition number_value (v : param) : option rat :=
  match v with
  | PInt z => Some (int_rat z)
  | PFloat f => Some (float_rat f)
  | PNumber s => Rat_SetString s
  | _ => None
  end.
(** The bind-type table. *)
Inductive bound_as : param → bound → Prop :=
| ba_nil : bound_as PNil BNil
| ba_string s : bound_as (PString s) (BString s)
| ba_bool b : bound_as (PBool b) (BBool b)
| ba_bigint v r n : number_value v = Some r → (r_num r = n * r_den r)%Z → (Z.abs n ≤ maxSafeInteger)%Z →
    bound_as v (BBigint n)
| ba_double v r : number_value v = Some r → r_IsInt r = false → bound_as v (BDouble (rat_float r)).

Lemma pow2_pos e : (0 <= e → 0 < 2 ^ e)%Z.
Proof. intros. by apply Z.pow_pos_nonneg. Qed.
Lemma number_value_den v r : number_value v = Some r → (0 < r_den r)%Z.
Proof.
  destruct v as [|s|b|z|f|s|t]; cbn [number_value]; intros H; simplify_eq; [done| |].
  - destruct f as [s|s| |s m e]; cbn; [done..|]. destruct (Z.leb_spec 0 e); cbn; [done|].
    apply pow2_pos. lia.
  - unfold Rat_SetString in H. destruct (negb _); [done|]. destruct (_ =? 0)%Z; [by simplify_eq|].
    destruct (_ <? _)%Z; [done|]. destruct (0 <=? _)%Z eqn:E; simplify_eq; [done|]. cbn.
    apply Z.pow_pos_nonneg; [done|]. to_arith. lia.
Qed.

Section Binding.
Context `{UT : !UnicodeTables} `{FT : !FloatText}.

Lemma bindRat_ok v r d : number_value v = Some r → number_ok r → ∃ b, bindRat r d = Ok b ∧ bound_as v b.
Proof.
  intros Hv Hn. pose proof (number_value_den v r Hv) as Hd. unfold bindRat.
  rewrite (proj2 (validateNumber_None r d) Hn). destruct (r_IsInt r) eqn:E.
  - eexists. split; [done|]. specialize (Hn E). unfold r_IsInt in E. apply Z.eqb_eq in E.
    assert (r_num r = r_Int r * r_den r)%Z as Heq.
    { unfold r_Int. pose proof (Z.div_mod (r_num r) (r_den r)). lia. }
    apply (ba_bigint v r); [done..|]. rewrite Heq, Z.abs_mul, (Z.abs_eq (r_den r)) in Hn by lia. nia.
  - eexists. split; [done|]. by apply ba_double.
Qed.
Lemma bindValue_ok v : acceptable v → ∃ b, bindValue v = Ok b ∧ bound_as v b.
Proof.
  intros H. pose proof (proj2 (validateParamValue_None v) H) as Hv.
  destruct H as [|s|b|z Hz|f Hf Hn|s r Hj Hr Hn]; cbn [bindValue]; [by eexists; split; [|constructor]..| | |].
  - by apply bindRat_ok; [|apply validateNumber_None with (d := itoa z)].
  - cbn [validateParamValue] in Hv. rewrite Hv. by apply bindRat_ok.
  - cbn [validateParamValue] in Hv. rewrite Hv, Hr. by apply bindRat_ok.
Qed.
Lemma bindArgs_ok params : gm_ok params → (∀ k v, (k, v) ∈ params → acceptable v) → ∃ args,
  bindArgs params = Ok args ∧ args.*1 = merge_sort String.le (gm_keys params) ∧
  ∀ name b, (name, b) ∈ args → ∃ v, (name, v) ∈ params ∧ bound_as v b.
Proof.
  intros Hok Ha. unfold bindArgs.
  assert (∀ k, k ∈ merge_sort String.le (gm_keys params) → k ∈ gm_keys params) as Hk.
  { intros k. by rewrite merge_sort_Permutation. }
  induction (merge_sort _ _) as [|k l IH]; cbn [mapM_res].
  { exists []. split_and!; [done|done|]. by intros ? ? ?%elem_of_nil. }
  destruct IH as (args & -> & Hn & Hb). { intros k' Hk'. apply Hk. by right. }
  specialize (Hk k ltac:(by left)). apply list_elem_of_fmap in Hk as ([k' v] & -> & Hkv). cbn [fst].
  rewrite (elem_gm_get k' v) by done. destruct (bindValue_ok v) as (b & -> & Hvb); [by eapply Ha|].
  exists ((k', b) :: args). cbn. split_and!; [done|by rewrite Hn|].
  intros name b' [[= -> ->]|Hin]%elem_of_cons; [by exists v|by apply Hb].
Qed.

(** The parameters of an accepted statement always bind: one argument per
    name, in the order of the names, strings, booleans and nulls as they are,
    an integral number (whatever its type or spelling) as exactly that 64-bit
    integer, any other as the double nearest to its exact value. *)
Theorem bindArgs_correct (sql : string) (params : gomap param) (names : list string)
  (Hok : gm_ok params) (Hv : ValidateParams sql params = Ok names) :
  ∃ args, bindArgs params = Ok args ∧ args.*1 = merge_sort String.le names ∧
    ∀ name b, (name, b) ∈ args → ∃ v, (name, v) ∈ params ∧ bound_as v b.
Proof.
  apply ValidateParams_Ok in Hv as (-> & _ & Hk & Ha); [|done].
  destruct (bindArgs_ok params Hok Ha) as (args & Hargs & Hn & Hb). exists args. split_and!; [done| |done].
  rewrite Hn. apply merge_sort_perm, NoDup_Permutation; [done|apply first_occurrences_NoDup|].
  intros x. by rewrite Hk.
Qed.
End Binding.

(** ** Examples *)

Module SqlExamples.
#[local] Instance ascii_tables : UnicodeTables :=
  {| is_print_above_latin1 _ := false; to_upper_above_latin1 r := r |}.
#[local] Instance blank_floats : FloatText := {| float_text _ := EmptyString |}.

Definition query : string := "select $n, '$b', $t$ $c $t$, $who /* $d /* */ $e */ where x > $n -- $f".
Definition values : gomap param := [("who", PString "o'hara"); ("n", PNumber "1.5e3")].

Example spans_sample : sp_name <$> placeholderSpans query = ["n"; "who"; "n"].
Proof. vm_compute. reflexivity. Qed.
Example literal_sample : isJSONNumberLiteral <$> ["-0.5e+10"; "01"; "1."; "0x1"; "1/3"] = [true; false; false; false; false].
Proof. vm_compute. reflexivity. Qed.
Example too_big : ValidateParams "$n" [("n", PNumber "9007199254740992.0")] =
  Err ("numeric value 9007199254740992.0 exceeds MAX_SAFE_INTEGER (9007199254740991); " +:+
       "pass it as a string with an explicit CAST").
Proof. vm_compute. reflexivity. Qed.
Example half : bindValue (PNumber "0.1") = Ok (BDouble (S754_finite false 7205759403792794 (-56))).
Proof. vm_compute. reflexivity. Qed.

Lemma escapeSQL_contained_witness :
  skipQuoted "'" (escapeSQL "o'hara" +:+ "'" +:+ " and $n") = " and $n" ∧
  unescape (escapeSQL "o'hara") = "o'hara" ∧
  spans 9 ("'" +:+ escapeSQL "o'hara" +:+ "'" +:+ " and $n") = spans 9 " and $n".
Proof. exact (escapeSQL_contained "o'hara" " and $n" 9 eq_refl). Defined.

Lemma values_ok : gm_ok values.
Proof. apply (bool_decide_unpack _). vm_compute. exact I. Qed.
Lemma ValidateParams_accepts_witness :
  ValidateParams query values = Ok ["n"; "who"] ∧ ∀ k v, (k, v) ∈ values → acceptable v.
Proof.
  assert (ValidateParams query values = Ok ["n"; "who"]) as H by (vm_compute; reflexivity).
  split; [exact H|]. exact (proj2 (proj2 (proj2 (proj1 (ValidateParams_accepts query values _ values_ok) H)))).
Defined.
Lemma bindArgs_correct_witness : ∃ args,
  bindArgs values = Ok args ∧ args.*1 = ["n"; "who"] ∧ bindArgs values = Ok [("n", BBigint 1500); ("who", BString "o'hara")].
Proof.
  destruct (bindArgs_correct query values ["n"; "who"] values_ok) as (args & H & Hn & _).
  - vm_compute. reflexivity.
  - exists args. split; [exact H|]. split; [exact Hn|vm_compute; reflexivity].
Defined.
End SqlExamples.
