(* ===== verification/CommitTable.v ===== *)
(** * CommitTable: committing data files to an Iceberg table
      (pkg/icebergjob/commit_shared.go, pkg/catalogwriter/retry.go)

    [CommitTableFiles] with its retry envelope.  iceberg-go, the catalog behind
    it, the object store and the clock are the world [W]: every call of the code
    into them is an operation of the class [Iceberg] that may change the world.
    The closure that is retried has its captured variables as state. *)

From Stdlib Require Import SpecFloat.
From S2P Require Import Prelude GoTime.

(** ** State passing *)

(** A call of the code into the world, in a state that has other parts. *)
Definition on_world {W X A} (m : St W A) : St (W * X) A := λ s, let (w, a) := m s.1 in ((w, s.2), a).

(** ** Errors *)

Inductive sentinel : Type :=
| ErrCommitFailed  (** rest.ErrCommitFailed, HTTP 409 *)
| errIdempotencyHit
| Canceled  (** context.Canceled *)
| DeadlineExceeded.
#[export] Instance sentinel_eq : EqDecision sentinel.
Proof. solve_decision. Defined.

(** An error, with the sentinels it wraps. *)
Record error := MkError { e_wraps : list sentinel; e_msg : string }.
Definition errors_Is (e : error) (s : sentinel) : bool := bool_decide (s ∈ e_wraps e).
Definition new_error (msg : string) : error := MkError [] msg.
(** [fmt.Errorf(prefix + "%w", e)]. *)
Definition wrap_error (prefix : string) (e : error) : error := MkError (e_wraps e) (prefix +:+ e_msg e).
(** [errors.Join] of at least one error. *)
Definition join_errors (l : list error) : error :=
  MkError (mjoin (e_wraps <$> l)) (join (String "010" EmptyString) (e_msg <$> l)).

(** ** pkg/catalogwriter/retry.go *)

Definition DefaultMaxRetries : nat := 5.
Definition DefaultBaseBackoff : Z := 100000000.
Definition IsCommitConflict (e : error) : bool := errors_Is e ErrCommitFailed.

Record RetryOpts := MkRetryOpts { ro_MaxAttempts : Z; ro_BaseBackoff : Z }.

(** float64 arithmetic and the truncating conversion to an integer. *)
Definition float_of_int (z : Z) : spec_float := binary_normalize 53 1024 z 0 false.
Definition float_trunc (f : spec_float) : Z :=
  match f with
  | S754_finite s m e =>
    let n := (if (0 <=? e)%Z then Z.pos m * 2 ^ e else Z.pos m / 2 ^ (- e))%Z in if s then (- n)%Z else n
  | _ => 0%Z
  end.
(** The float64 nearest to [n / d]. *)
Definition float_frac (n d : positive) : spec_float := SFdiv 53 1024 (float_of_int (Zpos n)) (float_of_int (Zpos d)).
(** [rnd] is what rng.Float64 returned. *)
Definition next_backoff (base : Z) (attempt : nat) (rnd : spec_float) : Z :=
  let backoff := wrap64 (base * 2 ^ Z.of_nat (attempt - 1)) in
  let jitter := float_trunc (SFmul 53 1024 (float_of_int backoff)
    (SFsub 53 1024 (SFmul 53 1024 rnd (float_frac 1 5)) (float_frac 1 10))) in
  let next := wrap64 (backoff + jitter) in
  if (next <? 0)%Z then backoff else next.

Section Retry.
Context {X : Type}.
(** ctx.Err, rng.Float64 and the sleep, which the context may cut short. *)
Variables (ctx_Err : St X (option error)) (Float64 : St X spec_float) (Sleep : Z → St X (option error)).

(** The attempts from [attempt] on, of which [n] are left. *)
Fixpoint retry_loop (base : Z) (max n attempt : nat) (fn : St X (option error)) : St X (option error) :=
  match n with
  | O => mret (Some (new_error ("commit failed after " +:+ itoa_nat max +:+ " attempts: %!w(<nil>)")))
  | S n =>
    e ← ctx_Err;
    match e with
    | Some e => mret (Some e)
    | None =>
      err ← fn;
      match err with
      | None => mret None
      | Some err =>
        if negb (IsCommitConflict err) then mret (Some err)
        else if decide (n = 0) then
          mret (Some (wrap_error ("commit failed after " +:+ itoa_nat max +:+ " attempts: ") err))
        else
          rnd ← Float64;
          e ← Sleep (next_backoff base attempt rnd);
          match e with
          | Some e => mret (Some e)
          | None => retry_loop base max n (S attempt) fn
          end
      end
    end
  end.
Definition RetryOnConflict (opts : RetryOpts) (fn : St X (option error)) : St X (option error) :=
  let max := if (ro_MaxAttempts opts <=? 0)%Z then DefaultMaxRetries else Z.to_nat (ro_MaxAttempts opts) in
  let base := if (ro_BaseBackoff opts <=? 0)%Z then DefaultBaseBackoff else ro_BaseBackoff opts in
  retry_loop base max max 1 fn.
End Retry.

(** ** The world: iceberg-go and the object store *)

Record snapshot := MkSnapshot {
  sn_SnapshotID : Z;
  sn_Summary : option (gmap string string);  (** the summary's properties *)
}.

Class IcebergTypes : Type := {
  World : Type;
  Manifest : Type;
  Tuple : Type;  (** map[int]any: partition field id to value; a nil map is [None] *)
  PartitionSpec : Type;
  Metrics : Type;  (** the column statistics of a file *)
}.

Section Types.
Context `{IT : !IcebergTypes}.

Record DataFile := MkDataFile {
  df_FilePath : string;
  df_SpecID : Z;
  df_Partition : option Tuple;
  df_Count : Z;
  df_FileSize : Z;
  df_Metrics : Metrics;
  df_FirstRowID : option Z;
}.
Inductive content : Type := EntryContentData | EntryContentDeletes.
(** A table handle: the metadata the catalog returned. *)
Record table := MkTable {
  t_Snapshots : list snapshot;
  t_CurrentSnapshot : option snapshot;
  t_DefaultPartitionSpec : Z;
  t_Specs : list (Z * PartitionSpec);
  t_Version : Z;
  t_NextRowID : Z;
  t_CommitNumRetries : N;  (** commit.retry.num-retries, or its default *)
}.
(** What a transaction does. *)
Inductive operation : Type :=
| AddFiles (paths : list string)
| AddDataFiles (files : list DataFile)
| ReplaceDataFiles (old paths : list string)
| ReplaceDataFilesWithDataFiles (old files : list DataFile).
(** A Parquet footer: what the code reads of it. *)
Record footer := MkFooter { ft_Encrypted : bool; ft_RowGroups : list Z; ft_Size : Z }.
End Types.

(** The calls, each of which may change the world.  [Stage] is the method of the
    transaction that records the operation, [Commit] its Commit. *)
Class Iceberg `{IT : !IcebergTypes} : Type := {
  ctx_Err : St World (option error);
  Sleep : Z → St World (option error);
  Float64 : St World spec_float;
  LoadTable : list string → St World (result error table);
  TableFS : table → St World (result error unit);
  Manifests : snapshot → St World (result error (list Manifest));
  FetchEntries : Manifest → St World (result error (list (content * DataFile)));
  ReadFooter : string → St World (result error footer);
  FileToDataFile : table → string → list nat → St World (result error (Z * Metrics));
  NewDataFileBuilder : PartitionSpec → string → option Tuple → Z → Z → result error unit;
  Stage : table → operation → gmap string string → St World (option error);
  Commit : table → operation → gmap string string → St World (result error table);
}.

(** ** pkg/icebergjob/commit_shared.go *)

Definition WriteModeAppend : string := "APPEND".
Definition WriteModeFullLoad : string := "FULL_LOAD".
Definition commit_key : string := "datuplet.commit-key".

Record CommitResult := MkCommitResult {
  cr_SnapshotIDBefore : string;
  cr_SnapshotIDAfter : string;
  cr_DataFilesAdded : nat;
  cr_WriteMode : string;
  cr_IdempotencyHit : bool;
}.
Definition empty_result (mode : string) : CommitResult := MkCommitResult EmptyString EmptyString 0 mode false.
Definition set_after (sid : string) (r : CommitResult) : CommitResult :=
  MkCommitResult (cr_SnapshotIDBefore r) sid (cr_DataFilesAdded r) (cr_WriteMode r) (cr_IdempotencyHit r).
Definition set_hit (r : CommitResult) : CommitResult :=
  MkCommitResult (cr_SnapshotIDBefore r) (cr_SnapshotIDAfter r) (cr_DataFilesAdded r) (cr_WriteMode r) true.

Section Commit.
Context `{UT : !UnicodeTables} `{IT : !IcebergTypes} `{IB : !Iceberg}.

Record PartitionedFiles := MkPartitionedFiles { pf_SpecID : Z; pf_Tuples : list (option Tuple) }.

Definition snapshotIDOrEmpty (t : table) : string :=
  match t_CurrentSnapshot t with Some s => itoa (sn_SnapshotID s) | None => EmptyString end.

(** [tbl.Metadata().PartitionSpecByID]. *)
Definition PartitionSpecByID (t : table) (id : Z) : option PartitionSpec :=
  snd <$> find (λ x, bool_decide (x.1 = id)) (t_Specs t).

Definition has_commit_key (key : string) (s : snapshot) : bool :=
  match sn_Summary s with
  | Some props => bool_decide (default EmptyString (props !! commit_key) = key)
  | None => false
  end.
(** Newest first. *)
Definition findSnapshotByCommitKey (t : table) (key : string) : string :=
  match find (has_commit_key key) (reverse (t_Snapshots t)) with
  | Some s => itoa (sn_SnapshotID s)
  | None => EmptyString
  end.

(** The loop over the manifests, with the data files found so far. *)
Fixpoint fetch_manifests (l : list Manifest) (files : list DataFile) : St World (result error (list DataFile)) :=
  match l with
  | [] => mret (Ok files)
  | mf :: l =>
    entries ← FetchEntries mf;
    match entries with
    | Err e => mret (Err (wrap_error "fetch manifest entries: " e))
    | Ok entries =>
      fetch_manifests l (files ++ omap (λ x : content * DataFile,
        match x.1 with EntryContentData => Some x.2 | EntryContentDeletes => None end) entries)
    end
  end.
Definition currentSnapshotDataFiles (t : table) : St World (result error (list DataFile)) :=
  match t_CurrentSnapshot t with
  | None => mret (Ok [])
  | Some snap =>
    fs ← TableFS t;
    match fs with
    | Err e => mret (Err (wrap_error "open table FS: " e))
    | Ok _ =>
      manifests ← Manifests snap;
      match manifests with
      | Err e => mret (Err (wrap_error "read manifest list: " e))
      | Ok manifests => fetch_manifests manifests []
      end
    end
  end.

(** The rows of the row groups that are not empty. *)
Definition kept_groups (f : footer) : list nat :=
  (λ x : nat * Z, x.1) <$> filter (λ x : nat * Z, (0 < x.2)%Z) (imap (λ i n, (i, n)) (ft_RowGroups f)).
(** The record count and metrics of a file, and its size. *)
Definition footerMetrics (t : table) (path : string) : St World (result error (Z * Metrics * Z)) :=
  try (ReadFooter path) (λ f,
  if ft_Encrypted f then mret (Err (new_error "unsupported encrypted parquet file"))
  else try (FileToDataFile t path (kept_groups f)) (λ stats, mret (Ok (stats, ft_Size f)))).

Definition spec_changed (was now : Z) : error :=
  new_error ("partition spec changed during the run (spec id " +:+ itoa was +:+ " → " +:+ itoa now +:+ ")").

(** One file of buildDataFiles. *)
Definition build_data_file (t : table) (specID : Z) (spec : PartitionSpec) (path : string) (tuple : option Tuple) :
    St World (result error DataFile) :=
  r ← footerMetrics t path;
  match r with
  | Err e => mret (Err (wrap_error ("read footer of " +:+ path +:+ ": ") e))
  | Ok (count, metrics, size) =>
    match NewDataFileBuilder spec path tuple count size with
    | Err e => mret (Err (wrap_error ("data file " +:+ path +:+ ": ") e))
    | Ok _ => mret (Ok (MkDataFile path specID tuple count size metrics None))
    end
  end.
(** Every file is read, even after an error: the errors are joined. *)
Fixpoint build_all (t : table) (specID : Z) (spec : PartitionSpec) (l : list (string * option Tuple)) :
    St World (list (result error DataFile)) :=
  match l with
  | [] => mret []
  | (path, tuple) :: l =>
    r ← build_data_file t specID spec path tuple;
    rs ← build_all t specID spec l;
    mret (r :: rs)
  end.
Definition errors_of {A} (l : list (result error A)) : list error :=
  omap (λ r, match r with Err e => Some e | Ok _ => None end) l.
Definition oks_of {A} (l : list (result error A)) : list A :=
  omap (λ r, match r with Ok a => Some a | Err _ => None end) l.
Definition buildDataFiles (t : table) (paths : list string) (part : PartitionedFiles) :
    St World (result error (list DataFile)) :=
  if negb (bool_decide (length (pf_Tuples part) = length paths)) then
    mret (Err (new_error ("CommitTableFiles: " +:+ itoa_nat (length (pf_Tuples part)) +:+ " partition tuples for " +:+
                          itoa_nat (length paths) +:+ " files")))
  else match PartitionSpecByID t (pf_SpecID part) with
  | None => mret (Err (spec_changed (pf_SpecID part) (t_DefaultPartitionSpec t)))
  | Some spec =>
    fs ← TableFS t;
    match fs with
    | Err e => mret (Err (wrap_error "open table FS: " e))
    | Ok _ =>
      rs ← build_all t (pf_SpecID part) spec (zip paths (pf_Tuples part));
      match errors_of rs with
      | [] => mret (Ok (oks_of rs))
      | errs => mret (Err (join_errors errs))
      end
    end
  end.

Definition set_first_row (n : Z) (f : DataFile) : DataFile :=
  MkDataFile (df_FilePath f) (df_SpecID f) (df_Partition f) (df_Count f) (df_FileSize f) (df_Metrics f) (Some n).
Fixpoint assignFirstRowIDs (files : list DataFile) (next : Z) : list DataFile :=
  match files with
  | [] => []
  | f :: files => set_first_row next f :: assignFirstRowIDs files (wrap64 (next + df_Count f))
  end.

(** What the retried closure captures and changes: the result, and the data
    files through their builders. *)
Record captured := MkCaptured { cp_result : CommitResult; cp_files : list DataFile }.

(** The checks of a partitioned commit, and the files with their row ids. *)
Definition partition_checks (ident : list string) (part : PartitionedFiles) (fresh : table) (files : list DataFile) :
    result error (list DataFile) :=
  if negb (t_DefaultPartitionSpec fresh =? pf_SpecID part)%Z then
    Err (spec_changed (pf_SpecID part) (t_DefaultPartitionSpec fresh))
  else if (3 <=? t_Version fresh)%Z then
    if (0 <? t_CommitNumRetries fresh)%N then
      Err (new_error ("table [" +:+ join " " ident +:+ "] has commit.retry.num-retries=" +:+
        itoa (Z.of_N (t_CommitNumRetries fresh)) +:+
        ": partitioned v3 commits assign explicit first_row_ids, which iceberg-go's internal retry does not re-base; set it to 0"))
    else Ok (assignFirstRowIDs files (t_NextRowID fresh))
  else Ok files.

(** The operation of the mode, on the table just loaded. *)
Definition operation_of (mode : string) (paths : list string) (part : option PartitionedFiles) (fresh : table)
    (files : list DataFile) : St World (result error operation) :=
  if decide (mode = WriteModeAppend) then
    mret (Ok (match part with Some _ => AddDataFiles files | None => AddFiles paths end))
  else
    old ← currentSnapshotDataFiles fresh;
    match old with
    | Err e => mret (Err (wrap_error "list current snapshot files: " e))
    | Ok old =>
      mret (Ok (match part with
        | Some _ => ReplaceDataFilesWithDataFiles old files
        | None => ReplaceDataFiles (df_FilePath <$> old) paths
        end))
    end.

(** NewTransaction, the operation, and Commit. *)
Definition transact (fresh : table) (op : operation) (props : gmap string string) : St World (result error table) :=
  e ← Stage fresh op props;
  match e with
  | Some e => mret (Err e)
  | None => Commit fresh op props
  end.

(** One attempt. *)
Definition attempt (ident paths : list string) (part : option PartitionedFiles) (mode : string)
    (props : gmap string string) (idempotencyKey : string) : St (World * captured) (option error) :=
  λ '(w, c),
  let (w, r) := LoadTable ident w in
  match r with
  | Err e => (w, c, Some e)
  | Ok fresh =>
    let sid := if str_empty idempotencyKey then EmptyString else findSnapshotByCommitKey fresh idempotencyKey in
    if negb (str_empty sid) then
      (w, MkCaptured (set_after sid (cp_result c)) (cp_files c),
       Some (MkError [errIdempotencyHit] "icebergjob: idempotency hit"))
    else
      match match part with
            | Some part => partition_checks ident part fresh (cp_files c)
            | None => Ok (cp_files c)
            end with
      | Err e => (w, c, Some e)
      | Ok files =>
        let c := MkCaptured (cp_result c) files in
        let (w, op) := operation_of mode paths part fresh files w in
        match op with
        | Err e => (w, c, Some e)
        | Ok op =>
          let (w, committed) := transact fresh op props w in
          match committed with
          | Err e => (w, c, Some e)
          | Ok committed => (w, MkCaptured (set_after (snapshotIDOrEmpty committed) (cp_result c)) files, None)
          end
        end
      end
  end.

Definition commit_props (snapshotProps : gmap string string) (idempotencyKey : string) : gmap string string :=
  if str_empty idempotencyKey then snapshotProps else <[commit_key := idempotencyKey]> snapshotProps.

Definition CommitTableFiles (ident dataPaths : list string) (part : option PartitionedFiles) (mode : string)
    (snapshotProps : gmap string string) (idempotencyKey : string) : St World (result error CommitResult) :=
  match dataPaths with
  | [] => mret (Ok (empty_result mode))
  | _ =>
    if negb (bool_decide (mode = WriteModeAppend) || bool_decide (mode = WriteModeFullLoad)) then
      mret (Err (new_error ("CommitTableFiles: unsupported write mode " +:+ quote mode)))
    else if bool_decide (is_Some (snapshotProps !! commit_key)) then
      mret (Err (new_error "CommitTableFiles: caller must not set snapshotProps[datuplet.commit-key]; pass idempotencyKey"))
    else
      let props := commit_props snapshotProps idempotencyKey in
      tbl ← LoadTable ident;
      match tbl with
      | Err e => mret (Err (wrap_error ("CommitTableFiles: load table [" +:+ join " " ident +:+ "]: ") e))
      | Ok tbl =>
        let result := MkCommitResult (snapshotIDOrEmpty tbl) EmptyString (length dataPaths) mode false in
        try (match part with Some part => buildDataFiles tbl dataPaths part | None => mret (Ok []) end) (λ files w,
        let '((w, c), runErr) :=
          RetryOnConflict (on_world ctx_Err) (on_world Float64) (λ d, on_world (Sleep d)) (MkRetryOpts 0 0)
            (attempt ident dataPaths part mode props idempotencyKey) (w, MkCaptured result files) in
        match runErr with
        | Some e =>
          if errors_Is e errIdempotencyHit then (w, Ok (set_hit (cp_result c))) else (w, Err e)
        | None => (w, Ok (cp_result c))
        end)
      end
  end.
End Commit.

(** ** The retry envelope *)

Section RetryLemmas.
Context {X : Type}.
Variables (ctx_Err : St X (option error)) (Float64 : St X spec_float) (Sleep : Z → St X (option error)).

(** A rule for the loop: [I] holds before every attempt, [Q] of the outcome. *)
Lemma retry_loop_rule (I : X → Prop) (Q : X → option error → Prop) base max n k fn :
  n ≠ 0 →
  (∀ x, I x → I (ctx_Err x).1 ∧ ∀ e, (ctx_Err x).2 = Some e → Q (ctx_Err x).1 (Some e)) →
  (∀ x, I x → I (Float64 x).1) →
  (∀ d x, I x → I (Sleep d x).1 ∧ ∀ e, (Sleep d x).2 = Some e → Q (Sleep d x).1 (Some e)) →
  (∀ x x' r, I x → fn x = (x', r) →
    match r with
    | None => Q x' None
    | Some e => if IsCommitConflict e then I x' ∧ ∀ p, Q x' (Some (wrap_error p e)) else Q x' (Some e)
    end) →
  ∀ x, I x → let (x', r) := retry_loop ctx_Err Float64 Sleep base max n k fn x in Q x' r.
Proof.
  intros Hn Hctx Hfl Hsl Hfn. revert k Hn. induction n as [|n IH]; intros k Hn x Hx; [done|].
  cbn [retry_loop]. unfold mbind, St_bind, mret, St_ret.
  destruct (Hctx x Hx) as [Hx1 He]. destruct (ctx_Err x) as [x1 [e|]]; cbn in *; [by apply He|].
  specialize (Hfn x1). destruct (fn x1) as [x2 [err|]] eqn:Ef; [|by apply (Hfn x2 None)].
  specialize (Hfn x2 (Some err) Hx1 eq_refl). cbn in Hfn.
  destruct (IsCommitConflict err) eqn:Ec; cbn [negb]; [|done]. destruct Hfn as [Hx2 Hq].
  destruct (decide (n = 0)); [by apply Hq|].
  specialize (Hfl x2 Hx2). destruct (Float64 x2) as [x3 rnd]; cbn in *.
  destruct (Hsl (next_backoff base k rnd) x3 Hfl) as [Hx4 He4].
  destruct (Sleep _ x3) as [x4 [e|]]; cbn in *; [by apply He4|]. by apply IH.
Qed.

(** The results of the attempts, and what the loop makes of them. *)
Definition logged (fn : St X (option error)) : St (X * list (option error)) (option error) :=
  λ s, let (x, r) := fn s.1 in ((x, s.2 ++ [r]), r).
Definition conflicts (l : list (option error)) : Prop :=
  Forall (λ r, ∃ e, r = Some e ∧ IsCommitConflict e = true) l.
(** An error of the context, before an attempt or during a sleep. *)
Definition context_error (e : error) : Prop :=
  ∃ x, (ctx_Err x).2 = Some e ∨ ∃ d, (Sleep d x).2 = Some e.
Inductive retry_outcome (max : nat) : list (option error) → option error → Prop :=
| ro_success l : conflicts l → length l < max → retry_outcome max (l ++ [None]) None
| ro_other l e : conflicts l → length l < max → IsCommitConflict e = false →
    retry_outcome max (l ++ [Some e]) (Some e)
| ro_exhausted l e : conflicts l → Datatypes.S (length l) = max → IsCommitConflict e = true →
    retry_outcome max (l ++ [Some e])
      (Some (wrap_error ("commit failed after " +:+ itoa_nat max +:+ " attempts: ") e))
| ro_context l e : conflicts l → length l < max → context_error e → retry_outcome max l (Some e).

Lemma retry_loop_log base max n k fn x l :
  n ≠ 0 → conflicts l → length l + n = max →
  let (s', r) := retry_loop (on_world ctx_Err) (on_world Float64) (λ d, on_world (Sleep d)) base max n k
    (logged fn) (x, l) in
  retry_outcome max s'.2 r.
Proof.
  revert k x l. induction n as [|n IH]; intros k x l Hn Hl Hmax; [done|].
  cbn [retry_loop]. unfold mbind, St_bind, mret, St_ret, on_world at 1. cbn [fst snd].
  destruct (ctx_Err x) as [x1 [e|]] eqn:Ec; cbn.
  { apply ro_context; [done|lia|]. exists x. left. by rewrite Ec. }
  unfold logged at 1. cbn [fst snd]. destruct (fn x1) as [x2 [err|]]; cbn; [|apply ro_success; [done|lia]].
  destruct (IsCommitConflict err) eqn:Ee; cbn [negb]; [|apply ro_other; [done|lia|done]].
  destruct (decide (n = 0)) as [->|Hn']; [apply ro_exhausted; [done|lia|done]|].
  assert (conflicts (l ++ [Some err])) as Hl'.
  { apply Forall_app. split; [done|]. apply Forall_singleton. by exists err. }
  unfold on_world at 1. cbn [fst snd]. destruct (Float64 x2) as [x3 rnd]; cbn.
  unfold on_world at 1. cbn [fst snd]. destruct (Sleep _ x3) as [x4 [e|]] eqn:Es; cbn.
  { apply ro_context; [done|rewrite length_app; cbn; lia|]. exists x3. right. eexists. by rewrite Es. }
  apply IH; [done|done|]. rewrite length_app. cbn. lia.
Qed.

(** An operation is retried only after a commit conflict: it runs at most
    MaxAttempts times (five by default), every run but the last ends in a
    conflict, a success and any other error are returned as they are, the last
    conflict with the number of attempts, and the rest are the context's errors. *)
Theorem RetryOnConflict_outcome (opts : RetryOpts) (fn : St X (option error)) (x : X) :
  let (s', r) := RetryOnConflict (on_world ctx_Err) (on_world Float64) (λ d, on_world (Sleep d)) opts
    (logged fn) (x, []) in
  retry_outcome (if (ro_MaxAttempts opts <=? 0)%Z then DefaultMaxRetries else Z.to_nat (ro_MaxAttempts opts)) s'.2 r.
Proof.
  unfold RetryOnConflict. apply retry_loop_log; [|constructor|done].
  destruct (Z.leb_spec (ro_MaxAttempts opts) 0); [done|lia].
Qed.
End RetryLemmas.

(** ** What the code relies on *)

(** How an operation reports an error. *)
Definition err_of {A} (r : result error A) : option error := match r with Err e => Some e | Ok _ => None end.

Section Lawful.
Context `{UT : !UnicodeTables} `{IT : !IcebergTypes} `{IB : !Iceberg}.
Variables (key : string) (history : World → list snapshot).

Definition foreign (l : list snapshot) : Prop := Forall (λ s, has_commit_key key s = false) l.
(** While the operation runs the table may gain snapshots, of other writers, and
    none goes away; its errors do not wrap the private sentinel. *)
Definition lawful {A} (errs : A → option error) (m : St World A) : Prop :=
  ∀ w, (∃ l, history (m w).1 = history w ++ l ∧ foreign l) ∧
       ∀ e, errs (m w).2 = Some e → errors_Is e errIdempotencyHit = false.

(** A load returns the snapshots the table had at some moment of the call.  A
    commit adds its snapshot or does not, whatever it returns; when it succeeds
    it has, and that snapshot is the current one of the table returned. *)
Class CatalogLaws : Prop := {
  law_ctx : lawful id ctx_Err;
  law_sleep d : lawful id (Sleep d);
  law_float : lawful (λ _, None) Float64;
  law_fs t : lawful err_of (TableFS t);
  law_manifests s : lawful err_of (Manifests s);
  law_entries mf : lawful err_of (FetchEntries mf);
  law_footer p : lawful err_of (ReadFooter p);
  law_stats t p l : lawful err_of (FileToDataFile t p l);
  law_builder sp p tu c n e : NewDataFileBuilder sp p tu c n = Err e → errors_Is e errIdempotencyHit = false;
  law_stage t op props : lawful id (Stage t op props);
  law_load ident : lawful err_of (LoadTable ident);
  law_load_fresh ident w t : (LoadTable ident w).2 = Ok t → ∃ l l',
    t_Snapshots t = history w ++ l ∧ history (LoadTable ident w).1 = t_Snapshots t ++ l' ∧ foreign l ∧ foreign l';
  law_commit t op props w : props !! commit_key = Some key → ∃ l own l',
    history (Commit t op props w).1 = history w ++ l ++ own ++ l' ∧ foreign l ∧ foreign l' ∧
    (own = [] ∨ ∃ s, own = [s] ∧ has_commit_key key s = true) ∧
    match (Commit t op props w).2 with
    | Ok t' => ∃ s, own = [s] ∧ t_CurrentSnapshot t' = Some s
    | Err e => errors_Is e errIdempotencyHit = false
    end;
}.

(** The snapshots of this commit. *)
Definition mine (w : World) : list snapshot := filter (λ s, has_commit_key key s = true) (history w).
Lemma filter_foreign l : foreign l → filter (λ s, has_commit_key key s = true) l = [].
Proof.
  induction 1 as [|s l Hs Hl IH]; [done|]. rewrite filter_cons_False; [done|]. by rewrite Hs.
Qed.

Lemma lawful_mine {A} errs (m : St World A) w : lawful errs m → mine (m w).1 = mine w.
Proof.
  intros H. destruct (H w) as [(l & Hl & Hf) _]. unfold mine.
  by rewrite Hl, filter_app, (filter_foreign l), app_nil_r.
Qed.
Lemma lawful_err {A} errs (m : St World A) w w' r e :
  lawful errs m → m w = (w', r) → errs r = Some e → errors_Is e errIdempotencyHit = false.
Proof. intros H Hm. destruct (H w) as [_ He]. rewrite Hm in He. apply He. Qed.

(** *** Composition *)

Lemma lawful_ret {A} errs (a : A) :
  (∀ e, errs a = Some e → errors_Is e errIdempotencyHit = false) → lawful errs (mret a).
Proof. intros H w. split; [|done]. exists []. split; [by rewrite app_nil_r|constructor]. Qed.
Lemma lawful_bind {A B} errsA errsB (m : St World A) (f : A → St World B) :
  lawful errsA m → (∀ a, (∀ e, errsA a = Some e → errors_Is e errIdempotencyHit = false) → lawful errsB (f a)) →
  lawful errsB (m ≫= f).
Proof.
  intros Hm Hf w. unfold mbind, St_bind. destruct (Hm w) as [(l & Hl & Hfl) He].
  destruct (m w) as [w1 a]. cbn in *. destruct (Hf a He w1) as [(l' & Hl' & Hfl') He'].
  split; [|done]. exists (l ++ l'). rewrite Hl', Hl, app_assoc. split; [done|]. by apply Forall_app.
Qed.
Lemma lawful_try {A B} (m : St World (result error A)) (f : A → St World (result error B)) :
  lawful err_of m → (∀ a, lawful err_of (f a)) → lawful err_of (try m f).
Proof.
  intros Hm Hf.
  assert (lawful err_of (m ≫= λ r, match r with Ok a => f a | Err e => mret (Err e) end)) as H.
  { apply (lawful_bind err_of _ _ _ Hm). intros [a|e] He; [done|by apply lawful_ret]. }
  intros w. specialize (H w). unfold try, mbind, St_bind in *. by destruct (m w) as [w1 [a|e]].
Qed.
Lemma wrap_private p e : errors_Is (wrap_error p e) errIdempotencyHit = errors_Is e errIdempotencyHit.
Proof. done. Qed.
Lemma new_private msg : errors_Is (new_error msg) errIdempotencyHit = false.
Proof. done. Qed.
End Lawful.

Section Laws.
Context `{UT : !UnicodeTables} `{IT : !IcebergTypes} `{IB : !Iceberg}.
Context (key : string) (history : World → list snapshot) `{CLs : !CatalogLaws key history}.
Abbreviation lawful_r := (lawful key history err_of).

Lemma fetch_manifests_lawful l files : lawful_r (fetch_manifests l files).
Proof.
  revert files. induction l as [|mf l IH]; intros files; cbn [fetch_manifests].
  { by apply lawful_ret. }
  eapply lawful_bind; [apply law_entries; exact CLs|]. intros [x|e] He; [apply IH|].
  apply lawful_ret. intros e' [= <-]. rewrite wrap_private. by apply He.
Qed.
Lemma currentSnapshotDataFiles_lawful t : lawful_r (currentSnapshotDataFiles t).
Proof.
  unfold currentSnapshotDataFiles. destruct (t_CurrentSnapshot t) as [s|]; [|by apply lawful_ret].
  eapply lawful_bind; [apply law_fs; exact CLs|]. intros [x|e] He; [|apply lawful_ret; intros e' [= <-]; rewrite wrap_private; by apply He].
  eapply lawful_bind; [apply law_manifests; exact CLs|]. intros [l|e] He'; [|apply lawful_ret; intros e' [= <-]; rewrite wrap_private; by apply He'].
  apply fetch_manifests_lawful.
Qed.
Lemma operation_of_lawful mode paths part t files : lawful_r (operation_of mode paths part t files).
Proof.
  unfold operation_of. destruct (decide _); [by apply lawful_ret|].
  eapply lawful_bind; [apply currentSnapshotDataFiles_lawful|].
  intros [x|e] He; [by apply lawful_ret|apply lawful_ret; intros e' [= <-]; rewrite wrap_private; by apply He].
Qed.
Lemma footerMetrics_lawful t p : lawful_r (footerMetrics t p).
Proof.
  unfold footerMetrics. apply lawful_try; [apply law_footer; exact CLs|]. intros f.
  destruct (ft_Encrypted f); [apply lawful_ret; by intros e [= <-]|].
  apply lawful_try; [apply law_stats; exact CLs|]. intros x. by apply lawful_ret.
Qed.
Lemma build_data_file_lawful t id spec p tu : lawful_r (build_data_file t id spec p tu).
Proof.
  unfold build_data_file. eapply lawful_bind; [apply footerMetrics_lawful|].
  intros [[[c m] n]|e] He; [|apply lawful_ret; intros e' [= <-]; rewrite wrap_private; by apply He].
  destruct (NewDataFileBuilder _ _ _ _ _) as [x|e] eqn:E; [by apply lawful_ret|].
  apply lawful_ret. intros e' [= <-]. rewrite wrap_private. by eapply law_builder.
Qed.
Definition all_private {A} (rs : list (result error A)) : Prop :=
  Forall (λ e, errors_Is e errIdempotencyHit = false) (errors_of rs).
Lemma build_all_lawful t id spec l : lawful key history (λ _, None) (build_all t id spec l) ∧
  ∀ w, all_private (build_all t id spec l w).2.
Proof.
  induction l as [|[p tu] l [IH IHp]]; cbn [build_all].
  { split; [by apply lawful_ret|constructor]. }
  split.
  - eapply lawful_bind; [apply build_data_file_lawful|]. intros r _.
    eapply lawful_bind; [exact IH|]. intros rs _. by apply lawful_ret.
  - intros w. unfold mbind, St_bind, mret, St_ret.
    pose proof (build_data_file_lawful t id spec p tu w) as [_ He].
    destruct (build_data_file _ _ _ _ _ w) as [w1 r]. specialize (IHp w1).
    destruct (build_all _ _ _ _ w1) as [w2 rs]. cbn in *. unfold all_private, errors_of in *.
    destruct r as [f|e]; cbn; [done|]. constructor; [by apply He|done].
Qed.
Lemma join_private l : Forall (λ e, errors_Is e errIdempotencyHit = false) l →
  errors_Is (join_errors l) errIdempotencyHit = false.
Proof.
  unfold errors_Is, join_errors. cbn. intros H. apply bool_decide_eq_false. intros Hin.
  apply list_elem_of_join in Hin as (ws & Hs & Hw). apply list_elem_of_fmap in Hw as (e & -> & He).
  rewrite Forall_forall in H. specialize (H e He). by apply bool_decide_eq_false in H.
Qed.
Lemma buildDataFiles_lawful t paths part : lawful_r (buildDataFiles t paths part).
Proof.
  unfold buildDataFiles. destruct (negb _); [apply lawful_ret; by intros e [= <-]|].
  destruct (PartitionSpecByID _ _) as [spec|]; [|apply lawful_ret; by intros e [= <-]].
  eapply lawful_bind; [apply law_fs; exact CLs|]. intros [x|e] He; [|apply lawful_ret; intros e' [= <-]; rewrite wrap_private; by apply He].
  destruct (build_all_lawful t (pf_SpecID part) spec (zip paths (pf_Tuples part))) as [Hb Hp].
  intros w. unfold mbind, St_bind. specialize (Hp w). destruct (Hb w) as [Hq _].
  destruct (build_all _ _ _ _ w) as [w' rs]. cbn in *. unfold all_private in Hp.
  destruct (errors_of rs) as [|e es] eqn:E; cbn; (split; [done|]); [done|]. intros e' [= <-]. by apply join_private.
Qed.

(** *** One attempt *)

Abbreviation mine := (mine key history).

Lemma load_mine ident w t : (LoadTable ident w).2 = Ok t →
  mine (LoadTable ident w).1 = mine w ∧ filter (λ s, has_commit_key key s = true) (t_Snapshots t) = mine w.
Proof.
  intros (l & l' & Ht & Hw & Hf & Hf')%(law_load_fresh key history). unfold CommitTable.mine.
  by rewrite Hw, Ht, !filter_app, (filter_foreign key l), (filter_foreign key l'), !app_nil_r.
Qed.
Lemma itoa_nonempty z : itoa z ≠ EmptyString.
Proof.
  destruct z as [|p|p]; [done| |done]. rewrite itoa_pos. by apply pretty_N_go_nonempty.
Qed.
Lemma find_key t :
  match find (has_commit_key key) (reverse (t_Snapshots t)) with
  | Some s => s ∈ filter (λ s, has_commit_key key s = true) (t_Snapshots t)
  | None => filter (λ s, has_commit_key key s = true) (t_Snapshots t) = []
  end.
Proof.
  destruct (find _ _) as [s|] eqn:E.
  - apply find_some in E as [Hin Hs]. apply list_elem_of_filter. split; [done|].
    by rewrite <-list_elem_of_In, elem_of_reverse in Hin.
  - apply filter_foreign. apply Forall_forall. intros s Hs. apply (find_none _ _ E).
    by rewrite <-list_elem_of_In, elem_of_reverse.
Qed.
Lemma commit_mine t op props w w' r : props !! commit_key = Some key → Commit t op props w = (w', r) →
  (mine w' = mine w ∨ ∃ s, mine w' = mine w ++ [s]) ∧
  match r with
  | Ok t' => ∃ s, mine w' = mine w ++ [s] ∧ snapshotIDOrEmpty t' = itoa (sn_SnapshotID s)
  | Err e => errors_Is e errIdempotencyHit = false
  end.
Proof.
  intros Hp Hc. pose proof (law_commit key history t op props w Hp) as (l & own & l' & Hh & Hf & Hf' & Ho & Hr).
  rewrite Hc in Hh, Hr. cbn in Hh, Hr.
  assert (mine w' = mine w ++ filter (λ s, has_commit_key key s = true) own) as Hm.
  { unfold CommitTable.mine. rewrite Hh, !filter_app, (filter_foreign key l), (filter_foreign key l') by done.
    by rewrite app_nil_l, app_nil_r. }
  assert (∀ s, own = [s] → mine w' = mine w ++ [s]) as Hs.
  { intros s ->. destruct Ho as [?|(s' & [= <-] & Hs)]; [done|]. by rewrite Hm, filter_cons_True. }
  split.
  - destruct Ho as [->|(s & Ho & _)]; [left; by rewrite Hm, app_nil_r|right; exists s; by apply Hs].
  - destruct r as [t'|e]; [|done]. destruct Hr as (s & Ho' & Hcur). exists s. split; [by apply Hs|].
    unfold snapshotIDOrEmpty. by rewrite Hcur.
Qed.
Lemma transact_mine t op props w w' r : props !! commit_key = Some key → transact t op props w = (w', r) →
  (mine w' = mine w ∨ ∃ s, mine w' = mine w ++ [s]) ∧
  match r with
  | Ok t' => ∃ s, mine w' = mine w ++ [s] ∧ snapshotIDOrEmpty t' = itoa (sn_SnapshotID s)
  | Err e => errors_Is e errIdempotencyHit = false
  end.
Proof.
  intros Hp. unfold transact, mbind, St_bind, mret, St_ret.
  pose proof (law_stage key history t op props) as Hl. pose proof (lawful_mine key history id _ w Hl) as Hm.
  destruct (Hl w) as [_ He]. destruct (Stage t op props w) as [w1 [e|]]; cbn in *.
  - intros [= <- <-]. split; [by left|]. by apply He.
  - rewrite <-Hm. apply commit_mine, Hp.
Qed.

(** What an attempt does to the snapshots of this commit. *)
Definition attempt_post (w w' : World) (c' : captured) (r : option error) : Prop :=
  (mine w' = mine w ∨ ∃ s, mine w' = mine w ++ [s] ∧ mine w = []) ∧
  match r with
  | None => ∃ s, mine w' = [s] ∧ cr_SnapshotIDAfter (cp_result c') = itoa (sn_SnapshotID s)
  | Some e => errors_Is e errIdempotencyHit = true →
      ∃ s, s ∈ mine w' ∧ cr_SnapshotIDAfter (cp_result c') = itoa (sn_SnapshotID s)
  end.
Lemma partition_checks_private ident part t files e :
  partition_checks ident part t files = Err e → errors_Is e errIdempotencyHit = false.
Proof. unfold partition_checks. repeat case_match; by intros [= <-]. Qed.
Lemma attempt_spec ident paths part mode props w c w' c' r :
  key ≠ EmptyString → props !! commit_key = Some key →
  attempt ident paths part mode props key (w, c) = (w', c', r) →
  attempt_post w w' c' r ∧ cr_DataFilesAdded (cp_result c') = cr_DataFilesAdded (cp_result c).
Proof.
  intros Hk Hp. unfold attempt. pose proof (load_mine ident w) as Hload.
  pose proof (law_load key history ident w) as [_ Hle].
  pose proof (lawful_mine key history err_of _ w (law_load key history ident)) as Hm.
  destruct (LoadTable ident w) as [w1 [fresh|e]]; cbn in *.
  2: { intros [= <- <- <-]. split; [|done]. split; [by left|]. intros H. by rewrite Hle in H. }
  destruct (Hload fresh eq_refl) as [_ Hf]. clear Hload Hle.
  rewrite (proj2 (str_empty_false key) Hk). pose proof (find_key fresh) as Hfind. unfold findSnapshotByCommitKey.
  destruct (find _ _) as [s|] eqn:Es.
  { rewrite (proj2 (str_empty_false _) (itoa_nonempty _)). cbn [negb]. intros [= <- <- <-]. split; [|done].
    split; [by left|]. intros _. exists s. split; [|done]. by rewrite Hm, <-Hf. }
  cbn [str_empty negb]. rewrite Hf in Hfind.
  destruct (match part with Some p => partition_checks ident p fresh (cp_files c) | None => Ok (cp_files c) end)
    as [files|e] eqn:Ep.
  2: { intros [= <- <- <-]. split; [|done]. split; [by left|]. intros H.
       destruct part as [p|]; [|done]. by rewrite (partition_checks_private _ _ _ _ _ Ep) in H. }
  pose proof (operation_of_lawful mode paths part fresh files) as Hol.
  pose proof (lawful_mine key history err_of _ w1 Hol) as Hm2. destruct (Hol w1) as [_ Hoe].
  destruct (operation_of mode paths part fresh files w1) as [w2 [op|e]]; cbn in *.
  2: { intros [= <- <- <-]. split; [|done]. split; [left; congruence|]. intros H. by rewrite Hoe in H. }
  destruct (transact fresh op props w2) as [w3 r3] eqn:Et.
  destruct (transact_mine fresh op props w2 w3 r3 Hp Et) as [Hm3 Hr].
  assert (mine w2 = []) as H0 by congruence.
  destruct r3 as [t'|e]; intros [= <- <- <-]; (split; [|done]); split.
  - destruct Hr as (s & Hs & _). right. exists s. split; [|congruence]. by rewrite Hs, H0, Hfind.
  - destruct Hr as (s & Hs & Hid). exists s. split; [by rewrite Hs, H0|done].
  - destruct Hm3 as [Hm3|(s & Hm3)]; [left; congruence|]. right. exists s. split; [|done]. by rewrite Hm3, H0, Hfind.
  - intros H. by rewrite Hr in H.
Qed.

(** *** The commit *)

(** From [w] to [w'] at most one snapshot of this commit appeared, and only if
    there was none. *)
Definition once (w w' : World) : Prop := mine w' = mine w ∨ (∃ s, mine w' = [s]) ∧ mine w = [].
Lemma once_trans w1 w2 w3 : once w1 w2 → once w2 w3 → once w1 w3.
Proof.
  intros [H|[[s H] H0]] [H'|[[s' H'] H0']]; unfold once; [left|right|right|congruence].
  - congruence.
  - split; [by exists s'|congruence].
  - split; [exists s; congruence|done].
Qed.
Lemma lawful_once {A} errs (m : St World A) w : lawful key history errs m → once w (m w).1.
Proof. intros H. left. by apply (lawful_mine key history errs). Qed.

Definition committed_post (w w' : World) (n : nat) (c : captured) (r : option error) : Prop :=
  once w w' ∧ cr_DataFilesAdded (cp_result c) = n ∧
  match r with
  | None => ∃ s, s ∈ mine w' ∧ cr_SnapshotIDAfter (cp_result c) = itoa (sn_SnapshotID s)
  | Some e => errors_Is e errIdempotencyHit = true →
      ∃ s, s ∈ mine w' ∧ cr_SnapshotIDAfter (cp_result c) = itoa (sn_SnapshotID s)
  end.
Lemma retry_committed ident paths part mode props w c :
  key ≠ EmptyString → props !! commit_key = Some key →
  let (s', r) := RetryOnConflict (on_world ctx_Err) (on_world Float64) (λ d, on_world (Sleep d)) (MkRetryOpts 0 0)
    (attempt ident paths part mode props key) (w, c) in
  committed_post w s'.1 (cr_DataFilesAdded (cp_result c)) s'.2 r.
Proof.
  intros Hk Hp. set (n := cr_DataFilesAdded (cp_result c)).
  apply (retry_loop_rule _ _ _ (λ x, once w x.1 ∧ cr_DataFilesAdded (cp_result x.2) = n)
    (λ x r, committed_post w x.1 n x.2 r)); [done|..].
  - intros [w1 c1] [Ho Hn]. pose proof (lawful_once id ctx_Err w1 (law_ctx key history)) as Ho'.
    destruct (law_ctx key history w1) as [_ He]. unfold on_world. cbn in *.
    destruct (ctx_Err w1) as [w2 r]. cbn in *. pose proof (once_trans _ _ _ Ho Ho') as H.
    split; [done|]. intros e ->. split_and!; [done..|]. intros Hh. by rewrite He in Hh.
  - intros [w1 c1] [Ho Hn]. pose proof (lawful_once _ Float64 w1 (law_float key history)) as Ho'.
    unfold on_world. cbn in *. destruct (Float64 w1) as [w2 r]. cbn in *.
    split; [by eapply once_trans|done].
  - intros d [w1 c1] [Ho Hn]. pose proof (lawful_once id (Sleep d) w1 (law_sleep key history d)) as Ho'.
    destruct (law_sleep key history d w1) as [_ He]. unfold on_world. cbn in *.
    destruct (Sleep d w1) as [w2 r]. cbn in *. pose proof (once_trans _ _ _ Ho Ho') as H.
    split; [done|]. intros e ->. split_and!; [done..|]. intros Hh. by rewrite He in Hh.
  - intros [w1 c1] [w2 c2] r [Ho Hn] Ha. cbn in Ho, Hn.
    destruct (attempt_spec ident paths part mode props w1 c1 w2 c2 r Hk Hp Ha) as [[Hm Hr] Hadd].
    assert (once w w2) as Ho2.
    { apply (once_trans w w1 w2 Ho). destruct Hm as [Hm|(s & Hm & H0)]; [by left|].
      right. split; [|done]. exists s. by rewrite Hm, H0. }
    rewrite Hn in Hadd. destruct r as [e|].
    + cbn [fst snd]. destruct (IsCommitConflict e).
      * split; [done|]. intros p. split_and!; [done..|]. exact Hr.
      * split_and!; [done..|]. exact Hr.
    + split_and!; [done..|]. destruct Hr as (s & Hs & Hid). exists s. split; [|done]. change (s ∈ mine w2). rewrite Hs. by left.
  - split; [by left|done].
Qed.

Lemma CommitTableFiles_once ident paths part mode snapshotProps w w' r :
  key ≠ EmptyString → CommitTableFiles ident paths part mode snapshotProps key w = (w', r) →
  once w w' ∧ ∀ res, r = Ok res → paths ≠ [] →
    cr_DataFilesAdded res = length paths ∧ ∃ s, s ∈ mine w' ∧ cr_SnapshotIDAfter res = itoa (sn_SnapshotID s).
Proof.
  intros Hk. unfold CommitTableFiles. destruct paths as [|p paths].
  { intros [= <- <-]. split; [by left|done]. }
  destruct (negb _); [by intros [= <- <-]; split; [left|]|].
  destruct (bool_decide _); [by intros [= <- <-]; split; [left|]|].
  unfold commit_props. rewrite (proj2 (str_empty_false key) Hk). set (props := <[_:=_]> _).
  assert (props !! commit_key = Some key) as Hp by apply lookup_insert_eq.
  unfold mbind, St_bind, mret, St_ret, try.
  pose proof (lawful_once _ _ w (law_load key history ident)) as H1.
  destruct (LoadTable ident w) as [w1 [tbl|e]]; cbn in H1; [|by intros [= <- <-]].
  set (files := match part with Some p => _ | None => _ end).
  assert (lawful key history err_of files) as Hl.
  { unfold files. destruct part; [apply buildDataFiles_lawful|by apply lawful_ret]. }
  pose proof (lawful_once _ _ w1 Hl) as H2. destruct (files w1) as [w2 [fs|e]]; cbn in H2.
  2: { intros [= <- <-]. split; [by eapply once_trans|done]. }
  pose proof (retry_committed ident (p :: paths) part mode props w2
    (MkCaptured (MkCommitResult (snapshotIDOrEmpty tbl) EmptyString (length (p :: paths)) mode false) fs) Hk Hp) as HR.
  destruct (RetryOnConflict _ _ _ _ _ _) as [[w3 c3] runErr]. cbn [fst snd cp_result cr_DataFilesAdded] in HR.
  destruct HR as (H3 & Hn & Hr). assert (once w w3) as Ho by eauto using once_trans.
  destruct runErr as [e|].
  - destruct (errors_Is e errIdempotencyHit) eqn:E; intros [= <- <-]; (split; [done|]); [|done].
    intros res [= <-] _. split; [done|]. by apply Hr.
  - intros [= <- <-]. split; [done|]. intros res [= <-] _. by split.
Qed.
End Laws.

(** C29: committing under an idempotency key is exactly once.  However often the
    attempts conflict, fail or lose the answer of a commit that went through,
    and however often the commit is repeated, the table never has two snapshots
    of the key; and when the call succeeds it has exactly one, whose id is the
    one reported, with the number of data files. *)
Theorem CommitTableFiles_exactly_once `{UT : !UnicodeTables} `{IT : !IcebergTypes} `{IB : !Iceberg}
  (key : string) (history : World → list snapshot) (ident paths : list string) (part : option PartitionedFiles)
  (mode : string) (snapshotProps : gmap string string) (w w' : World) (r : result error CommitResult)
  (HL : CatalogLaws key history) (Hk : key ≠ EmptyString) (H1 : length (mine key history w) ≤ 1)
  (Hc : CommitTableFiles ident paths part mode snapshotProps key w = (w', r)) :
  length (mine key history w') ≤ 1 ∧ (mine key history w ≠ [] → mine key history w' = mine key history w) ∧
  ∀ res, r = Ok res → paths ≠ [] → ∃ s, mine key history w' = [s] ∧
    cr_SnapshotIDAfter res = itoa (sn_SnapshotID s) ∧ cr_DataFilesAdded res = length paths.
Proof.
  destruct (CommitTableFiles_once key history ident paths part mode snapshotProps w w' r Hk Hc) as [Ho Hr].
  assert (length (mine key history w') ≤ 1) as Hlen.
  { destruct Ho as [->|[[s ->] _]]; [done|cbn; lia]. }
  split_and!; [done| |].
  - intros Hne. by destruct Ho as [?|[_ ?]].
  - intros res Hres Hp. destruct (Hr res Hres Hp) as (Hn & s & Hs & Hid). exists s. split_and!; [|done..].
    destruct (mine key history w') as [|s' [|s'' l]]; [by apply elem_of_nil in Hs| |cbn in Hlen; lia].
    by apply list_elem_of_singleton in Hs as ->.
Qed.

(** ** Row ids of a partitioned v3 commit *)

Section RowIDs.
Context `{IT : !IcebergTypes}.

Definition total_rows (files : list DataFile) : Z := foldr (λ f n, (df_Count f + n)%Z) 0%Z files.
(** The file has the row [id]. *)
Definition has_row (id : Z) (f : DataFile) : Prop :=
  ∃ first, df_FirstRowID f = Some first ∧ (first ≤ id < first + df_Count f)%Z.

Lemma total_rows_nonneg files : Forall (λ f, 0 ≤ df_Count f)%Z files → (0 ≤ total_rows files)%Z.
Proof. induction 1; cbn; [done|]. fold (total_rows l). lia. Qed.
Lemma assign_range files next :
  Forall (λ f, 0 ≤ df_Count f)%Z files → (min_int64 ≤ next)%Z → (next + total_rows files ≤ max_int64)%Z →
  ∀ i f id, assignFirstRowIDs files next !! i = Some f → has_row id f → (next ≤ id < next + total_rows files)%Z.
Proof.
  intros Hc. revert next. induction Hc as [|f files Hf Hc IH]; intros next Hlo Hhi i g id; [done|].
  cbn [assignFirstRowIDs total_rows foldr] in *. fold (total_rows files) in *.
  pose proof (total_rows_nonneg files Hc) as Hn.
  destruct i as [|i]; cbn.
  - intros [= <-] (first & [= <-] & H). cbn in H. lia.
  - intros Hi Hr. rewrite wrap64_id in Hi by lia.
    pose proof (IH (next + df_Count f)%Z ltac:(lia) ltac:(lia) i g id Hi Hr). lia.
Qed.
Lemma assign_cover files next id :
  Forall (λ f, 0 ≤ df_Count f)%Z files → (min_int64 ≤ next)%Z → (next + total_rows files ≤ max_int64)%Z →
  (next ≤ id < next + total_rows files)%Z →
  ∃ i f, assignFirstRowIDs files next !! i = Some f ∧ has_row id f ∧
    ∀ j g, assignFirstRowIDs files next !! j = Some g → has_row id g → j = i.
Proof.
  intros Hc. revert next. induction Hc as [|f files Hf Hc IH]; intros next Hlo Hhi Hid; cbn in Hid; [lia|].
  cbn [assignFirstRowIDs total_rows foldr] in *. fold (total_rows files) in *.
  pose proof (total_rows_nonneg files Hc) as Hn. rewrite wrap64_id by lia.
  destruct (decide (id < next + df_Count f)%Z) as [Hlt|Hge].
  - exists 0, (set_first_row next f). split_and!; [done|exists next; split; [done|cbn; lia]|]. intros [|j] g; [done|].
    cbn. intros Hj Hr. pose proof (assign_range files (next + df_Count f) Hc ltac:(lia) ltac:(lia) j g id Hj Hr). lia.
  - destruct (IH (next + df_Count f)%Z ltac:(lia) ltac:(lia) ltac:(lia)) as (i & g & Hi & Hg & Hu).
    exists (S i), g. split_and!; [done..|]. intros [|j] g'; cbn.
    + intros [= <-] (first & [= <-] & H). cbn in H. lia.
    + intros Hj Hr. by rewrite (Hu j g').
Qed.

(** The row ids of a commit are the table's next ones, each in exactly one
    file: no gap, no overlap, as long as the counter does not overflow. *)
Theorem assignFirstRowIDs_partition (files : list DataFile) (next : Z)
  (Hcount : Forall (λ f, 0 ≤ df_Count f)%Z files) (Hnext : (min_int64 ≤ next)%Z)
  (Hmax : (next + total_rows files ≤ max_int64)%Z) (id : Z) :
  (∃ i f, assignFirstRowIDs files next !! i = Some f ∧ has_row id f ∧
    ∀ j g, assignFirstRowIDs files next !! j = Some g → has_row id g → j = i) ↔
  (next ≤ id < next + total_rows files)%Z.
Proof.
  split; [|by apply assign_cover]. intros (i & f & Hi & Hr & _). by eapply assign_range.
Qed.
End RowIDs.

(** ** Examples *)

Module CommitExamples.
#[local] Instance ascii_tables : UnicodeTables :=
  {| is_print_above_latin1 _ := false; to_upper_above_latin1 r := r |}.

(** A catalog in memory that loses the answers of its first commits. *)
Record catalog := MkCatalog { snaps : list snapshot; lost : nat }.
#[local] Instance types : IcebergTypes :=
  {| World := catalog; Manifest := unit; Tuple := unit; PartitionSpec := unit; Metrics := unit |}.
Definition the_table (w : catalog) : table := MkTable (snaps w) (last (snaps w)) 0 [] 2 0 4.
Definition commit_it (t : table) (op : operation) (props : gmap string string) : St catalog (result error table) :=
  λ w,
  let w1 := MkCatalog (snaps w ++ [MkSnapshot (Z.of_nat (S (length (snaps w)))) (Some props)]) (pred (lost w)) in
  (w1, match lost w with O => Ok (the_table w1) | S _ => Err (MkError [ErrCommitFailed] "conflict") end).
#[local] Instance in_memory : Iceberg := {|
  ctx_Err := mret None;
  Sleep _ := mret None;
  Float64 := mret (S754_zero false);
  LoadTable _ w := (w, Ok (the_table w));
  TableFS _ := mret (Ok ());
  Manifests _ := mret (Ok []);
  FetchEntries _ := mret (Ok []);
  ReadFooter _ := mret (Ok (MkFooter false [1%Z] 4));
  FileToDataFile _ _ _ := mret (Ok (1%Z, ()));
  NewDataFileBuilder _ _ _ _ _ := Ok ();
  Stage _ _ _ := mret None;
  Commit := commit_it;
|}.
Definition ex_history : World → list snapshot := snaps.
Lemma in_memory_laws key : CatalogLaws key ex_history.
Proof.
  unfold ex_history.
  split; intros; try (intros w; split; [exists []; split; [by rewrite app_nil_r|constructor]|done]).
  - done.
  - cbn in *. simplify_eq. exists [], []. cbn. rewrite !app_nil_r. by split_and!; [| |constructor..].
  - exists [], [MkSnapshot (Z.of_nat (S (length (snaps w)))) (Some props)], [].
    split_and!; [done|constructor|constructor| |].
    + right. eexists. split; [done|]. unfold has_commit_key. cbn [sn_Summary]. rewrite H. by apply bool_decide_eq_true_2.
    + cbn. destruct (lost w); [|done]. eexists. split; [done|]. by apply last_snoc.
Qed.
Definition w0 : World := MkCatalog [MkSnapshot 7 None] 1.

(** The first answer is lost, the second attempt finds the snapshot. *)
Example lost_answer :
  (CommitTableFiles ["ns"; "t"] ["a.parquet"] None "APPEND" ∅ "k" w0).2 = Ok (MkCommitResult "7" "2" 1 "APPEND" true).
Proof. vm_compute. reflexivity. Qed.
Lemma CommitTableFiles_exactly_once_witness : ∃ w' res s,
  CommitTableFiles ["ns"; "t"] ["a.parquet"] None "APPEND" ∅ "k" w0 = (w', Ok res) ∧
  mine "k" ex_history w0 = [] ∧ mine "k" ex_history w' = [s] ∧ cr_SnapshotIDAfter res = itoa (sn_SnapshotID s).
Proof.
  destruct (CommitTableFiles ["ns"; "t"] ["a.parquet"] None "APPEND" ∅ "k" w0) as [w' r] eqn:E.
  assert (∃ res, r = Ok res) as [res Hr].
  { apply (f_equal snd) in E. rewrite lost_answer in E. cbn in E. by eexists. }
  destruct (CommitTableFiles_exactly_once "k" ex_history ["ns"; "t"] ["a.parquet"] None "APPEND" ∅ w0 w' r
    (in_memory_laws "k")) as (_ & _ & H); [done|vm_compute; lia|exact E|].
  destruct (H res Hr) as (s & Hs & Hid & _); [done|].
  exists w', res, s. split; [by rewrite Hr|]. split; [vm_compute; reflexivity|]. by split.
Defined.

Definition file (n : Z) : DataFile := MkDataFile "f" 0 None n 4 () None.
Lemma assignFirstRowIDs_partition_witness : ∃ i f, assignFirstRowIDs [file 3; file 0; file 5] 10 !! i = Some f ∧
  has_row 13 f ∧ i = 2.
Proof.
  destruct (proj2 (assignFirstRowIDs_partition [file 3; file 0; file 5] 10
    ltac:(repeat constructor; done) ltac:(done) ltac:(done) 13)) as (i & f & Hi & Hr & Hu); [by split|].
  exists i, f. split_and!; [done..|]. symmetry.
  apply (Hu 2 (set_first_row 13 (file 5))); [done|]. exists 13%Z. by split.
Defined.
End CommitExamples.
