(* ===== verification/CommitPool.v ===== *)
(** * CommitPool: the commit worker pool of the data gateway
      (pkg/datagateway/commit_pool.go)

    The pool as a transition system: the critical sections of [Dispatch], of the
    goroutine it starts, of [Wait] and of [Cancel] are its steps.  [run], the
    work of one job, is a function over the world of CommitTable. *)

From S2P Require Import Prelude GoTime CommitTable.

(** ** Data *)

(** crypto/sha256 with hex printing, and unicode.ToLower above Latin-1. *)
Class PoolLib : Type := {
  sha256_hex : string → string;
  to_lower_above_latin1 : N → N;
}.

Section Data.
Context `{IT : !IcebergTypes}.
Record CommitJob := MkCommitJob {
  cj_WriterID : string;
  cj_Namespace : string;
  cj_Table : string;
  cj_RunID : string;
  cj_DataPaths : list string;
  cj_Partition : option PartitionedFiles;
  cj_Mode : string;
}.
End Data.

Record PoolResult := MkPoolResult {
  pr_WriterID : string;
  pr_Namespace : string;
  pr_Table : string;
  pr_Err : option error;
  pr_SnapshotIDBefore : string;
  pr_SnapshotIDAfter : string;
  pr_DataFilesAdded : nat;
  pr_IdempotencyKey : string;
  pr_IdempotencyHit : bool;
}.

Record CommitPoolConfig := MkCommitPoolConfig { pc_Workers : nat; pc_MaxQueueSize : Z }.
(** [NewCommitPool]: the defaults of the configuration. *)
Definition pool_config (workers maxQueueSize : Z) : CommitPoolConfig :=
  MkCommitPoolConfig (if (workers <=? 0)%Z then 4 else Z.to_nat workers)
    (if (maxQueueSize <=? 0)%Z then 256 else maxQueueSize)%Z.

(** ** The idempotency key *)

Definition nul : ascii := "000"%char.
Definition with_nul (s : string) : string := s +:+ String nul EmptyString.
Definition concat_str (l : list string) : string := foldr (λ s t, s +:+ t) EmptyString l.
(** What is hashed. *)
Definition key_input (runID namespace table : string) (paths : list string) : string :=
  concat_str (with_nul <$> runID :: namespace :: table :: merge_sort String.le paths).
Definition ComputeIdempotencyKey `{!PoolLib} (runID namespace table : string) (paths : list string) : string :=
  sha256_hex (key_input runID namespace table paths).

(** ** The work of one job *)

Section Run.
Context `{UT : !UnicodeTables} `{PL : !PoolLib} `{IT : !IcebergTypes} `{IB : !Iceberg}.

Definition to_lower_rune (r : N) : N :=
  if (r <? 128)%N then (if (65 <=? r)%N && (r <=? 90)%N then r + 32 else r)%N
  else if (r <=? 255)%N then (if (192 <=? r)%N && (r <=? 222)%N && negb (r =? 215)%N then r + 32 else r)%N
  else to_lower_above_latin1 r.
(** [strings.ToLower]. *)
Definition to_lower (s : string) : string :=
  foldr (λ x acc, utf8_encode (to_lower_rune (rs_rune x)) +:+ acc) EmptyString (runes s).

Definition looksLikeSchemaMismatch (e : error) : bool :=
  if errors_Is e Canceled || errors_Is e DeadlineExceeded then false
  else existsb (λ needle, contains needle (to_lower (e_msg e))) ["schema"; "field"; "incompatible"; "type mismatch"].
(** Only a load, whose answer is logged. *)
Definition logCatalogSchemaOnMismatch (ns table : string) (e : error) : St World unit :=
  if negb (looksLikeSchemaMismatch e) then mret () else (_ ← LoadTable [ns; table]; mret ()).

(** [catalogFn] is the configured CatalogFn, [props] the audit properties the
    gateway's CommitFn passes on. *)
Definition run (catalogFn : St World (option error)) (props : gmap string string) (j : CommitJob) :
    St World PoolResult :=
  let key := ComputeIdempotencyKey (cj_RunID j) (cj_Namespace j) (cj_Table j) (cj_DataPaths j) in
  let failed e := MkPoolResult (cj_WriterID j) (cj_Namespace j) (cj_Table j) (Some e) EmptyString EmptyString 0 key false in
  e ← catalogFn;
  match e with
  | Some e => mret (failed e)
  | None =>
    r ← CommitTableFiles [cj_Namespace j; cj_Table j] (cj_DataPaths j) (cj_Partition j) (cj_Mode j) props key;
    match r with
    | Err e => _ ← logCatalogSchemaOnMismatch (cj_Namespace j) (cj_Table j) e; mret (failed e)
    | Ok res =>
      mret (MkPoolResult (cj_WriterID j) (cj_Namespace j) (cj_Table j) None (cr_SnapshotIDBefore res)
        (cr_SnapshotIDAfter res) (cr_DataFilesAdded res) key (cr_IdempotencyHit res))
    end
  end.
(** The result of a job that saw the cancellation while it waited. *)
Definition cancelled_result (j : CommitJob) (e : error) : PoolResult :=
  MkPoolResult (cj_WriterID j) (cj_Namespace j) (cj_Table j) (Some e) EmptyString EmptyString 0 EmptyString false.
End Run.

(** ** The pool *)

Section Pool.
Context `{IT : !IcebergTypes}.

(** Where a goroutine is: its [Dispatch] has counted it and not yet read the
    session; it waits for a slot; it holds one; it has recorded its result (with
    or without a slot); it is out of the queue count. *)
Inductive stage : Type :=
| GDispatched
| GWaiting (sid : N)
| GRunning (sid : N)
| GRecorded (slot : bool)
| GUncounted.
Record goroutine := MkGoroutine { g_job : CommitJob; g_stage : stage }.

(** [p_wg] is the WaitGroup's counter, [p_sem] the slots taken. *)
Record CommitPool := MkCommitPool {
  p_cfg : CommitPoolConfig;
  p_cancelled : bool;
  p_sem : nat;
  p_wg : nat;
  p_inflight : Z;
  p_closed : bool;
  p_results : list PoolResult;
  p_sessionID : N;
}.
Definition NewCommitPool (cfg : CommitPoolConfig) : CommitPool := MkCommitPool cfg false 0 0 0 false [] 0.

(** The critical section of Dispatch. *)
Definition Dispatch (p : CommitPool) : result string CommitPool :=
  if p_closed p then Err "commit pool: closed: context canceled"
  else if (pc_MaxQueueSize (p_cfg p) <=? p_inflight p)%Z then
    Err ("commit pool: queue full (max " +:+ itoa (pc_MaxQueueSize (p_cfg p)) +:+ ")")
  else Ok (MkCommitPool (p_cfg p) (p_cancelled p) (p_sem p) (S (p_wg p)) (p_inflight p + 1)%Z (p_closed p)
             (p_results p) (p_sessionID p)).
Definition record (sid : N) (r : PoolResult) (p : CommitPool) : CommitPool :=
  MkCommitPool (p_cfg p) (p_cancelled p) (p_sem p) (p_wg p) (p_inflight p) (p_closed p)
    (if decide (p_sessionID p = sid) then p_results p ++ [r] else p_results p) (p_sessionID p).
Definition acquire (p : CommitPool) : CommitPool :=
  MkCommitPool (p_cfg p) (p_cancelled p) (S (p_sem p)) (p_wg p) (p_inflight p) (p_closed p) (p_results p) (p_sessionID p).
Definition release (p : CommitPool) : CommitPool :=
  MkCommitPool (p_cfg p) (p_cancelled p) (pred (p_sem p)) (p_wg p) (p_inflight p) (p_closed p) (p_results p) (p_sessionID p).
Definition uncount (p : CommitPool) : CommitPool :=
  MkCommitPool (p_cfg p) (p_cancelled p) (p_sem p) (p_wg p) (p_inflight p - 1)%Z (p_closed p) (p_results p) (p_sessionID p).
Definition wg_done (p : CommitPool) : CommitPool :=
  MkCommitPool (p_cfg p) (p_cancelled p) (p_sem p) (pred (p_wg p)) (p_inflight p) (p_closed p) (p_results p) (p_sessionID p).
(** The end of Wait: the results so far, and a new session. *)
Definition Wait (p : CommitPool) : CommitPool * list PoolResult :=
  (MkCommitPool (p_cfg p) (p_cancelled p) (p_sem p) (p_wg p) (p_inflight p) (p_closed p) [] (p_sessionID p + 1),
   p_results p).
(** Cancel closes the pool, then cancels the context. *)
Definition close_pool (p : CommitPool) : CommitPool :=
  MkCommitPool (p_cfg p) (p_cancelled p) (p_sem p) (p_wg p) (p_inflight p) true (p_results p) (p_sessionID p).
Definition cancel_context (p : CommitPool) : CommitPool :=
  MkCommitPool (p_cfg p) true (p_sem p) (p_wg p) (p_inflight p) (p_closed p) (p_results p) (p_sessionID p).
End Pool.

(** ** The transition system *)

Section System.
Context `{IT : !IcebergTypes}.

(** [s_session] is not in the code: the jobs dispatched since the last Wait. *)
Record system := MkSystem {
  s_pool : CommitPool;
  s_goroutines : list goroutine;
  s_session : list CommitJob;
}.
Definition initial (cfg : CommitPoolConfig) : system := MkSystem (NewCommitPool cfg) [] [].

(** A result that is the job's. *)
Definition result_of (j : CommitJob) (r : PoolResult) : Prop :=
  pr_WriterID r = cj_WriterID j ∧ pr_Namespace r = cj_Namespace j ∧ pr_Table r = cj_Table j.
Definition dispatching (g : goroutine) : bool := match g_stage g with GDispatched => true | _ => false end.

(** One goroutine advances. *)
Inductive advance : CommitPool → goroutine → CommitPool → option goroutine → Prop :=
| adv_spawn p j : advance p (MkGoroutine j GDispatched) p (Some (MkGoroutine j (GWaiting (p_sessionID p))))
| adv_acquire p j sid : p_sem p < pc_Workers (p_cfg p) →
    advance p (MkGoroutine j (GWaiting sid)) (acquire p) (Some (MkGoroutine j (GRunning sid)))
| adv_cancelled p j sid e : p_cancelled p = true →
    advance p (MkGoroutine j (GWaiting sid)) (record sid (cancelled_result j e) p) (Some (MkGoroutine j (GRecorded false)))
| adv_finish p j sid r : result_of j r →
    advance p (MkGoroutine j (GRunning sid)) (record sid r p) (Some (MkGoroutine j (GRecorded true)))
| adv_release p j : advance p (MkGoroutine j (GRecorded true)) (release p) (Some (MkGoroutine j (GRecorded false)))
| adv_uncount p j : advance p (MkGoroutine j (GRecorded false)) (uncount p) (Some (MkGoroutine j GUncounted))
| adv_done p j : advance p (MkGoroutine j GUncounted) (wg_done p) None.

(** [EWait true out] is a Wait that saw the WaitGroup at zero, [EWait false out]
    one whose context ended.  The contract of the pool: no Dispatch is in
    progress while Wait runs. *)
Inductive event : Type := EDispatch | EAdvance | EWait (barrier : bool) (out : list PoolResult) | ECancel.
Inductive step : system → event → system → Prop :=
| step_dispatch p p' gs js j : Dispatch p = Ok p' →
    step (MkSystem p gs js) EDispatch (MkSystem p' (gs ++ [MkGoroutine j GDispatched]) (js ++ [j]))
| step_advance p p' gs1 g g' gs2 js : advance p g p' g' →
    step (MkSystem p (gs1 ++ g :: gs2) js) EAdvance (MkSystem p' (gs1 ++ option_list g' ++ gs2) js)
| step_wait p gs js (barrier : bool) : Forall (λ g, dispatching g = false) gs → (barrier = true → p_wg p = 0) →
    step (MkSystem p gs js) (EWait barrier (Wait p).2) (MkSystem (Wait p).1 gs [])
| step_close p gs js : step (MkSystem p gs js) ECancel (MkSystem (close_pool p) gs js)
| step_cancel p gs js : p_closed p = true → step (MkSystem p gs js) ECancel (MkSystem (cancel_context p) gs js).

Inductive reachable (cfg : CommitPoolConfig) : system → Prop :=
| reachable_initial : reachable cfg (initial cfg)
| reachable_step s e s' : reachable cfg s → step s e s' → reachable cfg s'.

(** ** The invariant *)

Definition counted (g : goroutine) : bool := match g_stage g with GUncounted => false | _ => true end.
Definition holds_slot (g : goroutine) : bool := match g_stage g with GRunning _ | GRecorded true => true | _ => false end.
(** Its result will be part of session [sid]. *)
Definition pending (sid : N) (g : goroutine) : bool :=
  match g_stage g with
  | GDispatched => true
  | GWaiting sid' | GRunning sid' => bool_decide (sid' = sid)
  | _ => false
  end.
Definition sid_of (g : goroutine) : option N :=
  match g_stage g with GWaiting sid | GRunning sid => Some sid | _ => None end.
Definition count (P : goroutine → bool) (gs : list goroutine) : nat := length (filter (λ g, P g = true) gs).

Definition pend (sid : N) (gs : list goroutine) : list CommitJob := g_job <$> filter (λ g, pending sid g = true) gs.

Record pool_ok (cfg : CommitPoolConfig) (s : system) : Prop := {
  ok_cfg : p_cfg (s_pool s) = cfg;
  ok_wg : p_wg (s_pool s) = length (s_goroutines s);
  ok_inflight : p_inflight (s_pool s) = Z.of_nat (count counted (s_goroutines s));
  ok_sem : p_sem (s_pool s) = count holds_slot (s_goroutines s);
  ok_workers : p_sem (s_pool s) ≤ pc_Workers cfg;
  ok_queue : (p_inflight (s_pool s) ≤ Z.max 0 (pc_MaxQueueSize cfg))%Z;
  ok_cancelled : p_cancelled (s_pool s) = true → p_closed (s_pool s) = true;
  ok_sids : Forall (λ g, ∀ sid, sid_of g = Some sid → (sid ≤ p_sessionID (s_pool s))%N) (s_goroutines s);
  ok_session : ∃ finished, Forall2 result_of finished (p_results (s_pool s)) ∧
    s_session s ≡ₚ finished ++ pend (p_sessionID (s_pool s)) (s_goroutines s);
}.

#[local] Arguments count : simpl never.
#[local] Arguments pend : simpl never.
Lemma count_app P gs gs' : count P (gs ++ gs') = count P gs + count P gs'.
Proof. unfold count. by rewrite filter_app, length_app. Qed.
Lemma count_cons P g gs : count P (g :: gs) = (if P g then 1 else 0) + count P gs.
Proof. unfold count. rewrite filter_cons. by destruct (P g). Qed.
Lemma count_nil P : count P [] = 0.
Proof. done. Qed.
Lemma count_option P (g : option goroutine) :
  count P (option_list g) = match g with Some g => if P g then 1 else 0 | None => 0 end.
Proof. destruct g as [g|]; [|done]. change (option_list (Some g)) with [g]. rewrite count_cons. by destruct (P g). Qed.
Lemma initial_ok cfg : pool_ok cfg (initial cfg).
Proof. split; cbn; try done; try lia. exists []. by split; [constructor|]. Qed.

Lemma pend_app sid gs gs' : pend sid (gs ++ gs') = pend sid gs ++ pend sid gs'.
Proof. unfold pend. by rewrite filter_app, fmap_app. Qed.
Lemma pend_cons sid g gs : pend sid (g :: gs) = (if pending sid g then [g_job g] else []) ++ pend sid gs.
Proof. unfold pend. rewrite filter_cons. by destruct (pending sid g). Qed.

(** What a goroutine's step does to the sums of the invariant. *)
Lemma advance_counts p g p' g' : advance p g p' g' →
  p_cfg p' = p_cfg p ∧ p_closed p' = p_closed p ∧ p_cancelled p' = p_cancelled p ∧ p_sessionID p' = p_sessionID p ∧
  (0 < p_wg p → p_wg p' + 1 = p_wg p + length (option_list g')) ∧
  (p_inflight p' + (if counted g then 1 else 0) = p_inflight p + Z.of_nat (count counted (option_list g')))%Z ∧
  ((if holds_slot g then 1 else 0) ≤ p_sem p →
    p_sem p' + (if holds_slot g then 1 else 0) = p_sem p + count holds_slot (option_list g')) ∧
  (p_sem p' ≤ p_sem p ∨ p_sem p' ≤ pc_Workers (p_cfg p)).
Proof. rewrite !count_option. destruct 1; cbn; split_and!; try done; lia. Qed.
Lemma advance_sid p g p' g' : advance p g p' g' → (∀ sid, sid_of g = Some sid → (sid ≤ p_sessionID p)%N) →
  Forall (λ g, ∀ sid, sid_of g = Some sid → (sid ≤ p_sessionID p')%N) (option_list g').
Proof.
  intros Ha H. destruct Ha; [..|by apply Forall_nil_2]; apply Forall_singleton; try done; intros sid' [= <-];
    first [done|by apply H].
Qed.
(** Its job is still pending, or its result is recorded. *)
Lemma advance_session p g p' g' : advance p g p' g' → ∃ new, Forall2 result_of new (skipn (length (p_results p)) (p_results p')) ∧
  p_results p' = p_results p ++ skipn (length (p_results p)) (p_results p') ∧
  (if pending (p_sessionID p) g then [g_job g] else []) ≡ₚ new ++ pend (p_sessionID p) (option_list g').
Proof.
  assert (∀ sid j r, result_of j r → ∃ new,
    Forall2 result_of new (skipn (length (p_results p)) (p_results (record sid r p))) ∧
    p_results (record sid r p) = p_results p ++ skipn (length (p_results p)) (p_results (record sid r p)) ∧
    (if bool_decide (sid = p_sessionID p) then [j] else []) = new) as Hrec.
  { intros sid j r Hr. unfold record. cbn. destruct (decide (p_sessionID p = sid)) as [<-|Hne].
    - rewrite bool_decide_eq_true_2 by done. exists [j]. rewrite drop_app_length.
      split; [by constructor|done].
    - rewrite bool_decide_eq_false_2 by congruence. exists []. rewrite drop_all, app_nil_r. split_and!; [constructor|done..]. }
  intros H. destruct H as [p j|p j sid|p j sid e|p j sid r Hr|p j|p j|p j].
  3: { destruct (Hrec sid j (cancelled_result j e)) as (new & H1 & H2 & H3); [done|]. exists new.
       split_and!; [done..|]. unfold pend. cbn. rewrite app_nil_r. by rewrite <-H3. }
  3: { destruct (Hrec sid j r Hr) as (new & H1 & H2 & H3). exists new.
       split_and!; [done..|]. unfold pend. cbn. rewrite app_nil_r. by rewrite <-H3. }
  all: exists []; cbn [p_results acquire release uncount wg_done]; rewrite drop_all, app_nil_r;
    split_and!; [constructor|done|]; unfold pend; cbn; try done.
  - by rewrite decide_True by (by apply bool_decide_eq_true_2).
  - destruct (bool_decide (sid = p_sessionID p)); done.
Qed.

Lemma step_ok cfg s e s' : pool_ok cfg s → step s e s' → pool_ok cfg s'.
Proof.
  intros Hok Hs. destruct Hs as [p p' gs js j Hd|p p' gs1 g g' gs2 js Ha|p gs js b Hc Hb|p gs js|p gs js Hcl].
  - destruct Hok as [Hcfg Hwg Hin Hsem Hw Hq Hcan Hsid (fin & Hf & Hp)]. cbn in *.
    unfold Dispatch in Hd. destruct (p_closed p) eqn:Ec; [done|]. destruct (Z.leb_spec (pc_MaxQueueSize (p_cfg p)) (p_inflight p)); [done|].
    subst cfg. injection Hd as <-. split; cbn; rewrite ?count_app, ?length_app, ?count_cons, ?count_nil; cbn; try done; try lia.
    + apply Forall_app. split; [done|]. by repeat constructor.
    + exists fin. split; [done|]. rewrite pend_app, pend_cons. cbn. rewrite Hp. by rewrite app_assoc.
  - destruct Hok as [Hcfg Hwg Hin Hsem Hw Hq Hcan Hsid (fin & Hf & Hp)]. cbn in *.
    destruct (advance_counts p g p' g' Ha) as (E1 & E2 & E3 & E4 & E5 & E6 & E7 & E8).
    destruct (advance_session p g p' g' Ha) as (new & F1 & F2 & F3).
    rewrite !count_app, !count_cons in Hin, Hsem. rewrite length_app in Hwg. cbn in Hwg.
    split; cbn; rewrite ?count_app, ?length_app, ?count_app.
    + congruence.
    + specialize (E5 ltac:(lia)). lia.
    + destruct (counted g); lia.
    + specialize (E7 ltac:(destruct (holds_slot g); lia)). destruct (holds_slot g); lia.
    + rewrite <-Hcfg in *. lia.
    + assert (count counted (option_list g') ≤ (if counted g then 1 else 0)) as Hle.
      { rewrite count_option. destruct Ha; cbn; lia. }
      destruct (counted g); lia.
    + by rewrite E2, E3.
    + apply Forall_app in Hsid as [? [Hg ?]%Forall_cons]. rewrite !Forall_app. split_and!.
      * by rewrite E4.
      * by eapply advance_sid.
      * by rewrite E4.
    + exists (fin ++ new). rewrite F2. split; [by apply Forall2_app|]. rewrite E4, Hp, !pend_app, pend_cons, F3.
      solve_Permutation.
  - destruct Hok as [Hcfg Hwg Hin Hsem Hw Hq Hcan Hsid (fin & Hf & Hp)]. cbn in *. split; cbn; try done.
    + eapply Forall_impl; [exact Hsid|]. cbn. intros g Hg sid Hs. specialize (Hg sid Hs). lia.
    + exists []. split; [constructor|]. cbn.
      assert (pend (p_sessionID p + 1) gs = []) as ->; [|done].
      unfold pend. clear -Hc Hsid. induction gs as [|g gs IH]; [done|].
      apply Forall_cons in Hc as [Hg Hc], Hsid as [Hs Hsid]. rewrite filter_cons_False; [by apply IH|].
      destruct g as [j [| | | |]]; try done; cbn in Hs |- *; specialize (Hs _ eq_refl);
        rewrite bool_decide_eq_true; lia.
  - destruct Hok as [Hcfg Hwg Hin Hsem Hw Hq Hcan Hsid Hses]. by split.
  - destruct Hok as [Hcfg Hwg Hin Hsem Hw Hq Hcan Hsid Hses]. by split.
Qed.
Lemma reachable_ok cfg s : reachable cfg s → pool_ok cfg s.
Proof. induction 1; [apply initial_ok|by eapply step_ok]. Qed.
End System.

(** ** Properties of the pool *)

Section Properties.
Context `{IT : !IcebergTypes}.

(** A step of the rank counts down: what is left of a goroutine. *)
Definition rank (g : goroutine) : nat :=
  match g_stage g with
  | GDispatched => 6
  | GWaiting _ => 5
  | GRunning _ => 4
  | GRecorded true => 3
  | GRecorded false => 2
  | GUncounted => 1
  end.
Definition total_rank (gs : list goroutine) : nat := sum_list_with rank gs.
Lemma advance_rank p g p' g' : advance p g p' g' → total_rank (option_list g') < rank g.
Proof. destruct 1; unfold total_rank; cbn; lia. Qed.
Lemma step_advance_rank s s' : step s EAdvance s' → total_rank (s_goroutines s') < total_rank (s_goroutines s).
Proof.
  intros H. inversion H as [|p p' gs1 g g' gs2 js Ha| | |]; subst. cbn. apply advance_rank in Ha.
  unfold total_rank in *. rewrite !sum_list_with_app. cbn. lia.
Qed.

(** A goroutine that holds a slot, and any that waits when there is none, can go on. *)
Lemma advance_enabled p g :
  match g_stage g with GWaiting _ => p_sem p < pc_Workers (p_cfg p) | _ => True end →
  ∃ p' g', advance p g p' g'.
Proof.
  destruct g as [j [|sid|sid|[|]|]]; cbn; intros H; try by eexists _, _; econstructor.
  eexists _, _. by apply (adv_finish p j sid (cancelled_result j (new_error EmptyString))).
Qed.
Lemma progress cfg s : 0 < pc_Workers cfg → pool_ok cfg s → s_goroutines s ≠ [] → ∃ s', step s EAdvance s'.
Proof.
  intros Hpos Hok Hne.
  assert (∃ g p' g', g ∈ s_goroutines s ∧ advance (s_pool s) g p' g') as (g & p' & g' & Hg & Ha).
  { destruct (decide (p_sem (s_pool s) < pc_Workers cfg)) as [Hlt|Hge].
    - destruct (s_goroutines s) as [|g gs]; [done|]. destruct (advance_enabled (s_pool s) g) as (p' & g' & Ha).
      { destruct (g_stage g); try done. by rewrite (ok_cfg _ _ Hok). }
      exists g, p', g'. split; [by left|done].
    - pose proof (ok_sem _ _ Hok) as Hsem.
      destruct (filter (λ g, holds_slot g = true) (s_goroutines s)) as [|g gs] eqn:E.
      { unfold count in Hsem. rewrite E in Hsem. cbn in Hsem. lia. }
      assert (g ∈ filter (λ g, holds_slot g = true) (s_goroutines s)) as Hg by (rewrite E; by left).
      apply list_elem_of_filter in Hg as [Hh Hg].
      destruct (advance_enabled (s_pool s) g) as (p' & g' & Ha).
      { unfold holds_slot in Hh. by destruct (g_stage g). }
      by exists g, p', g'. }
  apply list_elem_of_split in Hg as (gs1 & gs2 & Hgs). destruct s as [p gs js]. cbn in *. subst gs.
  eexists. by apply step_advance.
Qed.

(** Internal steps only. *)
Inductive advances : system → system → Prop :=
| advances_refl s : advances s s
| advances_step s s1 s2 : step s EAdvance s1 → advances s1 s2 → advances s s2.
Lemma drains cfg n s : 0 < pc_Workers cfg → pool_ok cfg s → total_rank (s_goroutines s) ≤ n →
  ∃ s', advances s s' ∧ s_goroutines s' = [].
Proof.
  intros Hpos. revert s. induction n as [|n IH]; intros s Hok Hn.
  - destruct (s_goroutines s) as [|g gs] eqn:E; [by exists s; split; [constructor|]|].
    unfold total_rank in Hn. cbn in Hn. destruct g as [j [| | |[|]|]]; cbn in Hn; lia.
  - destruct (decide (s_goroutines s = [])) as [E|E].
    { exists s. split; [constructor|done]. }
    destruct (progress cfg s Hpos Hok E) as [s1 Hs]. pose proof (step_advance_rank _ _ Hs).
    destruct (IH s1) as (s' & Ha & Hd); [by eapply step_ok|lia|]. exists s'. split; [by econstructor|done].
Qed.

(** The pool never runs more commits than it has workers, nor holds more
    jobs than the queue bound: its counters are exactly the goroutines counted,
    those that hold a slot and those alive, in every reachable state. *)
Theorem pool_bounds (cfg : CommitPoolConfig) (s : system) (Hs : reachable cfg s) :
  count holds_slot (s_goroutines s) ≤ pc_Workers cfg ∧
  (Z.of_nat (count counted (s_goroutines s)) ≤ Z.max 0 (pc_MaxQueueSize cfg))%Z ∧
  p_inflight (s_pool s) = Z.of_nat (count counted (s_goroutines s)) ∧
  p_sem (s_pool s) = count holds_slot (s_goroutines s) ∧
  p_wg (s_pool s) = length (s_goroutines s).
Proof.
  destruct (reachable_ok cfg s Hs) as [Hcfg Hwg Hin Hsem Hw Hq _ _ _].
  split_and!; try done; [by rewrite <-Hsem|by rewrite <-Hin].
Qed.

(** A Wait that saw the barrier returns exactly one result for every job
    dispatched in its session, of that job, and none of another session. *)
Theorem Wait_returns_the_session (cfg : CommitPoolConfig) (s s' : system) (out : list PoolResult)
  (Hs : reachable cfg s) (Hw : step s (EWait true out) s') :
  ∃ finished, Forall2 result_of finished out ∧ s_session s ≡ₚ finished.
Proof.
  pose proof (reachable_ok cfg s Hs) as Hok. inversion Hw as [| |p gs js b _ Hb| |]; subst.
  destruct Hok as [_ Hwg _ _ _ _ _ _ (fin & Hf & Hp)]. cbn in *. specialize (Hb eq_refl). rewrite Hb in Hwg.
  symmetry in Hwg. apply nil_length_inv in Hwg as ->. exists fin. split; [done|]. by rewrite Hp, app_nil_r.
Qed.

(** The pool cannot get stuck: while a goroutine is left one can advance,
    every advance brings the pool nearer to empty, and from every reachable state
    it drains, which lets Wait return. *)
Theorem pool_drains (cfg : CommitPoolConfig) (s : system) (Hw : 0 < pc_Workers cfg) (Hs : reachable cfg s) :
  (s_goroutines s ≠ [] → ∃ s', step s EAdvance s') ∧
  (∀ s', step s EAdvance s' → total_rank (s_goroutines s') < total_rank (s_goroutines s)) ∧
  ∃ s' s'' out, advances s s' ∧ step s' (EWait true out) s''.
Proof.
  pose proof (reachable_ok cfg s Hs) as Hok. split; [by apply (progress cfg)|]. split; [by apply step_advance_rank|].
  destruct (drains cfg _ s Hw Hok (le_n _)) as (s' & Ha & Hd).
  assert (reachable cfg s') as Hs'.
  { clear -Hs Ha. induction Ha as [|s1 s2 s3 H _ IH]; [done|]. apply IH. by eapply reachable_step. }
  pose proof (ok_wg _ _ (reachable_ok cfg s' Hs')) as Hwg. destruct s' as [p gs js]. cbn in *. subst gs.
  eexists (MkSystem p [] js), _, _. split; [done|]. by apply step_wait.
Qed.
End Properties.

(** ** The idempotency key *)

Definition nul_free (s : string) : Prop := forall_byte (λ c, negb (Ascii.eqb c nul)) s = true.
Lemma key_parts l l' : Forall nul_free l → Forall nul_free l' →
  concat_str (with_nul <$> l) = concat_str (with_nul <$> l') → l = l'.
Proof.
  assert (∀ s t, with_nul s +:+ t = s +:+ String nul t) as Hw.
  { intros s t. unfold with_nul. by rewrite str_app_assoc. }
  assert (∀ s t, s +:+ String nul t ≠ EmptyString) as Hne by (by intros [|c s] t).
  intros H. revert l'. induction H as [|s l Hs Hl IH]; intros l' H'; destruct H' as [|s' l' Hs' Hl']; cbn; [done|..].
  - rewrite Hw. by intros Hx%eq_sym%Hne.
  - rewrite Hw. by intros Hx%Hne.
  - rewrite !Hw. intros E.
    apply (span_byte_inj (λ c, negb (Ascii.eqb c nul))) in E as [-> E]; [|done..].
    injection E as E. by rewrite (IH l').
Qed.
Lemma key_input_perm r n t ps ps' : ps ≡ₚ ps' → key_input r n t ps = key_input r n t ps'.
Proof. intros H. unfold key_input. by rewrite (merge_sort_perm ps ps'). Qed.
Lemma key_input_inj r n t ps r' n' t' ps' :
  Forall nul_free (r :: n :: t :: ps) → Forall nul_free (r' :: n' :: t' :: ps') →
  key_input r n t ps = key_input r' n' t' ps' → r = r' ∧ n = n' ∧ t = t' ∧ ps ≡ₚ ps'.
Proof.
  intros H H' E. apply key_parts in E.
  - injection E as -> -> -> E. split_and!; [done..|].
    by rewrite <-(merge_sort_Permutation String.le ps), E, merge_sort_Permutation.
  - rewrite !Forall_cons in *. by rewrite merge_sort_Permutation.
  - rewrite !Forall_cons in *. by rewrite merge_sort_Permutation.
Qed.

(** The idempotency key is a function of the run, the table and the files,
    in any order; and two commits that differ in one of them have different
    keys, unless SHA-256 itself collides on two different inputs. *)
Theorem ComputeIdempotencyKey_correct `{PL : !PoolLib} (r n t : string) (ps : list string)
  (r' n' t' : string) (ps' : list string) :
  (r = r' → n = n' → t = t' → ps ≡ₚ ps' → ComputeIdempotencyKey r n t ps = ComputeIdempotencyKey r' n' t' ps') ∧
  (Forall nul_free (r :: n :: t :: ps) → Forall nul_free (r' :: n' :: t' :: ps') →
   ComputeIdempotencyKey r n t ps = ComputeIdempotencyKey r' n' t' ps' →
   (r = r' ∧ n = n' ∧ t = t' ∧ ps ≡ₚ ps') ∨ ∃ x y, x ≠ y ∧ sha256_hex x = sha256_hex y).
Proof.
  unfold ComputeIdempotencyKey. split.
  - intros -> -> -> H. by rewrite (key_input_perm r' n' t' ps ps').
  - intros H H' E. destruct (decide (key_input r n t ps = key_input r' n' t' ps')) as [Ek|Hne].
    + left. by apply key_input_inj.
    + right. by eexists _, _.
Qed.

(** ** One job, delivered again *)

Section Jobs.
Context `{UT : !UnicodeTables} `{PL : !PoolLib} `{IT : !IcebergTypes} `{IB : !Iceberg}.

Definition job_key (j : CommitJob) : string :=
  ComputeIdempotencyKey (cj_RunID j) (cj_Namespace j) (cj_Table j) (cj_DataPaths j).
(** The same commit: the same run, table and files. *)
Definition same_commit (j j' : CommitJob) : Prop :=
  cj_RunID j = cj_RunID j' ∧ cj_Namespace j = cj_Namespace j' ∧ cj_Table j = cj_Table j' ∧
  cj_DataPaths j ≡ₚ cj_DataPaths j'.
Lemma same_commit_key j j' : same_commit j j' → job_key j' = job_key j.
Proof.
  intros (Hr & Hn & Ht & Hp). unfold job_key, ComputeIdempotencyKey. rewrite Hr, Hn, Ht.
  by rewrite (key_input_perm _ _ _ _ _ Hp).
Qed.

Section OneKey.
Context (key : string) (history : World → list snapshot) `{CLs : !CatalogLaws key history}.
Context (catalogFn : St World (option error)) (Hcat : lawful key history id catalogFn).
Abbreviation mine := (mine key history).

Lemma log_once ns t e w : once key history w (logCatalogSchemaOnMismatch ns t e w).1.
Proof.
  unfold logCatalogSchemaOnMismatch. destruct (negb _); [by left|]. unfold mbind, St_bind, mret, St_ret.
  pose proof (lawful_once key history err_of (LoadTable [ns; t]) w (law_load key history _)).
  by destruct (LoadTable [ns; t] w).
Qed.
Lemma run_once props j w w' r : key ≠ EmptyString → job_key j = key → run catalogFn props j w = (w', r) →
  once key history w w' ∧ result_of j r ∧ (pr_Err r = None → cj_DataPaths j ≠ [] →
    ∃ s, s ∈ mine w' ∧ pr_SnapshotIDAfter r = itoa (sn_SnapshotID s)).
Proof.
  intros Hk Hj. unfold run. fold (job_key j). rewrite Hj. unfold mbind, St_bind, mret, St_ret.
  pose proof (lawful_once key history id _ w Hcat) as H1. destruct (catalogFn w) as [w1 [e|]]; cbn in H1.
  { intros [= <- <-]. by split_and!. }
  destruct (CommitTableFiles _ _ _ _ _ _ _) as [w2 [res|e]] eqn:E.
  - destruct (CommitTableFiles_once key history _ _ _ _ _ _ _ _ Hk E) as [H2 Hr]. intros [= <- <-].
    split_and!; [by eapply once_trans|done..|]. intros _ Hp. by destruct (Hr res eq_refl Hp).
  - destruct (CommitTableFiles_once key history _ _ _ _ _ _ _ _ Hk E) as [H2 _].
    pose proof (log_once (cj_Namespace j) (cj_Table j) e w2) as H3.
    destruct (logCatalogSchemaOnMismatch _ _ e w2) as [w3 []]. intros [= <- <-].
    split_and!; [by eauto using once_trans|done..].
Qed.
End OneKey.

(** The same commit delivered twice is made once: whatever happened to the
    first delivery, after both the table has at most one snapshot of it, exactly
    one if either succeeded, and both report the same snapshot if both did. *)
Theorem redelivered_job_commits_once (history : World → list snapshot) (catalogFn : St World (option error))
  (props : gmap string string) (j j' : CommitJob) (w w1 w2 : World) (r1 r2 : PoolResult)
  (HL : CatalogLaws (job_key j) history) (Hcat : lawful (job_key j) history id catalogFn)
  (Hsha : job_key j ≠ EmptyString) (Hsame : same_commit j j') (Hnew : mine (job_key j) history w = [])
  (H1 : run catalogFn props j w = (w1, r1)) (H2 : run catalogFn props j' w1 = (w2, r2)) :
  length (mine (job_key j) history w2) ≤ 1 ∧
  (cj_DataPaths j ≠ [] →
    (pr_Err r1 = None ∨ pr_Err r2 = None → ∃ s, mine (job_key j) history w2 = [s]) ∧
    (pr_Err r1 = None → pr_Err r2 = None → pr_SnapshotIDAfter r1 = pr_SnapshotIDAfter r2)).
Proof.
  destruct (run_once (job_key j) history catalogFn Hcat props j w w1 r1 Hsha eq_refl H1) as (O1 & _ & S1).
  destruct (run_once (job_key j) history catalogFn Hcat props j' w1 w2 r2 Hsha (same_commit_key j j' Hsame) H2)
    as (O2 & _ & S2).
  assert (length (mine (job_key j) history w2) ≤ 1 ∧
    ∀ s, s ∈ mine (job_key j) history w1 → mine (job_key j) history w2 = [s]) as [Hl Hkeep].
  { destruct O1 as [O1|[[s O1] _]].
    - rewrite Hnew in O1. rewrite O1. split; [|by intros s ?%elem_of_nil].
      destruct O2 as [->|[[s ->] _]]; [rewrite O1|]; cbn; lia.
    - destruct O2 as [->|[_ O2]]; [|congruence]. rewrite O1. split; [cbn; lia|].
      by intros s' ->%list_elem_of_singleton. }
  split; [done|]. intros Hp.
  assert (cj_DataPaths j' ≠ []) as Hp'.
  { destruct Hsame as (_ & _ & _ & Hperm). intros E. rewrite E in Hperm. by apply Permutation_nil_r in Hperm. }
  assert (∀ s, s ∈ mine (job_key j) history w2 → mine (job_key j) history w2 = [s]) as Hone.
  { intros s Hs. destruct (mine (job_key j) history w2) as [|s' [|]]; [by apply elem_of_nil in Hs| |cbn in Hl; lia].
    by apply list_elem_of_singleton in Hs as ->. }
  split.
  - intros [E|E].
    + destruct (S1 E Hp) as (s & Hs & _). exists s. by apply Hkeep.
    + destruct (S2 E Hp') as (s & Hs & _). exists s. by apply Hone.
  - intros E1 E2. destruct (S1 E1 Hp) as (s & Hs & ->), (S2 E2 Hp') as (s' & Hs' & ->).
    apply Hkeep in Hs. apply Hone in Hs'. congruence.
Qed.
End Jobs.

(** ** Examples *)

Module PoolExamples.
Import CommitExamples.
#[local] Existing Instances CommitExamples.ascii_tables CommitExamples.types CommitExamples.in_memory.
(** A hash that cannot collide. *)
#[local] Instance lib : PoolLib := {| sha256_hex x := "h" +:+ x; to_lower_above_latin1 r := r |}.

Definition job (writer : string) (paths : list string) : CommitJob :=
  MkCommitJob writer "ns" "t" "run" paths None "APPEND".
Definition a : CommitJob := job "w1" ["a.parquet"; "b.parquet"].
Definition again : CommitJob := job "w2" ["b.parquet"; "a.parquet"].

(** The first answer is lost, so the commit is found; so is the second delivery. *)
Definition first_run : World * PoolResult := run (mret None) ∅ a w0.
Definition second_run : World * PoolResult := run (mret None) ∅ again first_run.1.
Lemma redelivered_job_commits_once_witness :
  (∃ s, mine (job_key a) ex_history second_run.1 = [s]) ∧ pr_SnapshotIDAfter first_run.2 = pr_SnapshotIDAfter second_run.2.
Proof.
  destruct (redelivered_job_commits_once ex_history (mret None) ∅ a again w0 first_run.1 second_run.1
    first_run.2 second_run.2) as [_ H].
  - apply in_memory_laws.
  - by apply lawful_ret.
  - done.
  - split_and!; try done. apply Permutation_swap.
  - vm_compute. reflexivity.
  - vm_compute. reflexivity.
  - vm_compute. reflexivity.
  - destruct H as [H1 H2]; [done|]. split; [apply H1; left|apply H2]; vm_compute; reflexivity.
Defined.

Definition cfg : CommitPoolConfig := pool_config 1 2.
Definition result_a : PoolResult := first_run.2.
Definition after_dispatch : CommitPool := match Dispatch (NewCommitPool cfg) with Ok p => p | Err _ => NewCommitPool cfg end.
Definition waiting : system := MkSystem after_dispatch [MkGoroutine a (GWaiting 0)] [a].
Lemma waiting_reachable : reachable cfg waiting.
Proof.
  apply (reachable_step cfg (MkSystem after_dispatch [MkGoroutine a GDispatched] [a]) EAdvance).
  - apply (reachable_step cfg (initial cfg) EDispatch); [constructor|].
    apply (step_dispatch (NewCommitPool cfg) after_dispatch [] [] a). vm_compute. reflexivity.
  - apply (step_advance after_dispatch after_dispatch [] (MkGoroutine a GDispatched)
      (Some (MkGoroutine a (GWaiting 0))) [] [a]). constructor.
Qed.
Definition running : system := MkSystem (acquire after_dispatch) [MkGoroutine a (GRunning 0)] [a].
Lemma running_reachable : reachable cfg running.
Proof.
  apply (reachable_step cfg waiting EAdvance); [apply waiting_reachable|].
  apply (step_advance after_dispatch (acquire after_dispatch) [] (MkGoroutine a (GWaiting 0))
    (Some (MkGoroutine a (GRunning 0))) [] [a]). constructor. vm_compute. lia.
Qed.
Definition final_pool : CommitPool := wg_done (uncount (release (record 0 result_a (acquire after_dispatch)))).
Definition drained : system := MkSystem final_pool [] [a].
Lemma drained_reachable : reachable cfg drained.
Proof.
  set (p1 := record 0 result_a (acquire after_dispatch)).
  apply (reachable_step cfg (MkSystem (uncount (release p1)) [MkGoroutine a GUncounted] [a]) EAdvance).
  2: { apply (step_advance _ _ [] (MkGoroutine a GUncounted) None [] [a]). constructor. }
  apply (reachable_step cfg (MkSystem (release p1) [MkGoroutine a (GRecorded false)] [a]) EAdvance).
  2: { apply (step_advance _ _ [] (MkGoroutine a (GRecorded false)) (Some (MkGoroutine a GUncounted)) [] [a]). constructor. }
  apply (reachable_step cfg (MkSystem p1 [MkGoroutine a (GRecorded true)] [a]) EAdvance).
  2: { apply (step_advance _ _ [] (MkGoroutine a (GRecorded true)) (Some (MkGoroutine a (GRecorded false))) [] [a]). constructor. }
  apply (reachable_step cfg running EAdvance); [apply running_reachable|].
  apply (step_advance _ _ [] (MkGoroutine a (GRunning 0)) (Some (MkGoroutine a (GRecorded true))) [] [a]).
  constructor. vm_compute. by split_and!.
Qed.

Lemma pool_bounds_witness : reachable cfg running ∧ p_sem (s_pool running) = 1 ∧
  count holds_slot (s_goroutines running) ≤ 1.
Proof.
  pose proof (pool_bounds cfg running running_reachable) as (H & _).
  split_and!; [apply running_reachable|reflexivity|exact H].
Defined.
Lemma Wait_returns_the_session_witness : ∃ finished, Forall2 result_of finished [result_a] ∧ [a] ≡ₚ finished.
Proof.
  apply (Wait_returns_the_session cfg drained (MkSystem (Wait final_pool).1 [] []) [result_a] drained_reachable).
  apply (step_wait final_pool [] [a] true); [constructor|reflexivity].
Defined.
Lemma pool_drains_witness : ∃ s s' out, advances running s ∧ step s (EWait true out) s'.
Proof.
  destruct (pool_drains cfg running ltac:(vm_compute; lia) running_reachable) as (_ & _ & s & s' & out & H & Hs).
  by exists s, s', out.
Defined.
Lemma ComputeIdempotencyKey_correct_witness :
  job_key a = job_key again ∧
  (ComputeIdempotencyKey "run" "ns" "t" ["a"] = ComputeIdempotencyKey "run" "ns" "t" ["b"] →
   (["a"] ≡ₚ ["b"]) ∨ ∃ x y, x ≠ y ∧ sha256_hex x = sha256_hex y).
Proof.
  split.
  - apply (proj1 (ComputeIdempotencyKey_correct "run" "ns" "t" (cj_DataPaths a) "run" "ns" "t" (cj_DataPaths again)));
      try done. apply Permutation_swap.
  - intros H. destruct (proj2 (ComputeIdempotencyKey_correct "run" "ns" "t" ["a"] "run" "ns" "t" ["b"])) as [Hp|Hc];
      [by repeat constructor..|exact H|left; apply Hp|right; exact Hc].
Defined.
End PoolExamples.
