(* ===== verification/Gateway.v ===== *)
(** * Gateway: the write session of the data gateway
      (pkg/datagateway/server_v2_writing.go, server_v2_commit.go)

    The output fence and bucket resolution of OpenWriter, the write mode of a
    table, CloseWriter with the dispatch of its commit, and the session's
    Commit.  The plane writers and the commit pool are the interface [Plane];
    the writers of the session, which handlers share by pointer, are the state,
    by writer ID. *)

From S2P Require Import Prelude CommitTable CommitPool.

(** ** Configuration *)

Record OutputTable := MkOutputTable { ot_Name : string; ot_Bucket : string; ot_WriteMode : string }.
Record GatewayConfig := MkGatewayConfig {
  gc_RunID : string;
  gc_DefaultBucket : string;
  gc_DefaultWriteMode : string;
  gc_OutputBuckets : list string;
  gc_OutputTables : list OutputTable;
  gc_Preview : bool;
}.

(** [sort.Strings] of the set. *)
Definition declaredOutputBuckets (c : GatewayConfig) : list string :=
  let tables := list_to_set (filter (.≠ EmptyString) (ot_Bucket <$> gc_OutputTables c)) : gset string in
  let default := if str_empty (gc_DefaultBucket c) then ∅ else {[gc_DefaultBucket c]} : gset string in
  sorted_names (default ∪ list_to_set (gc_OutputBuckets c) ∪ tables).
(** [sort.SearchStrings]: the least index whose element is not below. *)
Fixpoint SearchStrings (l : list string) (x : string) : nat :=
  match l with
  | [] => 0
  | y :: l => if decide (String.le x y) then 0 else S (SearchStrings l x)
  end.
Definition declaredOutputBucket (c : GatewayConfig) (bucket : string) : bool :=
  let declared := declaredOutputBuckets c in
  match declared with
  | [] => negb (gc_Preview c)
  | _ => bool_decide (declared !! SearchStrings declared bucket = Some bucket)
  end.

(** The target of OpenWriter: the requested bucket, else the first output table
    of that name, else the default bucket. *)
Definition resolve_bucket (c : GatewayConfig) (bucket table : string) : string :=
  if negb (str_empty bucket) then bucket
  else
    let b := match find (λ t, bool_decide (ot_Name t = table)) (gc_OutputTables c) with
      | Some t => ot_Bucket t
      | None => EmptyString
      end in
    if str_empty b then gc_DefaultBucket c else b.
Definition open_target (c : GatewayConfig) (bucket table : string) : result string string :=
  if str_empty table then Err "table is required"
  else
    let b := resolve_bucket c bucket table in
    if str_empty b then
      match gc_OutputTables c with
      | [] => Err ("cannot determine a bucket for table '" +:+ table +:+
          "': no bucket in the request, no outputs.tables entries, and no outputs.defaultBucket configured")
      | ts => Err ("table '" +:+ table +:+ "' is not declared in outputs.tables (declared: " +:+
          join ", " (ot_Name <$> ts) +:+ ") and no defaultBucket is configured; either add '" +:+ table +:+
          "' to outputs.tables, set outputs.defaultBucket, or make the component write one of the declared tables")
      end
    else Ok b.

Section WriteMode.
Context `{UT : !UnicodeTables}.
Definition open_writer_bucket (c : GatewayConfig) (bucket table : string) : result string string :=
  b ← open_target c bucket table;
  if declaredOutputBucket c b then Ok b
  else Err ("bucket " +:+ quote b +:+ " is not a declared output of this component (declared: " +:+
            join ", " (declaredOutputBuckets c) +:+ ")").

Definition writeModeForTable (c : GatewayConfig) (bucket table : string) : string :=
  match find (λ t, bool_decide (ot_Bucket t = bucket ∧ ot_Name t = table)) (gc_OutputTables c) with
  | Some t => if bool_decide (to_upper (ot_WriteMode t) = "FULL_LOAD") then WriteModeFullLoad else WriteModeAppend
  | None =>
    if negb (str_empty (gc_DefaultBucket c)) && bool_decide (gc_DefaultBucket c = bucket) then
      if bool_decide (to_upper (gc_DefaultWriteMode c) = "FULL_LOAD") then WriteModeFullLoad else WriteModeAppend
    else EmptyString
  end.
End WriteMode.

(** ** The writers of a session *)

Section Types.
Context `{IT : !IcebergTypes}.
Record WrittenFile := MkWrittenFile {
  wf_Path : string;
  wf_Rows : Z;
  wf_Bytes : Z;
  wf_SpecID : Z;
  wf_Partition : option Tuple;
}.
Record writerState := MkWriterState {
  ws_bucket : string;
  ws_table : string;
  ws_opened : bool;  (** it has a plane writer *)
  ws_files : list WrittenFile;
  ws_committed : bool;
}.
End Types.

(** What the gateway calls: the Close of a writer's plane writer, and the pool;
    [X] is everything outside the writers. *)
Class Plane `{IT : !IcebergTypes} (X : Type) : Type := {
  TableWriter_Close : string → St X (result string (list WrittenFile));
  pool_Dispatch : CommitJob → St X (option string);
  pool_Wait : St X (list PoolResult);
}.

Inductive status : Type := STATUS_COMMITTED | STATUS_SKIPPED | STATUS_FAILED.
#[export] Instance status_eq : EqDecision status.
Proof. solve_decision. Defined.
Record TableCommitResult := MkTableCommitResult {
  tr_Table : string;
  tr_Bucket : string;
  tr_Status : status;
  tr_Error : string;
  tr_FilesAdded : Z;
  tr_RowsAdded : Z;
}.
Record BucketCommitResult := MkBucketCommitResult {
  br_Bucket : string;
  br_Status : status;
  br_Tables : list TableCommitResult;
}.
Record CommitResponse := MkCommitResponse {
  resp_Success : bool;
  resp_Buckets : list BucketCommitResult;
  resp_Error : string;
}.

Section Session.
Context `{UT : !UnicodeTables} `{IT : !IcebergTypes} {X : Type} `{PLN : !Plane X}.
Variables (c : GatewayConfig) (has_pool : bool).

(** The writers, in the order the code ranges over its map. *)
Abbreviation server := (X * gomap writerState)%type.
Definition put_writer (id : string) (ws : writerState) (m : gomap writerState) : gomap writerState :=
  (λ e : string * writerState, if decide (e.1 = id) then (id, ws) else e) <$> m.
Definition set_files (fs : list WrittenFile) (ws : writerState) : writerState :=
  MkWriterState (ws_bucket ws) (ws_table ws) (ws_opened ws) fs (ws_committed ws).
Definition claim (ws : writerState) : writerState :=
  MkWriterState (ws_bucket ws) (ws_table ws) (ws_opened ws) (ws_files ws) true.

Definition writerProducedFiles (ws : writerState) : bool := match ws_files ws with [] => false | _ => true end.
Definition writerRowsWritten (ws : writerState) : Z := foldl (λ n f, wrap64 (n + wf_Rows f)) 0%Z (ws_files ws).

Definition closeTableWriter (id : string) (ws : writerState) : St server (result string (list WrittenFile)) :=
  λ '(x, m),
  if negb (ws_opened ws) then (x, m, Ok [])
  else
    let (x, r) := TableWriter_Close id x in
    match r with
    | Err e => (x, m, Err e)
    | Ok files => (x, put_writer id (set_files files ws) m, Ok files)
    end.

Definition job_of (id : string) (ws : writerState) (first : WrittenFile) : CommitJob :=
  let mode := writeModeForTable c (ws_bucket ws) (ws_table ws) in
  MkCommitJob id (ws_bucket ws) (ws_table ws) (gc_RunID c) (wf_Path <$> ws_files ws)
    (match wf_Partition first with
     | Some _ => Some (MkPartitionedFiles (wf_SpecID first) (wf_Partition <$> ws_files ws))
     | None => None
     end)
    (if str_empty mode then WriteModeAppend else mode).
(** On the writer as it is now in the map. *)
Definition finalizeAndDispatch (id : string) : St server (option string) :=
  λ '(x, m),
  match gm_get id m with
  | None => (x, m, None)
  | Some ws =>
    if ws_committed ws then (x, m, None)
    else
      let m := put_writer id (claim ws) m in
      match ws_files ws with
      | [] => (x, m, None)
      | first :: _ =>
        if negb has_pool then (x, m, None)
        else
          let (x, e) := pool_Dispatch (job_of id ws first) x in
          (x, m, (λ e, "dispatch commit " +:+ ws_bucket ws +:+ "." +:+ ws_table ws +:+ ": " +:+ e) <$> e)
      end
  end.

(** The handler of CloseWriter, with the totals it answers. *)
Definition CloseWriter (id : string) (external : bool) : St server (result string (Z * Z * Z)) :=
  λ '(x, m),
  match gm_get id m with
  | None => (x, m, Err ("unknown writer: " +:+ id))
  | Some ws =>
    if external then
      (x, m, Err ("external data files are not supported (writer " +:+ id +:+ ", table " +:+ ws_bucket ws +:+ "." +:+
                  ws_table ws +:+ ")"))
    else
      let '(x, m, files) := closeTableWriter id ws (x, m) in
      match files with
      | Err e => (x, m, Err ("failed to close writer: " +:+ e))
      | Ok files =>
        let '(x, m, e) := finalizeAndDispatch id (x, m) in
        match e with
        | Some e => (x, m, Err e)
        | None =>
          (x, m, Ok (foldl (λ n f, wrap64 (n + wf_Rows f)) 0%Z files, foldl (λ n f, wrap64 (n + wf_Bytes f)) 0%Z files,
                     wrap32 (Z.of_nat (length files))))
        end
      end
  end.

(** ** Commit *)

(** The sweep over the writers not yet claimed; the first error is kept. *)
Fixpoint sweep (l : list string) (sweepErr : option string) : St server (option string) :=
  match l with
  | [] => mret sweepErr
  | id :: l => λ '(x, m),
    match gm_get id m with
    | None => sweep l sweepErr (x, m)
    | Some ws =>
      let '(x, m, r) := closeTableWriter id ws (x, m) in
      match r with
      | Err e =>
        let e := "sweep close " +:+ ws_bucket ws +:+ "." +:+ ws_table ws +:+ ": " +:+ e in
        sweep l (match sweepErr with None => Some e | Some _ => sweepErr end) (x, m)
      | Ok _ =>
        let '(x, m, e) := finalizeAndDispatch id (x, m) in
        sweep l (match sweepErr with None => e | Some _ => sweepErr end) (x, m)
      end
    end
  end.

(** The entry of a pool result, with the writers as they are after the sweep. *)
Definition pool_entry (expected : gomap writerState) (r : PoolResult) : TableCommitResult :=
  match pr_Err r with
  | Some e => MkTableCommitResult (pr_Table r) (pr_Namespace r) STATUS_FAILED (e_msg e) 0 0
  | None =>
    if bool_decide (pr_DataFilesAdded r = 0) && str_empty (pr_SnapshotIDAfter r) then
      MkTableCommitResult (pr_Table r) (pr_Namespace r) STATUS_SKIPPED EmptyString 0 0
    else
      MkTableCommitResult (pr_Table r) (pr_Namespace r) STATUS_COMMITTED EmptyString
        (wrap32 (Z.of_nat (pr_DataFilesAdded r)))
        (match gm_get (pr_WriterID r) expected with Some ws => writerRowsWritten ws | None => 0%Z end)
  end.
(** The entry of a writer without a result. *)
Definition unseen_entry (ws : writerState) : TableCommitResult :=
  if negb (writerProducedFiles ws) then
    MkTableCommitResult (ws_table ws) (ws_bucket ws) STATUS_SKIPPED EmptyString 0 0
  else if negb has_pool then
    MkTableCommitResult (ws_table ws) (ws_bucket ws) STATUS_COMMITTED EmptyString 0 (writerRowsWritten ws)
  else
    MkTableCommitResult (ws_table ws) (ws_bucket ws) STATUS_FAILED
      "commit not dispatched (reconciliation failure)" 0 0.
Definition failed_entry (t : TableCommitResult) : bool := bool_decide (tr_Status t = STATUS_FAILED).

(** The entries of one bucket are together. *)
Definition add_entry (t : TableCommitResult) (bs : gomap (list TableCommitResult)) : gomap (list TableCommitResult) :=
  if bool_decide (tr_Bucket t ∈ gm_keys bs) then
    (λ e : string * list TableCommitResult, if decide (e.1 = tr_Bucket t) then (e.1, e.2 ++ [t]) else e) <$> bs
  else bs ++ [(tr_Bucket t, [t])].
Definition bucket_result (e : string * list TableCommitResult) : BucketCommitResult :=
  MkBucketCommitResult e.1 (if existsb failed_entry e.2 then STATUS_FAILED else STATUS_COMMITTED) e.2.

Definition Commit : St server CommitResponse :=
  λ '(x, m),
  let ids := (λ e : string * writerState, e.1) <$> filter (λ e, ws_committed e.2 = false) m in
  let '(x, expected, sweepErr) := sweep ids None (x, m) in
  let (x, poolResults) := if has_pool then pool_Wait x else (x, []) in
  let seen := pr_WriterID <$> poolResults in
  let unseen := filter (λ e : string * writerState, e.1 ∉ seen) expected in
  let entries := (pool_entry expected <$> poolResults) ++ ((λ e : string * writerState, unseen_entry e.2) <$> unseen) in
  let success := bool_decide (sweepErr = None) && negb (existsb failed_entry entries) in
  let buckets := bucket_result <$> foldl (λ bs t, add_entry t bs) [] entries in
  (x, [], MkCommitResponse success buckets (default EmptyString sweepErr)).
End Session.

(** ** The output fence *)

Lemma SearchStrings_sorted l x : StronglySorted String.le l → l !! SearchStrings l x = Some x ↔ x ∈ l.
Proof.
  induction 1 as [|y l Hs IH Hy]; cbn; [by split; [|intros ?%elem_of_nil]|].
  destruct (decide (String.le x y)) as [Hle|Hgt]; cbn.
  - split; [intros [= ->]; by left|]. intros [->|Hin]%elem_of_cons; [done|]. f_equal.
    rewrite Forall_forall in Hy. apply (anti_symm String.le); [by apply Hy|done].
  - rewrite IH, elem_of_cons. split; [by right|]. intros [->|?]; [|done]. by destruct Hgt.
Qed.

(** The buckets a configuration declares as outputs. *)
Definition declares (c : GatewayConfig) (b : string) : Prop :=
  (b = gc_DefaultBucket c ∧ b ≠ EmptyString) ∨ b ∈ gc_OutputBuckets c ∨
  ∃ t, t ∈ gc_OutputTables c ∧ ot_Bucket t = b ∧ b ≠ EmptyString.
Lemma elem_of_declared c b : b ∈ declaredOutputBuckets c ↔ declares c b.
Proof.
  unfold declaredOutputBuckets, declares. rewrite elem_of_sorted_names, !elem_of_union, !elem_of_list_to_set.
  rewrite list_elem_of_filter, list_elem_of_fmap.
  assert (b ∈ (if str_empty (gc_DefaultBucket c) then ∅ else {[gc_DefaultBucket c]} : gset string) ↔
    b = gc_DefaultBucket c ∧ b ≠ EmptyString) as ->.
  { destruct (str_empty (gc_DefaultBucket c)) eqn:E.
    - apply str_empty_true in E. rewrite E. set_solver.
    - apply str_empty_false in E. set_solver. }
  naive_solver.
Qed.
Lemma declaredOutputBucket_iff c b :
  declaredOutputBucket c b = true ↔ declares c b ∨ (∀ b', ¬ declares c b') ∧ gc_Preview c = false.
Proof.
  unfold declaredOutputBucket. pose proof (elem_of_declared c) as Hd.
  assert (StronglySorted String.le (declaredOutputBuckets c)) as Hs by apply sorted_names_sorted.
  destruct (declaredOutputBuckets c) as [|y l] eqn:E.
  - rewrite negb_true_iff. split; [intros ?; right; split; [|done]; by intros b' ?%Hd%elem_of_nil|].
    intros [?%Hd%elem_of_nil|[_ ?]]; done.
  - rewrite bool_decide_eq_true, SearchStrings_sorted, Hd by done.
    split; [by left|]. intros [?|[Hno _]]; [done|]. exfalso. apply (Hno y), Hd. by left.
Qed.

(** OpenWriter gives a writer for exactly the resolved bucket, when the
    component declares that bucket as an output, or declares none at all and is
    not in a preview: in a preview nothing undeclared can be written. *)
Theorem open_writer_fence `{UT : !UnicodeTables} (c : GatewayConfig) (bucket table b : string) :
  open_writer_bucket c bucket table = Ok b ↔
  table ≠ EmptyString ∧ b = resolve_bucket c bucket table ∧ b ≠ EmptyString ∧
  (declares c b ∨ (∀ b', ¬ declares c b') ∧ gc_Preview c = false).
Proof.
  unfold open_writer_bucket, open_target. rewrite <-declaredOutputBucket_iff.
  destruct (str_empty table) eqn:Et; cbn; [apply str_empty_true in Et; naive_solver|].
  apply str_empty_false in Et. destruct (str_empty (resolve_bucket c bucket table)) eqn:Eb; cbn.
  - apply str_empty_true in Eb. rewrite Eb. destruct (gc_OutputTables c); naive_solver.
  - apply str_empty_false in Eb. split.
    + destruct (declaredOutputBucket c (resolve_bucket c bucket table)) eqn:Ed; [|done]. by intros [= <-].
    + intros (_ & -> & _ & Hd). by rewrite Hd.
Qed.

(** ** Commit *)

Section Buckets.
Lemma add_entry_tables t bs : gm_ok bs → mjoin ((add_entry t bs).*2) ≡ₚ mjoin (bs.*2) ++ [t].
Proof.
  unfold add_entry, gm_ok, gm_keys. intros Hok. destruct (bool_decide_reflect (tr_Bucket t ∈ bs.*1)) as [Hin|Hni].
  - induction bs as [|[b ts] bs IH]; cbn in *; [by apply elem_of_nil in Hin|].
    apply NoDup_cons in Hok as [Hb Hok]. destruct (decide (b = tr_Bucket t)) as [->|Hne]; cbn.
    + assert ((λ e : string * list TableCommitResult, if decide (e.1 = tr_Bucket t) then (e.1, e.2 ++ [t]) else e) <$> bs = bs)
        as ->; [|solve_Permutation].
      clear IH Hok Hin. induction bs as [|[b' ts'] bs IH]; [done|]. cbn in *. apply not_elem_of_cons in Hb as [? Hb].
      rewrite decide_False by done. by rewrite IH.
    + apply elem_of_cons in Hin as [?|Hin]; [done|]. rewrite IH by done. solve_Permutation.
  - rewrite fmap_app, join_app. done.
Qed.
Lemma add_entry_keys t bs : gm_keys (add_entry t bs) = if bool_decide (tr_Bucket t ∈ gm_keys bs) then gm_keys bs else gm_keys bs ++ [tr_Bucket t].
Proof.
  unfold add_entry, gm_keys. destruct (bool_decide _); [|by rewrite fmap_app].
  rewrite <-list_fmap_compose. apply list_fmap_ext. intros i [b ts] _. cbn. by destruct (decide _).
Qed.
Lemma add_entry_ok t bs : gm_ok bs → gm_ok (add_entry t bs).
Proof.
  unfold gm_ok. rewrite add_entry_keys. destruct (bool_decide_reflect (tr_Bucket t ∈ gm_keys bs)); [done|].
  intros H. apply NoDup_app. split_and!; [done| |apply NoDup_singleton]. by intros x Hx ->%list_elem_of_singleton.
Qed.
Definition homed (bs : gomap (list TableCommitResult)) : Prop := ∀ b ts t, (b, ts) ∈ bs → t ∈ ts → tr_Bucket t = b.
Lemma add_entry_homed t bs : homed bs → homed (add_entry t bs).
Proof.
  intros H b ts t'. unfold add_entry. destruct (bool_decide _).
  - intros ([b' ts'] & He & Hin)%list_elem_of_fmap Ht. cbn in He. destruct (decide (b' = tr_Bucket t)) as [->|].
    + simplify_eq. apply elem_of_app in Ht as [Ht|Ht%list_elem_of_singleton]; [by eapply H|by subst].
    + simplify_eq. by eapply H.
  - intros [Hin|Hin%list_elem_of_singleton]%elem_of_app Ht; [by eapply H|]. injection Hin as -> ->.
    by apply list_elem_of_singleton in Ht as ->.
Qed.
Lemma add_entries l bs : gm_ok bs → homed bs →
  let r := foldl (λ bs t, add_entry t bs) bs l in
  gm_ok r ∧ homed r ∧ mjoin (r.*2) ≡ₚ mjoin (bs.*2) ++ l.
Proof.
  revert bs. induction l as [|t l IH]; intros bs Hok Hh; cbn; [by rewrite app_nil_r|].
  destruct (IH (add_entry t bs)) as (H1 & H2 & H3); [by apply add_entry_ok|by apply add_entry_homed|].
  split_and!; [done..|]. rewrite H3, add_entry_tables by done. by rewrite <-app_assoc.
Qed.
Lemma existsb_failed l : existsb failed_entry l = true ↔ ∃ t, t ∈ l ∧ tr_Status t = STATUS_FAILED.
Proof.
  rewrite existsb_exists. setoid_rewrite <-list_elem_of_In. unfold failed_entry.
  split; intros (t & ? & H); exists t; (split; [done|]); by apply bool_decide_eq_true in H || apply bool_decide_eq_true.
Qed.
End Buckets.

Section CommitProperties.
Context `{UT : !UnicodeTables} `{IT : !IcebergTypes} {X : Type} `{PLN : !Plane X}.
Variables (c : GatewayConfig) (has_pool : bool).

(** The parts of a Commit: the sweep, then the pool. *)
Definition swept (x : X) (m : gomap writerState) : X * gomap writerState * option string :=
  sweep c has_pool ((λ e : string * writerState, e.1) <$> filter (λ e, ws_committed e.2 = false) m) None (x, m).
Definition collected (x : X) : X * list PoolResult := if has_pool then pool_Wait x else (x, []).
Definition commit_entries (expected : gomap writerState) (results : list PoolResult) : list TableCommitResult :=
  (pool_entry expected <$> results) ++
  ((λ e : string * writerState, unseen_entry has_pool e.2) <$>
   filter (λ e : string * writerState, e.1 ∉ (pr_WriterID <$> results)) expected).
Lemma Commit_eq x m : ∃ bs, foldl (λ bs t, add_entry t bs) []
    (commit_entries (swept x m).1.2 (collected (swept x m).1.1).2) = bs ∧
  Commit c has_pool (x, m) = ((collected (swept x m).1.1).1, [], MkCommitResponse
    (bool_decide ((swept x m).2 = None) && negb (existsb failed_entry (commit_entries (swept x m).1.2 (collected (swept x m).1.1).2)))
    (bucket_result <$> bs) (default EmptyString (swept x m).2)).
Proof.
  eexists. split; [done|]. unfold Commit, swept, collected, commit_entries.
  destruct (sweep _ _ _ _ _) as [[x1 expected] e]. cbn [fst snd].
  destruct has_pool; [destruct (pool_Wait x1)|]; done.
Qed.

Lemma pool_entry_failed expected r : tr_Status (pool_entry expected r) = STATUS_FAILED ↔ pr_Err r ≠ None.
Proof. unfold pool_entry. destruct (pr_Err r); [done|]. destruct (_ && _); naive_solver. Qed.
Lemma unseen_entry_failed ws : tr_Status (unseen_entry has_pool ws) = STATUS_FAILED ↔ has_pool = true ∧ ws_files ws ≠ [].
Proof. unfold unseen_entry, writerProducedFiles. destruct (ws_files ws); cbn; [naive_solver|]. destruct has_pool; naive_solver. Qed.

(** Every writer with files has a result, and no result is an error. *)
Definition all_committed (expected : gomap writerState) (results : list PoolResult) : Prop :=
  (∀ r, r ∈ results → pr_Err r = None) ∧
  (has_pool = true → ∀ id ws, (id, ws) ∈ expected → ws_files ws ≠ [] → ∃ r, r ∈ results ∧ pr_WriterID r = id).
Lemma entries_failed expected results :
  existsb failed_entry (commit_entries expected results) = false ↔ all_committed expected results.
Proof.
  rewrite <-not_true_iff_false, existsb_failed. unfold commit_entries, all_committed. split.
  - intros Hno. split.
    + intros r Hr. destruct (pr_Err r) eqn:E; [|done]. exfalso. apply Hno. exists (pool_entry expected r).
      split; [apply elem_of_app; left; by apply list_elem_of_fmap_2|]. by rewrite pool_entry_failed, E.
    + intros Hp id ws Hin Hf. destruct (decide (id ∈ pr_WriterID <$> results)) as [Hs|Hs].
      { apply list_elem_of_fmap in Hs as (r & -> & Hr). by exists r. }
      exfalso. apply Hno. exists (unseen_entry has_pool ws). split; [|by apply unseen_entry_failed].
      apply elem_of_app. right. apply list_elem_of_fmap. exists (id, ws). split; [done|].
      by apply list_elem_of_filter.
  - intros [Hr Hw] (t & [Hin|Hin]%elem_of_app & Hf).
    + apply list_elem_of_fmap in Hin as (r & -> & Hin). apply pool_entry_failed in Hf. by apply Hf, Hr.
    + apply list_elem_of_fmap in Hin as ([id ws] & -> & Hin). apply unseen_entry_failed in Hf as [Hp Hf].
      apply list_elem_of_filter in Hin as [Hs Hin]. destruct (Hw Hp id ws Hin Hf) as (r & Hr' & <-).
      apply Hs. by apply (list_elem_of_fmap_2 pr_WriterID).
Qed.

Definition reported (e : option string) : Prop := ∀ s, e = Some s → s ≠ EmptyString.
Lemma finalize_reported id x m : reported (finalizeAndDispatch c has_pool id (x, m)).2.
Proof.
  unfold finalizeAndDispatch. destruct (gm_get id m) as [ws|]; [|done]. destruct (ws_committed ws); [done|].
  destruct (ws_files ws) as [|f fs]; [done|]. destruct (negb has_pool); [done|].
  destruct (pool_Dispatch _ x) as [x' [e|]]; cbn; [|done]. by intros s [= <-].
Qed.
Lemma sweep_reported l e x m : reported e → reported (sweep c has_pool l e (x, m)).2.
Proof.
  revert e x m. induction l as [|id l IH]; intros e x m He; [done|]. cbn [sweep].
  destruct (gm_get id m) as [ws|]; [|by apply IH].
  destruct (closeTableWriter id ws (x, m)) as [[x1 m1] [fs|err]].
  - pose proof (finalize_reported id x1 m1) as Hf.
    destruct (finalizeAndDispatch c has_pool id (x1, m1)) as [[x2 m2] e2]. apply IH. by destruct e.
  - apply IH. destruct e; [done|]. by intros s [= <-].
Qed.

(** Commit reports success exactly when the sweep closed and dispatched every
    open writer, every pool result is without error, and (with a pool) every
    writer that produced files has a result; and a failure is never silent: the
    response has an error text or a failed table in a failed bucket. *)
Theorem Commit_success (x : X) (m : gomap writerState) :
  let resp := (Commit c has_pool (x, m)).2 in
  (resp_Success resp = true ↔
    (swept x m).2 = None ∧ all_committed (swept x m).1.2 (collected (swept x m).1.1).2) ∧
  (resp_Success resp = false → resp_Error resp ≠ EmptyString ∨
    ∃ b t, b ∈ resp_Buckets resp ∧ br_Status b = STATUS_FAILED ∧ t ∈ br_Tables b ∧ tr_Status t = STATUS_FAILED).
Proof.
  destruct (Commit_eq x m) as (bs & Hbs & Heq). rewrite Heq. cbn [snd resp_Success resp_Buckets resp_Error].
  set (es := commit_entries _ _) in *. destruct (add_entries es [] ltac:(constructor) ltac:(by intros ? ? ? ?%elem_of_nil)) as (Hok & Hh & Hp).
  cbn [fmap list_fmap mjoin] in Hp. rewrite Hbs in Hok, Hh, Hp. split.
  - rewrite andb_true_iff, bool_decide_eq_true, negb_true_iff. unfold es. by rewrite entries_failed.
  - intros [He|He]%andb_false_iff.
    + left. apply bool_decide_eq_false in He. pose proof (sweep_reported
        ((λ e : string * writerState, e.1) <$> filter (λ e, ws_committed e.2 = false) m) None x m) as Hr.
      fold (swept x m) in Hr. destruct (swept x m).2 as [s|]; [|done]. cbn. by apply Hr.
    + right. apply negb_false_iff, existsb_failed in He as (t & Hin & Ht).
      rewrite <-(app_nil_l es), <-Hp in Hin. apply list_elem_of_join in Hin as (ts & Hts & Hin).
      apply list_elem_of_fmap in Hin as ([b ts'] & -> & Hb). cbn in Hts.
      exists (bucket_result (b, ts')), t. split_and!; [by apply list_elem_of_fmap_2| |done|done].
      unfold bucket_result. cbn. rewrite (proj2 (existsb_failed ts')); [done|]. by exists t.
Qed.

(** The response has every table result once, under its bucket: one for each
    pool result and one for each writer without, and no bucket twice. *)
Theorem Commit_reports (x : X) (m : gomap writerState) :
  let resp := (Commit c has_pool (x, m)).2 in
  mjoin (br_Tables <$> resp_Buckets resp) ≡ₚ commit_entries (swept x m).1.2 (collected (swept x m).1.1).2 ∧
  NoDup (br_Bucket <$> resp_Buckets resp) ∧
  ∀ b t, b ∈ resp_Buckets resp → t ∈ br_Tables b →
    tr_Bucket t = br_Bucket b ∧ (tr_Status t = STATUS_FAILED → br_Status b = STATUS_FAILED).
Proof.
  destruct (Commit_eq x m) as (bs & Hbs & Heq). rewrite Heq. cbn [snd resp_Buckets].
  set (es := commit_entries _ _) in *. destruct (add_entries es [] ltac:(constructor) ltac:(by intros ? ? ? ?%elem_of_nil)) as (Hok & Hh & Hp).
  cbn [fmap list_fmap mjoin] in Hp. rewrite Hbs in Hok, Hh, Hp. split_and!.
  - rewrite <-list_fmap_compose. exact Hp.
  - rewrite <-list_fmap_compose. exact Hok.
  - intros b t (e & -> & He)%list_elem_of_fmap Ht. destruct e as [b' ts]. cbn in *. split; [by eapply Hh|].
    intros Hf. rewrite (proj2 (existsb_failed ts)); [done|]. by exists t.
Qed.
End CommitProperties.

(** ** Each writer is dispatched at most once *)

Section Once.
Context `{IT : !IcebergTypes}.

Lemma put_writer_keys id ws m : gm_keys (put_writer id ws m) = gm_keys m.
Proof.
  unfold put_writer, gm_keys. rewrite <-list_fmap_compose. apply list_fmap_ext. intros i [k v] _. cbn.
  by destruct (decide (k = id)).
Qed.
Lemma put_writer_get id ws k m :
  gm_get k (put_writer id ws m) = if decide (k = id) then (λ _, ws) <$> gm_get id m else gm_get k m.
Proof.
  unfold put_writer. induction m as [|[k' v] m IH]; cbn; [by destruct (decide _)|].
  destruct (decide (k' = id)) as [->|Hne]; cbn; rewrite IH; repeat case_decide; by simplify_eq/=.
Qed.
End Once.

Section Dispatches.
Context `{UT : !UnicodeTables} `{IT : !IcebergTypes} {X : Type} `{PLN : !Plane X}.
Variables (c : GatewayConfig) (has_pool : bool) (log : X → list CommitJob).

(** [log] is the record of the jobs given to the pool. *)
Class PlaneLaws : Prop := {
  close_log id x : log (TableWriter_Close id x).1 = log x;
  dispatch_log j x : log (pool_Dispatch j x).1 = log x ++ [j];
  wait_log x : log (pool_Wait x).1 = log x;
}.
Context `{PLL : !PlaneLaws}.

(** Every job is that of a claimed writer, with the writer's bucket and table,
    and no writer has two. *)
Definition once_each (s : X * gomap writerState) : Prop :=
  NoDup (cj_WriterID <$> log s.1) ∧
  ∀ j, j ∈ log s.1 → ∃ ws, gm_get (cj_WriterID j) s.2 = Some ws ∧ ws_committed ws = true ∧
    cj_Namespace j = ws_bucket ws ∧ cj_Table j = ws_table ws.

(** The claimed writers, their buckets and tables stay. *)
Definition keeps (m m' : gomap writerState) : Prop := ∀ k ws, gm_get k m = Some ws →
  ∃ ws', gm_get k m' = Some ws' ∧ ws_bucket ws' = ws_bucket ws ∧ ws_table ws' = ws_table ws ∧
    (ws_committed ws = true → ws_committed ws' = true).
Lemma put_keeps id ws ws' m : gm_get id m = Some ws → ws_bucket ws' = ws_bucket ws → ws_table ws' = ws_table ws →
  (ws_committed ws = true → ws_committed ws' = true) → keeps m (put_writer id ws' m).
Proof.
  intros Hg Hb Ht Hc k w Hk. rewrite put_writer_get. destruct (decide (k = id)) as [->|].
  - rewrite Hg. exists ws'. by simplify_eq.
  - by exists w.
Qed.
Lemma keeps_once x m m' : keeps m m' → once_each (x, m) → once_each (x, m').
Proof.
  intros Hk [Hn Hj]. split; [done|]. intros j Hin. destruct (Hj j Hin) as (ws & Hg & Hc & Hb & Ht).
  destruct (Hk _ _ Hg) as (ws' & Hg' & Hb' & Ht' & Hc'). exists ws'. split_and!; [done|auto|congruence..].
Qed.
Lemma unlogged_once x x' m : log x' = log x → once_each (x, m) → once_each (x', m).
Proof. unfold once_each. cbn. by intros ->. Qed.

Lemma closeTableWriter_once id ws x m : gm_get id m = Some ws → once_each (x, m) →
  once_each (closeTableWriter id ws (x, m)).1.
Proof.
  intros Hg Ho. unfold closeTableWriter. destruct (negb _); [done|].
  pose proof (close_log id x) as Hl. destruct (TableWriter_Close id x) as [x' [fs|e]]; cbn in *.
  - apply (unlogged_once x); [done|]. by apply (keeps_once x m), Ho; eapply put_keeps.
  - by apply (unlogged_once x).
Qed.
Lemma finalize_once id x m : once_each (x, m) → once_each (finalizeAndDispatch c has_pool id (x, m)).1.
Proof.
  intros Ho. unfold finalizeAndDispatch. destruct (gm_get id m) as [ws|] eqn:Hg; [|done].
  destruct (ws_committed ws) eqn:Hc; [done|].
  assert (keeps m (put_writer id (claim ws) m)) as Hk by (by eapply put_keeps).
  pose proof (keeps_once x m _ Hk Ho) as Ho'.
  destruct (ws_files ws) as [|f fs] eqn:Hf; [done|]. destruct (negb has_pool); [done|].
  pose proof (dispatch_log (job_of c id ws f) x) as Hl. destruct (pool_Dispatch _ x) as [x' e]; cbn in *.
  destruct Ho as [Hn Hj], Ho' as [_ Hj']. unfold once_each. cbn in *. rewrite Hl. split.
  - rewrite fmap_app. apply NoDup_app. split_and!; [done| |apply NoDup_singleton].
    intros k (j & -> & Hin)%list_elem_of_fmap Hk'%list_elem_of_singleton. cbn in Hk'.
    destruct (Hj j Hin) as (ws' & Hg' & Hc' & _). rewrite Hk', Hg in Hg'. simplify_eq. congruence.
  - intros j [Hin|Hin%list_elem_of_singleton]%elem_of_app; [by apply Hj'|]. subst j. cbn.
    exists (claim ws). rewrite put_writer_get, decide_True, Hg by done. done.
Qed.
Lemma CloseWriter_once id external x m : once_each (x, m) → once_each (CloseWriter c has_pool id external (x, m)).1.
Proof.
  intros Ho. unfold CloseWriter. destruct (gm_get id m) as [ws|] eqn:Hg; [|done]. destruct external; [done|].
  pose proof (closeTableWriter_once id ws x m Hg Ho) as H1.
  destruct (closeTableWriter id ws (x, m)) as [[x1 m1] [fs|e]]; [|done]. cbn in H1.
  pose proof (finalize_once id x1 m1 H1) as H2.
  by destruct (finalizeAndDispatch c has_pool id (x1, m1)) as [[x2 m2] [e|]].
Qed.
Lemma sweep_once l e x m : once_each (x, m) → once_each (sweep c has_pool l e (x, m)).1.
Proof.
  revert e x m. induction l as [|id l IH]; intros e x m Ho; [done|]. cbn [sweep].
  destruct (gm_get id m) as [ws|] eqn:Hg; [|by apply IH].
  pose proof (closeTableWriter_once id ws x m Hg Ho) as H1.
  destruct (closeTableWriter id ws (x, m)) as [[x1 m1] [fs|err]]; cbn in H1; [|by apply IH].
  pose proof (finalize_once id x1 m1 H1) as H2.
  destruct (finalizeAndDispatch c has_pool id (x1, m1)) as [[x2 m2] e2]. by apply IH.
Qed.
End Dispatches.

(** Over a whole session (any CloseWriter calls, repeated or failing, then
    Commit with its sweep) no writer's files are dispatched twice, and each
    dispatched job is of a writer of the session, for its bucket and table. *)
Theorem writers_dispatched_once `{UT : !UnicodeTables} `{IT : !IcebergTypes} {X : Type} `{PLN : !Plane X}
  (c : GatewayConfig) (has_pool : bool) (log : X → list CommitJob) (calls : list (string * bool))
  (x : X) (m : gomap writerState) (HP : PlaneLaws log) (Hnew : log x = []) :
  let closed := foldl (λ s call, (CloseWriter c has_pool call.1 call.2 s).1) (x, m) calls in
  let end_state := (sweep c has_pool ((λ e : string * writerState, e.1) <$>
    filter (λ e, ws_committed e.2 = false) closed.2) None closed).1 in
  log (Commit c has_pool closed).1.1 = log end_state.1 ∧
  NoDup (cj_WriterID <$> log (Commit c has_pool closed).1.1) ∧
  ∀ j, j ∈ log (Commit c has_pool closed).1.1 → ∃ ws, gm_get (cj_WriterID j) end_state.2 = Some ws ∧
    cj_Namespace j = ws_bucket ws ∧ cj_Table j = ws_table ws.
Proof.
  intros closed end_state.
  assert (once_each log closed) as Hc.
  { assert (once_each log (x, m)) as H0.
    { split; cbn; rewrite Hnew; [constructor|by intros j ?%elem_of_nil]. }
    revert closed end_state. generalize dependent (x, m). clear Hnew x m.
    induction calls as [|[id ext] calls IH]; intros s Hs; [exact Hs|]. cbn [foldl]. apply IH.
    destruct s as [x m]. by apply CloseWriter_once. }
  assert (once_each log end_state) as He.
  { unfold end_state. destruct closed as [x1 m1]. by apply sweep_once. }
  assert (log (Commit c has_pool closed).1.1 = log end_state.1) as Hlog.
  { unfold end_state. destruct closed as [x1 m1]. unfold Commit. cbn [snd].
    destruct (sweep _ _ _ _ _) as [[x2 m2] e]. cbn.
    pose proof (wait_log log x2) as Hw. by destruct has_pool; [destruct (pool_Wait x2)|]. }
  rewrite Hlog. destruct He as [Hn Hj]. split_and!; [done..|].
  intros j Hin. destruct (Hj j Hin) as (ws & Hg & _ & Hb & Ht). by exists ws.
Qed.

(** ** Examples *)

Module GatewayExamples.
Import CommitExamples.
#[local] Existing Instances CommitExamples.ascii_tables CommitExamples.types.

(** A plane that writes one file per writer, and a pool that commits at once. *)
Record plane := MkPlane { x_log : list CommitJob; x_results : list PoolResult }.
Definition one_file (id : string) : WrittenFile := MkWrittenFile (id +:+ ".parquet") 10 100 0 None.
Definition done_result (j : CommitJob) : PoolResult :=
  MkPoolResult (cj_WriterID j) (cj_Namespace j) (cj_Table j) None EmptyString "1" (length (cj_DataPaths j)) "k" false.
#[local] Instance test_plane : Plane plane := {|
  TableWriter_Close id x := (x, if decide (id = "bad") then Err "disk full" else Ok [one_file id]);
  pool_Dispatch j x := (MkPlane (x_log x ++ [j]) (x_results x ++ [done_result j]), None);
  pool_Wait x := (MkPlane (x_log x) [], x_results x);
|}.
Lemma test_plane_laws : PlaneLaws x_log.
Proof. by split. Qed.

Definition config : GatewayConfig :=
  MkGatewayConfig "run" "out" "full_load" [] [MkOutputTable "log" "audit" "append"] true.
Definition new_writer (bucket table : string) : writerState := MkWriterState bucket table true [] false.
Definition writers : gomap writerState := [("w1", new_writer "out" "t"); ("w2", new_writer "audit" "log")].
Definition start : plane := MkPlane [] [].

Definition refused (b : string) : result string string :=
  Err ("bucket " +:+ quote b +:+ " is not a declared output of this component (declared: audit, out)").
Example fence_sample :
  (λ bt : string * string, open_writer_bucket config bt.1 bt.2) <$>
    [("out", "t"); ("raw", "t"); (EmptyString, "log"); (EmptyString, "t"); ("out", EmptyString)] =
  [Ok "out"; refused "raw"; Ok "audit"; Ok "out"; Err "table is required"].
Proof. vm_compute. reflexivity. Qed.
Example mode_sample : writeModeForTable config "out" "t" = "FULL_LOAD" ∧ writeModeForTable config "audit" "log" = "APPEND" ∧
  writeModeForTable config "raw" "t" = EmptyString.
Proof. vm_compute. done. Qed.

Lemma Commit_success_witness :
  resp_Success (Commit config true (start, writers)).2 = true ∧
  all_committed true (swept config true start writers).1.2 (collected true (swept config true start writers).1.1).2 ∧
  resp_Error (Commit config true (start, [("bad", new_writer "out" "t")])).2 = "sweep close out.t: disk full" ∧
  (resp_Error (Commit config true (start, [("bad", new_writer "out" "t")])).2 ≠ EmptyString ∨
    ∃ b t, b ∈ resp_Buckets (Commit config true (start, [("bad", new_writer "out" "t")])).2 ∧
      br_Status b = STATUS_FAILED ∧ t ∈ br_Tables b ∧ tr_Status t = STATUS_FAILED).
Proof.
  assert (resp_Success (Commit config true (start, writers)).2 = true) as H by (vm_compute; reflexivity).
  split; [exact H|]. split; [exact (proj2 (proj1 (proj1 (Commit_success config true start writers)) H))|].
  split; [vm_compute; reflexivity|].
  apply (proj2 (Commit_success config true start [("bad", new_writer "out" "t")])). vm_compute. reflexivity.
Defined.

Definition calls : list (string * bool) := [("w1", false); ("w1", false); ("w9", false); ("w2", true)].
Definition end_log : list CommitJob :=
  x_log (Commit config true (foldl (λ s call, (CloseWriter config true call.1 call.2 s).1) (start, writers) calls)).1.1.
Lemma writers_dispatched_once_witness :
  cj_WriterID <$> end_log = ["w1"; "w2"] ∧ NoDup (cj_WriterID <$> end_log).
Proof.
  split; [vm_compute; reflexivity|].
  exact (proj1 (proj2 (writers_dispatched_once config true x_log calls start writers test_plane_laws eq_refl))).
Defined.

(** The reports of two tables, and of a failed one. *)
Lemma Commit_reports_witness :
  br_Bucket <$> resp_Buckets (Commit config true (start, writers)).2 = ["out"; "audit"] ∧
  NoDup (br_Bucket <$> resp_Buckets (Commit config true (start, writers)).2).
Proof.
  split; [vm_compute; reflexivity|]. exact (proj1 (proj2 (Commit_reports config true start writers))).
Defined.
End GatewayExamples.
