(* ===== verification/Partition.v ===== *)
(** * Partition: the partition tuple of each row of a batch
      (pkg/datagateway/goplane/partition.go)

    The conversion of an Arrow column to the type of the table column, the
    canonical key of a tuple, and the split of a batch into the groups of rows
    that share a tuple.  Floats are their IEEE bits.  iceberg-go's transforms and
    its partition paths are the class [PartitionLib]. *)

From S2P Require Import Prelude.

(** ** Types and values *)

Inductive time_unit : Type := Second | Millisecond | Microsecond | Nanosecond.
Inductive ArrowType : Type :=
| INT8 | INT16 | INT32 | INT64 | UINT8 | UINT16 | UINT32 | UINT64
| FLOAT32 | FLOAT64 | BOOL | STRING | BINARY | DATE32 | DATE64
| TIMESTAMP (u : time_unit)
| OtherArrow (name : string).
Inductive IceType : Type :=
| Int32Type | Int64Type | Float32Type | Float64Type | BooleanType | StringType | BinaryType | FixedType
| DateType | TimestampType | TimestampTzType
| OtherIce (name : string).
#[export] Instance time_unit_eq : EqDecision time_unit.
Proof. solve_decision. Defined.
#[export] Instance ArrowType_eq : EqDecision ArrowType.
Proof. solve_decision. Defined.
#[export] Instance IceType_eq : EqDecision IceType.
Proof. solve_decision. Defined.

(** A value of an Arrow array: integers, dates and timestamps; floats by bits;
    booleans; strings and bytes. *)
Inductive cell : Type :=
| CInt (z : Z)
| CFloat (bits : Z)
| CBool (b : bool)
| CBytes (s : string).
(** A value of a tuple, by its Go type; the text of any other type. *)
Inductive pvalue : Type :=
| VNull
| VInt32 (z : Z)
| VInt64 (z : Z)
| VFloat32 (bits : Z)
| VFloat64 (bits : Z)
| VBool (b : bool)
| VString (s : string)
| VBytes (s : string)
| VDate (z : Z)
| VTimestamp (z : Z)
| VOther (text : string).
#[export] Instance pvalue_eq : EqDecision pvalue.
Proof. solve_decision. Defined.

(** ** Conversions *)

(** Go's division truncates, its remainder has the sign of the dividend. *)
Definition floorDiv (a b : Z) : Z :=
  let q := Z.quot a b in
  if negb (Z.rem a b =? 0)%Z && negb (Bool.eqb (a <? 0)%Z (b <? 0)%Z) then (q - 1)%Z else q.

(** float64 of a float32, by bits. *)
Definition widen_float (bits : Z) : Z :=
  let s := Z.shiftr bits 31 in
  let e := Z.land (Z.shiftr bits 23) 255 in
  let m := Z.land bits 8388607 in
  let em :=
    if (e =? 255)%Z then (2047, Z.shiftl m 29)%Z
    else if (e =? 0)%Z then
      if (m =? 0)%Z then (0, 0)%Z else (Z.log2 m + 874, Z.shiftl (m - 2 ^ Z.log2 m) (52 - Z.log2 m))%Z
    else (e + 896, Z.shiftl m 29)%Z in
  (Z.shiftl s 63 + Z.shiftl em.1 52 + em.2)%Z.

(** The failed type assertion of a column that is not of its schema's type. *)
Definition wrong_array {A} : result string A := Err "panic: interface conversion".
Definition read_int {A} (f : Z → result string A) (c : cell) : result string A :=
  match c with CInt z => f z | _ => wrong_array end.

Definition timestamp_scale (u : time_unit) : Z * Z :=
  match u with
  | Second => (1000000, 1)
  | Millisecond => (1000, 1)
  | Microsecond => (1, 1)
  | Nanosecond => (1, 1000)
  end%Z.
(** The reader of a column of type [at_] as the Go type of [it]; [None] when the
    pair has no conversion. *)
Definition converter (at_ : ArrowType) (it : IceType) : option (cell → result string pvalue) :=
  match it, at_ with
  | Int32Type, (INT8 | INT16 | INT32 | UINT8 | UINT16) => Some (read_int (λ z, Ok (VInt32 z)))
  | Int64Type, (INT8 | INT16 | INT32 | INT64 | UINT8 | UINT16 | UINT32) => Some (read_int (λ z, Ok (VInt64 z)))
  | Int64Type, UINT64 =>
    Some (read_int (λ z,
      if (max_int64 <? z)%Z then Err ("value " +:+ itoa z +:+ " does not fit the table's long column") else Ok (VInt64 z)))
  | Float32Type, FLOAT32 => Some (λ c, match c with CFloat b => Ok (VFloat32 b) | _ => wrong_array end)
  | Float64Type, FLOAT32 => Some (λ c, match c with CFloat b => Ok (VFloat64 (widen_float b)) | _ => wrong_array end)
  | Float64Type, FLOAT64 => Some (λ c, match c with CFloat b => Ok (VFloat64 b) | _ => wrong_array end)
  | BooleanType, BOOL => Some (λ c, match c with CBool b => Ok (VBool b) | _ => wrong_array end)
  | StringType, STRING => Some (λ c, match c with CBytes s => Ok (VString s) | _ => wrong_array end)
  | (BinaryType | FixedType), BINARY => Some (λ c, match c with CBytes s => Ok (VBytes s) | _ => wrong_array end)
  | DateType, DATE32 => Some (read_int (λ z, Ok (VDate z)))
  | DateType, DATE64 => Some (read_int (λ z, Ok (VDate (wrap32 (floorDiv z 86400000)))))
  | (TimestampType | TimestampTzType), TIMESTAMP u =>
    Some (read_int (λ z, Ok (VTimestamp (floorDiv (wrap64 (z * (timestamp_scale u).1)) (timestamp_scale u).2))))
  | _, _ => None
  end.

(** ** The key of a tuple *)

Definition byte_Z (z : Z) : ascii := ascii_of_N (Z.to_N (z `mod` 256)).
(** The [n] low bytes of [z], least first. *)
Fixpoint le_bytes (n : nat) (z : Z) : string :=
  match n with
  | O => EmptyString
  | S n => String (byte_Z z) (le_bytes n (z / 256))
  end.
(** binary.AppendUvarint: seven bits a byte, the eighth for more. *)
Fixpoint uvarint (fuel : nat) (x : Z) : string :=
  match fuel with
  | O => EmptyString
  | S fuel => if (x <? 128)%Z then String (byte_Z x) EmptyString else String (byte_Z (x `mod` 128 + 128)) (uvarint fuel (x / 128))
  end.
Definition uvarint_len : nat := 10.
Definition sized (s : string) : string := uvarint uvarint_len (Z.of_nat (slen s)) +:+ s.
Definition is_nan32 (bits : Z) : bool := (Z.land (Z.shiftr bits 23) 255 =? 255)%Z && negb (Z.land bits 8388607 =? 0)%Z.
Definition is_nan64 (bits : Z) : bool := (Z.land (Z.shiftr bits 52) 2047 =? 2047)%Z && negb (Z.land bits 4503599627370495 =? 0)%Z.
Definition nan32 : Z := 2143289344.
Definition nan64 : Z := 9221120237041090560.

Definition tag (n : Z) (s : string) : string := String (byte_Z n) s.
Definition encodeValue (v : pvalue) : string :=
  match v with
  | VNull => tag 0 EmptyString
  | VInt32 z => tag 1 (le_bytes 4 z)
  | VInt64 z => tag 2 (le_bytes 8 z)
  | VFloat32 b => tag 3 (le_bytes 4 (if is_nan32 b then nan32 else b))
  | VFloat64 b => tag 4 (le_bytes 8 (if is_nan64 b then nan64 else b))
  | VBool b => tag 5 (String (byte_Z (if b then 1 else 0)) EmptyString)
  | VString s => tag 6 (sized s)
  | VBytes s => tag 7 (sized s)
  | VDate z => tag 8 (le_bytes 4 z)
  | VTimestamp z => tag 9 (le_bytes 8 z)
  | VOther t => tag 10 (sized t)
  end.
Definition appendKey (b : string) (v : pvalue) : string := b +:+ encodeValue v.

(** ** Resolving a partition spec *)

Inductive Transform : Type :=
| VoidTransform
| IdentityTransform
| BucketTransform (n : Z)
| TruncateTransform (w : Z)
| DayTransform
| YearTransform
| MonthTransform
| HourTransform
| OtherTransform (name : string).
Record SpecField := MkSpecField {
  sf_FieldID : Z;
  sf_Name : string;
  sf_SourceID : Z;
  sf_Transform : Transform;
}.
Record NestedField := MkNestedField { nf_ID : Z; nf_Name : string; nf_Type : IceType }.
(** iceberg-go: whether a transform applies to a type, the function it makes
    from the values of a type (to an optional int32, or to a value for truncate),
    the names of nested columns, the texts of its values, its partition paths. *)
Class PartitionLib : Type := {
  CanTransform : Transform → IceType → bool;
  TransformerInt : Transform → IceType → result string (pvalue → option Z);
  TransformerValue : Transform → IceType → result string (pvalue → pvalue);
  FindColumnName : list NestedField → Z → string;
  transform_String : Transform → string;
  IceType_String : IceType → string;
  ArrowType_String : ArrowType → string;
  PartitionToPath : list SpecField → list NestedField → list pvalue → string;
}.

Section Partitioner.
Context `{UT : !UnicodeTables} `{PL : !PartitionLib}.

Record partField := MkPartField {
  pf_id : Z;
  pf_name : string;
  pf_col : option nat;  (** [None]: null for every row *)
  pf_conv : cell → result string pvalue;
  pf_apply : pvalue → pvalue;
}.
Record partitioner := MkPartitioner {
  p_spec : list SpecField;
  p_schema : list NestedField;
  p_fields : list partField;
}.

Definition optional (fn : pvalue → option Z) (wrap : Z → pvalue) (v : pvalue) : pvalue :=
  match v with VNull => VNull | v => match fn v with Some z => wrap z | None => VNull end end.
Definition transformFunc (tr : Transform) (src : IceType) : result string (pvalue → pvalue) :=
  match tr with
  | IdentityTransform => Ok (λ v, v)
  | BucketTransform _ => fn ← TransformerInt tr src; Ok (optional fn VInt32)
  | TruncateTransform _ => fn ← TransformerValue tr src; Ok (λ v, match v with VNull => VNull | v => fn v end)
  | DayTransform => fn ← TransformerInt tr src; Ok (optional fn VDate)
  | YearTransform | MonthTransform | HourTransform => fn ← TransformerInt tr src; Ok (optional fn VInt32)
  | VoidTransform | OtherTransform _ => Err ("transform " +:+ transform_String tr +:+ " is not supported for writing")
  end.

Definition topLevelByID (sc : list NestedField) (id : Z) : option NestedField := find (λ f, (nf_ID f =? id)%Z) sc.
(** The first column of the writer's schema with this name. *)
Definition field_index (ws : list (string * ArrowType)) (name : string) : option (nat * ArrowType) :=
  '(i, f) ← list_find (λ f, f.1 = name) ws; Some (i, f.2).
Definition null_field (f : SpecField) : partField :=
  MkPartField (sf_FieldID f) (sf_Name f) None (λ _, Ok VNull) (λ v, v).
Definition resolve_field (sc : list NestedField) (ws : list (string * ArrowType)) (f : SpecField) : result string partField :=
  match sf_Transform f with
  | VoidTransform => Ok (null_field f)
  | tr =>
    match topLevelByID sc (sf_SourceID f) with
    | None =>
      Err ("partition field " +:+ sf_Name f +:+ ": source field id " +:+ itoa (sf_SourceID f) +:+ " (" +:+
           quote (FindColumnName sc (sf_SourceID f)) +:+ ") is not a top-level column of the table schema")
    | Some src =>
      if negb (CanTransform tr (nf_Type src)) then
        Err ("partition field " +:+ sf_Name f +:+ ": transform " +:+ transform_String tr +:+ " cannot be applied to column " +:+
             quote (nf_Name src) +:+ " of type " +:+ IceType_String (nf_Type src))
      else
        apply ← map_err (λ e, "partition field " +:+ sf_Name f +:+ ": " +:+ e) (transformFunc tr (nf_Type src));
        match field_index ws (nf_Name src) with
        | None => Ok (null_field f)
        | Some (i, at_) =>
          match converter at_ (nf_Type src) with
          | None =>
            Err ("partition field " +:+ sf_Name f +:+ ": column " +:+ quote (nf_Name src) +:+ " has Arrow type " +:+
                 ArrowType_String at_ +:+ ", which cannot be converted to the table type " +:+ IceType_String (nf_Type src))
          | Some conv => Ok (MkPartField (sf_FieldID f) (sf_Name f) (Some i) conv apply)
          end
        end
    end
  end.
Definition newPartitioner (spec : list SpecField) (sc : option (list NestedField)) (ws : list (string * ArrowType)) :
    result string partitioner :=
  match sc with
  | None => Err "partitioned writer without a table schema"
  | Some sc => fields ← mapM_res (resolve_field sc ws) spec; Ok (MkPartitioner spec sc fields)
  end.

(** ** Splitting a batch *)

(** The columns of a batch, each with a cell per row; [None] is a null. *)
Record batch := MkBatch {
  b_NumRows : nat;
  b_Columns : list (list (option cell));
}.
Definition read_cell (b : batch) (col row : nat) : option cell := c ← b_Columns b !! col; mjoin (c !! row).
Record rowGroup := MkRowGroup {
  g_key : string;
  g_tuple : gmap Z pvalue;
  g_rows : list nat;
}.
Definition field_value (b : batch) (i : nat) (f : partField) : result string pvalue :=
  match pf_col f ≫= (λ c, read_cell b c i) with
  | None => Ok VNull
  | Some c =>
    sv ← map_err (λ e, "goplane: partition field " +:+ pf_name f +:+ ": " +:+ e) (pf_conv f c);
    Ok (pf_apply f sv)
  end.
Definition row_values (p : partitioner) (b : batch) (i : nat) : result string (list pvalue) :=
  mapM_res (field_value b i) (p_fields p).
Definition tuple_key (vals : list pvalue) : string := foldl appendKey EmptyString vals.
Definition make_tuple (fields : list partField) (vals : list pvalue) : gmap Z pvalue :=
  foldl (λ m '(f, v), <[pf_id f := v]> m) ∅ (zip fields vals).
(** The groups of [byKey], in the order of the slice. *)
Fixpoint add_row (fields : list partField) (key : string) (vals : list pvalue) (i : nat) (groups : list rowGroup) : list rowGroup :=
  match groups with
  | [] => [MkRowGroup key (make_tuple fields vals) [i]]
  | g :: groups =>
    if decide (g_key g = key) then MkRowGroup (g_key g) (g_tuple g) (g_rows g ++ [i]) :: groups
    else g :: add_row fields key vals i groups
  end.
Fixpoint split_rows (p : partitioner) (b : batch) (rows : list nat) (groups : list rowGroup) : result string (list rowGroup) :=
  match rows with
  | [] => Ok groups
  | i :: rows =>
    vals ← row_values p b i;
    split_rows p b rows (add_row (p_fields p) (tuple_key vals) vals i groups)
  end.
Definition split (p : partitioner) (b : batch) : result string (list rowGroup) := split_rows p b (seq 0 (b_NumRows b)) [].
Definition contiguous (g : rowGroup) : bool :=
  (default O (last (g_rows g)) - default O (head (g_rows g)) + 1 =? length (g_rows g))%nat.

(** ** Paths *)

Definition path (p : partitioner) (tuple : gmap Z pvalue) : string :=
  PartitionToPath (p_spec p) (p_schema p) ((λ f, default VNull (tuple !! pf_id f)) <$> p_fields p).
Definition maxObjectKeyBytes : nat := 1024.
Definition object_key (path : string) : string :=
  match cut_after "://" path with
  | Some rest => default path (cut_after "/" rest)
  | None => path
  end.
Definition longest_segment (partPath : string) : string :=
  foldl (λ longest seg, if (slen longest <? slen seg)%nat then seg else longest) EmptyString (split_byte "/" partPath).
Definition checkKeyLength (path partPath : string) : option string :=
  let key := object_key path in
  if (slen key <=? maxObjectKeyBytes)%nat then None
  else
    let longest := longest_segment partPath in
    let name := default EmptyString (head (split_byte "=" longest)) in
    Some ("goplane: data file object key is " +:+ itoa_nat (slen key) +:+ " bytes, over the 1024-byte limit, because of partition field " +:+
          name +:+ " (" +:+ itoa_nat (slen longest) +:+ "-byte path segment)").
End Partitioner.

(** ** The key determines the tuple

    A decoder of keys, which only the proofs use. *)

Definition unbyte (c : ascii) : Z := Z.of_N (N_of_ascii c).
Fixpoint un_le (n : nat) (s : string) : option (Z * string) :=
  match n, s with
  | O, _ => Some (0%Z, s)
  | S n, String c s => '(z, r) ← un_le n s; Some ((unbyte c + 256 * z)%Z, r)
  | _, _ => None
  end.
Fixpoint un_uvarint (fuel : nat) (s : string) : option (Z * string) :=
  match fuel, s with
  | S fuel, String c s =>
    if (unbyte c <? 128)%Z then Some (unbyte c, s)
    else '(z, r) ← un_uvarint fuel s; Some ((unbyte c - 128 + 128 * z)%Z, r)
  | _, _ => None
  end.
Definition un_sized (s : string) : option (string * string) :=
  '(n, r) ← un_uvarint uvarint_len s; Some (str_take (Z.to_nat n) r, str_drop (Z.to_nat n) r).
Definition signed (w : Z) (u : Z) : Z := if (u <? 2 ^ (w - 1))%Z then u else (u - 2 ^ w)%Z.
Definition decode_tagged (t : Z) (s : string) : option (pvalue * string) :=
  match t with
  | 0 => Some (VNull, s)
  | 1 => '(z, r) ← un_le 4 s; Some (VInt32 (signed 32 z), r)
  | 2 => '(z, r) ← un_le 8 s; Some (VInt64 (signed 64 z), r)
  | 3 => '(z, r) ← un_le 4 s; Some (VFloat32 z, r)
  | 4 => '(z, r) ← un_le 8 s; Some (VFloat64 z, r)
  | 5 => match s with String c s => Some (VBool (unbyte c =? 1)%Z, s) | EmptyString => None end
  | 6 => '(t, r) ← un_sized s; Some (VString t, r)
  | 7 => '(t, r) ← un_sized s; Some (VBytes t, r)
  | 8 => '(z, r) ← un_le 4 s; Some (VDate (signed 32 z), r)
  | 9 => '(z, r) ← un_le 8 s; Some (VTimestamp (signed 64 z), r)
  | 10 => '(t, r) ← un_sized s; Some (VOther t, r)
  | _ => None
  end%Z.
Definition decodeValue (s : string) : option (pvalue * string) :=
  match s with
  | EmptyString => None
  | String c s => decode_tagged (unbyte c) s
  end.

(** The values a Go program can hold: integers of their width, and lengths an
    [int] can count. *)
Definition in_width (w z : Z) : Prop := (- 2 ^ (w - 1) ≤ z < 2 ^ (w - 1))%Z.
Definition value_ok (v : pvalue) : Prop :=
  match v with
  | VInt32 z | VDate z => in_width 32 z
  | VInt64 z | VTimestamp z => in_width 64 z
  | VFloat32 b => (0 ≤ b < 2 ^ 32)%Z
  | VFloat64 b => (0 ≤ b < 2 ^ 64)%Z
  | VString s | VBytes s | VOther s => (Z.of_nat (slen s) < 2 ^ 63)%Z
  | VNull | VBool _ => True
  end.
(** Every NaN is the same value of a tuple. *)
Definition canon (v : pvalue) : pvalue :=
  match v with
  | VFloat32 b => VFloat32 (if is_nan32 b then nan32 else b)
  | VFloat64 b => VFloat64 (if is_nan64 b then nan64 else b)
  | v => v
  end.

Lemma unbyte_byte z : unbyte (byte_Z z) = (z `mod` 256)%Z.
Proof.
  unfold unbyte, byte_Z. pose proof (Z.mod_pos_bound z 256 ltac:(lia)) as H.
  rewrite N_ascii_embedding by lia. lia.
Qed.
Lemma un_le_bytes n z r : un_le n (le_bytes n z +:+ r) = Some ((z `mod` 256 ^ Z.of_nat n)%Z, r).
Proof.
  revert z. induction n as [|n IH]; intros z; [cbn; by rewrite Z.mod_1_r|]. cbn [le_bytes].
  rewrite str_app_cons. cbn [un_le]. rewrite IH. cbn. rewrite unbyte_byte. do 2 f_equal.
  rewrite Nat2Z.inj_succ, Z.pow_succ_r by lia. rewrite Z.rem_mul_r by lia. lia.
Qed.
Lemma un_uvarint_app n x r : (0 ≤ x < 128 ^ Z.of_nat (S n))%Z → un_uvarint (S n) (uvarint (S n) x +:+ r) = Some (x, r).
Proof.
  assert (∀ c n r, un_uvarint (S n) (String c r) = if (unbyte c <? 128)%Z then Some (unbyte c, r)
    else '(z, r) ← un_uvarint n r; Some ((unbyte c - 128 + 128 * z)%Z, r)) as Hun by done.
  assert (∀ n x, uvarint (S n) x = if (x <? 128)%Z then String (byte_Z x) EmptyString
    else String (byte_Z (x `mod` 128 + 128)) (uvarint n (x / 128))) as Hv by done.
  revert x. induction n as [|n IH]; intros x Hx; rewrite Hv; destruct (x <? 128)%Z eqn:E; to_arith;
    rewrite str_app_cons, Hun, unbyte_byte.
  - rewrite Z.mod_small by lia. by destruct (x <? 128)%Z eqn:E2; to_arith; [|lia].
  - change (128 ^ Z.of_nat 1)%Z with 128%Z in Hx. lia.
  - rewrite Z.mod_small by lia. by destruct (x <? 128)%Z eqn:E2; to_arith; [|lia].
  - pose proof (Z.mod_pos_bound x 128 ltac:(lia)). rewrite (Z.mod_small (_ + 128)) by lia.
    destruct (x `mod` 128 + 128 <? 128)%Z eqn:E2; to_arith; [lia|].
    rewrite Nat2Z.inj_succ, Z.pow_succ_r in Hx by lia.
    rewrite IH by (split; [apply Z.div_pos|apply Z.div_lt_upper_bound]; lia).
    cbn. pose proof (Z.div_mod x 128 ltac:(lia)). do 2 f_equal. lia.
Qed.
Lemma str_take_self s r : str_take (slen s) (s +:+ r) = s.
Proof. induction s as [|c s IH]; [by destruct r|]. unfold slen in *. rewrite str_app_cons. simpl. by rewrite IH. Qed.
Lemma str_drop_self s r : str_drop (slen s) (s +:+ r) = r.
Proof. induction s as [|c s IH]; [by destruct r|]. unfold slen in *. rewrite str_app_cons. simpl. by rewrite IH. Qed.
Lemma un_sized_app s r : (Z.of_nat (slen s) < 2 ^ 63)%Z → un_sized (sized s +:+ r) = Some (s, r).
Proof.
  intros Hs. unfold un_sized, sized. rewrite str_app_assoc. unfold uvarint_len.
  rewrite un_uvarint_app by (split; [lia|]; eapply Z.lt_trans; [done|]; by vm_compute).
  cbv beta iota delta [mbind option_bind]. by rewrite Nat2Z.id, str_take_self, str_drop_self.
Qed.
Lemma signed_mod w z : (0 < w)%Z → in_width w z → signed w (z `mod` 2 ^ w) = z.
Proof.
  unfold signed, in_width. intros Hw Hz. assert (2 ^ w = 2 * 2 ^ (w - 1))%Z as Hp.
  { rewrite <-Z.pow_succ_r by lia. f_equal. lia. }
  destruct (decide (0 ≤ z)%Z).
  - rewrite Z.mod_small by lia. by destruct (z <? _)%Z eqn:E; to_arith; [|lia].
  - replace (z `mod` 2 ^ w)%Z with (z + 2 ^ w)%Z; [by destruct (_ <? _)%Z eqn:E; to_arith; lia|].
    apply (Z.mod_unique_pos z (2 ^ w) (-1)); lia.
Qed.
Lemma canon32_range b : (0 ≤ b < 2 ^ 32)%Z → (0 ≤ (if is_nan32 b then nan32 else b) < 256 ^ 4)%Z.
Proof. destruct (is_nan32 b); unfold nan32; lia. Qed.
Lemma canon64_range b : (0 ≤ b < 2 ^ 64)%Z → (0 ≤ (if is_nan64 b then nan64 else b) < 256 ^ 8)%Z.
Proof. destruct (is_nan64 b); unfold nan64; lia. Qed.

Lemma decode_tag t s : (0 ≤ t < 256)%Z → decodeValue (tag t s) = decode_tagged t s.
Proof. intros Ht. unfold tag. cbn [decodeValue]. by rewrite unbyte_byte, Z.mod_small. Qed.
Lemma tag_app t s r : tag t s +:+ r = tag t (s +:+ r).
Proof. done. Qed.
#[local] Arguments un_le : simpl never.
#[local] Arguments un_sized : simpl never.
#[local] Arguments le_bytes : simpl never.
#[local] Arguments sized : simpl never.

Lemma decode_encode_value v r : value_ok v → decodeValue (encodeValue v +:+ r) = Some (canon v, r).
Proof.
  intros Hv. destruct v as [|z|z|b|b|b|s|s|z|z|s]; cbn [encodeValue canon value_ok] in *;
    rewrite tag_app, decode_tag by lia; cbn [decode_tagged]; rewrite ?un_le_bytes, ?un_sized_app by done;
    cbv beta iota delta [mbind option_bind].
  - done.
  - change (256 ^ Z.of_nat 4)%Z with (2 ^ 32)%Z. by rewrite signed_mod.
  - change (256 ^ Z.of_nat 8)%Z with (2 ^ 64)%Z. by rewrite signed_mod.
  - rewrite Z.mod_small; [done|by apply canon32_range].
  - rewrite Z.mod_small; [done|by apply canon64_range].
  - by destruct b.
  - done.
  - done.
  - change (256 ^ Z.of_nat 4)%Z with (2 ^ 32)%Z. by rewrite signed_mod.
  - change (256 ^ Z.of_nat 8)%Z with (2 ^ 64)%Z. by rewrite signed_mod.
  - done.
Qed.

Lemma tuple_key_from b vals : foldl appendKey b vals = b +:+ foldl appendKey EmptyString vals.
Proof.
  revert b. induction vals as [|v vals IH]; intros b; cbn [foldl]; [by rewrite str_app_nil|].
  rewrite IH, (IH (appendKey _ _)). unfold appendKey. by rewrite str_nil_app, str_app_assoc.
Qed.
Lemma tuple_key_cons v vals : tuple_key (v :: vals) = encodeValue v +:+ tuple_key vals.
Proof. unfold tuple_key. cbn [foldl]. rewrite tuple_key_from. unfold appendKey. by rewrite str_nil_app. Qed.
Lemma tuple_key_inj vals vals' : Forall value_ok vals → Forall value_ok vals' → length vals = length vals' →
  tuple_key vals = tuple_key vals' → canon <$> vals = canon <$> vals'.
Proof.
  intros Hv. revert vals'. induction Hv as [|v vals Hv _ IH]; intros vals' Hv' Hl; [by destruct vals'|].
  destruct Hv' as [|v' vals' Hv' Hvs']; [done|]. rewrite !tuple_key_cons. intros Hk.
  pose proof (decode_encode_value v (tuple_key vals) Hv) as H1. rewrite Hk, decode_encode_value in H1 by done.
  injection H1 as Hc Ht. cbn. rewrite Hc. f_equal. apply IH; [done|by injection Hl|done].
Qed.
Lemma encode_canon v : encodeValue (canon v) = encodeValue v.
Proof.
  destruct v; try reflexivity; cbn [canon encodeValue].
  - by destruct (is_nan32 bits) eqn:E; [|rewrite E].
  - by destruct (is_nan64 bits) eqn:E; [|rewrite E].
Qed.
Lemma canon_encode v v' : canon v = canon v' → encodeValue v = encodeValue v'.
Proof. intros Hc. by rewrite <-encode_canon, Hc, encode_canon. Qed.

(** The key of a tuple is canonical: two tuples of the same partition fields
    have one key exactly when they agree value by value, every NaN being one
    value; so no two tuples share a group, a file or an open slot by accident,
    whatever bytes their strings hold. *)
Theorem tuple_key_canonical (vals vals' : list pvalue) (Hv : Forall value_ok vals) (Hv' : Forall value_ok vals')
    (Hl : length vals = length vals') :
  tuple_key vals = tuple_key vals' ↔ canon <$> vals = canon <$> vals'.
Proof.
  split; [by apply tuple_key_inj|]. revert vals' Hl Hv'. induction Hv as [|v vals Hv _ IH]; intros [|v' vals'] Hl Hv' Hc; try done.
  injection Hc as Hc1 Hc2. rewrite !tuple_key_cons. f_equal; [by apply canon_encode|].
  apply Forall_cons in Hv' as [_ Hv']. apply IH; [by injection Hl|done|done].
Qed.

(** ** The split groups the rows by tuple *)

Section Split.
Context `{UT : !UnicodeTables} `{PL : !PartitionLib}.
Variables (p : partitioner) (b : batch).

(** The tuple of a row whose conversions succeed, and its key. *)
Definition row_tuple (i : nat) : list pvalue := match row_values p b i with Ok vals => vals | Err _ => [] end.
Definition row_key (i : nat) : string := tuple_key (row_tuple i).
(** The elements in the order of their first occurrence. *)
Fixpoint first_seen (l : list string) : list string :=
  match l with
  | [] => []
  | k :: l => k :: filter (λ k', k' ≠ k) (first_seen l)
  end.
(** The reference: the group of a key has the rows of that key, in order, and the
    tuple of its first row. *)
Definition group_of (l : list nat) (k : string) : rowGroup :=
  let rows := filter (λ i, row_key i = k) l in
  MkRowGroup k (make_tuple (p_fields p) (row_tuple (default O (head rows)))) rows.
Definition groups_of (l : list nat) : list rowGroup := group_of l <$> first_seen (row_key <$> l).

Lemma elem_of_first_seen k l : k ∈ first_seen l ↔ k ∈ l.
Proof.
  induction l as [|x l IH]; cbn [first_seen]; [done|]. rewrite !elem_of_cons, list_elem_of_filter, IH.
  destruct (decide (k = x)); naive_solver.
Qed.
Lemma first_seen_NoDup l : NoDup (first_seen l).
Proof.
  induction l as [|x l IH]; cbn [first_seen]; [constructor|]. constructor; [rewrite list_elem_of_filter; naive_solver|].
  by apply NoDup_filter.
Qed.
Lemma first_seen_snoc l k : first_seen (l ++ [k]) = if decide (k ∈ l) then first_seen l else first_seen l ++ [k].
Proof.
  induction l as [|x l IH]; [by rewrite decide_False by apply not_elem_of_nil|]. cbn [app first_seen]. rewrite IH.
  destruct (decide (k ∈ l)) as [Hk|Hk]; [by rewrite decide_True by by right|].
  rewrite filter_app, filter_cons, filter_nil. destruct (decide (k = x)) as [->|Hx].
  - rewrite decide_False by auto. rewrite decide_True by by left. by rewrite app_nil_r.
  - rewrite decide_True by done. rewrite decide_False; [done|]. by intros [?|?]%elem_of_cons.
Qed.
Lemma filter_none {A} (P : A → Prop) `{∀ x, Decision (P x)} l : (∀ x, x ∈ l → ¬ P x) → filter P l = [].
Proof.
  induction l as [|x l IH]; intros Hl; [done|]. rewrite filter_cons, decide_False by (apply Hl; by left).
  apply IH. intros y Hy. apply Hl. by right.
Qed.
Lemma group_of_other l i k : row_key i ≠ k → group_of (l ++ [i]) k = group_of l k.
Proof. intros Hk. unfold group_of. rewrite filter_app, filter_cons, filter_nil, decide_False by done. by rewrite app_nil_r. Qed.
Lemma group_of_same l i : (∃ j, j ∈ l ∧ row_key j = row_key i) →
  group_of (l ++ [i]) (row_key i) =
    let g := group_of l (row_key i) in MkRowGroup (g_key g) (g_tuple g) (g_rows g ++ [i]).
Proof.
  intros (j & Hj & Hk). unfold group_of. rewrite filter_app, filter_cons, filter_nil, decide_True by done. cbn.
  assert (j ∈ filter (λ i0, row_key i0 = row_key i) l) as Hin by by apply list_elem_of_filter.
  destruct (filter _ l) as [|x rows]; [by apply elem_of_nil in Hin|done].
Qed.
Lemma add_row_groups ks l i : NoDup ks → (∀ k, k ∈ ks → ∃ j, j ∈ l ∧ row_key j = k) →
  (row_key i ∉ ks → ∀ j, j ∈ l → row_key j ≠ row_key i) →
  add_row (p_fields p) (row_key i) (row_tuple i) i (group_of l <$> ks) =
    group_of (l ++ [i]) <$> (if decide (row_key i ∈ ks) then ks else ks ++ [row_key i]).
Proof.
  intros Hnd Hks Hnew. induction Hnd as [|k ks Hk Hnd IH].
  - rewrite decide_False by apply not_elem_of_nil. cbn. unfold group_of. rewrite filter_app, filter_cons, filter_nil, decide_True by done.
    rewrite filter_none; [done|]. apply Hnew, not_elem_of_nil.
  - cbn [fmap list_fmap add_row]. change (g_key (group_of l k)) with k. destruct (decide (k = row_key i)) as [->|Hne].
    + rewrite decide_True by by left. cbn [fmap list_fmap]. rewrite group_of_same by (apply Hks; by left). f_equal.
      apply list_fmap_ext. intros n k' Hk'. symmetry. apply group_of_other. intros <-. apply Hk. by eapply list_elem_of_lookup_2.
    + rewrite IH.
      * destruct (decide (row_key i ∈ ks)) as [Hi|Hi].
        -- rewrite decide_True by by right. cbn. by rewrite group_of_other.
        -- rewrite decide_False by (by intros [?|?]%elem_of_cons). cbn. by rewrite group_of_other.
      * intros k' Hk'. apply Hks. by right.
      * intros Hni. apply Hnew. intros [?|?]%elem_of_cons; [by subst|done].
Qed.
Lemma groups_of_snoc l i : add_row (p_fields p) (row_key i) (row_tuple i) i (groups_of l) = groups_of (l ++ [i]).
Proof.
  unfold groups_of. rewrite fmap_app. cbn. rewrite first_seen_snoc, add_row_groups.
  - destruct (decide (row_key i ∈ row_key <$> l)) as [Hi|Hi];
      [rewrite decide_True by by apply elem_of_first_seen|rewrite decide_False by by rewrite elem_of_first_seen]; done.
  - apply first_seen_NoDup.
  - intros k Hk. rewrite elem_of_first_seen in Hk. apply list_elem_of_fmap in Hk as (j & -> & Hj). by exists j.
  - intros Hn j Hj Heq. apply Hn, elem_of_first_seen. rewrite <-Heq. by apply list_elem_of_fmap_2.
Qed.
Lemma split_rows_spec l0 rows : split_rows p b rows (groups_of l0) =
  (_ ← mapM_res (row_values p b) rows; Ok (groups_of (l0 ++ rows))).
Proof.
  revert l0. induction rows as [|i rows IH]; intros l0; cbn; [by rewrite app_nil_r|].
  destruct (row_values p b i) as [vals|e] eqn:E; cbn; [|done].
  assert (row_tuple i = vals) as <- by (unfold row_tuple; by rewrite E).
  change (tuple_key (row_tuple i)) with (row_key i). rewrite groups_of_snoc, IH, <-app_assoc.
  by destruct (mapM_res (row_values p b) rows).
Qed.
End Split.

(** The split of a batch is the grouping of its rows by the key of their
    tuples: one group per key, in the order of the first rows, each with all and
    only its rows, ascending, and the tuple of the first; it fails exactly when
    a value of some row does not convert, with the error of the first such row. *)
Theorem split_groups `{UT : !UnicodeTables} `{PL : !PartitionLib} (p : partitioner) (b : batch) :
  split p b = (_ ← mapM_res (row_values p b) (seq 0 (b_NumRows b)); Ok (groups_of p b (seq 0 (b_NumRows b)))).
Proof. apply (split_rows_spec p b []). Qed.

(** ** The conversions are typed *)

Lemma floorDiv_floor a b : (0 < b)%Z → floorDiv a b = (a / b)%Z.
Proof.
  intros Hb. unfold floorDiv. pose proof (Z.quot_rem' a b) as Hq. pose proof (Z.div_mod a b ltac:(lia)) as Hd.
  pose proof (Z.mod_pos_bound a b Hb). destruct (b <? 0)%Z eqn:E; to_arith; [lia|].
  destruct (a <? 0)%Z eqn:Ea; to_arith.
  - pose proof (Z.rem_nonpos a b ltac:(lia) ltac:(lia)). pose proof (Z.rem_bound_abs a b ltac:(lia)).
    destruct (Z.rem a b =? 0)%Z eqn:E2; to_arith; cbn; nia.
  - pose proof (Z.rem_nonneg a b ltac:(lia) ltac:(lia)). pose proof (Z.rem_bound_abs a b ltac:(lia)).
    destruct (Z.rem a b =? 0)%Z eqn:E2; to_arith; cbn; nia.
Qed.
Lemma wrap64_width z : in_width 64 (wrap64 z).
Proof. unfold in_width, wrap64, two63, two64. pose proof (Z.mod_pos_bound (z + 2 ^ 63) (2 ^ 64) ltac:(lia)). lia. Qed.
Lemma wrap32_width z : in_width 32 (wrap32 z).
Proof. unfold in_width, wrap32. pose proof (Z.mod_pos_bound (z + 2 ^ 31) (2 ^ 32) ltac:(lia)). lia. Qed.
Lemma div_width z b : (0 < b)%Z → in_width 64 z → in_width 64 (z / b).
Proof.
  unfold in_width. intros Hb Hz. split; [apply Z.div_le_lower_bound; nia|apply Z.div_lt_upper_bound; nia].
Qed.
Lemma widen_float_range b : (0 ≤ b < 2 ^ 32)%Z → (0 ≤ widen_float b < 2 ^ 64)%Z.
Proof.
  intros Hb. unfold widen_float. set (s := Z.shiftr b 31). set (e := Z.land _ 255). set (m := Z.land b 8388607).
  assert (0 ≤ s < 2)%Z as Hs.
  { unfold s. rewrite Z.shiftr_div_pow2 by lia. split; [apply Z.div_pos|apply Z.div_lt_upper_bound]; lia. }
  assert (0 ≤ e < 256)%Z as He by (unfold e; change 255%Z with (Z.ones 8); rewrite Z.land_ones by lia; by apply Z.mod_pos_bound).
  assert (0 ≤ m < 2 ^ 23)%Z as Hm by (unfold m; change 8388607%Z with (Z.ones 23); rewrite Z.land_ones by lia; by apply Z.mod_pos_bound).
  set (em := if (e =? 255)%Z then _ else _).
  assert (0 ≤ em.1 < 2048 ∧ 0 ≤ em.2 < 2 ^ 52)%Z as [H1 H2].
  { assert (0 ≤ Z.shiftl m 29 < 2 ^ 52)%Z by (rewrite Z.shiftl_mul_pow2 by lia; lia). unfold em.
    destruct (e =? 255)%Z eqn:E1; cbn [fst snd]; [lia|]. destruct (e =? 0)%Z eqn:E2; [|cbn [fst snd]; to_arith; lia].
    destruct (m =? 0)%Z eqn:E3; cbn [fst snd]; [lia|]. to_arith.
    pose proof (Z.log2_spec m ltac:(lia)) as Hl. pose proof (Z.log2_nonneg m).
    assert (Z.log2 m < 23)%Z by (apply Z.log2_lt_pow2; lia). split; [lia|].
    rewrite Z.shiftl_mul_pow2 by lia. rewrite Z.pow_succ_r in Hl by lia.
    assert (2 ^ 52 = 2 ^ Z.log2 m * 2 ^ (52 - Z.log2 m))%Z as -> by (rewrite <-Z.pow_add_r by lia; f_equal; lia).
    pose proof (Z.pow_pos_nonneg 2 (52 - Z.log2 m) ltac:(lia) ltac:(lia)). nia. }
  rewrite !Z.shiftl_mul_pow2 by lia. lia.
Qed.

(** The cells an array of each type holds. *)
Definition cell_ok (at_ : ArrowType) (c : cell) : Prop :=
  match at_, c with
  | INT8, CInt z => in_width 8 z
  | INT16, CInt z => in_width 16 z
  | (INT32 | DATE32), CInt z => in_width 32 z
  | (INT64 | DATE64 | TIMESTAMP _), CInt z => in_width 64 z
  | UINT8, CInt z => (0 ≤ z < 2 ^ 8)%Z
  | UINT16, CInt z => (0 ≤ z < 2 ^ 16)%Z
  | UINT32, CInt z => (0 ≤ z < 2 ^ 32)%Z
  | UINT64, CInt z => (0 ≤ z < 2 ^ 64)%Z
  | FLOAT32, CFloat b => (0 ≤ b < 2 ^ 32)%Z
  | FLOAT64, CFloat b => (0 ≤ b < 2 ^ 64)%Z
  | BOOL, CBool _ => True
  | (STRING | BINARY), CBytes s => (Z.of_nat (slen s) < 2 ^ 31)%Z
  | OtherArrow _, _ => True
  | _, _ => False
  end.
(** The value a cell has as the Go type of the table's column, where it fits. *)
Definition converted (at_ : ArrowType) (it : IceType) (c : cell) : pvalue :=
  match it, c with
  | Int32Type, CInt z => VInt32 z
  | Int64Type, CInt z => VInt64 z
  | Float32Type, CFloat b => VFloat32 b
  | Float64Type, CFloat b => VFloat64 (match at_ with FLOAT32 => widen_float b | _ => b end)
  | BooleanType, CBool b => VBool b
  | StringType, CBytes s => VString s
  | (BinaryType | FixedType), CBytes s => VBytes s
  | DateType, CInt z => VDate (match at_ with DATE64 => wrap32 (z / 86400000) | _ => z end)
  | (TimestampType | TimestampTzType), CInt z =>
    match at_ with
    | TIMESTAMP u => VTimestamp (wrap64 (z * (timestamp_scale u).1) / (timestamp_scale u).2)
    | _ => VNull
    end
  | _, _ => VNull
  end.
Lemma scale_pos u : (0 < (timestamp_scale u).2)%Z.
Proof. by destruct u. Qed.

(** C40: a conversion that newPartitioner accepts is total and typed: every cell
    the Arrow column can hold becomes a value of the Go type of the table's
    column, within its width, equal to the cell (dates and timestamps floored to
    days and microseconds, in the arithmetic of their width); the only cells that
    are refused are unsigned ones above the largest int64. *)
Theorem converter_typed (at_ : ArrowType) (it : IceType) (conv : cell → result string pvalue) (c : cell)
    (Hconv : converter at_ it = Some conv) (Hc : cell_ok at_ c) :
  match conv c with
  | Ok v => v = converted at_ it c ∧ v ≠ VNull ∧ value_ok v
  | Err _ => at_ = UINT64 ∧ ∃ z, c = CInt z ∧ (max_int64 < z)%Z
  end.
Proof.
  destruct it, at_; try discriminate Hconv; injection Hconv as <-; destruct c; try done; cbn in Hc; cbn [read_int converted].
  all: try (split_and!; [done..|]; cbn; unfold in_width in *; lia).
  - unfold max_int64, two63 in *. destruct (_ <? z)%Z eqn:E; to_arith; [by split; [|eexists]|].
    split_and!; [done..|]. cbn. unfold in_width. lia.
  - split_and!; [done..|]. by apply widen_float_range.
  - rewrite floorDiv_floor by lia. split_and!; [done..|]. apply wrap32_width.
  - rewrite floorDiv_floor by apply scale_pos. split_and!; [done..|]. apply div_width; [apply scale_pos|apply wrap64_width].
  - rewrite floorDiv_floor by apply scale_pos. split_and!; [done..|]. apply div_width; [apply scale_pos|apply wrap64_width].
Qed.

(** ** A concrete partition spec *)

Module PartitionExamples.
#[local] Instance ascii_tables : UnicodeTables := { is_print_above_latin1 := λ _, false; to_upper_above_latin1 := λ r, r }.
Definition text (v : pvalue) : string :=
  match v with VNull => "null" | VString s => s | VInt32 z | VInt64 z | VDate z | VTimestamp z => itoa z | _ => "?" end.
(** Identity and bucket transforms, the bucket being the value modulo its count. *)
#[local] Instance identity_lib : PartitionLib := {
  CanTransform := λ tr t, match tr with OtherTransform _ => false | _ => true end;
  TransformerInt := λ tr t, match tr with
    | BucketTransform n => Ok (λ v, match v with VInt32 z | VInt64 z => Some (z `mod` n)%Z | _ => None end)
    | _ => Err "unsupported" end;
  TransformerValue := λ tr t, Err "unsupported";
  FindColumnName := λ _ _, "unknown";
  transform_String := λ tr, match tr with OtherTransform s => s | _ => "known" end;
  IceType_String := λ t, match t with StringType => "string" | _ => "long" end;
  ArrowType_String := λ t, match t with STRING => "utf8" | _ => "int64" end;
  PartitionToPath := λ spec _ vals, join "/" (zip_with (λ f v, sf_Name f +:+ "=" +:+ text v) spec vals);
}.
Definition spec : list SpecField := [MkSpecField 1000 "city" 1 IdentityTransform; MkSpecField 1001 "n_bucket" 2 (BucketTransform 2)].
Definition schema : list NestedField := [MkNestedField 1 "city" StringType; MkNestedField 2 "n" Int64Type].
Definition columns : list (string * ArrowType) := [("n", INT32); ("city", STRING)].
Definition cells : batch := MkBatch 4
  [[Some (CInt 1); Some (CInt 2); Some (CInt 3); None]; [Some (CBytes "a"); Some (CBytes "b"); Some (CBytes "a"); None]].
Definition part : partitioner :=
  match newPartitioner spec (Some schema) columns with Ok p => p | Err _ => MkPartitioner [] [] [] end.

Example part_resolves : is_ok (newPartitioner spec (Some schema) columns) = true.
Proof. by vm_compute. Qed.
Example split_cells : match split part cells with Ok gs => Ok (map (λ g, (path part (g_tuple g), g_rows g, contiguous g)) gs) | Err e => Err e end =
  Ok [("city=a/n_bucket=1", [0; 2], false); ("city=b/n_bucket=0", [1], true); ("city=null/n_bucket=null", [3], true)].
Proof. by vm_compute. Qed.
(** Without the length before its bytes a string could pass for two values. *)
Example keys_differ : tuple_key [VString "a"; VString "b"] ≠ tuple_key [VString "ab"; VString EmptyString].
Proof. by vm_compute. Qed.
Example nans_agree : tuple_key [VFloat32 4290772992] = tuple_key [VFloat32 2143289345].
Proof. by vm_compute. Qed.
Example large_unsigned : option_map (λ c, c (CInt 9223372036854775808)) (converter UINT64 Int64Type) =
  Some (Err "value 9223372036854775808 does not fit the table's long column").
Proof. by vm_compute. Qed.
(** Days before the epoch are floored; seconds far from it wrap around. *)
Example day_before_epoch : option_map (λ c, c (CInt (-1))) (converter DATE64 DateType) = Some (Ok (VDate (-1))).
Proof. by vm_compute. Qed.
Example seconds_wrap : option_map (λ c, c (CInt 9223372036855)) (converter (TIMESTAMP Second) TimestampType) =
  Some (Ok (VTimestamp (-9223372036854551616))).
Proof. by vm_compute. Qed.
Example long_key_refused : checkKeyLength ("s3://b/" +:+ list_str (replicate 1025 "x"%char)) "city=verylong" =
  Some ("goplane: data file object key is 1025 bytes, over the 1024-byte limit, because of partition field city (13-byte path segment)").
Proof. by vm_compute. Qed.

Lemma tuple_key_canonical_witness :
  tuple_key [VString "a"; VFloat32 4290772992] = tuple_key [VString "a"; VFloat32 2143289345] ↔
  canon <$> [VString "a"; VFloat32 4290772992] = canon <$> [VString "a"; VFloat32 2143289345].
Proof. apply tuple_key_canonical; [by repeat constructor..|done]. Defined.
Lemma converter_typed_witness : VDate (-1) = converted DATE64 DateType (CInt (-1)) ∧ VDate (-1) ≠ VNull ∧ value_ok (VDate (-1)).
Proof. apply (converter_typed DATE64 DateType _ (CInt (-1)) eq_refl). by vm_compute. Defined.
End PartitionExamples.
