(* ===== verification/TableWriter.v ===== *)
(** * TableWriter: the writer of one table
      (pkg/datagateway/goplane/writer.go, plane.go)

    The data of a writer and what its goroutine does with a batch: one file at a
    time, or one open file per partition tuple with eviction, rotation and a
    shared budget of buffered bytes.  The Parquet encoder, the uploads, the
    credentials and Arrow's buffers are the world [X]: each call may fail.  Every
    data file carries the rows its encoder accepted ([f_content]), which the code
    does not keep. *)

From S2P Require Import Prelude GoTime Status Partition.

Definition defaultTargetFileBytes : Z := 134217728.
Definition defaultRowGroupRows : Z := 229376.
Definition rotationFactor : Z := 4.
Definition channelBatches : nat := 4.

Inductive werror : Type :=
| errAborted
| errClosed
| errInterrupted
| Canceled  (** the cause context.Canceled of a cancelled parent *)
| WriteFailed (msg : string).
#[export] Instance werror_eq : EqDecision werror.
Proof. solve_decision. Defined.

Definition row : Type := list (option cell).
Definition row_at (b : batch) (i : nat) : row := (λ col, mjoin (col !! i)) <$> b_Columns b.
Definition rows_of (b : batch) : list row := row_at b <$> seq 0 (b_NumRows b).

(** The buffers of an array, by length, and its children. *)
Inductive ArrayData : Type := MkArrayData (buffers : list (option Z)) (children : list ArrayData).
Fixpoint dataBytes (d : ArrayData) : Z :=
  let 'MkArrayData buffers children := d in
  (foldr (λ b n, default 0 b + n) 0 buffers + foldr (λ c n, dataBytes c + n) 0 children)%Z.
(** A record batch: its cells, the types of its columns, the layout of their arrays. *)
Record RecordBatch := MkRecord {
  r_batch : batch;
  r_types : list ArrowType;
  r_data : list ArrayData;
}.
Definition recordBytes (rec : RecordBatch) : Z := wrap64 (foldr (λ d n, dataBytes d + n)%Z 0%Z (r_data rec)).
Definition rec_rows (rec : RecordBatch) : nat := b_NumRows (r_batch rec).

Record ArrowField := MkArrowField {
  af_Name : string;
  af_Type : ArrowType;
  af_Nullable : bool;
  af_Metadata : list (string * string);
}.
Definition stripFieldIDMetadata (s : list ArrowField) : list ArrowField :=
  (λ f, MkArrowField (af_Name f) (af_Type f) (af_Nullable f) (filter (λ kv, kv.1 ≠ "PARQUET:field_id") (af_Metadata f))) <$> s.

Record PartitionSpec := MkPartitionSpec { ps_ID : Z; ps_fields : list SpecField }.
Record WriterSpec := MkWriterSpec {
  ws_Table : string;
  ws_DataPrefix : string;
  ws_FilePrefix : string;
  ws_Schema : option (list ArrowField);
  ws_Creds : bool;  (** a source of credentials is set *)
  ws_TargetFileBytes : Z;
  ws_RowGroupRows : Z;
  ws_PartitionSpec : option PartitionSpec;
  ws_TableSchema : option (list NestedField);
}.
Definition specID (spec : WriterSpec) : Z := match ws_PartitionSpec spec with Some p => ps_ID p | None => 0%Z end.
Definition writeSchema (spec : WriterSpec) : list ArrowField := stripFieldIDMetadata (default [] (ws_Schema spec)).
Record WrittenFile := MkWrittenFile {
  wf_Path : string;
  wf_Rows : Z;
  wf_Bytes : Z;
  wf_SpecID : Z;
  wf_Partition : option (gmap Z pvalue);
}.
#[export] Instance cell_eq : EqDecision cell.
Proof. solve_decision. Defined.
Record dataFile := MkDataFile {
  f_path : string;
  f_rows : Z;
  f_fed : Z;
  f_seq : nat;
  f_key : string;
  f_partition : option (gmap Z pvalue);
  f_lastUsed : Z;
  f_sinkClosed : bool;
  f_content : list row;
}.
#[export] Instance dataFile_eq : EqDecision dataFile.
Proof. solve_decision. Defined.
(** The fields the goroutine owns; [w_done] has the data files behind [w_files].
    [w_cause] is the cause of the lifetime context, once cancelled. *)
Record writer := MkWriter {
  w_cur : option dataFile;
  w_open : list dataFile;
  w_files : list WrittenFile;
  w_done : list dataFile;
  w_err : option werror;
  w_tick : Z;
  w_nextSeq : nat;
  w_cause : option werror;
}.
Definition new_writer : writer := MkWriter None [] [] [] None 0 0 None.

Class WriterIO (X : Type) : Type := {
  io_creds : St X (option string);
  io_open : string → St X (option string);
  io_parquet : string → St X (option string);
  io_cancel : string → St X unit;
  io_closeSink : string → St X (option string);
  io_remove : string → St X unit;
  io_bytes : string → St X Z;  (** what the sink was given *)
  pq_WriteBuffered : string → list row → St X (option string);
  pq_RowGroupBytes : string → St X Z;
  pq_NewRowGroup : string → St X (option string);
  pq_Close : string → St X (option string);
  ar_Take : RecordBatch → list nat → St X (result string RecordBatch);
  map_range : list dataFile → St X (list dataFile);  (** the order of a range over the open files *)
}.

Section Writer.
Context `{UT : !UnicodeTables} `{PL : !PartitionLib} {X : Type} `{IO : !WriterIO X}.
Variables (spec : WriterSpec) (part : option partitioner) (maxOpen : nat) (budget : Z) (local : bool).

Definition S_ : Type := writer * X.
Definition io {A} (m : St X A) : St S_ A := λ s, let (x, a) := m s.2 in ((s.1, x), a).
Definition get : St S_ writer := λ s, (s, s.1).
Definition modify (f : writer → writer) : St S_ unit := λ s, ((f s.1, s.2), ()).
(** [if err := m; err != nil { return err }; k] *)
Definition then_ (m : St S_ (option werror)) (k : St S_ (option werror)) : St S_ (option werror) :=
  e ← m; match e with Some e => mret (Some e) | None => k end.
Definition or_fail (what : string) (m : St X (option string)) : St S_ (option werror) :=
  e ← io m; mret ((λ e, WriteFailed (what +:+ e)) <$> e).

Definition set_cur (f : option dataFile) (w : writer) : writer :=
  MkWriter f (w_open w) (w_files w) (w_done w) (w_err w) (w_tick w) (w_nextSeq w) (w_cause w).
Definition set_open (l : list dataFile) (w : writer) : writer :=
  MkWriter (w_cur w) l (w_files w) (w_done w) (w_err w) (w_tick w) (w_nextSeq w) (w_cause w).
Definition set_err (e : werror) (w : writer) : writer :=
  MkWriter (w_cur w) (w_open w) (w_files w) (w_done w) (Some e) (w_tick w) (w_nextSeq w) (w_cause w).
(** context.WithCancelCause keeps the first cause. *)
Definition cancel (e : werror) (w : writer) : writer :=
  MkWriter (w_cur w) (w_open w) (w_files w) (w_done w) (w_err w) (w_tick w) (w_nextSeq w)
    (match w_cause w with Some c => Some c | None => Some e end).
Definition add_file (wf : WrittenFile) (f : dataFile) (w : writer) : writer :=
  MkWriter (w_cur w) (w_open w) (w_files w ++ [wf]) (w_done w ++ [f]) (w_err w) (w_tick w) (w_nextSeq w) (w_cause w).
Definition failure (w : writer) : werror :=
  match w_cause w with Some Canceled => errInterrupted | Some c => c | None => errInterrupted end.

(** ** Data files *)

Definition closeSink (f : dataFile) : St S_ (option string) :=
  if f_sinkClosed f then mret None else io (io_closeSink (f_path f)).
Definition sink_closed (f : dataFile) : dataFile :=
  MkDataFile (f_path f) (f_rows f) (f_fed f) (f_seq f) (f_key f) (f_partition f) (f_lastUsed f) true (f_content f).
Definition abort (f : dataFile) : St S_ unit :=
  _ ← io (io_cancel (f_path f));
  _ ← closeSink f;
  if local then io (io_remove (f_path f)) else mret ().
Fixpoint abortAll (files : list dataFile) : St S_ unit :=
  match files with
  | [] => mret ()
  | f :: files => _ ← abort f; abortAll files
  end.
Definition fail (err : werror) : St S_ unit :=
  w ← get;
  _ ← modify (λ w, match w_err w with Some _ => w | None => set_err err w end);
  _ ← modify (cancel err);
  _ ← modify (set_cur None);
  _ ← modify (set_open []);
  abortAll (option_list (w_cur w) ++ w_open w).

Definition finish (f : dataFile) : St S_ (option werror) :=
  e ← or_fail ("goplane: finish " +:+ f_path f +:+ ": ") (pq_Close (f_path f));
  match e with
  | Some e => _ ← abort f; mret (Some e)
  | None =>
    e ← closeSink f;
    match e with
    | Some e => _ ← abort (sink_closed f); mret (Some (WriteFailed ("goplane: upload " +:+ f_path f +:+ ": " +:+ e)))
    | None =>
      _ ← io (io_cancel (f_path f));
      n ← io (io_bytes (f_path f));
      _ ← modify (add_file (MkWrittenFile (f_path f) (f_rows f) n (specID spec) (f_partition f)) (sink_closed f));
      mret None
    end
  end.
Definition new_file (path : string) : dataFile := MkDataFile path 0 0 0 EmptyString None 0 false [].
Definition openPath (path : string) : St S_ (result werror dataFile) :=
  e ← (if ws_Creds spec then io io_creds else mret None);
  match e with
  | Some e => mret (Err (WriteFailed e))
  | None =>
    e ← io (io_open path);
    match e with
    | Some e => _ ← (if local then io (io_remove path) else mret ()); mret (Err (WriteFailed e))
    | None =>
      e ← io (io_parquet path);
      match e with
      | Some e => _ ← abort (new_file path); mret (Err (WriteFailed ("goplane: parquet writer for " +:+ path +:+ ": " +:+ e)))
      | None => mret (Ok (new_file path))
      end
    end
  end.
(** [%05d]. *)
Definition pad5 (n : nat) : string :=
  let s := itoa_nat n in list_str (replicate (5 - slen s) "0"%char) +:+ s.
Definition file_name (seq : nat) : string := ws_FilePrefix spec +:+ "-" +:+ pad5 seq +:+ ".parquet".
Definition openFile (seq : nat) : St S_ (result werror dataFile) := openPath (ws_DataPrefix spec +:+ file_name seq).

(** ** Batches *)

(** [rec.NewSlice(first, first+n)]. *)
Definition slice (b : batch) (first n : nat) : batch := MkBatch n (take n ∘ drop first <$> b_Columns b).
(** The rows of [g] as a batch, and the bytes they count for. *)
Definition subBatch (rec : RecordBatch) (g : rowGroup) (parentBytes : Z) : St S_ (result werror (batch * Z)) :=
  let n := length (g_rows g) in
  if (n =? rec_rows rec)%nat then mret (Ok (r_batch rec, parentBytes))
  else if contiguous g then
    mret (Ok (slice (r_batch rec) (default O (head (g_rows g))) n,
      Z.quot (wrap64 (parentBytes * Z.of_nat n)) (Z.of_nat (rec_rows rec))))
  else
    r ← io (ar_Take rec (g_rows g));
    mret (match r with
      | Ok sub => Ok (r_batch sub, recordBytes sub)
      | Err e => Err (WriteFailed ("goplane: split batch by partition: " +:+ e))
      end).
(** The batch was encoded into [f]. *)
Definition fed (f : dataFile) (sub : batch) (bytes tick : Z) : dataFile :=
  MkDataFile (f_path f) (wrap64 (f_rows f + Z.of_nat (b_NumRows sub))) (wrap64 (f_fed f + bytes)) (f_seq f) (f_key f)
    (f_partition f) tick (f_sinkClosed f) (f_content f ++ rows_of sub).
Definition encode (f : dataFile) (sub : batch) : St S_ (option werror) :=
  or_fail ("goplane: encode " +:+ f_path f +:+ ": ") (pq_WriteBuffered (f_path f) (rows_of sub)).
Definition rotate (f : dataFile) : bool := (wrap64 (rotationFactor * ws_TargetFileBytes spec) <=? f_fed f)%Z.

(** ** Partitioned tables *)

(** [w.open[key]], [w.open[f.key] = f], [delete(w.open, key)]. *)
Definition open_at (key : string) (l : list dataFile) : option dataFile := find (λ f, bool_decide (f_key f = key)) l.
Fixpoint put (f : dataFile) (l : list dataFile) : list dataFile :=
  match l with
  | [] => [f]
  | g :: l => if decide (f_key g = f_key f) then f :: l else g :: put f l
  end.
Definition del (key : string) (l : list dataFile) : list dataFile := filter (λ f, f_key f ≠ key) l.
Definition put_open (f : dataFile) (w : writer) : writer := set_open (put f (w_open w)) w.
Definition del_open (key : string) (w : writer) : writer := set_open (del key (w_open w)) w.
Definition set_tick (t : Z) (w : writer) : writer :=
  MkWriter (w_cur w) (w_open w) (w_files w) (w_done w) (w_err w) t (w_nextSeq w) (w_cause w).
Definition set_nextSeq (n : nat) (w : writer) : writer :=
  MkWriter (w_cur w) (w_open w) (w_files w) (w_done w) (w_err w) (w_tick w) n (w_cause w).
(** [for _, f := range w.open]: any order of the open files. *)
Definition range_open : St S_ (list dataFile) :=
  w ← get;
  l ← io (map_range (w_open w));
  mret (if decide (l ≡ₚ w_open w) then l else w_open w).

Definition flushRowGroup (f : dataFile) : St S_ (option werror) :=
  or_fail ("goplane: flush row group of " +:+ f_path f +:+ ": ") (pq_NewRowGroup (f_path f)).
Definition flushShare (f : dataFile) : St S_ (option werror) :=
  n ← io (pq_RowGroupBytes (f_path f));
  w ← get;
  if (n =? 0)%Z || (n <? Z.quot budget (Z.of_nat (length (w_open w))))%Z then mret None else flushRowGroup f.
(** The sum of the buffered bytes and the first file with the most. *)
Fixpoint weigh (files : list dataFile) (sum most : Z) (largest : option dataFile) : St S_ (Z * Z * option dataFile) :=
  match files with
  | [] => mret (sum, most, largest)
  | f :: files =>
    n ← io (pq_RowGroupBytes (f_path f));
    let bigger := match largest with None => true | Some _ => (most <? n)%Z end in
    weigh files (wrap64 (sum + n)) (if bigger then n else most) (if bigger then Some f else largest)
  end.
Fixpoint enforceBudget (fuel : nat) : St S_ (option werror) :=
  match fuel with
  | O => mret None
  | S fuel =>
    files ← range_open;
    '(sum, most, largest) ← weigh files 0 0 None;
    match largest with
    | Some f => if (sum <=? budget)%Z || (most =? 0)%Z then mret None else then_ (flushRowGroup f) (enforceBudget fuel)
    | None => mret None
    end
  end.
Definition lru (files : list dataFile) : option dataFile :=
  foldl (λ lru f, match lru with None => Some f | Some g => if (f_lastUsed f <? f_lastUsed g)%Z then Some f else Some g end) None files.
Definition evictLRU : St S_ (option werror) :=
  files ← range_open;
  match lru files with
  | None => mret None
  | Some f => _ ← modify (del_open (f_key f)); finish f
  end.
Definition partition_of (f : dataFile) (seq : nat) (g : rowGroup) : dataFile :=
  MkDataFile (f_path f) (f_rows f) (f_fed f) seq (g_key g) (Some (g_tuple g)) (f_lastUsed f) (f_sinkClosed f) (f_content f).
Definition openPartition (p : partitioner) (g : rowGroup) : St S_ (result werror dataFile) :=
  w ← get;
  e ← (if (maxOpen <=? length (w_open w))%nat then evictLRU else mret None);
  match e with
  | Some e => mret (Err e)
  | None =>
    w ← get;
    let partPath := path p (g_tuple g) in
    let file := ws_DataPrefix spec +:+ partPath +:+ "/" +:+ file_name (w_nextSeq w) in
    match checkKeyLength file partPath with
    | Some e => mret (Err (WriteFailed e))
    | None =>
      r ← openPath file;
      match r with
      | Err e => mret (Err e)
      | Ok f =>
        let f := partition_of f (w_nextSeq w) g in
        _ ← modify (λ w, put_open f (set_nextSeq (S (w_nextSeq w)) w));
        mret (Ok f)
      end
    end
  end.
(** [if err != nil { return err }] after [x, err := m]. *)
Definition bind_ok {A} (m : St S_ (result werror A)) (k : A → St S_ (option werror)) : St S_ (option werror) :=
  r ← m; match r with Err e => mret (Some e) | Ok a => k a end.
(** The open file of the tuple of [g]. *)
Definition group_file (p : partitioner) (g : rowGroup) : St S_ (result werror dataFile) :=
  w ← get; match open_at (g_key g) (w_open w) with Some f => mret (Ok f) | None => openPartition p g end.
(** The rest of the step of a group, after its batch was encoded into [f]. *)
Definition after_write (f : dataFile) (sub : batch) (bytes : Z) : St S_ (option werror) :=
  w ← get;
  let tick := ((w_tick w + 1) `mod` two64)%Z in
  let f := fed f sub bytes tick in
  _ ← modify (λ w, put_open f (set_tick tick w));
  then_ (if rotate f then _ ← modify (del_open (f_key f)); finish f else mret None)
    (w ← get; enforceBudget (S (length (w_open w)))).
Definition writeGroup (p : partitioner) (rec : RecordBatch) (g : rowGroup) (parentBytes : Z) : St S_ (option werror) :=
  bind_ok (subBatch rec g parentBytes) (λ '(sub, bytes),
  bind_ok (group_file p g) (λ f,
  then_ (flushShare f) (then_ (encode f sub) (after_write f sub bytes)))).
Fixpoint writeGroups (p : partitioner) (rec : RecordBatch) (groups : list rowGroup) (parentBytes : Z) : St S_ (option werror) :=
  match groups with
  | [] => mret None
  | g :: groups => then_ (writeGroup p rec g parentBytes) (writeGroups p rec groups parentBytes)
  end.
Definition writePartitioned (p : partitioner) (rec : RecordBatch) : St S_ (option werror) :=
  match split p (r_batch rec) with
  | Err e => mret (Some (WriteFailed e))
  | Ok groups => writeGroups p rec groups (recordBytes rec)
  end.

(** ** A record, and the end *)

(** [w.cur], opened when there is none. *)
Definition cur_file : St S_ (result werror dataFile) :=
  w ← get; match w_cur w with Some f => mret (Ok f) | None => openFile (length (w_files w)) end.
Definition writeRecord (rec : RecordBatch) : St S_ (option werror) :=
  if (rec_rows rec =? 0)%nat then mret None
  else
    match part with
    | Some p => writePartitioned p rec
    | None =>
      bind_ok cur_file (λ f,
        _ ← modify (set_cur (Some f));
        then_ (encode f (r_batch rec)) (
          let f := fed f (r_batch rec) (recordBytes rec) 0 in
          _ ← modify (set_cur (Some f));
          if rotate f then _ ← modify (set_cur None); finish f else mret None))
    end.
(** The check of the lifetime context, by its goroutine. *)
Definition check_alive : St S_ unit :=
  w ← get;
  match w_err w, w_cause w with
  | None, Some _ => fail (failure w)
  | _, _ => mret ()
  end.
Definition process (rec : RecordBatch) : St S_ unit :=
  _ ← check_alive;
  w ← get;
  match w_err w with
  | Some _ => mret ()
  | None => e ← writeRecord rec; match e with Some e => fail e | None => mret () end
  end.
Definition by_seq (a b : dataFile) : Prop := (f_seq a ≤ f_seq b)%nat.
#[export] Instance by_seq_dec a b : Decision (by_seq a b).
Proof. unfold by_seq. apply _. Defined.
Fixpoint finish_files (files : list dataFile) : St S_ unit :=
  match files with
  | [] => modify (cancel errClosed)
  | f :: files =>
    _ ← modify (del_open (f_key f));
    e ← finish f;
    match e with Some e => fail e | None => finish_files files end
  end.
Definition finishOpen : St S_ unit := files ← range_open; finish_files (merge_sort by_seq files).
Definition finishLast : St S_ unit :=
  _ ← check_alive;
  w ← get;
  match w_err w, part, w_cur w with
  | Some _, _, _ => mret ()
  | None, Some _, _ => finishOpen
  | None, None, None => mret ()
  | None, None, Some f =>
    _ ← modify (set_cur None);
    e ← finish f;
    match e with Some e => fail e | None => modify (cancel errClosed) end
  end.
Definition checkRecord (rec : option RecordBatch) : option string :=
  match rec with
  | None => Some "goplane: nil record"
  | Some rec =>
    let want := af_Type <$> writeSchema spec in
    if negb (length (r_types rec) =? length want)%nat then
      Some ("goplane: RecordBatch has " +:+ itoa_nat (length (r_types rec)) +:+ " columns, writer schema " +:+ itoa_nat (length want))
    else
      '(i, (got, ty)) ← list_find (λ gt, gt.1 ≠ gt.2) (zip (r_types rec) want);
      Some ("goplane: RecordBatch column " +:+ itoa_nat i +:+ " has type " +:+ ArrowType_String got +:+ ", writer schema " +:+ ArrowType_String ty)
  end.
End Writer.

(** ** The plane *)

Definition defaultMaxOpenPartitions : Z := 16.
Definition maxMaxOpenPartitions : Z := 1024.
Definition defaultPartitionBufferBytes : Z := 268435456.
Definition minPartitionBufferBytes : Z := 16777216.
Definition maxPartitionBufferBytes : Z := 8589934592.
(** A variable of the environment as an integer between two bounds. *)
Definition bounded_env (env : option string) (lo hi dflt : Z) : Z :=
  match env with
  | None | Some EmptyString => dflt
  | Some v =>
    match Atoi (TrimSpace v) with
    | Some n => if (n <? lo)%Z || (hi <? n)%Z then dflt else n
    | None => dflt
    end
  end.
Definition maxOpenPartitionsFromEnv (env : option string) : Z := bounded_env env 1 maxMaxOpenPartitions defaultMaxOpenPartitions.
Definition partitionBufferBytesFromEnv (env : option string) : Z :=
  bounded_env env minPartitionBufferBytes maxPartitionBufferBytes defaultPartitionBufferBytes.

Record Config := MkConfig { MaxOpenPartitions : Z; PartitionBufferBytes : Z }.
Record Plane := MkPlane {
  pl_cfg : Config;
  pl_err : option string;  (** the error of its context, once cancelled *)
  pl_closed : bool;
  pl_writers : nat;  (** the writers counted in Close's wait *)
}.
Definition NewPlane (cfg : Config) : Plane :=
  MkPlane (MkConfig (if (MaxOpenPartitions cfg <=? 0)%Z then defaultMaxOpenPartitions else MaxOpenPartitions cfg)
    (if (PartitionBufferBytes cfg <=? 0)%Z then defaultPartitionBufferBytes else PartitionBufferBytes cfg)) None false 0.
Definition Interrupt (p : Plane) : Plane := MkPlane (pl_cfg p) (Some "context canceled") (pl_closed p) (pl_writers p).
(** The part of Close before its wait for the writers. *)
Definition ClosePlane (p : Plane) : Plane := MkPlane (pl_cfg p) (Some "context canceled") true (pl_writers p).
Definition isLocalPrefix (prefix : string) : bool := negb (contains "://" prefix) || has_prefix "file://" prefix.

(** What newWriter starts its goroutine with. *)
Record WriterSetup := MkWriterSetup {
  su_spec : WriterSpec;
  su_part : option partitioner;
  su_maxOpen : nat;
  su_budget : Z;
  su_local : bool;
}.
Definition with_sizes (spec : WriterSpec) : WriterSpec :=
  MkWriterSpec (ws_Table spec) (ws_DataPrefix spec) (ws_FilePrefix spec) (ws_Schema spec) (ws_Creds spec)
    (if (ws_TargetFileBytes spec <=? 0)%Z then defaultTargetFileBytes else ws_TargetFileBytes spec)
    (if (ws_RowGroupRows spec <=? 0)%Z then defaultRowGroupRows else ws_RowGroupRows spec)
    (ws_PartitionSpec spec) (ws_TableSchema spec).
Section OpenWriter.
Context `{UT : !UnicodeTables} `{PL : !PartitionLib}.
(** The fields of the partition spec, if it has any, against the schemas. *)
Definition writer_part (spec : WriterSpec) (schema : list ArrowField) : result string (option partitioner) :=
  match ws_PartitionSpec spec with
  | Some ps =>
    if (0 <? length (ps_fields ps))%nat then
      map_err (λ e, "goplane: table " +:+ ws_Table spec +:+ ": " +:+ e)
        (p ← newPartitioner (ps_fields ps) (ws_TableSchema spec) ((λ f, (af_Name f, af_Type f)) <$> schema); Ok (Some p))
    else Ok None
  | None => Ok None
  end.
Definition OpenTableWriter (p : Plane) (spec : WriterSpec) : Plane * result string WriterSetup :=
  match ws_Schema spec with
  | None => (p, Err "goplane: writer schema is required")
  | Some schema =>
    let local := isLocalPrefix (ws_DataPrefix spec) in
    if str_empty (ws_DataPrefix spec) || str_empty (ws_FilePrefix spec) then
      (p, Err "goplane: writer data prefix and file prefix are required")
    else if negb (ws_Creds spec) && negb local then
      (p, Err ("goplane: no credentials for remote data prefix " +:+ quote (ws_DataPrefix spec)))
    else
      match writer_part spec schema with
      | Err e => (p, Err e)
      | Ok part =>
        if pl_closed p then (p, Err "goplane: plane closed")
        else
          match pl_err p with
          | Some e => (p, Err ("goplane: plane closed: " +:+ e))
          | None =>
            (MkPlane (pl_cfg p) (pl_err p) (pl_closed p) (S (pl_writers p)),
             Ok (MkWriterSetup (with_sizes spec) part (Z.to_nat (MaxOpenPartitions (pl_cfg p))) (PartitionBufferBytes (pl_cfg p)) local))
          end
      end
  end.
End OpenWriter.
