(* ===== verification/WriterInv.v ===== *)
(** * WriterInv: no row of a table's writer is lost, duplicated or misplaced

    The invariant of a writer between two batches, kept by every operation of
    TableWriter that succeeds, whatever the encoder, the uploads and the order of
    the open files do.  The only law is that Take takes the rows it is asked for. *)

From S2P Require Import Prelude ApiTypes GoTime Partition TableWriter.

(** compute.TakeArray of every column: the rows at the indices, in their order. *)
Class TakeLaw (X : Type) `{IO : !WriterIO X} : Prop :=
  take_rows : ∀ rec idx (x : X) sub, (ar_Take rec idx x).2 = Ok sub → rows_of (r_batch sub) = row_at (r_batch rec) <$> idx.

(** ** Names of files *)

Lemma str_app_last (p q : string) c d1 d2 : forall_byte (λ a, negb (Ascii.eqb a c)) d1 = true →
  forall_byte (λ a, negb (Ascii.eqb a c)) d2 = true → p +:+ String c d1 = q +:+ String c d2 → d1 = d2.
Proof.
  intros H1 H2. revert q. induction p as [|a p IH]; intros [|b q]; rewrite ?str_nil_app, ?str_app_cons; intros E.
  - by injection E.
  - injection E as <- ->. rewrite forall_byte_app in H1. cbn [forall_byte] in H1.
    rewrite Ascii.eqb_refl in H1. by rewrite andb_false_r in H1.
  - injection E as -> <-. rewrite forall_byte_app in H2. cbn [forall_byte] in H2.
    rewrite Ascii.eqb_refl in H2. by rewrite andb_false_r in H2.
  - injection E as _ E. by eapply IH.
Qed.
Lemma digits_zeros n s : digits_from 0 (list_str (replicate n "0"%char) +:+ s) = digits_from 0 s.
Proof. induction n as [|n IH]; [done|]. by cbn. Qed.
Lemma pad5_value n : digits_value (pad5 n) = Z.of_nat n.
Proof.
  unfold pad5, digits_value. rewrite digits_zeros. destruct n as [|n]; [done|].
  change (itoa_nat (S n)) with (itoa (Z.of_nat (S n))). by apply all_digits_itoa.
Qed.
Lemma pad5_digits n : forall_byte is_digit_byte (pad5 n) = true.
Proof.
  unfold pad5. rewrite forall_byte_app. apply andb_true_iff. split.
  - by induction (5 - slen (itoa_nat n))%nat.
  - destruct n as [|n]; [done|]. change (itoa_nat (S n)) with (itoa (Z.pos (Pos.of_succ_nat n))).
    by rewrite itoa_pos, forall_digits_go.
Qed.
Lemma file_name_inj spec pre pre' n n' : pre +:+ file_name spec n = pre' +:+ file_name spec n' → n = n'.
Proof.
  unfold file_name. rewrite <-!str_app_assoc. intros E%str_app_inj_r. rewrite !str_app_assoc in E.
  rewrite <-!(str_app_assoc pre), <-!(str_app_assoc pre') in E.
  change ("-" +:+ pad5 n) with (String "-" (pad5 n)) in E. change ("-" +:+ pad5 n') with (String "-" (pad5 n')) in E.
  apply str_app_last in E; [apply Nat2Z.inj; by rewrite <-!pad5_value, E|..];
    (eapply forall_byte_impl; [|apply pad5_digits]; intros c Hc; by destruct (Ascii.eqb_spec c "-"%char) as [->|]).
Qed.

(** ** Maps of open files *)

Definition with_key (k : string) (l : list dataFile) : list dataFile := filter (λ f, f_key f = k) l.
Lemma del_absent k l : k ∉ f_key <$> l → del k l = l.
Proof.
  induction l as [|f l IH]; [done|]. rewrite fmap_cons. intros [H1 H2]%not_elem_of_cons. unfold del. rewrite filter_cons, decide_True by done.
  f_equal. by apply IH.
Qed.
Lemma del_perm f l : NoDup (f_key <$> l) → f ∈ l → l ≡ₚ f :: del (f_key f) l.
Proof.
  induction l as [|g l IH]; intros Hnd Hf; [by apply elem_of_nil in Hf|]. rewrite fmap_cons in Hnd. apply NoDup_cons in Hnd as [Hg Hnd].
  unfold del. rewrite filter_cons. apply elem_of_cons in Hf as [->|Hf].
  - rewrite decide_False by naive_solver. fold (del (f_key g) l). by rewrite del_absent.
  - rewrite decide_True by (intros E; rewrite E in Hg; by apply Hg, list_elem_of_fmap_2). fold (del (f_key f) l).
    rewrite Permutation_swap. by rewrite <-(IH Hnd Hf).
Qed.
Lemma put_perm f l : NoDup (f_key <$> l) → put f l ≡ₚ f :: del (f_key f) l.
Proof.
  induction l as [|g l IH]; cbn [put]; intros Hnd; [done|]. rewrite fmap_cons in Hnd. apply NoDup_cons in Hnd as [Hg Hnd].
  unfold del. rewrite filter_cons. fold (del (f_key f) l). destruct (decide (f_key g = f_key f)) as [E|E].
  - rewrite decide_False by naive_solver. rewrite E in Hg. by rewrite del_absent.
  - rewrite decide_True by done. rewrite (IH Hnd). apply Permutation_swap.
Qed.
Lemma del_keys k l : f_key <$> del k l = filter (λ k', k' ≠ k) (f_key <$> l).
Proof.
  induction l as [|f l IH]; [done|]. unfold del in *. rewrite fmap_cons, !filter_cons. destruct (decide (f_key f ≠ k)); by rewrite ?fmap_cons, IH.
Qed.
Lemma del_NoDup k l : NoDup (f_key <$> l) → NoDup (f_key <$> del k l).
Proof. intros H. rewrite del_keys. by apply NoDup_filter. Qed.
Lemma put_NoDup f l : NoDup (f_key <$> l) → NoDup (f_key <$> put f l).
Proof.
  intros H. rewrite (put_perm f l H), fmap_cons. constructor; [|by apply del_NoDup]. rewrite del_keys, list_elem_of_filter. naive_solver.
Qed.
Lemma with_key_absent k l : k ∉ f_key <$> l → with_key k l = [].
Proof. intros H. apply filter_none. intros f Hf <-. by apply H, list_elem_of_fmap_2. Qed.
Lemma with_key_in f l : NoDup (f_key <$> l) → f ∈ l → with_key (f_key f) l = [f].
Proof.
  induction l as [|g l IH]; intros Hnd Hf; [by apply elem_of_nil in Hf|]. rewrite fmap_cons in Hnd. apply NoDup_cons in Hnd as [Hg Hnd].
  unfold with_key. rewrite filter_cons. fold (with_key (f_key f) l). apply elem_of_cons in Hf as [->|Hf].
  - by rewrite decide_True, with_key_absent.
  - rewrite decide_False; [by apply IH|]. intros E. rewrite E in Hg. by apply Hg, list_elem_of_fmap_2.
Qed.
Lemma with_key_del k k' l : with_key k (del k' l) = if decide (k = k') then [] else with_key k l.
Proof.
  unfold with_key, del. rewrite list_filter_filter. destruct (decide _) as [->|Hk].
  - apply filter_none. naive_solver.
  - apply list_filter_iff. naive_solver.
Qed.
Lemma with_key_put k f l : NoDup (f_key <$> l) → with_key k (put f l) = if decide (k = f_key f) then [f] else with_key k l.
Proof.
  unfold with_key. induction l as [|g l IH]; cbn [put]; intros Hnd.
  { rewrite filter_cons, filter_nil. by destruct (decide (f_key f = k)), (decide (k = f_key f)). }
  rewrite fmap_cons in Hnd. apply NoDup_cons in Hnd as [Hg Hnd]. destruct (decide (f_key g = f_key f)) as [E|E]; rewrite !filter_cons.
  - destruct (decide (k = f_key f)) as [->|Hk].
    + rewrite decide_True by done. rewrite E in Hg. f_equal. by apply with_key_absent.
    + rewrite !decide_False by congruence. done.
  - rewrite (IH Hnd). destruct (decide (k = f_key f)) as [->|Hk]; [by rewrite decide_False|done].
Qed.
Lemma open_at_Some k l f : open_at k l = Some f → f ∈ l ∧ f_key f = k.
Proof. intros H. apply find_some in H as [Hf Hk]. split; [by apply list_elem_of_In|]. by apply bool_decide_eq_true in Hk. Qed.
Lemma open_at_None k l : open_at k l = None → k ∉ f_key <$> l.
Proof.
  intros H Hk. apply list_elem_of_fmap in Hk as (f & -> & Hf). apply list_elem_of_In in Hf.
  pose proof (find_none _ _ H f Hf) as Hn. by apply bool_decide_eq_false in Hn.
Qed.

(** Paths that end in the names of distinct sequence numbers below [n]. *)
Definition numbered (spec : WriterSpec) (paths : list string) (n : nat) : Prop :=
  ∃ ns, NoDup ns ∧ Forall (λ i, i < n) ns ∧ Forall2 (λ path i, ∃ pre, path = pre +:+ file_name spec i) paths ns.
Lemma numbered_perm spec l l' n : l ≡ₚ l' → numbered spec l n → numbered spec l' n.
Proof.
  intros Hp (ns & Hnd & Hlt & HF). destruct (Permutation_Forall2 Hp HF) as (ns' & Hp' & HF').
  exists ns'. split_and!; [by rewrite <-Hp'|by rewrite <-Hp'|done].
Qed.
Lemma numbered_new spec l n pre : numbered spec l n → numbered spec ((pre +:+ file_name spec n) :: l) (S n).
Proof.
  intros (ns & Hnd & Hlt & HF). exists (n :: ns). rewrite Forall_forall in Hlt. split_and!.
  - constructor; [|done]. intros Hn%Hlt. lia.
  - constructor; [lia|]. apply Forall_forall. intros i Hi%Hlt. lia.
  - constructor; [by eexists|done].
Qed.
Lemma numbered_NoDup spec l n : numbered spec l n → NoDup l.
Proof.
  intros (ns & Hnd & _ & HF). induction HF as [|path i l ns [pre ->] HF IH]; [constructor|].
  apply NoDup_cons in Hnd as [Hi Hnd]. constructor; [|by apply IH].
  intros Hin. apply list_elem_of_lookup in Hin as [j Hj]. destruct (Forall2_lookup_l _ _ _ _ _ HF Hj) as (i' & Hi' & pre' & E).
  apply Hi. rewrite (file_name_inj _ _ _ _ _ E). by eapply list_elem_of_lookup_2.
Qed.

(** ** The rows of a group *)

Lemma filter_full {A} (P : A → Prop) `{∀ x, Decision (P x)} l : length (filter P l) = length l → filter P l = l.
Proof.
  induction l as [|x l IH]; [done|]. rewrite filter_cons. pose proof (length_filter P l). destruct (decide (P x)); cbn; [|lia].
  intros E. f_equal. apply IH. lia.
Qed.
Lemma filter_every {A} (P : A → Prop) `{∀ x, Decision (P x)} (l : list A) : (∀ x, P x) → filter P l = l.
Proof. intros HP. induction l as [|x l IH]; [done|]. by rewrite filter_cons, decide_True, IH. Qed.
Lemma filter_seq_ascending (P : nat → Prop) `{∀ x, Decision (P x)} s n :
  StronglySorted lt (filter P (seq s n)) ∧ Forall (λ i, s ≤ i) (filter P (seq s n)).
Proof.
  revert s. induction n as [|n IH]; intros s; [by split; constructor|]. cbn [seq]. rewrite filter_cons. destruct (IH (S s)) as [Hs Hf].
  rewrite Forall_forall in Hf. destruct (decide (P s)); split; try done.
  - constructor; [done|]. apply Forall_forall. intros i Hi%Hf. lia.
  - constructor; [lia|]. apply Forall_forall. intros i Hi%Hf. lia.
  - apply Forall_forall. intros i Hi%Hf. lia.
Qed.
Lemma ascending_last (x : nat) l : StronglySorted lt (x :: l) → x + length l ≤ default O (last (x :: l)) ∧
  (default O (last (x :: l)) = x + length l → x :: l = seq x (S (length l))).
Proof.
  revert x. induction l as [|y l IH]; intros x Hs; [cbn; split; [lia|done]|].
  apply StronglySorted_inv in Hs as [Hs Hx]. apply Forall_cons in Hx as [Hx _]. destruct (IH y Hs) as [H1 H2].
  change (last (x :: y :: l)) with (last (y :: l)). cbn [length]. split; [lia|]. intros E.
  rewrite H2 by lia. assert (y = S x) as -> by lia. done.
Qed.
Lemma contiguous_rows g : StronglySorted lt (g_rows g) → contiguous g = true →
  g_rows g = seq (default O (head (g_rows g))) (length (g_rows g)).
Proof.
  unfold contiguous. destruct (g_rows g) as [|x l]; intros Hs Hc; apply Nat.eqb_eq in Hc; [done|].
  destruct (ascending_last x l Hs) as [H1 H2]. cbn [head default length] in *. apply H2. cbn in Hc, H1 |- *. lia.
Qed.
Lemma rows_of_slice b first n : rows_of (slice b first n) = row_at b <$> seq first n.
Proof.
  unfold rows_of. cbn [b_NumRows slice]. rewrite <-(Nat.add_0_r first) at 2. rewrite <-fmap_add_seq, <-list_fmap_compose.
  apply list_fmap_ext. intros j i Hi. apply lookup_seq in Hi as [-> Hi]. unfold row_at, slice. cbn [b_Columns compose].
  rewrite <-list_fmap_compose. apply list_fmap_ext. intros k col _. cbn. by rewrite lookup_take_lt, lookup_drop by lia.
Qed.

Lemma join_cons {A} (x : list A) l : mjoin (x :: l) = x ++ mjoin l.
Proof. done. Qed.
Section Groups.
Context `{UT : !UnicodeTables} `{PL : !PartitionLib}.
(** The rows of the groups with key [k]: together, those of the batch. *)
Definition group_rows (b : batch) (k : string) (gs : list rowGroup) : list row :=
  mjoin ((λ g, if decide (g_key g = k) then row_at b <$> g_rows g else []) <$> gs).
Lemma group_rows_of p b k l : group_rows b k (groups_of p b l) = row_at b <$> filter (λ i, row_key p b i = k) l.
Proof.
  unfold group_rows, groups_of. rewrite <-list_fmap_compose.
  assert (∀ ks, NoDup ks → mjoin ((λ k', if decide (g_key (group_of p b l k') = k) then row_at b <$> g_rows (group_of p b l k') else []) <$> ks)
    = if decide (k ∈ ks) then row_at b <$> filter (λ i, row_key p b i = k) l else []) as H.
  { intros ks Hnd. induction Hnd as [|k' ks Hk' Hnd IH]; [done|]. rewrite fmap_cons, join_cons, IH.
    destruct (decide (k = k')) as [->|Hk].
    - rewrite (decide_True _ _ (eq_refl : g_key (group_of p b l k') = k')), decide_False by done.
      by rewrite decide_True, app_nil_r by by left.
    - rewrite decide_False by (cbn; congruence). destruct (decide (k ∈ ks)) as [Hin|Hin].
      + by rewrite decide_True by by right.
      + rewrite decide_False; [done|]. by intros [?|?]%elem_of_cons. }
  unfold compose. rewrite H by apply first_seen_NoDup. destruct (decide _) as [Hin|Hin]; [done|].
  rewrite filter_none; [done|]. intros i Hi <-. apply Hin, elem_of_first_seen, list_elem_of_fmap_2, Hi.
Qed.
End Groups.

(** ** A logic of the writer's operations

    [wp m w Φ]: whatever the world answers, [m] takes [w] to a writer and a result
    that satisfy [Φ]. *)

Section Inv.
Context `{UT : !UnicodeTables} `{PL : !PartitionLib} {X : Type} `{IO : !WriterIO X} `{TL : !TakeLaw X}.
Variables (spec : WriterSpec) (part : option partitioner) (maxOpen : nat) (budget : Z) (local : bool).

Definition wp {A} (m : St (writer * X) A) (w : writer) (Φ : writer → A → Prop) : Prop :=
  ∀ x, Φ (m (w, x)).1.1 (m (w, x)).2.
Lemma ww_weaken {A} (m : St (writer * X) A) w Φ Ψ : wp m w Φ → (∀ w' a, Φ w' a → Ψ w' a) → wp m w Ψ.
Proof. intros Hm H x. apply H, Hm. Qed.
Lemma ww_ret {A} (a : A) w (Φ : writer → A → Prop) : Φ w a → wp (mret a) w Φ.
Proof. by intros H x. Qed.
Lemma ww_bind {A B} (m : St (writer * X) A) (f : A → St (writer * X) B) w Φ :
  wp m w (λ w' a, wp (f a) w' Φ) → wp (m ≫= f) w Φ.
Proof.
  intros H x. specialize (H x). unfold mbind, St_bind. destruct (m (w, x)) as [[w' x'] a]. apply H.
Qed.
Lemma ww_io {A} (m : St X A) w (Φ : writer → A → Prop) : (∀ a, Φ w a) → wp (io m) w Φ.
Proof. intros H x. unfold io. cbn. destruct (m x). apply H. Qed.
Lemma ww_get w (Φ : writer → writer → Prop) : Φ w w → wp get w Φ.
Proof. by intros H x. Qed.
Lemma ww_modify f w (Φ : writer → unit → Prop) : Φ (f w) () → wp (modify f) w Φ.
Proof. by intros H x. Qed.
Lemma ww_or_fail what (m : St X (option string)) w (Φ : writer → option werror → Prop) :
  (∀ e, Φ w e) → wp (or_fail what m) w Φ.
Proof. intros H. apply ww_bind, ww_io. intros e. apply ww_ret, H. Qed.
Lemma ww_then (m k : St (writer * X) (option werror)) w Φ :
  wp m w (λ w' e, match e with Some _ => Φ w' e | None => wp k w' Φ end) → wp (then_ m k) w Φ.
Proof. intros H. apply ww_bind. eapply ww_weaken; [exact H|]. intros w' [e|] He; [by apply ww_ret|done]. Qed.
Lemma ww_bind_ok {A} (m : St (writer * X) (result werror A)) k w Φ :
  wp m w (λ w' r, match r with Err e => Φ w' (Some e) | Ok a => wp (k a) w' Φ end) → wp (bind_ok m k) w Φ.
Proof. intros H. apply ww_bind. eapply ww_weaken; [exact H|]. intros w' [a|e] He; [done|by apply ww_ret]. Qed.

Ltac ww_step :=
  lazymatch goal with
  | |- wp (_ ≫= _) _ _ => apply ww_bind
  | |- wp (then_ _ _) _ _ => apply ww_then
  | |- wp (bind_ok _ _) _ _ => apply ww_bind_ok
  | |- wp (mret _) _ _ => apply ww_ret
  | |- wp (io _) _ _ => apply ww_io; intros ?
  | |- wp get _ _ => apply ww_get
  | |- wp (modify _) _ _ => apply ww_modify
  | |- wp (or_fail _ _) _ _ => apply ww_or_fail; intros ?
  | |- wp (if ?b then _ else _) _ _ => destruct b eqn:?
  | |- wp (match ?e with _ => _ end) _ _ => destruct e eqn:?
  end.
Ltac ww_steps := repeat (ww_step; cbv beta iota zeta).

(** Operations that leave the writer as it is. *)
Definition quiet {A} (m : St (writer * X) A) : Prop := ∀ w, wp m w (λ w' _, w' = w).
Lemma ww_quiet {A} (m : St (writer * X) A) w (Φ : writer → A → Prop) : quiet m → (∀ a, Φ w a) → wp m w Φ.
Proof. intros Hm H. eapply ww_weaken; [apply Hm|]. by intros w' a ->. Qed.
Lemma quiet_bind {A B} (m : St (writer * X) A) (f : A → St (writer * X) B) : quiet m → (∀ a, quiet (f a)) → quiet (m ≫= f).
Proof. intros Hm Hf w. apply ww_bind, ww_quiet; [done|]. intros a. apply Hf. Qed.
Lemma quiet_then (m k : St (writer * X) (option werror)) : quiet m → quiet k → quiet (then_ m k).
Proof. intros Hm Hk. apply quiet_bind; [done|]. intros [e|]; [by intros w; apply ww_ret|done]. Qed.

Lemma quiet_abort f : quiet (abort local f).
Proof. intros w. unfold abort, closeSink. ww_steps; done. Qed.
Lemma quiet_abortAll l : quiet (abortAll local l).
Proof. induction l as [|f l IH]; cbn [abortAll]; [by intros w; apply ww_ret|]. apply quiet_bind; [apply quiet_abort|done]. Qed.
Lemma quiet_flush f : quiet (flushRowGroup f).
Proof. intros w. unfold flushRowGroup. by ww_steps. Qed.
Lemma quiet_share f : quiet (flushShare budget f).
Proof. intros w. unfold flushShare. ww_steps; [done|]. apply quiet_flush. Qed.
Lemma quiet_range : quiet range_open.
Proof. intros w. unfold range_open. by ww_steps. Qed.
Lemma quiet_weigh l a b c : quiet (weigh l a b c).
Proof. revert a b c. induction l as [|f l IH]; intros a b c w; cbn [weigh]; ww_steps; [done|]. apply IH. Qed.
Lemma quiet_budget fuel : quiet (enforceBudget budget fuel).
Proof.
  induction fuel as [|fuel IH]; cbn [enforceBudget]; [by intros w; apply ww_ret|].
  apply quiet_bind; [apply quiet_range|]. intros l. apply quiet_bind; [apply quiet_weigh|]. intros [[sum most] [f|]]; [|by intros w; apply ww_ret].
  intros w. ww_steps; [done|]. eapply ww_quiet; [apply quiet_flush|]. intros [e|]; [done|]. apply IH.
Qed.
Lemma quiet_encode f b : quiet (encode f b).
Proof. intros w. unfold encode. by ww_steps. Qed.
Lemma ww_range w (Φ : writer → list dataFile → Prop) : (∀ l, l ≡ₚ w_open w → Φ w l) → wp range_open w Φ.
Proof. intros H. unfold range_open. ww_steps. apply H. by destruct (decide _). Qed.

(** A failure is recorded. *)
Lemma ww_fail e w : wp (fail local e) w (λ w' _, is_Some (w_err w')).
Proof.
  unfold fail. ww_steps. eapply ww_quiet; [apply quiet_abortAll|]. intros _. by destruct w as [? ? ? ? [?|] ? ? ?].
Qed.

(** A file that is finished is recorded; one that is not leaves no trace. *)
Definition finished (f : dataFile) (w w' : writer) : Prop :=
  ∃ n, w' = add_file (MkWrittenFile (f_path f) (f_rows f) n (specID spec) (f_partition f)) (sink_closed f) w.
Lemma ww_finish f w : wp (finish spec local f) w (λ w' e, match e with None => finished f w w' | Some _ => w' = w end).
Proof.
  unfold finish, closeSink. apply ww_bind, ww_or_fail. intros [e|].
  { apply ww_bind. eapply ww_quiet; [apply quiet_abort|]. intros _. by apply ww_ret. }
  apply ww_bind. eapply (ww_weaken _ _ (λ w' _, w' = w)); [by ww_steps|]. intros w' [e|] ->.
  - apply ww_bind. eapply ww_quiet; [apply quiet_abort|]. intros _. by apply ww_ret.
  - ww_steps. by eexists.
Qed.
Lemma ww_openPath path w : wp (openPath spec local path) w (λ w' r, w' = w ∧ ∀ f, r = Ok f → f = new_file path).
Proof.
  unfold openPath. apply ww_bind. eapply (ww_weaken _ _ (λ w' _, w' = w)); [by ww_steps|]. intros w' [e|] ->; [by ww_steps|].
  apply ww_bind, ww_io. intros [e|]; [by ww_steps|]. apply ww_bind, ww_io. intros [e|].
  - apply ww_bind. eapply ww_quiet; [apply quiet_abort|]. intros _. by apply ww_ret.
  - apply ww_ret. split; [done|]. by intros f [= <-].
Qed.

(** ** The invariant *)

#[local] Arguments with_key : simpl never.
#[local] Arguments del : simpl never.
#[local] Arguments put : simpl never.

Definition key_of (b : batch) (i : nat) : string := match part with Some p => row_key p b i | None => EmptyString end.
(** The rows of a batch that belong to key [k], in their order. *)
Definition batch_rows (k : string) (b : batch) : list row := row_at b <$> filter (λ i, key_of b i = k) (seq 0 (b_NumRows b)).
Definition all_files (w : writer) : list dataFile := w_done w ++ option_list (w_cur w) ++ w_open w.
(** The rows held by the files of key [k]. *)
Definition held (k : string) (w : writer) : list row := mjoin (f_content <$> with_key k (all_files w)).
Definition written (wf : WrittenFile) (f : dataFile) : Prop :=
  wf_Path wf = f_path f ∧ wf_Rows wf = wrap64 (Z.of_nat (length (f_content f))) ∧
  wf_SpecID wf = specID spec ∧ wf_Partition wf = f_partition f.
(** The tuple of a file is that of a row with its key; its count is exact up to 64 bits. *)
Definition file_ok (bs : list batch) (f : dataFile) : Prop :=
  f_rows f = wrap64 (Z.of_nat (length (f_content f))) ∧
  match part with
  | Some p => ∃ b i, b ∈ bs ∧ (i < b_NumRows b)%nat ∧ row_key p b i = f_key f ∧ f_partition f = Some (make_tuple (p_fields p) (row_tuple p b i))
  | None => f_key f = EmptyString ∧ f_partition f = None
  end.
Definition next_number (w : writer) : nat := match part with Some _ => w_nextSeq w | None => length (all_files w) end.
Record inv (bs : list batch) (want : string → list row) (w : writer) : Prop := MkInv {
  inv_open : NoDup (f_key <$> w_open w);
  inv_bound : (length (w_open w) ≤ Nat.max 1 maxOpen)%nat;
  inv_mode : match part with Some _ => w_cur w = None | None => w_open w = [] end;
  inv_rows : ∀ k, held k w = want k;
  inv_files : Forall2 written (w_files w) (w_done w);
  inv_each : Forall (file_ok bs) (all_files w);
  inv_names : numbered spec (f_path <$> all_files w) (next_number w);
}.

Lemma inv_weaken bs bs' want want' w : inv bs want w → bs ⊆ bs' → (∀ k, want' k = want k) → inv bs' want' w.
Proof.
  intros [] Hbs Hw. split; try done; [intros k; by rewrite Hw|]. eapply Forall_impl; [done|].
  intros f [H1 H2]. split; [done|]. destruct part; [|done]. destruct H2 as (b & i & Hb & H2). exists b, i. split; [by apply Hbs|done].
Qed.
Lemma inv_tick bs want w t : inv bs want w → inv bs want (set_tick t w).
Proof. by intros []. Qed.
Lemma with_key_app k l l' : with_key k (l ++ l') = with_key k l ++ with_key k l'.
Proof. unfold with_key. by rewrite filter_app. Qed.
Lemma with_key_cons k f l : with_key k (f :: l) = if decide (f_key f = k) then f :: with_key k l else with_key k l.
Proof. unfold with_key. by rewrite filter_cons. Qed.
Lemma held_eq k w : held k w = mjoin (f_content <$> with_key k (w_done w)) ++
  mjoin (f_content <$> with_key k (option_list (w_cur w))) ++ mjoin (f_content <$> with_key k (w_open w)).
Proof. unfold held, all_files. by rewrite !with_key_app, !fmap_app, !join_app. Qed.

(** A file leaves the open ones for the finished ones. *)
Lemma inv_finish_open bs want w w' p f : part = Some p → inv bs want w → f ∈ w_open w →
  finished f (del_open (f_key f) w) w' → inv bs want w' ∧ (length (w_open w') < length (w_open w))%nat.
Proof.
  intros Hp Hi Hf [n ->]. pose proof (del_perm f _ (inv_open _ _ _ Hi) Hf) as Hperm.
  assert (all_files w ≡ₚ f :: w_done w ++ option_list (w_cur w) ++ del (f_key f) (w_open w)) as Hall.
  { unfold all_files. rewrite Hperm at 1. rewrite <-!Permutation_middle. done. }
  assert (file_ok bs f) as Hok.
  { pose proof (inv_each _ _ _ Hi) as He. rewrite Hall in He. by apply Forall_cons in He as [He _]. }
  assert (length (w_open w) = S (length (del (f_key f) (w_open w)))) as Hlen by (by rewrite Hperm at 1).
  split; [|cbn; unfold del in *; lia]. destruct Hi as [H1 H2 H3 H4 H5 H6 H7]. unfold next_number in *. rewrite Hp in *. split; rewrite ?Hp.
  - by apply del_NoDup.
  - cbn. unfold del in *. lia.
  - done.
  - intros k. rewrite <-H4, !held_eq. cbn. rewrite with_key_app, fmap_app, join_app, with_key_del, with_key_cons. cbn. rewrite H3. cbn.
    destruct (decide (k = f_key f)) as [->|Hk].
    + rewrite decide_True by done. rewrite (with_key_in f (w_open w)) by done. cbn. by rewrite !app_nil_r.
    + rewrite decide_False by done. cbn. by rewrite !app_nil_r.
  - cbn. apply Forall2_app; [done|]. constructor; [|constructor]. split_and!; try done. apply Hok.
  - rewrite Hall in H6. apply Forall_cons in H6 as [_ H6]. unfold all_files in *. cbn. rewrite <-app_assoc. cbn.
    rewrite <-Permutation_middle. by constructor.
  - unfold next_number. rewrite Hp. eapply numbered_perm; [|exact H7]. rewrite Hall. unfold all_files. cbn. rewrite <-app_assoc. cbn. by rewrite <-Permutation_middle.
Qed.

Lemma wrap64_add a b : wrap64 (wrap64 a + b) = wrap64 (a + b).
Proof.
  unfold wrap64. f_equal. replace ((a + two63) mod two64 - two63 + b + two63)%Z with ((a + two63) mod two64 + b)%Z by lia.
  rewrite Zplus_mod_idemp_l. f_equal. lia.
Qed.
(** Rows are added to an open file. *)
Definition added (key : string) (rows : list row) (want : string → list row) (k : string) : list row :=
  want k ++ if decide (k = key) then rows else [].
Lemma file_ok_fed bs f sub n t : file_ok bs f → length (rows_of sub) = b_NumRows sub → file_ok bs (fed f sub n t).
Proof.
  intros [H1 H2] Hl. split; [|done]. cbn. by rewrite H1, length_app, Hl, Nat2Z.inj_add, wrap64_add.
Qed.
Lemma length_rows_of b : length (rows_of b) = b_NumRows b.
Proof. unfold rows_of. by rewrite length_fmap, length_seq. Qed.
Lemma inv_fed_open bs want w p f sub n t : part = Some p → inv bs want w → f ∈ w_open w →
  let f' := fed f sub n t in inv bs (added (f_key f) (rows_of sub) want) (put_open f' (set_tick t w)) ∧ f' ∈ put f' (w_open w).
Proof.
  intros Hp Hi Hf f'. pose proof (del_perm f _ (inv_open _ _ _ Hi) Hf) as Hperm.
  pose proof (put_perm f' _ (inv_open _ _ _ Hi)) as Hput. change (f_key f') with (f_key f) in Hput.
  set (rest := w_done w ++ option_list (w_cur w) ++ del (f_key f) (w_open w)).
  assert (all_files w ≡ₚ f :: rest) as Hall.
  { unfold all_files. rewrite Hperm at 1. by rewrite <-!Permutation_middle. }
  assert (all_files (put_open f' (set_tick t w)) ≡ₚ f' :: rest) as Hall'.
  { unfold all_files. cbn. rewrite Hput. by rewrite <-!Permutation_middle. }
  split; [|cbn; rewrite Hput; by left]. destruct Hi as [H1 H2 H3 H4 H5 H6 H7]. split; try done.
  - cbn. by apply put_NoDup.
  - cbn. rewrite Hput. cbn. by rewrite Hperm in H2.
  - by rewrite Hp in *.
  - intros k. unfold added. rewrite <-H4, !held_eq. cbn. rewrite with_key_put by done. rewrite Hp in H3. rewrite H3. cbn.
    destruct (decide (k = _)) as [->|Hk]; [|by rewrite app_nil_r].
    rewrite (with_key_in f (w_open w)) by done. cbn. by rewrite !app_nil_r, <-!app_assoc.
  - rewrite Hall'. rewrite Hall in H6. apply Forall_cons in H6 as [Hf1 H6]. constructor; [|done]. by apply file_ok_fed, length_rows_of.
  - unfold next_number in *. rewrite Hp in *. eapply numbered_perm; [|exact H7]. by rewrite Hall, Hall'.
Qed.
(** A file is opened for a key that has none. *)
Lemma inv_new_open bs want w p f : part = Some p → inv bs want w → (length (w_open w) < Nat.max 1 maxOpen)%nat →
  f_key f ∉ f_key <$> w_open w → f_content f = [] → file_ok bs f → (∃ pre, f_path f = pre +:+ file_name spec (w_nextSeq w)) →
  inv bs want (put_open f (set_nextSeq (S (w_nextSeq w)) w)) ∧ f ∈ put f (w_open w).
Proof.
  intros Hp Hi Hlt Hk Hc Hok [pre Hpath]. pose proof (put_perm f _ (inv_open _ _ _ Hi)) as Hput. rewrite del_absent in Hput by done.
  assert (all_files (put_open f (set_nextSeq (S (w_nextSeq w)) w)) ≡ₚ f :: all_files w) as Hall.
  { unfold all_files. cbn. rewrite Hput. by rewrite <-!Permutation_middle. }
  split; [|cbn; rewrite Hput; by left]. destruct Hi as [H1 H2 H3 H4 H5 H6 H7]. split; try done.
  - cbn. by apply put_NoDup.
  - cbn. rewrite Hput. cbn. lia.
  - by rewrite Hp in *.
  - intros k. rewrite <-H4, !held_eq. cbn. rewrite with_key_put by done. destruct (decide (k = f_key f)) as [->|?]; [|done].
    cbn. rewrite (with_key_absent _ (w_open w)) by done. by rewrite Hc.
  - rewrite Hall. by constructor.
  - unfold next_number in *. rewrite Hp in *. eapply numbered_perm; [by rewrite Hall|]. cbn. rewrite Hpath. by apply numbered_new.
Qed.
(** The same for the one file of a table without partitions. *)
Lemma inv_cur bs want want' f' w : part = None → inv bs want w →
  (∀ k, want' k = mjoin (f_content <$> with_key k (w_done w)) ++ mjoin (f_content <$> with_key k [f'])) →
  file_ok bs f' → (f_path f' ∈ f_path <$> option_list (w_cur w) ∨ w_cur w = None ∧ ∃ pre, f_path f' = pre +:+ file_name spec (length (w_done w))) →
  inv bs want' (set_cur (Some f') w).
Proof.
  intros Hp [H1 H2 H3 H4 H5 H6 H7] Hw Hok Hpath. rewrite Hp in H3. split; try done.
  - by rewrite Hp.
  - intros k. rewrite Hw, held_eq. cbn. rewrite H3. cbn. by rewrite app_nil_r.
  - unfold all_files in *. cbn. rewrite H3 in *. cbn. apply Forall_app in H6 as [H6 _]. apply Forall_app. by split; [|constructor].
  - unfold next_number, all_files in *. rewrite Hp in *. cbn in *. rewrite H3 in *. cbn in *. rewrite app_nil_r in H7.
    destruct Hpath as [Hpath|[Hc [pre Hpath]]].
    + destruct (w_cur w) as [f|]; cbn in *; [|by apply elem_of_nil in Hpath]. apply list_elem_of_singleton in Hpath.
      rewrite fmap_app in *. cbn in *. rewrite Hpath. by rewrite length_app in *.
    + rewrite Hc in H7. cbn in H7. rewrite app_nil_r in H7. rewrite fmap_app, length_app, Nat.add_1_r. cbn. rewrite Hpath.
      eapply numbered_perm; [apply Permutation_cons_append|]. by apply numbered_new.
Qed.
Lemma inv_new_cur bs want w path : part = None → inv bs want w → w_cur w = None →
  (∃ pre, path = pre +:+ file_name spec (length (w_files w))) → inv bs want (set_cur (Some (new_file path)) w).
Proof.
  intros Hp Hi Hc [pre ->]. eapply inv_cur; try done.
  - intros k. destruct Hi as [_ _ H3 H4 _ _ _]. rewrite Hp in H3. rewrite <-H4, held_eq, Hc, H3. rewrite with_key_cons. by case_decide.
  - split; [done|]. by rewrite Hp.
  - right. split; [done|]. exists pre. cbn. by rewrite (Forall2_length _ _ _ (inv_files _ _ _ Hi)).
Qed.
Lemma inv_fed_cur bs want w f sub n t : part = None → inv bs want w → w_cur w = Some f →
  inv bs (added EmptyString (rows_of sub) want) (set_cur (Some (fed f sub n t)) w).
Proof.
  intros Hp Hi Hc. pose proof (inv_each _ _ _ Hi) as He. unfold all_files in He. rewrite Hc, !Forall_app in He.
  destruct He as (_ & Hok & _). apply Forall_cons in Hok as [Hok _]. eapply inv_cur; try done.
  - intros k. destruct Hi as [_ _ H3 H4 _ _ _]. rewrite Hp in H3. unfold added. rewrite <-H4, held_eq, Hc, H3. cbn.
    destruct Hok as [_ Hk]. rewrite Hp in Hk. destruct Hk as [Hk _]. rewrite !with_key_cons. cbn. rewrite Hk.
    destruct (decide (EmptyString = k)) as [<-|Hne]; [rewrite decide_True by done|rewrite decide_False by congruence]; cbn.
    + by rewrite !app_nil_r, app_assoc.
    + by rewrite !app_nil_r.
  - by apply file_ok_fed, length_rows_of.
  - left. rewrite Hc. by left.
Qed.
Lemma inv_finish_cur bs want w w' f : part = None → inv bs want w → w_cur w = Some f →
  finished f (set_cur None w) w' → inv bs want w'.
Proof.
  intros Hp [H1 H2 H3 H4 H5 H6 H7] Hc [n ->]. rewrite Hp in H3. unfold next_number, all_files in *. rewrite Hp, Hc, H3 in *. cbn in *.
  apply Forall_app in H6 as [H6 Hf]. apply Forall_cons in Hf as [Hf _]. split; unfold next_number, all_files; rewrite ?Hp; cbn; rewrite ?H3; try done; try (cbn; lia).
  - intros k. rewrite <-H4, !held_eq, Hc, H3. cbn. rewrite H3, with_key_app, fmap_app, join_app, !with_key_cons. cbn.
    destruct (decide _); cbn; by rewrite ?app_nil_r.
  - apply Forall2_app; [done|]. constructor; [|constructor]. split_and!; try done. apply Hf.
  - rewrite app_nil_r. apply Forall_app. split; [done|]. by constructor.
  - cbn. rewrite app_nil_r, fmap_app, length_app in *. done.
Qed.

(** ** The operations keep it *)

(** The invariant after an operation that succeeded. *)
Definition keeps (w0 : writer) (bs : list batch) (want : string → list row) (w : writer) : Prop :=
  inv bs want w ∧ w_err w = w_err w0.
Definition group_ok (bs : list batch) (p : partitioner) (g : rowGroup) : Prop :=
  ∃ b i, b ∈ bs ∧ (i < b_NumRows b)%nat ∧ row_key p b i = g_key g ∧ g_tuple g = make_tuple (p_fields p) (row_tuple p b i).
Lemma lru_elem l f : lru l = Some f → f ∈ l.
Proof.
  unfold lru. assert (∀ acc, foldl (λ lru f, match lru with None => Some f | Some g => if (f_lastUsed f <? f_lastUsed g)%Z then Some f else Some g end)
    acc l = Some f → f ∈ l ∨ acc = Some f) as H; [|by intros [?|?]%H].
  induction l as [|x l IH]; intros acc; [by right|]. cbn. intros [Hf|Hf]%IH; [left; by right|].
  destruct acc as [g|]; [destruct (_ <? _)%Z|]; try (by right); injection Hf as <-; left; by left.
Qed.
Lemma lru_None l : lru l = None → l = [].
Proof.
  unfold lru. assert (∀ l acc, foldl (λ lru f, match lru with None => Some f | Some g => if (f_lastUsed f <? f_lastUsed g)%Z then Some f else Some g end)
    (Some acc) l ≠ None) as H; [|destruct l as [|f l]; [done|cbn; intros Hn; by apply H in Hn]].
  clear l. intros l. induction l as [|x l IH]; intros acc; [done|]. cbn. by destruct (_ <? _)%Z; apply IH.
Qed.
Lemma ww_evict p bs want w : part = Some p → inv bs want w →
  wp (evictLRU spec local) w (λ w' e, e = None → keeps w bs want w' ∧ w_open w' ⊆ w_open w ∧
    (length (w_open w') < length (w_open w) ∨ w_open w' = [])%nat).
Proof.
  intros Hp Hi. unfold evictLRU. apply ww_bind, ww_range. intros l Hl. destruct (lru l) as [f|] eqn:E.
  - apply lru_elem in E. rewrite Hl in E. ww_steps. eapply ww_weaken; [apply ww_finish|]. intros w' [e|] Hw; [done|]. intros _.
    destruct (inv_finish_open _ _ _ _ _ _ Hp Hi E Hw) as [Hi' Hlt]. destruct Hw as [n ->]. split_and!; [by split| |by left].
    cbn. intros x. unfold del. rewrite list_elem_of_filter. naive_solver.
  - apply lru_None in E. subst l. ww_steps. intros _. split_and!; [by split|done|]. right. by apply Permutation_nil.
Qed.
Lemma ww_openPartition p bs want w g : part = Some p → inv bs want w → g_key g ∉ f_key <$> w_open w → group_ok bs p g →
  wp (openPartition spec maxOpen local p g) w (λ w' r, ∀ f, r = Ok f → keeps w bs want w' ∧ f ∈ w_open w' ∧ f_key f = g_key g).
Proof.
  intros Hp Hi Hk (b & i & Hb & Hlt & Hkey & Htup). unfold openPartition. apply ww_bind, ww_get, ww_bind.
  apply (ww_weaken _ _ (λ w' e, e = None → keeps w bs want w' ∧ w_open w' ⊆ w_open w ∧ (length (w_open w') < Nat.max 1 maxOpen)%nat)).
  { destruct (maxOpen <=? length (w_open w))%nat eqn:E; to_arith.
    - eapply ww_weaken; [by eapply ww_evict|]. intros w' e He Hn. destruct (He Hn) as (H1 & H2 & H3). split_and!; [done..|].
      pose proof (inv_bound _ _ _ Hi). destruct H3 as [?| ->]; cbn; lia.
    - apply ww_ret. intros _. split_and!; [by split|done|]. apply Nat.leb_gt in E. lia. }
  intros w1 [e|] H; [by apply ww_ret|]. destruct (H eq_refl) as ([Hi1 Herr] & Hsub & Hlen). clear H.
  apply ww_bind, ww_get. destruct (checkKeyLength _ _); [by apply ww_ret|]. apply ww_bind. eapply ww_weaken; [apply ww_openPath|].
  intros w2 [f|e] [-> Hf]; [|by apply ww_ret]. rewrite (Hf f eq_refl). ww_steps. intros f' [= <-].
  destruct (inv_new_open bs want w1 p (partition_of (new_file (ws_DataPrefix spec +:+ path p (g_tuple g) +:+ "/" +:+ file_name spec (w_nextSeq w1))) (w_nextSeq w1) g)) as [H1 H2]; try done.
  - cbn. intros Hin. apply Hk. apply list_elem_of_fmap in Hin as (h & -> & Hh). apply list_elem_of_fmap_2. by apply Hsub.
  - split; [done|]. rewrite Hp. exists b, i. cbn. by rewrite Htup.
  - exists (ws_DataPrefix spec +:+ path p (g_tuple g) +:+ "/"). cbn. by rewrite !str_app_assoc.
Qed.
Lemma ww_group_file p bs want w g : part = Some p → inv bs want w → group_ok bs p g →
  wp (group_file spec maxOpen local p g) w (λ w' r, ∀ f, r = Ok f → keeps w bs want w' ∧ f ∈ w_open w' ∧ f_key f = g_key g).
Proof.
  intros Hp Hi Hg. unfold group_file. apply ww_bind, ww_get. destruct (open_at _ _) as [f|] eqn:E.
  - apply open_at_Some in E as [Hf Hk]. apply ww_ret. intros f' [= <-]. by split; [split|].
  - apply open_at_None in E. by eapply ww_openPartition.
Qed.
Lemma ww_io_post {A} (m : St X A) w (Φ : writer → A → Prop) : (∀ x, Φ w (m x).2) → wp (io m) w Φ.
Proof. intros H x. specialize (H x). unfold io. cbn. by destruct (m x). Qed.
Lemma ww_subBatch p rec g bytes w : g ∈ groups_of p (r_batch rec) (seq 0 (rec_rows rec)) →
  wp (subBatch rec g bytes) w (λ w' r, w' = w ∧ ∀ sub n, r = Ok (sub, n) → rows_of sub = row_at (r_batch rec) <$> g_rows g).
Proof.
  intros Hg. apply list_elem_of_fmap in Hg as (k & -> & _). unfold subBatch. cbn [g_rows group_of].
  set (rows := filter _ _). destruct (filter_seq_ascending (λ i, row_key p (r_batch rec) i = k) 0 (rec_rows rec)) as [Hasc _].
  fold rows in Hasc. destruct (_ =? _)%nat eqn:En.
  { apply ww_ret. split; [done|]. intros sub n [= <- _]. apply Nat.eqb_eq in En. unfold rows_of. f_equal. unfold rows.
    rewrite filter_full; [done|]. fold rows. by rewrite length_seq. }
  destruct (contiguous _) eqn:Ec.
  { apply ww_ret. split; [done|]. intros sub n [= <- _]. rewrite rows_of_slice. f_equal. symmetry.
    by apply (contiguous_rows (group_of p (r_batch rec) (seq 0 (rec_rows rec)) k)). }
  apply ww_bind, ww_io_post. intros x. apply ww_ret. split; [done|]. intros sub n. destruct (ar_Take _ _ x).2 as [s|e] eqn:E; [|done].
  intros [= <- _]. by eapply take_rows.
Qed.
Lemma ww_after_write p bs want w f sub n : part = Some p → inv bs want w → f ∈ w_open w →
  wp (after_write spec budget local f sub n) w (λ w' e, e = None → keeps w bs (added (f_key f) (rows_of sub) want) w').
Proof.
  intros Hp Hi Hf. unfold after_write. apply ww_bind, ww_get. cbv zeta. set (t := ((w_tick w + 1) mod two64)%Z).
  destruct (inv_fed_open bs want w p f sub n t Hp Hi Hf) as [Hi' Hf']. apply ww_bind, ww_modify, ww_then.
  apply (ww_weaken _ _ (λ w' e, e = None → keeps w bs (added (f_key f) (rows_of sub) want) w')).
  - destruct (rotate _ _); [|by apply ww_ret; intros _; split]. apply ww_bind, ww_modify. eapply ww_weaken; [apply ww_finish|]. intros w' [e|] Hw Hn; [done|].
    destruct (inv_finish_open _ _ _ _ _ _ Hp Hi' Hf' Hw) as [Hi'' _]. destruct Hw as [k ->]. by split.
  - intros w' [e|] H; [done|]. apply ww_bind, ww_get. eapply ww_quiet; [apply quiet_budget|]. intros e _. by apply H.
Qed.
Lemma ww_writeGroup p bs want w rec g bytes : part = Some p → inv bs want w → g ∈ groups_of p (r_batch rec) (seq 0 (rec_rows rec)) →
  group_ok bs p g →
  wp (writeGroup spec maxOpen budget local p rec g bytes) w (λ w' e, e = None →
    keeps w bs (added (g_key g) (row_at (r_batch rec) <$> g_rows g) want) w').
Proof.
  intros Hp Hi Hg Hok. unfold writeGroup. apply ww_bind_ok. eapply ww_weaken; [by apply (ww_subBatch p)|].
  intros w' [[sub n]|e] [-> Hsub]; [|done]. rewrite <-(Hsub sub n eq_refl). apply ww_bind_ok.
  eapply ww_weaken; [by eapply ww_group_file|]. intros w1 [f|e] H; [|done]. destruct (H f eq_refl) as ([Hi1 He] & Hf & <-). clear H.
  apply ww_then. eapply ww_quiet; [apply quiet_share|]. intros [e|]; [done|]. apply ww_then.
  eapply ww_quiet; [apply quiet_encode|]. intros [e|]; [done|]. eapply ww_weaken; [by eapply ww_after_write|].
  intros w2 e H Hn. destruct (H Hn) as [Hi2 He2]. split; [done|congruence].
Qed.
Lemma ww_writeGroups p bs want w rec gs bytes : part = Some p → inv bs want w →
  (∀ g, g ∈ gs → g ∈ groups_of p (r_batch rec) (seq 0 (rec_rows rec)) ∧ group_ok bs p g) →
  wp (writeGroups spec maxOpen budget local p rec gs bytes) w (λ w' e, e = None →
    keeps w bs (λ k, want k ++ group_rows (r_batch rec) k gs) w').
Proof.
  intros Hp. revert want w. induction gs as [|g gs IH]; intros want w Hi Hgs; cbn [writeGroups].
  - apply ww_ret. intros _. split; [|done]. eapply inv_weaken; [done..|]. intros k. by rewrite app_nil_r.
  - destruct (Hgs g) as [Hg Hok]; [by left|]. apply ww_then. eapply ww_weaken; [by eapply ww_writeGroup|].
    intros w1 [e|] H; [done|]. destruct (H eq_refl) as [Hi1 He1]. eapply ww_weaken; [apply IH; [done|]|].
    { intros g' Hg'. apply Hgs. by right. }
    intros w2 e H2 Hn. destruct (H2 Hn) as [Hi2 He2]. split; [|congruence]. eapply inv_weaken; [done..|]. intros k.
    unfold added, group_rows. rewrite fmap_cons, join_cons, app_assoc. f_equal. f_equal.
    by destruct (decide (g_key g = k)), (decide (k = g_key g)).
Qed.
Lemma groups_ok p rec bs g : r_batch rec ∈ bs → g ∈ groups_of p (r_batch rec) (seq 0 (rec_rows rec)) → group_ok bs p g.
Proof.
  intros Hb Hg. apply list_elem_of_fmap in Hg as (k & -> & Hk). rewrite elem_of_first_seen in Hk. apply list_elem_of_fmap in Hk as (i & -> & Hi).
  unfold group_of. set (rows := filter _ _). assert (i ∈ rows) as Hin by by apply list_elem_of_filter.
  assert (∃ j, head rows = Some j ∧ j ∈ rows) as (j & Hj & Hjr).
  { destruct rows as [|j rows]; [by apply elem_of_nil in Hin|]. exists j. split; [done|by left]. }
  apply list_elem_of_filter in Hjr as [Hjk Hjs]. apply elem_of_seq in Hjs. exists (r_batch rec), j.
  cbn [g_key g_tuple]. rewrite Hj. cbn [default]. split_and!; [done| |done..]. unfold rec_rows in Hjs. lia.
Qed.
(** The rows of one more batch. *)
Definition grown (b : batch) (want : string → list row) (k : string) : list row := want k ++ batch_rows k b.
Lemma ww_writePartitioned p bs want w rec : part = Some p → inv (bs ++ [r_batch rec]) want w →
  wp (writePartitioned spec maxOpen budget local p rec) w (λ w' e, e = None → keeps w (bs ++ [r_batch rec]) (grown (r_batch rec) want) w').
Proof.
  intros Hp Hi. unfold writePartitioned, split.
  assert (split_rows p (r_batch rec) (seq 0 (b_NumRows (r_batch rec))) [] = _) as -> by apply (split_rows_spec p (r_batch rec) []).
  destruct (mapM_res _ _) as [vals|e]; cbn [mbind result_bind]; [|by apply ww_ret].
  eapply ww_weaken; [apply (ww_writeGroups p); [done..|]|].
  - intros g Hg. split; [done|]. eapply groups_ok; [|done]. apply elem_of_app. right. by left.
  - intros w' e H Hn. destruct (H Hn) as [Hi' He]. split; [|done]. eapply inv_weaken; [done..|]. intros k. unfold grown, batch_rows, key_of.
    rewrite Hp. by rewrite group_rows_of.
Qed.
Lemma batch_rows_unpartitioned b k : part = None → batch_rows k b = if decide (k = EmptyString) then rows_of b else [].
Proof.
  intros Hp. unfold batch_rows, key_of. rewrite Hp. destruct (decide (k = EmptyString)) as [->|Hk].
  - unfold rows_of. f_equal. by apply filter_every.
  - rewrite filter_none; [done|]. intros i _. congruence.
Qed.
Lemma ww_cur_file bs want w : part = None → inv bs want w →
  wp (cur_file spec local) w (λ w' r, w' = w ∧ ∀ f, r = Ok f → inv bs want (set_cur (Some f) w)).
Proof.
  intros Hp Hi. unfold cur_file. apply ww_bind, ww_get. destruct (w_cur w) as [f|] eqn:Hc.
  - apply ww_ret. split; [done|]. intros f' [= <-]. replace (set_cur (Some f) w) with w; [done|]. destruct w; cbn in *. by subst.
  - eapply ww_weaken; [apply ww_openPath|]. intros w' r [-> Hf]. split; [done|]. intros f ->. rewrite (Hf f eq_refl).
    apply inv_new_cur; try done. by eexists.
Qed.
Lemma ww_writeRecord bs want w rec : inv bs want w →
  wp (writeRecord spec part maxOpen budget local rec) w (λ w' e, e = None → keeps w (bs ++ [r_batch rec]) (grown (r_batch rec) want) w').
Proof.
  intros Hi0. assert (inv (bs ++ [r_batch rec]) want w) as Hi.
  { eapply inv_weaken; [done| |done]. intros x Hx. apply elem_of_app. by left. }
  unfold writeRecord. destruct (rec_rows rec =? 0)%nat eqn:En.
  { apply ww_ret. intros _. split; [|done]. eapply inv_weaken; [done..|]. intros k. unfold grown, batch_rows.
    apply Nat.eqb_eq in En. unfold rec_rows in En. rewrite En. by rewrite app_nil_r. }
  destruct part as [p|] eqn:Hp; [by apply ww_writePartitioned|].
  apply ww_bind_ok. eapply ww_weaken; [by apply ww_cur_file|]. intros w' [f|e] [-> Hf]; [|done]. pose proof (Hf f eq_refl) as Hi1. clear Hf.
  apply ww_bind, ww_modify, ww_then. eapply ww_quiet; [apply quiet_encode|]. intros [e|]; [done|]. cbv zeta. apply ww_bind, ww_modify.
  pose proof (inv_fed_cur _ _ _ f (r_batch rec) (recordBytes rec) 0 Hp Hi1 eq_refl) as Hi2.
  assert (inv (bs ++ [r_batch rec]) (grown (r_batch rec) want) (set_cur (Some (fed f (r_batch rec) (recordBytes rec) 0)) w)) as Hi3.
  { eapply inv_weaken; [exact Hi2|done|]. intros k. unfold grown, added. by rewrite batch_rows_unpartitioned. }
  destruct (rotate _ _); [|by apply ww_ret; intros _; split].
  apply ww_bind, ww_modify. eapply ww_weaken; [apply ww_finish|]. intros w' [e|] Hw Hn; [done|].
  split; [by eapply inv_finish_cur|]. by destruct Hw as [n ->].
Qed.
Lemma inv_cancel bs want w e : inv bs want w → inv bs want (cancel e w).
Proof. by intros []. Qed.
Lemma ww_check w : wp (check_alive local) w (λ w' _, w_err w' = None → w' = w).
Proof.
  unfold check_alive. apply ww_bind, ww_get. destruct (w_err w) as [e|] eqn:E; [by apply ww_ret|].
  destruct (w_cause w); [|by apply ww_ret]. eapply ww_weaken; [apply ww_fail|]. intros w' _ [x Hx] Hn. congruence.
Qed.
(** A failed step leaves the writer failed. *)
Lemma ww_or_fail_step (m : St (writer * X) (option werror)) w (Φ : writer → Prop) :
  wp m w (λ w' e, e = None → Φ w') → wp (e ← m; match e with Some e => fail local e | None => mret () end) w (λ w' _, w_err w' = None → Φ w').
Proof.
  intros H. apply ww_bind. eapply ww_weaken; [exact H|]. intros w' [e|] He; [|by apply ww_ret; intros _; apply He].
  eapply ww_weaken; [apply ww_fail|]. intros w2 _ [x Hx] Hn. congruence.
Qed.
Lemma ww_process bs want w rec : (w_err w = None → inv bs want w) →
  wp (process spec part maxOpen budget local rec) w (λ w' _, w_err w' = None →
    w_err w = None ∧ inv (bs ++ [r_batch rec]) (grown (r_batch rec) want) w').
Proof.
  intros Hi. unfold process. apply ww_bind. eapply ww_weaken; [apply ww_check|]. intros w1 [] H1. apply ww_bind, ww_get.
  destruct (w_err w1) as [e|] eqn:E; [by apply ww_ret; intros Hn; rewrite E in Hn|]. specialize (H1 eq_refl); subst w1. apply ww_or_fail_step.
  eapply ww_weaken; [apply ww_writeRecord, Hi, E|]. intros w2 e H Hn. by destruct (H Hn) as [Hi2 _].
Qed.
(** The writer after its last file. *)
Definition closed (bs : list batch) (want : string → list row) (w : writer) : Prop :=
  inv bs want w ∧ w_cur w = None ∧ w_open w = [].
Lemma ww_finish_files p bs want w files : part = Some p → inv bs want w → files ≡ₚ w_open w →
  wp (finish_files spec local files) w (λ w' _, w_err w' = None → closed bs want w').
Proof.
  intros Hp. revert w. induction files as [|f files IH]; intros w Hi Hf; cbn [finish_files].
  - apply ww_modify. intros _. split; [by apply inv_cancel|]. pose proof (inv_mode _ _ _ Hi) as Hm. rewrite Hp in Hm. split; [done|].
    by apply Permutation_nil_l in Hf.
  - apply ww_bind, ww_modify, ww_bind. assert (f ∈ w_open w) as Hin by (rewrite <-Hf; by left).
    eapply ww_weaken; [apply ww_finish|]. intros w' [e|] Hw.
    + eapply ww_weaken; [apply ww_fail|]. intros w2 _ [x Hx] Hn. congruence.
    + destruct (inv_finish_open _ _ _ _ _ _ Hp Hi Hin Hw) as [Hi' _]. apply IH; [done|]. destruct Hw as [n ->]. cbn.
      rewrite (del_perm f _ (inv_open _ _ _ Hi) Hin) in Hf. by apply Permutation_cons_inv in Hf.
Qed.
Lemma ww_finishLast bs want w : (w_err w = None → inv bs want w) →
  wp (finishLast spec part local) w (λ w' _, w_err w' = None → w_err w = None ∧ closed bs want w').
Proof.
  intros Hi. unfold finishLast. apply ww_bind. eapply ww_weaken; [apply ww_check|]. intros w1 [] H1. apply ww_bind, ww_get.
  destruct (w_err w1) as [e|] eqn:E; [by apply ww_ret; intros Hn; rewrite E in Hn|]. specialize (H1 eq_refl); subst w1. specialize (Hi E).
  apply (ww_weaken _ _ (λ w' _, w_err w' = None → closed bs want w')); [|by auto]. pose proof (inv_mode _ _ _ Hi) as Hm.
  destruct part as [p|] eqn:Hp.
  - unfold finishOpen. apply ww_bind, ww_range. intros l Hl. eapply ww_finish_files; [done..|]. by rewrite merge_sort_Permutation.
  - destruct (w_cur w) as [f|] eqn:Hc; [|by apply ww_ret]. apply ww_bind, ww_modify, ww_bind. eapply ww_weaken; [apply ww_finish|].
    intros w' [e|] Hw.
    + eapply ww_weaken; [apply ww_fail|]. intros w2 _ [x Hx] Hn. congruence.
    + apply ww_modify. intros _. split; [by eapply inv_cancel, inv_finish_cur|]. by destruct Hw as [n ->].
Qed.
Lemma inv_start : inv [] (λ _, []) new_writer.
Proof.
  split; unfold next_number, all_files; cbn; try done; try lia; [constructor|by destruct part|].
  exists []. split_and!; [constructor..|]. constructor.
Qed.
End Inv.
