(* ===== verification/WriterRun.v ===== *)
(** * WriterRun: writers and callers of one table, interleaved
      (pkg/datagateway/goplane/writer.go: Write, Close, Abort, drain, run)

    The steps are the critical sections: a sender registers, sends or gives up,
    and leaves; Close and Abort stop admission; the goroutine receives a batch,
    drains and exits.  A batch is one step of the goroutine: what it does touches
    nothing the senders touch but the lifetime context, whose end is read at the
    start of a batch (a call that fails because of it is one of the failures the
    world may answer with).  A sender that passed the check of the lifetime
    context may register although it ended since, so registration asks only that
    admission is not closed. *)

From S2P Require Import Prelude Partition TableWriter WriterInv.

Section Run.
Context `{UT : !UnicodeTables} `{PL : !PartitionLib} {X : Type} `{IO : !WriterIO X}.
Variables (spec : WriterSpec) (part : option partitioner) (maxOpen : nat) (budget : Z) (local : bool).

(** Where [run] is: its select, waiting for the senders, processing ([finish])
    or releasing what was left in the channel, done. *)
Inductive phase : Type :=
| Loop
| Draining (finish : bool)
| Emptying (finish : bool) (recs : list RecordBatch)
| Exited.
Record system := MkSystem {
  s_writer : writer;
  s_world : X;
  s_ch : list RecordBatch;
  s_senders : list RecordBatch;  (** registered, in their select *)
  s_leaving : nat;  (** out of their select, still counted in [sending] *)
  s_closing : bool;
  s_phase : phase;
  s_accepted : list RecordBatch;  (** ghost: every batch a Write returned nil for *)
  s_processed : list RecordBatch;  (** ghost: every batch given to [process] *)
}.
Definition sending (s : system) : nat := length (s_senders s) + s_leaving s.
Definition start (x : X) : system := MkSystem new_writer x [] [] 0 false Loop [] [].

Definition with_writer (wx : writer * X) (s : system) : system :=
  MkSystem wx.1 wx.2 (s_ch s) (s_senders s) (s_leaving s) (s_closing s) (s_phase s) (s_accepted s) (s_processed s).
Definition with_phase (p : phase) (s : system) : system :=
  MkSystem (s_writer s) (s_world s) (s_ch s) (s_senders s) (s_leaving s) (s_closing s) p (s_accepted s) (s_processed s).
Definition with_ch (ch : list RecordBatch) (s : system) : system :=
  MkSystem (s_writer s) (s_world s) ch (s_senders s) (s_leaving s) (s_closing s) (s_phase s) (s_accepted s) (s_processed s).
Definition with_senders (l : list RecordBatch) (leaving : nat) (s : system) : system :=
  MkSystem (s_writer s) (s_world s) (s_ch s) l leaving (s_closing s) (s_phase s) (s_accepted s) (s_processed s).
Definition accept (rec : RecordBatch) (s : system) : system :=
  MkSystem (s_writer s) (s_world s) (s_ch s) (s_senders s) (s_leaving s) (s_closing s) (s_phase s) (s_accepted s ++ [rec]) (s_processed s).
Definition processed (rec : RecordBatch) (s : system) : system :=
  MkSystem (s_writer s) (s_world s) (s_ch s) (s_senders s) (s_leaving s) (s_closing s) (s_phase s) (s_accepted s) (s_processed s ++ [rec]).
Definition stopAdmission (s : system) : system :=
  MkSystem (s_writer s) (s_world s) (s_ch s) (s_senders s) (s_leaving s) true (s_phase s) (s_accepted s) (s_processed s).
Definition do_process (rec : RecordBatch) (s : system) : system :=
  processed rec (with_writer (process spec part maxOpen budget local rec (s_writer s, s_world s)).1 s).

(** What callers do: a Write begins, or gives up because its own context ended;
    Close or Abort stops admission; Abort, or the plane, ends the lifetime. *)
Inductive call_step (s : system) : system → Prop :=
| call_Write rec : s_closing s = false → checkRecord spec (Some rec) = None →
    call_step s (with_senders (s_senders s ++ [rec]) (s_leaving s) s)
| call_ctx_done l1 rec l2 : s_senders s = l1 ++ rec :: l2 → call_step s (with_senders (l1 ++ l2) (S (s_leaving s)) s)
| call_stop : call_step s (stopAdmission s)
| call_cancel e : e = errAborted ∨ e = Canceled → call_step s (with_writer (cancel e (s_writer s), s_world s) s).
(** What follows by itself. *)
Inductive run_step (s : system) : system → Prop :=
| send l1 rec l2 : s_senders s = l1 ++ rec :: l2 → (length (s_ch s) < channelBatches)%nat →
    run_step s (accept rec (with_ch (s_ch s ++ [rec]) (with_senders (l1 ++ l2) (S (s_leaving s)) s)))
| gives_up l1 rec l2 : s_senders s = l1 ++ rec :: l2 → s_closing s = true ∨ w_cause (s_writer s) ≠ None →
    run_step s (with_senders (l1 ++ l2) (S (s_leaving s)) s)
| leave n : s_leaving s = S n → run_step s (with_senders (s_senders s) n s)
| receive rec ch : s_phase s = Loop → s_ch s = rec :: ch → run_step s (do_process rec (with_ch ch s))
| on_closing : s_phase s = Loop → s_closing s = true → run_step s (with_phase (Draining true) s)
| on_done : s_phase s = Loop → w_cause (s_writer s) ≠ None →
    run_step s (with_phase (Draining false) (stopAdmission
      (with_writer (fail local (failure (s_writer s)) (s_writer s, s_world s)).1 s)))
| drain finish : s_phase s = Draining finish → sending s = 0%nat → run_step s (with_phase (Emptying finish (s_ch s)) (with_ch [] s))
| process_left rec recs : s_phase s = Emptying true (rec :: recs) → run_step s (with_phase (Emptying true recs) (do_process rec s))
| release_left rec recs : s_phase s = Emptying false (rec :: recs) → run_step s (with_phase (Emptying false recs) s)
| finish_last : s_phase s = Emptying true [] →
    run_step s (with_phase Exited (with_writer (finishLast spec part local (s_writer s, s_world s)).1 s))
| exit : s_phase s = Emptying false [] → run_step s (with_phase Exited s).
Definition step (s s' : system) : Prop := call_step s s' ∨ run_step s s'.
Definition reachable (s : system) : Prop := ∃ x, rtc step (start x) s.
(** The result of a Close that waited for the goroutine. *)
Definition Close_result (s : system) : result werror (list WrittenFile) :=
  match w_err (s_writer s) with Some e => Err e | None => Ok (w_files (s_writer s)) end.
End Run.

(** ** The invariant *)

Section Proofs.
Context `{UT : !UnicodeTables} `{PL : !PartitionLib} {X : Type} `{IO : !WriterIO X} `{TL : !TakeLaw X}.
Variables (spec : WriterSpec) (part : option partitioner) (maxOpen : nat) (budget : Z) (local : bool).
Abbreviation step := (step spec part maxOpen budget local).
Abbreviation run_step := (run_step spec part maxOpen budget local).
Abbreviation call_step := (call_step spec).
Abbreviation reachable := (reachable spec part maxOpen budget local).

(** The rows of these batches that belong to key [k]. *)
Definition rows_with (recs : list RecordBatch) (k : string) : list row := mjoin ((λ rec, batch_rows part k (r_batch rec)) <$> recs).
Definition writes (recs : list RecordBatch) (w : writer) : Prop := inv spec part maxOpen (r_batch <$> recs) (rows_with recs) w.
Definition idle (s : system (X := X)) : Prop := s_closing s = true ∧ s_senders s = [] ∧ s_leaving s = 0%nat ∧ s_ch s = [].
(** What each phase says of the channel and of the batches that are left. *)
Definition phase_ok (s : system (X := X)) : Prop :=
  match s_phase s with
  | Loop => s_accepted s = s_processed s ++ s_ch s
  | Draining finish => s_closing s = true ∧
      if finish then s_accepted s = s_processed s ++ s_ch s else w_err (s_writer s) ≠ None
  | Emptying finish recs => idle s ∧ if finish then s_accepted s = s_processed s ++ recs else w_err (s_writer s) ≠ None
  | Exited => idle s ∧ (w_err (s_writer s) = None →
      s_accepted s = s_processed s ∧ w_cur (s_writer s) = None ∧ w_open (s_writer s) = [])
  end.
Definition system_ok (s : system (X := X)) : Prop :=
  (w_err (s_writer s) = None → writes (s_processed s) (s_writer s)) ∧ phase_ok s ∧ (length (s_ch s) ≤ channelBatches)%nat.

Lemma rows_with_snoc recs rec k : rows_with (recs ++ [rec]) k = grown part (r_batch rec) (rows_with recs) k.
Proof. unfold rows_with, grown. rewrite fmap_app, join_app, fmap_cons, join_cons. cbn. by rewrite app_nil_r. Qed.
Lemma process_writes recs rec w x : (w_err w = None → writes recs w) →
  let w' := (process spec part maxOpen budget local rec (w, x)).1.1 in
  w_err w' = None → w_err w = None ∧ writes (recs ++ [rec]) w'.
Proof.
  intros Hw w' Hn. destruct (ww_process spec part maxOpen budget local _ _ w rec Hw x Hn) as [He Hi]. split; [done|].
  unfold writes. rewrite fmap_app. eapply inv_weaken; [done..|]. intros k. apply rows_with_snoc.
Qed.
Lemma finishLast_writes recs w x : (w_err w = None → writes recs w) →
  let w' := (finishLast spec part local (w, x)).1.1 in
  w_err w' = None → w_err w = None ∧ writes recs w' ∧ w_cur w' = None ∧ w_open w' = [].
Proof. intros Hw w' Hn. destruct (ww_finishLast spec part maxOpen local _ _ w Hw x Hn) as [He Hc]. by split. Qed.
Lemma fail_err e w (x : X) : is_Some (w_err (fail local e (w, x)).1.1).
Proof. exact (ww_fail local e w x). Qed.

Lemma start_ok (x : X) : system_ok (start x).
Proof. split; [|by split; [|cbn; lia]]. intros _. eapply inv_weaken; [apply inv_start|done|done]. Qed.
Lemma call_step_ok s s' : system_ok s → call_step s s' → system_ok s'.
Proof.
  intros (Hw & Hp & Hl) Hs. destruct Hs as [rec Hc _|l1 rec l2 E| |e _].
  - split_and!; [done| |done]. unfold phase_ok, idle in *. cbn. rewrite Hc in *. destruct (s_phase s); naive_solver.
  - split_and!; [done| |done]. unfold phase_ok, idle in *. cbn. rewrite E in *. destruct (s_phase s); try done.
    all: destruct Hp as [(_ & Hnil & _) _]; by destruct l1.
  - split_and!; [done| |done]. unfold phase_ok, idle in *. cbn. destruct (s_phase s); naive_solver.
  - split_and!; [|done..]. cbn. intros Hn. by apply inv_cancel, Hw.
Qed.
Lemma writer_step_ok s s' : system_ok s → run_step s s' → system_ok s'.
Proof.
  intros (Hw & Hp & Hl) Hs. unfold system_ok, phase_ok, idle in *. destruct Hs as [l1 rec l2 E Hch|l1 rec l2 E _|n E|rec ch E Ech|E Ec|E Ec|fin E Es|rec recs E|rec recs E|E|E]; cbn.
  - rewrite E in *. split_and!; [done| |rewrite length_app; cbn; unfold channelBatches in *; lia].
    destruct (s_phase s) as [|[]|fin recs|]; cbn.
    + by rewrite Hp, app_assoc.
    + destruct Hp as [Hc Hp]. split; [done|]. by rewrite Hp, app_assoc.
    + done.
    + destruct Hp as [(_ & Hnil & _) _]. by destruct l1.
    + destruct Hp as [(_ & Hnil & _) _]. by destruct l1.
  - rewrite E in *. split_and!; [done| |done]. destruct (s_phase s); try done.
    all: destruct Hp as [(_ & Hnil & _) _]; by destruct l1.
  - split_and!; [done| |done]. rewrite E in *. destruct (s_phase s); naive_solver.
  - rewrite E in *. rewrite Ech in *. cbn in Hl. split_and!; [|by rewrite Hp, <-app_assoc|lia].
    intros Hn. by apply (process_writes _ _ _ (s_world s) Hw).
  - rewrite E in *. by split_and!.
  - split_and!; [|done| |done].
    + intros Hn. destruct (fail_err (failure (s_writer s)) (s_writer s) (s_world s)) as [e He]. congruence.
    + destruct (fail_err (failure (s_writer s)) (s_writer s) (s_world s)) as [e He]. by rewrite He.
  - rewrite E in *. destruct Hp as [Hc Hp]. unfold sending in Es. destruct (s_senders s) eqn:Esd; cbn in Es; [|lia].
    split_and!; try done. unfold channelBatches. lia.
  - rewrite E in *. destruct Hp as [(Hi1 & Hi2 & Hi3 & Hi4) Hp]. split_and!; try done.
    + intros Hn. by apply (process_writes _ _ _ (s_world s) Hw).
    + by rewrite Hp, <-app_assoc.
  - rewrite E in *. destruct Hp as [(Hi1 & Hi2 & Hi3 & Hi4) Hp]. by split_and!.
  - rewrite E in *. destruct Hp as [(Hi1 & Hi2 & Hi3 & Hi4) Hp]. split_and!; try done; intros Hn.
    + by apply (finishLast_writes _ _ (s_world s) Hw).
    + destruct (finishLast_writes _ _ (s_world s) Hw Hn) as (_ & _ & Hcl). split; [|done]. by rewrite Hp, app_nil_r.
  - rewrite E in *. destruct Hp as [(Hi1 & Hi2 & Hi3 & Hi4) Hp]. by split_and!.
Qed.
Lemma writer_reachable_ok s : reachable s → system_ok s.
Proof.
  intros [x H]. cut (∀ a b, rtc step a b → system_ok a → system_ok b); [intros Hc; by eapply Hc; [|apply start_ok]|].
  intros a b Hr. induction Hr as [|a b c Hs _ IH]; [done|]. intros Ha. apply IH. destruct Hs; [by eapply call_step_ok|by eapply writer_step_ok].
Qed.
End Proofs.

(** ** What Close and Abort promise *)

Section Promises.
Context `{UT : !UnicodeTables} `{PL : !PartitionLib} {X : Type} `{IO : !WriterIO X}.
Variables (spec : WriterSpec) (part : option partitioner) (maxOpen : nat) (budget : Z) (local : bool).
Abbreviation step := (step spec part maxOpen budget local).
Abbreviation run_step := (run_step spec part maxOpen budget local).
Abbreviation call_step := (call_step spec).
Abbreviation reachable := (reachable spec part maxOpen budget local).

(** The finished files hold the rows of these batches: every file is recorded with
    its path, its row count and its tuple; the files of a key hold, in order,
    exactly the rows with that key; no two files have the same path. *)
Definition complete (recs : list RecordBatch) (w : writer) : Prop :=
  Forall2 (written spec) (w_files w) (w_done w) ∧
  (∀ k, mjoin (f_content <$> with_key k (w_done w)) = rows_with part recs k) ∧
  Forall (file_ok part (r_batch <$> recs)) (w_done w) ∧
  NoDup (f_path <$> w_done w).

(** *** A lifetime that ended *)

Lemma process_doomed rec w (x : X) : w_err w ≠ None ∨ w_cause w ≠ None → w_err (process spec part maxOpen budget local rec (w, x)).1.1 ≠ None.
Proof.
  intros Hd. assert (wp (process spec part maxOpen budget local rec) w (λ w' _, w_err w' ≠ None)) as Hwp; [|exact (Hwp x)].
  unfold process, check_alive. apply ww_bind, ww_bind, ww_get. destruct (w_err w) as [e|] eqn:E.
  - apply ww_ret, ww_bind, ww_get. rewrite E. apply ww_ret. by rewrite E.
  - destruct (w_cause w); [|by destruct Hd]. eapply ww_weaken; [apply ww_fail|]. intros w' _ [e' He]. apply ww_bind, ww_get. rewrite He.
    apply ww_ret. by rewrite He.
Qed.
Lemma finishLast_doomed w (x : X) : w_err w ≠ None ∨ w_cause w ≠ None → w_err (finishLast spec part local (w, x)).1.1 ≠ None.
Proof.
  intros Hd. assert (wp (finishLast spec part local) w (λ w' _, w_err w' ≠ None)) as Hwp; [|exact (Hwp x)].
  unfold finishLast, check_alive. apply ww_bind, ww_bind, ww_get. destruct (w_err w) as [e|] eqn:E.
  - apply ww_ret, ww_bind, ww_get. rewrite E. apply ww_ret. by rewrite E.
  - destruct (w_cause w); [|by destruct Hd]. eapply ww_weaken; [apply ww_fail|]. intros w' _ [e' He]. apply ww_bind, ww_get. rewrite He.
    apply ww_ret. by rewrite He.
Qed.
(** The goroutine has neither failed nor finished its last files. *)
Definition unfinished (p : phase) : Prop := match p with Loop | Draining true | Emptying true _ => True | _ => False end.
Definition doomed (s : system (X := X)) : Prop := w_err (s_writer s) ≠ None ∨ (w_cause (s_writer s) ≠ None ∧ unfinished (s_phase s)).
Lemma doomed_step s s' : step s s' → doomed s → doomed s'.
Proof.
  unfold doomed. intros [Hs|Hs].
  - destruct Hs as [| | |e _]; cbn; try done. intros [He|[Hc Hp]]; [by left|]. right. split; [|done]. by destruct (w_cause (s_writer s)).
  - destruct Hs as [| | |rec ch E Ech|E Ec|E Ec|fin E Es|rec recs E|rec recs E|E|E]; cbn; intros Hd; try done.
    + left. apply process_doomed. destruct Hd as [?|[? _]]; auto.
    + destruct Hd as [?|[? _]]; auto.
    + left. destruct (fail_err local (failure (s_writer s)) (s_writer s) (s_world s)) as [e He]. by rewrite He.
    + rewrite E in Hd. destruct Hd as [?|[? Hu]]; [by left|right]. by destruct fin.
    + left. apply process_doomed. destruct Hd as [?|[? _]]; auto.
    + rewrite E in Hd. destruct Hd as [?|[_ []]]. by left.
    + left. apply finishLast_doomed. destruct Hd as [?|[? _]]; auto.
    + rewrite E in Hd. destruct Hd as [?|[_ []]]. by left.
Qed.

(** *** Termination *)

Definition phase_weight (p : phase) : nat :=
  match p with Loop => 3 | Draining _ => 2 | Emptying _ recs => 1 + 2 * length recs | Exited => 0 end.
Definition measure (s : system (X := X)) : nat :=
  4 * length (s_senders s) + s_leaving s + 2 * length (s_ch s) + phase_weight (s_phase s).
Lemma run_step_measure s s' : run_step s s' → (measure s' < measure s)%nat.
Proof.
  intros Hs. unfold measure. destruct Hs as [l1 rec l2 E Hch|l1 rec l2 E _|n E|rec ch E Ech|E Ec|E Ec|fin E Es|rec recs E|rec recs E|E|E]; cbn;
    rewrite ?E, ?Ech, ?length_app; cbn; lia.
Qed.
Lemma call_step_measure s s' : call_step s s' → s_closing s = true → s_closing s' = true ∧ (measure s' ≤ measure s)%nat.
Proof.
  intros Hs Hc. unfold measure. destruct Hs as [rec Hn _|l1 rec l2 E| |e _]; cbn; rewrite ?E, ?length_app; cbn; [congruence|..];
    (split; [done|lia]).
Qed.
Lemma run_step_closing s s' : run_step s s' → s_closing s = true → s_closing s' = true.
Proof. by intros []. Qed.
Lemma run_step_enabled s : s_closing s = true → s_phase s ≠ Exited → ∃ s', run_step s s'.
Proof.
  intros Hc Hp. destruct (s_senders s) as [|rec l] eqn:Es; [|eexists; eapply (gives_up _ _ _ _ _ s [] rec l); [done|by left]].
  destruct (s_leaving s) as [|n] eqn:El; [|by eexists; eapply leave].
  destruct (s_phase s) as [|fin|[] [|rec recs]|] eqn:Ep; [|..|done]; eexists.
  - by apply on_closing.
  - eapply drain; [done|]. unfold sending. by rewrite Es, El.
  - by apply finish_last.
  - by eapply process_left.
  - by apply exit.
  - by eapply release_left.
Qed.
(** [n] steps of the goroutine and of the senders, between calls. *)
Inductive runs : nat → system (X := X) → system (X := X) → Prop :=
| runs_refl s : runs 0 s s
| runs_call n s s1 s2 : call_step s s1 → runs n s1 s2 → runs n s s2
| runs_run n s s1 s2 : run_step s s1 → runs n s1 s2 → runs (S n) s s2.
Lemma runs_measure n s s' : runs n s s' → s_closing s = true → s_closing s' = true ∧ (n + measure s' ≤ measure s)%nat.
Proof.
  induction 1 as [|n s s1 s2 Hs _ IH|n s s1 s2 Hs _ IH]; intros Hc; [by split|..].
  - destruct (call_step_measure _ _ Hs Hc) as [Hc1 Hm]. destruct (IH Hc1). split; [done|lia].
  - destruct (IH (run_step_closing _ _ Hs Hc)). split; [done|]. pose proof (run_step_measure _ _ Hs). lia.
Qed.
End Promises.

(** *** The budget of buffered bytes *)

(** The buffered bytes of the encoders: reading them changes nothing, a new row
    group empties its own encoder's. *)
Class BudgetLaws (X : Type) `{IO : !WriterIO X} : Type := {
  buffered : X → string → Z;
  buffered_nonneg : ∀ x path, (0 ≤ buffered x path)%Z;
  bytes_buffered : ∀ path x, pq_RowGroupBytes path x = (x, buffered x path);
  row_group_frees : ∀ path x, (pq_NewRowGroup path x).2 = None →
    buffered (pq_NewRowGroup path x).1 path = 0%Z ∧ ∀ other, other ≠ path → buffered (pq_NewRowGroup path x).1 other = buffered x other;
  range_buffered : ∀ l x path, buffered (map_range l x).1 path = buffered x path;
}.

Section Budget.
Context {X : Type} `{IO : !WriterIO X} `{BL : !BudgetLaws X}.
Variable budget : Z.
Definition total (x : X) (files : list dataFile) : Z := foldr (λ f n, buffered x (f_path f) + n)%Z 0%Z files.
Definition holding (x : X) (files : list dataFile) : nat := length (filter (λ f, buffered x (f_path f) ≠ 0%Z) files).

Lemma total_cons x f l : total x (f :: l) = (buffered x (f_path f) + total x l)%Z.
Proof. done. Qed.
Lemma total_nonneg x l : (0 ≤ total x l)%Z.
Proof. induction l as [|f l IH]; [done|]. rewrite total_cons. pose proof (buffered_nonneg x (f_path f)). lia. Qed.
Lemma total_perm x l l' : l ≡ₚ l' → total x l = total x l'.
Proof. induction 1; rewrite ?total_cons; lia. Qed.
Lemma total_ext x x' l : (∀ f, f ∈ l → buffered x' (f_path f) = buffered x (f_path f)) → total x' l = total x l.
Proof.
  induction l as [|f l IH]; intros H; [done|]. rewrite !total_cons, IH; [|intros g Hg; apply H; by right]. f_equal. apply H. by left.
Qed.
Lemma total_zero x l : (∀ f, f ∈ l → (buffered x (f_path f) ≤ 0)%Z) → total x l = 0%Z.
Proof.
  induction l as [|f l IH]; intros H; [done|]. rewrite total_cons, IH; [|intros g Hg; apply H; by right].
  pose proof (buffered_nonneg x (f_path f)). pose proof (H f ltac:(by left)). lia.
Qed.
Lemma holding_perm x (l l' : list dataFile) : l ≡ₚ l' → holding x l = holding x l'.
Proof. unfold holding. by intros ->. Qed.
Lemma holding_ext x x' (l : list dataFile) : (∀ f, f ∈ l → buffered x' (f_path f) = buffered x (f_path f)) →
  filter (λ f, buffered x' (f_path f) ≠ 0%Z) l = filter (λ f, buffered x (f_path f) ≠ 0%Z) l.
Proof.
  induction l as [|f l IH]; intros H; [done|]. rewrite !filter_cons, IH by (intros g Hg; apply H; by right).
  by rewrite (H f) by by left.
Qed.
(** What a pass over the files finds. *)
Definition weighed (x : X) (l : list dataFile) (most0 : Z) (largest0 : option dataFile) (most : Z) (largest : option dataFile) : Prop :=
  (largest0 ≠ None → most0 ≤ most)%Z ∧ (∀ f, f ∈ l → buffered x (f_path f) ≤ most)%Z ∧
  match largest with
  | None => l = [] ∧ largest0 = None
  | Some f => (f ∈ l ∧ buffered x (f_path f) = most) ∨ (largest0 = Some f ∧ most = most0)
  end.
Lemma weigh_spec w (x : X) l sum most largest : (0 ≤ sum)%Z → (sum + total x l ≤ max_int64)%Z →
  ∃ most' largest', weigh l sum most largest (w, x) = ((w, x), ((sum + total x l)%Z, most', largest')) ∧ weighed x l most largest most' largest'.
Proof.
  revert sum most largest. induction l as [|f l IH]; intros sum most largest Hs Ht.
  - exists most, largest. split; [cbn; by rewrite Z.add_0_r|]. split_and!; [done| |by destruct largest; [right|]].
    intros f Hf. by apply elem_of_nil in Hf.
  - rewrite total_cons in *. pose proof (buffered_nonneg x (f_path f)) as Hn. pose proof (total_nonneg x l) as Hl. cbn [weigh].
    unfold mbind, St_bind. unfold io at 1. cbn [fst snd]. rewrite bytes_buffered. cbv beta iota zeta.
    rewrite wrap64_id by (unfold max_int64, min_int64, two63 in *; lia). set (n := buffered x (f_path f)) in *.
    set (bigger := match largest with None => true | Some _ => (most <? n)%Z end).
    destruct (IH (sum + n)%Z (if bigger then n else most) (if bigger then Some f else largest)) as (m' & l' & -> & H1 & H2 & H3); [lia..|].
    exists m', l'. split; [f_equal; f_equal; f_equal; lia|]. subst bigger. split_and!.
    + intros Hln. destruct largest as [g|]; [|done]. destruct (most <? n)%Z eqn:E; to_arith; pose proof (H1 ltac:(done)); lia.
    + intros g [->|Hg]%elem_of_cons; [|by apply H2]. fold n. destruct largest as [g|]; [|by apply H1].
      destruct (most <? n)%Z eqn:E; to_arith; pose proof (H1 ltac:(done)); lia.
    + destruct l' as [g|].
      * destruct H3 as [[Hg Hb]|[Hg Hm]]; [left; split; [by right|done]|]. destruct largest as [h|].
        -- destruct (most <? n)%Z; [|by right]. injection Hg as <-. left. split; [by left|done].
        -- injection Hg as <-. left. split; [by left|done].
      * destruct H3 as [_ H3]. destruct largest as [h|]; [by destruct (most <? n)%Z|done].
Qed.
Lemma holding_flush x x' l f : NoDup (f_path <$> l) → f ∈ l → buffered x (f_path f) ≠ 0%Z → buffered x' (f_path f) = 0%Z →
  (∀ other, other ≠ f_path f → buffered x' other = buffered x other) →
  (holding x' l < holding x l)%nat ∧ (total x' l ≤ total x l)%Z.
Proof.
  intros Hnd Hf Hb Hb' Ho. apply list_elem_of_split in Hf as (l1 & l2 & ->).
  assert (∀ g, g ∈ l1 ++ l2 → buffered x' (f_path g) = buffered x (f_path g)) as Hx.
  { intros g Hg. apply Ho. rewrite fmap_app, fmap_cons, <-Permutation_middle in Hnd. apply NoDup_cons in Hnd as [Hn _].
    intros E. apply Hn. rewrite <-E, <-fmap_app. by apply list_elem_of_fmap_2. }
  pose proof (buffered_nonneg x (f_path f)).
  rewrite !(holding_perm _ (l1 ++ f :: l2) (f :: l1 ++ l2)), !(total_perm _ (l1 ++ f :: l2) (f :: l1 ++ l2)) by by rewrite Permutation_middle.
  split; [|rewrite !total_cons, (total_ext x x') by done; lia].
  unfold holding. rewrite !filter_cons, Hb', (holding_ext x x') by done. rewrite decide_False by auto. rewrite decide_True by done. cbn. lia.
Qed.
Lemma range_spec w x : ∃ l x', range_open (w, x) = ((w, x'), l) ∧ l ≡ₚ w_open w ∧ ∀ path, buffered x' path = buffered x path.
Proof.
  unfold range_open, get, io, mbind, St_bind, mret, St_ret. cbn [fst snd]. destruct (map_range (w_open w) x) as [x' l] eqn:E.
  exists (if decide (l ≡ₚ w_open w) then l else w_open w), x'. split_and!; [done|by destruct (decide _)|].
  intros path. rewrite <-(range_buffered (w_open w) x path). by rewrite E.
Qed.
Lemma enforce_spec w fuel x : NoDup (f_path <$> w_open w) → (0 ≤ budget)%Z → (total x (w_open w) ≤ max_int64)%Z →
  (holding x (w_open w) < fuel)%nat →
  let wxe := enforceBudget budget fuel (w, x) in wxe.1.1 = w ∧ (wxe.2 = None → (total wxe.1.2 (w_open w) ≤ budget)%Z).
Proof.
  intros Hnd Hb. revert x. induction fuel as [|fuel IH]; intros x Ht Hf; [lia|]. cbn [enforceBudget].
  destruct (range_spec w x) as (l & x1 & Hr & Hp & Hx1). unfold mbind, St_bind. rewrite Hr. cbv beta iota zeta.
  assert (total x1 (w_open w) = total x (w_open w)) as Ht1 by (apply total_ext; auto).
  pose proof (total_perm x1 _ _ Hp) as Htl. destruct (weigh_spec w x1 l 0 0 None) as (most & largest & -> & _ & H2 & H3); [lia..|].
  cbv beta iota zeta. destruct largest as [f|].
  2: { destruct H3 as [-> _]. cbn. split; [done|]. intros _. apply Permutation_nil_l in Hp. rewrite <-Hp. cbn. lia. }
  destruct H3 as [[Hfl Hm]|[? _]]; [|done]. destruct (_ || _) eqn:Eb; [cbn; split; [done|]; intros _|].
  { rewrite <-Htl. apply orb_true_iff in Eb as [Eb|Eb]; to_arith; [lia|]. rewrite (total_zero x1 l); [done|]. intros g Hg. pose proof (H2 g Hg). lia. }
  apply orb_false_iff in Eb as [_ Eb]. to_arith. unfold then_, flushRowGroup, or_fail, mbind, St_bind, io. cbn [fst snd].
  pose proof (row_group_frees (f_path f) x1) as Hfree. destruct (pq_NewRowGroup (f_path f) x1) as [x2 [e|]] eqn:E2; cbn; [done|].
  cbn in Hfree. destruct (Hfree eq_refl) as [Hz Ho].
  destruct (holding_flush x1 x2 (w_open w) f) as [Hh Ht2]; [done|by rewrite <-Hp|by rewrite Hm|done|done|].
  assert (holding x1 (w_open w) = holding x (w_open w)) as Hh1 by (unfold holding; by rewrite (holding_ext x x1) by auto).
  apply IH; lia.
Qed.
Lemma holding_length x (l : list dataFile) : (holding x l ≤ length l)%nat.
Proof. apply length_filter. Qed.
End Budget.

(** The loop of enforceBudget ends after at most one flush per open file, and
    if no flush failed the open files then hold at most the budget. *)
Theorem enforceBudget_bounds {X : Type} `{IO : !WriterIO X} `{BL : !BudgetLaws X} (budget : Z) (w : writer) (x : X) (fuel : nat)
    (Hp : NoDup (f_path <$> w_open w)) (Hb : (0 ≤ budget)%Z) (Hm : (total x (w_open w) ≤ max_int64)%Z)
    (Hf : (length (w_open w) < fuel)%nat) :
  let '((w', x'), e) := enforceBudget budget fuel (w, x) in
  w' = w ∧ (e = None → (total x' (w_open w) ≤ budget)%Z).
Proof.
  pose proof (holding_length x (w_open w)). pose proof (enforce_spec budget w fuel x Hp Hb Hm ltac:(lia)) as H1.
  by destruct (enforceBudget budget fuel (w, x)) as [[w' x'] e].
Qed.

Section Theorems.
Context `{UT : !UnicodeTables} `{PL : !PartitionLib} {X : Type} `{IO : !WriterIO X}.
Variables (spec : WriterSpec) (part : option partitioner) (maxOpen : nat) (budget : Z) (local : bool).

(** C27: a Close that returns files returns all of them: no sender is inside Write,
    the channel is empty, every batch a Write accepted was processed, in order;
    and the files of each partition tuple hold, in order, exactly the rows of the
    accepted batches with that tuple, none lost, repeated or misplaced across
    eviction, rotation and the budget; each file is recorded with its row count
    and a tuple of its rows, and no two share a path. *)
Theorem Close_complete `{TL : !TakeLaw X} (s : system) (files : list WrittenFile)
    (Hs : reachable spec part maxOpen budget local s) (Hx : s_phase s = Exited) (Hr : Close_result s = Ok files) :
  s_senders s = [] ∧ s_ch s = [] ∧ s_processed s = s_accepted s ∧ files = w_files (s_writer s) ∧
  complete spec part (s_accepted s) (s_writer s).
Proof.
  destruct (writer_reachable_ok _ _ _ _ _ s Hs) as (Hw & Hp & _). unfold phase_ok in Hp. rewrite Hx in Hp. unfold Close_result in Hr.
  destruct (w_err (s_writer s)) eqn:E; [done|]. injection Hr as <-. destruct Hp as [(_ & H1 & _ & H2) Hp]. destruct (Hp eq_refl) as (Ha & Hc & Ho).
  destruct (Hw eq_refl) as [_ _ _ Hrows Hf He Hn]. unfold all_files in *. rewrite Hc, Ho in *. rewrite !app_nil_r in *. rewrite Ha. unfold complete. split_and!; try done.
  - intros k. rewrite <-Hrows, held_eq, Hc, Ho. by rewrite !app_nil_r.
  - by eapply numbered_NoDup.
Qed.

(** After Abort, or the end of the plane's lifetime, before the goroutine
    finished its last files, Close never returns files: no batch of an aborted
    writer reaches a commit. *)
Theorem Abort_discards (s s' : system) (Hc : w_cause (s_writer s) ≠ None) (Hp : unfinished (s_phase s))
    (Hs : rtc (step spec part maxOpen budget local) s s') (Hx : s_phase s' = Exited) :
  ∃ e, Close_result s' = Err e.
Proof.
  assert (doomed s') as Hd.
  { clear Hx. assert (doomed s) as H0 by by right. clear Hc Hp. induction Hs as [|a b c H1 _ IH]; [done|]. apply IH. by eapply doomed_step. }
  unfold Close_result. destruct (w_err (s_writer s')) as [e|] eqn:E; [by exists e|].
  destruct Hd as [?|[_ Hu]]; [done|]. by rewrite Hx in Hu.
Qed.

(** C39: Close returns: once admission is closed, the goroutine and the senders
    take at most [measure s] more steps, whatever callers do meanwhile, and
    until the goroutine has exited one of them can take a step; no sender is
    left blocked on a full channel. *)
Theorem Close_returns (s s' : system) (n : nat) (Hc : s_closing s = true)
    (Hr : runs spec part maxOpen budget local n s s') :
  (n ≤ measure s)%nat ∧ (s_phase s' = Exited ∨ ∃ s'', run_step spec part maxOpen budget local s' s'').
Proof.
  destruct (runs_measure _ _ _ _ _ _ _ _ Hr Hc) as [Hc' Hm]. split; [lia|].
  assert (s_phase s' = Exited ∨ s_phase s' ≠ Exited) as [?|Hx] by (destruct (s_phase s'); auto); [by left|right].
  by eapply run_step_enabled.
Qed.

(** While a writer has not failed, at most maxOpen partition files are open
    (one at least is allowed), one per tuple, at most four batches wait in the
    channel, and no path is written twice. *)
Theorem writer_bounds `{TL : !TakeLaw X} (s : system) (Hs : reachable spec part maxOpen budget local s)
    (He : w_err (s_writer s) = None) :
  (length (s_ch s) ≤ 4)%nat ∧ (length (w_open (s_writer s)) ≤ Nat.max 1 maxOpen)%nat ∧
  NoDup (f_key <$> w_open (s_writer s)) ∧ NoDup (f_path <$> all_files (s_writer s)).
Proof.
  destruct (writer_reachable_ok _ _ _ _ _ s Hs) as (Hw & _ & Hl). destruct (Hw He) as [H1 H2 _ _ _ _ H7]. split_and!; try done.
  by eapply numbered_NoDup.
Qed.
End Theorems.

(** ** A concrete writer *)

Module WriterExamples.
#[local] Existing Instances PartitionExamples.ascii_tables PartitionExamples.identity_lib.

(** An encoder that buffers ten bytes a row, and storage that never fails. *)
Abbreviation world := (gmap string nat).
Definition take_rows_of (b : batch) (idx : list nat) : batch :=
  MkBatch (length idx) ((λ col, (λ i, mjoin (col !! i)) <$> idx) <$> b_Columns b).
#[local] Instance memory : WriterIO world := {
  io_creds := mret None;
  io_open := λ _, mret None;
  io_parquet := λ _, mret None;
  io_cancel := λ _, mret ();
  io_closeSink := λ _, mret None;
  io_remove := λ _, mret ();
  io_bytes := λ _, mret 100%Z;
  pq_WriteBuffered := λ path rows x, (<[path := default 0 (x !! path) + 10 * length rows]> x, None);
  pq_RowGroupBytes := λ path x, (x, Z.of_nat (default 0 (x !! path)));
  pq_NewRowGroup := λ path x, (<[path := 0]> x, None);
  pq_Close := λ _, mret None;
  ar_Take := λ rec idx, mret (Ok (MkRecord (take_rows_of (r_batch rec) idx) (r_types rec) []));
  map_range := mret;
}.
#[local] Instance memory_takes : TakeLaw world.
Proof.
  intros rec idx x sub [= <-]. unfold rows_of. cbn [b_NumRows take_rows_of r_batch]. apply list_eq. intros j.
  rewrite !list_lookup_fmap. destruct (idx !! j) as [i|] eqn:E.
  - pose proof (lookup_lt_Some _ _ _ E) as Hj. rewrite (proj2 (lookup_seq 0 (length idx) j j)) by lia. cbn. f_equal. unfold row_at. cbn.
    rewrite <-list_fmap_compose. apply list_fmap_ext. intros k col _. cbn. by rewrite list_lookup_fmap, E.
  - apply lookup_ge_None in E. by rewrite lookup_seq_ge.
Qed.
#[local] Instance memory_budget : BudgetLaws world.
Proof.
  refine {| buffered := λ x path, Z.of_nat (default 0 (x !! path)) |}.
  - intros x path. lia.
  - done.
  - intros path x _. cbn [pq_NewRowGroup memory fst]. split; [by rewrite lookup_insert_eq|]. intros other Ho. by rewrite lookup_insert_ne.
  - done.
Defined.

Definition spec : WriterSpec :=
  MkWriterSpec "t" "s3://b/t/data/" "run" (Some [MkArrowField "n" INT32 true []; MkArrowField "city" STRING true []]) true 1000 100
    (Some (MkPartitionSpec 3 PartitionExamples.spec)) (Some PartitionExamples.schema).
Definition part : option partitioner := Some PartitionExamples.part.
Definition rec : RecordBatch := MkRecord PartitionExamples.cells [INT32; STRING] [MkArrayData [Some 16%Z] []; MkArrayData [Some 40%Z; None] []].
Example rec_checked : checkRecord spec (Some rec) = None ∧ recordBytes rec = 56%Z.
Proof. by vm_compute. Qed.
(** One file may be open, so every tuple evicts the file of another. *)
Abbreviation reachable := (reachable spec part 1 25 false).
Abbreviation run_step := (run_step spec part 1 25 false).
Definition begun : system := with_senders [rec] 0 (start (∅ : world)).
Definition sent : system := accept rec (with_ch [rec] (with_senders [] 1 begun)).
Definition left : system := with_senders [] 0 sent.
Definition received : system := do_process spec part 1 25 false rec (with_ch [] left).
Definition stopped : system := stopAdmission received.
Definition draining : system := with_phase (Draining true) stopped.
Definition drained : system := with_phase (Emptying true []) draining.
Definition final : system := with_phase Exited (with_writer (finishLast spec part false (s_writer drained, s_world drained)).1 drained).

Lemma sent_reachable : reachable sent.
Proof.
  exists ∅. eapply rtc_l; [left; by apply (call_Write _ _ rec)|]. apply rtc_once. right. apply (send _ _ _ _ _ begun [] rec []); [done|cbn; unfold channelBatches; lia].
Qed.
Lemma reachable_step s s' : reachable s → step spec part 1 25 false s s' → reachable s'.
Proof. intros [x H] Hs. exists x. by eapply rtc_r. Qed.
Lemma received_reachable : reachable received.
Proof.
  apply (reachable_step left); [apply (reachable_step sent); [exact sent_reachable|right; exact (leave _ _ _ _ _ sent 0 eq_refl)]|].
  right. exact (receive _ _ _ _ _ left rec [] eq_refl eq_refl).
Qed.
Lemma final_reachable : reachable final.
Proof.
  apply (reachable_step drained); [apply (reachable_step draining); [apply (reachable_step stopped); [apply (reachable_step received)|]|]|].
  - exact received_reachable.
  - left. exact (call_stop _ received).
  - right. exact (on_closing _ _ _ _ _ stopped eq_refl eq_refl).
  - right. exact (drain _ _ _ _ _ draining true eq_refl eq_refl).
  - right. exact (finish_last _ _ _ _ _ drained eq_refl).
Qed.
Example final_files : match Close_result final with
  | Ok files => (λ f, (wf_Path f, wf_Rows f)) <$> files =
      [("s3://b/t/data/city=a/n_bucket=1/run-00000.parquet", 2%Z);
       ("s3://b/t/data/city=b/n_bucket=0/run-00001.parquet", 1%Z);
       ("s3://b/t/data/city=null/n_bucket=null/run-00002.parquet", 1%Z)]
  | Err _ => False
  end.
Proof. by vm_compute. Qed.
(** Without partitions, a file that its last batch completed leaves nothing to
    finish, and the lifetime context of the writer is not released. *)
Definition small : WriterSpec := MkWriterSpec "t" "s3://b/t/data/" "run" (ws_Schema spec) true 10 100 None None.
Example rotated_writer_keeps_context :
  let wx := (finishLast small None false (process small None 1 25 false rec (new_writer, (∅ : world))).1).1 in
  length (w_files wx.1) = 1 ∧ w_err wx.1 = None ∧ w_cause wx.1 = None.
Proof. by vm_compute. Qed.

Lemma Close_complete_witness :
  s_senders final = [] ∧ s_ch final = [] ∧ s_processed final = s_accepted final ∧ w_files (s_writer final) = w_files (s_writer final) ∧
  complete spec part (s_accepted final) (s_writer final).
Proof. apply (Close_complete spec part 1 25 false final (w_files (s_writer final)) final_reachable eq_refl). by vm_compute. Defined.
Lemma writer_bounds_witness :
  (length (s_ch received) ≤ 4)%nat ∧ (length (w_open (s_writer received)) ≤ Nat.max 1 1)%nat ∧
  NoDup (f_key <$> w_open (s_writer received)) ∧ NoDup (f_path <$> all_files (s_writer received)).
Proof. apply (writer_bounds spec part 1 25 false received received_reachable). by vm_compute. Defined.
(** Abort after the send. *)
Definition aborted : system := with_writer (cancel errAborted (s_writer left), s_world left) left.
Definition failed : system := with_phase (Draining false) (stopAdmission
  (with_writer (fail false (failure (s_writer aborted)) (s_writer aborted, s_world aborted)).1 aborted)).
Definition emptying : system := with_phase (Emptying false [rec]) (with_ch [] failed).
Definition ended : system := with_phase Exited (with_phase (Emptying false []) emptying).
Lemma ended_after : rtc (step spec part 1 25 false) aborted ended.
Proof.
  apply (rtc_l _ _ failed); [right; apply (on_done _ _ _ _ _ aborted eq_refl); by intros H|].
  apply (rtc_l _ _ emptying); [right; exact (drain _ _ _ _ _ failed false eq_refl eq_refl)|].
  apply (rtc_l _ _ (with_phase (Emptying false []) emptying)); [right; exact (release_left _ _ _ _ _ emptying rec [] eq_refl)|].
  apply rtc_once. right. exact (exit _ _ _ _ _ (with_phase (Emptying false []) emptying) eq_refl).
Qed.
Lemma Abort_discards_witness : ∃ e, Close_result ended = Err e.
Proof. by apply (Abort_discards spec part 1 25 false aborted ended ltac:(done) I ended_after eq_refl). Defined.
Lemma Close_returns_witness : (1 ≤ measure stopped)%nat ∧ (s_phase draining = Exited ∨ ∃ s'', run_step draining s'').
Proof.
  apply (Close_returns spec part 1 25 false stopped draining 1 eq_refl).
  apply (runs_run _ _ _ _ _ 0 stopped draining); [exact (on_closing _ _ _ _ _ stopped eq_refl eq_refl)|apply runs_refl].
Defined.
Definition two_open : writer :=
  set_open [new_file "a"; partition_of (new_file "b") 1 (MkRowGroup "k" ∅ [])] new_writer.
Definition buffering : world := {[ "a" := 30; "b" := 20 ]}.
Lemma enforceBudget_bounds_witness :
  let '((w', x'), e) := enforceBudget 25 3 (two_open, buffering) in
  w' = two_open ∧ (e = None → (total x' (w_open two_open) ≤ 25)%Z).
Proof.
  apply (enforceBudget_bounds 25 two_open buffering 3); [|by vm_compute..|]; [|cbn; lia].
  repeat constructor; [|by apply not_elem_of_nil]. by intros H%list_elem_of_singleton.
Defined.
End WriterExamples.
