(* ===== verification/Preview.v ===== *)
(** * Preview: rewriting a pipeline onto scratch namespaces
      (pkg/pipelineapi/preview/rewrite.go)

    [Rewrite] with its two pieces of state, the scratch names given out and the
    buckets produced so far, passed along in the order of the code.  The deep
    copy through encoding/json is a parameter. *)

From S2P Require Import Prelude GoValue ApiTypes PipelineDoc.

(** json.Marshal and json.Unmarshal of a pipeline. *)
Class PipelineJson : Type := { json_copy : DocPipeline → result string DocPipeline }.

Definition maxBucketLen : nat := 63.

(** [strings.TrimRight(s, "-")]. *)
Fixpoint trim_dashes (s : string) : string :=
  match s with
  | EmptyString => EmptyString
  | String c s =>
    match trim_dashes s with
    | EmptyString => if Ascii.eqb c "-"%char then EmptyString else String c EmptyString
    | s => String c s
    end
  end.
(** [pid] is previewID.String(). *)
Definition ScratchBucket (pid bucket : string) : string :=
  let s := "pv-" +:+ str_take 8 pid +:+ "-" +:+ bucket in
  let s := if (maxBucketLen <? slen s)%nat then str_take maxBucketLen s else s in
  trim_dashes s.

Record RewriteResult := MkRewriteResult {
  rr_Doc : DocPipeline;
  rr_Namespaces : list string;
  rr_Logical : gmap string string;  (** scratch to logical *)
}.

(** ** State *)

Record rewriting := MkRewriting {
  rw_logicalOf : gmap string string;
  rw_produced : gset string;
}.
(** A step of the loop, which may return from it with an error. *)
Definition Rw (A : Type) : Type := rewriting → result string (A * rewriting).
#[export] Instance rw_ret : MRet Rw := λ A a st, Ok (a, st).
#[export] Instance rw_bind : MBind Rw := λ A B f m st, match m st with Ok (a, st) => f a st | Err e => Err e end.
Fixpoint mapM_rw {A B} (f : A → Rw B) (l : list A) : Rw (list B) :=
  match l with
  | [] => mret []
  | x :: l => y ← f x; ys ← mapM_rw f l; mret (y :: ys)
  end.
Definition is_produced (b : string) : Rw bool := λ st, Ok (bool_decide (b ∈ rw_produced st), st).
Definition produce (b : string) : Rw unit := λ st, Ok ((), MkRewriting (rw_logicalOf st) ({[b]} ∪ rw_produced st)).

Section Rewrite.
Context `{UT : !UnicodeTables} `{PJ : !PipelineJson}.
Variable pid : string.

Definition scratchOf (bucket : string) : Rw string := λ st,
  let s := ScratchBucket pid bucket in
  let ok := Ok (s, MkRewriting (<[s := bucket]> (rw_logicalOf st)) (rw_produced st)) in
  match rw_logicalOf st !! s with
  | Some prev =>
    if decide (prev = bucket) then ok
    else Err ("buckets " +:+ quote prev +:+ " and " +:+ quote bucket +:+ " both map to " +:+ quote s)
  | None => ok
  end.

Definition rewrite_input (b : string) : Rw string :=
  p ← is_produced b; if (p : bool) then scratchOf b else mret b.
Definition set_input_bucket (t : DocInputTable) (b : string) : DocInputTable :=
  MkDocInputTable b (di_Table t) (di_As t) (di_Since t) (di_SinceSnapshot t) (di_SinceDays t) (di_TimestampColumn t).
Definition rewrite_inputs (i : option DocInputs) : Rw (option DocInputs) :=
  match i with
  | None => mret None
  | Some i =>
    bs ← mapM_rw rewrite_input (din_Buckets i);
    ts ← mapM_rw (λ t, b ← rewrite_input (di_Bucket t); mret (set_input_bucket t b)) (din_Tables i);
    mret (Some (MkDocInputs bs ts))
  end.
Definition rewrite_output (b : string) : Rw string := _ ← produce b; scratchOf b.
Definition set_output_bucket (t : DocOutputTable) (b : string) : DocOutputTable :=
  MkDocOutputTable (dot_Name t) b (dot_WriteMode t) (dot_LogicalName t) (dot_PartitionSpec t) (dot_Columns t).
Definition rewrite_outputs (o : option DocOutputs) : Rw (option DocOutputs) :=
  match o with
  | None => mret None
  | Some o =>
    d ← (if str_empty (do_DefaultBucket o) then mret (do_DefaultBucket o) else rewrite_output (do_DefaultBucket o));
    bs ← mapM_rw (λ b, s ← rewrite_output (dob_Name b); mret (MkDocOutputBucket s (dob_WriteMode b))) (do_Buckets o);
    ts ← mapM_rw (λ t, s ← rewrite_output (dot_Bucket t); mret (set_output_bucket t s)) (do_Tables o);
    mret (Some (MkDocOutputs d (do_DefaultWriteMode o) bs ts (do_Processors o)))
  end.
Definition rewrite_component (c : DocComponent) : Rw DocComponent :=
  i ← rewrite_inputs (dc_Inputs c);
  o ← rewrite_outputs (dc_Outputs c);
  mret (MkDocComponent (dc_Name c) (dc_Component c) (dc_Version c) (dc_Image c) (dc_Config c) i o (dc_Resources c)).
Definition rewrite_stage (s : DocStage) : Rw DocStage :=
  cs ← mapM_rw rewrite_component (ds_Components s); mret (MkDocStage (ds_Name s) cs).

(** The stages up to the first of that name. *)
Fixpoint until (name : string) (l : list DocStage) : option (list DocStage) :=
  match l with
  | [] => None
  | s :: l => if decide (ds_Name s = name) then Some [s] else cons s <$> until name l
  end.
Definition cut_stages (untilStage : string) (l : list DocStage) : result string (list DocStage) :=
  if str_empty untilStage then Ok l
  else match until untilStage l with
  | Some l => Ok l
  | None => Err ("until_stage " +:+ quote untilStage +:+ " is not a stage of this pipeline")
  end.

Definition Rewrite (doc : DocPipeline) (untilStage : string) : result string RewriteResult :=
  out ← map_err (λ e, "copy pipeline: " +:+ e) (json_copy doc);
  stages ← cut_stages untilStage (d_Stages out);
  x ← mapM_rw rewrite_stage stages (MkRewriting ∅ ∅);
  Ok (MkRewriteResult
        (MkDocPipeline ("preview-" +:+ str_take 8 pid) (d_Description out) (d_Gateway out) x.1)
        (sorted_names (dom (rw_logicalOf x.2))) (rw_logicalOf x.2)).
End Rewrite.

#[local] Arguments ScratchBucket : simpl never.

(** ** What a rewrite is *)

Section Reference.
Variable pid : string.
Abbreviation scratch := (ScratchBucket pid).

(** Maps a list whose elements depend on what the elements before put out. *)
Fixpoint thread {A B} (spec : gset string → A → B) (outs : A → gset string) (P : gset string) (l : list A) : list B :=
  match l with
  | [] => []
  | x :: l => spec P x :: thread spec outs (P ∪ outs x) l
  end.
Definition all_outs {A} (outs : A → gset string) (l : list A) : gset string := ⋃ (outs <$> l).

Definition output_buckets (o : option DocOutputs) : list string :=
  match o with
  | None => []
  | Some o =>
    (if str_empty (do_DefaultBucket o) then [] else [do_DefaultBucket o]) ++
    (dob_Name <$> do_Buckets o) ++ (dot_Bucket <$> do_Tables o)
  end.
Definition component_outs (c : DocComponent) : gset string := list_to_set (output_buckets (dc_Outputs c)).
Definition stage_outs (s : DocStage) : gset string := all_outs component_outs (ds_Components s).

(** An input is moved when [P], what earlier components produced, has its bucket;
    an output always is. *)
Definition moved_input (P : gset string) (b : string) : string := if decide (b ∈ P) then scratch b else b.
Definition moved_inputs (P : gset string) (i : option DocInputs) : option DocInputs :=
  (λ i, MkDocInputs (moved_input P <$> din_Buckets i)
    ((λ t, set_input_bucket t (moved_input P (di_Bucket t))) <$> din_Tables i)) <$> i.
Definition moved_outputs (o : option DocOutputs) : option DocOutputs :=
  (λ o, MkDocOutputs
    (if str_empty (do_DefaultBucket o) then do_DefaultBucket o else scratch (do_DefaultBucket o))
    (do_DefaultWriteMode o)
    ((λ b, MkDocOutputBucket (scratch (dob_Name b)) (dob_WriteMode b)) <$> do_Buckets o)
    ((λ t, set_output_bucket t (scratch (dot_Bucket t))) <$> do_Tables o)
    (do_Processors o)) <$> o.
Definition moved_component (P : gset string) (c : DocComponent) : DocComponent :=
  MkDocComponent (dc_Name c) (dc_Component c) (dc_Version c) (dc_Image c) (dc_Config c)
    (moved_inputs P (dc_Inputs c)) (moved_outputs (dc_Outputs c)) (dc_Resources c).
Definition moved_stage (P : gset string) (s : DocStage) : DocStage :=
  MkDocStage (ds_Name s) (thread moved_component component_outs P (ds_Components s)).

(** Two buckets that would share a scratch name. *)
Definition collides (P : gset string) : Prop := ∃ b b', b ∈ P ∧ b' ∈ P ∧ b ≠ b' ∧ scratch b = scratch b'.

(** The scratch names given out are those of the buckets produced. *)
Definition consistent (L : gmap string string) (P : gset string) : Prop :=
  ∀ s b, L !! s = Some b ↔ b ∈ P ∧ s = scratch b.
Lemma consistent_injective L P : consistent L P → ¬ collides P.
Proof.
  intros H (b & b' & Hb & Hb' & Hne & Hs). apply Hne.
  assert (L !! scratch b = Some b) as H1 by (by apply H).
  assert (L !! scratch b = Some b') as H2 by (by apply H). congruence.
Qed.
Lemma collides_mono P Q : P ⊆ Q → collides P → collides Q.
Proof. intros HPQ (b & b' & ? & ? & ? & ?). exists b, b'. set_solver. Qed.

Lemma thread_const {A B} (f : A → B) outs P l : thread (λ _, f) outs P l = f <$> l.
Proof. revert P. induction l as [|x l IH]; intros P; cbn; [done|]. by rewrite IH. Qed.
Lemma all_outs_cons {A} (outs : A → gset string) x l : all_outs outs (x :: l) = outs x ∪ all_outs outs l.
Proof. done. Qed.
Lemma all_outs_empty {A} (l : list A) : all_outs (λ _, ∅) l = ∅.
Proof. induction l as [|x l IH]; [done|]. rewrite all_outs_cons, IH. set_solver. Qed.
Lemma thread_empty {A B} (f : gset string → A → B) P l : thread f (λ _, ∅) P l = f P <$> l.
Proof. revert P. induction l as [|x l IH]; intros P; cbn; [done|]. rewrite union_empty_r_L. by rewrite IH. Qed.
Lemma all_outs_singletons {A} (f : A → string) l : all_outs (λ x, {[f x]}) l = list_to_set (f <$> l).
Proof. induction l as [|x l IH]; [done|]. by rewrite all_outs_cons, IH. Qed.
End Reference.

(** ** The loop computes it *)

Section Refinement.
Context `{UT : !UnicodeTables}.
Variable pid : string.

(** [m] returns [spec] of what was produced before, and produces [outs]; it
    fails only on a collision. *)
Definition computes {A} (m : Rw A) (outs : gset string) (spec : gset string → A) : Prop := ∀ st,
  consistent pid (rw_logicalOf st) (rw_produced st) →
  match m st with
  | Ok (y, st') => y = spec (rw_produced st) ∧ rw_produced st' = rw_produced st ∪ outs ∧
      consistent pid (rw_logicalOf st') (rw_produced st')
  | Err _ => collides pid (rw_produced st ∪ outs)
  end.

Lemma computes_ret {A} (a : A) : computes (mret a) ∅ (λ _, a).
Proof. intros st Hc. cbn. split_and!; [done| |done]. by rewrite union_empty_r_L. Qed.
Lemma computes_bind {A B} (m : Rw A) (f : A → Rw B) o1 o2 s1 s2 :
  computes m o1 s1 → (∀ y, computes (f y) o2 (s2 y)) →
  computes (m ≫= f) (o1 ∪ o2) (λ P, s2 (s1 P) (P ∪ o1)).
Proof.
  intros Hm Hf st Hc. unfold mbind, rw_bind. specialize (Hm st Hc). destruct (m st) as [[y st1]|e].
  - destruct Hm as (-> & Hp & Hc1). specialize (Hf (s1 (rw_produced st)) st1 Hc1).
    destruct (f _ st1) as [[z st2]|e].
    + destruct Hf as (-> & Hp2 & Hc2). split_and!; [by rewrite Hp|by rewrite Hp2, Hp, (assoc_L (∪))|done].
    + by rewrite (assoc_L (∪)), <-Hp.
  - eapply collides_mono; [|exact Hm]. set_solver.
Qed.
Lemma computes_weaken {A} (m : Rw A) o o' s s' : computes m o s → o = o' → (∀ P, s P = s' P) → computes m o' s'.
Proof.
  intros H <- Hs st Hc. specialize (H st Hc). destruct (m st) as [[y st']|e]; [|done].
  destruct H as (-> & ? & ?). split_and!; [apply Hs|done..].
Qed.
Lemma computes_map {A B} (m : Rw A) (g : A → B) o s :
  computes m o s → computes (x ← m; mret (g x)) o (λ P, g (s P)).
Proof.
  intros H. eapply computes_weaken.
  - apply (computes_bind _ _ o ∅ s (λ x _, g x) H). intros x. apply computes_ret.
  - apply union_empty_r_L.
  - done.
Qed.
Lemma computes_mapM {A B} (f : A → Rw B) outs spec l :
  (∀ x, computes (f x) (outs x) (λ P, spec P x)) →
  computes (mapM_rw f l) (all_outs outs l) (λ P, thread spec outs P l).
Proof.
  intros Hf. induction l as [|x l IH]; cbn [mapM_rw]; [by apply computes_ret|].
  apply (computes_bind _ _ (outs x) (all_outs outs l) (λ P, spec P x) (λ y P, y :: thread spec outs P l)); [apply Hf|].
  intros y. by apply computes_map.
Qed.

Lemma scratchOf_fresh b st : b ∈ rw_produced st → consistent pid (rw_logicalOf st) (rw_produced st ∖ {[b]}) ∨
  consistent pid (rw_logicalOf st) (rw_produced st) →
  match scratchOf pid b st with
  | Ok (y, st') => y = ScratchBucket pid b ∧ rw_produced st' = rw_produced st ∧
      consistent pid (rw_logicalOf st') (rw_produced st')
  | Err _ => collides pid (rw_produced st)
  end.
Proof.
  intros Hb Hc. unfold scratchOf. set (s := ScratchBucket pid b).
  assert (∀ s' b', rw_logicalOf st !! s' = Some b' → b' ∈ rw_produced st ∧ s' = ScratchBucket pid b') as H1.
  { destruct Hc as [Hc|Hc]; intros s' b' H%Hc; set_solver. }
  assert (∀ b', b' ∈ rw_produced st → b' ≠ b → rw_logicalOf st !! ScratchBucket pid b' = Some b') as H2.
  { destruct Hc as [Hc|Hc]; intros b' ? ?; apply Hc; set_solver. }
  assert ((∀ b', rw_logicalOf st !! s = Some b' → b' = b) → consistent pid (<[s:=b]> (rw_logicalOf st)) (rw_produced st)) as Hok.
  { intros Hs s' b'. rewrite lookup_insert_Some. split.
    - intros [[<- <-]|[Hne H]]; [done|]. by apply H1.
    - intros [Hb' ->]. destruct (decide (b' = b)) as [->|Hne]; [by left|]. right. split; [|by apply H2].
      intros E. apply Hne, Hs. rewrite E. by apply H2. }
  destruct (rw_logicalOf st !! s) as [prev|] eqn:E.
  - destruct (decide (prev = b)) as [->|Hne]; cbn.
    + split_and!; [done..|]. apply Hok. by intros b' [= <-].
    + destruct (H1 _ _ E) as [Hp Hs]. by exists prev, b.
  - cbn. split_and!; [done..|]. by apply Hok.
Qed.
Lemma rewrite_input_computes b : computes (rewrite_input pid b) ∅ (λ P, moved_input pid P b).
Proof.
  intros st Hc. unfold rewrite_input, is_produced, mbind, rw_bind, mret, rw_ret, moved_input.
  destruct (bool_decide_reflect (b ∈ rw_produced st)) as [Hb|Hb].
  - rewrite decide_True by done. pose proof (scratchOf_fresh b st Hb (or_intror Hc)) as H.
    rewrite union_empty_r_L. by destruct (scratchOf pid b st) as [[y st']|e].
  - rewrite decide_False by done. split_and!; [done| |done]. by rewrite union_empty_r_L.
Qed.
Lemma rewrite_output_computes b : computes (rewrite_output pid b) {[b]} (λ _, ScratchBucket pid b).
Proof.
  intros st Hc. unfold rewrite_output, produce, mbind, rw_bind.
  set (st1 := MkRewriting (rw_logicalOf st) ({[b]} ∪ rw_produced st)).
  pose proof (scratchOf_fresh b st1 ltac:(set_solver)) as H. cbn [rw_produced rw_logicalOf st1] in H.
  assert (rw_produced st ∪ {[b]} = {[b]} ∪ rw_produced st) as -> by set_solver.
  destruct (scratchOf pid b st1) as [[y st']|e]; apply H;
    (destruct (decide (b ∈ rw_produced st)); [right|left]).
  1, 3: by replace ({[b]} ∪ rw_produced st) with (rw_produced st) by set_solver.
  1, 2: by replace (({[b]} ∪ rw_produced st) ∖ {[b]}) with (rw_produced st) by set_solver.
Qed.

Lemma rewrite_inputs_computes i : computes (rewrite_inputs pid i) ∅ (λ P, moved_inputs pid P i).
Proof.
  destruct i as [i|]; [|apply computes_ret]. unfold rewrite_inputs. eapply computes_weaken.
  - apply (computes_bind _ _ ∅ ∅ (λ P, moved_input pid P <$> din_Buckets i)
      (λ bs P, Some (MkDocInputs bs ((λ t, set_input_bucket t (moved_input pid P (di_Bucket t))) <$> din_Tables i)))).
    + eapply computes_weaken; [apply (computes_mapM _ (λ _, ∅) (moved_input pid)), rewrite_input_computes| |].
      * apply all_outs_empty.
      * intros P. apply thread_empty.
    + intros bs. apply (computes_map _ (λ ts, Some (MkDocInputs bs ts))). eapply computes_weaken.
      * apply (computes_mapM _ (λ _, ∅) (λ P t, set_input_bucket t (moved_input pid P (di_Bucket t)))).
        intros t. apply computes_map, rewrite_input_computes.
      * apply all_outs_empty.
      * intros P. apply thread_empty.
  - set_solver.
  - intros P. cbn beta. by rewrite union_empty_r_L.
Qed.
Lemma rewrite_outputs_computes o : computes (rewrite_outputs pid o) (list_to_set (output_buckets o)) (λ _, moved_outputs pid o).
Proof.
  destruct o as [o|]; [|apply computes_ret]. unfold rewrite_outputs.
  set (d := if str_empty (do_DefaultBucket o) then do_DefaultBucket o else ScratchBucket pid (do_DefaultBucket o)).
  set (bs := (λ b, MkDocOutputBucket (ScratchBucket pid (dob_Name b)) (dob_WriteMode b)) <$> do_Buckets o).
  set (ts := (λ t, set_output_bucket t (ScratchBucket pid (dot_Bucket t))) <$> do_Tables o).
  eapply computes_weaken.
  - apply (computes_bind _ _ (if str_empty (do_DefaultBucket o) then ∅ else {[do_DefaultBucket o]})
      (list_to_set (dob_Name <$> do_Buckets o) ∪ list_to_set (dot_Bucket <$> do_Tables o))
      (λ _, d) (λ d _, Some (MkDocOutputs d (do_DefaultWriteMode o) bs ts (do_Processors o)))).
    + unfold d. destruct (str_empty _); [apply computes_ret|apply rewrite_output_computes].
    + intros d'. apply (computes_bind _ _ _ _ (λ _, bs) (λ bs _, Some (MkDocOutputs d' (do_DefaultWriteMode o) bs ts (do_Processors o)))).
      * eapply computes_weaken.
        -- apply (computes_mapM _ (λ b, {[dob_Name b]}) (λ _ b, MkDocOutputBucket (ScratchBucket pid (dob_Name b)) (dob_WriteMode b))).
           intros b. apply (computes_map _ (λ s, MkDocOutputBucket s (dob_WriteMode b))), rewrite_output_computes.
        -- apply all_outs_singletons.
        -- intros P. apply thread_const.
      * intros bs'. apply (computes_map _ (λ ts, Some (MkDocOutputs d' (do_DefaultWriteMode o) bs' ts (do_Processors o)))).
        eapply computes_weaken.
        -- apply (computes_mapM _ (λ t, {[dot_Bucket t]}) (λ _ t, set_output_bucket t (ScratchBucket pid (dot_Bucket t)))).
           intros t. apply (computes_map _ (set_output_bucket t)), rewrite_output_computes.
        -- apply all_outs_singletons.
        -- intros P. apply thread_const.
  - unfold output_buckets. rewrite !list_to_set_app_L. destruct (str_empty _); set_solver.
  - done.
Qed.
Lemma rewrite_component_computes c : computes (rewrite_component pid c) (component_outs c) (λ P, moved_component pid P c).
Proof.
  unfold rewrite_component. eapply computes_weaken.
  - apply (computes_bind _ _ ∅ (component_outs c) (λ P, moved_inputs pid P (dc_Inputs c))
      (λ i _, MkDocComponent (dc_Name c) (dc_Component c) (dc_Version c) (dc_Image c) (dc_Config c) i
                (moved_outputs pid (dc_Outputs c)) (dc_Resources c))); [apply rewrite_inputs_computes|].
    intros i. apply (computes_map _ (λ o, MkDocComponent (dc_Name c) (dc_Component c) (dc_Version c) (dc_Image c)
      (dc_Config c) i o (dc_Resources c))), rewrite_outputs_computes.
  - apply union_empty_l_L.
  - done.
Qed.
Lemma rewrite_stages_computes l :
  computes (mapM_rw (rewrite_stage pid) l) (all_outs stage_outs l) (λ P, thread (moved_stage pid) stage_outs P l).
Proof.
  apply computes_mapM. intros s. apply (computes_map _ (MkDocStage (ds_Name s))), computes_mapM, rewrite_component_computes.
Qed.
End Refinement.

(** ** Properties *)

Section Properties.
Context `{UT : !UnicodeTables} `{PJ : !PipelineJson}.

#[local] Arguments str_take : simpl never.
Lemma Rewrite_Ok pid doc untilStage r :
  Rewrite pid doc untilStage = Ok r ↔ ∃ out stages, json_copy doc = Ok out ∧
    cut_stages untilStage (d_Stages out) = Ok stages ∧ ¬ collides pid (all_outs stage_outs stages) ∧
    rr_Doc r = MkDocPipeline ("preview-" +:+ str_take 8 pid) (d_Description out) (d_Gateway out)
      (thread (moved_stage pid) stage_outs ∅ stages) ∧
    consistent pid (rr_Logical r) (all_outs stage_outs stages) ∧
    rr_Namespaces r = sorted_names (set_map (ScratchBucket pid) (all_outs stage_outs stages)).
Proof.
  unfold Rewrite. destruct (json_copy doc) as [out|e] eqn:Ej; cbn; [|naive_solver].
  destruct (cut_stages untilStage (d_Stages out)) as [stages|e] eqn:Ec; cbn.
  2: { split; [done|]. intros (out' & stages & [= <-] & ? & _). congruence. }
  pose proof (rewrite_stages_computes pid stages (MkRewriting ∅ ∅)) as H.
  cbn [rw_logicalOf rw_produced] in H. rewrite union_empty_l_L in H.
  assert (∀ L, consistent pid L (all_outs stage_outs stages) →
    dom L = set_map (ScratchBucket pid) (all_outs stage_outs stages)) as Hdom.
  { intros L HL. apply set_eq. intros s. rewrite elem_of_dom, elem_of_map. unfold is_Some.
    setoid_rewrite (HL s). naive_solver. }
  specialize (H ltac:(intros s b; rewrite lookup_empty; set_solver)).
  destruct (mapM_rw (rewrite_stage pid) stages _) as [[stages' st]|e].
  - destruct H as (-> & Hp & Hc). rewrite Hp in Hc. split.
    + intros [= <-]. exists out, stages. cbn. split_and!; try done; [by eapply consistent_injective|by rewrite Hdom].
    + intros (out' & stages' & [= <-] & Hs & _ & Hd & HL & Hns). rewrite Ec in Hs. injection Hs as <-. destruct r as [d ns L]. cbn [rr_Doc rr_Namespaces rr_Logical] in *.
      assert (rw_logicalOf st = L) as HLL.
      { apply map_eq. intros s. apply option_eq. intros b. by rewrite (Hc s b), (HL s b). }
      cbn. by rewrite Hd, Hns, <-HLL, (Hdom _ Hc).
  - split; [done|]. intros (out' & stages' & [= <-] & Hs & Hno & _). rewrite Ec in Hs. by injection Hs as <-.
Qed.

(** Rewrite fails exactly when the stage is unknown or two produced buckets
    share a scratch name; otherwise the document it returns is the copy, cut
    after the stage, with every output moved to its scratch name and every input
    that an earlier component produces moved with it, and nothing else changed;
    Logical is exactly the map from scratch names back to produced buckets. *)
Theorem Rewrite_correct (pid : string) (doc : DocPipeline) (untilStage : string) (r : RewriteResult) :
  Rewrite pid doc untilStage = Ok r ↔ ∃ out stages, json_copy doc = Ok out ∧
    cut_stages untilStage (d_Stages out) = Ok stages ∧ ¬ collides pid (all_outs stage_outs stages) ∧
    rr_Doc r = MkDocPipeline ("preview-" +:+ str_take 8 pid) (d_Description out) (d_Gateway out)
      (thread (moved_stage pid) stage_outs ∅ stages) ∧
    consistent pid (rr_Logical r) (all_outs stage_outs stages) ∧
    rr_Namespaces r = sorted_names (set_map (ScratchBucket pid) (all_outs stage_outs stages)).
Proof. exact (Rewrite_Ok pid doc untilStage r). Qed.

(** *** Scratch names *)

#[local] Arguments str_take !n !s / : simpl nomatch.
Lemma trim_dashes_app p c t : c ≠ "-"%char →
  trim_dashes (p +:+ String c t) = p +:+ String c (trim_dashes t).
Proof.
  intros Hc. induction p as [|d p IH].
  - rewrite !str_nil_app. cbn. rewrite (proj2 (Ascii.eqb_neq _ _) Hc). by destruct (trim_dashes t).
  - rewrite !str_app_cons. cbn [trim_dashes]. rewrite IH. by destruct p.
Qed.
Lemma str_take_app p t n : slen p ≤ n → str_take n (p +:+ t) = p +:+ str_take (n - slen p) t.
Proof.
  revert n. induction p as [|c p IH]; intros n Hn.
  - rewrite !str_nil_app. f_equal. unfold slen. cbn. lia.
  - destruct n as [|n]; [unfold slen in Hn; cbn in Hn; lia|]. rewrite !str_app_cons. cbn [str_take].
    rewrite IH by (unfold slen in *; cbn in *; lia). done.
Qed.
Lemma str_take_slen n s : slen (str_take n s) ≤ n.
Proof. unfold slen. revert n. induction s as [|c s IH]; intros [|n]; cbn; try lia. specialize (IH n). lia. Qed.
Lemma trim_dashes_slen s : slen (trim_dashes s) ≤ slen s.
Proof.
  unfold slen. induction s as [|c s IH]; cbn; [lia|]. destruct (trim_dashes s); cbn in *; [|lia].
  destruct (Ascii.eqb c "-"); cbn; lia.
Qed.
(** The first eight characters of an id: the last is not a dash. *)
Definition id_ok (pid : string) : Prop := ∃ p c, str_take 8 pid = p +:+ String c EmptyString ∧ slen p = 7 ∧ c ≠ "-"%char.
Definition id_prefix (pid : string) : string := "pv-" +:+ str_take 8 pid.
Lemma ScratchBucket_shape pid b : id_ok pid → ∃ t, ScratchBucket pid b = id_prefix pid +:+ t ∧ slen (ScratchBucket pid b) ≤ 63.
Proof.
  intros (p & c & Hp & Hlen & Hc). unfold ScratchBucket, id_prefix, maxBucketLen. rewrite Hp.
  set (pre := "pv-" +:+ p).
  assert (∀ t, "pv-" +:+ (p +:+ String c EmptyString) +:+ t = pre +:+ String c t) as Hpre.
  { intros t. unfold pre. by rewrite !str_app_assoc, str_app_cons. }
  assert ("pv-" +:+ p +:+ String c EmptyString = pre +:+ String c EmptyString) as -> by (unfold pre; by rewrite str_app_assoc).
  assert (slen pre = 10) as Hl by (unfold pre; rewrite slen_app, Hlen; done).
  rewrite Hpre. set (s := "-" +:+ b).
  destruct (63 <? slen (pre +:+ String c s))%nat eqn:E.
  - rewrite str_take_app by lia. rewrite Hl. change (63 - 10) with (S 52). cbn [str_take].
    exists (trim_dashes (str_take 52 s)). split; [by rewrite trim_dashes_app, str_app_assoc by done|].
    etrans; [apply trim_dashes_slen|]. rewrite slen_app, Hl. pose proof (str_take_slen 52 s). unfold slen in *. cbn. lia.
  - exists (trim_dashes s). split; [by rewrite trim_dashes_app, str_app_assoc by done|].
    etrans; [apply trim_dashes_slen|]. by apply Nat.ltb_ge.
Qed.

(** *** The components of a rewritten document *)

Lemma elem_of_thread {A B} (spec : gset string → A → B) outs P l y :
  y ∈ thread spec outs P l → ∃ x Q, x ∈ l ∧ y = spec Q x ∧ Q ⊆ P ∪ all_outs outs l.
Proof.
  revert P. induction l as [|x l IH]; intros P; cbn [thread]; [by intros ?%elem_of_nil|].
  rewrite all_outs_cons. intros [->|Hy]%elem_of_cons.
  - exists x, P. split_and!; [by left|done|set_solver].
  - destruct (IH _ Hy) as (x' & Q & ? & ? & ?). exists x', Q. split_and!; [by right|done|set_solver].
Qed.
Lemma elem_of_all_outs {A} (outs : A → gset string) l b : b ∈ all_outs outs l ↔ ∃ x, x ∈ l ∧ b ∈ outs x.
Proof. unfold all_outs. rewrite elem_of_union_list. setoid_rewrite list_elem_of_fmap. naive_solver. Qed.
Lemma all_outs_elem {A} (outs : A → gset string) l x : x ∈ l → outs x ⊆ all_outs outs l.
Proof. intros Hx b Hb. apply elem_of_all_outs. by exists x. Qed.

Definition component_of (stages : list DocStage) (c : DocComponent) : Prop := ∃ s, s ∈ stages ∧ c ∈ ds_Components s.
Lemma moved_component_of pid stages c :
  component_of (thread (moved_stage pid) stage_outs ∅ stages) c →
  ∃ c0 P, component_of stages c0 ∧ c = moved_component pid P c0 ∧ P ⊆ all_outs stage_outs stages ∧
    component_outs c0 ⊆ all_outs stage_outs stages.
Proof.
  intros (s & (s0 & Q & Hs0 & -> & HQ)%elem_of_thread & Hc). cbn in Hc.
  apply elem_of_thread in Hc as (c0 & P & Hc0 & -> & HP).
  pose proof (all_outs_elem stage_outs stages s0 Hs0) as H1.
  pose proof (all_outs_elem component_outs (ds_Components s0) c0 Hc0) as H2. fold (stage_outs s0) in H2, HP.
  exists c0, P. split_and!; [by exists s0|done|set_solver..].
Qed.
Lemma moved_outputs_buckets pid o b : b ∈ output_buckets (moved_outputs pid o) →
  (∀ o', str_empty (ScratchBucket pid o') = false) →
  ∃ b0, b0 ∈ output_buckets o ∧ b = ScratchBucket pid b0.
Proof.
  intros Hb Hne. destruct o as [o|]; [|by apply elem_of_nil in Hb]. cbn in Hb |- *.
  apply elem_of_app in Hb as [Hb|Hb].
  - destruct (str_empty (do_DefaultBucket o)) eqn:E; [by rewrite E in Hb; apply elem_of_nil in Hb|].
    rewrite Hne in Hb. apply list_elem_of_singleton in Hb as ->. exists (do_DefaultBucket o).
    split; [|done]. apply elem_of_app. left. by left.
  - rewrite <-!list_fmap_compose in Hb. apply elem_of_app in Hb as [Hb|Hb]; apply list_elem_of_fmap in Hb as (x & -> & Hx); cbn.
    + exists (dob_Name x). split; [|done]. rewrite !elem_of_app. right. left. by apply list_elem_of_fmap_2.
    + exists (dot_Bucket x). split; [|done]. rewrite !elem_of_app. right. right. by apply list_elem_of_fmap_2.
Qed.
Definition input_buckets (i : option DocInputs) : list string :=
  match i with None => [] | Some i => din_Buckets i ++ (di_Bucket <$> din_Tables i) end.
Lemma moved_inputs_buckets pid P i b : b ∈ input_buckets (moved_inputs pid P i) →
  ∃ b0, b0 ∈ input_buckets i ∧ b = moved_input pid P b0.
Proof.
  destruct i as [i|]; [|by intros ?%elem_of_nil]. cbn. rewrite <-!list_fmap_compose.
  intros [Hb|Hb]%elem_of_app; apply list_elem_of_fmap in Hb as (x & -> & Hx); cbn.
  - exists x. split; [|done]. apply elem_of_app. by left.
  - exists (di_Bucket x). split; [|done]. apply elem_of_app. right. by apply list_elem_of_fmap_2.
Qed.

Lemma Rewrite_isolated pid doc untilStage r : id_ok pid → Rewrite pid doc untilStage = Ok r →
  (∀ b, b ∈ rr_Namespaces r → ∃ t, b = id_prefix pid +:+ t ∧ slen b ≤ 63) ∧
  ∀ c, component_of (d_Stages (rr_Doc r)) c →
    (∀ b, b ∈ output_buckets (dc_Outputs c) → b ∈ rr_Namespaces r) ∧
    ∃ out c0, json_copy doc = Ok out ∧ component_of (d_Stages out) c0 ∧ dc_Name c = dc_Name c0 ∧
      ∀ b, b ∈ input_buckets (dc_Inputs c) → b ∈ rr_Namespaces r ∨ b ∈ input_buckets (dc_Inputs c0).
Proof.
  intros Hid (out & stages & Hj & Hcut & _ & Hdoc & HL & Hns)%Rewrite_Ok.
  assert (∀ b, b ∈ all_outs stage_outs stages → ScratchBucket pid b ∈ rr_Namespaces r) as Hin.
  { intros b Hb. rewrite Hns, elem_of_sorted_names. by apply elem_of_map_2. }
  split.
  - intros b. rewrite Hns, elem_of_sorted_names, elem_of_map. intros (b0 & -> & _).
    destruct (ScratchBucket_shape pid b0 Hid) as (t & Ht & Hl). by exists t.
  - intros c. rewrite Hdoc. cbn [d_Stages]. intros (c0 & P & (s0 & Hs0 & Hc0) & -> & HP & Ho)%moved_component_of. split.
    + intros b Hb. cbn in Hb. apply moved_outputs_buckets in Hb as (b0 & Hb0 & ->).
      * apply Hin, Ho. unfold component_outs. by apply elem_of_list_to_set.
      * intros b0. destruct (ScratchBucket_shape pid b0 Hid) as (t & -> & _). done.
    + exists out, c0. split_and!; [done| |done|].
      * exists s0. split; [|done]. clear -Hcut Hs0. unfold cut_stages in Hcut.
        destruct (str_empty untilStage); [by simplify_eq|]. destruct (until _ _) as [l|] eqn:E; [|done]. simplify_eq.
        revert stages Hs0 E. induction (d_Stages out) as [|s l IH]; intros stages Hs0 E; cbn in E; [done|].
        destruct (decide (ds_Name s = untilStage)); [simplify_eq; by apply list_elem_of_singleton in Hs0 as ->; left|].
        destruct (until untilStage l) as [l'|]; [|done]. cbn in E. simplify_eq.
        apply elem_of_cons in Hs0 as [->|Hs0]; [by left|]. right. by eapply IH.
      * intros b Hb. cbn in Hb. apply moved_inputs_buckets in Hb as (b0 & Hb0 & ->). unfold moved_input.
        destruct (decide (b0 ∈ P)); [left; apply Hin; set_solver|by right].
Qed.

(** C35: a preview cannot write outside its own scratch namespaces, nor read
    anything but them and what the pipeline reads: every output bucket of the
    rewritten document is one of them, every input bucket is one of them or an
    input of the same component, each name starts with the preview's own prefix
    and fits 63 characters, and previews with different prefixes share none. *)
Theorem preview_isolated (pid : string) (doc : DocPipeline) (untilStage : string) (r : RewriteResult)
  (Hid : id_ok pid) (Hr : Rewrite pid doc untilStage = Ok r) :
  (∀ b, b ∈ rr_Namespaces r → ∃ t, b = id_prefix pid +:+ t ∧ slen b ≤ 63) ∧
  (∀ c, component_of (d_Stages (rr_Doc r)) c →
    (∀ b, b ∈ output_buckets (dc_Outputs c) → b ∈ rr_Namespaces r) ∧
    ∃ out c0, json_copy doc = Ok out ∧ component_of (d_Stages out) c0 ∧ dc_Name c = dc_Name c0 ∧
      ∀ b, b ∈ input_buckets (dc_Inputs c) → b ∈ rr_Namespaces r ∨ b ∈ input_buckets (dc_Inputs c0)) ∧
  ∀ pid' doc' untilStage' r', id_ok pid' → Rewrite pid' doc' untilStage' = Ok r' →
    str_take 8 pid ≠ str_take 8 pid' → ∀ b, b ∈ rr_Namespaces r → b ∉ rr_Namespaces r'.
Proof.
  destruct (Rewrite_isolated pid doc untilStage r Hid Hr) as [Hns Hc]. split_and!; [done..|].
  intros pid' doc' untilStage' r' Hid' Hr' Hne b Hb Hb'. apply Hne.
  destruct (Rewrite_isolated pid' doc' untilStage' r' Hid' Hr') as [Hns' _].
  destruct (Hns b Hb) as (t & Ht & _), (Hns' b Hb') as (t' & Ht' & _).
  assert (∀ p, id_ok p → slen (str_take 8 p) = 8) as Hl.
  { intros p (x & c & -> & Hx & _). rewrite slen_app, Hx. done. }
  rewrite Ht in Ht'. unfold id_prefix in Ht'. rewrite !str_app_assoc in Ht'. apply str_app_inj_l in Ht'.
  apply (f_equal (str_take 8)) in Ht'. rewrite !str_take_app in Ht' by (by rewrite Hl).
  rewrite !Hl, !Nat.sub_diag in Ht' by done. cbn [str_take] in Ht'. destruct t, t'; by rewrite !str_app_nil in Ht'.
Qed.
End Properties.

(** ** Examples *)

Module PreviewExamples.
#[local] Instance ascii_tables : UnicodeTables :=
  {| is_print_above_latin1 _ := false; to_upper_above_latin1 r := r |}.
#[local] Instance exact_copy : PipelineJson := {| json_copy d := Ok d |}.

Definition pid1 : string := "0f8fad5b-d9cb-469f-a165-70867728950e".
Definition pid2 : string := "7c9e6679-7425-40de-944b-e07fc1f90ae7".
Definition component (name : string) (ins outs : list string) : DocComponent :=
  MkDocComponent name "sql" EmptyString EmptyString [] (Some (MkDocInputs ins []))
    (Some (MkDocOutputs EmptyString EmptyString ((λ b, MkDocOutputBucket b "APPEND") <$> outs) [] [])) None.
Definition gateway : DocGateway := MkDocGateway 0 0 0 0.
Definition doc : DocPipeline := MkDocPipeline "orders" EmptyString gateway
  [MkDocStage "extract" [component "a" ["raw"] ["raw"]];
   MkDocStage "load" [component "b" ["raw"; "ref"] ["mart"]; component "c" ["mart"] ["out"]];
   MkDocStage "publish" [component "d" ["out"] ["public"]]].

Definition buckets (r : result string RewriteResult) : result string (list (list string * list string)) :=
  (λ r, (λ c, (input_buckets (dc_Inputs c), output_buckets (dc_Outputs c))) <$>
    mjoin (ds_Components <$> d_Stages (rr_Doc r))) <$> r.
(** The first component reads the real bucket it also writes. *)
Example rewrite_sample : buckets (Rewrite pid1 doc "load") =
  Ok [(["raw"], ["pv-0f8fad5b-raw"]); (["pv-0f8fad5b-raw"; "ref"], ["pv-0f8fad5b-mart"]);
      (["pv-0f8fad5b-mart"], ["pv-0f8fad5b-out"])].
Proof. vm_compute. reflexivity. Qed.
Example rewrite_unknown : is_ok (Rewrite pid1 doc "nope") = false.
Proof. vm_compute. reflexivity. Qed.
Example rewrite_collision :
  is_ok (Rewrite pid1 (MkDocPipeline "p" EmptyString gateway [MkDocStage "s" [component "a" [] ["x"; "x-"]]]) EmptyString) = false.
Proof. vm_compute. reflexivity. Qed.

Lemma pid1_ok : id_ok pid1.
Proof. by exists "0f8fad5", "b"%char. Qed.
Lemma pid2_ok : id_ok pid2.
Proof. by exists "7c9e667", "9"%char. Qed.
Lemma preview_isolated_witness : ∃ r r', Rewrite pid1 doc "load" = Ok r ∧ Rewrite pid2 doc "load" = Ok r' ∧
  rr_Namespaces r = ["pv-0f8fad5b-mart"; "pv-0f8fad5b-out"; "pv-0f8fad5b-raw"] ∧
  "pv-0f8fad5b-raw" ∉ rr_Namespaces r'.
Proof.
  destruct (Rewrite pid1 doc "load") as [r|e] eqn:E; [|vm_compute in E; discriminate].
  destruct (Rewrite pid2 doc "load") as [r'|e'] eqn:E'; [|vm_compute in E'; discriminate].
  assert (rr_Namespaces r = ["pv-0f8fad5b-mart"; "pv-0f8fad5b-out"; "pv-0f8fad5b-raw"]) as Hns
    by (vm_compute in E; injection E as <-; reflexivity).
  exists r, r'. split; [reflexivity|]. split; [reflexivity|]. split; [exact Hns|].
  apply (proj2 (proj2 (preview_isolated pid1 doc "load" r pid1_ok E)) pid2 doc "load" r' pid2_ok E').
  - vm_compute. discriminate.
  - rewrite Hns. right. right. left.
Defined.
End PreviewExamples.
