(* ===== verification/PreviewStore.v ===== *)
(** * PreviewStore: the previews table (pkg/pipelineapi/store/preview.go)

    The rows and the statements that change them, each as a function on the rows
    of the table; [InsertPreview] is one transaction under the project's lock, so
    it is one step.  Times are integers; ids are strings. *)

From S2P Require Import Prelude.

Record Preview := MkPreview {
  p_ID : string;
  p_ProjectID : string;
  p_TriggeredBy : option string;  (** [None] for the nil uuid *)
  p_Workspace : string;
  p_Doc : string;
  p_RowLimit : Z;
  p_UntilStage : string;  (** the column is NULL for the empty name *)
  p_TTLSeconds : Z;
  p_TimeoutSeconds : Z;
  p_ScratchNamespaces : list string;
  p_LakekeeperProjectID : string;
  p_Warehouse : string;
  p_K8sNamespace : string;
  p_Phase : string;
  p_CurrentStage : string;
  p_Message : string;
  p_StageStatuses : option string;
  p_Result : option string;
  p_ObservedRV : Z;
  p_FGATupleDeletedAt : option Z;
  p_StartedAt : option Z;
  p_CompletedAt : option Z;
  p_CleanedAt : option Z;
  p_CreatedAt : Z;
  p_ExpiresAt : option Z;  (** [None] only before the insert *)
}.

Definition set_phase (phase : string) (p : Preview) : Preview :=
  MkPreview (p_ID p) (p_ProjectID p) (p_TriggeredBy p) (p_Workspace p) (p_Doc p) (p_RowLimit p)
    (p_UntilStage p) (p_TTLSeconds p) (p_TimeoutSeconds p) (p_ScratchNamespaces p)
    (p_LakekeeperProjectID p) (p_Warehouse p) (p_K8sNamespace p) phase (p_CurrentStage p) (p_Message p) (p_StageStatuses p) (p_Result p)
    (p_ObservedRV p) (p_FGATupleDeletedAt p) (p_StartedAt p) (p_CompletedAt p) (p_CleanedAt p) (p_CreatedAt p) (p_ExpiresAt p).
Definition set_expires (at_ : option Z) (p : Preview) : Preview :=
  MkPreview (p_ID p) (p_ProjectID p) (p_TriggeredBy p) (p_Workspace p) (p_Doc p) (p_RowLimit p)
    (p_UntilStage p) (p_TTLSeconds p) (p_TimeoutSeconds p) (p_ScratchNamespaces p)
    (p_LakekeeperProjectID p) (p_Warehouse p) (p_K8sNamespace p) (p_Phase p) (p_CurrentStage p) (p_Message p) (p_StageStatuses p) (p_Result p)
    (p_ObservedRV p) (p_FGATupleDeletedAt p) (p_StartedAt p) (p_CompletedAt p) (p_CleanedAt p) (p_CreatedAt p) at_.
Definition set_cleaned (at_ : Z) (p : Preview) : Preview :=
  MkPreview (p_ID p) (p_ProjectID p) (p_TriggeredBy p) (p_Workspace p) (p_Doc p) (p_RowLimit p)
    (p_UntilStage p) (p_TTLSeconds p) (p_TimeoutSeconds p) (p_ScratchNamespaces p)
    (p_LakekeeperProjectID p) (p_Warehouse p) (p_K8sNamespace p) (p_Phase p) (p_CurrentStage p) (p_Message p) (p_StageStatuses p) (p_Result p)
    (p_ObservedRV p) (p_FGATupleDeletedAt p) (p_StartedAt p) (p_CompletedAt p) (Some at_) (p_CreatedAt p) (p_ExpiresAt p).
Definition set_tuple_deleted (at_ : Z) (p : Preview) : Preview :=
  MkPreview (p_ID p) (p_ProjectID p) (p_TriggeredBy p) (p_Workspace p) (p_Doc p) (p_RowLimit p)
    (p_UntilStage p) (p_TTLSeconds p) (p_TimeoutSeconds p) (p_ScratchNamespaces p)
    (p_LakekeeperProjectID p) (p_Warehouse p) (p_K8sNamespace p) (p_Phase p) (p_CurrentStage p) (p_Message p) (p_StageStatuses p) (p_Result p)
    (p_ObservedRV p) (Some at_) (p_StartedAt p) (p_CompletedAt p) (p_CleanedAt p) (p_CreatedAt p) (p_ExpiresAt p).
Definition set_result (r : string) (p : Preview) : Preview :=
  MkPreview (p_ID p) (p_ProjectID p) (p_TriggeredBy p) (p_Workspace p) (p_Doc p) (p_RowLimit p)
    (p_UntilStage p) (p_TTLSeconds p) (p_TimeoutSeconds p) (p_ScratchNamespaces p)
    (p_LakekeeperProjectID p) (p_Warehouse p) (p_K8sNamespace p) (p_Phase p) (p_CurrentStage p) (p_Message p) (p_StageStatuses p) (Some r)
    (p_ObservedRV p) (p_FGATupleDeletedAt p) (p_StartedAt p) (p_CompletedAt p) (p_CleanedAt p) (p_CreatedAt p) (p_ExpiresAt p).

(** [UPDATE previews SET ... WHERE id = $1 AND ...]: the rows, and whether one was affected. *)
Definition update (id : string) (guard : Preview → bool) (f : Preview → Preview) (rows : list Preview) :
    list Preview * bool :=
  let hit p := bool_decide (p_ID p = id) && guard p in
  ((λ p, if hit p then f p else p) <$> rows, existsb hit rows).

(** ** Inserting under the caps *)

Record PreviewCaps := MkPreviewCaps {
  cap_RunningPerWorkspace : Z;
  cap_RunningPerProject : Z;
  cap_MaxPerProject : Z;
}.
Inductive insert_error : Type :=
| PreviewCapError (runningInWorkspace runningInProject liveInProject : Z)
| StoreError (msg : string).

Definition phase_running (phase : string) : bool := bool_decide (phase = "Pending") || bool_decide (phase = "Running").
Definition uncleaned (p : Preview) : bool := bool_decide (p_CleanedAt p = None).
Definition in_project (project : string) (p : Preview) : bool := bool_decide (p_ProjectID p = project).
Definition count_rows (P : Preview → bool) (rows : list Preview) : Z := Z.of_nat (length (filter (λ p, P p = true) rows)).

Definition runningInWorkspace (project workspace : string) (rows : list Preview) : Z :=
  count_rows (λ p, in_project project p && phase_running (p_Phase p) && uncleaned p && bool_decide (p_Workspace p = workspace)) rows.
Definition runningInProject (project : string) (rows : list Preview) : Z :=
  count_rows (λ p, in_project project p && phase_running (p_Phase p) && uncleaned p) rows.
Definition liveInProject (project : string) (rows : list Preview) : Z :=
  count_rows (λ p, in_project project p && uncleaned p) rows.

(** [ORDER BY created_at ASC, id ASC]. *)
Definition older (p q : Preview) : Prop :=
  (p_CreatedAt p < p_CreatedAt q)%Z ∨ (p_CreatedAt p = p_CreatedAt q ∧ String.le (p_ID p) (p_ID q)).
#[export] Instance older_dec p q : Decision (older p q).
Proof. unfold older. apply _. Defined.
Definition evictable (project : string) (p : Preview) : bool :=
  in_project project p && negb (uncleaned p) && bool_decide (p_FGATupleDeletedAt p ≠ None).
(** The ids to evict: oldest first, as many as the project has over the cap less one. *)
Definition evicted (project : string) (max : Z) (rows : list Preview) : list string :=
  let excess := (count_rows (in_project project) rows - max + 1)%Z in
  p_ID <$> take (Z.to_nat (Z.max 0 excess)) (merge_sort older (filter (λ p, evictable project p = true) rows)).
Definition evict (project : string) (max : Z) (rows : list Preview) : list Preview :=
  if (0 <? max)%Z then filter (λ p, p_ID p ∉ evicted project max rows) rows else rows.

Definition capped (cap n : Z) : bool := (0 <? cap)%Z && (cap <=? n)%Z.
(** [now] is the transaction's time. *)
Definition inserted_row (now : Z) (p : Preview) : Preview :=
  let p := set_phase (if str_empty (p_Phase p) then "Pending" else p_Phase p) p in
  let p := set_expires (match p_ExpiresAt p with
    | Some t => Some t
    | None => Some (now + (p_TimeoutSeconds p + p_TTLSeconds p) * 1000000000)%Z
    end) p in
  MkPreview (p_ID p) (p_ProjectID p) (p_TriggeredBy p) (p_Workspace p) (p_Doc p) (p_RowLimit p)
    (p_UntilStage p) (p_TTLSeconds p) (p_TimeoutSeconds p) (p_ScratchNamespaces p)
    (p_LakekeeperProjectID p) (p_Warehouse p) (p_K8sNamespace p) (p_Phase p) EmptyString EmptyString None None 0 None None None None now (p_ExpiresAt p).
(** The rows after the transaction; on an error it is rolled back, the evictions too. *)
Definition InsertPreview (caps : PreviewCaps) (now : Z) (p : Preview) (rows : list Preview) :
    result insert_error (list Preview * Preview) :=
  let rows' := evict (p_ProjectID p) (cap_MaxPerProject caps) rows in
  let w := runningInWorkspace (p_ProjectID p) (p_Workspace p) rows' in
  let r := runningInProject (p_ProjectID p) rows' in
  let l := liveInProject (p_ProjectID p) rows' in
  if capped (cap_RunningPerWorkspace caps) w || capped (cap_RunningPerProject caps) r || capped (cap_MaxPerProject caps) l
  then Err (PreviewCapError w r l)
  else if existsb (λ q, bool_decide (p_ID q = p_ID p)) rows' then Err (StoreError "insert preview: duplicate key")
  else Ok (rows' ++ [inserted_row now p], inserted_row now p).

(** ** Updates *)

Record UpdatePreviewPhaseOpts := MkUpdatePreviewPhaseOpts {
  u_Phase : string;
  u_CurrentStage : string;
  u_Message : string;
  u_StartedAt : option Z;
  u_CompletedAt : option Z;
  u_ObservedRV : Z;
  u_StageStatuses : option string;
  u_GuardTerminal : bool;
}.
Definition coalesce {A} (a b : option A) : option A := match a with Some _ => a | None => b end.
Definition finished_phase (phase : string) : bool :=
  bool_decide (phase ∈ ["Succeeded"; "FailedUser"; "FailedApplication"; "Cancelled"; "Expired"]).
Definition phase_guard (o : UpdatePreviewPhaseOpts) (p : Preview) : bool :=
  ((u_ObservedRV o =? 0)%Z || (p_ObservedRV p <? u_ObservedRV o)%Z) &&
  (negb (u_GuardTerminal o) || negb (bool_decide (p_Phase p ∈ ["Cancelled"; "Expired"]))).
Definition phase_update (now : Z) (o : UpdatePreviewPhaseOpts) (p : Preview) : Preview :=
  MkPreview (p_ID p) (p_ProjectID p) (p_TriggeredBy p) (p_Workspace p) (p_Doc p) (p_RowLimit p)
    (p_UntilStage p) (p_TTLSeconds p) (p_TimeoutSeconds p) (p_ScratchNamespaces p)
    (p_LakekeeperProjectID p) (p_Warehouse p) (p_K8sNamespace p) (u_Phase o) (u_CurrentStage o) (u_Message o)
    (coalesce (u_StageStatuses o) (p_StageStatuses p)) (p_Result p) (Z.max (p_ObservedRV p) (u_ObservedRV o))
    (p_FGATupleDeletedAt p) (coalesce (u_StartedAt o) (p_StartedAt p)) (coalesce (u_CompletedAt o) (p_CompletedAt p))
    (p_CleanedAt p) (p_CreatedAt p)
    (if finished_phase (u_Phase o)
     then Some (default now (coalesce (u_CompletedAt o) (p_CompletedAt p)) + p_TTLSeconds p * 1000000000)%Z
     else p_ExpiresAt p).
Definition UpdatePreviewPhase (now : Z) (id : string) (o : UpdatePreviewPhaseOpts) (rows : list Preview) :
    list Preview * bool :=
  update id (phase_guard o) (phase_update now o) rows.

Definition SetPreviewResult (id r : string) (rows : list Preview) : list Preview :=
  (update id (λ p, bool_decide (p_Result p = None)) (set_result r) rows).1.
Definition OverwritePreviewResult (id r : string) (rows : list Preview) : list Preview :=
  (update id (λ _, true) (set_result r) rows).1.
Definition MarkPreviewTupleDeleted (id : string) (at_ : Z) (rows : list Preview) : list Preview :=
  (update id (λ _, true) (set_tuple_deleted at_) rows).1.
Definition ExpirePreviewNow (id : string) (now : Z) (rows : list Preview) : list Preview :=
  (update id (λ _, true) (λ p, set_expires (Some (match p_ExpiresAt p with Some t => Z.min t now | None => now end)) p) rows).1.
Definition DeferPreviewExpiry (id : string) (until : Z) (rows : list Preview) : list Preview :=
  (update id uncleaned (set_expires (Some until)) rows).1.
Definition MarkPreviewCleaned (id : string) (at_ : Z) (expired : bool) (rows : list Preview) : list Preview :=
  (update id (λ _, true) (λ p,
    set_cleaned at_ (set_phase (if expired && phase_running (p_Phase p) then "Expired" else p_Phase p) p)) rows).1.

(** ** Queries *)

Definition GetPreview (project id : string) (rows : list Preview) : option Preview :=
  find (λ p, bool_decide (p_ID p = id) && in_project project p) rows.
(** [ORDER BY created_at ASC LIMIT n]: rows of one time in the order of the list. *)
Definition by_created (p q : Preview) : Prop := (p_CreatedAt p ≤ p_CreatedAt q)%Z.
Definition by_expires (p q : Preview) : Prop := (default 0 (p_ExpiresAt p) ≤ default 0 (p_ExpiresAt q))%Z.
#[export] Instance by_created_dec p q : Decision (by_created p q).
Proof. unfold by_created. apply _. Defined.
#[export] Instance by_expires_dec p q : Decision (by_expires p q).
Proof. unfold by_expires. apply _. Defined.
Definition needs_tuple_delete (p : Preview) : bool :=
  finished_phase (p_Phase p) && bool_decide (p_FGATupleDeletedAt p = None).
Definition ListPreviewsNeedingTupleDelete (limit : nat) (rows : list Preview) : list Preview :=
  take limit (merge_sort by_created (filter (λ p, needs_tuple_delete p = true) rows)).
Definition expired_at (now : Z) (p : Preview) : bool :=
  match p_ExpiresAt p with Some t => (t <? now)%Z | None => false end && uncleaned p.
Definition ListExpiredPreviews (now : Z) (limit : nat) (rows : list Preview) : list Preview :=
  take limit (merge_sort by_expires (filter (λ p, expired_at now p = true) rows)).
Definition ListPreviewIDsInWorkspace (project workspace : string) (rows : list Preview) : list string :=
  p_ID <$> filter (λ p, in_project project p && bool_decide (p_Workspace p = workspace) && uncleaned p = true) rows.

(** ** Counting *)

Lemma count_rows_app P rows rows' : count_rows P (rows ++ rows') = (count_rows P rows + count_rows P rows')%Z.
Proof. unfold count_rows. rewrite filter_app, length_app. lia. Qed.
Lemma count_rows_cons P p rows : count_rows P (p :: rows) = ((if P p then 1 else 0) + count_rows P rows)%Z.
Proof.
  unfold count_rows. rewrite filter_cons. case_decide as H; [rewrite H; cbn [length]; lia|].
  apply not_true_is_false in H. rewrite H. lia.
Qed.
Lemma count_rows_filter P (Q : Preview → Prop) `{∀ p, Decision (Q p)} rows :
  (∀ p, P p = true → Q p) → count_rows P (filter Q rows) = count_rows P rows.
Proof.
  intros HPQ. induction rows as [|p rows IH]; [done|]. rewrite filter_cons, count_rows_cons.
  destruct (decide (Q p)) as [Hq|Hq]; [by rewrite count_rows_cons, IH|].
  rewrite IH. destruct (P p) eqn:E; [by destruct (Hq (HPQ p E))|lia].
Qed.
Lemma count_rows_filter_le P (Q : Preview → Prop) `{∀ p, Decision (Q p)} rows :
  (count_rows P (filter Q rows) ≤ count_rows P rows)%Z.
Proof.
  induction rows as [|p rows IH]; [done|]. rewrite filter_cons, count_rows_cons.
  destruct (decide (Q p)); [rewrite count_rows_cons; lia|]. destruct (P p); lia.
Qed.
(** An update that moves no row into [P] does not raise its count. *)
Lemma count_rows_update P id guard f rows :
  (∀ p, p ∈ rows → p_ID p = id → guard p = true → P (f p) = true → P p = true) →
  (count_rows P (update id guard f rows).1 ≤ count_rows P rows)%Z.
Proof.
  unfold update. cbn [fst]. induction rows as [|p rows IH]; intros Hf; [done|].
  cbn [fmap list_fmap]. rewrite !count_rows_cons.
  assert (count_rows P ((λ p0, if bool_decide (p_ID p0 = id) && guard p0 then f p0 else p0) <$> rows) ≤ count_rows P rows)%Z as Hle.
  { apply IH. intros q Hq. apply Hf. by right. }
  specialize (Hf p ltac:(by left)). destruct (bool_decide_reflect (p_ID p = id)) as [Hid|]; cbn; [|lia].
  destruct (guard p) eqn:Eg; [|lia]. specialize (Hf Hid eq_refl).
  destruct (P (f p)), (P p); lia.
Qed.
Lemma update_ids id guard f rows : (∀ p, p_ID (f p) = p_ID p) → p_ID <$> (update id guard f rows).1 = p_ID <$> rows.
Proof.
  intros Hf. unfold update. cbn. rewrite <-list_fmap_compose. apply list_fmap_ext. intros i p _. cbn.
  destruct (_ && _); [apply Hf|done].
Qed.

(** ** Eviction *)

Lemma elem_of_evicted project max rows id : id ∈ evicted project max rows →
  ∃ p, p ∈ rows ∧ p_ID p = id ∧ evictable project p = true.
Proof.
  unfold evicted. rewrite list_elem_of_fmap. intros (p & -> & Hp). exists p.
  apply elem_of_take in Hp as (i & Hi & _). apply list_elem_of_lookup_2 in Hi.
  rewrite merge_sort_Permutation in Hi. apply list_elem_of_filter in Hi as [? ?]. done.
Qed.
(** A row that is not evictable stays, if ids are unique. *)
Lemma evict_keeps project max rows p : NoDup (p_ID <$> rows) → p ∈ rows → evictable project p = false → p ∈ evict project max rows.
Proof.
  intros Hnd Hp He. unfold evict. destruct (0 <? max)%Z; [|done]. apply list_elem_of_filter. split; [|done].
  intros (q & Hq & Hid & Hev)%elem_of_evicted. enough (q = p) by congruence.
  apply list_elem_of_lookup_1 in Hp as [i Hi], Hq as [j Hj].
  assert (j = i) as ->; [|congruence]. eapply (NoDup_lookup _ _ _ (p_ID p) Hnd); rewrite list_lookup_fmap.
  - by rewrite Hj, <-Hid.
  - by rewrite Hi.
Qed.
Lemma evict_sublist project max rows : sublist (evict project max rows) rows.
Proof. unfold evict. destruct (0 <? max)%Z; [apply sublist_filter|done]. Qed.

(** ** The caps *)

(** No project is over a cap. *)
Definition within (caps : PreviewCaps) (rows : list Preview) : Prop := ∀ project,
  (0 < cap_MaxPerProject caps → liveInProject project rows ≤ cap_MaxPerProject caps)%Z ∧
  (0 < cap_RunningPerProject caps → runningInProject project rows ≤ cap_RunningPerProject caps)%Z ∧
  ∀ workspace, (0 < cap_RunningPerWorkspace caps → runningInWorkspace project workspace rows ≤ cap_RunningPerWorkspace caps)%Z.

Lemma count_evict_le P project max rows : (count_rows P (evict project max rows) ≤ count_rows P rows)%Z.
Proof. unfold evict. destruct (0 <? max)%Z; [apply count_rows_filter_le|done]. Qed.
Lemma within_le caps rows rows' :
  (∀ project, liveInProject project rows' ≤ liveInProject project rows ∧
    runningInProject project rows' ≤ runningInProject project rows ∧
    ∀ ws, runningInWorkspace project ws rows' ≤ runningInWorkspace project ws rows)%Z →
  within caps rows → within caps rows'.
Proof.
  intros Hle Hw project. destruct (Hle project) as (H1 & H2 & H3), (Hw project) as (W1 & W2 & W3).
  split_and!; [lia..|]. intros ws Hws. specialize (H3 ws). specialize (W3 ws Hws). lia.
Qed.
Lemma evict_within caps project max rows : within caps rows → within caps (evict project max rows).
Proof. apply within_le. intros p. split_and!; [apply count_evict_le..|]. intros ws. apply count_evict_le. Qed.

Lemma InsertPreview_within caps now p rows rows' q :
  within caps rows → InsertPreview caps now p rows = Ok (rows', q) → within caps rows'.
Proof.
  intros Hw. unfold InsertPreview. set (rows1 := evict _ _ rows).
  assert (within caps rows1) as Hw1 by (by apply evict_within).
  destruct (capped (cap_RunningPerWorkspace caps) _) eqn:E1; [done|].
  destruct (capped (cap_RunningPerProject caps) _) eqn:E2; [done|].
  destruct (capped (cap_MaxPerProject caps) _) eqn:E3; [done|]. cbn.
  destruct (existsb _ rows1); [done|]. intros [= <- <-] project. destruct (Hw1 project) as (W1 & W2 & W3).
  unfold capped in E1, E2, E3. unfold liveInProject, runningInProject, runningInWorkspace in *.
  assert (∀ cap n, (0 <? cap)%Z && (cap <=? n)%Z = false → (0 < cap)%Z → (n < cap)%Z) as Hcap.
  { intros cap n [H|H]%andb_false_iff Hc; to_arith; lia. }
  rewrite !count_rows_app. unfold count_rows at 2 4. cbn [length filter].
  split_and!.
  - intros Hc. rewrite filter_cons, filter_nil. case_decide as Hd; [|cbn; lia]. cbn.
    apply andb_true_iff in Hd as [Hd _]. apply bool_decide_eq_true in Hd. cbn in Hd. subst project.
    pose proof (Hcap _ _ E3 Hc). lia.
  - intros Hc. rewrite filter_cons, filter_nil. case_decide as Hd; [|cbn; lia]. cbn.
    apply andb_true_iff in Hd as [Hd _]. apply andb_true_iff in Hd as [Hd _].
    apply bool_decide_eq_true in Hd. cbn in Hd. subst project. pose proof (Hcap _ _ E2 Hc). lia.
  - intros ws Hc. rewrite count_rows_app. unfold count_rows at 2. rewrite filter_cons, filter_nil.
    case_decide as Hd; [|specialize (W3 ws Hc); cbn; lia]. cbn.
    apply andb_true_iff in Hd as [Hd Hws]. apply andb_true_iff in Hd as [Hd _]. apply andb_true_iff in Hd as [Hd _].
    apply bool_decide_eq_true in Hd, Hws. cbn in Hd, Hws. subst project ws. pose proof (Hcap _ _ E1 Hc). lia.
Qed.

(** ** Any sequence of statements *)

(** A phase update does not bring a finished preview back: the observer reports
    the phases of a PipelineRun, whose terminal phase never changes. *)
Definition no_revival (id : string) (o : UpdatePreviewPhaseOpts) (rows : list Preview) : Prop :=
  phase_running (u_Phase o) = true → ∀ p, p ∈ rows → p_ID p = id → phase_guard o p = true → phase_running (p_Phase p) = true.
Inductive statement (caps : PreviewCaps) : list Preview → list Preview → Prop :=
| st_insert now p rows rows' q : InsertPreview caps now p rows = Ok (rows', q) → statement caps rows rows'
| st_phase now id o rows : no_revival id o rows → statement caps rows (UpdatePreviewPhase now id o rows).1
| st_result id r rows : statement caps rows (SetPreviewResult id r rows)
| st_overwrite id r rows : statement caps rows (OverwritePreviewResult id r rows)
| st_tuple id at_ rows : statement caps rows (MarkPreviewTupleDeleted id at_ rows)
| st_expire id now rows : statement caps rows (ExpirePreviewNow id now rows)
| st_defer id until rows : statement caps rows (DeferPreviewExpiry id until rows)
| st_cleaned id at_ expired rows : statement caps rows (MarkPreviewCleaned id at_ expired rows).
Inductive table_of (caps : PreviewCaps) : list Preview → Prop :=
| table_empty : table_of caps []
| table_step rows rows' : table_of caps rows → statement caps rows rows' → table_of caps rows'.

Lemma update_within caps id guard f rows :
  (∀ p, p ∈ rows → p_ID p = id → guard p = true →
    p_ProjectID (f p) = p_ProjectID p ∧ p_Workspace (f p) = p_Workspace p ∧
    (uncleaned (f p) = true → uncleaned p = true) ∧
    (phase_running (p_Phase (f p)) = true → phase_running (p_Phase p) = true)) →
  within caps rows → within caps (update id guard f rows).1.
Proof.
  intros Hf. apply within_le. intros project. split_and!; [| |intros ws]; apply count_rows_update;
    intros p Hp Hid Hg; destruct (Hf p Hp Hid Hg) as (H1 & H2 & H3 & H4); unfold in_project; rewrite H1, ?H2;
    rewrite !andb_true_iff; naive_solver.
Qed.
Lemma statement_within caps rows rows' : statement caps rows rows' → within caps rows → within caps rows'.
Proof.
  intros H Hw. destruct H as [now p rows rows' q H|now id o rows Hr|id r rows|id r rows|id t rows|id t rows|id t rows|id t e rows].
  { by eapply InsertPreview_within. }
  all: apply update_within; [|done]; intros p Hp Hid Hg; cbn; try by split_and!.
  - split_and!; [done..|]. intros Hrun. by apply (Hr Hrun).
  - split_and!; [done..|]. destruct (e && phase_running (p_Phase p)); [done|by auto].
Qed.

(** Whatever statements the API replicas run, in whatever order, no project
    ever has more live previews, nor more running ones (in a workspace or in
    all), than the caps allow. *)
Theorem preview_caps_hold (caps : PreviewCaps) (rows : list Preview) (H : table_of caps rows) : within caps rows.
Proof.
  induction H as [|rows rows' _ IH Hs]; [|by eapply statement_within].
  intros project. by split_and!; [apply Z.lt_le_incl..|intros ws; apply Z.lt_le_incl].
Qed.

Module PreviewStoreExamples.
Definition caps : PreviewCaps := MkPreviewCaps 1 2 2.
Definition row (id : string) : Preview :=
  MkPreview id "p1" None "main" "{}" 100 EmptyString 3600 600 [("pv-" ++ id)%string] "lk" "wh" "ns" EmptyString EmptyString EmptyString
    None None 0 None None None None 0 None.
Definition done_ : UpdatePreviewPhaseOpts :=
  MkUpdatePreviewPhaseOpts "Succeeded" EmptyString EmptyString None (Some 5000000000%Z) 7 None true.
(** A first preview is created, finishes, is cleaned and loses its tuple. *)
Definition t1 : list Preview := [inserted_row 1 (row "a")].
Definition t2 : list Preview := (UpdatePreviewPhase 2 "a" done_ t1).1.
Definition t3 : list Preview := t2 ++ [inserted_row 3 (row "b")].
Definition t4 : list Preview := MarkPreviewCleaned "a" 4 true t3.
Definition t5 : list Preview := MarkPreviewTupleDeleted "a" 5 t4.

Example running_cap : InsertPreview caps 2 (row "b") t1 = Err (PreviewCapError 1 1 1).
Proof. reflexivity. Qed.
Example finished_expiry : p_ExpiresAt <$> t2 = [Some 3605000000000%Z].
Proof. reflexivity. Qed.
Example full : InsertPreview caps 4 (row "c") (UpdatePreviewPhase 4 "b" done_ t3).1 = Err (PreviewCapError 0 0 2).
Proof. reflexivity. Qed.
(** The cleaned row is evicted only when an insert needs its place. *)
Example evicts : match InsertPreview caps 6 (row "c") (UpdatePreviewPhase 6 "b" done_ t5).1 with
  | Ok r => p_ID <$> r.1
  | Err _ => []
  end = ["b"; "c"].
Proof. vm_compute. reflexivity. Qed.
Example expired_listed : p_ID <$> ListExpiredPreviews 4200000000004 10 t3 = ["a"; "b"].
Proof. vm_compute. reflexivity. Qed.

Lemma preview_caps_hold_witness : table_of caps t3 ∧ within caps t3.
Proof.
  assert (table_of caps t3) as H; [|split; [exact H|exact (preview_caps_hold caps t3 H)]].
  eapply (table_step _ t2); [eapply (table_step _ t1); [eapply (table_step _ []); [constructor|]|]|].
  - by apply (st_insert caps 1 (row "a") [] t1 (inserted_row 1 (row "a"))).
  - apply st_phase. intros Hrun. discriminate Hrun.
  - by apply (st_insert caps 3 (row "b") t2 t3 (inserted_row 3 (row "b"))).
Defined.
End PreviewStoreExamples.
