(* ===== verification/Authz.v ===== *)
(** * Authz: OpenFGA objects and project tuples
      (pkg/pipelineapi/authz/types.go, reconciler.go)

    The objects and their wire form, and the writers of project tuples, which
    tolerate a tuple that is there already or gone already.  The OpenFGA client
    is the class [Authorizer] over the world [X]. *)

From S2P Require Import Prelude.

(** ** Objects *)

Record Object := MkObject { o_kind : string; o_id : string }.
#[export] Instance Object_eq : EqDecision Object.
Proof. solve_decision. Defined.
#[export] Instance Object_countable : Countable Object.
Proof. by refine (inj_countable' (λ o, (o_kind o, o_id o)) (λ x, MkObject x.1 x.2) _); intros []. Defined.
Definition Object_String (o : Object) : string := o_kind o +:+ ":" +:+ o_id o.

Definition lakekeeperUserPrefix : string := "oidc~".
Definition ProjectObject (uuid : string) : Object := MkObject "project" uuid.
Definition NamespaceObject (name : string) : Object := MkObject "namespace" name.
Definition ServerObject (uuid : string) : Object := MkObject "server" uuid.
Definition UserObject (sub : string) : Object :=
  MkObject "user" (if has_prefix lakekeeperUserPrefix sub then sub else lakekeeperUserPrefix +:+ sub).

(** The loop of ParseObject: [before] is s[:i], [s] the rest. *)
Fixpoint split_object (before s : string) : option (string * string) :=
  match s with
  | EmptyString => None
  | String c s => if Ascii.eqb c ":" then Some (before, s) else split_object (before +:+ String c EmptyString) s
  end.
Definition ParseObject `{UT : !UnicodeTables} (s : string) : result string Object :=
  match split_object EmptyString s with
  | Some (kind, id) =>
    if str_empty kind || str_empty id then Err ("authz: ParseObject: malformed " +:+ quote s) else Ok (MkObject kind id)
  | None => Err ("authz: ParseObject: missing ':' in " +:+ quote s)
  end.

Definition RelationEditor : string := "editor".
Definition RelationViewer : string := "viewer".
Record Tuple := MkTuple { t_User : string; t_Relation : string; t_Object : Object }.
#[export] Instance Tuple_eq : EqDecision Tuple.
Proof. solve_decision. Defined.
#[export] Instance Tuple_countable : Countable Tuple.
Proof. by refine (inj_countable' (λ t, (t_User t, t_Relation t, t_Object t)) (λ x, MkTuple x.1.1 x.1.2 x.2) _); intros []. Defined.

(** ** The writers *)

(** The client: an error is its text. *)
Class Authorizer (X : Type) : Type := {
  WriteTuples : list Tuple → St X (option string);
  DeleteTuples : list Tuple → St X (option string);
  Check_ : string → string → Object → St X (result string bool);
}.

Definition isAlreadyExistsErr (err : string) : bool :=
  contains "cannot write a tuple" err || contains "already exists" err.
Definition isMissingTupleErr (err : string) : bool := contains "cannot delete a tuple which does not exist" err.
Definition project_tuple (userSubject relation lakekeeperProjectID : string) : Tuple :=
  MkTuple (Object_String (UserObject userSubject)) relation (ProjectObject lakekeeperProjectID).

Section Reconciler.
Context `{UT : !UnicodeTables} {X : Type} `{AZ : !Authorizer X}.

Definition WriteProjectTuple (userSubject relation lk : string) : St X (option string) :=
  if str_empty userSubject then mret (Some "WriteProjectTuple: userSubject is required")
  else if str_empty relation then mret (Some "WriteProjectTuple: relation is required")
  else if str_empty lk then mret (Some "WriteProjectTuple: lakekeeperProjectID is required")
  else
    err ← WriteTuples [project_tuple userSubject relation lk];
    match err with
    | Some e => if isAlreadyExistsErr e then mret None else mret (Some ("write " +:+ relation +:+ " tuple: " +:+ e))
    | None => mret None
    end.
Definition WriteAdminTuple (userSubject lk : string) : St X (option string) :=
  if str_empty userSubject then mret (Some "WriteAdminTuple: userSubject is required")
  else if str_empty lk then mret (Some "WriteAdminTuple: lakekeeperProjectID is required")
  else WriteProjectTuple userSubject "project_admin" lk.
Definition DeleteProjectTuple (userSubject relation lk : string) : St X (option string) :=
  if str_empty userSubject then mret (Some "DeleteProjectTuple: userSubject is required")
  else if str_empty relation then mret (Some "DeleteProjectTuple: relation is required")
  else if str_empty lk then mret (Some "DeleteProjectTuple: lakekeeperProjectID is required")
  else
    err ← DeleteTuples [project_tuple userSubject relation lk];
    match err with
    | Some e =>
      if isMissingTupleErr e then mret None
      else mret (Some ("delete " +:+ relation +:+ " tuple for user " +:+ quote userSubject +:+ ": " +:+ e))
    | None => mret None
    end.
(** Nested loops that return on the first error. *)
Fixpoint first_error {A} (f : A → St X (option string)) (l : list A) : St X (option string) :=
  match l with
  | [] => mret None
  | a :: l => err ← f a; match err with Some e => mret (Some e) | None => first_error f l end
  end.
Definition project_relations : list string := ["project_admin"; RelationEditor; RelationViewer].
Definition DeleteProjectTuples (lk : string) (userSubjects : list string) : St X (option string) :=
  if str_empty lk then mret (Some "DeleteProjectTuples: lakekeeperProjectID is required")
  else first_error (λ sub, first_error (λ rel, DeleteProjectTuple sub rel lk) project_relations) userSubjects.
Definition EnsureUserHasProjectAdmin (userSubject lk : string) : St X (result string bool) :=
  if str_empty userSubject || str_empty lk
  then mret (Err "EnsureUserHasProjectAdmin: both userSubject and lakekeeperProjectID required")
  else
    r ← Check_ (Object_String (UserObject userSubject)) "project_admin" (ProjectObject lk);
    mret (map_err (λ e, "check project_admin: " +:+ e) r).
End Reconciler.

(** What the code relies on: a write or delete of one tuple that succeeds has its
    effect and no other; so do the errors that say it was there or gone already. *)
Class AuthorizerLaws {X : Type} `{AZ : !Authorizer X} (holds : Tuple → X → Prop) : Prop := {
  write_ok t x x' e : WriteTuples [t] x = (x', e) → (∀ m, e = Some m → isAlreadyExistsErr m = true) → holds t x';
  write_others t t' x x' e : WriteTuples [t] x = (x', e) → t' ≠ t → holds t' x' ↔ holds t' x;
  delete_ok t x x' e : DeleteTuples [t] x = (x', e) → (∀ m, e = Some m → isMissingTupleErr m = true) → ¬ holds t x';
  delete_others t t' x x' e : DeleteTuples [t] x = (x', e) → t' ≠ t → holds t' x' ↔ holds t' x;
  delete_never_adds t x x' e : DeleteTuples [t] x = (x', e) → holds t x' → holds t x;
}.

(** ** Objects and their wire form *)

#[local] Arguments Ascii.eqb : simpl never.
Definition no_colon (s : string) : bool := forall_byte (λ c, negb (Ascii.eqb c ":")) s.

Lemma split_object_app before k id : no_colon k = true → split_object before (k +:+ ":" +:+ id) = Some (before +:+ k, id).
Proof.
  revert before. induction k as [|c k IH]; intros before Hk; [cbn; by rewrite str_app_nil|].
  cbn in Hk. apply andb_true_iff in Hk as [Hc Hk]. apply negb_true_iff in Hc.
  change (String c k +:+ ":" +:+ id) with (String c (k +:+ ":" +:+ id)). cbn [split_object].
  rewrite Hc, IH by done. f_equal. f_equal. by rewrite str_app_assoc.
Qed.
Lemma split_object_some before s kind id : split_object before s = Some (kind, id) →
  ∃ k, kind = before +:+ k ∧ s = k +:+ ":" +:+ id ∧ no_colon k = true.
Proof.
  revert before. induction s as [|c s IH]; intros before; [done|]. cbn [split_object].
  destruct (Ascii.eqb_spec c ":"%char) as [->|Hc].
  - intros [= <- <-]. exists EmptyString. by rewrite str_app_nil.
  - intros (k & -> & -> & Hk)%IH. exists (String c k). split_and!; [by rewrite str_app_assoc|done|].
    unfold no_colon. cbn [forall_byte]. destruct (Ascii.eqb_spec c ":"%char); [done|exact Hk].
Qed.

(** ParseObject reads exactly the wire forms of the objects whose type and id
    are not empty and whose type has no colon, and gives back that object: it is
    the inverse of String on them, and an error on everything else. *)
Theorem ParseObject_correct `{UT : !UnicodeTables} (s : string) (o : Object) :
  ParseObject s = Ok o ↔
  s = Object_String o ∧ no_colon (o_kind o) = true ∧ str_empty (o_kind o) = false ∧ str_empty (o_id o) = false.
Proof.
  unfold ParseObject. split.
  - destruct (split_object EmptyString s) as [[kind id]|] eqn:E; [|done].
    destruct (_ || _) eqn:Hne; [done|]. intros [= <-].
    apply orb_false_iff in Hne. apply split_object_some in E as (k & -> & -> & Hk). by destruct Hne.
  - intros (-> & Hk & H1 & H2). unfold Object_String. rewrite (split_object_app EmptyString) by done.
    change (EmptyString +:+ o_kind o) with (o_kind o). rewrite H1, H2. by destruct o.
Qed.

(** ** The writers *)

Section Laws.
Context `{UT : !UnicodeTables} {X : Type} `{AZ : !Authorizer X} (holds : Tuple → X → Prop) `{AL : !AuthorizerLaws holds}.

Lemma WriteProjectTuple_ok sub rel lk x x' : WriteProjectTuple sub rel lk x = (x', None) →
  holds (project_tuple sub rel lk) x' ∧ ∀ t, t ≠ project_tuple sub rel lk → holds t x' ↔ holds t x.
Proof.
  unfold WriteProjectTuple. destruct (str_empty sub); [done|]. destruct (str_empty rel); [done|].
  destruct (str_empty lk); [done|]. unfold mbind, St_bind. destruct (WriteTuples [_] x) as [x1 e] eqn:E. intros H.
  assert (x1 = x' ∧ ∀ m, e = Some m → isAlreadyExistsErr m = true) as [-> He].
  { destruct e as [m|]; [|by injection H as <-]. destruct (isAlreadyExistsErr m) eqn:Em; [|done].
    injection H as <-. split; [done|]. by intros ? [= <-]. }
  split; [by eapply write_ok|]. intros t Ht. by eapply write_others.
Qed.
Lemma DeleteProjectTuple_effect sub rel lk x x' e : DeleteProjectTuple sub rel lk x = (x', e) →
  (e = None → ¬ holds (project_tuple sub rel lk) x') ∧ (∀ t, holds t x' → holds t x) ∧
  ∀ t, t ≠ project_tuple sub rel lk → holds t x' ↔ holds t x.
Proof.
  unfold DeleteProjectTuple. destruct (str_empty sub); [by intros [= <- <-]|].
  destruct (str_empty rel); [by intros [= <- <-]|]. destruct (str_empty lk); [by intros [= <- <-]|].
  unfold mbind, St_bind. destruct (DeleteTuples [_] x) as [x1 e1] eqn:E. intros H.
  assert (x1 = x') as -> by (destruct e1 as [m|]; [destruct (isMissingTupleErr m)|]; by injection H).
  split_and!.
  - intros ->. eapply delete_ok; [done|]. intros m ->. by destruct (isMissingTupleErr m).
  - intros t Ht. destruct (decide (t = project_tuple sub rel lk)) as [->|Hne]; [by eapply delete_never_adds|].
    by apply (delete_others _ _ _ _ _ E Hne).
  - intros t Ht. by apply (delete_others _ _ _ _ _ E Ht).
Qed.

(** A loop of deletions that only remove tuples: what each element guarantees
    to be gone stays gone. *)
Lemma first_error_gone {A} (f : A → St X (option string)) (gone : A → Tuple → Prop) (l : list A) x x' :
  (∀ a x x' e, f a x = (x', e) → (∀ t, holds t x' → holds t x) ∧ (∀ t, ¬ gone a t → holds t x → holds t x') ∧
    (e = None → ∀ t, gone a t → ¬ holds t x')) →
  ∀ e, first_error f l x = (x', e) →
  (∀ t, holds t x' → holds t x) ∧ (∀ t, (∀ a, a ∈ l → ¬ gone a t) → holds t x → holds t x') ∧
  (e = None → ∀ a t, a ∈ l → gone a t → ¬ holds t x').
Proof.
  intros Hf. revert x. induction l as [|a l IH]; intros x e; cbn [first_error]; unfold mbind, St_bind.
  { intros [= <- <-]. split_and!; [done..|]. intros _ a t Ha. by apply elem_of_nil in Ha. }
  destruct (f a x) as [x1 e1] eqn:E1. destruct (Hf _ _ _ _ E1) as (F1 & F2 & F3).
  destruct e1 as [m|].
  { intros [= <- <-]. split_and!; [done| |done]. intros t Ht. apply F2, Ht. by left. }
  intros H. destruct (IH _ _ H) as (I1 & I2 & I3). split_and!; [by auto| |].
  - intros t Ht Hx. apply I2; [intros b Hb; apply Ht; by right|]. apply F2; [apply Ht; by left|done].
  - intros He b t [->|Hb]%elem_of_cons Hg Hx; [|by eapply I3]. by apply (F3 eq_refl t Hg), I1.
Qed.

(** DeleteProjectTuples never adds a tuple and touches no tuple but the
    admin, editor and viewer tuples of those users on that project; when it
    reports success none of these is left, whatever was missing before. *)
Theorem DeleteProjectTuples_correct (lk : string) (users : list string) (x x' : X) (e : option string)
    (H : DeleteProjectTuples lk users x = (x', e)) :
  (∀ t, holds t x' → holds t x) ∧
  (∀ t, (∀ u rel, u ∈ users → rel ∈ project_relations → t ≠ project_tuple u rel lk) → holds t x → holds t x') ∧
  (e = None → ∀ u rel, u ∈ users → rel ∈ project_relations → ¬ holds (project_tuple u rel lk) x').
Proof.
  unfold DeleteProjectTuples in H. destruct (str_empty lk); [by injection H as <- <-|].
  eapply (first_error_gone _ (λ u t, ∃ rel, rel ∈ project_relations ∧ t = project_tuple u rel lk)) in H as (H1 & H2 & H3).
  - split_and!; [done| |].
    + intros t Ht. apply H2. intros u Hu (rel & Hr & ->). by apply (Ht u rel).
    + intros He u rel Hu Hr. apply (H3 He u); [done|]. by exists rel.
  - intros u x1 x2 e2 H4.
    eapply (first_error_gone _ (λ rel t, t = project_tuple u rel lk)) in H4 as (G1 & G2 & G3).
    + split_and!; [done| |].
      * intros t Ht. apply G2. intros rel Hr ->. apply Ht. by exists rel.
      * intros He t (rel & Hr & ->). by apply (G3 He rel).
    + intros rel y y' e3 (D1 & D2 & D3)%DeleteProjectTuple_effect. split_and!; [done| |].
      * intros t Ht. by apply D3.
      * intros He t ->. by apply D1.
Qed.
End Laws.

Module AuthzExamples.
#[local] Instance ascii_tables : UnicodeTables :=
  {| is_print_above_latin1 _ := false; to_upper_above_latin1 r := r |}.
(** A store of tuples; a client that answers the way OpenFGA words it. *)
#[export] Instance store_authorizer : Authorizer (gset Tuple) := {|
  WriteTuples ts s :=
    if decide (Exists (λ t, t ∈ s) ts) then (s, Some "cannot write a tuple which already exists")
    else (list_to_set ts ∪ s, None);
  DeleteTuples ts s :=
    if decide (Forall (λ t, t ∈ s) ts) then (s ∖ list_to_set ts, None)
    else (s, Some "cannot delete a tuple which does not exist");
  Check_ u rel o s := (s, Ok (bool_decide (MkTuple u rel o ∈ s)));
|}.
#[export] Instance store_laws : AuthorizerLaws (λ t (s : gset Tuple), t ∈ s).
Proof.
  split; intros t; cbn.
  - intros x x' e. case_decide as Hd; intros [= <- <-] _; [by apply Exists_cons in Hd as [?|?%Exists_nil]|set_solver].
  - intros t' x x' e. case_decide; intros [= <- <-]; set_solver.
  - intros x x' e. case_decide as Hd; intros [= <- <-] _; [set_solver|]. intros Ht. by apply Hd, Forall_singleton.
  - intros t' x x' e. case_decide; intros [= <- <-]; set_solver.
  - intros x x' e. case_decide; intros [= <- <-]; set_solver.
Qed.

Definition tuples0 : gset Tuple :=
  {[ project_tuple "alice" "editor" "lk1"; project_tuple "bob" "project_admin" "lk1"; project_tuple "alice" "editor" "lk2" ]}.
Lemma DeleteProjectTuples_correct_witness :
  project_tuple "alice" "editor" "lk2" ∈ (DeleteProjectTuples "lk1" ["alice"; "bob"] tuples0).1 ∧
  project_tuple "bob" "project_admin" "lk1" ∉ (DeleteProjectTuples "lk1" ["alice"; "bob"] tuples0).1.
Proof.
  destruct (DeleteProjectTuples "lk1" ["alice"; "bob"] tuples0) as [x' e] eqn:E.
  assert (e = None) as He by (apply (f_equal snd) in E; vm_compute in E; by symmetry).
  destruct (DeleteProjectTuples_correct _ _ _ _ _ _ E) as (_ & H2 & H3). split.
  - apply H2; [|unfold tuples0; set_solver]. intros u rel _ _ Heq. by apply (f_equal (λ t, o_id (t_Object t))) in Heq.
  - apply (H3 He); [by right; left|by left].
Defined.
End AuthzExamples.
