(* ===== verification/RunTypes.v ===== *)
(** * RunTypes: the PipelineRun resource (pkg/k8s/api/v1/pipelinerun_types.go)

    Spec and status of a PipelineRun as the API server stores them.  Times are
    nanoseconds since the epoch.  The legacy [TableCommits] list, which no code
    of the operator reads or writes, is left out; of the object metadata the
    fields the operator reads are kept. *)

From S2P Require Import Prelude GoValue ApiTypes.

(** ** Phases: Go string types with their named values *)

Inductive PipelineRunPhase : Type :=
| PhaseEmpty
| PipelineRunPhasePending
| PipelineRunPhaseRunning
| PipelineRunPhaseSucceeded
| PipelineRunPhaseFailedUser
| PipelineRunPhaseFailedApplication
| PhaseUnknown (s : string).

Inductive StagePhase : Type :=
| StagePhasePending
| StagePhaseRunning
| StagePhaseCommitting
| StagePhaseSucceeded
| StagePhaseFailedUser
| StagePhaseFailedApplication
| StagePhaseUnknown (s : string).

Inductive ComponentPhase : Type :=
| ComponentPhasePending
| ComponentPhaseRunning
| ComponentPhaseSucceeded
| ComponentPhaseFailedUser
| ComponentPhaseFailedApplication
| ComponentPhaseUnknown (s : string).

#[export] Instance PipelineRunPhase_eq_dec : EqDecision PipelineRunPhase.
Proof. solve_decision. Defined.
#[export] Instance StagePhase_eq_dec : EqDecision StagePhase.
Proof. solve_decision. Defined.
#[export] Instance ComponentPhase_eq_dec : EqDecision ComponentPhase.
Proof. solve_decision. Defined.

(** [metav1.Condition]. *)
Record Condition := MkCondition {
  cond_Type : string;
  cond_Status : bool;
  cond_Reason : string;
  cond_Message : string;
}.

(** ** Status *)

Record ComponentStatus := MkComponentStatus {
  cs_Name : string;
  cs_Phase : ComponentPhase;
  cs_ExitCode : option Z;
  cs_PodName : string;
  cs_StartTime : option Z;
  cs_CompletionTime : option Z;
  cs_Message : string;
}.

Record StageStatus := MkStageStatus {
  ss_Name : string;
  ss_Phase : StagePhase;
  ss_ComponentStatuses : list ComponentStatus;
  ss_StartTime : option Z;
  ss_CompletionTime : option Z;
  ss_Message : string;
}.

Record ResolvedComponentStatus := MkResolvedComponentStatus {
  rcs_Name : string;
  rcs_Component : string;
  rcs_Version : string;
  rcs_Image : string;
  rcs_ImageID : string;
}.
#[export] Instance ResolvedComponentStatus_eq_dec : EqDecision ResolvedComponentStatus.
Proof. solve_decision. Defined.

Record PreviewSpec := MkPreviewSpec {
  pv_ID : string;
  pv_RowLimit : Z;
  pv_TimeoutSeconds : Z;
}.

(** Assignments to a field. *)
Definition cs_set_Phase (v : ComponentPhase) (s : ComponentStatus) : ComponentStatus :=
  MkComponentStatus (cs_Name s) v (cs_ExitCode s) (cs_PodName s) (cs_StartTime s)
    (cs_CompletionTime s) (cs_Message s).
Definition cs_set_ExitCode (v : option Z) (s : ComponentStatus) : ComponentStatus :=
  MkComponentStatus (cs_Name s) (cs_Phase s) v (cs_PodName s) (cs_StartTime s)
    (cs_CompletionTime s) (cs_Message s).
Definition cs_set_PodName (v : string) (s : ComponentStatus) : ComponentStatus :=
  MkComponentStatus (cs_Name s) (cs_Phase s) (cs_ExitCode s) v (cs_StartTime s)
    (cs_CompletionTime s) (cs_Message s).
Definition cs_set_StartTime (v : option Z) (s : ComponentStatus) : ComponentStatus :=
  MkComponentStatus (cs_Name s) (cs_Phase s) (cs_ExitCode s) (cs_PodName s) v (cs_CompletionTime
    s) (cs_Message s).
Definition cs_set_CompletionTime (v : option Z) (s : ComponentStatus) : ComponentStatus :=
  MkComponentStatus (cs_Name s) (cs_Phase s) (cs_ExitCode s) (cs_PodName s) (cs_StartTime s) v
    (cs_Message s).
Definition cs_set_Message (v : string) (s : ComponentStatus) : ComponentStatus :=
  MkComponentStatus (cs_Name s) (cs_Phase s) (cs_ExitCode s) (cs_PodName s) (cs_StartTime s)
    (cs_CompletionTime s) v.
Definition ss_set_Phase (v : StagePhase) (s : StageStatus) : StageStatus :=
  MkStageStatus (ss_Name s) v (ss_ComponentStatuses s) (ss_StartTime s) (ss_CompletionTime s)
    (ss_Message s).
Definition ss_set_ComponentStatuses (v : list ComponentStatus) (s : StageStatus) : StageStatus :=
  MkStageStatus (ss_Name s) (ss_Phase s) v (ss_StartTime s) (ss_CompletionTime s) (ss_Message
    s).
Definition ss_set_StartTime (v : option Z) (s : StageStatus) : StageStatus :=
  MkStageStatus (ss_Name s) (ss_Phase s) (ss_ComponentStatuses s) v (ss_CompletionTime s)
    (ss_Message s).
Definition ss_set_CompletionTime (v : option Z) (s : StageStatus) : StageStatus :=
  MkStageStatus (ss_Name s) (ss_Phase s) (ss_ComponentStatuses s) (ss_StartTime s) v (ss_Message
    s).
Definition ss_set_Message (v : string) (s : StageStatus) : StageStatus :=
  MkStageStatus (ss_Name s) (ss_Phase s) (ss_ComponentStatuses s) (ss_StartTime s)
    (ss_CompletionTime s) v.

Section WithQuantities.
Context `{Q : !Quantities}.

(** [pipelineRef.name] is empty when no Pipeline is referenced. *)
Record PipelineRunSpec := MkPipelineRunSpec {
  rs_PipelineRef : string;
  rs_RunID : string;
  rs_RunTokenRef : option string;
  rs_PipelineSpec : option PipelineSpec;
  rs_Preview : option PreviewSpec;
}.

Record PipelineRunStatus := MkPipelineRunStatus {
  s_Phase : PipelineRunPhase;
  s_RunID : string;
  s_CurrentStage : string;
  s_StageStatuses : list StageStatus;
  s_StartTime : option Z;
  s_CompletionTime : option Z;
  s_Message : string;
  s_ObservedGeneration : Z;
  s_Conditions : list Condition;
  s_PipelineGeneration : Z;
  s_ResolvedSpec : option PipelineSpec;
  s_Components : list ResolvedComponentStatus;
}.

Record PipelineRun := MkPipelineRun {
  pr_Name : string;
  pr_Namespace : string;
  pr_Generation : Z;
  pr_ResourceVersion : nat;
  pr_Cancel : bool;  (** the annotation datuplet.io/cancel is "true" *)
  pr_Spec : PipelineRunSpec;
  pr_Status : PipelineRunStatus;
}.

Definition s_set_Phase (v : PipelineRunPhase) (s : PipelineRunStatus) : PipelineRunStatus :=
  MkPipelineRunStatus v (s_RunID s) (s_CurrentStage s) (s_StageStatuses s) (s_StartTime s)
    (s_CompletionTime s) (s_Message s) (s_ObservedGeneration s) (s_Conditions s)
    (s_PipelineGeneration s) (s_ResolvedSpec s) (s_Components s).
Definition s_set_RunID (v : string) (s : PipelineRunStatus) : PipelineRunStatus :=
  MkPipelineRunStatus (s_Phase s) v (s_CurrentStage s) (s_StageStatuses s) (s_StartTime s)
    (s_CompletionTime s) (s_Message s) (s_ObservedGeneration s) (s_Conditions s)
    (s_PipelineGeneration s) (s_ResolvedSpec s) (s_Components s).
Definition s_set_CurrentStage (v : string) (s : PipelineRunStatus) : PipelineRunStatus :=
  MkPipelineRunStatus (s_Phase s) (s_RunID s) v (s_StageStatuses s) (s_StartTime s)
    (s_CompletionTime s) (s_Message s) (s_ObservedGeneration s) (s_Conditions s)
    (s_PipelineGeneration s) (s_ResolvedSpec s) (s_Components s).
Definition s_set_StageStatuses (v : list StageStatus) (s : PipelineRunStatus) : PipelineRunStatus :=
  MkPipelineRunStatus (s_Phase s) (s_RunID s) (s_CurrentStage s) v (s_StartTime s)
    (s_CompletionTime s) (s_Message s) (s_ObservedGeneration s) (s_Conditions s)
    (s_PipelineGeneration s) (s_ResolvedSpec s) (s_Components s).
Definition s_set_StartTime (v : option Z) (s : PipelineRunStatus) : PipelineRunStatus :=
  MkPipelineRunStatus (s_Phase s) (s_RunID s) (s_CurrentStage s) (s_StageStatuses s) v
    (s_CompletionTime s) (s_Message s) (s_ObservedGeneration s) (s_Conditions s)
    (s_PipelineGeneration s) (s_ResolvedSpec s) (s_Components s).
Definition s_set_CompletionTime (v : option Z) (s : PipelineRunStatus) : PipelineRunStatus :=
  MkPipelineRunStatus (s_Phase s) (s_RunID s) (s_CurrentStage s) (s_StageStatuses s)
    (s_StartTime s) v (s_Message s) (s_ObservedGeneration s) (s_Conditions s)
    (s_PipelineGeneration s) (s_ResolvedSpec s) (s_Components s).
Definition s_set_Message (v : string) (s : PipelineRunStatus) : PipelineRunStatus :=
  MkPipelineRunStatus (s_Phase s) (s_RunID s) (s_CurrentStage s) (s_StageStatuses s)
    (s_StartTime s) (s_CompletionTime s) v (s_ObservedGeneration s) (s_Conditions s)
    (s_PipelineGeneration s) (s_ResolvedSpec s) (s_Components s).
Definition s_set_ObservedGeneration (v : Z) (s : PipelineRunStatus) : PipelineRunStatus :=
  MkPipelineRunStatus (s_Phase s) (s_RunID s) (s_CurrentStage s) (s_StageStatuses s)
    (s_StartTime s) (s_CompletionTime s) (s_Message s) v (s_Conditions s) (s_PipelineGeneration
    s) (s_ResolvedSpec s) (s_Components s).
Definition s_set_Conditions (v : list Condition) (s : PipelineRunStatus) : PipelineRunStatus :=
  MkPipelineRunStatus (s_Phase s) (s_RunID s) (s_CurrentStage s) (s_StageStatuses s)
    (s_StartTime s) (s_CompletionTime s) (s_Message s) (s_ObservedGeneration s) v
    (s_PipelineGeneration s) (s_ResolvedSpec s) (s_Components s).
Definition s_set_PipelineGeneration (v : Z) (s : PipelineRunStatus) : PipelineRunStatus :=
  MkPipelineRunStatus (s_Phase s) (s_RunID s) (s_CurrentStage s) (s_StageStatuses s)
    (s_StartTime s) (s_CompletionTime s) (s_Message s) (s_ObservedGeneration s) (s_Conditions s)
    v (s_ResolvedSpec s) (s_Components s).
Definition s_set_ResolvedSpec (v : option PipelineSpec) (s : PipelineRunStatus) : PipelineRunStatus :=
  MkPipelineRunStatus (s_Phase s) (s_RunID s) (s_CurrentStage s) (s_StageStatuses s)
    (s_StartTime s) (s_CompletionTime s) (s_Message s) (s_ObservedGeneration s) (s_Conditions s)
    (s_PipelineGeneration s) v (s_Components s).
Definition s_set_Components (v : list ResolvedComponentStatus) (s : PipelineRunStatus) : PipelineRunStatus :=
  MkPipelineRunStatus (s_Phase s) (s_RunID s) (s_CurrentStage s) (s_StageStatuses s)
    (s_StartTime s) (s_CompletionTime s) (s_Message s) (s_ObservedGeneration s) (s_Conditions s)
    (s_PipelineGeneration s) (s_ResolvedSpec s) v.

(** An assignment to a field of [pr.Status]. *)
Definition on_status (f : PipelineRunStatus → PipelineRunStatus) (pr : PipelineRun) : PipelineRun :=
  MkPipelineRun (pr_Name pr) (pr_Namespace pr) (pr_Generation pr) (pr_ResourceVersion pr)
    (pr_Cancel pr) (pr_Spec pr) (f (pr_Status pr)).

(** The status of a PipelineRun that was just created. *)
Definition empty_status : PipelineRunStatus :=
  MkPipelineRunStatus PhaseEmpty EmptyString EmptyString [] None None EmptyString 0 [] 0 None [].

(** [pr.Status.StageStatuses[i]] assigned. *)
Definition set_stage (i : nat) (ss : StageStatus) (pr : PipelineRun) : PipelineRun :=
  on_status (λ s, s_set_StageStatuses (<[i := ss]> (s_StageStatuses s)) s) pr.
End WithQuantities.
