(* ===== verification/PreviewService.v ===== *)
(** * PreviewService: creating, cancelling and cleaning up previews
      (pkg/pipelineapi/preview/service.go, sweep.go, catalog.go,
       pkg/pipelineapi/k8s/preview_create.go)

    Every operation of the service over a world that has the rows of the
    previews table, the log of the calls made to the cluster, to OpenFGA and to
    the catalog with their answers, and the state [X] of everything else, which
    the class [PreviewBackend] reads and changes: a call may answer anything.
    A context is not an argument: each call may fail because of it. *)

From S2P Require Import Prelude Secrets ApiTypes Policy Registry ConfigSchema Validate PipelineDoc Preview PreviewStore Authz RunTypes.

(** ** Answers and calls *)

Inductive k8s_error : Type :=
| IsNotFound
| K8sFailure (msg : string).
#[export] Instance k8s_error_eq : EqDecision k8s_error.
Proof. solve_decision. Defined.
Inductive cat_error : Type :=
| ErrNoSuchTable
| ErrNoSuchNamespace
| CatFailure (msg : string).
Definition k8s_text (e : k8s_error) : string := match e with IsNotFound => "not found" | K8sFailure m => m end.
Definition cat_text (e : cat_error) : string :=
  match e with ErrNoSuchTable => "no such table" | ErrNoSuchNamespace => "no such namespace" | CatFailure m => m end.

(** What became of a statement: a failed one may have been committed. *)
Inductive db_outcome : Type :=
| DbDone
| DbFailed (msg : string)
| DbLost (msg : string).

Section Types.
Context `{Q : !Quantities}.

(** A call and its answer. *)
Inductive event : Type :=
| EDeleteRun (ns name : string) (r : option k8s_error)
| EDeleteSecret (ns name : string) (r : option k8s_error)
| EGetRun (ns name : string) (r : option k8s_error)
| EListPods (ns run : string) (r : result k8s_error (list string))
| EPatchPod (ns pod : string) (r : option k8s_error)
| ECreateSecret (ns name token : string) (r : option k8s_error)
| ECreateRun (ns name : string) (spec : PipelineRunSpec) (r : option k8s_error)
| EUpdateSecret (ns name : string) (r : option k8s_error)
| EWriteTuple (sub rel lk : string) (r : option string)
| EDeleteTuple (sub rel lk : string) (r : option string)
| EOpenCatalog (sub lk warehouse : string) (r : option string)
| EListTables (ns : string) (r : result string (list string))
| EPurgeTable (ns table : string) (r : option string)
| EDropNamespace (ns : string) (r : option string).

Class PreviewBackend (X : Type) : Type := {
  now : St X Z;  (** Deps.Now *)
  db_now : St X Z;  (** now() of a transaction *)
  ctx_Err : St X (option string);
  time_Now : St X Z;
  time_After : Z → St X (option string);  (** the wait, or the end of the context *)
  uuid_New : St X string;
  statement_outcome : St X db_outcome;
  Ensure : string → St X (result string string);  (** ProjectNS *)
  GetProjectByID : string → St X (result string string);  (** the lakekeeper project of the row *)
  WarehouseResolver : string → St X (result string string);
  MintRunToken : string → string → string → string → string → Z → St X (result string string);
  k8s_delete_run : string → string → St X (option k8s_error);
  k8s_delete_secret : string → string → St X (option k8s_error);
  k8s_get_run : string → string → St X (option k8s_error);
  k8s_list_pods : string → string → St X (result k8s_error (list string));
  k8s_patch_pod : string → string → St X (option k8s_error);
  k8s_create_secret : string → string → string → St X (option k8s_error);
  k8s_create_run : string → string → PipelineRunSpec → St X (option k8s_error);
  k8s_update_secret : string → string → St X (option k8s_error);
  catalog_open : string → string → string → St X (option string);
  (** The identifiers the iterator yields, and the error it ends with. *)
  catalog_list : string → St X (list (list string) * option cat_error);
  catalog_purge : string → string → St X (option cat_error);
  catalog_drop : string → St X (option cat_error);
}.
(** encoding/json on documents. *)
Class DocMarshal : Type := { doc_Marshal : DocPipeline → result string string }.

Record World (X : Type) := MkWorld {
  w_rows : list Preview;
  w_log : list event;
  w_rest : X;
}.
End Types.
Arguments MkWorld {Q X} _ _ _.
Arguments w_rows {Q X} _.
Arguments w_log {Q X} _.
Arguments w_rest {Q X} _.

(** ** Errors *)

Inductive perror : Type :=
| ErrBadRequest (msg : string)
| ErrPreviewNotFound
| InsertError (e : insert_error)
| StepError (step msg : string)
| Failure (msg : string)
| OutOfFuel.  (** not an error of the code: the poll loop was cut *)
Definition perror_text (e : perror) : string :=
  match e with
  | ErrBadRequest m => "bad preview request: " +:+ m
  | ErrPreviewNotFound => "preview not found"
  | InsertError (PreviewCapError w r l) =>
    "preview cap reached: " +:+ itoa w +:+ " running in workspace, " +:+ itoa r +:+ " running in project, " +:+
    itoa l +:+ " live in project"
  | InsertError (StoreError m) => m
  | StepError _ m => m
  | Failure m => m
  | OutOfFuel => EmptyString
  end.
Definition failedStep (e : perror) : string := match e with StepError step _ => step | _ => "purge" end.

(** ** Configuration *)

Definition second : Z := 1000000000.
Definition DefaultWorkspace : string := "default".
Definition maxTimeout : Z := 3600.
Definition runTokenLifetime : Z := maxTimeout * second + 30 * 60 * second.
Definition defaultPurgeWait : Z := 90 * second.
Definition defaultPollInterval : Z := 2 * second.
Definition purgeRetryBackoff : Z := 300 * second.
Definition sweepBatch : nat := 100.
Definition cancelledMessage : string := "cancelled by user".
Definition sweeperSubjectPrefix : string := "preview-sweeper-".

Record Deps := MkDeps {
  d_Authz : bool;  (** an authorizer is configured *)
  d_WarehouseResolver : bool;
  d_Caps : PreviewCaps;
  d_Audience : string;
  d_PurgeWait : Z;
  d_PollInterval : Z;
}.
Definition TableTokenAudience : string := "datuplet-catalog".
Definition New (d : Deps) : Deps :=
  MkDeps (d_Authz d) (d_WarehouseResolver d) (d_Caps d)
    (if str_empty (d_Audience d) then TableTokenAudience else d_Audience d)
    (if (d_PurgeWait d <=? 0)%Z then defaultPurgeWait else d_PurgeWait d)
    (if (d_PollInterval d <=? 0)%Z then defaultPollInterval else d_PollInterval d).

Record CreateRequest := MkCreateRequest {
  cr_ProjectID : string;
  cr_UserID : option string;
  cr_Doc : option DocPipeline;
  cr_Workspace : string;
  cr_RowLimit : Z;
  cr_TimeoutSeconds : Z;
  cr_TTLSeconds : Z;
  cr_UntilStage : string;
}.
Record CreateResponse := MkCreateResponse {
  cs_ID : string;
  cs_Workspace : string;
  cs_Phase : string;
  cs_ScratchNamespaces : list string;
  cs_ExpiresAt : option Z;
}.

Definition workspace_byte (c : ascii) : bool := is_lower_byte c || is_digit_byte c.
(** workspaceRe: [^[a-z0-9][a-z0-9-]{0,62}$] *)
Definition workspace_ok (s : string) : bool :=
  match s with
  | EmptyString => false
  | String c s => workspace_byte c && forall_byte (λ c, workspace_byte c || Ascii.eqb c "-") s && (slen s <=? 62)%nat
  end.
Definition bound_field (name : string) (v def lo hi : Z) : result perror Z :=
  let v := if (v =? 0)%Z then def else v in
  if (v <? lo)%Z || (hi <? v)%Z
  then Err (ErrBadRequest (name +:+ " " +:+ itoa v +:+ " out of range " +:+ itoa lo +:+ ".." +:+ itoa hi))
  else Ok v.
Definition withDefaults `{UT : !UnicodeTables} (r : CreateRequest) : result perror CreateRequest :=
  let ws := if str_empty (cr_Workspace r) then DefaultWorkspace else cr_Workspace r in
  if negb (workspace_ok ws)
  then Err (ErrBadRequest ("workspace " +:+ quote ws +:+ " must match ^[a-z0-9][a-z0-9-]{0,62}$"))
  else
    limit ← bound_field "row_limit" (cr_RowLimit r) 1000 1 100000;
    timeout ← bound_field "timeout_seconds" (cr_TimeoutSeconds r) 300 30 maxTimeout;
    ttl ← bound_field "ttl_seconds" (cr_TTLSeconds r) 3600 60 86400;
    Ok (MkCreateRequest (cr_ProjectID r) (cr_UserID r) (cr_Doc r) ws limit timeout ttl (cr_UntilStage r)).

Definition isTerminal (phase : string) : bool := negb (bool_decide (phase = "Pending")) && negb (bool_decide (phase = "Running")).
Fixpoint firstError (fs : list Finding) : string :=
  match fs with
  | [] => EmptyString
  | f :: fs => if bool_decide (f_Severity f = "error") then f_Path f +:+ ": " +:+ f_Message f else firstError fs
  end.
Definition hasError (fs : list Finding) : bool := negb (str_empty (firstError fs)).

Definition PreviewPipelineRunName (id : string) : string := "preview-" +:+ id.
Definition SecretName (id : string) : string := "runtoken-" +:+ id.

Section Service.
Context `{UT : !UnicodeTables} `{Q : !Quantities} `{J : !Json} `{JS : !JsonSchema} `{TR : !Transforms} `{Y : !Yaml}
  `{PJ : !PipelineJson} `{DM : !DocMarshal}.
Context {X : Type} `{AZ : !Authorizer X} `{PB : !PreviewBackend X}.
(** [validation.IsDNS1123Subdomain], and the dependencies as New leaves them. *)
Variables (IsDNS1123Subdomain : string → list string) (d : Deps).

(** A call that is not logged, and one that is. *)
Definition quiet {A} (m : St X A) : St (World X) A := λ w,
  let (x, a) := m (w_rest w) in (MkWorld (w_rows w) (w_log w) x, a).
Definition ask {A} (ev : A → event) (m : St X A) : St (World X) A := λ w,
  let (x, a) := m (w_rest w) in (MkWorld (w_rows w) (w_log w ++ [ev a]) x, a).
(** A statement on the previews table, whose error text starts with [what]. *)
Definition exec {A} (what : string) (stmt : list Preview → list Preview * A) : St (World X) (result string A) := λ w,
  let (x, o) := statement_outcome (w_rest w) in
  let (rows, a) := stmt (w_rows w) in
  match o with
  | DbDone => (MkWorld rows (w_log w) x, Ok a)
  | DbFailed e => (MkWorld (w_rows w) (w_log w) x, Err (what +:+ e))
  | DbLost e => (MkWorld rows (w_log w) x, Err (what +:+ e))
  end.
Definition write_ (f : list Preview → list Preview) : list Preview → list Preview * unit := λ rows, (f rows, ()).
Definition query {A} (f : list Preview → A) : list Preview → list Preview * A := λ rows, (rows, f rows).
Definition error_of {A} (r : result string A) : option perror := match r with Ok _ => None | Err e => Some (Failure e) end.
Definition failing (r : option string) (what : string) : option perror := (λ e, Failure (what +:+ e)) <$> r.

(** ** Cluster and tuples *)

Definition tuplesEnabled (lk : string) : bool := negb (str_empty lk) && d_Authz d.
(** The row as the call leaves it, and its error. *)
Definition deleteOwnTuple (p : Preview) : St (World X) (Preview * option perror) :=
  if bool_decide (p_FGATupleDeletedAt p ≠ None) then mret (p, None)
  else
    e ← (if tuplesEnabled (p_LakekeeperProjectID p)
         then ask (EDeleteTuple (p_ID p) RelationEditor (p_LakekeeperProjectID p))
                (DeleteProjectTuple (p_ID p) RelationEditor (p_LakekeeperProjectID p))
         else mret None);
    match e with
    | Some e => mret (p, Some (Failure ("delete FGA tuple: " +:+ e)))
    | None =>
      t ← quiet now;
      r ← exec "mark preview tuple deleted: " (write_ (MarkPreviewTupleDeleted (p_ID p) t));
      match r with
      | Ok _ => mret (set_tuple_deleted t p, None)
      | Err e => mret (p, Some (Failure e))
      end
    end.

Definition not_found_ok (what : string) (e : option k8s_error) : option perror :=
  match e with Some (K8sFailure m) => Some (Failure (what +:+ m)) | _ => None end.
Definition deletePipelineRun (p : Preview) : St (World X) (option perror) :=
  let name := PreviewPipelineRunName (p_ID p) in
  e ← ask (EDeleteRun (p_K8sNamespace p) name) (k8s_delete_run (p_K8sNamespace p) name);
  mret (not_found_ok "delete PipelineRun: " e).
Definition deleteTokenSecret (p : Preview) : St (World X) (option perror) :=
  let name := SecretName (p_ID p) in
  e ← ask (EDeleteSecret (p_K8sNamespace p) name) (k8s_delete_secret (p_K8sNamespace p) name);
  mret (not_found_ok "delete run-token Secret: " e).
Fixpoint patch_pods (ns : string) (pods : list string) : St (World X) unit :=
  match pods with
  | [] => mret ()
  | pod :: pods => _ ← ask (EPatchPod ns pod) (k8s_patch_pod ns pod); patch_pods ns pods
  end.
Definition list_pods (p : Preview) : St (World X) (result k8s_error (list string)) :=
  ask (EListPods (p_K8sNamespace p) (p_ID p)) (k8s_list_pods (p_K8sNamespace p) (p_ID p)).
Definition annotatePodsCancelled (p : Preview) : St (World X) unit :=
  pods ← list_pods p;
  match pods with Ok pods => patch_pods (p_K8sNamespace p) pods | Err _ => mret () end.

(** ** Cancel *)

Definition stop (p : Preview) : St (World X) (Preview * option perror) :=
  '(p, _) ← deleteOwnTuple p;
  _ ← annotatePodsCancelled p;
  e ← deletePipelineRun p;
  mret (p, e).
Definition cancel_opts (t : Z) : UpdatePreviewPhaseOpts :=
  MkUpdatePreviewPhaseOpts "Cancelled" EmptyString cancelledMessage None (Some t) 0 None true.
Definition set_cancelled (t : Z) (p : Preview) : Preview :=
  MkPreview (p_ID p) (p_ProjectID p) (p_TriggeredBy p) (p_Workspace p) (p_Doc p) (p_RowLimit p)
    (p_UntilStage p) (p_TTLSeconds p) (p_TimeoutSeconds p) (p_ScratchNamespaces p)
    (p_LakekeeperProjectID p) (p_Warehouse p) (p_K8sNamespace p) "Cancelled" (p_CurrentStage p) cancelledMessage
    (p_StageStatuses p) (p_Result p) (p_ObservedRV p) (p_FGATupleDeletedAt p) (p_StartedAt p) (Some t)
    (p_CleanedAt p) (p_CreatedAt p) (p_ExpiresAt p).
Definition cancel (p : Preview) : St (World X) (Preview * option perror) :=
  '(p, e) ← stop p;
  match e with
  | Some e => mret (p, Some e)
  | None =>
    if isTerminal (p_Phase p) then mret (p, None)
    else
      t ← quiet now;
      r ← exec "update preview phase: update preview: " (UpdatePreviewPhase t (p_ID p) (cancel_opts t));
      match r with
      | Ok _ => mret (set_cancelled t p, None)
      | Err e => mret (p, Some (Failure e))
      end
  end.
Definition load (project id : string) : St (World X) (result perror Preview) :=
  r ← exec "select preview: " (query (GetPreview project id));
  mret match r with Ok (Some p) => Ok p | Ok None => Err ErrPreviewNotFound | Err e => Err (Failure e) end.
Definition Cancel (project id : string) : St (World X) (option perror) :=
  r ← load project id;
  match r with Err e => mret (Some e) | Ok p => r ← cancel p; mret r.2 end.

(** ** Purge *)

Definition gone (p : Preview) : St (World X) (result perror bool) :=
  let name := PreviewPipelineRunName (p_ID p) in
  e ← ask (EGetRun (p_K8sNamespace p) name) (k8s_get_run (p_K8sNamespace p) name);
  match e with
  | None => mret (Ok false)
  | Some (K8sFailure m) => mret (Err (Failure ("get PipelineRun: " +:+ m)))
  | Some IsNotFound =>
    pods ← list_pods p;
    mret match pods with
    | Ok pods => Ok (bool_decide (pods = []))
    | Err e => Err (Failure ("list pods: " +:+ k8s_text e))
    end
  end.
Fixpoint wait_loop (fuel : nat) (deadline : Z) (p : Preview) : St (World X) (option perror) :=
  match fuel with
  | O => mret (Some OutOfFuel)
  | S fuel =>
    r ← gone p;
    match r with
    | Err e => mret (Some e)
    | Ok true => mret None
    | Ok false =>
      t ← quiet time_Now;
      if (deadline <? t)%Z
      then mret (Some (Failure ("preview " +:+ p_ID p +:+ " still has a PipelineRun or pods after " +:+ itoa (d_PurgeWait d) +:+ "ns")))
      else
        e ← quiet (time_After (d_PollInterval d));
        match e with
        | Some e => mret (Some (Failure e))
        | None => wait_loop fuel deadline p
        end
    end
  end.
(** The polls that fit in the wait, and the two at its ends. *)
Definition wait_fuel : nat := Z.to_nat (d_PurgeWait d / d_PollInterval d + 3).
Definition waitGone (p : Preview) : St (World X) (option perror) :=
  t ← quiet time_Now;
  wait_loop wait_fuel (t + d_PurgeWait d) p.

(** restCatalog. *)
Definition ListTables (ns : string) : St (World X) (result string (list string)) :=
  ask (EListTables ns)
    (r ← catalog_list ns;
     mret (M := St X) match r.2 with
     | Some ErrNoSuchNamespace => Ok []
     | Some e => Err ("list tables in " +:+ ns +:+ ": " +:+ cat_text e)
     | None => Ok ((λ ident, default EmptyString (last ident)) <$> r.1)
     end).
Definition PurgeTable (ns table : string) : St (World X) (option string) :=
  ask (EPurgeTable ns table)
    (r ← catalog_purge ns table;
     mret (M := St X) match r with
     | None | Some ErrNoSuchTable | Some ErrNoSuchNamespace => None
     | Some e => Some ("purge " +:+ ns +:+ "." +:+ table +:+ ": " +:+ cat_text e)
     end).
Definition DropNamespace (ns : string) : St (World X) (option string) :=
  ask (EDropNamespace ns)
    (r ← catalog_drop ns;
     mret (M := St X) match r with
     | None | Some ErrNoSuchNamespace => None
     | Some e => Some ("drop namespace " +:+ ns +:+ ": " +:+ cat_text e)
     end).

Fixpoint purge_tables (ns : string) (tables : list string) : St (World X) (option perror) :=
  match tables with
  | [] => mret None
  | t :: tables =>
    e ← PurgeTable ns t;
    match e with Some e => mret (Some (Failure e)) | None => purge_tables ns tables end
  end.
Definition purge_namespace (ns : string) : St (World X) (option perror) :=
  r ← ListTables ns;
  match r with
  | Err e => mret (Some (Failure e))
  | Ok tables =>
    e ← purge_tables ns tables;
    match e with
    | Some e => mret (Some e)
    | None => e ← DropNamespace ns; mret (failing e EmptyString)
    end
  end.
Definition verify_namespace (ns : string) : St (World X) (option perror) :=
  r ← ListTables ns;
  mret match r with
  | Err e => Some (Failure e)
  | Ok [] => None
  | Ok tables =>
    Some (Failure ("namespace " +:+ ns +:+ " still lists " +:+ itoa_nat (length tables) +:+ " table(s) after purge"))
  end.
(** A loop that returns on the first error. *)
Fixpoint each (f : string → St (World X) (option perror)) (l : list string) : St (World X) (option perror) :=
  match l with
  | [] => mret None
  | a :: l => e ← f a; match e with Some e => mret (Some e) | None => each f l end
  end.
Definition purge_body (sw : string) (p : Preview) : St (World X) (option perror) :=
  e ← ask (EOpenCatalog sw (p_LakekeeperProjectID p) (p_Warehouse p))
        (catalog_open sw (p_LakekeeperProjectID p) (p_Warehouse p));
  match e with
  | Some e => mret (Some (Failure ("open catalog: " +:+ e)))
  | None =>
    e ← each purge_namespace (p_ScratchNamespaces p);
    match e with
    | Some e => mret (Some e)
    | None => each verify_namespace (p_ScratchNamespaces p)
    end
  end.
(** The deferred deletion of the sweeper's tuple may replace the result. *)
Definition purgeNamespaces (p : Preview) : St (World X) (option perror) :=
  let sw := sweeperSubjectPrefix +:+ p_ID p in
  let lk := p_LakekeeperProjectID p in
  if tuplesEnabled lk then
    e ← ask (EWriteTuple sw RelationEditor lk) (WriteProjectTuple sw RelationEditor lk);
    match e with
    | Some e => mret (Some (StepError "tuple" e))
    | None =>
      err ← purge_body sw p;
      derr ← ask (EDeleteTuple sw RelationEditor lk) (DeleteProjectTuple sw RelationEditor lk);
      mret match derr, err with
      | Some e, None => Some (StepError "tuple" ("delete sweeper tuple: " +:+ e))
      | _, err => err
      end
    end
  else purge_body sw p.

(** [if err := m; err != nil { return err }] *)
Definition then_ (m : St (World X) (option perror)) (k : St (World X) (option perror)) : St (World X) (option perror) :=
  e ← m; match e with Some e => mret (Some e) | None => k end.
Definition Purge (p : Preview) : St (World X) (option perror) :=
  let expired := negb (isTerminal (p_Phase p)) in
  '(p, e) ← (if expired then stop p else mret (p, None));
  match e with
  | Some e => mret (Some (StepError "cancel" (perror_text e)))
  | None =>
    '(p, e) ← deleteOwnTuple p;
    match e with
    | Some e => mret (Some (StepError "tuple" (perror_text e)))
    | None =>
      then_ (deletePipelineRun p) (then_ (deleteTokenSecret p) (then_ (waitGone p) (then_ (purgeNamespaces p)
        (t ← quiet now;
         r ← exec "mark preview cleaned: " (write_ (MarkPreviewCleaned (p_ID p) t expired));
         mret (error_of r)))))
    end
  end.

(** ** Delete *)

Definition Delete (project id : string) : St (World X) (option perror) :=
  r ← load project id;
  match r with
  | Err e => mret (Some e)
  | Ok p =>
    if bool_decide (p_CleanedAt p ≠ None) then mret None
    else
      '(p, e) ← (if isTerminal (p_Phase p) then mret (p, None) else cancel p);
      match e with
      | Some e => mret (Some e)
      | None =>
        t ← quiet now;
        r ← exec "expire preview: " (write_ (ExpirePreviewNow (p_ID p) t));
        match r with
        | Err e => mret (Some (Failure e))
        | Ok _ =>
          let earlier := match p_ExpiresAt p with Some x => (t <? x)%Z | None => false end in
          Purge (if earlier then set_expires (Some t) p else p)
        end
      end
  end.
Fixpoint delete_all (project : string) (ids : list string) : St (World X) (list string * gmap string string) :=
  match ids with
  | [] => mret ([], ∅)
  | id :: ids =>
    e ← Delete project id;
    '(deleted, failed) ← delete_all project ids;
    mret match e with
    | Some e => (deleted, <[id := default (perror_text e) (failed !! id)]> failed)
    | None => (id :: deleted, failed)
    end
  end.
(** uuid.Nil, under which a failure to list is reported. *)
Definition uuid_Nil : string := "00000000-0000-0000-0000-000000000000".
Definition DeleteWorkspace (project workspace : string) : St (World X) (list string * gmap string string) :=
  r ← exec "query preview ids: " (query (ListPreviewIDsInWorkspace project workspace));
  match r with
  | Err e => mret ([], {[uuid_Nil := e]})
  | Ok ids => delete_all project ids
  end.

(** ** Create *)

Definition failed_opts (msg : string) (t : Z) : UpdatePreviewPhaseOpts :=
  MkUpdatePreviewPhaseOpts "FailedApplication" EmptyString msg None (Some t) 0 None false.
Definition failCreate (p : Preview) (cause : perror) : St (World X) perror :=
  _ ← deletePipelineRun p;
  _ ← deleteTokenSecret p;
  t ← quiet now;
  _ ← exec "update preview: " (UpdatePreviewPhase t (p_ID p) (failed_opts (perror_text cause) t));
  _ ← deleteOwnTuple p;
  mret cause.

Definition run_spec (id : string) (spec : PipelineSpec) (preview : PreviewSpec) : PipelineRunSpec :=
  MkPipelineRunSpec EmptyString id (Some (SecretName id)) (Some spec) (Some preview).
Definition CreatePreviewResources (ns id token : string) (spec : PipelineSpec) (preview : PreviewSpec) :
    St (World X) (option string) :=
  let name := PreviewPipelineRunName id in
  if str_empty ns || bool_decide (id = uuid_Nil) then mret (Some "namespace and preview id are required")
  else
    e ← ask (ECreateSecret ns (SecretName id) token) (k8s_create_secret ns (SecretName id) token);
    match e with
    | Some e => mret (Some ("create Secret: " +:+ k8s_text e))
    | None =>
      e ← ask (ECreateRun ns name (run_spec id spec preview)) (k8s_create_run ns name (run_spec id spec preview));
      match e with
      | Some e => mret (Some ("create PipelineRun: " +:+ k8s_text e))
      | None =>
        e ← ask (EGetRun ns name) (k8s_get_run ns name);
        match e with
        | Some e => mret (Some ("get created PipelineRun: " +:+ k8s_text e))
        | None => _ ← ask (EUpdateSecret ns (SecretName id)) (k8s_update_secret ns (SecretName id)); mret None
        end
      end
    end.

(** The rewrite and the check of both documents, before anything is changed. *)
Definition Create_docs (r : CreateRequest) (doc : DocPipeline) (id : string) : result perror (RewriteResult * string) :=
  rw ← map_err ErrBadRequest (Rewrite id doc (cr_UntilStage r));
  rewritten ← map_err (λ e, Failure ("encode rewritten doc: " +:+ e)) (doc_Marshal (rr_Doc rw));
  let findings := (ValidatePipelineDoc IsDNS1123Subdomain rewritten (d_Name (rr_Doc rw))
    (None : option StaticRegistry) None).2 in
  if hasError findings then Err (Failure ("rewritten preview doc is invalid: " +:+ firstError findings))
  else
    original ← map_err (λ e, Failure ("encode doc: " +:+ e)) (doc_Marshal doc);
    Ok (rw, original).
Definition new_row (r : CreateRequest) (id original lk warehouse ns : string) (namespaces : list string) : Preview :=
  MkPreview id (cr_ProjectID r) (cr_UserID r) (cr_Workspace r) original (cr_RowLimit r) (cr_UntilStage r)
    (cr_TTLSeconds r) (cr_TimeoutSeconds r) namespaces lk warehouse ns EmptyString EmptyString EmptyString
    None None 0 None None None None 0 None.
(** Create as far as the row: from there on the preview is in the lists. *)
Definition Create_record (r : CreateRequest) : St (World X) (result perror (CreateRequest * RewriteResult * Preview)) :=
  match cr_Doc r with
  | None => mret (Err (ErrBadRequest "doc is required"))
  | Some doc =>
    try (mret (withDefaults r)) (λ r,
    id ← quiet uuid_New;
    try (mret (Create_docs r doc id)) (λ '(rw, original),
    try (quiet (x ← Ensure (cr_ProjectID r); mret (M := St X) (map_err Failure x))) (λ ns,
    try (quiet (x ← GetProjectByID (cr_ProjectID r); mret (M := St X) (map_err (λ e, Failure ("get project: " +:+ e)) x))) (λ lk,
    try (if d_WarehouseResolver d
         then quiet (x ← WarehouseResolver lk; mret (M := St X) (map_err (λ e, Failure ("resolve warehouse: " +:+ e)) x))
         else mret (Ok EmptyString)) (λ warehouse,
    t ← quiet db_now;
    res ← exec EmptyString (λ rows,
      match InsertPreview (d_Caps d) t (new_row r id original lk warehouse ns (rr_Namespaces rw)) rows with
      | Ok (rows', p) => (rows', Ok p)
      | Err e => (rows, Err e)
      end);
    mret match res with
    | Err e => Err (Failure e)
    | Ok (Err e) => Err (InsertError e)
    | Ok (Ok p) => Ok (r, rw, p)
    end)))))
  end.
Definition failing_create (p : Preview) (cause : perror) : St (World X) (result perror CreateResponse) :=
  e ← failCreate p cause; mret (Err e).
Definition Create_start (x : CreateRequest * RewriteResult * Preview) : St (World X) (result perror CreateResponse) :=
  let '(r, rw, p) := x in
  let lk := p_LakekeeperProjectID p in
  e ← (if tuplesEnabled lk
       then ask (EWriteTuple (p_ID p) RelationEditor lk) (WriteProjectTuple (p_ID p) RelationEditor lk)
       else mret None);
  match e with
  | Some e => failing_create p (Failure ("write FGA tuple: " +:+ e))
  | None =>
    tok ← quiet (MintRunToken (p_ID p) lk (d_Name (rr_Doc rw)) (p_Warehouse p) (d_Audience d) runTokenLifetime);
    match tok with
    | Err e => failing_create p (Failure ("mint run token: " +:+ e))
    | Ok tok =>
      e ← CreatePreviewResources (p_K8sNamespace p) (p_ID p) tok (p_Spec (DocToCR (rr_Doc rw)))
            (MkPreviewSpec (p_ID p) (cr_RowLimit r) (cr_TimeoutSeconds r));
      match e with
      | Some e => failing_create p (Failure ("create K8s resources: " +:+ e))
      | None => mret (Ok (MkCreateResponse (p_ID p) (p_Workspace p) (p_Phase p) (rr_Namespaces rw) (p_ExpiresAt p)))
      end
    end
  end.
Definition Create (r : CreateRequest) : St (World X) (result perror CreateResponse) := try (Create_record r) Create_start.

(** ** The sweeper *)

(** The steps that failed, each with the preview. *)
Definition failures : Type := list (string * string).
Fixpoint sweep_tuples (l : list Preview) : St (World X) failures :=
  match l with
  | [] => mret []
  | p :: l =>
    '(_, e) ← deleteOwnTuple p;
    fs ← sweep_tuples l;
    mret (match e with Some _ => [("tuple", p_ID p)] | None => [] end ++ fs)
  end.
Definition deferPurge (id : string) : St (World X) unit :=
  t ← quiet now;
  _ ← exec "defer preview expiry: " (write_ (DeferPreviewExpiry id (t + purgeRetryBackoff)));
  mret ().
Fixpoint sweep_expired (l : list Preview) : St (World X) failures :=
  match l with
  | [] => mret []
  | p :: l =>
    c ← quiet ctx_Err;
    match c with
    | Some _ => mret [("budget", p_ID p)]
    | None =>
      e ← Purge p;
      match e with
      | None => sweep_expired l
      | Some e =>
        c ← quiet ctx_Err;
        match c with
        | Some _ => mret [("budget", p_ID p)]
        | None =>
          _ ← deferPurge (p_ID p);
          fs ← sweep_expired l;
          mret ((failedStep e, p_ID p) :: fs)
        end
      end
    end
  end.
Definition SweepOnce : St (World X) (failures * option string) :=
  r ← exec "query previews: " (query (ListPreviewsNeedingTupleDelete sweepBatch));
  match r with
  | Err e => mret ([], Some e)
  | Ok terminal =>
    fs ← sweep_tuples terminal;
    t ← quiet now;
    r ← exec "query previews: " (query (ListExpiredPreviews t sweepBatch));
    match r with
    | Err e => mret (fs, Some e)
    | Ok expired =>
      fs' ← sweep_expired expired;
      let n := length (fs ++ fs') in
      mret (fs ++ fs', if (0 <? n)%nat then Some (itoa_nat n +:+ " preview sweep step(s) failed") else None)
    end
  end.
End Service.
