(* ===== verification/PreviewPurge.v ===== *)
(** * PreviewPurge: what cancelling and purging a preview does

    A small logic for the calls and the row changes of an operation of
    PreviewService, whatever the calls answer, and with it the specification of
    Purge: the order of its calls and the state it leaves. *)

From S2P Require Import Prelude Secrets ApiTypes Policy Registry ConfigSchema Validate PipelineDoc Preview PreviewStore Authz RunTypes PreviewService.

(** ** Calls and rows of an operation *)

Section Logic.
Context `{Q : !Quantities} {X : Type}.

(** Run on the rows [r] after the calls [l0], [m] ends with calls, rows and a
    result that satisfy [Φ], whatever the calls answer. *)
Definition wp {A} (m : St (World X) A) (l0 : list event) (r : list Preview) (Φ : list event → list Preview → A → Prop) : Prop :=
  ∀ w w' a, w_rows w = r → m w = (w', a) → ∃ l, w_log w' = w_log w ++ l ∧ Φ (l0 ++ l) (w_rows w') a.

Lemma wp_weaken {A} (m : St (World X) A) l0 r Φ Ψ :
  wp m l0 r Φ → (∀ l r' a, Φ l r' a → Ψ l r' a) → wp m l0 r Ψ.
Proof. intros Hm Hw w w' a Hr (l & Hl & H)%Hm; [|done]. exists l. by auto. Qed.
(** A specification is about the calls the operation itself makes. *)
Lemma wp_use {A} (m : St (World X) A) l0 r Φ Ψ :
  wp m [] r Φ → (∀ l r' a, Φ l r' a → Ψ (l0 ++ l) r' a) → wp m l0 r Ψ.
Proof. intros Hm Hw w w' a Hr (l & Hl & H)%Hm; [|done]. exists l. by auto. Qed.
Lemma wp_ret {A} (a : A) l0 r (Φ : list event → list Preview → A → Prop) : Φ l0 r a → wp (mret a) l0 r Φ.
Proof. intros H w w' b Hr [= <- <-]. exists []. rewrite !app_nil_r, Hr. done. Qed.
Lemma wp_bind {A B} (m : St (World X) A) (f : A → St (World X) B) l0 r Φ :
  wp m l0 r (λ l r' a, wp (f a) l r' Φ) → wp (m ≫= f) l0 r Φ.
Proof.
  intros Hm w w' b Hr. unfold mbind, St_bind. destruct (m w) as [w1 a] eqn:E. intros Hb.
  apply Hm in E as (l1 & E1 & H1); [|done]. apply H1 in Hb as (l2 & E2 & H2); [|done].
  exists (l1 ++ l2). by rewrite E2, E1, !app_assoc, <-app_assoc, app_assoc.
Qed.
Lemma wp_ask {A} (ev : A → event) (m : St X A) l0 r (Φ : list event → list Preview → A → Prop) :
  (∀ a, Φ (l0 ++ [ev a]) r a) → wp (ask ev m) l0 r Φ.
Proof. intros H w w' a Hr. unfold ask. destruct (m _). intros [= <- <-]. exists [ev a0]. cbn. rewrite Hr. by split. Qed.
Lemma wp_quiet {A} (m : St X A) l0 r (Φ : list event → list Preview → A → Prop) : (∀ a, Φ l0 r a) → wp (quiet m) l0 r Φ.
Proof. intros H w w' a Hr. unfold quiet. destruct (m _). intros [= <- <-]. exists []. cbn. by rewrite !app_nil_r, Hr. Qed.
Lemma wp_exec `{PB : !PreviewBackend X} {A} what (stmt : list Preview → list Preview * A) l0 r Φ :
  Φ l0 (stmt r).1 (Ok (stmt r).2) → (∀ m r', r' = r ∨ r' = (stmt r).1 → Φ l0 r' (Err (what +:+ m))) →
  wp (exec what stmt) l0 r Φ.
Proof.
  intros Hok Herr w w' res Hr. unfold exec. destruct (statement_outcome _) as [x o]. rewrite Hr.
  destruct (stmt r) as [rows a]. destruct o; intros [= <- <-]; exists []; rewrite !app_nil_r; cbn; split; try done.
  all: rewrite ?Hr; apply Herr; by auto.
Qed.
End Logic.

(** One step of an operation: its first call, by rule. *)
Ltac wp_step :=
  match goal with
  | |- wp (_ ≫= _) _ _ _ => apply wp_bind
  | |- wp (mret _) _ _ _ => apply wp_ret
  | |- wp (ask _ _) _ _ _ => apply wp_ask; intros ?
  | |- wp (quiet _) _ _ _ => apply wp_quiet; intros ?
  | |- wp (exec _ _) _ _ _ => apply wp_exec; [|intros ? ? ?]
  end; cbv beta.
Ltac wp_steps := repeat wp_step.

(** ** The calls of a preview *)

Section Calls.
Context `{Q : !Quantities}.

Definition catalog_call (ev : event) : Prop :=
  match ev with EOpenCatalog _ _ _ _ | EListTables _ _ | EPurgeTable _ _ _ | EDropNamespace _ _ => True | _ => False end.
(** Calls that concern the preview [p] only: its run, its secret, its pods, its tuple. *)
Definition own_call (p : Preview) (ev : event) : Prop :=
  match ev with
  | EDeleteTuple sub rel lk _ => sub = p_ID p ∧ rel = RelationEditor ∧ lk = p_LakekeeperProjectID p
  | EDeleteRun ns name _ | EGetRun ns name _ => ns = p_K8sNamespace p ∧ name = PreviewPipelineRunName (p_ID p)
  | EDeleteSecret ns name _ => ns = p_K8sNamespace p ∧ name = SecretName (p_ID p)
  | EListPods ns id _ => ns = p_K8sNamespace p ∧ id = p_ID p
  | EPatchPod ns _ _ => ns = p_K8sNamespace p
  | _ => False
  end.
(** Catalog calls on the scratch namespaces of [p], as its sweeper. *)
Definition scratch_call (p : Preview) (ev : event) : Prop :=
  match ev with
  | EOpenCatalog sub lk wh _ =>
    sub = sweeperSubjectPrefix +:+ p_ID p ∧ lk = p_LakekeeperProjectID p ∧ wh = p_Warehouse p
  | EListTables ns _ | EPurgeTable ns _ _ | EDropNamespace ns _ => ns ∈ p_ScratchNamespaces p
  | _ => False
  end.
(** Some marks of the deletion of the tuple, and nothing else. *)
Definition tuple_marks (id : string) : list Preview → list Preview → Prop :=
  rtc (λ r r', ∃ t, r' = MarkPreviewTupleDeleted id t r).
End Calls.

Section Specs.
Context `{UT : !UnicodeTables} `{Q : !Quantities}.
Context {X : Type} `{AZ : !Authorizer X} `{PB : !PreviewBackend X}.
Variable d : Deps.

(** [p'] is [p], but for the time its tuple was deleted at. *)
Definition same_preview (p p' : Preview) : Prop := p' = p ∨ ∃ t, p' = set_tuple_deleted t p.
Lemma same_preview_trans p p' p'' : same_preview p p' → same_preview p' p'' → same_preview p p''.
Proof. intros [->|(t & ->)] [->|(t' & ->)]; [by left|by right; exists t'|by right; exists t|by right; exists t']. Qed.

(** The tuple of [p] was deleted, if it had one and [p'] says so. *)
Definition revoked (p p' : Preview) (l : list event) : Prop :=
  p_FGATupleDeletedAt p = None → p_FGATupleDeletedAt p' ≠ None → tuplesEnabled d (p_LakekeeperProjectID p) = true →
  EDeleteTuple (p_ID p) RelationEditor (p_LakekeeperProjectID p) None ∈ l.
Lemma revoked_mono p p' l l' : l ⊆ l' → revoked p p' l → revoked p p' l'.
Proof. intros Hl H H1 H2 H3. by apply Hl, H. Qed.

Lemma wp_deleteOwnTuple p r : wp (deleteOwnTuple d p) [] r (λ l r' x,
  same_preview p x.1 ∧ Forall (own_call p) l ∧ tuple_marks (p_ID p) r r' ∧ revoked p x.1 l ∧
  (x.2 = None → p_FGATupleDeletedAt x.1 ≠ None)).
Proof.
  assert (same_preview p p) as Hp by by left. assert (∀ l, revoked p p l) as Hr by by intros l ? ?.
  unfold deleteOwnTuple.
  destruct (bool_decide_reflect (p_FGATupleDeletedAt p ≠ None)); [wp_steps; by split_and!; [..|constructor| |]|].
  apply wp_bind, (wp_weaken _ _ _ (λ l r' e, Forall (own_call p) l ∧ r' = r ∧ (e = None → ∀ t, revoked p (set_tuple_deleted t p) l))).
  { unfold revoked. destruct (tuplesEnabled _ _); wp_steps; (split_and!; [by repeat constructor|done|]); intros Hn t; [|done].
    intros _ _ _. subst. by left. }
  intros l r' e (Hl & -> & He). destruct e; wp_steps.
  - by split_and!.
  - split_and!; [right; by eexists|done|apply rtc_once; by eexists|by apply He|done].
  - destruct H as [->| ->]; split_and!; try done; apply rtc_once; by eexists.
Qed.

(** Operations that only make calls of their own preview. *)
Definition own_only {A} (p : Preview) (m : St (World X) A) : Prop :=
  ∀ r, wp m [] r (λ l r' _, Forall (own_call p) l ∧ r' = r).
Lemma own_ret {A} p (a : A) : own_only p (mret a).
Proof. intros r. wp_steps. by split. Qed.
Lemma own_ask {A} p (ev : A → event) (m : St X A) : (∀ a, own_call p (ev a)) → own_only p (ask ev m).
Proof. intros H r. wp_steps. by repeat constructor. Qed.
Lemma own_bind {A B} p (m : St (World X) A) (f : A → St (World X) B) :
  own_only p m → (∀ a, own_only p (f a)) → own_only p (m ≫= f).
Proof.
  intros Hm Hf r. apply wp_bind. eapply wp_weaken; [apply Hm|]. intros l r' a (Hl & ->).
  eapply wp_use; [apply Hf|]. intros l' r' b (Hl' & ->). by rewrite Forall_app.
Qed.
Lemma own_deletePipelineRun p : own_only p (deletePipelineRun p).
Proof. apply own_bind; [by apply own_ask|intros a; apply own_ret]. Qed.
Lemma own_deleteTokenSecret p : own_only p (deleteTokenSecret p).
Proof. apply own_bind; [by apply own_ask|intros a; apply own_ret]. Qed.
Lemma own_annotate p : own_only p (annotatePodsCancelled p).
Proof.
  apply own_bind; [by apply own_ask|intros [pods|e]; [|apply own_ret]].
  induction pods as [|pod pods IH]; [apply own_ret|]. apply own_bind; [by apply own_ask|done].
Qed.

Lemma own_same {A} p p' (m : St (World X) A) : same_preview p p' → own_only p' m → own_only p m.
Proof. by intros [->|(t & ->)]. Qed.
(** Its use after other calls of the preview. *)
Lemma wp_own {A} p p' (m : St (World X) A) l r Φ :
  own_only p' m → same_preview p p' → (∀ l' a, Forall (own_call p) l' → Φ (l ++ l') r a) → wp m l r Φ.
Proof.
  intros Hm Hp H. eapply wp_use; [by eapply own_same|]. cbn. intros l' r' a (Hl & ->). by apply H.
Qed.

Lemma wp_stop p r : wp (stop d p) [] r (λ l r' x,
  same_preview p x.1 ∧ Forall (own_call p) l ∧ tuple_marks (p_ID p) r r' ∧ revoked p x.1 l).
Proof.
  unfold stop. apply wp_bind. eapply wp_weaken; [apply wp_deleteOwnTuple|].
  intros l r' [p' e] (Hp & Hl & Hr & Hv & _). cbn in Hp, Hv.
  apply wp_bind. eapply wp_own; [apply own_annotate|done|]. intros l1 _ H1.
  apply wp_bind. eapply wp_own; [apply own_deletePipelineRun|done|]. intros l2 e' H2.
  wp_steps. rewrite !Forall_app. split_and!; try done. eapply revoked_mono, Hv. set_solver.
Qed.

(** The two answers after which the preview is gone. *)
Definition gone_calls (p : Preview) : list event :=
  [EGetRun (p_K8sNamespace p) (PreviewPipelineRunName (p_ID p)) (Some IsNotFound); EListPods (p_K8sNamespace p) (p_ID p) (Ok [])].
Lemma wp_gone p r : wp (gone p) [] r (λ l r' x, Forall (own_call p) l ∧ r' = r ∧ (x = Ok true → l = gone_calls p)).
Proof.
  unfold gone. wp_steps. destruct a as [[|m]|]; wp_steps; [|by repeat constructor..].
  unfold list_pods. wp_steps. split_and!; [by repeat constructor|done|].
  destruct a as [pods|]; [|done]. intros [= ->%bool_decide_eq_true]. done.
Qed.
Lemma wp_wait_loop p fuel deadline r : wp (wait_loop d fuel deadline p) [] r (λ l r' e,
  Forall (own_call p) l ∧ r' = r ∧ (e = None → gone_calls p `suffix_of` l)).
Proof.
  induction fuel as [|fuel IH]; cbn [wait_loop]; [wp_steps; by split_and!|].
  apply wp_bind. eapply wp_weaken; [apply wp_gone|]. intros l r' x (Hl & -> & Hx). destruct x as [[|]|e]; wp_steps.
  - split_and!; [done..|]. intros _. by rewrite Hx.
  - destruct (_ <? _)%Z; wp_steps; [by split_and!|]. destruct a0; wp_steps; [by split_and!|].
    eapply wp_use; [apply IH|]. intros l' r' e (Hl' & -> & He). split_and!; [by rewrite Forall_app|done|].
    intros Hn. by apply suffix_app_r, He.
  - by split_and!.
Qed.
Lemma wp_waitGone p r : wp (waitGone d p) [] r (λ l r' e,
  Forall (own_call p) l ∧ r' = r ∧ (e = None → gone_calls p `suffix_of` l)).
Proof. unfold waitGone. wp_steps. apply wp_wait_loop. Qed.

(** ** Purging the namespaces *)

(** The tables a listing named were purged and the namespace dropped. *)
Definition ns_purged (ns : string) (l : list event) : Prop :=
  EDropNamespace ns None ∈ l ∧ ∃ tables, EListTables ns (Ok tables) ∈ l ∧ ∀ t, t ∈ tables → EPurgeTable ns t None ∈ l.
Lemma ns_purged_mono ns l l' : l ⊆ l' → ns_purged ns l → ns_purged ns l'.
Proof. intros Hl (H & ts & Hts & Ht). split; [by apply Hl|]. exists ts. split; [by apply Hl|]. intros t Hin. by apply Hl, Ht. Qed.
Definition purge_done (p : Preview) (body : list event) : Prop :=
  ∃ l, body = l ++ ((λ ns, EListTables ns (Ok [])) <$> p_ScratchNamespaces p) ∧
    ∀ ns, ns ∈ p_ScratchNamespaces p → ns_purged ns l.

Lemma wp_purge_tables p ns ts r : ns ∈ p_ScratchNamespaces p → wp (purge_tables ns ts) [] r (λ l r' e,
  Forall (scratch_call p) l ∧ r' = r ∧ (e = None → ∀ t, t ∈ ts → EPurgeTable ns t None ∈ l)).
Proof.
  intros Hns. induction ts as [|t ts IH]; cbn [purge_tables].
  { wp_steps. split_and!; [done..|]. intros _ t Ht. by apply elem_of_nil in Ht. }
  unfold PurgeTable. wp_steps. destruct a; wp_steps; [by split_and!; [repeat constructor|..]|].
  eapply wp_use; [apply IH|]. intros l r' e (Hl & -> & He). split_and!; [by constructor|done|].
  intros Hn t' [->|Ht]%elem_of_cons; [by left|right; by apply He].
Qed.
Lemma wp_purge_namespace p ns r : ns ∈ p_ScratchNamespaces p → wp (purge_namespace ns) [] r (λ l r' e,
  Forall (scratch_call p) l ∧ r' = r ∧ (e = None → ns_purged ns l)).
Proof.
  intros Hns. unfold purge_namespace, ListTables. wp_steps.
  destruct a as [ts|]; wp_steps; [|by split_and!; [repeat constructor|..]].
  eapply wp_use; [by apply wp_purge_tables|]. intros l r' e (Hl & -> & He).
  destruct e; wp_steps; [by split_and!; [constructor|..]|]. unfold DropNamespace. wp_steps.
  split_and!; [by apply Forall_app; repeat constructor|done|]. destruct a; [done|]. intros _. split; [set_solver|].
  exists ts. split; [by left|]. intros t Ht. specialize (He eq_refl t Ht). set_solver.
Qed.
Lemma wp_verify p ns r : ns ∈ p_ScratchNamespaces p → wp (verify_namespace ns) [] r (λ l r' e,
  Forall (scratch_call p) l ∧ r' = r ∧ (e = None → l = [EListTables ns (Ok [])])).
Proof.
  intros Hns. unfold verify_namespace, ListTables. wp_steps. split_and!; [by repeat constructor|done|].
  by destruct a as [[|]|].
Qed.
Lemma wp_each (P : string → list event → Prop) p (f : string → St (World X) (option perror)) l r :
  (∀ a r, a ∈ l → wp (f a) [] r (λ l r' e, Forall (scratch_call p) l ∧ r' = r ∧ (e = None → P a l))) →
  wp (each f l) [] r (λ l' r' e, Forall (scratch_call p) l' ∧ r' = r ∧ (e = None → ∃ ls, l' = concat ls ∧ Forall2 P l ls)).
Proof.
  induction l as [|a l IH]; intros Hf; cbn [each].
  { wp_steps. split_and!; [done..|]. intros _. by exists []. }
  apply wp_bind. eapply wp_weaken; [apply Hf; by left|]. intros l1 r1 e (Hl1 & -> & He).
  destruct e; wp_steps; [by split_and!|]. eapply wp_use; [apply IH; intros b r' Hb; apply Hf; by right|].
  intros l2 r2 e2 (Hl2 & -> & He2). split_and!; [by apply Forall_app|done|]. intros Hn.
  destruct (He2 Hn) as (ls & -> & Hls). exists (l1 :: ls). split; [done|]. constructor; [by apply He|done].
Qed.
Lemma wp_purge_body p sw r : sw = sweeperSubjectPrefix +:+ p_ID p → wp (purge_body sw p) [] r (λ l r' e,
  Forall (scratch_call p) l ∧ r' = r ∧ (e = None → purge_done p l)).
Proof.
  intros ->. unfold purge_body. wp_steps. destruct a; wp_steps; [by split_and!; [repeat constructor|..]|].
  eapply wp_use; [eapply (wp_each ns_purged p); intros; by apply wp_purge_namespace|].
  intros l1 r1 e (H1 & -> & He1). destruct e; wp_steps; [by split_and!; [constructor|..]|].
  eapply wp_use; [eapply (wp_each (λ ns l, l = [EListTables ns (Ok [])]) p); intros; by apply wp_verify|].
  intros l2 r2 e (H2 & -> & He2). split_and!; [by apply Forall_app; repeat constructor|done|]. intros Hn.
  destruct (He1 eq_refl) as (ls1 & -> & F1), (He2 Hn) as (ls2 & -> & F2).
  eexists. split.
  - f_equal. clear - F2. induction F2 as [|ns l nss ls -> _ IH]; [done|]. cbn. by rewrite IH.
  - intros ns Hns. apply list_elem_of_lookup in Hns as [i Hi]. destruct (Forall2_lookup_l _ _ _ _ _ F1 Hi) as (l & Hl & Hp).
    eapply ns_purged_mono, Hp. intros ev Hev. right. apply list_elem_of_In, in_concat. exists l.
    split; [|by apply list_elem_of_In]. by eapply list_elem_of_In, list_elem_of_lookup_2.
Qed.

(** The sweeper's tuple around its catalog calls. *)
Inductive bracketed (sw lk : string) : list event → list event → Prop :=
| no_tuples body : tuplesEnabled d lk = false → bracketed sw lk body body
| denied m : bracketed sw lk [] [EWriteTuple sw RelationEditor lk (Some m)]
| granted body r : bracketed sw lk body
    (EWriteTuple sw RelationEditor lk None :: body ++ [EDeleteTuple sw RelationEditor lk r]).
Definition sweeper (p : Preview) : string := sweeperSubjectPrefix +:+ p_ID p.
Definition sweeper_removed (p : Preview) (after : list event) : Prop :=
  tuplesEnabled d (p_LakekeeperProjectID p) = true →
  last after = Some (EDeleteTuple (sweeper p) RelationEditor (p_LakekeeperProjectID p) None).
Lemma wp_purgeNamespaces p r : wp (purgeNamespaces d p) [] r (λ l r' e, r' = r ∧
  ∃ body, bracketed (sweeper p) (p_LakekeeperProjectID p) body l ∧ Forall (scratch_call p) body ∧ (e = None → purge_done p body ∧ sweeper_removed p l)).
Proof.
  unfold purgeNamespaces, sweeper_removed. destruct (tuplesEnabled _ _) eqn:Ht.
  - wp_steps. destruct a; wp_steps; [split; [done|]; eexists; by split_and!; [constructor|constructor|]|].
    eapply wp_use; [by apply wp_purge_body|]. intros l r' e (Hl & -> & He). wp_steps.
    split; [done|]. exists l. split_and!; [cbn; constructor|done|]. destruct a; [by destruct e|]. intros ->.
    split; [by apply He|]. intros _. by rewrite last_snoc.
  - eapply wp_weaken; [by apply wp_purge_body|]. intros l r' e (Hl & -> & He). split; [done|]. exists l.
    split_and!; [by constructor|done|]. intros Hn. by split; [apply He|].
Qed.

(** ** Purge *)

Definition purge_start (p : Preview) : St (World X) (Preview * option perror) :=
  if negb (isTerminal (p_Phase p)) then stop d p else mret (p, None).
Lemma wp_purge_start p r : wp (purge_start p) [] r (λ l r' x,
  same_preview p x.1 ∧ Forall (own_call p) l ∧ tuple_marks (p_ID p) r r' ∧ revoked p x.1 l).
Proof.
  unfold purge_start. destruct (negb _); [apply wp_stop|]. wp_steps. split_and!; [by left|done|constructor|by intros ? ?].
Qed.
(** After both deletions of the tuple it is gone. *)
Lemma revoked_twice p p1 p2 l1 l2 : same_preview p p1 → same_preview p1 p2 → revoked p p1 l1 → revoked p1 p2 l2 →
  p_FGATupleDeletedAt p2 ≠ None → revoked p (set_tuple_deleted 0 p) (l1 ++ l2).
Proof.
  intros [->|(t & ->)] Hp2 H1 H2 Hd Hn _ Hen; apply elem_of_app; [right; by apply H2|left; by apply H1].
Qed.

(** What Purge does when nothing is left of the run and the tuple. *)
Definition purge_rest (p : Preview) (expired : bool) : St (World X) (option perror) :=
  then_ (deletePipelineRun p) (then_ (deleteTokenSecret p) (then_ (waitGone d p) (then_ (purgeNamespaces d p)
    (t ← quiet now;
     r ← exec "mark preview cleaned: " (write_ (MarkPreviewCleaned (p_ID p) t expired));
     mret (error_of r))))).
Definition cleaned_result (p : Preview) (expired : bool) (r r' : list Preview) (e : option perror) : Prop :=
  match e with
  | None => ∃ t, r' = MarkPreviewCleaned (p_ID p) t expired r
  | Some e => r' = r ∨ ∃ t m, e = Failure ("mark preview cleaned: " +:+ m) ∧ r' = MarkPreviewCleaned (p_ID p) t expired r
  end.
(** The calls on the catalog, if any, come after the ones that saw the preview gone. *)
Definition purge_calls (p : Preview) (l : list event) (e : option perror) : Prop :=
  ∃ before after, l = before ++ after ∧ Forall (own_call p) before ∧
    (after = [] ∧ e ≠ None ∨
     gone_calls p `suffix_of` before ∧
     ∃ body, bracketed (sweeper p) (p_LakekeeperProjectID p) body after ∧ Forall (scratch_call p) body ∧ (e = None → purge_done p body ∧ sweeper_removed p after)).
Lemma purge_calls_before p l0 l e : Forall (own_call p) l0 → purge_calls p l e → purge_calls p (l0 ++ l) e.
Proof.
  intros H0 (before & after & -> & Hb & H). exists (l0 ++ before), after. split_and!; [by rewrite app_assoc|by apply Forall_app|].
  destruct H as [?|(Hs & H)]; [by left|right]. split; [by apply suffix_app_r|done].
Qed.
Lemma purge_calls_stopped p l e : Forall (own_call p) l → purge_calls p l (Some e).
Proof. intros Hl. exists l, []. rewrite app_nil_r. split_and!; [done..|by left]. Qed.

Lemma wp_then (m k : St (World X) (option perror)) l r Φ :
  wp m l r (λ l' r' e, match e with Some e => Φ l' r' (Some e) | None => wp k l' r' Φ end) → wp (then_ m k) l r Φ.
Proof. intros H. apply wp_bind. eapply wp_weaken; [done|]. intros l' r' [e|] He; [by wp_steps|done]. Qed.

Lemma wp_purge_rest p expired r : wp (purge_rest p expired) [] r (λ l r' e, purge_calls p l e ∧ cleaned_result p expired r r' e).
Proof.
  unfold purge_rest. assert (same_preview p p) as Hp by by left.
  apply wp_then. eapply wp_own; [apply own_deletePipelineRun|done|]. intros l1 [e|] H1.
  { split; [by apply purge_calls_stopped|by left]. }
  apply wp_then. eapply wp_own; [apply own_deleteTokenSecret|done|]. intros l2 [e|] H2.
  { split; [by apply purge_calls_stopped, Forall_app|by left]. }
  apply wp_then. eapply wp_use; [apply wp_waitGone|]. intros l3 r3 e (H3 & -> & Hg). destruct e as [e|].
  { split; [apply purge_calls_stopped; rewrite !Forall_app; by split_and!|by left]. }
  apply wp_then. eapply wp_use; [apply wp_purgeNamespaces|]. intros l4 r4 e (-> & body & Hb & Hs & Hd).
  assert (∀ e' : option perror, (e' = None → e = None) → purge_calls p (((([] ++ l1) ++ l2) ++ l3) ++ l4) e') as Hc.
  { intros e' He. exists ((([] ++ l1) ++ l2) ++ l3), l4. split_and!; [done|by rewrite !Forall_app; split_and!|].
    right. split; [by apply suffix_app_r, Hg|]. exists body. split_and!; [done..|]. intros Hn. by apply Hd, He. }
  destruct e as [e|]; [split; [by apply Hc|by left]|]. wp_steps.
  - split; [by apply Hc|by eexists].
  - split; [by apply Hc|]. destruct H as [->| ->]; [by left|right; by eexists _, _].
Qed.

Lemma same_rest p p' expired r : same_preview p p' →
  wp (purge_rest p' expired) [] r (λ l r' e, purge_calls p l e ∧ cleaned_result p expired r r' e).
Proof. intros [->|(t & ->)]; [apply wp_purge_rest|apply (wp_purge_rest (set_tuple_deleted t p))]. Qed.
Lemma wp_Purge p r : wp (Purge d p) [] r (λ l r' e,
  purge_calls p l e ∧ (e = None → revoked p (set_tuple_deleted 0 p) l) ∧
  ∃ r1, tuple_marks (p_ID p) r r1 ∧ cleaned_result p (negb (isTerminal (p_Phase p))) r1 r' e).
Proof.
  unfold Purge. apply wp_bind. eapply wp_weaken; [apply wp_purge_start|].
  intros l r1 [p1 e] (Hp & Hl & Hr & Hv). cbn in Hp, Hv.
  destruct e; wp_steps; [split_and!; [by apply purge_calls_stopped|done|eexists; by split; [|left]]|].
  eapply wp_use; [apply wp_deleteOwnTuple|]. intros l2 r2 [p2 e] (Hp2 & Hl2 & Hr2 & Hv2 & He). cbn in Hp2, Hv2, He.
  assert (Forall (own_call p) (l ++ l2)) as Hl12.
  { apply Forall_app. split; [done|]. by destruct Hp as [->|(t & ->)]. }
  assert (tuple_marks (p_ID p) r r2) as Hr12 by (etrans; [done|]; by destruct Hp as [->|(t & ->)]).
  destruct e; wp_steps; [split_and!; [by apply purge_calls_stopped|done|eexists; by split; [|left]]|].
  eapply wp_use; [eapply (same_rest p), same_preview_trans; done|]. intros l3 r3 e (Hc & Hres).
  split_and!; [by apply purge_calls_before| |by exists r2]. intros _.
  eapply revoked_mono; [|eapply (revoked_twice p p1 p2 l l2); by try apply He]. set_solver.
Qed.
End Specs.

Section Theorems.
Context `{UT : !UnicodeTables} `{Q : !Quantities}.
Context {X : Type} `{AZ : !Authorizer X} `{PB : !PreviewBackend X}.
Variable d : Deps.

(** C26: whatever the cluster, OpenFGA, the catalog and the database answer, Purge
    of a preview makes calls on that preview's own run, pods, secret and tuple
    only; it touches the catalog only after one answer that the run is not there
    and the next that no pod is left, then only as the preview's sweeper and
    only on its scratch namespaces; the sweeper's tuple, once written, is always
    deleted afterwards; and a success means every listed table was purged, every
    namespace dropped, and each seen empty in the end. *)
Theorem purge_after_gone (p : Preview) (w : World X) :
  let (w', e) := Purge d p w in ∃ l, w_log w' = w_log w ++ l ∧ purge_calls d p l e.
Proof. destruct (Purge d p w) as [w' e] eqn:E. apply (wp_Purge d p (w_rows w)) in E as (l & Hl & Hc & _); [|done]. by exists l. Qed.

(** Purge marks the row cleaned, Expired if it was still running, exactly
    when every step succeeded, and then the preview's tuple was deleted; on an
    error it leaves every row as it was, but for the time of the tuple's deletion
    (and a lost answer of the last statement). *)
Theorem Purge_result (p : Preview) (w : World X) :
  let (w', e) := Purge d p w in ∃ l rows, w_log w' = w_log w ++ l ∧
    tuple_marks (p_ID p) (w_rows w) rows ∧ cleaned_result p (negb (isTerminal (p_Phase p))) rows (w_rows w') e ∧
    (e = None → p_FGATupleDeletedAt p = None → tuplesEnabled d (p_LakekeeperProjectID p) = true →
      EDeleteTuple (p_ID p) RelationEditor (p_LakekeeperProjectID p) None ∈ l).
Proof.
  destruct (Purge d p w) as [w' e] eqn:E. apply (wp_Purge d p (w_rows w)) in E as (l & Hl & _ & Hv & rows & Hm & Hc); [|done].
  exists l, rows. split_and!; [done..|]. intros He H1 H2. by apply Hv.
Qed.

(** ** The wait ends *)

(** The clock of the process does not go back, and a wait lasts. *)
Class ClockLaws (clock : X → Z) : Prop := {
  time_Now_clock x x' t : time_Now x = (x', t) → (clock x ≤ t ≤ clock x')%Z;
  time_After_clock n x x' : time_After n x = (x', None) → (clock x + n ≤ clock x')%Z;
  get_run_clock ns name x x' r : k8s_get_run ns name x = (x', r) → (clock x ≤ clock x')%Z;
  list_pods_clock ns id x x' r : k8s_list_pods ns id x = (x', r) → (clock x ≤ clock x')%Z;
}.
Lemma gone_clock clock `{!ClockLaws clock} p w w' r : gone p w = (w', r) →
  (clock (w_rest w) ≤ clock (w_rest w'))%Z ∧ r ≠ Err OutOfFuel.
Proof.
  unfold gone, list_pods, mbind, St_bind, ask. destruct (k8s_get_run _ _ _) as [x1 a] eqn:E1. apply get_run_clock in E1.
  destruct a as [[|m]|]; [|by intros [= <- <-]..]. cbn. destruct (k8s_list_pods _ _ _) as [x2 b] eqn:E2.
  apply list_pods_clock in E2. intros [= <- <-]. cbn. split; [lia|by destruct b].
Qed.
Lemma wait_loop_ends clock `{!ClockLaws clock} p deadline fuel w :
  (0 < d_PollInterval d)%Z → (deadline - clock (w_rest w) < (Z.of_nat fuel - 1) * d_PollInterval d)%Z → (0 < fuel)%nat →
  (wait_loop d fuel deadline p w).2 ≠ Some OutOfFuel.
Proof.
  intros Hp. revert w. induction fuel as [|fuel IH]; intros w Hf Hpos; [lia|]. cbn [wait_loop].
  unfold mbind at 1, St_bind at 1. destruct (gone p w) as [w1 r] eqn:Eg. apply (gone_clock clock) in Eg as [Hg Hr].
  destruct r as [[|]|e]; [done| |cbn; congruence]. unfold mbind, St_bind, quiet.
  destruct (time_Now _) as [x2 t] eqn:Et. apply (time_Now_clock (clock := clock)) in Et. cbn.
  destruct (deadline <? t)%Z eqn:Ed; [done|]. to_arith.
  destruct (time_After _ _) as [x3 [e|]] eqn:Ea; [done|]. apply (time_After_clock (clock := clock)) in Ea. cbn in *.
  apply IH; cbn; nia.
Qed.

End Theorems.

(** The polling of waitGone ends under any clock that does not go back: with
    the dependencies New fills in, it takes at most one poll per interval of the
    wait and three more. *)
Theorem waitGone_terminates `{UT : !UnicodeTables} `{Q : !Quantities} {X : Type} `{PB : !PreviewBackend X}
    (clock : X → Z) (CL : ClockLaws clock) (deps : Deps) (p : Preview) (w : World X) :
  (waitGone (New deps) p w).2 ≠ Some OutOfFuel.
Proof.
  set (d := New deps). unfold waitGone, mbind, St_bind, quiet. destruct (time_Now _) as [x t] eqn:E.
  apply (time_Now_clock (clock := clock)) in E.
  assert (0 < d_PollInterval d ∧ 0 < d_PurgeWait d)%Z as [H1 H2].
  { cbn. split; [destruct (d_PollInterval deps <=? 0)%Z eqn:H|destruct (d_PurgeWait deps <=? 0)%Z eqn:H]; to_arith;
      unfold defaultPollInterval, defaultPurgeWait, second; lia. }
  pose proof (Z.div_mod (d_PurgeWait d) (d_PollInterval d) ltac:(lia)).
  pose proof (Z.mod_pos_bound (d_PurgeWait d) (d_PollInterval d) H1).
  pose proof (Z.div_pos (d_PurgeWait d) (d_PollInterval d) ltac:(lia) H1).
  apply (wait_loop_ends d clock); [done| |unfold wait_fuel; lia]. cbn [w_rest]. unfold wait_fuel. rewrite Z2Nat.id by lia. nia.
Qed.

(** ** The sweep moves on *)

Section Sweep.
Context `{UT : !UnicodeTables} `{Q : !Quantities}.
Context {X : Type} `{AZ : !Authorizer X} `{PB : !PreviewBackend X}.
Variables (d : Deps) (lb : Z).

(** A sweep during which the database answers and the tick's budget lasts; the
    cluster, OpenFGA and the catalog may fail at any call. [lb] bounds its clock
    from below. *)
Class SmoothSweep : Prop := {
  smooth_statement x : (statement_outcome x).2 = DbDone;
  smooth_ctx x : (ctx_Err x).2 = None;
  smooth_now x : (lb ≤ (now x).2)%Z;
}.
Context `{SM : !SmoothSweep}.

Definition cleaned (q : Preview) : Prop := p_CleanedAt q ≠ None.
(** No further try before [lb] plus the backoff. *)
Definition settled (q : Preview) : Prop :=
  cleaned q ∨ ∃ x, p_ExpiresAt q = Some x ∧ (lb + purgeRetryBackoff ≤ x)%Z.
Definition rows_of (P : Preview → Prop) (id : string) (rows : list Preview) : Prop := ∀ q, q ∈ rows → p_ID q = id → P q.
(** What the statements of a sweep keep. *)
Definition kept (r r' : list Preview) : Prop := ∀ id,
  (rows_of settled id r → rows_of settled id r') ∧ (rows_of cleaned id r → rows_of cleaned id r').
#[local] Instance kept_preorder : PreOrder kept.
Proof. split; [by split|]. intros r1 r2 r3 H1 H2 id. destruct (H1 id), (H2 id). split; auto. Qed.

Lemma rows_of_update (P : Preview → Prop) id0 guard f rows id : (∀ q, p_ID (f q) = p_ID q) → (∀ q, P q → P (f q)) →
  rows_of P id rows → rows_of P id (update id0 guard f rows).1.
Proof.
  intros Hid Hf Hm q' Hq' Hq. unfold update in Hq'. cbn in Hq'. apply list_elem_of_fmap in Hq' as (q & -> & Hin).
  destruct (_ && _); [|by apply Hm]. rewrite Hid in Hq. by apply Hf, Hm.
Qed.
Lemma rows_of_updated (P : Preview → Prop) id guard f rows : (∀ q, P (f q)) → (∀ q, guard q = false → P q) →
  rows_of P id (update id guard f rows).1.
Proof.
  intros Hf Hg q' Hq' Hq. unfold update in Hq'. cbn in Hq'. apply list_elem_of_fmap in Hq' as (q & -> & Hin).
  destruct (bool_decide_reflect (p_ID q = id)); cbn [andb] in *; [|done]. destruct (guard q) eqn:E; [done|by apply Hg].
Qed.
Lemma kept_marks id r r' : tuple_marks id r r' → kept r r'.
Proof.
  induction 1 as [|r r1 r2 (t & ->) _ IH]; [done|]. etrans; [|done]. intros id'. by split; apply rows_of_update.
Qed.
Lemma kept_cleaned id t expired r : kept r (MarkPreviewCleaned id t expired r).
Proof. intros id'. split; apply rows_of_update; try done; intros q _; by left. Qed.
Lemma kept_deferred id u r : (lb + purgeRetryBackoff ≤ u)%Z → kept r (DeferPreviewExpiry id u r).
Proof. intros Hu id'. split; apply rows_of_update; try done; intros q _; right; by exists u. Qed.

Lemma wp_exec_smooth {A} what (stmt : list Preview → list Preview * A) l0 r Φ :
  Φ l0 (stmt r).1 (Ok (stmt r).2) → wp (X := X) (exec what stmt) l0 r Φ.
Proof.
  intros H w w' res Hr. unfold exec. pose proof (smooth_statement (w_rest w)) as Hs.
  destruct (statement_outcome _) as [x o]. cbn in Hs. subst o. rewrite Hr.
  destruct (stmt r) as [rows a]. intros [= <- <-]. exists []. by rewrite !app_nil_r.
Qed.
Lemma wp_now l0 r (Φ : list event → list Preview → Z → Prop) : (∀ t, (lb ≤ t)%Z → Φ l0 r t) → wp (X := X) (quiet now) l0 r Φ.
Proof.
  intros H w w' t Hr. unfold quiet. pose proof (smooth_now (w_rest w)) as Hs. destruct (now _) as [x t'].
  intros [= <- <-]. exists []. cbn. rewrite !app_nil_r, Hr. by split; [|apply H].
Qed.
Lemma wp_ctx l0 r (Φ : list event → list Preview → option string → Prop) : Φ l0 r None → wp (X := X) (quiet ctx_Err) l0 r Φ.
Proof.
  intros H w w' t Hr. unfold quiet. pose proof (smooth_ctx (w_rest w)) as Hs. destruct (ctx_Err _) as [x o]. cbn in Hs. subst o.
  intros [= <- <-]. exists []. cbn. rewrite !app_nil_r, Hr. by split.
Qed.

(** Deletion times of tuples, of any preview. *)
Definition tuples_marked : list Preview → list Preview → Prop := rtc (λ r r', ∃ id, tuple_marks id r r').
Lemma kept_marked r r' : tuples_marked r r' → kept r r'.
Proof. induction 1 as [|r r1 r2 (id & H) _ IH]; [done|]. etrans; [by eapply kept_marks|done]. Qed.
Lemma wp_sweep_tuples l r : wp (sweep_tuples d l) [] r (λ _ r' _, tuples_marked r r').
Proof.
  revert r. induction l as [|p l IH]; intros r; cbn [sweep_tuples]; [by wp_steps|].
  apply wp_bind. eapply wp_weaken; [apply wp_deleteOwnTuple|]. intros l1 r1 [p1 e] (_ & _ & Hm & _). cbn in Hm.
  apply wp_bind. eapply wp_use; [apply IH|]. intros l2 r2 fs Hk. wp_steps. eapply rtc_l; [by eexists|done].
Qed.
Lemma wp_Purge_kept p r : wp (Purge d p) [] r (λ _ r' e, kept r r' ∧ (e = None → rows_of cleaned (p_ID p) r')).
Proof.
  eapply wp_weaken; [apply wp_Purge|]. intros _ r' e (_ & _ & r1 & Hm & Hc). apply kept_marks in Hm. unfold cleaned_result in Hc.
  destruct e as [e|].
  - split; [|done]. destruct Hc as [->|(t & m & _ & ->)]; [done|]. etrans; [done|apply kept_cleaned].
  - destruct Hc as (t & ->). split; [etrans; [done|apply kept_cleaned]|]. intros _. by apply rows_of_updated.
Qed.
Definition swept (p : Preview) (rows : list Preview) (fs : failures) : Prop :=
  rows_of settled (p_ID p) rows ∧ ((∀ step, (step, p_ID p) ∉ fs) → rows_of cleaned (p_ID p) rows).
Lemma wp_sweep_expired l r : wp (sweep_expired d l) [] r (λ _ r' fs, kept r r' ∧ ∀ p, p ∈ l → swept p r' fs).
Proof.
  revert r. induction l as [|p l IH]; intros r; cbn [sweep_expired].
  { wp_steps. split; [done|]. intros p Hp. by apply elem_of_nil in Hp. }
  apply wp_bind, wp_ctx, wp_bind. eapply wp_weaken; [apply wp_Purge_kept|]. intros l1 r1 [e|] (Hk1 & Hc).
  - apply wp_bind, wp_ctx, wp_bind. unfold deferPurge. apply wp_bind, wp_now. intros t Ht. apply wp_bind, wp_exec_smooth. cbn.
    apply wp_ret, wp_bind. eapply wp_use; [apply IH|]. intros l2 r2 fs (Hk2 & Hl). wp_steps.
    split; [etrans; [done|]; etrans; [|done]; apply kept_deferred; lia|].
    intros p' [->|Hp]%elem_of_cons.
    + split; [|intros Hn; destruct (Hn (failedStep e)); by left]. apply Hk2, rows_of_updated.
      * intros q. right. eexists. split; [done|lia].
      * intros q Hq. left. intros Hn. unfold uncleaned in Hq. by rewrite bool_decide_eq_true_2 in Hq.
    + destruct (Hl p' Hp) as [H1 H2]. split; [done|]. intros Hn. apply H2. intros step Hs. apply (Hn step). by right.
  - eapply wp_use; [apply IH|]. intros l2 r2 fs (Hk2 & Hl). split; [by etrans|].
    intros p' [->|Hp]%elem_of_cons; [|by apply Hl]. specialize (Hc eq_refl).
    split; [|intros _; by apply Hk2]. apply Hk2. intros q Hq Hid. left. by apply Hc.
Qed.

(** A row of a batch that was swept is in no listing before the backoff is over. *)
Lemma swept_unlisted p q rows fs t limit : swept p rows fs → (t ≤ lb + purgeRetryBackoff)%Z →
  q ∈ ListExpiredPreviews t limit rows → p_ID q ≠ p_ID p.
Proof.
  intros [Hs _] Ht Hq Hid. unfold ListExpiredPreviews in Hq. apply elem_of_take in Hq as (i & Hi & _).
  apply list_elem_of_lookup_2 in Hi. rewrite merge_sort_Permutation in Hi. apply list_elem_of_filter in Hi as [He Hin].
  unfold expired_at, uncleaned in He. apply andb_true_iff in He as [Hx Hu]. apply bool_decide_eq_true in Hu.
  destruct (Hs q Hin Hid) as [Hc|(x & Hx' & Hle)]; [done|]. rewrite Hx' in Hx. to_arith. lia.
Qed.
Definition sweep_spec (w w' : World X) (fs : failures) (e : option string) : Prop :=
  ∃ t rows, (lb ≤ t)%Z ∧ tuples_marked (w_rows w) rows ∧ (e = None ↔ fs = []) ∧
    ∀ p, p ∈ ListExpiredPreviews t sweepBatch rows →
      ((∀ step, (step, p_ID p) ∉ fs) → rows_of cleaned (p_ID p) (w_rows w')) ∧
      ∀ t' limit q, (t' ≤ lb + purgeRetryBackoff)%Z → q ∈ ListExpiredPreviews t' limit (w_rows w') → p_ID q ≠ p_ID p.
Lemma SweepOnce_spec (w : World X) : let (w', r) := SweepOnce d w in sweep_spec w w' r.1 r.2.
Proof.
  assert (wp (SweepOnce d) [] (w_rows w) (λ _ r' x, ∃ t rows, (lb ≤ t)%Z ∧ tuples_marked (w_rows w) rows ∧
    (x.2 = None ↔ x.1 = []) ∧ ∀ p, p ∈ ListExpiredPreviews t sweepBatch rows → swept p r' x.1)) as H.
  { unfold SweepOnce. apply wp_bind, wp_exec_smooth, wp_bind. cbn.
    eapply wp_weaken; [apply wp_sweep_tuples|]. intros l r fs Hk. apply wp_bind, wp_now. intros t Ht.
    apply wp_bind, wp_exec_smooth, wp_bind. cbn. eapply wp_use; [apply wp_sweep_expired|]. intros l' r' fs' (_ & Hs).
    wp_steps. exists t, r. split_and!; [done..| |].
    - cbn. by destruct (fs ++ fs').
    - intros p Hp. destruct (Hs p Hp) as [H1 H2]. split; [done|]. intros Hn. apply H2. intros step Hin.
      apply (Hn step), elem_of_app. by right. }
  destruct (SweepOnce d w) as [w' [fs e]] eqn:E. apply H in E as (l & _ & t & rows & Ht & Hm & He & Hs); [|done].
  exists t, rows. split_and!; [done..|]. intros p Hp. split; [by apply (Hs p Hp)|]. intros t' limit q Ht' Hq.
  by eapply swept_unlisted; [apply (Hs p Hp)|..].
Qed.
End Sweep.

(** A preview that cannot be purged does not hold up the others: when the
    database answers and the tick's budget lasts, every expired preview of the
    sweep's batch is purged and marked cleaned, or counted as failed; and in
    either case no listing of expired previews before the backoff is over has it,
    so the next sweeps get to the previews behind it. *)
Theorem sweep_moves_on `{UT : !UnicodeTables} `{Q : !Quantities} {X : Type} `{AZ : !Authorizer X} `{PB : !PreviewBackend X}
    (d : Deps) (lb : Z) (SM : SmoothSweep (X := X) lb) (w : World X) :
  let (w', r) := SweepOnce d w in sweep_spec lb w w' r.1 r.2.
Proof. exact (SweepOnce_spec d lb w). Qed.
