(* ===== verification/PreviewCreate.v ===== *)
(** * PreviewCreate: what creating a preview does, and examples of the service

    The specification of Create in the logic of PreviewPurge, and a cluster, an
    OpenFGA store and a catalog in memory on which the service runs: a purge, a
    sweep past a preview that is stuck, and a delete that meets a create. *)

From S2P Require Import Prelude Secrets ApiTypes Policy Registry ConfigSchema Validate PipelineDoc Preview PreviewStore Authz RunTypes PreviewService PreviewPurge.

Section Create.
Context `{UT : !UnicodeTables} `{Q : !Quantities} `{J : !Json} `{JS : !JsonSchema} `{TR : !Transforms} `{Y : !Yaml}
  `{PJ : !PipelineJson} `{DM : !DocMarshal}.
Context {X : Type} `{AZ : !Authorizer X} `{PB : !PreviewBackend X}.
Variables (IsDNS1123Subdomain : string → list string) (d : Deps).

(** ** The request *)

Definition request_ok (r : CreateRequest) : Prop :=
  workspace_ok (cr_Workspace r) = true ∧ (1 ≤ cr_RowLimit r ≤ 100000)%Z ∧
  (30 ≤ cr_TimeoutSeconds r ≤ 3600)%Z ∧ (60 ≤ cr_TTLSeconds r ≤ 86400)%Z.
Lemma bound_ok name v def lo hi v' : bound_field name v def lo hi = Ok v' → (lo ≤ v' ≤ hi)%Z.
Proof. unfold bound_field. destruct (_ || _) eqn:E; [done|]. intros [= <-]. apply orb_false_iff in E as [H1 H2]. to_arith. lia. Qed.
Lemma withDefaults_ok r r' : withDefaults r = Ok r' → request_ok r' ∧ cr_Doc r' = cr_Doc r ∧ cr_UntilStage r' = cr_UntilStage r.
Proof.
  unfold withDefaults, request_ok. destruct (workspace_ok _) eqn:Ew; cbn [negb]; [|done].
  destruct (bound_field "row_limit" _ _ _ _) as [a|] eqn:E1; [|done]. destruct (bound_field "timeout_seconds" _ _ _ _) as [b|] eqn:E2; [|done].
  destruct (bound_field "ttl_seconds" _ _ _ _) as [c|] eqn:E3; [|done]. intros [= <-]. apply bound_ok in E1 as [], E2 as [], E3 as []. by split_and!.
Qed.

(** ** The row *)

(** The insert of the row of a request whose document was rewritten as [rw]. *)
Definition recorded (r : CreateRequest) (rows rows' : list Preview) (r' : CreateRequest) (rw : RewriteResult) (p : Preview) : Prop :=
  request_ok r' ∧ ∃ t doc original lk warehouse ns,
    cr_Doc r = Some doc ∧ Rewrite (p_ID p) doc (cr_UntilStage r) = Ok rw ∧
    InsertPreview (d_Caps d) t (new_row r' (p_ID p) original lk warehouse ns (rr_Namespaces rw)) rows = Ok (rows', p).
Lemma InsertPreview_id caps t row rows rows' p : InsertPreview caps t row rows = Ok (rows', p) →
  p = inserted_row t row ∧ p_ID p = p_ID row.
Proof. unfold InsertPreview. destruct (_ || _); [done|]. destruct (existsb _ _); [done|]. by intros [= <- <-]. Qed.
Lemma Create_docs_ok r doc id rw original : Create_docs IsDNS1123Subdomain r doc id = Ok (rw, original) →
  Rewrite id doc (cr_UntilStage r) = Ok rw.
Proof.
  unfold Create_docs. destruct (Rewrite id doc _) as [rw'|e]; [|done]. cbn.
  destruct (doc_Marshal (rr_Doc rw')) as [s|e]; [|done]. cbn. destruct (hasError _); [done|].
  destruct (doc_Marshal doc) as [s'|e]; [|done]. cbn. by intros [= <- <-].
Qed.
Lemma wp_try {A B} (m : St (World X) (result perror A)) (f : A → St (World X) (result perror B)) l r Φ :
  wp m l r (λ l' r' a, match a with Ok a => wp (f a) l' r' Φ | Err e => Φ l' r' (Err e) end) → wp (try m f) l r Φ.
Proof.
  intros Hm w w' b Hr. unfold try. destruct (m w) as [w1 a] eqn:E. apply Hm in E as (l1 & E1 & H1); [|done].
  destruct a as [a|e]; [|intros [= <- <-]; by exists l1]. intros Hb.
  apply H1 in Hb as (l2 & E2 & H2); [|done]. exists (l1 ++ l2). by rewrite E2, E1, !app_assoc, <-app_assoc, app_assoc.
Qed.
Lemma wp_Create_record r rows : wp (Create_record IsDNS1123Subdomain d r) [] rows (λ l rows' res, l = [] ∧
  match res with Ok (r', rw, p) => recorded r rows rows' r' rw p | Err _ => True end).
Proof.
  unfold Create_record. destruct (cr_Doc r) as [doc|] eqn:Ed; [|by wp_steps].
  apply wp_try. wp_steps. destruct (withDefaults r) as [r'|e] eqn:Er; [|done]. wp_steps.
  apply wp_try. wp_steps. destruct (Create_docs _ r' doc a) as [[rw original]|e] eqn:Edoc; [|done].
  apply wp_try. wp_steps. destruct a0 as [ns|e]; [|done].
  apply wp_try. wp_steps. destruct a0 as [lk|e]; [|done].
  apply wp_try.
  eapply (wp_weaken _ _ _ (λ l r' _, l = [] ∧ r' = rows)); [destruct (d_WarehouseResolver d); by wp_steps|].
  intros l rows1 warehouse (-> & ->). destruct warehouse as [warehouse|e]; [|done]. wp_steps; [|done]. split; [done|].
  destruct (InsertPreview _ _ _ _) as [[rows2 p]|e] eqn:E; cbn; [|done].
  destruct (withDefaults_ok _ _ Er) as (Hok & Hdoc & Hun). apply Create_docs_ok in Edoc. rewrite Hun in Edoc.
  destruct (InsertPreview_id _ _ _ _ _ _ E) as [_ Hid]. cbn in Hid.
  split; [done|]. exists a0, doc, original, lk, warehouse, ns. by rewrite Hid.
Qed.

(** ** The start *)

Definition tuple_written (p : Preview) : list event :=
  if tuplesEnabled d (p_LakekeeperProjectID p)
  then [EWriteTuple (p_ID p) RelationEditor (p_LakekeeperProjectID p) None] else [].
(** The grant, then the secret, then the run, whose spec is the rewritten
    document under the limits of the request. *)
Definition start_calls (r : CreateRequest) (rw : RewriteResult) (p : Preview) (l : list event) : Prop :=
  ∃ token u, l = tuple_written p ++
    [ECreateSecret (p_K8sNamespace p) (SecretName (p_ID p)) token None;
     ECreateRun (p_K8sNamespace p) (PreviewPipelineRunName (p_ID p))
       (run_spec (p_ID p) (p_Spec (DocToCR (rr_Doc rw))) (MkPreviewSpec (p_ID p) (cr_RowLimit r) (cr_TimeoutSeconds r))) None;
     EGetRun (p_K8sNamespace p) (PreviewPipelineRunName (p_ID p)) None;
     EUpdateSecret (p_K8sNamespace p) (SecretName (p_ID p)) u].
(** What a failed start is followed by: the run and the secret are deleted, the
    row is marked failed (unless the statement is lost), and the tuple deleted. *)
Definition undone (p : Preview) (cause : perror) (rows rows' : list Preview) (l : list event) : Prop :=
  ∃ r1 r2 l1 l2 t rows1, l = l1 ++ [EDeleteRun (p_K8sNamespace p) (PreviewPipelineRunName (p_ID p)) r1;
      EDeleteSecret (p_K8sNamespace p) (SecretName (p_ID p)) r2] ++ l2 ∧
    (rows1 = rows ∨ rows1 = (UpdatePreviewPhase t (p_ID p) (failed_opts (perror_text cause) t) rows).1) ∧
    tuple_marks (p_ID p) rows1 rows' ∧
    (tuplesEnabled d (p_LakekeeperProjectID p) = true → p_FGATupleDeletedAt p = None →
      ∃ r3, l2 = [EDeleteTuple (p_ID p) RelationEditor (p_LakekeeperProjectID p) r3]).
Lemma wp_failing_create p cause l0 rows : wp (failing_create d p cause) l0 rows (λ l rows' res,
  res = Err cause ∧ undone p cause rows rows' l).
Proof.
  assert (∀ l1 r1 r2 t rows1, (rows1 = rows ∨ rows1 = (UpdatePreviewPhase t (p_ID p) (failed_opts (perror_text cause) t) rows).1) →
    wp (_ ← deleteOwnTuple d p; mret cause) ((l1 ++ [EDeleteRun (p_K8sNamespace p) (PreviewPipelineRunName (p_ID p)) r1]) ++
      [EDeleteSecret (p_K8sNamespace p) (SecretName (p_ID p)) r2]) rows1
      (λ l rows' e, e = cause ∧ undone p cause rows rows' l)) as H.
  { intros l1 r1 r2 t rows1 Hr. apply wp_bind. eapply wp_use.
    - eapply (wp_weaken _ _ _ (λ l2 rows' _, tuple_marks (p_ID p) rows1 rows' ∧
        (tuplesEnabled d (p_LakekeeperProjectID p) = true → p_FGATupleDeletedAt p = None →
         ∃ r3, l2 = [EDeleteTuple (p_ID p) RelationEditor (p_LakekeeperProjectID p) r3]))).
      + unfold deleteOwnTuple. destruct (bool_decide_reflect (p_FGATupleDeletedAt p ≠ None)); [wp_steps; split; [done|]; by intros _ ?|].
        apply wp_bind. destruct (tuplesEnabled _ _).
        * wp_steps. destruct a; wp_steps; [split; [done|]; by eexists|split; [apply rtc_once; by eexists|by eexists]|].
          split; [|by eexists]. destruct H as [->| ->]; [done|apply rtc_once; by eexists].
        * wp_steps; [split; [apply rtc_once; by eexists|done]|]. split; [|done].
          destruct H as [->| ->]; [done|apply rtc_once; by eexists].
      + intros l2 rows' x Hx. exact Hx.
    - intros l2 rows' x (Hm & Hl). wp_steps. split; [done|]. exists r1, r2, l1, l2, t, rows1.
      split_and!; [by rewrite <-!app_assoc|done..]. }
  unfold failing_create. apply wp_bind. eapply (wp_weaken _ _ _ (λ l rows' e, e = cause ∧ undone p cause rows rows' l)).
  - unfold failCreate, deletePipelineRun, deleteTokenSecret. do 12 wp_step; eapply H; by eauto.
  - intros l rows' e (-> & Hu). wp_steps. by split.
Qed.
Definition response_of (rw : RewriteResult) (p : Preview) : CreateResponse :=
  MkCreateResponse (p_ID p) (p_Workspace p) (p_Phase p) (rr_Namespaces rw) (p_ExpiresAt p).
Lemma wp_Create_start r rw p rows : wp (Create_start d (r, rw, p)) [] rows (λ l rows' res,
  match res with
  | Ok resp => rows' = rows ∧ start_calls r rw p l ∧ resp = response_of rw p
  | Err e => undone p e rows rows' l
  end).
Proof.
  assert (∀ cause l0, wp (failing_create d p cause) l0 rows (λ l rows' res,
    match res with Ok resp => rows' = rows ∧ start_calls r rw p l ∧ resp = response_of rw p | Err e => undone p e rows rows' l end)) as Hf.
  { intros cause l0. eapply wp_weaken; [apply wp_failing_create|]. by intros l rows' res (-> & Hu). }
  unfold Create_start. apply wp_bind.
  eapply (wp_weaken _ _ _ (λ l r' e, r' = rows ∧ (e = None → l = tuple_written p))).
  { unfold tuple_written. destruct (tuplesEnabled _ _); wp_steps; (split; [done|]); intros ?; by subst. }
  intros l r' e (-> & He). destruct e as [e|]; [apply Hf|]. rewrite He by done. wp_steps.
  destruct a as [tok|e]; [|apply Hf]. apply wp_bind. unfold CreatePreviewResources.
  destruct (_ || _); [wp_step; apply Hf|]. wp_step. wp_step. destruct a as [e|]; [wp_step; apply Hf|].
  wp_step. wp_step. destruct a as [e|]; [wp_step; apply Hf|]. wp_step. wp_step. destruct a as [e|]; [wp_step; apply Hf|].
  wp_steps. split_and!; [done| |done]. exists tok, a. by rewrite <-!app_assoc.
Qed.

(** Create starts nothing before the row of the preview is in the table within
    the caps, for a request within its limits; a success has granted the tuple,
    stored the token and started the run, in this order, on the document rewritten
    to the preview's own namespaces; and after a failure past the row, the run and
    the secret are deleted, the row is marked failed, and the tuple is deleted
    last. *)
Theorem Create_correct (r : CreateRequest) (w : World X) :
  let (w', res) := Create IsDNS1123Subdomain d r w in ∃ l, w_log w' = w_log w ++ l ∧
  match res with
  | Ok resp => ∃ r' rw p, recorded r (w_rows w) (w_rows w') r' rw p ∧ start_calls r' rw p l ∧ resp = response_of rw p
  | Err e => l = [] ∨ ∃ r' rw p rows, recorded r (w_rows w) rows r' rw p ∧ undone p e rows (w_rows w') l
  end.
Proof.
  destruct (Create _ d r w) as [w' res] eqn:E.
  assert (wp (Create IsDNS1123Subdomain d r) [] (w_rows w) (λ l rows' res,
    match res with
    | Ok resp => ∃ r' rw p, recorded r (w_rows w) rows' r' rw p ∧ start_calls r' rw p l ∧ resp = response_of rw p
    | Err e => l = [] ∨ ∃ r' rw p rows, recorded r (w_rows w) rows r' rw p ∧ undone p e rows rows' l
    end)) as H.
  { unfold Create. apply wp_try. eapply wp_weaken; [apply wp_Create_record|]. intros l rows x (-> & Hx).
    destruct x as [[[r' rw] p]|e]; [|by left]. eapply wp_weaken; [apply wp_Create_start|]. intros l rows' [resp|e] Hr.
    - destruct Hr as (-> & Hs & Hr). by exists r', rw, p.
    - right. by exists r', rw, p, rows. }
  apply H in E as (l & Hl & Hr); [|done]. by exists l.
Qed.
End Create.

Module PreviewServiceExamples.
#[local] Existing Instances PreviewExamples.ascii_tables PreviewExamples.exact_copy DocExamples.int_quantities DocExamples.one_json AuthzExamples.store_authorizer.

(** A cluster, a store of tuples and a catalog in memory.  The pods of a run that
    is [stuck] outlive it; every wait moves the clock. *)
Record mem := MkMem {
  m_clock : Z;
  m_runs : gset string;
  m_secrets : gset string;
  m_pods : gset string;  (** the runs that have a pod *)
  m_stuck : gset string;
  m_tuples : gset Tuple;
  m_tables : gmap string (list string);
}.
Definition set_clock (t : Z) (x : mem) : mem := MkMem t (m_runs x) (m_secrets x) (m_pods x) (m_stuck x) (m_tuples x) (m_tables x).
Definition set_tuples (s : gset Tuple) (x : mem) : mem := MkMem (m_clock x) (m_runs x) (m_secrets x) (m_pods x) (m_stuck x) s (m_tables x).
Definition set_tables (s : gmap string (list string)) (x : mem) : mem :=
  MkMem (m_clock x) (m_runs x) (m_secrets x) (m_pods x) (m_stuck x) (m_tuples x) s.
Definition on_tuples {A} (m : St (gset Tuple) A) : St mem A := λ x, let (s, a) := m (m_tuples x) in (set_tuples s x, a).
#[export] Instance mem_authorizer : Authorizer mem := {|
  WriteTuples ts := on_tuples (WriteTuples ts);
  DeleteTuples ts := on_tuples (DeleteTuples ts);
  Check_ u rel o := on_tuples (Check_ u rel o);
|}.
Definition pod_run (id : string) : string := "preview-" +:+ id.
#[export] Instance mem_backend : PreviewBackend mem := {|
  now x := (x, Z.max 0 (m_clock x));
  db_now x := (x, m_clock x);
  ctx_Err x := (x, None);
  time_Now x := (x, m_clock x);
  time_After n x := (set_clock (m_clock x + n) x, None);
  uuid_New x := (x, PreviewExamples.pid1);
  statement_outcome x := (x, DbDone);
  Ensure p x := (x, Ok ("ns-" +:+ p));
  GetProjectByID p x := (x, Ok ("lk-" +:+ p));
  WarehouseResolver lk x := (x, Ok "wh");
  MintRunToken id lk name wh aud n x := (x, Ok ("token-" +:+ id));
  k8s_delete_run ns name x :=
    if decide (name ∈ m_runs x)
    then (MkMem (m_clock x) (m_runs x ∖ {[name]}) (m_secrets x) (if decide (name ∈ m_stuck x) then m_pods x else m_pods x ∖ {[name]})
            (m_stuck x) (m_tuples x) (m_tables x), None)
    else (x, Some IsNotFound);
  k8s_delete_secret ns name x :=
    if decide (name ∈ m_secrets x)
    then (MkMem (m_clock x) (m_runs x) (m_secrets x ∖ {[name]}) (m_pods x) (m_stuck x) (m_tuples x) (m_tables x), None)
    else (x, Some IsNotFound);
  k8s_get_run ns name x := (x, if decide (name ∈ m_runs x) then None else Some IsNotFound);
  k8s_list_pods ns id x := (x, Ok (if decide (pod_run id ∈ m_pods x) then [id +:+ "-pod"] else []));
  k8s_patch_pod ns pod x := (x, None);
  k8s_create_secret ns name tok x :=
    (MkMem (m_clock x) (m_runs x) ({[name]} ∪ m_secrets x) (m_pods x) (m_stuck x) (m_tuples x) (m_tables x), None);
  k8s_create_run ns name spec x :=
    (MkMem (m_clock x) ({[name]} ∪ m_runs x) (m_secrets x) ({[name]} ∪ m_pods x) (m_stuck x) (m_tuples x) (m_tables x), None);
  k8s_update_secret ns name x := (x, None);
  catalog_open sw lk wh x := (x, None);
  catalog_list ns x := (x, match m_tables x !! ns with Some ts => ((λ t, [ns; t]) <$> ts, None) | None => ([], Some ErrNoSuchNamespace) end);
  catalog_purge ns t x := (set_tables (alter (filter (λ t', t' ≠ t)) ns (m_tables x)) x, None);
  catalog_drop ns x := (set_tables (delete ns (m_tables x)) x, None);
|}.
#[export] Instance mem_clock : ClockLaws m_clock.
Proof.
  split; cbn.
  - intros x x' t [= <- <-]. lia.
  - intros n x x' [= <-]. cbn. lia.
  - intros ns name x x' r [= <- <-]. lia.
  - intros ns id x x' r [= <- <-]. lia.
Qed.

Definition deps : Deps := New (MkDeps true true (MkPreviewCaps 1 2 5) EmptyString 0 0).
(** Two previews that ran out of time; the first one's pod does not go away. *)
Definition preview (id : string) : Preview :=
  MkPreview id "p1" None "main" "{}" 100 EmptyString 3600 600 ["pv-" +:+ id +:+ "-out"] "lk" "wh" "ns" "Running" EmptyString EmptyString
    None None 7 None None None None 0 (Some 10%Z).
Definition mem0 : mem :=
  MkMem 1000 {["preview-a"; "preview-b"]} {["runtoken-a"; "runtoken-b"]} {["preview-a"; "preview-b"]} {["preview-a"]}
    {[project_tuple "a" "editor" "lk"; project_tuple "b" "editor" "lk"]}
    {["pv-a-out" := ["t"]; "pv-b-out" := ["t"; "u"]; "orders" := ["real"]]}.
Definition world0 : World mem := MkWorld [preview "a"; preview "b"] [] mem0.
Definition swept0 := SweepOnce deps world0.

Example sweep_result : swept0.2 = ([("purge", "a")], Some "1 preview sweep step(s) failed").
Proof. vm_compute. reflexivity. Qed.
Example sweep_rows : (λ p, (p_ID p, p_Phase p, bool_decide (p_CleanedAt p = None), p_ExpiresAt p)) <$> w_rows swept0.1 =
  [("a", "Running", true, Some 392000001000%Z); ("b", "Expired", false, Some 10%Z)].
Proof. vm_compute. reflexivity. Qed.
(** The stuck preview keeps its table; no table outside the namespaces is touched. *)
Example sweep_catalog : m_tables (w_rest swept0.1) = {["pv-a-out" := ["t"]; "orders" := ["real"]]}.
Proof. vm_compute. reflexivity. Qed.
Example sweep_tuples_gone : m_tuples (w_rest swept0.1) = ∅.
Proof. vm_compute. reflexivity. Qed.

#[export] Instance mem_smooth : SmoothSweep (X := mem) 0.
Proof. split; intros x; cbn; [done..|lia]. Qed.
Lemma sweep_moves_on_witness : sweep_spec 0 world0 swept0.1 swept0.2.1 swept0.2.2.
Proof.
  pose proof (sweep_moves_on deps 0 mem_smooth world0) as H. unfold swept0.
  destruct (SweepOnce deps world0) as [w' r]. exact H.
Defined.
Lemma waitGone_terminates_witness : (waitGone deps (preview "a") world0).2 ≠ Some OutOfFuel.
Proof. exact (waitGone_terminates m_clock mem_clock (MkDeps true true (MkPreviewCaps 1 2 5) EmptyString 0 0) (preview "a") world0). Defined.

(** A workspace is deleted while a create is between its row and its start: the
    row of the new preview, which the list already has, is cancelled, purged and
    marked cleaned; then the create grants the tuple, stores the token and starts
    the run.  No later sweep looks at the row. *)
Definition request : CreateRequest :=
  MkCreateRequest "p1" None (Some PreviewExamples.doc) "main" 100 60 600 EmptyString.
Definition new_preview (rw : RewriteResult) : Preview :=
  inserted_row 1000 (new_row request PreviewExamples.pid1 "{}" "lk" "wh" "ns" (rr_Namespaces rw)).
Definition crossed (rw : RewriteResult) : World mem * (list string * result perror CreateResponse) :=
  let w := MkWorld (X := mem) [new_preview rw] [] (MkMem 1000 ∅ ∅ ∅ ∅ ∅ ∅) in
  let (w, r) := DeleteWorkspace deps "p1" "main" w in
  let (w, r') := Create_start deps (request, rw, new_preview rw) w in
  (w, (r.1, r')).
Lemma no_expired t limit rows : Forall (λ p, uncleaned p = false) rows → ListExpiredPreviews t limit rows = [].
Proof.
  intros H. unfold ListExpiredPreviews. replace (filter _ rows) with ([] : list Preview); [by destruct limit|].
  induction H as [|p rows Hp _ IH]; [done|]. rewrite filter_cons, <-IH. unfold expired_at. by rewrite Hp, andb_false_r.
Qed.
Definition rw0 : RewriteResult :=
  match Rewrite PreviewExamples.pid1 PreviewExamples.doc EmptyString with
  | Ok rw => rw
  | Err _ => MkRewriteResult PreviewExamples.doc [] ∅
  end.
(** The run is live and has its grant, under a row that is cleaned. *)
Definition w_crossed : World mem := (crossed rw0).1.
Example crossed_deleted : (crossed rw0).2.1 = [PreviewExamples.pid1].
Proof. vm_compute. reflexivity. Qed.
Example crossed_created : (crossed rw0).2.2 = Ok (response_of rw0 (new_preview rw0)).
Proof. vm_compute. reflexivity. Qed.
Theorem delete_meets_create :
  m_runs (w_rest w_crossed) = {["preview-" +:+ PreviewExamples.pid1]} ∧
  m_tuples (w_rest w_crossed) = {[project_tuple PreviewExamples.pid1 RelationEditor "lk"]} ∧
  (∀ t limit, ListExpiredPreviews t limit (w_rows w_crossed) = []) ∧
  ListPreviewsNeedingTupleDelete sweepBatch (w_rows w_crossed) = [].
Proof.
  repeat split; try (vm_compute; reflexivity). intros t limit. apply no_expired. vm_compute. by repeat constructor.
Qed.
End PreviewServiceExamples.
