(* ===== verification/Tokens.v ===== *)
(** * Tokens: the JWTs of the API server and who accepts them
      (pkg/pipelineapi/tokens, pkg/datagateway/runtoken, pkg/datagateway/jwks,
       pkg/pipelineapi/auth/bearer_resolver.go, pkg/pipelineapi/queryproxy/app_query.go,
       components/queryengine/cmd/query-worker/verify.go)

    The minters and the four verifiers of the repository.  Signing and parsing
    are those of github.com/golang-jwt/jwt: parameters, with the laws of its
    documentation about the tokens it signed itself. *)

From S2P Require Import Prelude ApiTypes Status GoTime CommitPool.

(** ** Claims and the library *)

Inductive claim : Type :=
| CStr (s : string)
| CNum (z : Z)
| CArr (l : list string).
Abbreviation claims := (gomap claim).
(** [c[k].(string)], and the zero value when there is none. *)
Definition claim_str (c : claims) (k : string) : string :=
  match gm_get k c with Some (CStr s) => s | _ => EmptyString end.
Record header := MkHeader { h_alg : string; h_kid : string }.
Record parse_opts := MkParseOpts {
  po_leeway : Z;
  po_methods : list string;
  po_exp_required : bool;
  po_iat : bool;
}.
Definition second : Z := 1000000000.

Class Jwt : Type := {
  private_key : Type;
  public_key : Type;
  Public : private_key → public_key;
  SignedString : private_key → header → claims → result string string;
  (** [jwt.ParseWithClaims] at a time, with its options and key function. *)
  ParseWithClaims : Z → parse_opts → (header → result string public_key) → string → result string (header * claims);
  GetAudience : claims → result string (list string);
}.
(** github.com/google/uuid: the canonical text of an id. *)
Class UuidLib : Type := { uuid_Parse : string → option string }.

(** What the options make of the times among the claims. *)
Definition num_claim (c : claims) (k : string) : option Z :=
  match gm_get k c with Some (CNum z) => Some z | _ => None end.
Definition in_time (now : Z) (o : parse_opts) (c : claims) : bool :=
  match num_claim c "exp" with Some e => (now <? e * second + po_leeway o)%Z | None => negb (po_exp_required o) end &&
  match num_claim c "nbf" with Some n => (n * second - po_leeway o <=? now)%Z | None => true end &&
  (negb (po_iat o) || match num_claim c "iat" with Some i => (i * second - po_leeway o <=? now)%Z | None => true end).
(** Numbers survive JSON when a float64 holds them. *)
Definition exact_numbers (c : claims) : Prop := ∀ k z, gm_get k c = Some (CNum z) → (- 2 ^ 53 ≤ z ≤ 2 ^ 53)%Z.

Class JwtLaws `{J : !Jwt} : Prop := {
  parse_signed : ∀ now o keyfunc key h c t, SignedString key h c = Ok t → exact_numbers c →
    h_alg h ∈ po_methods o → keyfunc h = Ok (Public key) → in_time now o c = true →
    ParseWithClaims now o keyfunc t = Ok (h, c);
  parse_only_signed : ∀ now o keyfunc key h c t h' c', SignedString key h c = Ok t → exact_numbers c →
    ParseWithClaims now o keyfunc t = Ok (h', c') → h' = h ∧ c' = c ∧ in_time now o c = true;
  audience_str : ∀ c s, gm_get "aud" c = Some (CStr s) → GetAudience c = Ok [s];
}.

(** ** Minting *)

Definition TokenKindRun : string := "run".
Definition TokenKindImpersonation : string := "impersonation".
Definition TokenKindLocalCLI : string := "local-cli".
Definition TokenKindCLIAPI : string := "cli-api".
Definition TokenKindQuery : string := "query".
Definition TokenKindInternalQuery : string := "internal-query".
Definition TokenKindApp : string := "app".
Definition tokenIssuer : string := "datuplet-api".
Definition TableTokenAudience : string := "datuplet-catalog".
Definition APITokenAudience : string := "datuplet-api".
Definition QueryWorkerAudience : string := "datuplet-query-worker".
Definition MaxQueryTokenLifetime : Z := 330 * second.
Definition ImpersonationLifetime : Z := 60 * second.
Definition AppTokenLifetime : Z := 60 * second.
Definition AppSubjectPrefix : string := "app-".
Definition JTIForRunID (runID : string) : string := "run-tok-" +:+ runID.
(** [t.Unix()]. *)
Definition Unix (t : Z) : Z := t / second.

Section Minters.
Context `{J : !Jwt}.
Record Signer := MkSigner { sg_priv : private_key; sg_KeyID : string }.
Variable now : Z.
Variable ctx : option string.  (** the id of the user of the context *)
Variable signer : option Signer.

Definition the_signer {A} (f : Signer → result string A) : result string A :=
  match signer with Some s => f s | None => Err "signer is required" end.
Definition subjectFromCtx : result string string :=
  match ctx with
  | Some id => Ok id
  | None => Err "MintRunToken/MintImpersonation: no authenticated user in ctx (callers must run inside auth.WithUser)"
  end.
Definition sign (s : Signer) (c : claims) : result string string :=
  map_err (λ e, "sign: " +:+ e) (SignedString (sg_priv s) (MkHeader "RS256" (sg_KeyID s)) c).
Definition times (lifetime : Z) : claims :=
  [("iat", CNum (Unix now)); ("nbf", CNum (Unix now)); ("exp", CNum (Unix (now + lifetime)))].

Record RunSpec := MkRunSpec {
  spec_RunID : string;
  spec_ProjectID : string;
  spec_PipelineName : string;
  spec_Warehouse : string;
  spec_Audience : string;
  spec_Lifetime : Z;
}.
Definition aud_or (aud : string) : string := if str_empty aud then TableTokenAudience else aud.
Definition run_claims (actor : string) (spec : RunSpec) : claims :=
  [("iss", CStr tokenIssuer); ("aud", CStr (aud_or (spec_Audience spec))); ("sub", CStr (spec_RunID spec)); ("actor", CStr actor);
   ("token_kind", CStr TokenKindRun); ("token_type", CStr "run"); ("project_id", CStr (spec_ProjectID spec));
   ("warehouse", CStr (spec_Warehouse spec)); ("run_id", CStr (spec_RunID spec)); ("pipeline_name", CStr (spec_PipelineName spec))] ++
  times (spec_Lifetime spec) ++ [("jti", CStr (JTIForRunID (spec_RunID spec)))].
Definition MintRunToken (spec : RunSpec) : result string string :=
  the_signer (λ s,
  if str_empty (spec_RunID spec) then Err "RunID is required"
  else if (spec_Lifetime spec <=? 0)%Z then Err "Lifetime must be positive (tokens without exp are rejected)"
  else actor ← subjectFromCtx; sign s (run_claims actor spec)).

(** The claims of a token whose subject acts as itself. *)
Definition self_claims (aud sub kind jti : string) (lifetime : Z) : claims :=
  [("iss", CStr tokenIssuer); ("aud", CStr aud); ("sub", CStr sub); ("actor", CStr sub); ("token_kind", CStr kind)] ++
  times lifetime ++ [("jti", CStr jti)].
Definition MintImpersonation : result string string :=
  the_signer (λ s, sub ← subjectFromCtx;
  sign s (self_claims TableTokenAudience sub TokenKindImpersonation ("imp-" +:+ sub +:+ "-" +:+ itoa now) ImpersonationLifetime)).

(** [rand]: the hex digits of what crypto/rand gave. *)
Definition newAppTokenJTI (rand : result string string) (appUUID : string) : result string string :=
  hex ← map_err (λ e, "generate app-token jti: " +:+ e) rand; Ok ("app-tok-" +:+ appUUID +:+ "-" +:+ hex).
Definition app_claims (appUUID projectID jti : string) : claims :=
  let sub := AppSubjectPrefix +:+ appUUID in
  [("iss", CStr tokenIssuer); ("aud", CStr TableTokenAudience); ("sub", CStr sub); ("actor", CStr sub); ("token_kind", CStr TokenKindApp);
   ("project_id", CStr projectID); ("app_id", CStr appUUID)] ++ times AppTokenLifetime ++ [("jti", CStr jti)].
Definition MintAppToken (rand : result string string) (appUUID projectID : string) : result string (string * string) :=
  the_signer (λ s,
  if str_empty appUUID then Err "appUUID is required"
  else if str_empty projectID then Err "projectID is required"
  else jti ← newAppTokenJTI rand appUUID; t ← sign s (app_claims appUUID projectID jti); Ok (t, jti)).

Definition mintQueryFamily (ttl : Z) (aud kind jtiPrefix : string) : result string string :=
  the_signer (λ s,
  if (ttl <=? 0)%Z then Err "ttl must be positive (tokens without exp are rejected)"
  else sub ← subjectFromCtx;
  sign s (self_claims aud sub kind (jtiPrefix +:+ "-" +:+ sub +:+ "-" +:+ itoa now) (Z.min ttl MaxQueryTokenLifetime))).
Definition MintQueryToken (ttl : Z) : result string string := mintQueryFamily ttl TableTokenAudience TokenKindQuery "qry".
Definition MintInternalQueryToken (ttl : Z) : result string string := mintQueryFamily ttl QueryWorkerAudience TokenKindInternalQuery "iqry".

Record ServiceTokenSpec := MkServiceTokenSpec { st_Subject : string; st_Audience : string; st_Lifetime : Z }.
Definition service_claims (spec : ServiceTokenSpec) : claims :=
  [("iss", CStr tokenIssuer); ("aud", CStr (aud_or (st_Audience spec))); ("sub", CStr (st_Subject spec)); ("token_type", CStr "service");
   ("token_use", CStr "service")] ++ times (st_Lifetime spec) ++ [("jti", CStr ("svc-tok-" +:+ st_Subject spec))].
Definition MintServiceToken (spec : ServiceTokenSpec) : result string string :=
  the_signer (λ s,
  if str_empty (st_Subject spec) then Err "Subject is required"
  else if (st_Lifetime spec <=? 0)%Z then Err "Lifetime must be positive (tokens without exp are rejected)"
  else sign s (service_claims spec)).

(** The token and the time it expires at. *)
Definition MintLocalCLIToken (lifetime : Z) : result string (string * Z) :=
  the_signer (λ s,
  if (lifetime <=? 0)%Z then Err "lifetime must be positive (tokens without exp are rejected)"
  else sub ← subjectFromCtx;
  t ← sign s (self_claims TableTokenAudience sub TokenKindLocalCLI ("cli-tok-" +:+ sub +:+ "-" +:+ itoa now) lifetime ++
              [("token_use", CStr TokenKindLocalCLI)]);
  Ok (t, (now + lifetime)%Z)).
Definition MintCLIAPIToken (lifetime : Z) : result string (string * Z) :=
  the_signer (λ s,
  if (lifetime <=? 0)%Z then Err "lifetime must be positive (tokens without exp are rejected)"
  else sub ← subjectFromCtx;
  t ← sign s (self_claims APITokenAudience sub TokenKindCLIAPI ("cli-api-tok-" +:+ sub +:+ "-" +:+ itoa now) lifetime);
  Ok (t, (now + lifetime)%Z)).
End Minters.
Arguments MkSigner {J} _ _.
Arguments sg_priv {J} _.
Arguments sg_KeyID {J} _.

(** The lifetime of the tokens of a login from the command line. *)
Definition defaultCLITokenLifetime : Z := 24 * 3600 * second.
Definition maxCLITokenLifetime : Z := 30 * 24 * 3600 * second.
Definition cliTokenLifetime (env : string) : Z :=
  if str_empty env then defaultCLITokenLifetime
  else match ParseDuration env with
  | Err _ => defaultCLITokenLifetime
  | Ok d => if (d <=? 0)%Z then defaultCLITokenLifetime else if (maxCLITokenLifetime <? d)%Z then maxCLITokenLifetime else d
  end.

(** ** Keys of the JWKS endpoint *)

Section Keys.
Context `{J : !Jwt} {X : Type}.
(** One bounded fetch of the document. *)
Variable fetchAndDecode : X → X * result string (gmap string public_key).

Definition key_in (keys : gmap string public_key) (kid what : string) : result string public_key :=
  match keys !! kid with Some k => Ok k | None => Err ("jwks: kid " +:+ kid +:+ what) end.
(** The client: the keys it holds and the world. *)
Definition refetch (what kid : string) (x : X) : (option (gmap string public_key) * X) * result string public_key :=
  match fetchAndDecode x with
  | (x, Err e) => ((None, x), Err (what +:+ e))
  | (x, Ok fresh) => ((Some fresh, x), key_in fresh kid " not found after re-fetch")
  end.
Definition KeyFor (kid : string) (c : option (gmap string public_key) * X) :
    (option (gmap string public_key) * X) * result string public_key :=
  let keep keys r := match r with ((Some k, x), a) => ((Some k, x), a) | ((None, x), a) => ((Some keys, x), a) end in
  match c with
  | (Some keys, x) =>
    match keys !! kid with
    | Some k => (c, Ok k)
    | None => keep keys (refetch "jwks re-fetch: " kid x)
    end
  | (None, x) =>
    match fetchAndDecode x with
    | (x, Err e) => ((None, x), Err ("jwks initial fetch: " +:+ e))
    | (x, Ok fresh) =>
      match fresh !! kid with
      | Some k => ((Some fresh, x), Ok k)
      | None => keep fresh (refetch "jwks re-fetch: " kid x)
      end
    end
  end.
End Keys.

(** ** Verifying *)

(** [strings.TrimSpace]. *)
Definition is_space_rune (r : N) : bool :=
  bool_decide (r ∈ [9; 10; 11; 12; 13; 32; 133; 160; 5760; 8232; 8233; 8239; 8287; 12288]%N) || ((8192 <=? r)%N && (r <=? 8202)%N).
Fixpoint drop_spaces (l : list rune_span) : list rune_span :=
  match l with x :: l' => if is_space_rune (rs_rune x) then drop_spaces l' else l | [] => [] end.
Definition TrimSpace (s : string) : string := bytes_of (reverse (drop_spaces (reverse (drop_spaces (runes s))))).

Section Verifiers.
Context `{UT : !UnicodeTables} `{PL : !PoolLib} `{J : !Jwt} `{UL : !UuidLib}.
Variable now : Z.

Definition clock_skew : Z := 60 * second.
Definition rs256_only : list string := ["RS256"].

(** *** The gateway and the table committer *)

Definition maxRunTokenFileBytes : Z := Z.shiftl 2 20.
Record ValidatedClaims := MkValidatedClaims {
  vc_RunID : string;
  vc_Subject : string;
  vc_ProjectID : string;
  vc_Warehouse : string;
  vc_Issuer : string;
  vc_Audience : string;
  vc_Expiry : option Z;  (** [None] for the zero time *)
}.
Definition kid_key (KeyFor : string → result string public_key) (h : header) : result string public_key :=
  if negb (bool_decide (h_alg h = "RS256")) then Err ("unexpected signing method " +:+ quote (h_alg h) +:+ " (want RS256 only)")
  else if str_empty (h_kid h) then Err "kid header missing from token"
  else KeyFor (h_kid h).
Definition extractAudience (c : claims) : result string string :=
  match gm_get "aud" c with
  | None => Err "aud claim missing"
  | Some (CStr s) => if str_empty s then Err "aud claim is empty string" else Ok s
  | Some (CArr []) => Err "aud claim is empty array"
  | Some (CArr [s]) => if str_empty s then Err "aud claim first element is not a non-empty string" else Ok s
  | Some (CArr (s :: l)) =>
    if str_empty s then Err "aud claim first element is not a non-empty string"
    else Err ("aud claim has " +:+ itoa_nat (S (length l)) +:+ " values, want exactly 1")
  | Some (CNum _) => Err "aud claim has unexpected type float64"
  end.
Definition required (c : claims) (k : string) : result string string :=
  if str_empty (claim_str c k) then Err ("run-token validation check 6: required claim " +:+ k +:+ " is missing or empty")
  else Ok (claim_str c k).
Definition check (b : bool) (msg : string) : result string () := if b then Ok () else Err msg.
(** Checks 2 to 8, on the claims. *)
Definition validate_claims (c : claims) (expectedRunID : string) : result string ValidatedClaims :=
  let iss := claim_str c "iss" in
  _ ← check (bool_decide (iss = tokenIssuer))
    ("run-token validation check 2 (iss): got " +:+ quote iss +:+ ", want " +:+ quote tokenIssuer);
  aud ← map_err (λ e, "run-token validation check 3 (aud): " +:+ e) (extractAudience c);
  _ ← check (bool_decide (aud = TableTokenAudience))
    ("run-token validation check 3 (aud): got " +:+ quote aud +:+ ", want " +:+ quote TableTokenAudience);
  let kind := claim_str c "token_kind" in
  _ ← check (bool_decide (kind = TokenKindRun))
    ("run-token validation check 5 (token_kind): got " +:+ quote kind +:+ ", want " +:+ quote TokenKindRun);
  sub ← required c "sub"; projectID ← required c "project_id"; warehouse ← required c "warehouse"; runID ← required c "run_id";
  _ ← check (bool_decide (sub = runID)) "run-token validation check 7: sub does not match run_id";
  _ ← check (bool_decide (runID = expectedRunID))
    "run-token validation check 8: run_id does not match operator-supplied RUN_ID env — refusing to proceed";
  Ok (MkValidatedClaims runID sub projectID warehouse iss aud (num_claim c "exp")).
Definition run_opts : parse_opts := MkParseOpts clock_skew rs256_only false false.
Definition LoadAndValidateRunToken (ReadFile : string → result string string) (path : string)
    (KeyFor : string → result string public_key) (expectedRunID : string) : result string ValidatedClaims :=
  if str_empty path then Err "run-token validation: path is empty (soft-degrade is caller's responsibility)"
  else
    raw ← map_err (λ e, "run-token validation: read file " +:+ quote path +:+ ": " +:+ e)
            (fmap (str_take (Z.to_nat maxRunTokenFileBytes)) (ReadFile path));
    '(_, c) ← map_err (λ e, "run-token validation check 1 (parse/signature): " +:+ e)
                (ParseWithClaims now run_opts (kid_key KeyFor) (TrimSpace raw));
    validate_claims c expectedRunID.

(** *** The query worker *)

Definition worker_opts : parse_opts := MkParseOpts clock_skew rs256_only true false.
Definition Verify (KeyFor : string → result string public_key) (tokenString : string) : result string (string * string) :=
  let reject msg := "internal token rejected: " +:+ msg in
  '(_, c) ← map_err (λ e, reject ("parse/signature: " +:+ e)) (ParseWithClaims now worker_opts (kid_key KeyFor) tokenString);
  _ ← check (bool_decide (claim_str c "iss" = tokenIssuer)) (reject "iss mismatch");
  aud ← map_err (λ e, reject ("aud: " +:+ e)) (GetAudience c);
  _ ← check (bool_decide (aud = [QueryWorkerAudience])) (reject ("aud is not exactly [" +:+ quote QueryWorkerAudience +:+ "]"));
  _ ← check (bool_decide (claim_str c "token_kind" = TokenKindInternalQuery)) (reject "token_kind mismatch");
  _ ← check (negb (str_empty (claim_str c "sub"))) (reject "required claim sub is missing or empty");
  Ok (claim_str c "sub", claim_str c "jti").

(** *** The API server: its own bearer tokens *)

Record User := MkUser { u_ID : string; u_Disabled : bool }.
Inductive user_error : Type := ErrUserNotFound | UserError (msg : string).
Definition own_key (key : public_key) (KeyID : string) (h : header) : result string public_key :=
  if negb (bool_decide (h_alg h = "RS256")) then Err ("unexpected alg " +:+ quote (h_alg h))
  else if negb (bool_decide (h_kid h = KeyID)) then Err ("unknown kid " +:+ quote (h_kid h))
  else Ok key.
(** The token of an Authorization header, or nothing. *)
Definition bearer_token (authz : string) : option string :=
  if negb (has_prefix "bearer " (to_lower authz)) then None
  else let tok := TrimSpace (str_drop (slen "Bearer ") authz) in if str_empty tok then None else Some tok.
Definition own_opts : parse_opts := MkParseOpts clock_skew rs256_only true true.
Definition audienceContains (aud : option claim) (want : string) : bool :=
  match aud with
  | Some (CStr s) => bool_decide (s = want)
  | Some (CArr l) => bool_decide (want ∈ l)
  | _ => false
  end.
(** The user a token stands for. *)
Definition Bearer_subject (key : public_key) (KeyID authz : string) : option string :=
  tok ← bearer_token authz;
  match ParseWithClaims now own_opts (own_key key KeyID) tok with
  | Err _ => None
  | Ok (_, c) =>
    if negb (bool_decide (claim_str c "iss" = tokenIssuer)) then None
    else if negb (audienceContains (gm_get "aud" c) APITokenAudience) then None
    else if negb (bool_decide (claim_str c "token_kind" = TokenKindCLIAPI)) then None
    else uuid_Parse (claim_str c "sub")
  end.
(** Nothing for an unauthenticated request, an error of the database otherwise. *)
Definition Bearer_user (r : result user_error User) : result string (option User) :=
  match r with
  | Err ErrUserNotFound => Ok None
  | Err (UserError e) => Err ("bearer user lookup: " +:+ e)
  | Ok u => Ok (if u_Disabled u then None else Some u)
  end.
Definition Bearer_UserFor (key : public_key) (KeyID : string) (GetUserByID : string → result user_error User) (authz : string) :
    result string (option User) :=
  match Bearer_subject key KeyID authz with None => Ok None | Some uid => Bearer_user (GetUserByID uid) end.

(** *** The API server: tokens of apps *)

Record appPrincipal := MkAppPrincipal { ap_sub : string; ap_jti : string; ap_rawToken : string; ap_appID : string }.
Definition parseAppBearer (signer : option Signer) (authz : string) : option appPrincipal :=
  s ← signer;
  raw ← bearer_token authz;
  match ParseWithClaims now own_opts (own_key (Public (sg_priv s)) (sg_KeyID s)) raw with
  | Err _ => None
  | Ok (_, c) =>
    if bool_decide (claim_str c "iss" = tokenIssuer) && bool_decide (claim_str c "aud" = TableTokenAudience) &&
       bool_decide (claim_str c "token_kind" = TokenKindApp) && negb (str_empty (claim_str c "sub")) &&
       has_prefix AppSubjectPrefix (claim_str c "sub")
    then Some (MkAppPrincipal (claim_str c "sub") (claim_str c "jti") raw (claim_str c "app_id"))
    else None
  end.
End Verifiers.

(** ** Each token has one verifier *)

(** What the API server may be asked to mint. *)
Inductive request : Type :=
| RRun (spec : RunSpec)
| RImpersonation
| RApp (rand appUUID projectID : string)
| RQuery (ttl : Z)
| RInternalQuery (ttl : Z)
| RService (spec : ServiceTokenSpec)
| RLocalCLI (lifetime : Z)
| RCLIAPI (lifetime : Z).
Definition lifetime_of (r : request) : Z :=
  match r with
  | RRun spec => spec_Lifetime spec
  | RImpersonation => ImpersonationLifetime
  | RApp _ _ _ => AppTokenLifetime
  | RQuery ttl | RInternalQuery ttl => Z.min ttl MaxQueryTokenLifetime
  | RService spec => st_Lifetime spec
  | RLocalCLI l | RCLIAPI l => l
  end.
Definition mint `{J : !Jwt} (now : Z) (ctx : option string) (signer : option Signer) (r : request) : result string string :=
  match r with
  | RRun spec => MintRunToken now ctx signer spec
  | RImpersonation => MintImpersonation now ctx signer
  | RApp rand app project => fst <$> MintAppToken now signer (Ok rand) app project
  | RQuery ttl => MintQueryToken now ctx signer ttl
  | RInternalQuery ttl => MintInternalQueryToken now ctx signer ttl
  | RService spec => MintServiceToken now signer spec
  | RLocalCLI l => fst <$> MintLocalCLIToken now ctx signer l
  | RCLIAPI l => fst <$> MintCLIAPIToken now ctx signer l
  end.

Lemma gm_get_here {A} k (v : A) m : gm_get k ((k, v) :: m) = Some v.
Proof. cbn. by rewrite decide_True. Qed.
Lemma gm_get_skip {A} k k' (v : A) m : k ≠ k' → gm_get k ((k', v) :: m) = gm_get k m.
Proof. intros H. cbn. by rewrite decide_False. Qed.
Ltac claim_at := unfold self_claims, run_claims, app_claims, service_claims, times; cbn [app];
  repeat first [rewrite gm_get_here | rewrite gm_get_skip by done].

Section Separation.
Context `{UT : !UnicodeTables} `{PL : !PoolLib} `{J : !Jwt} `{JL : !JwtLaws} `{UL : !UuidLib}.
Variable now : Z.

(** The claims that verifiers read, by request: audience, kind and subject. *)
Definition marks (sub : string) (r : request) : string * string * string :=
  match r with
  | RRun spec => (aud_or (spec_Audience spec), TokenKindRun, spec_RunID spec)
  | RImpersonation => (TableTokenAudience, TokenKindImpersonation, sub)
  | RApp _ app _ => (TableTokenAudience, TokenKindApp, AppSubjectPrefix +:+ app)
  | RQuery _ => (TableTokenAudience, TokenKindQuery, sub)
  | RInternalQuery _ => (QueryWorkerAudience, TokenKindInternalQuery, sub)
  | RService spec => (aud_or (st_Audience spec), EmptyString, st_Subject spec)
  | RLocalCLI _ => (TableTokenAudience, TokenKindLocalCLI, sub)
  | RCLIAPI _ => (APITokenAudience, TokenKindCLIAPI, sub)
  end.
Definition acts_for_user (r : request) : bool := match r with RApp _ _ _ | RService _ => false | _ => true end.
(** A minted token: signed by the signer, its times, its marks. *)
Definition minted (ctx : option string) (sg : Signer) (r : request) (tok : string) (c : claims) : Prop :=
  SignedString (sg_priv sg) (MkHeader "RS256" (sg_KeyID sg)) c = Ok tok ∧
  gm_get "iss" c = Some (CStr tokenIssuer) ∧
  (∃ sub, (acts_for_user r = true → ctx = Some sub) ∧ gm_get "aud" c = Some (CStr (marks sub r).1.1) ∧
    claim_str c "token_kind" = (marks sub r).1.2 ∧ claim_str c "sub" = (marks sub r).2) ∧
  gm_get "exp" c = Some (CNum (Unix (now + lifetime_of r))) ∧
  (∀ k z, gm_get k c = Some (CNum z) → z = Unix now ∨ z = Unix (now + lifetime_of r)) ∧
  num_claim c "nbf" = Some (Unix now) ∧ num_claim c "iat" = Some (Unix now) ∧ (0 < lifetime_of r)%Z ∧
  match r with
  | RRun spec => claim_str c "project_id" = spec_ProjectID spec ∧ claim_str c "warehouse" = spec_Warehouse spec ∧
      claim_str c "run_id" = spec_RunID spec
  | RApp _ app _ => claim_str c "app_id" = app ∧ app ≠ EmptyString
  | _ => True
  end.

Lemma gm_get_cons_inv {A} k (v : A) k' v' m : gm_get k ((k', v') :: m) = Some v → v' = v ∨ gm_get k m = Some v.
Proof. cbn. destruct (decide (k = k')); [intros [= ->]; by left|by right]. Qed.
Lemma sign_ok sg c tok : sign sg c = Ok tok → SignedString (sg_priv sg) (MkHeader "RS256" (sg_KeyID sg)) c = Ok tok.
Proof. unfold sign. by destruct (SignedString _ _ c) as [?|?]; intros [= ->]. Qed.
Ltac solve_minted user :=
  split; [done|]; split; [by claim_at|]; split; [exists (default EmptyString user); split_and!; [done|..]; unfold claim_str; by claim_at|];
  split; [by claim_at|]; split; [cbn [app]; intros k z Hk; repeat (apply gm_get_cons_inv in Hk as [Hk|Hk]; [try discriminate; injection Hk as <-; auto|]); done|];
  split; [unfold num_claim; by claim_at|]; split; [unfold num_claim; by claim_at|];
  split; [cbn [lifetime_of]; unfold ImpersonationLifetime, AppTokenLifetime, MaxQueryTokenLifetime, second; lia|];
  unfold claim_str; try done; split_and?; try by claim_at.
Lemma mint_minted (ctx : option string) sg r tok : mint now ctx (Some sg) r = Ok tok → ∃ c, minted ctx sg r tok c.
Proof.
  destruct r as [spec| |rand app project|ttl|ttl|spec|l|l]; cbn [mint the_signer];
    unfold MintRunToken, MintImpersonation, MintAppToken, MintQueryToken, MintInternalQueryToken, mintQueryFamily, MintServiceToken, MintLocalCLIToken, MintCLIAPIToken, the_signer;
    try (destruct ctx as [sub|]; cbn [subjectFromCtx mbind result_bind fmap result_fmap]; [|by repeat case_match]).
  - destruct (str_empty _); [done|]. destruct (_ <=? _)%Z eqn:E; [done|to_arith]. intros H%sign_ok. eexists. solve_minted (Some sub).
  - intros H%sign_ok. eexists. solve_minted (Some sub).
  - destruct (str_empty app) eqn:Ea; [done|]. destruct (str_empty project); [done|]. cbn. destruct (sign _ _) as [t|] eqn:E; [|done].
    intros [= <-]. apply sign_ok in E. eexists. solve_minted ctx. by intros ->.
  - destruct (_ <=? _)%Z eqn:E; [done|to_arith]. intros H%sign_ok. eexists. solve_minted (Some sub).
  - destruct (_ <=? _)%Z eqn:E; [done|to_arith]. intros H%sign_ok. eexists. solve_minted (Some sub).
  - destruct (str_empty _); [done|]. destruct (_ <=? _)%Z eqn:E; [done|to_arith]. intros H%sign_ok. eexists. solve_minted ctx.
  - destruct (_ <=? _)%Z eqn:E; [done|to_arith]. destruct (sign _ _) as [t|] eqn:Et; [|done]. intros [= <-]. apply sign_ok in Et. eexists. solve_minted (Some sub).
  - destruct (_ <=? _)%Z eqn:E; [done|to_arith]. destruct (sign _ _) as [t|] eqn:Et; [|done]. intros [= <-]. apply sign_ok in Et. eexists. solve_minted (Some sub).
Qed.
Lemma Unix_exact t : (min_int64 ≤ t ≤ 2 * max_int64)%Z → (- 2 ^ 53 ≤ Unix t ≤ 2 ^ 53)%Z.
Proof.
  unfold Unix, min_int64, max_int64, two63, second. intros H. split; [apply Z.div_le_lower_bound; lia|].
  apply Z.div_le_upper_bound; lia.
Qed.
Lemma minted_exact ctx sg r tok c : in_int64 now = true → (lifetime_of r ≤ max_int64)%Z → minted ctx sg r tok c → exact_numbers c.
Proof.
  unfold in_int64. intros Hn Hl (_ & _ & _ & _ & Hz & _ & _ & Hpos & _) k z Hk. split_and_all; to_arith.
  apply Hz in Hk as [->| ->]; apply Unix_exact; unfold max_int64, two63 in *; lia.
Qed.
(** While a verifier that knows the times of a token may accept it. *)
Definition alive (t : Z) (r : request) : Prop :=
  (Unix now * second - clock_skew ≤ t < Unix (now + lifetime_of r) * second + clock_skew)%Z.
Lemma in_time_alive ctx sg r tok c t o : po_leeway o = clock_skew → minted ctx sg r tok c → in_time t o c = true ↔ alive t r.
Proof.
  intros Ho (_ & _ & _ & He & _ & Hb & Hi & _). unfold in_time, alive. rewrite Hb, Hi, Ho. unfold num_claim at 1. rewrite He.
  rewrite !andb_true_iff, orb_true_iff, negb_true_iff, Z.ltb_lt, Z.leb_le. destruct (po_iat o); split; intros; split_and?; intuition lia.
Qed.
(** What a verifier sees of a minted token. *)
Lemma parsed_minted ctx sg r tok c t o keyfunc h' c' : in_int64 now = true → (lifetime_of r ≤ max_int64)%Z → minted ctx sg r tok c →
  ParseWithClaims t o keyfunc tok = Ok (h', c') → po_leeway o = clock_skew → c' = c ∧ alive t r.
Proof.
  intros Hn Hl Hm Hp Ho. pose proof Hm as (Hs & _).
  destruct (parse_only_signed _ _ _ _ _ _ _ _ _ Hs (minted_exact _ _ _ _ _ Hn Hl Hm) Hp) as (_ & -> & Ht). split; [done|].
  by apply (in_time_alive _ _ _ _ _ _ _ Ho Hm).
Qed.
Lemma check_ok {A} b msg (k : () → result string A) a : check b msg ≫= k = Ok a → b = true ∧ k () = Ok a.
Proof. destruct b; [by intros|done]. Qed.
Lemma map_err_ok {E E' A} (f : E → E') (m : result E A) a : map_err f m = Ok a → m = Ok a.
Proof. by destruct m; intros [= ->]. Qed.
Lemma required_ok {A} c k (v : A) (f : string → result string A) : required c k ≫= f = Ok v → claim_str c k ≠ EmptyString ∧ f (claim_str c k) = Ok v.
Proof. unfold required. destruct (claim_str c k); [done|]. by intros. Qed.
Lemma claim_str_get c k s : gm_get k c = Some (CStr s) → claim_str c k = s.
Proof. unfold claim_str. by intros ->. Qed.

Lemma validate_claims_ok c expected v : validate_claims c expected = Ok v →
  claim_str c "iss" = tokenIssuer ∧ extractAudience c = Ok TableTokenAudience ∧ claim_str c "token_kind" = TokenKindRun ∧
  claim_str c "project_id" ≠ EmptyString ∧ claim_str c "warehouse" ≠ EmptyString ∧ claim_str c "sub" = expected ∧
  claim_str c "run_id" = expected ∧ expected ≠ EmptyString ∧
  v = MkValidatedClaims expected expected (claim_str c "project_id") (claim_str c "warehouse") tokenIssuer TableTokenAudience (num_claim c "exp").
Proof.
  unfold validate_claims. intros [Hi H]%check_ok. destruct (extractAudience c) as [aud|]; cbn [map_err mbind result_bind] in H; [|done].
  apply check_ok in H as [Ha H]. apply check_ok in H as [Hk H]. apply required_ok in H as [H1 H]. apply required_ok in H as [H2 H].
  apply required_ok in H as [H3 H]. apply required_ok in H as [H4 H]. apply check_ok in H as [H5 H]. apply check_ok in H as [H6 H].
  apply bool_decide_eq_true in Hi, Ha, Hk, H5, H6. subst aud expected. injection H as <-. rewrite H5, Hi in *. by split_and!.
Qed.

(** A verifier that has the key parses a token during its life. *)
Lemma parses ctx sg r tok c t o keyfunc : in_int64 now = true → (lifetime_of r ≤ max_int64)%Z → minted ctx sg r tok c →
  "RS256" ∈ po_methods o → po_leeway o = clock_skew → keyfunc (MkHeader "RS256" (sg_KeyID sg)) = Ok (Public (sg_priv sg)) → alive t r →
  ParseWithClaims t o keyfunc tok = Ok (MkHeader "RS256" (sg_KeyID sg), c).
Proof.
  intros Hn Hl Hm Hal Ho Hk Ha. pose proof Hm as (Hs & _). apply (parse_signed _ _ _ _ _ _ _ Hs); try done; [by eapply minted_exact|].
  by apply (in_time_alive _ _ _ _ _ _ _ Ho Hm).
Qed.
Lemma kid_key_own KeyFor sg : sg_KeyID sg ≠ EmptyString → KeyFor (sg_KeyID sg) = Ok (Public (sg_priv sg)) →
  kid_key KeyFor (MkHeader "RS256" (sg_KeyID sg)) = Ok (Public (sg_priv sg)).
Proof. unfold kid_key. cbn. by destruct (sg_KeyID sg). Qed.
Lemma own_key_own sg : own_key (Public (sg_priv sg)) (sg_KeyID sg) (MkHeader "RS256" (sg_KeyID sg)) = Ok (Public (sg_priv sg)).
Proof. unfold own_key. cbn [h_alg h_kid]. by rewrite !bool_decide_true. Qed.
Lemma required_some c k : claim_str c k ≠ EmptyString → required c k = Ok (claim_str c k).
Proof. unfold required. by destruct (claim_str c k). Qed.
Lemma acts_subject ctx sg r tok c : minted ctx sg r tok c → acts_for_user r = true →
  ∃ sub, ctx = Some sub ∧ gm_get "aud" c = Some (CStr (marks sub r).1.1) ∧ claim_str c "token_kind" = (marks sub r).1.2 ∧ claim_str c "sub" = (marks sub r).2.
Proof. intros (_ & _ & (sub & Hu & H) & _) Ha. exists sub. split; [by apply Hu|done]. Qed.

Variable ctx : option string.
Variable sg : Signer.
Variable r : request.
Variable tok : string.
Hypothesis Hnow : in_int64 now = true.
Hypothesis Hlife : (lifetime_of r ≤ max_int64)%Z.
Hypothesis Hmint : mint now ctx (Some sg) r = Ok tok.

Lemma gateway_only t KeyFor ReadFile path expected raw v :
  ReadFile path = Ok raw → TrimSpace (str_take (Z.to_nat maxRunTokenFileBytes) raw) = tok →
  LoadAndValidateRunToken t ReadFile path KeyFor expected = Ok v →
  alive t r ∧ ∃ spec, r = RRun spec ∧ spec_RunID spec = expected ∧ aud_or (spec_Audience spec) = TableTokenAudience ∧
    v = MkValidatedClaims expected expected (spec_ProjectID spec) (spec_Warehouse spec) tokenIssuer TableTokenAudience
          (Some (Unix (now + spec_Lifetime spec))).
Proof using JL Hnow Hlife Hmint.
  intros Hr Hraw. unfold LoadAndValidateRunToken. destruct (str_empty path); [done|]. rewrite Hr. cbn [fmap result_fmap map_err mbind result_bind]. rewrite Hraw.
  destruct (ParseWithClaims _ _ _ _) as [[h' c']|] eqn:Hp; [|done]. cbn [map_err mbind result_bind].
  destruct (mint_minted _ _ _ _ Hmint) as (c & Hm). destruct (parsed_minted _ _ _ _ _ _ _ _ _ _ Hnow Hlife Hm Hp eq_refl) as [-> Ha].
  intros (_ & Haud & Hk & _ & _ & Hsub & Hrun & _ & ->)%validate_claims_ok. split; [done|].
  destruct Hm as (_ & _ & (u & _ & Ea & Ek & Es) & He & _ & _ & _ & _ & Hrest). rewrite Ek in Hk. unfold extractAudience in Haud. rewrite Ea in Haud.
  unfold num_claim. rewrite He. destruct r as [spec| | | | | | |]; try done. destruct Hrest as (Hpr & Hw & Hid). exists spec.
  rewrite Hpr, Hw. rewrite Hid in Hrun. split_and!; try done. cbn in Haud. destruct (str_empty _); [done|]. by injection Haud.
Qed.
Lemma worker_only t KeyFor sub jti : Verify t KeyFor tok = Ok (sub, jti) →
  alive t r ∧ ∃ ttl, r = RInternalQuery ttl ∧ ctx = Some sub.
Proof using JL Hnow Hlife Hmint.
  unfold Verify. destruct (ParseWithClaims _ _ _ _) as [[h' c']|] eqn:Hp; [|done]. cbn [map_err mbind result_bind].
  destruct (mint_minted _ _ _ _ Hmint) as (c & Hm). destruct (parsed_minted _ _ _ _ _ _ _ _ _ _ Hnow Hlife Hm Hp eq_refl) as [-> Ha].
  intros [_ H]%check_ok. destruct (GetAudience c) as [aud|]; [|done]. cbn [map_err mbind result_bind] in H. apply check_ok in H as [_ H].
  apply check_ok in H as [Hk H]. apply check_ok in H as [_ H]. injection H as <- _. apply bool_decide_eq_true in Hk. split; [done|].
  destruct Hm as (_ & _ & (u & Hu & _ & Ek & Es) & _). rewrite Ek in Hk. destruct r as [| | | |ttl| | |]; try done. exists ttl. split; [done|].
  rewrite Hu by done. by rewrite Es.
Qed.
Lemma bearer_only t key kid get authz u : bearer_token authz = Some tok → Bearer_UserFor t key kid get authz = Ok (Some u) →
  alive t r ∧ ∃ l id uid, r = RCLIAPI l ∧ ctx = Some id ∧ uuid_Parse id = Some uid ∧ get uid = Ok u ∧ u_Disabled u = false.
Proof using JL Hnow Hlife Hmint.
  unfold Bearer_UserFor, Bearer_subject. intros ->. cbn [mbind option_bind]. destruct (ParseWithClaims _ _ _ _) as [[h' c']|] eqn:Hp; [|done].
  destruct (mint_minted _ _ _ _ Hmint) as (c & Hm). destruct (parsed_minted _ _ _ _ _ _ _ _ _ _ Hnow Hlife Hm Hp eq_refl) as [-> Ha].
  destruct (bool_decide (claim_str c "iss" = _)); [cbn [negb]|done]. destruct (audienceContains _ _); [cbn [negb]|done].
  destruct (bool_decide_reflect (claim_str c "token_kind" = TokenKindCLIAPI)) as [Hk|]; [cbn [negb]|done].
  destruct (uuid_Parse _) as [uid|] eqn:Eu; [|done]. unfold Bearer_user. destruct (get uid) as [u'|[]] eqn:Eg; [|done..]. destruct (u_Disabled u') eqn:Ed; [done|].
  intros [= ->]. split; [done|]. destruct Hm as (_ & _ & (w & Hw & _ & Ek & Es) & _). rewrite Ek in Hk. destruct r as [| | | | | | |l]; try done.
  exists l, w, uid. split_and!; try done; [by apply Hw|]. by rewrite Es in Eu.
Qed.
Lemma app_only t signer authz p : bearer_token authz = Some tok → parseAppBearer t signer authz = Some p →
  alive t r ∧ ∃ rand app project, r = RApp rand app project ∧ ap_sub p = AppSubjectPrefix +:+ app ∧ ap_appID p = app ∧ ap_rawToken p = tok.
Proof using JL Hnow Hlife Hmint.
  unfold parseAppBearer. destruct signer as [s|]; [|done]. intros ->. cbn [mbind option_bind]. destruct (ParseWithClaims _ _ _ _) as [[h' c']|] eqn:Hp; [|done].
  destruct (mint_minted _ _ _ _ Hmint) as (c & Hm). destruct (parsed_minted _ _ _ _ _ _ _ _ _ _ Hnow Hlife Hm Hp eq_refl) as [-> Ha].
  destruct (_ && _) eqn:E; [|done]. intros [= <-]. rewrite !andb_true_iff, !bool_decide_eq_true in E. destruct E as ((((_ & _) & Hk) & _) & _).
  split; [done|]. destruct Hm as (_ & _ & (w & _ & _ & Ek & Es) & _ & _ & _ & _ & _ & Hrest). rewrite Ek in Hk. destruct r as [| |rand app project| | | | |]; try done.
  destruct Hrest as [Hid _]. exists rand, app, project. by rewrite Es.
Qed.
End Separation.

(** C4: every token of the API server has at most one verifier.  Whatever is asked
    for, at whatever time, with whatever keys it is checked: the gateway accepts
    only run tokens, of the run it was started for; the query worker only
    internal query tokens, and hands on the user of the session that asked; the
    API server takes as a user only the holder of a command-line API token, who
    exists and is not disabled, and as an app only the holder of an app token.
    None accepts a token outside its lifetime and the clock skew. *)
Theorem token_separation `{UT : !UnicodeTables} `{PL : !PoolLib} `{J : !Jwt} `{JL : !JwtLaws} `{UL : !UuidLib}
    (now : Z) (ctx : option string) (sg : Signer) (r : request) (tok : string)
    (Hnow : in_int64 now = true) (Hlife : (lifetime_of r ≤ max_int64)%Z) (Hmint : mint now ctx (Some sg) r = Ok tok) :
  (∀ t KeyFor ReadFile path expected raw v, ReadFile path = Ok raw → TrimSpace (str_take (Z.to_nat maxRunTokenFileBytes) raw) = tok →
    LoadAndValidateRunToken t ReadFile path KeyFor expected = Ok v →
    alive now t r ∧ ∃ spec, r = RRun spec ∧ spec_RunID spec = expected ∧ aud_or (spec_Audience spec) = TableTokenAudience ∧
      v = MkValidatedClaims expected expected (spec_ProjectID spec) (spec_Warehouse spec) tokenIssuer TableTokenAudience
            (Some (Unix (now + spec_Lifetime spec)))) ∧
  (∀ t KeyFor sub jti, Verify t KeyFor tok = Ok (sub, jti) →
    alive now t r ∧ ∃ ttl, r = RInternalQuery ttl ∧ ctx = Some sub) ∧
  (∀ t key kid get authz u, bearer_token authz = Some tok → Bearer_UserFor t key kid get authz = Ok (Some u) →
    alive now t r ∧ ∃ l id uid, r = RCLIAPI l ∧ ctx = Some id ∧ uuid_Parse id = Some uid ∧ get uid = Ok u ∧ u_Disabled u = false) ∧
  (∀ t signer authz p, bearer_token authz = Some tok → parseAppBearer t signer authz = Some p →
    alive now t r ∧ ∃ rand app project, r = RApp rand app project ∧ ap_sub p = AppSubjectPrefix +:+ app ∧ ap_appID p = app ∧ ap_rawToken p = tok).
Proof.
  split_and!; intros.
  - by eapply gateway_only.
  - by eapply worker_only.
  - by eapply bearer_only.
  - by eapply app_only.
Qed.

(** C23: the gateway gives back what the run was triggered with: a run token for
    the catalog, minted with a project and a warehouse, is accepted during its
    life by whoever holds the key of its signer, and its validated claims are
    those of the request. *)
Theorem run_token_roundtrip `{UT : !UnicodeTables} `{PL : !PoolLib} `{J : !Jwt} `{JL : !JwtLaws}
    (now t : Z) (ctx : option string) (sg : Signer) (spec : RunSpec) (tok raw path : string)
    (ReadFile : string → result string string) (KeyFor : string → result string public_key)
    (Hnow : in_int64 now = true) (Hlife : (spec_Lifetime spec ≤ max_int64)%Z) (Hmint : MintRunToken now ctx (Some sg) spec = Ok tok)
    (Haud : aud_or (spec_Audience spec) = TableTokenAudience) (Hp : spec_ProjectID spec ≠ EmptyString) (Hw : spec_Warehouse spec ≠ EmptyString)
    (Hkid : sg_KeyID sg ≠ EmptyString) (Hkey : KeyFor (sg_KeyID sg) = Ok (Public (sg_priv sg)))
    (Hpath : path ≠ EmptyString) (Hread : ReadFile path = Ok raw)
    (Hraw : TrimSpace (str_take (Z.to_nat maxRunTokenFileBytes) raw) = tok) (Ht : alive now t (RRun spec)) :
  LoadAndValidateRunToken t ReadFile path KeyFor (spec_RunID spec) =
    Ok (MkValidatedClaims (spec_RunID spec) (spec_RunID spec) (spec_ProjectID spec) (spec_Warehouse spec) tokenIssuer TableTokenAudience
          (Some (Unix (now + spec_Lifetime spec)))).
Proof.
  destruct (mint_minted now ctx sg (RRun spec) tok Hmint) as (c & Hm). unfold LoadAndValidateRunToken. rewrite (proj2 (str_empty_false _) Hpath), Hread.
  cbn [fmap result_fmap map_err mbind result_bind]. rewrite Hraw.
  rewrite (parses now ctx sg (RRun spec) tok c t run_opts) by first [done|by left|by apply kid_key_own]. cbn [map_err mbind result_bind].
  assert (spec_RunID spec ≠ EmptyString) as Hid by (unfold MintRunToken, the_signer in Hmint; intros E; by rewrite E in Hmint).
  destruct Hm as (_ & Hi & (u & _ & Ea & Ek & Es) & He & _ & _ & _ & _ & H1 & H2 & H3). cbn [marks fst snd lifetime_of] in *.
  unfold validate_claims, extractAudience. rewrite (claim_str_get _ _ _ Hi), Ea, Ek, Haud. cbn [map_err mbind result_bind check].
  rewrite !required_some by congruence. rewrite Es, H1, H2, H3.
  change (str_empty TableTokenAudience) with false. repeat (rewrite bool_decide_true by done; cbn [check map_err mbind result_bind]).
  unfold num_claim. by rewrite He.
Qed.

(** The tokens of a session are accepted where they belong: during its life,
    by whoever holds the key, an internal query token is accepted by the query
    worker in the name of the user, a command-line API token by the API server
    as that user, if they exist and are not disabled, an app token by the query
    route as that app. *)
Theorem session_tokens_accepted `{UT : !UnicodeTables} `{PL : !PoolLib} `{J : !Jwt} `{JL : !JwtLaws} `{UL : !UuidLib}
    (now t : Z) (id : string) (sg : Signer) (r : request) (tok : string)
    (Hnow : in_int64 now = true) (Hlife : (lifetime_of r ≤ max_int64)%Z) (Hmint : mint now (Some id) (Some sg) r = Ok tok) (Ht : alive now t r) :
  match r with
  | RInternalQuery _ => ∀ KeyFor, id ≠ EmptyString → sg_KeyID sg ≠ EmptyString → KeyFor (sg_KeyID sg) = Ok (Public (sg_priv sg)) →
      ∃ jti, Verify t KeyFor tok = Ok (id, jti)
  | RCLIAPI _ => ∀ get authz uid u, bearer_token authz = Some tok → uuid_Parse id = Some uid → get uid = Ok u → u_Disabled u = false →
      Bearer_UserFor t (Public (sg_priv sg)) (sg_KeyID sg) get authz = Ok (Some u)
  | RApp _ app _ => ∀ authz, bearer_token authz = Some tok →
      ∃ jti, parseAppBearer t (Some sg) authz = Some (MkAppPrincipal (AppSubjectPrefix +:+ app) jti tok app)
  | _ => True
  end.
Proof.
  destruct (mint_minted now (Some id) sg r tok Hmint) as (c & Hm). pose proof Hm as (_ & Hi & (w & _ & Ea & Ek & Es) & _ & _ & _ & _ & _ & Hrest).
  destruct r as [| |rand app project| |ttl| | |l]; try done; cbn [marks fst snd] in *.
  - intros authz Hb. exists (claim_str c "jti"). unfold parseAppBearer. rewrite Hb. cbn [mbind option_bind].
    rewrite (parses now (Some id) sg _ tok c t own_opts _ Hnow Hlife Hm) by first [done|by left|apply own_key_own].
    rewrite (claim_str_get _ _ _ Hi), (claim_str_get _ _ _ Ea), Ek, Es, !bool_decide_true by done. destruct Hrest as [-> _]. done.
  - intros KeyFor Hid Hkid Hkey. exists (claim_str c "jti"). unfold Verify.
    rewrite (parses now (Some id) sg _ tok c t worker_opts _ Hnow Hlife Hm) by first [done|by left|by apply kid_key_own]. cbn [map_err mbind result_bind].
    destruct (acts_subject _ _ _ _ _ _ Hm eq_refl) as (sub & [= <-] & _ & _ & Es'). cbn in Es'.
    rewrite (claim_str_get _ _ _ Hi), (audience_str _ _ Ea), Ek, Es', !bool_decide_true, (proj2 (str_empty_false _) Hid) by done. done.
  - intros get authz uid u Hb Hu Hg Hd. unfold Bearer_UserFor, Bearer_subject. rewrite Hb. cbn [mbind option_bind].
    rewrite (parses now (Some id) sg _ tok c t own_opts _ Hnow Hlife Hm) by first [done|by left|apply own_key_own].
    destruct (acts_subject _ _ _ _ _ _ Hm eq_refl) as (sub & [= <-] & _ & _ & Es'). cbn in Es'.
    rewrite (claim_str_get _ _ _ Hi), Ea, Ek, Es', !bool_decide_true by done. cbn [negb audienceContains]. rewrite bool_decide_true by done. cbn [negb].
    rewrite Hu, Hg. cbn. by rewrite Hd.
Qed.

(** The client of the key document: a key it holds costs no fetch and stays; a
    key it returns is in the document it holds, and it only keeps documents it
    fetched; when it fails it has just fetched a document without the key, or a
    fetch failed. *)
Theorem KeyFor_correct `{J : !Jwt} {X} (fetch : X → X * result string (gmap string public_key)) (kid : string)
    (c : option (gmap string public_key)) (x : X) :
  let '((c', x'), r) := KeyFor fetch kid (c, x) in
  (∀ keys k, c = Some keys → keys !! kid = Some k → (c', x', r) = (c, x, Ok k)) ∧
  (c' = c ∨ ∃ y keys, c' = Some keys ∧ (fetch y).2 = Ok keys) ∧
  match r with
  | Ok k => ∃ keys, c' = Some keys ∧ keys !! kid = Some k
  | Err _ => ∃ y, match (fetch y).2 with Ok keys => keys !! kid = None ∧ c' = Some keys | Err _ => True end
  end.
Proof.
  unfold KeyFor, refetch, key_in. destruct c as [keys|].
  - destruct (keys !! kid) as [k|] eqn:Ek; [split_and!; [naive_solver|by left|by exists keys]|].
    destruct (fetch x) as [x1 [fresh|e]] eqn:E1; [|split_and!; [naive_solver|by left|exists x; by rewrite E1]].
    destruct (fresh !! kid) as [k|] eqn:Ef; (split_and!; [naive_solver|right; exists x, fresh; by rewrite E1|]); [by exists fresh|].
    exists x. by rewrite E1.
  - destruct (fetch x) as [x1 [fresh|e]] eqn:E1; [|split_and!; [done|by left|exists x; by rewrite E1]].
    destruct (fresh !! kid) as [k|] eqn:Ef; [split_and!; [done|right; exists x, fresh; by rewrite E1|by exists fresh]|].
    destruct (fetch x1) as [x2 [again|e]] eqn:E2; [|split_and!; [done|right; exists x, fresh; by rewrite E1|exists x1; by rewrite E2]].
    destruct (again !! kid) as [k|] eqn:Ea; (split_and!; [done|right; exists x1, again; by rewrite E2|]); [by exists again|].
    exists x1. by rewrite E2.
Qed.

(** ** Examples *)

Module TokenExamples.
#[local] Instance ascii_tables : UnicodeTables := { is_print_above_latin1 := λ _, false; to_upper_above_latin1 := λ r, r }.
#[local] Instance lib : PoolLib := {| sha256_hex x := "h" +:+ x; to_lower_above_latin1 r := r |}.
#[local] Instance uuids : UuidLib := {| uuid_Parse s := Some s |}.
#[local] Instance claim_eq : EqDecision claim.
Proof. solve_decision. Defined.
#[local] Instance claim_countable : Countable claim.
Proof.
  refine (inj_countable' (λ c, match c with CStr s => inl s | CNum z => inr (inl z) | CArr l => inr (inr l) end)
    (λ x, match x with inl s => CStr s | inr (inl z) => CNum z | inr (inr l) => CArr l end) _). by intros [].
Defined.
(** A token is the bits of its key, header and claims. *)
Fixpoint write_bits (p : positive) : string :=
  match p with xH => EmptyString | xO p => String "0" (write_bits p) | xI p => String "1" (write_bits p) end.
Fixpoint read_bits (s : string) : option positive :=
  match s with
  | EmptyString => Some xH
  | String c s => p ← read_bits s; if Ascii.eqb c "0" then Some (xO p) else if Ascii.eqb c "1" then Some (xI p) else None
  end.
Lemma read_write_bits p : read_bits (write_bits p) = Some p.
Proof. induction p as [p IH|p IH|]; cbn; by rewrite ?IH. Qed.
Definition write_token (key : string) (h : header) (c : claims) : string := write_bits (encode (key, (h_alg h, h_kid h), c)).
Definition read_token (t : string) : option (string * (string * string) * claims) := p ← read_bits t; decode p.
#[local] Arguments write_token : simpl never.
#[local] Arguments read_token : simpl never.
#[local] Instance jwt : Jwt := {|
  private_key := string;
  public_key := string;
  Public k := k;
  SignedString key h c := Ok (write_token key h c);
  ParseWithClaims now o keyfunc t :=
    match read_token t with
    | Some (key, (alg, kid), c) =>
      k ← keyfunc (MkHeader alg kid);
      if bool_decide (alg ∈ po_methods o) && bool_decide (k = key) && in_time now o c then Ok (MkHeader alg kid, c) else Err "token is invalid"
    | None => Err "token is malformed"
    end;
  GetAudience c := match gm_get "aud" c with Some (CStr s) => Ok [s] | Some (CArr l) => Ok l | Some (CNum _) => Err "aud is invalid" | None => Ok [] end;
|}.
Lemma read_write key h c : read_token (write_token key h c) = Some (key, (h_alg h, h_kid h), c).
Proof. unfold read_token, write_token. rewrite read_write_bits. cbn [mbind option_bind]. by rewrite decode_encode. Qed.
#[local] Instance jwt_laws : JwtLaws.
Proof.
  split.
  - cbn. intros now o keyfunc key [alg kid] c t [= <-] _ Ha Hk Ht. rewrite read_write. cbn in *. rewrite Hk. cbn.
    by rewrite !bool_decide_true, Ht.
  - cbn. intros now o keyfunc key [alg kid] c t h' c' [= <-] _. rewrite read_write. cbn. destruct (keyfunc _) as [k|]; [|done]. cbn.
    destruct (_ && _) eqn:E; [|done]. intros [= <- <-]. by split_and_all.
  - cbn. by intros c s ->.
Qed.

Definition sg : Signer := MkSigner "pem" "k1".
Definition now : Z := 1700000000 * second + 5.
Definition spec : RunSpec := MkRunSpec "run-1" "lk-1" "daily" "main" EmptyString (24 * 3600 * second).
Definition ok (r : result string string) : string := match r with Ok t => t | Err _ => EmptyString end.
Definition run_tok : string := Eval vm_compute in ok (MintRunToken now (Some "u1") (Some sg) spec).
Lemma run_tok_minted : MintRunToken now (Some "u1") (Some sg) spec = Ok run_tok.
Proof. by vm_compute. Qed.
Definition keys (kid : string) : result string string := if bool_decide (kid = "k1") then Ok "pem" else Err "not found".
Definition file : string := " " +:+ run_tok +:+ "
".
Lemma file_text : TrimSpace (str_take (Z.to_nat maxRunTokenFileBytes) file) = run_tok.
Proof. by vm_compute. Qed.
Definition read_file (path : string) : result string string := Ok file.

Lemma run_token_roundtrip_witness :
  LoadAndValidateRunToken (now + 3600 * second) read_file "/token" keys "run-1" =
    Ok (MkValidatedClaims "run-1" "run-1" "lk-1" "main" tokenIssuer TableTokenAudience (Some 1700086400%Z)).
Proof.
  refine (run_token_roundtrip now (now + 3600 * second) (Some "u1") sg spec run_tok file "/token" read_file keys
            eq_refl ltac:(done) run_tok_minted eq_refl ltac:(done) ltac:(done) ltac:(done) eq_refl ltac:(done) eq_refl file_text _).
  split; by vm_compute.
Defined.
(** The worker and the query route do not take a run token. *)
Lemma token_separation_witness : is_ok (Verify (now + second) keys run_tok) = false.
Proof.
  destruct (token_separation now (Some "u1") sg (RRun spec) run_tok eq_refl ltac:(done) run_tok_minted) as (_ & Hw & _).
  destruct (Verify _ _ run_tok) as [[sub jti]|e] eqn:E; [|done]. by destruct (Hw _ _ _ _ E) as (_ & ttl & [=] & _).
Defined.
Definition hop_tok : string := Eval vm_compute in ok (MintInternalQueryToken now (Some "u1") (Some sg) (400 * second)).
Lemma session_tokens_accepted_witness : ∃ jti, Verify (now + 100 * second) keys hop_tok = Ok ("u1", jti).
Proof.
  refine (session_tokens_accepted now (now + 100 * second) "u1" sg (RInternalQuery (400 * second)) hop_tok eq_refl ltac:(done) _ _ keys
            ltac:(done) ltac:(done) eq_refl); [by vm_compute|]. split; by vm_compute.
Defined.

(** A run of a project without a lakekeeper project has a token, and no gateway
    accepts it. *)
Definition unprovisioned : RunSpec := MkRunSpec "run-1" EmptyString "daily" "main" EmptyString (24 * 3600 * second).
Example empty_project_refused : is_ok (MintRunToken now (Some "u1") (Some sg) unprovisioned) = true ∧
  validate_claims (run_claims now "u1" unprovisioned) "run-1" = Err "run-token validation check 6: required claim project_id is missing or empty".
Proof. by vm_compute. Qed.
(** The gateway does not require an expiry: a signed run token without one is
    accepted at any time, and its claims have the zero time for it. *)
Definition no_exp : claims :=
  [("iss", CStr tokenIssuer); ("aud", CStr TableTokenAudience); ("sub", CStr "run-1"); ("token_kind", CStr TokenKindRun);
   ("project_id", CStr "lk-1"); ("warehouse", CStr "main"); ("run_id", CStr "run-1")].
Example no_expiry_accepted : ∀ t, in_time t run_opts no_exp = true ∧ in_time t worker_opts no_exp = false ∧
  validate_claims no_exp "run-1" = Ok (MkValidatedClaims "run-1" "run-1" "lk-1" "main" tokenIssuer TableTokenAudience None).
Proof. intros t. by split_and!. Qed.
End TokenExamples.
