(* ===== verification/Password.v ===== *)
(** * Password: argon2id hashes in PHC form (pkg/pipelineapi/auth/password.go)

    Hashing and verification, with the standard library's unpadded base64 and
    the reading of [fmt.Sscanf] they use.  The key derivation function is that
    of golang.org/x/crypto/argon2: a parameter, which may panic. *)

From S2P Require Import Prelude ApiTypes Status GoTime Tokens.

(** [argon2.IDKey password salt time memory threads keyLen]: [None] when it panics. *)
Class Argon2 : Type := { IDKey : string → string → Z → Z → Z → Z → option string }.
Class Argon2Laws `{AG : !Argon2} : Prop := {
  IDKey_runs : ∀ pw salt t m p n, (1 ≤ t)%Z → (1 ≤ p)%Z → (1 ≤ n)%Z → IDKey pw salt t m p n ≠ None;
  IDKey_length : ∀ pw salt t m p n k, (0 ≤ n)%Z → IDKey pw salt t m p n = Some k → Z.of_nat (slen k) = n;
}.
Definition argon2_Version : Z := 19.

(** ** encoding/base64: RawStdEncoding *)

Definition sextet_char (n : N) : ascii :=
  byte_of (if (n <? 26) then 65 + n else if (n <? 52) then 97 + (n - 26) else if (n <? 62) then 48 + (n - 52)
           else if (n =? 62) then 43 else 47)%N.
Definition sextet (c : ascii) : option N :=
  let n := code c in
  if is_upper_byte c then Some (n - 65)%N
  else if is_lower_byte c then Some (n - 97 + 26)%N
  else if is_digit_byte c then Some (n - 48 + 52)%N
  else if (n =? 43)%N then Some 62%N
  else if (n =? 47)%N then Some 63%N
  else None.
Fixpoint chars (l : list N) : string := match l with [] => EmptyString | n :: l => String (sextet_char n) (chars l) end.
Fixpoint EncodeToString (s : string) : string :=
  match s with
  | EmptyString => EmptyString
  | String a EmptyString => let a := code a in chars [N.shiftr a 2; N.land (N.shiftl a 4) 63]%N
  | String a (String b EmptyString) =>
    let v := N.lor (N.shiftl (code a) 8) (code b) in chars [N.shiftr v 10; N.land (N.shiftr v 4) 63; N.land (N.shiftl v 2) 63]%N
  | String a (String b (String c s)) =>
    let v := N.lor (N.lor (N.shiftl (code a) 16) (N.shiftl (code b) 8)) (code c) in
    chars [N.land (N.shiftr v 18) 63; N.land (N.shiftr v 12) 63; N.land (N.shiftr v 6) 63; N.land v 63]%N +:+ EncodeToString s
  end.
(** The digits, without the line breaks the decoder skips. *)
Fixpoint sextets (s : string) : option (list N) :=
  match s with
  | EmptyString => Some []
  | String c s =>
    if (code c =? 10)%N || (code c =? 13)%N then sextets s else n ← sextet c; l ← sextets s; Some (n :: l)
  end.
Fixpoint quanta (l : list N) : option string :=
  match l with
  | [] => Some EmptyString
  | [_] => None
  | [a; b] => Some (String (byte_of (N.shiftr (N.lor (N.shiftl a 6) b) 4)) EmptyString)
  | [a; b; c] =>
    let v := N.lor (N.lor (N.shiftl a 12) (N.shiftl b 6)) c in
    Some (String (byte_of (N.shiftr v 10)) (String (byte_of (N.land (N.shiftr v 2) 255)) EmptyString))
  | a :: b :: c :: d :: l =>
    let v := N.lor (N.lor (N.lor (N.shiftl a 18) (N.shiftl b 12)) (N.shiftl c 6)) d in
    s ← quanta l;
    Some (String (byte_of (N.shiftr v 16)) (String (byte_of (N.land (N.shiftr v 8) 255)) (String (byte_of (N.land v 255)) s)))
  end.
Definition DecodeString (s : string) : result string string :=
  match l ← sextets s; quanta l with Some s => Ok s | None => Err "illegal base64 data" end.

(** ** fmt.Sscanf, for the formats used *)

(** The rest after the literal, or after a decimal number. *)
Definition scan_lit (p s : string) : result string string :=
  match cut_prefix p s with Some r => Ok r | None => Err "input does not match format" end.
Fixpoint skip_space (l : list rune_span) : result string string :=
  match l with
  | [] => Ok EmptyString
  | x :: l' =>
    if bool_decide (rs_rune x = 10%N) then Err "unexpected newline"
    else if bool_decide (rs_rune x = 13%N) && bool_decide ((rs_rune <$> head l') = Some 10%N) then Err "unexpected newline"
    else if is_space_rune (rs_rune x) then skip_space l' else Ok (bytes_of l)
  end.
(** A number of at most [hi]; a sign is read when [signed]. *)
Definition scan_number (signed : bool) (hi : Z) (s : string) : result string (Z * string) :=
  s ← skip_space (runes s);
  let '(neg, s) :=
    match s with
    | String c r => if signed && (Ascii.eqb c "+" || Ascii.eqb c "-") then (Ascii.eqb c "-", r) else (false, s)
    | EmptyString => (false, s)
    end in
  let (digits, rest) := span_byte is_digit_byte s in
  if str_empty s then Err "unexpected EOF"
  else if str_empty digits then Err "expected integer"
  else if ((if neg then hi + 1 else hi) <? digits_value digits)%Z then Err "integer overflow"
  else Ok (if neg then - digits_value digits else digits_value digits, rest)%Z.

(** ** Hashing and verifying *)

Section Passwords.
Context `{AG : !Argon2}.
Definition argonTime : Z := 1.
Definition argonMemory : Z := 64 * 1024.
Definition argonThreads : Z := 4.
Definition argonKeyLen : Z := 32.
Definition argonSaltLen : nat := 16.

Definition phc (salt hash : string) : string :=
  "$argon2id$v=" +:+ itoa argon2_Version +:+ "$m=" +:+ itoa argonMemory +:+ ",t=" +:+ itoa argonTime +:+ ",p=" +:+ itoa argonThreads +:+
  "$" +:+ EncodeToString salt +:+ "$" +:+ EncodeToString hash.
(** [rand]: the salt crypto/rand gave.  [None] when the function panics. *)
Definition HashPassword (rand : result string string) (pw : string) : option (result string string) :=
  match rand with
  | Err e => Some (Err ("rand: " +:+ e))
  | Ok salt => hash ← IDKey pw salt argonTime argonMemory argonThreads argonKeyLen; Some (Ok (phc salt hash))
  end.
Record phc_parts := MkPhcParts { ph_memory : Z; ph_time : Z; ph_threads : Z; ph_salt : string; ph_hash : string }.
Definition max_uint32 : Z := 2 ^ 32 - 1.
Definition max_uint8 : Z := 2 ^ 8 - 1.
Definition parse_phc (encoded : string) : result string phc_parts :=
  match split_byte "$" encoded with
  | [p0; p1; p2; p3; p4; p5] =>
    if negb (str_empty p0) || negb (bool_decide (p1 = "argon2id")) then Err "not a PHC argon2id hash"
    else
      '(version, _) ← map_err (λ e, "parse version: " +:+ e) (r ← scan_lit "v=" p2; scan_number true max_int64 r);
      if negb (bool_decide (version = argon2_Version)) then Err ("unsupported argon2 version " +:+ itoa version)
      else
        '(m, t, p) ← map_err (λ e, "parse params: " +:+ e)
          (r ← scan_lit "m=" p3; '(m, r) ← scan_number false max_uint32 r;
           r ← scan_lit ",t=" r; '(t, r) ← scan_number false max_uint32 r;
           r ← scan_lit ",p=" r; '(p, _) ← scan_number false max_uint8 r; Ok (m, t, p));
        salt ← map_err (λ e, "decode salt: " +:+ e) (DecodeString p4);
        hash ← map_err (λ e, "decode hash: " +:+ e) (DecodeString p5);
        if (t =? 0)%Z || (p =? 0)%Z || (m =? 0)%Z || str_empty hash || str_empty salt then Err "invalid argon2 parameters"
        else Ok (MkPhcParts m t p salt hash)
  | _ => Err "not a PHC argon2id hash"
  end.
Definition VerifyPassword (pw encoded : string) : option (result string bool) :=
  match parse_phc encoded with
  | Err e => Some (Err e)
  | Ok h =>
    got ← IDKey pw (ph_salt h) (ph_time h) (ph_memory h) (ph_threads h) (Z.of_nat (slen (ph_hash h)));
    Some (Ok (bool_decide (got = ph_hash h)))
  end.
End Passwords.

(** ** Base64 reads back *)

Open Scope N_scope.
Lemma lor_shift x y k : y < 2 ^ k → N.lor (N.shiftl x k) y = x * 2 ^ k + y.
Proof.
  intros Hy. rewrite <-N.shiftl_mul_pow2. assert (N.land (N.shiftl x k) y = 0) as H0.
  { apply N.bits_inj_iff. intros n. rewrite N.land_spec, N.bits_0. destruct (N.ltb_spec n k) as [Hn|Hn].
    - by rewrite N.shiftl_spec_low.
    - rewrite andb_comm. destruct (N.eq_dec y 0) as [->|]; [by rewrite N.bits_0|]. rewrite N.bits_above_log2; [done|].
      assert (N.log2 y < k) by (apply N.log2_lt_pow2; lia). lia. }
  rewrite <-(N.lxor_lor _ _ H0). symmetry. by apply N.add_nocarry_lxor.
Qed.
Lemma land_mod x k : N.land x (N.ones k) = x mod 2 ^ k.
Proof. apply N.land_ones. Qed.
Lemma sextet_char_inv n : n < 64 → sextet (sextet_char n) = Some n ∧ code (sextet_char n) ≠ 10 ∧ code (sextet_char n) ≠ 13 ∧ sextet_char n ≠ "$"%char.
Proof.
  intros Hn. assert (Forall (λ n, sextet (sextet_char n) = Some n ∧ code (sextet_char n) ≠ 10 ∧ code (sextet_char n) ≠ 13 ∧ sextet_char n ≠ "$"%char) (N.of_nat <$> seq 0 64)) as H.
  { apply Forall_forall. intros x Hx. cbn in Hx. repeat (apply elem_of_cons in Hx as [->|Hx]; [by vm_compute|]). by apply elem_of_nil in Hx. }
  rewrite Forall_forall in H. apply H. apply list_elem_of_fmap. exists (N.to_nat n). split; [lia|]. apply elem_of_seq. lia.
Qed.
Lemma sextets_chars l s m : Forall (λ n, n < 64) l → sextets s = Some m → sextets (chars l +:+ s) = Some (l ++ m).
Proof.
  induction 1 as [|n l Hn _ IH]; intros Hs; [done|]. cbn [chars]. rewrite str_app_cons. cbn [sextets]. destruct (sextet_char_inv n Hn) as (H1 & H2 & H3 & _).
  rewrite (proj2 (N.eqb_neq _ _) H2), (proj2 (N.eqb_neq _ _) H3). cbn [orb]. rewrite H1. cbn [mbind option_bind]. by rewrite IH.
Qed.
Lemma byte_of_code c : byte_of (code c) = c.
Proof. apply ascii_N_embedding. Qed.
Lemma land63 x : N.land x 63 = x mod 64.
Proof. exact (N.land_ones x 6). Qed.
Lemma land255 x : N.land x 255 = x mod 256.
Proof. exact (N.land_ones x 8). Qed.
Ltac arith := zify; Z.to_euclidean_division_equations; lia.
(** A quantum is the number of its bytes in base 64. *)
Lemma split3 v : v < 2 ^ 24 → [N.land (N.shiftr v 18) 63; N.land (N.shiftr v 12) 63; N.land (N.shiftr v 6) 63; N.land v 63] =
  [v / 2 ^ 18; (v / 2 ^ 12) mod 64; (v / 2 ^ 6) mod 64; v mod 64] ∧
  v / 2 ^ 18 < 64 ∧ v = (v / 2 ^ 18) * 2 ^ 18 + ((v / 2 ^ 12) mod 64) * 2 ^ 12 + ((v / 2 ^ 6) mod 64) * 2 ^ 6 + v mod 64.
Proof.
  intros Hv. rewrite !land63, !N.shiftr_div_pow2. change (2 ^ 24) with 16777216 in *. change (2 ^ 18) with 262144. change (2 ^ 12) with 4096. change (2 ^ 6) with 64.
  split_and!; [|arith|arith]. rewrite (N.mod_small (v / 262144)) by arith. done.
Qed.
Lemma quanta4 a b c d l s : a < 64 → b < 64 → c < 64 → d < 64 → quanta l = Some s →
  let v := a * 2 ^ 18 + b * 2 ^ 12 + c * 2 ^ 6 + d in
  quanta (a :: b :: c :: d :: l) = Some (String (byte_of (v / 2 ^ 16)) (String (byte_of ((v / 2 ^ 8) mod 256)) (String (byte_of (v mod 256)) s))).
Proof.
  intros Ha Hb Hc Hd Hl v. cbn [quanta]. rewrite Hl. cbn [mbind option_bind]. rewrite !land255, !N.shiftr_div_pow2.
  enough (N.lor (N.lor (N.lor (N.shiftl a 18) (N.shiftl b 12)) (N.shiftl c 6)) d = v) as -> by done.
  subst v. rewrite <-!N.lor_assoc.
  rewrite (lor_shift c d 6) by (change (2 ^ 6) with 64; lia).
  rewrite (lor_shift b _ 12) by (change (2 ^ 12) with 4096; change (2 ^ 6) with 64; lia).
  rewrite (lor_shift a _ 18) by (change (2 ^ 18) with 262144; change (2 ^ 12) with 4096; change (2 ^ 6) with 64; lia). lia.
Qed.
Lemma byte3 a b c : N.lor (N.lor (N.shiftl (code a) 16) (N.shiftl (code b) 8)) (code c) = code a * 65536 + code b * 256 + code c.
Proof.
  pose proof (code_lt a). pose proof (code_lt b). pose proof (code_lt c). rewrite <-N.lor_assoc.
  rewrite (lor_shift _ _ 8) by (change (2 ^ 8) with 256; lia). change (2 ^ 8) with 256. rewrite (lor_shift _ _ 16) by (change (2 ^ 16) with 65536; lia).
  change (2 ^ 16) with 65536. lia.
Qed.
(** Strings three bytes at a time. *)
Lemma triples_ind (P : string → Prop) : P EmptyString → (∀ a, P (String a EmptyString)) → (∀ a b, P (String a (String b EmptyString))) →
  (∀ a b c s, P s → P (String a (String b (String c s)))) → ∀ s, P s.
Proof.
  intros H0 H1 H2 H3. fix IH 1. intros [|a [|b [|c s]]]; [exact H0|apply H1|apply H2|apply H3, IH].
Qed.
Lemma Encode_sextets s : ∃ l, Forall (λ n, n < 64) l ∧ EncodeToString s = chars l ∧ quanta l = Some s.
Proof.
  induction s as [|a|a b|a b c s (l & Hl & He & Hq)] using triples_ind.
  - by exists [].
  - exists [code a / 4; (code a mod 4) * 16]. pose proof (code_lt a). split_and!.
    + repeat constructor; arith.
    + cbn [EncodeToString]. rewrite N.shiftr_div_pow2, land63, N.shiftl_mul_pow2. change (2 ^ 2) with 4. change (2 ^ 4) with 16.
      do 3 f_equal. arith.
    + cbn [quanta]. rewrite (lor_shift _ _ 6), N.shiftr_div_pow2 by (change (2 ^ 6) with 64; arith). change (2 ^ 6) with 64. change (2 ^ 4) with 16.
      replace ((code a / 4 * 64 + code a mod 4 * 16) / 16) with (code a) by arith. by rewrite byte_of_code.
  - pose proof (code_lt a). pose proof (code_lt b). set (v := code a * 256 + code b).
    exists [v / 1024; (v / 16) mod 64; (v mod 16) * 4]. split_and!.
    + subst v. repeat constructor; arith.
    + cbn [EncodeToString]. rewrite (lor_shift _ _ 8) by (change (2 ^ 8) with 256; lia). change (2 ^ 8) with 256. fold v.
      rewrite !N.shiftr_div_pow2, !land63, N.shiftl_mul_pow2. change (2 ^ 10) with 1024. change (2 ^ 4) with 16. change (2 ^ 2) with 4.
      do 4 f_equal. subst v. arith.
    + cbn [quanta]. rewrite land255, !N.shiftr_div_pow2.
      assert (N.lor (N.lor (N.shiftl (v / 1024) 12) (N.shiftl ((v / 16) mod 64) 6)) ((v mod 16) * 4) = v * 4) as ->.
      { rewrite <-N.lor_assoc, (lor_shift _ _ 6) by (change (2 ^ 6) with 64; subst v; arith). change (2 ^ 6) with 64.
        rewrite (lor_shift _ _ 12) by (change (2 ^ 12) with 4096; subst v; arith). change (2 ^ 12) with 4096. subst v. arith. }
      change (2 ^ 10) with 1024. change (2 ^ 2) with 4. replace (v * 4 / 1024) with (code a) by (subst v; arith).
      replace ((v * 4 / 4) mod 256) with (code b) by (subst v; arith). by rewrite !byte_of_code.
  - pose proof (code_lt a). pose proof (code_lt b). pose proof (code_lt c). set (v := code a * 65536 + code b * 256 + code c).
    assert (v < 2 ^ 24) as Hv by (change (2 ^ 24) with 16777216; subst v; lia). destruct (split3 v Hv) as (E & H18 & Hsum).
    exists ([v / 2 ^ 18; (v / 2 ^ 12) mod 64; (v / 2 ^ 6) mod 64; v mod 64] ++ l). split_and!.
    + apply Forall_app; split; [|done]. repeat constructor; try done; apply N.mod_lt; done.
    + cbn [EncodeToString]. rewrite byte3. fold v. rewrite E, He. clear. generalize [v / 2 ^ 18; (v / 2 ^ 12) mod 64; (v / 2 ^ 6) mod 64; v mod 64].
      intros k. induction k as [|n k IH]; [done|]. cbn [chars app]. by rewrite str_app_cons, IH.
    + cbn [app]. rewrite (quanta4 _ _ _ _ l s) by (try done; apply N.mod_lt; done). rewrite <-Hsum.
      change (2 ^ 16) with 65536. change (2 ^ 8) with 256. replace (v / 65536) with (code a) by (subst v; arith).
      replace ((v / 256) mod 256) with (code b) by (subst v; arith). replace (v mod 256) with (code c) by (subst v; arith). by rewrite !byte_of_code.
Qed.
Lemma Decode_Encode s : DecodeString (EncodeToString s) = Ok s.
Proof.
  destruct (Encode_sextets s) as (l & Hl & -> & Hq). unfold DecodeString.
  rewrite <-(str_app_nil (chars l)), (sextets_chars l EmptyString []) by done. cbn [mbind option_bind]. by rewrite app_nil_r, Hq.
Qed.
Lemma Encode_no_dollar s : forall_byte (λ c, negb (Ascii.eqb c "$")) (EncodeToString s) = true.
Proof.
  destruct (Encode_sextets s) as (l & Hl & -> & _). induction Hl as [|n l Hn _ IH]; [done|]. cbn [chars forall_byte]. rewrite IH.
  destruct (sextet_char_inv n Hn) as (_ & _ & _ & H). by rewrite (proj2 (Ascii.eqb_neq _ _) H).
Qed.
Close Scope N_scope.

(** ** Verification *)

Section Correct.
Context `{AG : !Argon2} `{AL : !Argon2Laws}.

Lemma parse_phc_own salt hash : salt ≠ EmptyString → hash ≠ EmptyString →
  parse_phc (phc salt hash) = Ok (MkPhcParts argonMemory argonTime argonThreads salt hash).
Proof.
  intros Hs Hh. unfold phc, parse_phc.
  change ("$argon2id$v=" +:+ itoa argon2_Version +:+ "$m=" +:+ itoa argonMemory +:+ ",t=" +:+ itoa argonTime +:+ ",p=" +:+ itoa argonThreads +:+
    "$" +:+ EncodeToString salt +:+ "$" +:+ EncodeToString hash) with
    ("$argon2id$v=19$m=65536,t=1,p=4" +:+ String "$" (EncodeToString salt +:+ String "$" (EncodeToString hash))).
  rewrite split_byte_app, split_byte_app, (split_byte_one _ (EncodeToString salt)), (split_byte_one _ (EncodeToString hash)) by apply Encode_no_dollar.
  cbn [app]. change (split_byte "$" "$argon2id$v=19$m=65536,t=1,p=4") with [EmptyString; "argon2id"; "v=19"; "m=65536,t=1,p=4"]. cbn [app str_empty negb orb].
  rewrite bool_decide_true by done. cbn [negb]. rewrite !Decode_Encode.
  match goal with |- context [map_err ?f (r ← scan_lit "v=" _; _)] => replace (map_err f (r ← scan_lit "v=" "v=19"; scan_number true max_int64 r)) with (Ok (E := string) (19, EmptyString)%Z) by by vm_compute end.
  cbn [mbind result_bind]. rewrite bool_decide_true by done. cbn [negb].
  match goal with |- (?m ≫= _) = _ => replace m with (Ok (E := string) (65536, 1, 4)%Z) by by vm_compute end.
  cbn [mbind result_bind map_err Z.eqb orb]. rewrite (proj2 (str_empty_false _) Hs), (proj2 (str_empty_false _) Hh). done.
Qed.

Lemma bind_ok {E A B} (m : result E A) (f : A → result E B) b : m ≫= f = Ok b → ∃ a, m = Ok a ∧ f a = Ok b.
Proof. destruct m as [a|]; [by exists a|done]. Qed.
Lemma span_all_digits P s d r : span_byte P s = (d, r) → forall_byte P d = true.
Proof.
  revert d r. induction s as [|c s IH]; intros d r; cbn; [by intros [= <- <-]|]. destruct (P c) eqn:Ec; [|by intros [= <- <-]].
  destruct (span_byte P s) as [k r'] eqn:E. intros [= <- <-]. cbn. rewrite Ec. by eapply IH.
Qed.
Lemma scan_unsigned hi s n r : scan_number false hi s = Ok (n, r) → (0 ≤ n ≤ hi)%Z.
Proof.
  unfold scan_number. intros (s' & _ & H)%bind_ok. assert (∃ x, match s' with String c r => if false && (Ascii.eqb c "+" || Ascii.eqb c "-") then (Ascii.eqb c "-", r) else (false, s') | EmptyString => (false, s') end = (false, x)) as [x Hx].
  { destruct s'; by eexists. } rewrite Hx in H. destruct (span_byte is_digit_byte x) as [d rest] eqn:E. apply span_all_digits in E.
  destruct (str_empty x), (str_empty d), (hi <? digits_value d)%Z eqn:Eh; try done. injection H as <- _. to_arith. split; [by apply (digits_from_ge 0)|done].
Qed.
(** A PHC hash that is read has parameters argon2 runs with. *)
Lemma parse_phc_valid encoded h : parse_phc encoded = Ok h →
  (1 ≤ ph_time h)%Z ∧ (1 ≤ ph_threads h)%Z ∧ (1 ≤ ph_memory h)%Z ∧ (1 ≤ Z.of_nat (slen (ph_hash h)))%Z ∧ ph_salt h ≠ EmptyString.
Proof.
  unfold parse_phc. destruct (split_byte _ _) as [|p0 [|p1 [|p2 [|p3 [|p4 [|p5 [|]]]]]]]; try done. destruct (_ || _); [done|].
  intros ([version r0] & _ & H)%bind_ok. destruct (negb _); [done|]. apply bind_ok in H as ([[m t] p] & Hm%map_err_ok & H).
  apply bind_ok in H as (salt & _ & H). apply bind_ok in H as (hash & _ & H).
  apply bind_ok in Hm as (r1 & _ & Hm). apply bind_ok in Hm as ([m' r2] & Hm1%scan_unsigned & Hm). apply bind_ok in Hm as (r3 & _ & Hm).
  apply bind_ok in Hm as ([t' r4] & Ht%scan_unsigned & Hm). apply bind_ok in Hm as (r5 & _ & Hm). apply bind_ok in Hm as ([p' r6] & Hp%scan_unsigned & Hm).
  injection Hm as <- <- <-. destruct (_ || _) eqn:E; [done|]. injection H as <-. split_and_all. to_arith. cbn. split_and!; try lia.
  - destruct hash; [done|]. cbn. lia.
  - by destruct salt.
Qed.

(** A password is checked against what was hashed: verification of a hash
    compares the derived keys, and never fails on a hash of the server's own. *)
Theorem HashPassword_verifies (salt pw pw' encoded : string) (Hs : salt ≠ EmptyString)
    (Hh : HashPassword (Ok salt) pw = Some (Ok encoded)) :
  VerifyPassword pw' encoded = Some (Ok (bool_decide
    (IDKey pw' salt argonTime argonMemory argonThreads argonKeyLen = IDKey pw salt argonTime argonMemory argonThreads argonKeyLen))).
Proof.
  unfold HashPassword in Hh. destruct (IDKey pw salt _ _ _ _) as [hash|] eqn:E; [|done]. injection Hh as <-.
  pose proof (IDKey_length pw salt argonTime argonMemory argonThreads argonKeyLen _ ltac:(done) E) as Hl. unfold VerifyPassword. rewrite parse_phc_own; [|done|by intros ->]. cbn [ph_salt ph_time ph_memory ph_threads ph_hash].
  rewrite Hl. destruct (IDKey pw' salt _ _ _ _) as [k|] eqn:E'; [|by destruct (IDKey_runs pw' salt argonTime argonMemory argonThreads argonKeyLen)].
  cbn. do 3 f_equal. apply bool_decide_ext. naive_solver.
Qed.
(** No stored hash makes the verification panic: whatever the string, the key
    is derived only with parameters argon2 accepts, and a malformed hash is an
    error. *)
Theorem VerifyPassword_never_panics (pw encoded : string) : VerifyPassword pw encoded ≠ None.
Proof.
  unfold VerifyPassword. destruct (parse_phc encoded) as [h|] eqn:E; [|done]. destruct (parse_phc_valid _ _ E) as (H1 & H2 & _ & H4 & _).
  destruct (IDKey _ _ _ _ _ _) eqn:Ek; [done|]. by apply IDKey_runs in Ek.
Qed.
End Correct.

Module PasswordExamples.
(** A key that only has the right length. *)
#[local] Instance toy : Argon2 := {|
  IDKey pw salt t m p n := if (t <? 1)%Z || (p <? 1)%Z then None
    else Some (list_str (take (Z.to_nat n) (str_list (pw +:+ salt) ++ replicate (Z.to_nat n) "0"%char))) |}.
#[local] Instance toy_laws : Argon2Laws.
Proof.
  split.
  - intros pw salt t m p n Ht Hp _. cbn. destruct (t <? 1)%Z eqn:E1, (p <? 1)%Z eqn:E2; to_arith; done || lia.
  - cbn. intros pw salt t m p n k Hn. destruct (_ || _); [done|]. intros [= <-].
    assert (∀ l, slen (list_str l) = length l) as -> by (intros l; induction l; cbn; [done|]; by f_equal).
    rewrite length_take, length_app, length_replicate. lia.
Qed.
Definition stored : string := phc "salt" (list_str (take 32 (str_list ("hunter2" +:+ "salt") ++ replicate 32 "0"%char))).
Lemma HashPassword_verifies_witness : VerifyPassword "hunter2" stored = Some (Ok true) ∧ VerifyPassword "hunter3" stored = Some (Ok false).
Proof.
  split; (etrans; [apply (HashPassword_verifies "salt" "hunter2"); done|]); by vm_compute.
Defined.
Lemma VerifyPassword_never_panics_witness : VerifyPassword "pw" "$argon2id$v=19$m=1,t=0,p=1$QQ$QQ" ≠ None.
Proof. apply (VerifyPassword_never_panics "pw"). Defined.
Example degenerate_refused : VerifyPassword "pw" "$argon2id$v=19$m=1,t=0,p=1$QQ$QQ" = Some (Err "invalid argon2 parameters").
Proof. by vm_compute. Qed.
(** Sscanf stops where its format does: what follows a number is not read. *)
Example trailing_text_ignored : is_ok (parse_phc "$argon2id$v=19x$m=1,t=1,p=1 and more$QQ$QQ") = true.
Proof. by vm_compute. Qed.
End PasswordExamples.
