(* ===== verification/Calls.v ===== *)
(** * Calls: operations that talk to services which may fail

    The shape of the operations of the API server on its database, on OpenFGA
    and on the cluster: a process makes calls one after the other, each call takes
    effect in one step on a shared world and may fail before its effect, fail
    after it, or be the last thing its process does.  With it, a small logic for
    what holds when an operation ends, and what holds when it was cut short. *)

From S2P Require Import Prelude.

Inductive outcome : Type :=
| Done
| Failed (msg : string)
| Lost (msg : string)  (** the call took effect, its answer was an error *)
| Crashed (applied : bool).  (** the process ended during the call *)
(** What happens to the next call, the ids that are drawn, the order in which a
    list call returns its items. *)
Class Faults (X : Type) : Type := {
  fault : X → X * outcome;
  uuid_New : X → X * string;
  list_order : ∀ {A : Type}, list A → X → X * list A;
  list_order_perm : ∀ A (l : list A) x, (list_order l x).2 ≡ₚ l;
}.

(** A process on a world [W]: [None] when it ended before the operation did. *)
Definition Op (W X A : Type) : Type := W * X → (W * X) * option A.
#[export] Instance Op_ret {W X} : MRet (Op W X) := λ A a s, (s, Some a).
#[export] Instance Op_bind {W X} : MBind (Op W X) := λ A B f m s,
  match m s with (s', Some a) => f a s' | (s', None) => (s', None) end.
(** [v, err := m; if err != nil { return ..., err }]. *)
Definition try_op {W X E A B} (m : Op W X (result E A)) (f : A → Op W X (result E B)) : Op W X (result E B) :=
  r ← m; match r with Ok a => f a | Err e => mret (Err e) end.
(** [_ = m], or an error that is only logged. *)
Definition ignore {W X A} (m : Op W X A) : Op W X () := _ ← m; mret ().
(** [for _, x := range l { ... }]. *)
Fixpoint for_each {W X A} (f : A → Op W X ()) (l : list A) : Op W X () :=
  match l with [] => mret () | x :: l => _ ← f x; for_each f l end.

Section Calls.
Context {W X : Type} `{F : !Faults X}.

(** One call, with its effect and its answer when it is answered. *)
Definition call {A} (f : W → W * A) : Op W X (result string A) := λ s,
  let (x, o) := fault s.2 in
  let (w, a) := f s.1 in
  match o with
  | Done => ((w, x), Some (Ok a))
  | Failed m => ((s.1, x), Some (Err m))
  | Lost m => ((w, x), Some (Err m))
  | Crashed applied => ((if applied then w else s.1, x), None)
  end.
(** A call whose answer may itself be an error. *)
Definition call_err {A} (f : W → W * result string A) : Op W X (result string A) :=
  r ← call f; mret (match r with Ok r => r | Err e => Err e end).
Definition read {A} (f : W → A) : Op W X (result string A) := call (λ w, (w, f w)).
Definition local {A} (f : W → A) : Op W X A := λ s, (s, Some (f s.1)).
(** A step inside the process. *)
Definition internal {A} (f : W → W * A) : Op W X A := λ s, let (w, a) := f s.1 in ((w, s.2), Some a).
(** The process ends: a panic. *)
Definition panic {A} : Op W X A := λ s, (s, None).
Definition new_uuid : Op W X string := λ s, let (x, id) := uuid_New s.2 in ((s.1, x), Some id).
Definition in_order {A} (l : list A) : Op W X (list A) := λ s,
  let (x, l') := list_order l s.2 in ((s.1, x), Some l').

(** ** What holds at the end, and what holds after a crash *)

Definition wp {A} (C : W → Prop) (m : Op W X A) (Q : A → W → Prop) (w : W) : Prop :=
  ∀ x, match m (w, x) with ((w', _), Some a) => Q a w' | ((w', _), None) => C w' end.
Lemma wp_mono {A} (C C' : W → Prop) (m : Op W X A) Q Q' w :
  wp C m Q w → (∀ w, C w → C' w) → (∀ a w, Q a w → Q' a w) → wp C' m Q' w.
Proof. intros H HC HQ x. specialize (H x). destruct (m (w, x)) as [[w' x'] [a|]]; auto. Qed.
Lemma wp_op_ret {A} C (a : A) Q w : Q a w → wp C (mret a) Q w.
Proof. by intros H x. Qed.
Lemma wp_op_bind {A B} C (m : Op W X A) (f : A → Op W X B) Q w : wp C m (λ a, wp C (f a) Q) w → wp C (m ≫= f) Q w.
Proof.
  intros H x. specialize (H x). unfold mbind, Op_bind. destruct (m (w, x)) as [[w' x'] [a|]]; [|done]. apply H.
Qed.
Lemma wp_call {A} C (f : W → W * A) (Q : result string A → W → Prop) w :
  Q (Ok (f w).2) (f w).1 → (∀ m, Q (Err m) w) → (∀ m, Q (Err m) (f w).1) → C w → C (f w).1 → wp C (call f) Q w.
Proof.
  intros Hd Hf Hl HC HC' x. unfold call. cbn. destruct (fault x) as [x' o]. destruct (f w) as [w' a]. cbn in *. destruct o as [| | |[]]; auto.
Qed.
Lemma wp_read {A} C (f : W → A) (Q : result string A → W → Prop) w :
  C w → Q (Ok (f w)) w → (∀ m, Q (Err m) w) → wp C (read f) Q w.
Proof. intros HC Hd He. by apply wp_call. Qed.
Lemma wp_local {A} C (f : W → A) Q w : Q (f w) w → wp C (local f) Q w.
Proof. by intros H x. Qed.
Lemma wp_internal {A} C (f : W → W * A) (Q : A → W → Prop) w : Q (f w).2 (f w).1 → wp C (internal f) Q w.
Proof. intros H x. unfold internal. cbn. by destruct (f w). Qed.
Lemma wp_panic {A} (C : W → Prop) (Q : A → W → Prop) w : C w → wp C panic Q w.
Proof. by intros H x. Qed.
Lemma wp_new_uuid C Q w : (∀ id, Q id w) → wp C new_uuid Q w.
Proof. intros H x. unfold new_uuid. cbn. destruct (uuid_New x). apply H. Qed.
Lemma wp_in_order {A} C (l : list A) Q w : (∀ l', l' ≡ₚ l → Q l' w) → wp C (in_order l) Q w.
Proof. intros H x. unfold in_order. cbn. pose proof (list_order_perm _ l x). destruct (list_order l x). by apply H. Qed.
Lemma wp_op_try {E A B} C (m : Op W X (result E A)) (f : A → Op W X (result E B)) Q w :
  wp C m (λ r w, match r with Ok a => wp C (f a) Q w | Err e => Q (Err e) w end) w → wp C (try_op m f) Q w.
Proof. intros H. apply wp_op_bind. eapply wp_mono; [exact H|done|]. intros [a|e] w' Ha; [done|by apply wp_op_ret]. Qed.
Lemma wp_ignore {A} C (m : Op W X A) Q w : wp C m (λ _, Q ()) w → wp C (ignore m) Q w.
Proof. intros H. apply wp_op_bind. eapply wp_mono; [exact H|done|]. intros a w' Ha. by apply wp_op_ret. Qed.
(** A loop that keeps an invariant. *)
Lemma wp_for_each {A} C (f : A → Op W X ()) (I : list A → W → Prop) l w :
  (∀ x l w, I (x :: l) w → wp C (f x) (λ _, I l) w) → I l w → wp C (for_each f l) (λ _, I []) w.
Proof.
  intros Hf. revert w. induction l as [|a l IH]; intros w Hw; cbn [for_each]; [by apply wp_op_ret|].
  apply wp_op_bind. eapply wp_mono; [by apply Hf|done|]. intros [] w' Hw'. by apply IH.
Qed.
(** An operation that keeps [I] wherever it ends or is cut short. *)
Definition keeps (I : W → Prop) {A} (m : Op W X A) : Prop := ∀ w, I w → wp I m (λ _, I) w.
Lemma keeps_op_ret {A} I (a : A) : keeps I (mret a).
Proof. intros w Hw. by apply wp_op_ret. Qed.
Lemma keeps_op_bind {A B} I (m : Op W X A) (f : A → Op W X B) : keeps I m → (∀ a, keeps I (f a)) → keeps I (m ≫= f).
Proof. intros Hm Hf w Hw. apply wp_op_bind. eapply wp_mono; [by apply Hm|done|]. intros a w' Hw'. by apply Hf. Qed.
Lemma keeps_try {E A B} I (m : Op W X (result E A)) (f : A → Op W X (result E B)) : keeps I m → (∀ a, keeps I (f a)) → keeps I (try_op m f).
Proof. intros Hm Hf. apply keeps_op_bind; [done|]. intros [a|e]; [apply Hf|apply keeps_op_ret]. Qed.
Lemma keeps_ignore {A} I (m : Op W X A) : keeps I m → keeps I (ignore m).
Proof. intros Hm. apply keeps_op_bind; [done|]. intros a. apply keeps_op_ret. Qed.
Lemma keeps_op_call {A} (I : W → Prop) (f : W → W * A) : (∀ w, I w → I (f w).1) → keeps I (call f).
Proof. intros Hf w Hw. apply wp_call; auto. Qed.
Lemma keeps_read {A} (I : W → Prop) (f : W → A) : keeps I (read f).
Proof. by apply keeps_op_call. Qed.
Lemma keeps_call_err {A} (I : W → Prop) (f : W → W * result string A) : (∀ w, I w → I (f w).1) → keeps I (call_err f).
Proof. intros Hf. apply keeps_op_bind; [by apply keeps_op_call|]. intros r. apply keeps_op_ret. Qed.
Lemma keeps_local {A} (I : W → Prop) (f : W → A) : keeps I (local f).
Proof. intros w Hw. by apply wp_local. Qed.
Lemma keeps_new_uuid (I : W → Prop) : keeps I new_uuid.
Proof. intros w Hw. by apply wp_new_uuid. Qed.
Lemma keeps_in_order {A} (I : W → Prop) (l : list A) : keeps I (in_order l).
Proof. intros w Hw. by apply wp_in_order. Qed.
Lemma keeps_for_each {A} I (f : A → Op W X ()) l : (∀ x, x ∈ l → keeps I (f x)) → keeps I (for_each f l).
Proof.
  induction l as [|x l IH]; intros Hf; cbn [for_each]; [apply keeps_op_ret|]. apply keeps_op_bind; [apply Hf; by left|]. intros _. apply IH. intros y Hy. apply Hf. by right.
Qed.
End Calls.

(** One step of an operation that keeps an invariant. *)
Ltac keeps_step :=
  match goal with
  | |- keeps _ (mret _) => apply keeps_op_ret
  | |- keeps _ (_ ≫= _) => apply keeps_op_bind; [|intros ?]
  | |- keeps _ (try_op _ _) => apply keeps_try; [|intros ?]
  | |- keeps _ (ignore _) => apply keeps_ignore
  | |- keeps _ (read _) => apply keeps_read
  | |- keeps _ (local _) => apply keeps_local
  | |- keeps _ new_uuid => apply keeps_new_uuid
  | |- keeps _ (in_order _) => apply keeps_in_order
  | |- keeps _ (match ?x with _ => _ end) => destruct x
  end.

(** ** Calls that do not fail *)

Class Reliable (X : Type) `{F : !Faults X} : Prop := reliable : ∀ x : X, (fault x).2 = Done.
Lemma call_done {W X A} `{F : !Faults X} `{RL : !Reliable X} (f : W → W * A) w x :
  call f (w, x) = (((f w).1, (fault x).1), Some (Ok (f w).2)).
Proof. unfold call. cbn. pose proof (reliable x) as Hx. destruct (fault x) as [x' o]. cbn in Hx. subst o. by destruct (f w). Qed.
Lemma wp_call_done {W X A} `{F : !Faults X} `{RL : !Reliable X} C (f : W → W * A) (Q : result string A → W → Prop) w :
  Q (Ok (f w).2) (f w).1 → wp C (call f) Q w.
Proof. intros H x. by rewrite call_done. Qed.

(** ** Scripted calls, for examples *)

Module Scripted.
(** The outcomes of the next calls, then all are done; the ids to draw. *)
Definition script : Type := list outcome * list string.
#[export] Instance scripted : Faults script := {|
  fault x := match x.1 with o :: l => ((l, x.2), o) | [] => (x, Done) end;
  uuid_New x := match x.2 with id :: l => ((x.1, l), id) | [] => (x, EmptyString) end;
  list_order A l x := (x, l);
  list_order_perm A l x := Permutation_refl l;
|}.
(** No call fails. *)
#[export] Instance sure : Faults () := {|
  fault x := (x, Done); uuid_New x := (x, "new"); list_order A l x := (x, l); list_order_perm A l x := Permutation_refl l |}.
#[export] Instance sure_reliable : Reliable ().
Proof. by intros []. Qed.
End Scripted.
