(* ===== verification/Authn.v ===== *)
(** * Authn: who a request comes from
      (pkg/pipelineapi/auth: ratelimit.go, session.go, resolver.go,
       bearer_resolver.go, middleware.go; pkg/pipelineapi/http: auth_handlers.go,
       cli_token_handler.go; pkg/pipelineapi/queryproxy/gate.go)

    Sessions and users in the database, the rate limiter of the login from the
    command line, the resolvers and the login, logout and token handlers.  The
    body of a request is what readJSON made of it, its key for the limiter the
    client's address. *)

From S2P Require Import Prelude GoTime CommitPool Tokens Password Calls.

(** ** The limiter and the gate *)

Record bucket := MkBucket { b_count : Z; b_reset : Z }.
Record Limiter := MkLimiter { l_buckets : gmap string bucket; l_rate : Z; l_window : Z }.
Definition NewLimiter (rate window : Z) : Limiter := MkLimiter ∅ rate window.
Definition put_bucket (key : string) (b : bucket) (l : Limiter) : Limiter :=
  MkLimiter (<[key := b]> (l_buckets l)) (l_rate l) (l_window l).
Definition Allow (now : Z) (key : string) (l : Limiter) : Limiter * bool :=
  if (l_rate l <=? 0)%Z then (l, false)
  else
    let fresh := (put_bucket key (MkBucket 1 (now + l_window l)) l, true) in
    match l_buckets l !! key with
    | None => fresh
    | Some b =>
      if (b_reset b <? now)%Z then fresh
      else if (l_rate l <=? b_count b)%Z then (l, false)
      else (put_bucket key (MkBucket (b_count b + 1) (b_reset b)) l, true)
    end.

(** The in-flight queries of each principal, and the cap. *)
Record gate := MkGate { g_inflight : gmap string Z; g_cap : Z }.
Definition newGate (capacity : Z) : gate := MkGate ∅ (if (capacity <? 1)%Z then 1 else capacity).
Definition held (g : gate) (sub : string) : Z := default 0%Z (g_inflight g !! sub).
Definition Acquire (sub : string) (g : gate) : gate * bool :=
  if (g_cap g <=? held g sub)%Z then (g, false)
  else (MkGate (<[sub := (held g sub + 1)%Z]> (g_inflight g)) (g_cap g), true).
Definition Release (sub : string) (g : gate) : gate :=
  if (held g sub <=? 1)%Z then MkGate (delete sub (g_inflight g)) (g_cap g)
  else MkGate (<[sub := (held g sub - 1)%Z]> (g_inflight g)) (g_cap g).

(** ** Users and sessions *)

Record UserRow := MkUserRow { us_ID : string; us_Email : string; us_PasswordHash : string; us_Disabled : bool }.
Record Session := MkSession { ss_UserID : string; ss_CreatedAt : Z; ss_ExpiresAt : Z; ss_LastSeenAt : Z }.
(** The tables, the limiter of the process, and the time. *)
Record AuthWorld := MkAuthWorld {
  a_now : Z;
  a_users : list UserRow;
  a_sessions : gmap string Session;
  a_limiter : option Limiter;
}.
Definition set_sessions (m : gmap string Session) (w : AuthWorld) : AuthWorld := MkAuthWorld (a_now w) (a_users w) m (a_limiter w).
Definition set_limiter (l : option Limiter) (w : AuthWorld) : AuthWorld := MkAuthWorld (a_now w) (a_users w) (a_sessions w) l.
Definition SessionLifetime : Z := 24 * 3600 * second.
Definition live (now : Z) (s : Session) : bool := (now <? ss_ExpiresAt s)%Z.

(** Answers of the handlers. *)
Inductive response : Type :=
| RError (status : Z) (msg : string)
| RCookie (value : string) (max_age : Z)  (** 204 *)
| RTokens (token : string) (exp : Z) (user api_token : string) (api_exp : Z)
| RNext (u : User) (refreshed : option string).  (** to the handler, with the cookie that is set again *)

Section Auth.
Context `{UT : !UnicodeTables} `{PL : !PoolLib} `{J : !Jwt} `{UL : !UuidLib} `{AG : !Argon2} {X : Type} `{F : !Faults X}.

Definition find_user (P : UserRow → bool) (w : AuthWorld) : option UserRow := find P (a_users w).
Definition to_user (u : UserRow) : User := MkUser (us_ID u) (us_Disabled u).
Definition GetUserByID (id : string) : Op AuthWorld X (result user_error User) :=
  r ← read (find_user (λ u, bool_decide (us_ID u = id)));
  mret (match r with
        | Ok (Some u) => Ok (to_user u)
        | Ok None => Err ErrUserNotFound
        | Err e => Err (UserError ("select user: " +:+ e))
        end).
Definition GetUserByEmail (email : string) : Op AuthWorld X (result user_error UserRow) :=
  r ← read (find_user (λ u, bool_decide (us_Email u = email)));
  mret (match r with
        | Ok (Some u) => Ok u
        | Ok None => Err ErrUserNotFound
        | Err e => Err (UserError ("select user: " +:+ e))
        end).

Definition new_session (user : string) (now : Z) : Session := MkSession user now (now + SessionLifetime) now.
(** gen_random_uuid draws the key. *)
Definition CreateSession (user : string) : Op AuthWorld X (result string string) :=
  id ← new_uuid;
  r ← call_err (λ w, match a_sessions w !! id with
                     | Some _ => (w, Err "duplicate key value violates unique constraint")
                     | None => (set_sessions (<[id := new_session user (a_now w)]> (a_sessions w)) w, Ok id)
                     end);
  mret (map_err (λ e, "insert session: " +:+ e) r).
Inductive session_error : Type := ErrSessionNotFound | SessionError (msg : string).
Definition find_session (id : string) (w : AuthWorld) : option Session :=
  s ← a_sessions w !! id; if live (a_now w) s then Some s else None.
Definition LookupSession (id : string) : Op AuthWorld X (result session_error Session) :=
  r ← read (find_session id);
  mret (match r with Ok (Some s) => Ok s | Ok None => Err ErrSessionNotFound | Err e => Err (SessionError ("lookup: " +:+ e)) end).
Definition touch (id : string) (w : AuthWorld) : AuthWorld :=
  match a_sessions w !! id with
  | Some s =>
    if live (a_now w) s
    then set_sessions (<[id := MkSession (ss_UserID s) (ss_CreatedAt s) (a_now w + SessionLifetime) (a_now w)]> (a_sessions w)) w
    else w
  | None => w
  end.
Definition TouchSession (id : string) : Op AuthWorld X (result string ()) := call (λ w, (touch id w, ())).
Definition drop_session (id : string) (w : AuthWorld) : AuthWorld := set_sessions (delete id (a_sessions w)) w.
Definition DeleteSession (id : string) : Op AuthWorld X (result string ()) := call (λ w, (drop_session id w, ())).

(** ** Resolvers *)

(** A request: its session cookie and its Authorization header. *)
Record Request := MkRequest { rq_cookie : option string; rq_authz : string }.
(** The user and the cookie that is set again, nobody, or an error. *)
Abbreviation resolved := (result string (option (User * option string))).
Definition Postgres_UserFor (r : Request) : Op AuthWorld X resolved :=
  match v ← rq_cookie r; sid ← uuid_Parse v; Some (v, sid) with
  | None => mret (Ok None)
  | Some (v, sid) =>
    s ← LookupSession sid;
    match s with
    | Err ErrSessionNotFound => mret (Ok None)
    | Err (SessionError e) => mret (Err ("session lookup: " +:+ e))
    | Ok s =>
      u ← GetUserByID (ss_UserID s);
      match u with
      | Err ErrUserNotFound => mret (Ok None)
      | Err (UserError e) => mret (Err ("user lookup: " +:+ e))
      | Ok u =>
        if u_Disabled u then mret (Ok None)
        else _ ← TouchSession sid; mret (Ok (Some (u, Some v)))
      end
    end
  end.
Definition Bearer_resolve (key : public_key) (KeyID : string) (r : Request) : Op AuthWorld X resolved :=
  now ← local a_now;
  match Bearer_subject now key KeyID (rq_authz r) with
  | None => mret (Ok None)
  | Some uid =>
    u ← GetUserByID uid;
    mret (match Bearer_user u with Err e => Err e | Ok None => Ok None | Ok (Some u) => Ok (Some (u, None)) end)
  end.
Fixpoint Chain_UserFor (children : list (Request → Op AuthWorld X resolved)) (r : Request) : Op AuthWorld X resolved :=
  match children with
  | [] => mret (Ok None)
  | child :: children =>
    u ← child r;
    match u with
    | Err e => mret (Err e)
    | Ok (Some u) => mret (Ok (Some u))
    | Ok None => Chain_UserFor children r
    end
  end.
Definition WithUser (resolver : Request → Op AuthWorld X resolved) (r : Request) : Op AuthWorld X response :=
  u ← resolver r;
  mret (match u with
        | Err _ => RError 500 "auth error"
        | Ok None => RError 401 "not authenticated"
        | Ok (Some (u, cookie)) => RNext u cookie
        end).

(** ** Handlers *)

Variable dummyPasswordHash : string.
(** The user whose password this is. *)
Definition check_password (email password : string) (k : result response UserRow → Op AuthWorld X response) : Op AuthWorld X response :=
  u ← GetUserByEmail email;
  match u with
  | Err (UserError _) => k (Err (RError 500 "authentication temporarily unavailable"))
  | _ =>
    let stored := match u with Ok u => us_PasswordHash u | Err _ => dummyPasswordHash end in
    match VerifyPassword password stored with
    | None => panic
    | Some v =>
      match u, v with
      | Ok u, Ok true => if us_Disabled u then k (Err (RError 401 "invalid credentials")) else k (Ok u)
      | _, _ => k (Err (RError 401 "invalid credentials"))
      end
    end
  end.
Definition credentials (body : result string (string * string)) (k : string → string → Op AuthWorld X response) : Op AuthWorld X response :=
  match body with
  | Err _ => mret (RError 400 "invalid request body")
  | Ok (email, password) =>
    if str_empty email || str_empty password then mret (RError 400 "email and password required") else k email password
  end.
Definition handleLogin (body : result string (string * string)) : Op AuthWorld X response :=
  credentials body (λ email password, check_password email password (λ u,
  match u with
  | Err r => mret r
  | Ok u =>
    sid ← CreateSession (us_ID u);
    mret (match sid with
          | Err _ => RError 500 "could not create session"
          | Ok sid => RCookie sid (SessionLifetime / second)
          end)
  end)).
Definition handleLogout (r : Request) : Op AuthWorld X response :=
  match v ← rq_cookie r; uuid_Parse v with
  | None => mret (RCookie EmptyString (-1))
  | Some sid => d ← DeleteSession sid; mret (match d with Err _ => RError 500 "logout failed" | Ok _ => RCookie EmptyString (-1) end)
  end.
Definition allow_client (ip : string) (w : AuthWorld) : AuthWorld * bool :=
  match a_limiter w with
  | None => (w, true)
  | Some l => let (l, ok) := Allow (a_now w) ip l in (set_limiter (Some l) w, ok)
  end.
Definition handleCLIToken (signer : option Signer) (lifetime_env ip : string) (body : result string (string * string)) : Op AuthWorld X response :=
  ok ← internal (allow_client ip);
  if negb ok then mret (RError 429 "rate limit exceeded")
  else credentials body (λ email password, check_password email password (λ u,
  match u with
  | Err r => mret r
  | Ok u =>
    now ← local a_now;
    let ttl := cliTokenLifetime lifetime_env in
    mret (match MintLocalCLIToken now (Some (us_ID u)) signer ttl with
          | Err _ => RError 500 "could not mint token"
          | Ok (tok, exp) =>
            match MintCLIAPIToken now (Some (us_ID u)) signer ttl with
            | Err _ => RError 500 "could not mint api token"
            | Ok (apiTok, apiExp) => RTokens tok exp (us_ID u) apiTok apiExp
            end
          end)
  end)).
End Auth.

(** ** The limiter bounds the rate *)

(** The granted ones among calls at their times. *)
Fixpoint granted (l : Limiter) (calls : list (Z * string)) : list (Z * string) :=
  match calls with
  | [] => []
  | (now, key) :: calls => let (l, ok) := Allow now key l in (if ok then [(now, key)] else []) ++ granted l calls
  end.
Definition times_of (key : string) (l : list (Z * string)) : list Z := fst <$> filter (λ c, c.2 = key) l.
Definition within (t window : Z) (l : list Z) : nat := length (filter (λ x, t ≤ x ≤ t + window)%Z l).
#[local] Arguments within : simpl never.
Fixpoint in_sequence (from : Z) (calls : list (Z * string)) : Prop :=
  match calls with [] => True | c :: calls => (from ≤ c.1)%Z ∧ in_sequence c.1 calls end.

Lemma within_nil t w : within t w [] = 0%nat.
Proof. done. Qed.
Lemma within_cons t w x l : within t w (x :: l) = ((if decide (t ≤ x ≤ t + w)%Z then 1 else 0) + within t w l)%nat.
Proof. unfold within. rewrite filter_cons. by destruct (decide _). Qed.
Lemma within_app t w l l' : within t w (l ++ l') = (within t w l + within t w l')%nat.
Proof. unfold within. by rewrite filter_app, length_app. Qed.
Lemma limit_within_le t w l : within t w l ≤ length l.
Proof. apply length_filter. Qed.
Lemma within_none t w l : (∀ x, x ∈ l → x < t ∨ t + w < x)%Z → within t w l = 0%nat.
Proof.
  intros H. induction l as [|x l IH]; [done|]. rewrite within_cons, IH by (intros y Hy; apply H; by right).
  destruct (decide _); [|done]. destruct (H x); [by left|lia..].
Qed.

Section LimiterBound.
Variable key : string.
Variable rate window : Z.
Hypothesis Hw : (0 ≤ window)%Z.
(** The calls granted to [key] so far: those of its bucket, and the earlier ones. *)
Definition limited (l : Limiter) (h : list Z) (last : Z) : Prop :=
  l_rate l = rate ∧ l_window l = window ∧ (0 < rate)%Z ∧
  match l_buckets l !! key with
  | None => h = []
  | Some b => ∃ cur old, h = cur ++ old ∧ Z.of_nat (length cur) = b_count b ∧ (b_count b ≤ rate)%Z ∧
      (∀ x, x ∈ cur → b_reset b - window ≤ x ≤ b_reset b)%Z ∧ (∀ x, x ∈ old → x < b_reset b - window)%Z ∧
      (∀ t, (b_reset b - 2 * window ≤ t)%Z → Z.of_nat (within t window old) ≤ rate)%Z ∧
      (∀ t, Z.of_nat (within t window h) ≤ 2 * rate)%Z ∧ (b_reset b - window ≤ last)%Z
  end.
Lemma limited_here l h last now : limited l h last → (last ≤ now)%Z →
  match Allow now key l with
  | (l', true) => limited l' (now :: h) now
  | (l', false) => l' = l
  end.
Proof.
  intros (Hr & Hwin & Hpos & Hb) Hnow. unfold Allow. rewrite Hr, Hwin. destruct (rate <=? 0)%Z eqn:E0; to_arith; [done|].
  assert (∀ h : list Z, (∀ x, x ∈ h → x < now)%Z → (∀ t, (now - window ≤ t)%Z → Z.of_nat (within t window h) ≤ rate)%Z → (∀ t, Z.of_nat (within t window h) ≤ 2 * rate)%Z →
    limited (put_bucket key (MkBucket 1 (now + window)) l) (now :: h) now) as Hfresh.
  { intros h' Hlt Hrec Hall. split_and!; [done..|]. cbn. rewrite lookup_insert_eq. exists [now], h'. cbn [b_count b_reset app length]. split_and!; try done; try lia.
    - intros x ->%list_elem_of_singleton. lia.
    - intros x Hx. pose proof (Hlt x Hx). lia.
    - intros t Ht. apply Hrec. lia.
    - intros t. rewrite within_cons. destruct (decide _); [|specialize (Hall t); lia]. assert (now - window ≤ t)%Z as Ht by lia. specialize (Hrec t Ht). lia. }
  destruct (l_buckets l !! key) as [b|] eqn:Eb; [|subst h; apply Hfresh; [intros x Hx; by apply elem_of_nil in Hx|intros; rewrite within_nil; lia..]].
  destruct Hb as (cur & old & -> & Hlen & Hle & Hcur & Hold & Hrec & Hall & Hlast). destruct (b_reset b <? now)%Z eqn:E1; to_arith.
  - apply Hfresh; [| |done].
    + intros x [Hx|Hx]%elem_of_app; [specialize (Hcur x Hx)|specialize (Hold x Hx)]; lia.
    + intros t Ht. rewrite within_app, (within_none _ _ old) by (intros x Hx; specialize (Hold x Hx); lia).
      pose proof (limit_within_le t window cur). lia.
  - destruct (rate <=? b_count b)%Z eqn:E2; to_arith; [done|]. split_and!; [done..|]. cbn. rewrite lookup_insert_eq. exists (now :: cur), old. cbn [b_count b_reset].
    split_and!; try done; try lia.
    + cbn. lia.
    + intros x [->|Hx]%elem_of_cons; [lia|by apply Hcur].
    + intros t. change (now :: cur ++ old) with ((now :: cur) ++ old). rewrite within_app. pose proof (limit_within_le t window (now :: cur)) as Hc. cbn [length] in Hc.
      destruct (decide (t ≤ now ≤ t + window)%Z).
      * assert (b_reset b - 2 * window ≤ t)%Z as Ht by lia. specialize (Hrec t Ht). lia.
      * rewrite within_cons, decide_False by done. specialize (Hall t). rewrite within_app in Hall. lia.
Qed.
Lemma limited_later l l' h last now : limited l h last → (last ≤ now)%Z → l_rate l' = l_rate l → l_window l' = l_window l →
  l_buckets l' !! key = l_buckets l !! key → limited l' h now.
Proof.
  intros (Hr & Hwin & Hpos & Hb) Hnow Er Ew Eb. split_and!; [congruence..|done|]. rewrite Eb. destruct (l_buckets l !! key); [|done].
  destruct Hb as (cur & old & H1 & H2 & H3 & H4 & H5 & H6 & H7 & H8). exists cur, old. split_and!; try done. lia.
Qed.
Lemma limited_other l h last now key' : key' ≠ key → limited l h last → (last ≤ now)%Z → limited (Allow now key' l).1 h now.
Proof.
  intros Hk Hl Hnow. assert (∀ b, limited (put_bucket key' b l) h now) as Hput.
  { intros b. eapply limited_later; [done..|]. cbn. by rewrite lookup_insert_ne. }
  assert (limited l h now) as Hl' by by eapply limited_later.
  unfold Allow. destruct (_ <=? _)%Z; [done|]. destruct (l_buckets l !! key') as [b|]; [|apply Hput]. destruct (_ <? _)%Z; [apply Hput|].
  destruct (_ <=? _)%Z; [done|apply Hput].
Qed.
Lemma granted_bound l h last calls t : limited l h last → in_sequence last calls →
  (Z.of_nat (within t window h + within t window (times_of key (granted l calls))) ≤ 2 * rate)%Z.
Proof.
  revert l h last. induction calls as [|[now k] calls IH]; intros l h last Hl Hs.
  - cbn [granted times_of]. change (times_of key []) with (@nil Z). rewrite within_nil, Nat.add_0_r. destruct Hl as (_ & _ & Hpos & Hb). destruct (l_buckets l !! key) as [b|]; [|subst; rewrite within_nil; lia].
    destruct Hb as (cur & old & -> & _ & _ & _ & _ & _ & Hall & _). apply Hall.
  - destruct Hs as [Hn Hs]. cbn in Hn, Hs. cbn [granted]. destruct (decide (k = key)) as [->|Hk].
    + pose proof (limited_here l h last now Hl Hn) as Hl'. destruct (Allow now key l) as [l' []].
      * specialize (IH l' (now :: h) now Hl' Hs). unfold times_of in *. rewrite filter_app, fmap_app, within_app. rewrite filter_cons_True by done.
        cbn [filter list_filter fmap list_fmap]. rewrite within_cons in *. rewrite within_nil. cbn [fst] in *. lia.
      * subst l'. cbn [app]. apply (IH l h now); [|done]. by eapply limited_later.
    + pose proof (limited_other l h last now k Hk Hl Hn) as Hl'. destruct (Allow now k l) as [l' ok]. specialize (IH l' h now Hl' Hs).
      unfold times_of in *. rewrite filter_app, fmap_app, within_app. destruct ok; [|exact IH]. rewrite filter_cons_False by done. exact IH.
Qed.
(** The limiter after some calls. *)
Definition after_calls (l : Limiter) (calls : list (Z * string)) : Limiter := foldl (λ l c, (Allow c.1 c.2 l).1) l calls.
Lemma limited_after l h last calls calls' : limited l h last → in_sequence last (calls ++ calls') →
  ∃ last', limited (after_calls l calls) (reverse (times_of key (granted l calls)) ++ h) last' ∧ in_sequence last' calls'.
Proof.
  revert l h last. induction calls as [|[now k] calls IH]; intros l h last Hl Hs; [by exists last|]. destruct Hs as [Hn Hs]. cbn [fst] in Hn, Hs. unfold after_calls. cbn [foldl granted fst snd].
  destruct (decide (k = key)) as [->|Hk].
  - pose proof (limited_here l h last now Hl Hn) as Hl'. destruct (Allow now key l) as [l' []]; cbn [fst].
    + destruct (IH l' (now :: h) now Hl' Hs) as (last' & H1 & H2). exists last'. split; [|done]. unfold times_of in *. rewrite filter_app, fmap_app, filter_cons_True by done.
      cbn [filter list_filter fmap list_fmap app fst]. by rewrite reverse_cons, <- app_assoc.
    + subst l'. apply (IH l h now); [|done]. by eapply limited_later.
  - pose proof (limited_other l h last now k Hk Hl Hn) as Hl'. destruct (Allow now k l) as [l' ok]. cbn [fst] in *. destruct (IH l' h now Hl' Hs) as (last' & H1 & H2).
    exists last'. split; [|done]. unfold times_of in *. rewrite filter_app, fmap_app. destruct ok; [|exact H1]. rewrite filter_cons_False by done. exact H1.
Qed.
Lemma Allow_bucket now l b : (0 < l_rate l)%Z → l_buckets l !! key = Some b →
  ∃ b', l_buckets (Allow now key l).1 !! key = Some b' ∧ (b_reset b' = b_reset b ∨ (b_reset b < now)%Z ∧ b_reset b' = (now + l_window l)%Z).
Proof.
  intros Hr Hb. unfold Allow. rewrite (proj2 (Z.leb_gt _ _)) by done. rewrite Hb. destruct (Z.ltb_spec (b_reset b) now).
  - eexists. cbn. rewrite lookup_insert_eq. split; [done|]. by right.
  - destruct (_ <=? _)%Z; [by exists b; split; [|left]|]. eexists. cbn. rewrite lookup_insert_eq. split; [done|]. by left.
Qed.
Lemma Allow_other now key' l : key' ≠ key → l_buckets (Allow now key' l).1 !! key = l_buckets l !! key.
Proof.
  intros Hk. unfold Allow. destruct (_ <=? _)%Z; [done|]. destruct (l_buckets l !! key') as [b|]; [destruct (_ <? _)%Z; [|destruct (_ <=? _)%Z; [done|]]|]; cbn; by rewrite lookup_insert_ne.
Qed.
(** The bucket that ends at [R], while it lasts and when it is over. *)
Definition in_bucket (R : Z) (l : Limiter) (h : list Z) : Prop :=
  ∃ b, l_buckets l !! key = Some b ∧ (b_reset b = R ∨ (R < b_reset b - window)%Z ∧ (Z.of_nat (within (R - window) window h) ≤ rate)%Z).
Lemma in_bucket_bound R l h last : limited l h last → in_bucket R l h → (Z.of_nat (within (R - window) window h) ≤ rate)%Z.
Proof.
  intros (_ & _ & _ & Hb) (b & Eb & [HR|[_ H]]); [|done]. rewrite Eb in Hb. destruct Hb as (cur & old & -> & Hlen & Hle & _ & Hold & _). rewrite within_app.
  rewrite (within_none _ _ old) by (intros x Hx; specialize (Hold x Hx); lia). pose proof (limit_within_le (R - window) window cur). lia.
Qed.
Lemma in_bucket_granted R l h last calls : limited l h last → in_bucket R l h → in_sequence last calls →
  (Z.of_nat (within (R - window) window h + within (R - window) window (times_of key (granted l calls))) ≤ rate)%Z.
Proof.
  revert l h last. induction calls as [|[now k] calls IH]; intros l h last Hl HR Hs.
  - cbn [granted times_of]. change (times_of key []) with (@nil Z). rewrite within_nil, Nat.add_0_r. by eapply in_bucket_bound.
  - destruct Hs as [Hn Hs]. cbn [fst] in Hn, Hs. cbn [granted]. destruct (decide (k = key)) as [->|Hk].
    + pose proof (limited_here l h last now Hl Hn) as Hl'. pose proof HR as (b & Eb & Hb). pose proof Hl as (Hrate & Hwin & Hpos & Hlim). rewrite Eb in Hlim.
      destruct Hlim as (cur & old & _ & _ & _ & _ & _ & _ & _ & Hlast).
      destruct (Allow_bucket now l b ltac:(lia) Eb) as (b' & Eb' & Hb'). destruct (Allow now key l) as [l' []]; cbn [fst] in Eb'.
      * assert (in_bucket R l' (now :: h)) as HR'.
        { exists b'. split; [done|]. pose proof (in_bucket_bound R l h last Hl HR) as Hle. rewrite within_cons.
          destruct Hb as [Hb|[Hb Hw']], Hb' as [Hb'|[Hlt Hb']]; [left; lia|right..]; rewrite decide_False by lia; (split; lia). }
        specialize (IH l' (now :: h) now Hl' HR' Hs). unfold times_of in *. rewrite filter_app, fmap_app, within_app. rewrite filter_cons_True by done.
        cbn [filter list_filter fmap list_fmap]. rewrite within_cons in *. rewrite within_nil. cbn [fst] in *. lia.
      * subst l'. cbn [app]. apply (IH l h now); [by eapply limited_later|done|done].
    + pose proof (limited_other l h last now k Hk Hl Hn) as Hl'. pose proof (Allow_other now k l Hk) as Eo. destruct (Allow now k l) as [l' ok]. cbn [fst] in *.
      assert (in_bucket R l' h) as HR' by (destruct HR as (b & Eb & HR); exists b; by rewrite Eo). specialize (IH l' h now Hl' HR' Hs).
      unfold times_of in *. rewrite filter_app, fmap_app, within_app. destruct ok; [|exact IH]. rewrite filter_cons_False by done. exact IH.
Qed.
End LimiterBound.
Lemma granted_app l calls calls' : granted l (calls ++ calls') = granted l calls ++ granted (after_calls l calls) calls'.
Proof.
  revert l. induction calls as [|[now k] calls IH]; intros l; [done|]. cbn [app granted]. unfold after_calls. cbn [foldl fst snd]. destruct (Allow now k l) as [l' ok]. cbn [fst].
  by rewrite IH, app_assoc.
Qed.
Lemma within_perm t w l l' : l ≡ₚ l' → within t w l = within t w l'.
Proof. unfold within. by intros ->. Qed.

(** C22: within any stretch of time as long as its window, the limiter grants a key
    at most twice its rate, whatever the other keys do, and with a rate of zero it
    grants nothing; and in the window of any bucket of a key, from the call that
    opens it to its reset, at most the rate, whatever calls come before and after. *)
Theorem limiter_bounds_rate (key : string) (rate window t from : Z) (calls : list (Z * string))
    (Hw : (0 ≤ window)%Z) (Hs : in_sequence from calls) :
  (Z.of_nat (within t window (times_of key (granted (NewLimiter rate window) calls))) ≤ 2 * Z.max 0 rate)%Z ∧
  ∀ calls1 calls2 b, calls = calls1 ++ calls2 → l_buckets (after_calls (NewLimiter rate window) calls1) !! key = Some b →
    (Z.of_nat (within (b_reset b - window) window (times_of key (granted (NewLimiter rate window) calls))) ≤ rate)%Z.
Proof.
  destruct (decide (0 < rate)%Z) as [Hr|Hr].
  - assert (limited key rate window (NewLimiter rate window) [] from) as Hl by by split_and!. split.
    + rewrite Z.max_r by lia. pose proof (granted_bound key rate window Hw (NewLimiter rate window) [] from calls t) as H. cbn in H. by apply H.
    + intros calls1 calls2 b -> Hb. destruct (limited_after key rate window Hw _ _ _ _ _ Hl Hs) as (last' & Hl' & Hs'). rewrite app_nil_r in Hl'.
      pose proof (in_bucket_granted key rate window Hw (b_reset b) _ _ _ _ Hl' ltac:(by exists b; split; [|left]) Hs') as H.
      rewrite granted_app. unfold times_of in *. rewrite filter_app, fmap_app, within_app. by rewrite (within_perm _ _ _ _ (reverse_Permutation _)) in H.
  - assert (∀ calls, granted (NewLimiter rate window) calls = [] ∧ after_calls (NewLimiter rate window) calls = NewLimiter rate window) as Hnone.
    { clear Hs calls. induction calls as [|[now k] calls [IH1 IH2]]; [done|]. unfold after_calls in *. cbn [granted foldl fst snd]. unfold Allow. cbn [NewLimiter l_rate].
      rewrite (proj2 (Z.leb_le _ _)) by lia. done. }
    rewrite (proj1 (Hnone calls)). change (times_of key []) with (@nil Z). split; [rewrite within_nil; lia|].
    intros calls1 calls2 b _ Hb. by rewrite (proj2 (Hnone calls1)) in Hb.
Qed.

(** The gate: a principal holds between zero and the cap; what is acquired is one
    more, what is released one less, nobody else is concerned, and a principal
    without queries leaves no entry. *)
Definition gate_ok (g : gate) : Prop := (1 ≤ g_cap g)%Z ∧ ∀ sub n, g_inflight g !! sub = Some n → (1 ≤ n ≤ g_cap g)%Z.
Theorem gate_correct (g : gate) (sub : string) (H : gate_ok g) :
  (let (g', ok) := Acquire sub g in
   gate_ok g' ∧ ok = bool_decide (held g sub < g_cap g)%Z ∧
   (∀ s, held g' s = held g s + if decide (s = sub ∧ ok = true) then 1 else 0)%Z) ∧
  gate_ok (Release sub g) ∧
  (∀ s, held (Release sub g) s = if decide (s = sub) then Z.max 0 (held g sub - 1) else held g s)%Z.
Proof.
  destruct H as [Hc Hg]. assert (0 ≤ held g sub ≤ g_cap g)%Z as Hh.
  { unfold held. destruct (g_inflight g !! sub) as [n|] eqn:E; cbn; [|lia]. specialize (Hg _ _ E). lia. }
  split.
  - unfold Acquire. destruct (g_cap g <=? held g sub)%Z eqn:E; to_arith.
    + split_and!; [done|by rewrite bool_decide_false by lia|]. intros s. rewrite decide_False by naive_solver. lia.
    + split_and!; [split; [done|]|by rewrite bool_decide_true by lia|].
      * cbn. intros s n. destruct (decide (s = sub)) as [->|]; [rewrite lookup_insert_eq; intros [= <-]; lia|rewrite lookup_insert_ne by done; by intros ?%Hg].
      * intros s. unfold held at 1. cbn. destruct (decide (s = sub)) as [->|Hs]; [rewrite lookup_insert_eq, decide_True by done; done|].
        rewrite lookup_insert_ne, decide_False by naive_solver. unfold held. lia.
  - unfold Release. destruct (held g sub <=? 1)%Z eqn:E; to_arith.
    + split; [split; [done|]|].
      * cbn. by intros s n [_ Hs%Hg]%lookup_delete_Some.
      * intros s. unfold held at 1. cbn. destruct (decide (s = sub)) as [->|]; [rewrite lookup_delete_eq; cbn; lia|by rewrite lookup_delete_ne].
    + split; [split; [done|]|].
      * cbn. intros s n. destruct (decide (s = sub)) as [->|]; [rewrite lookup_insert_eq; intros [= <-]; lia|rewrite lookup_insert_ne by done; by intros ?%Hg].
      * intros s. unfold held at 1. cbn. destruct (decide (s = sub)) as [->|]; [rewrite lookup_insert_eq; cbn; lia|by rewrite lookup_insert_ne].
Qed.

(** ** Sessions *)

Section Sessions.
Context `{UT : !UnicodeTables} `{PL : !PoolLib} `{J : !Jwt} `{UL : !UuidLib} `{AG : !Argon2} {X : Type} `{F : !Faults X}.

(** A cookie of a live session, and its user. *)
Definition session_user (w : AuthWorld) (r : Request) (v sid : string) (u : User) : Prop :=
  rq_cookie r = Some v ∧ uuid_Parse v = Some sid ∧ ∃ s row, a_sessions w !! sid = Some s ∧ (a_now w < ss_ExpiresAt s)%Z ∧
    find_user (λ u, bool_decide (us_ID u = ss_UserID s)) w = Some row ∧ us_Disabled row = false ∧ u = to_user row.
Lemma find_session_live id w s : find_session id w = Some s → a_sessions w !! id = Some s ∧ (a_now w < ss_ExpiresAt s)%Z.
Proof.
  unfold find_session. destruct (a_sessions w !! id) as [s'|]; [|done]. cbn. destruct (live _ _) eqn:E; [|done]. intros [= <-].
  unfold live in E. by to_arith.
Qed.
Lemma wp_GetUserByID id (C : AuthWorld → Prop) (Q : result user_error User → AuthWorld → Prop) w :
  C w → (∀ u, find_user (λ u, bool_decide (us_ID u = id)) w = Some u → Q (Ok (to_user u)) w) → (∀ e, Q (Err e) w) →
  wp (X := X) C (GetUserByID id) Q w.
Proof.
  intros HC Hu He. apply wp_op_bind, wp_read; [done|..]; [|intros; by apply wp_op_ret].
  apply wp_op_ret. destruct (find_user _ w) as [u|] eqn:E; [by apply Hu|apply He].
Qed.
Lemma wp_GetUserByEmail email (C : AuthWorld → Prop) (Q : result user_error UserRow → AuthWorld → Prop) w :
  C w → (∀ u, find_user (λ u, bool_decide (us_Email u = email)) w = Some u → Q (Ok u) w) →
  (find_user (λ u, bool_decide (us_Email u = email)) w = None → Q (Err ErrUserNotFound) w) → (∀ e, Q (Err (UserError e)) w) →
  wp (X := X) C (GetUserByEmail email) Q w.
Proof.
  intros HC Hu Hn He. apply wp_op_bind, wp_read; [done|..]; [|intros; by apply wp_op_ret].
  apply wp_op_ret. destruct (find_user _ w) as [u|] eqn:E; auto.
Qed.

Lemma UserFor_sound r w : wp (X := X) (λ w', w' = w ∨ ∃ sid, w' = touch sid w) (Postgres_UserFor r) (λ res w',
  match res with
  | Ok (Some (u, c)) => ∃ v sid, session_user w r v sid u ∧ c = Some v ∧ (w' = w ∨ w' = touch sid w)
  | _ => w' = w
  end) w.
Proof.
  unfold Postgres_UserFor. destruct (rq_cookie r) as [v|] eqn:Ev; [|by apply wp_op_ret]. cbn [mbind option_bind].
  destruct (uuid_Parse v) as [sid|] eqn:Es; [|by apply wp_op_ret]. cbn [mbind option_bind]. apply wp_op_bind, wp_op_bind, wp_read; [by left|..]; [|by intros m; apply wp_op_ret, wp_op_ret].
  apply wp_op_ret. destruct (find_session sid w) as [s|] eqn:Ef; [|by apply wp_op_ret]. apply find_session_live in Ef as [Hs Hl].
  apply wp_op_bind, wp_GetUserByID; [by left|..]; [|by intros []; apply wp_op_ret]. intros row Hrow. cbn [to_user u_Disabled]. destruct (us_Disabled row) eqn:Ed; [by apply wp_op_ret|].
  assert (session_user w r v sid (to_user row)) as Hu by (split_and!; [done..|]; by exists s, row).
  apply wp_op_bind, wp_call; try (intros; apply wp_op_ret; exists v, sid; split_and!; auto); [by left|by right; exists sid].
Qed.

(** A session cookie authenticates exactly the enabled owner of a live session.
    Whatever statements fail, the resolver names a user only for the cookie of a
    session that has not expired, whose user exists and is not disabled, and at
    most prolongs that session; when no statement fails every such request is
    authenticated and the session lives another 24 hours. *)
Theorem session_authenticates (r : Request) (w : AuthWorld) :
  wp (X := X) (λ w', w' = w ∨ ∃ sid, w' = touch sid w) (Postgres_UserFor r) (λ res w',
    match res with
    | Ok (Some (u, c)) => ∃ v sid, session_user w r v sid u ∧ c = Some v ∧ (w' = w ∨ w' = touch sid w)
    | _ => w' = w
    end) w ∧
  (∀ (RL : Reliable X) x v sid u, session_user w r v sid u →
    ∃ x', Postgres_UserFor (X := X) r (w, x) = ((touch sid w, x'), Some (Ok (Some (u, Some v))))).
Proof.
  split; [apply UserFor_sound|]. intros RL x v sid u (Hv & Hs & s & row & Hrow & Hlive & Hu & Hd & ->).
  unfold Postgres_UserFor. rewrite Hv. cbn [mbind option_bind]. rewrite Hs. cbn [mbind option_bind].
  assert (find_session sid w = Some s) as Hf by (unfold find_session; rewrite Hrow; cbn; unfold live; by rewrite (proj2 (Z.ltb_lt _ _) Hlive)).
  unfold mbind, Op_bind, LookupSession, GetUserByID, TouchSession, mbind, Op_bind, read. rewrite call_done. cbn [fst snd mret Op_ret]. rewrite Hf. unfold mret, Op_ret.
  rewrite call_done. cbn [fst snd]. rewrite Hu. cbn [to_user u_Disabled]. rewrite Hd, call_done. by eexists.
Qed.

(** What happens to the tables: time passes, statements run, users come and go. *)
Inductive auth_step (drawn : string → Prop) : AuthWorld → AuthWorld → Prop :=
| time_passes w t : (a_now w ≤ t)%Z → auth_step drawn w (MkAuthWorld t (a_users w) (a_sessions w) (a_limiter w))
| users_change w us l : auth_step drawn w (MkAuthWorld (a_now w) us (a_sessions w) l)
| touched w id : auth_step drawn w (touch id w)
| dropped w id : auth_step drawn w (drop_session id w)
| created w id user : drawn id → a_sessions w !! id = None →
    auth_step drawn w (set_sessions (<[id := new_session user (a_now w)]> (a_sessions w)) w).
Lemma touch_lookup id id' w : a_sessions (touch id w) !! id' =
  if decide (id' = id) then (λ s, if live (a_now w) s then MkSession (ss_UserID s) (ss_CreatedAt s) (a_now w + SessionLifetime) (a_now w) else s) <$> a_sessions w !! id
  else a_sessions w !! id'.
Proof.
  unfold touch. destruct (decide (id' = id)) as [->|Hne].
  - destruct (a_sessions w !! id) as [s|] eqn:E; [|done]. cbn. destruct (live _ s); [cbn; by rewrite lookup_insert_eq|done].
  - destruct (a_sessions w !! id) as [s|]; [|done]. destruct (live _ s); [cbn; by rewrite lookup_insert_ne|done].
Qed.
Lemma touch_now id w : a_now (touch id w) = a_now w.
Proof. unfold touch. destruct (_ !! _) as [s|]; [|done]. by destruct (live _ s). Qed.
(** A session that is over. *)
Definition over (id : string) (w : AuthWorld) : Prop := ∀ s, a_sessions w !! id = Some s → (ss_ExpiresAt s ≤ a_now w)%Z.
Lemma over_step drawn id w w' : ¬ drawn id → auth_step drawn w w' → over id w → over id w'.
Proof.
  intros Hd Hs Ho. destruct Hs as [w t Ht|w us l|w id'|w id'|w id' user Hid' Hfresh]; intros s.
  - cbn. intros Hs%Ho. lia.
  - apply Ho.
  - rewrite touch_lookup, touch_now. destruct (decide (id = id')) as [->|]; [|apply Ho].
    destruct (a_sessions w !! id') as [s0|] eqn:E; [|done]. cbn. intros [= <-]. specialize (Ho _ E). unfold live.
    rewrite (proj2 (Z.ltb_ge _ _)) by done. done.
  - cbn. intros [_ H%Ho]%lookup_delete_Some. done.
  - cbn. rewrite lookup_insert_ne by (intros ->; done). apply Ho.
Qed.
(** C20: a session that expired or was logged out is never accepted again, whatever
    statements run and however much time passes, unless its id is drawn anew: in
    particular its use does not revive it. *)
Theorem over_session_refused (drawn : string → Prop) (w w' : AuthWorld) (r : Request) (v sid : string)
    (Hv : rq_cookie r = Some v) (Hsid : uuid_Parse v = Some sid) (Hover : over sid w) (Hsteps : rtc (auth_step drawn) w w') (Hdrawn : ¬ drawn sid) :
  wp (X := X) (λ w'', w'' = w') (Postgres_UserFor r) (λ res w'', w'' = w' ∧ match res with Ok (Some _) => False | _ => True end) w'.
Proof.
  assert (over sid w') as Ho by (induction Hsteps; [done|eauto using over_step]). clear Hover Hsteps.
  unfold Postgres_UserFor. rewrite Hv. cbn [mbind option_bind]. rewrite Hsid. cbn [mbind option_bind]. apply wp_op_bind, wp_op_bind, wp_read; [done|..].
  - apply wp_op_ret. destruct (find_session sid w') as [s|] eqn:E; [|by apply wp_op_ret]. apply find_session_live in E as [E Hl]. specialize (Ho _ E). lia.
  - intros m. by apply wp_op_ret, wp_op_ret.
Qed.

(** Logging out ends the session or says it did not: when the answer is not an
    error the session of the cookie is gone. *)
Theorem logout_ends_session (r : Request) (w : AuthWorld) :
  wp (X := X) (λ _, True) (handleLogout r) (λ res w', match res with
    | RError status _ => status = 500%Z
    | RCookie c age => c = EmptyString ∧ ∀ v sid, rq_cookie r = Some v → uuid_Parse v = Some sid → over sid w'
    | _ => False
    end) w.
Proof.
  unfold handleLogout. destruct (rq_cookie r) as [v|]; cbn [mbind option_bind]; [|by apply wp_op_ret]. destruct (uuid_Parse v) as [sid|] eqn:Es.
  - apply wp_op_bind, wp_call; try done; try (intros m; by apply wp_op_ret). apply wp_op_ret. split; [done|]. intros v' sid' [= <-] Hs s. rewrite Es in Hs. injection Hs as <-.
    cbn. by rewrite lookup_delete_eq.
  - apply wp_op_ret. split; [done|]. intros v' sid' [= <-] Hs. congruence.
Qed.

(** ** Logging in *)

Variable dummyPasswordHash : string.
Definition credentials_of (w : AuthWorld) (email password : string) (u : UserRow) : Prop :=
  find_user (λ u, bool_decide (us_Email u = email)) w = Some u ∧ us_Disabled u = false ∧ VerifyPassword password (us_PasswordHash u) = Some (Ok true).
Lemma wp_check_password email password k (C : AuthWorld → Prop) Q w : C w →
  wp C (k (Err (RError 500 "authentication temporarily unavailable"))) Q w →
  ((∀ u, ¬ credentials_of w email password u) → wp C (k (Err (RError 401 "invalid credentials"))) Q w) →
  (∀ u, credentials_of w email password u → wp C (k (Ok u)) Q w) →
  wp (X := X) C (check_password dummyPasswordHash email password k) Q w.
Proof.
  intros HC H5 H4 Hok. unfold check_password. apply wp_op_bind, wp_GetUserByEmail; [done|..|done].
  - intros u Hu. assert (∀ b, VerifyPassword password (us_PasswordHash u) = Some b → b ≠ Ok true ∨ us_Disabled u = true → ∀ u', ¬ credentials_of w email password u') as Hbad.
    { intros b Hv Hb u' (Hu' & Hd & Hv'). rewrite Hu in Hu'. injection Hu' as <-. destruct Hb; congruence. }
    destruct (VerifyPassword _ _) as [[[]|e]|] eqn:Ev; [|apply H4; eauto..|by apply wp_panic].
    destruct (us_Disabled u) eqn:Ed; [apply H4; eauto|by apply Hok].
  - intros Hn. assert (∀ u, ¬ credentials_of w email password u) as Hnone by (intros u (Hu & _); congruence).
    destruct (VerifyPassword _ _) as [|]; [by apply H4|by apply wp_panic].
Qed.

(** A session was opened, for good credentials. *)
Definition opened (body : result string (string * string)) (w : AuthWorld) (sid : string) (w' : AuthWorld) : Prop :=
  ∃ email password u, body = Ok (email, password) ∧ credentials_of w email password u ∧ a_sessions w !! sid = None ∧
    w' = set_sessions (<[sid := new_session (us_ID u) (a_now w)]> (a_sessions w)) w.

Lemma cliTokenLifetime_bounds env : (0 < cliTokenLifetime env ≤ maxCLITokenLifetime)%Z.
Proof.
  unfold cliTokenLifetime, defaultCLITokenLifetime, maxCLITokenLifetime, second. destruct (str_empty env); [lia|].
  destruct (ParseDuration env) as [d|]; [|lia]. destruct (d <=? 0)%Z eqn:E1; [lia|]. destruct (_ <? d)%Z eqn:E2; to_arith; lia.
Qed.
(** The tokens of a login from the command line are those of the user whose
    password it was, live at most 30 days, and count against the client's rate,
    which is checked before anything else. *)
Theorem cli_token_correct (signer : option Signer) (env ip : string) (body : result string (string * string)) (w : AuthWorld) :
  let ttl := cliTokenLifetime env in
  wp (X := X) (λ w', w' = (allow_client ip w).1) (handleCLIToken dummyPasswordHash signer env ip body) (λ res w', w' = (allow_client ip w).1 ∧
    match res with
    | RTokens tok exp id api apiExp => (allow_client ip w).2 = true ∧ (∃ email password u, body = Ok (email, password) ∧ credentials_of w email password u ∧ id = us_ID u) ∧
        MintLocalCLIToken (a_now w) (Some id) signer ttl = Ok (tok, exp) ∧ MintCLIAPIToken (a_now w) (Some id) signer ttl = Ok (api, apiExp) ∧
        (a_now w < exp ≤ a_now w + maxCLITokenLifetime)%Z
    | RError status _ => status = 429%Z ↔ (allow_client ip w).2 = false
    | _ => False
    end) w.
Proof.
  intros ttl. pose proof (cliTokenLifetime_bounds env) as Httl. fold ttl in Httl.
  assert (a_users (allow_client ip w).1 = a_users w ∧ a_now (allow_client ip w).1 = a_now w) as [Hus Hnow].
  { unfold allow_client. destruct (a_limiter w) as [l|]; [|done]. by destruct (Allow _ _ _). }
  unfold handleCLIToken. apply wp_op_bind, wp_internal. destruct (allow_client ip w) as [w1 ok]. cbn [fst snd] in *.
  destruct ok; cbn [negb]; [|by apply wp_op_ret].
  assert (∀ status, status ≠ 429%Z → status = 429%Z ↔ true = false) as Hother by done.
  unfold credentials. destruct body as [[email password]|e]; [|by apply wp_op_ret; split; [|apply Hother]]. destruct (_ || _); [by apply wp_op_ret; split; [|apply Hother]|].
  apply wp_check_password; [done|by apply wp_op_ret; split; [|apply Hother]|by intros; apply wp_op_ret; split; [|apply Hother]|]. intros u Hu.
  apply wp_op_bind, wp_local, wp_op_ret. rewrite Hnow. fold ttl.
  destruct (MintLocalCLIToken (a_now w) (Some (us_ID u)) signer ttl) as [[tok exp]|e1] eqn:E1; [|by split; [|apply Hother]].
  destruct (MintCLIAPIToken (a_now w) (Some (us_ID u)) signer ttl) as [[api apiExp]|e2] eqn:E2; [|by split; [|apply Hother]]. split; [done|]. split_and!; try done.
  - exists email, password, u. split_and!; try done. unfold credentials_of, find_user in *. by rewrite Hus in Hu.
  - unfold MintLocalCLIToken, the_signer in E1. destruct signer as [sg|]; [|done]. destruct (ttl <=? 0)%Z; [done|]. cbn in E1. destruct (sign _ _); [|done].
    injection E1 as _ <-. lia.
  - unfold MintLocalCLIToken, the_signer in E1. destruct signer as [sg|]; [|done]. destruct (ttl <=? 0)%Z; [done|]. cbn in E1. destruct (sign _ _); [|done].
    injection E1 as _ <-. lia.
Qed.
End Sessions.

(** ** Examples *)

Module AuthnExamples.
Import Scripted.
#[local] Instance ascii_tables : UnicodeTables := { is_print_above_latin1 := λ _, false; to_upper_above_latin1 := λ r, r }.
#[local] Instance uuids : UuidLib := {| uuid_Parse s := Some s |}.
#[local] Existing Instance PasswordExamples.toy.
Definition alice : UserRow := MkUserRow "u1" "alice@example.com" PasswordExamples.stored false.
Definition w0 : AuthWorld := MkAuthWorld 1000 [alice] {["s1" := new_session "u1" 1000]} None.
Definition dead : AuthWorld := MkAuthWorld (1000 + SessionLifetime) (a_users w0) (a_sessions w0) None.
Definition by_cookie : Request := MkRequest (Some "s1") EmptyString.
Example alive_then_dead :
  (Postgres_UserFor by_cookie (w0, ())).2 = Some (Ok (Some (MkUser "u1" false, Some "s1"))) ∧
  (Postgres_UserFor by_cookie (dead, ())).2 = Some (Ok None).
Proof. by vm_compute. Qed.
Example login_example :
  (handleLogin (X := ()) "dummy" (Ok ("alice@example.com", "hunter2")) (w0, ())).2 = Some (RCookie "new" 86400) ∧
  (handleLogin (X := ()) "dummy" (Ok ("bob@example.com", "hunter2")) (w0, ())).2 = Some (RError 401 "invalid credentials").
Proof. by vm_compute. Qed.
Lemma over_session_refused_witness :
  wp (X := ()) (λ w'', w'' = touch "s1" dead) (Postgres_UserFor by_cookie)
    (λ res w'', w'' = touch "s1" dead ∧ match res with Ok (Some _) => False | _ => True end) (touch "s1" dead).
Proof.
  apply (over_session_refused (λ _, False) dead (touch "s1" dead) by_cookie "s1" "s1"); [done..| |by apply rtc_once, touched|by intros []].
  intros s. cbn. intros [= <-]. done.
Defined.
(** A burst at the end of one window and one at the start of the next. *)
Definition bursts : list (Z * string) := [(0, "a"); (9, "a"); (10, "b"); (10, "a"); (11, "a"); (12, "a"); (13, "a")]%Z.
Example two_windows : times_of "a" (granted (NewLimiter 2 10) bursts) = [0; 9; 11; 12]%Z.
Proof. by vm_compute. Qed.
Lemma limiter_bounds_rate_witness :
  (Z.of_nat (within 3 10 (times_of "a" (granted (NewLimiter 2 10) bursts))) ≤ 2 * Z.max 0 2)%Z ∧
  (Z.of_nat (within 0 10 (times_of "a" (granted (NewLimiter 2 10) bursts))) ≤ 2)%Z.
Proof.
  split; [apply (limiter_bounds_rate "a" 2 10 3 0); [done|repeat split; done]|].
  refine (proj2 (limiter_bounds_rate "a" 2 10 3 0 bursts _ _) (take 4 bursts) (drop 4 bursts) (MkBucket 2 10) _ _); [done|repeat split; done|done|by vm_compute].
Defined.
End AuthnExamples.
