(* ===== verification/RunWorld.v ===== *)
(** * RunWorld: the tables, grants and objects behind the runs of the API server
      (pkg/pipelineapi/store/run.go, run_tuples.go, project.go)

    The state the API server, its observer and its reaper share: the rows of
    PostgreSQL, the tuples of OpenFGA, the objects of the cluster, and the calls
    that read and write it. *)

From S2P Require Import Prelude Calls PreviewStore Authz PipelineDoc.

(** ** Rows and objects *)

Record Project := MkProject {
  pj_Name : string;
  pj_K8sNamespace : string;
  pj_LakekeeperProjectID : string;
}.
Record PipelineRow := MkPipelineRow { pl_ProjectID : string; pl_Name : string }.
Record Run := MkRun {
  run_ProjectID : string;
  run_PipelineID : string;
  run_Phase : string;
  run_CurrentStage : string;
  run_Message : string;
  run_StageStatuses : option string;
  run_StartedAt : option Z;
  run_CompletedAt : option Z;
  run_TriggeredBy : option string;  (** [None] for the nil uuid *)
  run_CreatedAt : Z;
  run_UpdatedAt : Z;
  run_ObservedRV : Z;
}.
(** The jsonb column holds an array of these. *)
Record tupleJSON := MkTupleJSON { tj_user : string; tj_relation : string; tj_object : string }.
Definition encodeAuthzTuples (ts : list Tuple) : list tupleJSON :=
  (λ t, MkTupleJSON (t_User t) (t_Relation t) (Object_String (t_Object t))) <$> ts.
Fixpoint decodeAuthzTuples `{UT : !UnicodeTables} (arr : list tupleJSON) : result string (list Tuple) :=
  match arr with
  | [] => Ok []
  | t :: arr =>
    obj ← map_err (λ e, "parse object " +:+ quote (tj_object t) +:+ ": " +:+ e) (ParseObject (tj_object t));
    out ← decodeAuthzTuples arr;
    Ok (MkTuple (tj_user t) (tj_relation t) obj :: out)
  end.
(** A row of run_tuples. *)
Record RunTuplesRow := MkRunTuplesRow {
  rt_tuples : list tupleJSON;
  rt_committed : bool;
  rt_created_at : Z;
}.
Record RunTupleRecord := MkRunTupleRecord { rec_Tuples : list Tuple; rec_Committed : bool }.
(** A PipelineRun object, the fields the API server reads and writes. *)
Record RunObject := MkRunObject {
  ro_Labels : gmap string string;
  ro_CreationTimestamp : Z;
  ro_Deleting : bool;
  ro_ResourceVersion : string;
  ro_UID : string;
  ro_PipelineRef : string;
  ro_RunID : string;
  ro_RunTokenRef : string;
  ro_Phase : string;
  ro_CurrentStage : string;
  ro_Message : string;
  ro_StartTime : option Z;
  ro_CompletionTime : option Z;
  ro_StageStatuses : option string;  (** marshalled, when there are any *)
}.
Record SecretObject := MkSecretObject {
  so_Labels : gmap string string;
  so_Token : string;
  so_Owners : list (string * string);  (** name and uid *)
  so_CreationTimestamp : Z;
}.
(** The objects every project namespace carries: their rules, subjects, limits. *)
Inductive DefaultObject : Type :=
| RoleObject (rules : list (list string * list string))  (** resources and verbs *)
| RoleBindingObject (role sa sa_ns : string)
| LimitRangeObject (default request : list (string * string)).
Record PodObject := MkPodObject { po_Labels : gmap string string; po_Cancelled : bool }.

(** Objects are keyed by namespace and name, rows by their primary key. *)
Record World := MkWorld {
  w_now : Z;
  w_projects : gmap string Project;
  w_pipelines : gmap string PipelineRow;
  w_runs : gmap string Run;
  w_run_tuples : gmap string RunTuplesRow;
  w_previews : list Preview;
  w_grants : gset Tuple;
  w_namespaces : gmap string (gmap string string);  (** the labels *)
  w_defaults : gmap (string * (string * string)) DefaultObject;  (** by kind, namespace and name *)
  w_documents : gmap (string * string) DocPipeline;  (** the Pipeline objects, as rendered documents *)
  w_run_objects : gmap (string * string) RunObject;
  w_secrets : gmap (string * string) SecretObject;
  w_pods : gmap (string * string) PodObject;
}.
Definition set_runs (m : gmap string Run) (w : World) : World :=
  MkWorld (w_now w) (w_projects w) (w_pipelines w) m (w_run_tuples w) (w_previews w) (w_grants w)
    (w_namespaces w) (w_defaults w) (w_documents w) (w_run_objects w) (w_secrets w) (w_pods w).
Definition set_run_tuples (m : gmap string RunTuplesRow) (w : World) : World :=
  MkWorld (w_now w) (w_projects w) (w_pipelines w) (w_runs w) m (w_previews w) (w_grants w)
    (w_namespaces w) (w_defaults w) (w_documents w) (w_run_objects w) (w_secrets w) (w_pods w).
Definition set_previews (m : list Preview) (w : World) : World :=
  MkWorld (w_now w) (w_projects w) (w_pipelines w) (w_runs w) (w_run_tuples w) m (w_grants w)
    (w_namespaces w) (w_defaults w) (w_documents w) (w_run_objects w) (w_secrets w) (w_pods w).
Definition set_grants (m : gset Tuple) (w : World) : World :=
  MkWorld (w_now w) (w_projects w) (w_pipelines w) (w_runs w) (w_run_tuples w) (w_previews w) m
    (w_namespaces w) (w_defaults w) (w_documents w) (w_run_objects w) (w_secrets w) (w_pods w).
Definition set_namespaces (m : gmap string (gmap string string)) (w : World) : World :=
  MkWorld (w_now w) (w_projects w) (w_pipelines w) (w_runs w) (w_run_tuples w) (w_previews w) (w_grants w)
    m (w_defaults w) (w_documents w) (w_run_objects w) (w_secrets w) (w_pods w).
Definition set_defaults (m : gmap (string * (string * string)) DefaultObject) (w : World) : World :=
  MkWorld (w_now w) (w_projects w) (w_pipelines w) (w_runs w) (w_run_tuples w) (w_previews w) (w_grants w)
    (w_namespaces w) m (w_documents w) (w_run_objects w) (w_secrets w) (w_pods w).
Definition set_documents (m : gmap (string * string) DocPipeline) (w : World) : World :=
  MkWorld (w_now w) (w_projects w) (w_pipelines w) (w_runs w) (w_run_tuples w) (w_previews w) (w_grants w)
    (w_namespaces w) (w_defaults w) m (w_run_objects w) (w_secrets w) (w_pods w).
Definition set_run_objects (m : gmap (string * string) RunObject) (w : World) : World :=
  MkWorld (w_now w) (w_projects w) (w_pipelines w) (w_runs w) (w_run_tuples w) (w_previews w) (w_grants w)
    (w_namespaces w) (w_defaults w) (w_documents w) m (w_secrets w) (w_pods w).
Definition set_secrets (m : gmap (string * string) SecretObject) (w : World) : World :=
  MkWorld (w_now w) (w_projects w) (w_pipelines w) (w_runs w) (w_run_tuples w) (w_previews w) (w_grants w)
    (w_namespaces w) (w_defaults w) (w_documents w) (w_run_objects w) m (w_pods w).
Definition set_pods (m : gmap (string * string) PodObject) (w : World) : World :=
  MkWorld (w_now w) (w_projects w) (w_pipelines w) (w_runs w) (w_run_tuples w) (w_previews w) (w_grants w)
    (w_namespaces w) (w_defaults w) (w_documents w) (w_run_objects w) (w_secrets w) m.

(** ** The statements on runs *)

Section Calls.
Context `{UT : !UnicodeTables} {X : Type} `{F : !Faults X}.

Inductive dberr : Type :=
| ErrRunNotFound
| ErrProjectNotFound
| DBError (msg : string).
Definition db {A} (what : string) (m : Op World X (result string A)) : Op World X (result dberr A) :=
  r ← m; mret (map_err (λ e, DBError (what +:+ e)) r).

Definition GetProjectByID (id : string) : Op World X (result dberr Project) :=
  try_op (db "select project: " (read (λ w : World, w_projects w !! id))) (λ p,
  mret (match p with Some p => Ok p | None => Err ErrProjectNotFound end)).
Definition GetPipelineNameByID (id : string) : Op World X (result dberr string) :=
  try_op (db "select pipeline: " (read (λ w : World, w_pipelines w !! id))) (λ p,
  mret (match p with Some p => Ok (pl_Name p) | None => Err (DBError "pipeline not found") end)).

Record CreateRunOpts := MkCreateRunOpts {
  cr_ID : string;
  cr_ProjectID : string;
  cr_PipelineID : string;
  cr_TriggeredBy : option string;
}.
(** The INSERT: a fresh key, a pipeline of the project. *)
Definition insert_run (o : CreateRunOpts) (w : World) : World * result string Run :=
  match w_runs w !! cr_ID o with
  | Some _ => (w, Err "duplicate key value violates unique constraint")
  | None =>
    if bool_decide (pl_ProjectID <$> w_pipelines w !! cr_PipelineID o = Some (cr_ProjectID o)) then
      let r := MkRun (cr_ProjectID o) (cr_PipelineID o) "Pending" EmptyString EmptyString None None None (cr_TriggeredBy o)
                 (w_now w) (w_now w) 0 in
      (set_runs (<[cr_ID o := r]> (w_runs w)) w, Ok r)
    else (w, Err "insert or update violates foreign key constraint")
  end.
Definition CreateRun (o : CreateRunOpts) : Op World X (result dberr Run) := db "insert run: " (call_err (insert_run o)).
(** The joined row. *)
Definition GetRunByID (id : string) : Op World X (result dberr Run) :=
  try_op (db "select run: " (read (λ w, w_runs w !! id))) (λ r,
  mret (match r with Some r => Ok r | None => Err ErrRunNotFound end)).

Record UpdateRunPhaseOpts := MkUpdateRunPhaseOpts {
  ur_Phase : string;
  ur_CurrentStage : string;
  ur_Message : string;
  ur_StartedAt : option Z;
  ur_CompletedAt : option Z;
  ur_ObservedRV : Z;
  ur_StageStatuses : option string;
  ur_GuardTerminal : bool;
}.
(** The WHERE clause and the SET clause. *)
Definition run_guard (o : UpdateRunPhaseOpts) (r : Run) : bool :=
  ((ur_ObservedRV o =? 0)%Z || (run_ObservedRV r <? ur_ObservedRV o)%Z) &&
  (negb (ur_GuardTerminal o) || negb (bool_decide (run_Phase r ∈ ["Cancelled"; "Expired"]))).
Definition run_set (now : Z) (o : UpdateRunPhaseOpts) (r : Run) : Run :=
  MkRun (run_ProjectID r) (run_PipelineID r) (ur_Phase o) (ur_CurrentStage o) (ur_Message o)
    (coalesce (ur_StageStatuses o) (run_StageStatuses r)) (coalesce (ur_StartedAt o) (run_StartedAt r))
    (coalesce (ur_CompletedAt o) (run_CompletedAt r)) (run_TriggeredBy r) (run_CreatedAt r) now
    (Z.max (run_ObservedRV r) (ur_ObservedRV o)).
Definition update_run (id : string) (o : UpdateRunPhaseOpts) (w : World) : World * bool :=
  match w_runs w !! id with
  | Some r => if run_guard o r then (set_runs (<[id := run_set (w_now w) o r]> (w_runs w)) w, true) else (w, false)
  | None => (w, false)
  end.
Definition UpdateRunPhase (id : string) (o : UpdateRunPhaseOpts) : Op World X (result dberr bool) :=
  try_op (db "update run: " (call (update_run id o))) (λ affected : bool,
  mret (if affected then Ok true
        else if (ur_ObservedRV o =? 0)%Z && negb (ur_GuardTerminal o) then Err ErrRunNotFound else Ok false)).

(** ** The statements on run_tuples *)

Definition insert_tuples (id : string) (ts : list Tuple) (w : World) : World * result string unit :=
  match w_run_tuples w !! id with
  | Some _ => (w, Err "duplicate key value violates unique constraint")
  | None => (set_run_tuples (<[id := MkRunTuplesRow (encodeAuthzTuples ts) false (w_now w)]> (w_run_tuples w)) w, Ok ())
  end.
Definition RecordRunTuples (id : string) (ts : list Tuple) : Op World X (result dberr unit) :=
  db "RecordRunTuples: insert: " (call_err (insert_tuples id ts)).
Definition commit_tuples (id : string) (w : World) : World :=
  set_run_tuples (alter (λ r, MkRunTuplesRow (rt_tuples r) true (rt_created_at r)) id (w_run_tuples w)) w.
Definition MarkRunTuplesCommitted (id : string) : Op World X (result dberr unit) :=
  db "MarkRunTuplesCommitted: update: " (call (λ w, (commit_tuples id w, ()))).
Definition GetRunTuples (id : string) : Op World X (result dberr (option RunTupleRecord)) :=
  try_op (db "GetRunTuples: select: " (read (λ w, w_run_tuples w !! id))) (λ r,
  mret (match r with
        | Some r => ts ← map_err (λ e, DBError ("GetRunTuples: decode: " +:+ e)) (decodeAuthzTuples (rt_tuples r));
                    Ok (Some (MkRunTupleRecord ts (rt_committed r)))
        | None => Ok None
        end)).
Definition drop_tuples (id : string) (w : World) : World := set_run_tuples (delete id (w_run_tuples w)) w.
Definition DeleteRunTuples (id : string) : Op World X (result dberr unit) :=
  db "DeleteRunTuples: delete: " (call (λ w, (drop_tuples id w, ()))).

(** ** OpenFGA, as the authorizer calls it

    A write of tuples that are all new adds them, a delete of tuples that are all
    there removes them; otherwise nothing changes.  The authorizer takes an
    existing tuple, alone in its request, for written. *)

Definition fga_write (ts : list Tuple) (w : World) : World * result string () :=
  if bool_decide (Forall (λ t, t ∉ w_grants w) ts) then (set_grants (w_grants w ∪ list_to_set ts) w, Ok ())
  else (w, Err "cannot write a tuple which already exists").
Definition fga_delete (ts : list Tuple) (w : World) : World * result string () :=
  if bool_decide (Forall (λ t, t ∈ w_grants w) ts) then (set_grants (w_grants w ∖ list_to_set ts) w, Ok ())
  else (w, Err "cannot delete a tuple which does not exist").
Definition isTupleAlreadyExistsErr (err : string) : bool :=
  contains "tuple to be written already existed" err || contains "cannot write a tuple which already exists" err.
Definition authz_WriteTuples (ts : list Tuple) : Op World X (result string ()) :=
  match ts with
  | [] => mret (Ok ())
  | _ =>
    r ← call_err (fga_write ts);
    mret (match r with Err e => if (length ts =? 1)%nat && isTupleAlreadyExistsErr e then Ok () else Err e | r => r end)
  end.
Definition authz_DeleteTuples (ts : list Tuple) : Op World X (result string ()) :=
  match ts with [] => mret (Ok ()) | _ => call_err (fga_delete ts) end.

(** ** Objects of the cluster *)

Inductive kerr : Type := NotFound | AlreadyExists | KError (msg : string).
Definition k8s {A} (f : World → World * result kerr A) : Op World X (result kerr A) :=
  r ← call f; mret (match r with Ok r => r | Err e => Err (KError e) end).
Section Objects.
Context {K O : Type} `{EqDecision K} `{!Countable K}.
Variable objs : World → gmap K O.
Variable set : gmap K O → World → World.
Definition get_object (k : K) : Op World X (result kerr O) :=
  k8s (λ w, (w, match objs w !! k with Some o => Ok o | None => Err NotFound end)).
Definition create_object (k : K) (o : O) : Op World X (result kerr unit) :=
  k8s (λ w, match objs w !! k with Some _ => (w, Err AlreadyExists) | None => (set (<[k := o]> (objs w)) w, Ok ()) end).
Definition update_object (k : K) (o : O) : Op World X (result kerr unit) :=
  k8s (λ w, match objs w !! k with Some _ => (set (<[k := o]> (objs w)) w, Ok ()) | None => (w, Err NotFound) end).
Definition delete_object (k : K) : Op World X (result kerr unit) :=
  k8s (λ w, match objs w !! k with Some _ => (set (delete k (objs w)) w, Ok ()) | None => (w, Err NotFound) end).
Definition list_objects : Op World X (result kerr (list (K * O))) :=
  r ← k8s (λ w, (w, Ok (map_to_list (objs w))));
  match r with Ok l => l ← in_order l; mret (Ok l) | Err e => mret (Err e) end.
End Objects.
Definition kerr_text (e : kerr) : string :=
  match e with NotFound => "not found" | AlreadyExists => "already exists" | KError m => m end.
End Calls.

Definition empty_world : World := MkWorld 0 ∅ ∅ ∅ ∅ [] ∅ ∅ ∅ ∅ ∅ ∅ ∅.

(** The network does not speak for OpenFGA: the error of a call that was not
    answered is not one of its refusals. *)
Class HonestErrors (X : Type) `{F : !Faults X} : Prop :=
  honest : ∀ (x : X) m, (fault x).2 = Failed m ∨ (fault x).2 = Lost m → isMissingTupleErr m = false ∧ isTupleAlreadyExistsErr m = false.
