(* ===== verification/RunMirror.v ===== *)
(** * RunMirror: the status of PipelineRuns in the runs table
      (pkg/pipelineapi/k8s/observer.go, coalesce.go, db_updater.go,
      preview_updater.go, and PipelineRunName of run_create.go)

    The reconciler of the observer, the updaters behind it and the cache that
    drops writes that would change nothing. *)

From S2P Require Import Prelude ApiTypes GoTime Policy PreviewStore Authz PipelineDoc CommitPool PreviewService Tokens Calls RunWorld.

(** ** Names *)

Definition dots_to_dashes (s : string) : string :=
  list_str ((λ c, if Ascii.eqb c "."%char then "-"%char else c) <$> str_list s).
(** [strings.TrimRight(s, "-")]. *)
Fixpoint trim_dashes (s : string) : string :=
  match s with
  | EmptyString => EmptyString
  | String c s =>
    let r := trim_dashes s in
    if str_empty r && Ascii.eqb c "-"%char then EmptyString else String c r
  end.
Section Names.
Context `{PL : !PoolLib}.
(** [validation.IsDNS1123Subdomain]: the messages. *)
Variable IsDNS1123Subdomain : string → list string.
Definition PipelineRunName (pipeline id : string) : string :=
  let name := pipeline +:+ "-" +:+ id in
  if is_empty (IsDNS1123Subdomain name) then name
  else
    let prefix := trim_dashes (dots_to_dashes (str_take 17 pipeline)) in
    (if str_empty prefix then "pl" else prefix) +:+ "-" +:+ str_take 8 (sha256_hex pipeline) +:+ "-" +:+ id.
End Names.

(** ** Statuses *)

Record RunStatus := MkRunStatus {
  rs_RunID : string;
  rs_PreviewID : option string;  (** [None] for the nil uuid *)
  rs_Namespace : string;
  rs_PipelineRunName : string;
  rs_Phase : string;
  rs_CurrentStage : string;
  rs_Message : string;
  rs_StartedAt : option Z;
  rs_CompletedAt : option Z;
  rs_ResourceVersion : Z;
  rs_StageStatuses : option string;
}.
(** bytes.Equal takes nil for empty. *)
Definition bytes_Equal (a b : option string) : bool := bool_decide (default EmptyString a = default EmptyString b).
Definition timePtrEqual (a b : option Z) : bool := bool_decide (a = b).
Definition equalsForDB (a b : RunStatus) : bool :=
  bool_decide (rs_Phase a = rs_Phase b) && bool_decide (rs_CurrentStage a = rs_CurrentStage b) &&
  bool_decide (rs_Message a = rs_Message b) && timePtrEqual (rs_StartedAt a) (rs_StartedAt b) &&
  timePtrEqual (rs_CompletedAt a) (rs_CompletedAt b) && bytes_Equal (rs_StageStatuses a) (rs_StageStatuses b).

(** What was last written for an object, and when. *)
Abbreviation cache := (gmap (string * string) (RunStatus * Z)).

Section Mirror.
Context `{PL : !PoolLib} `{UL : !UuidLib} {X : Type} `{F : !Faults X}.
Variable IsDNS1123Subdomain : string → list string.

(** ** The updaters *)

Definition run_opts (s : RunStatus) : UpdateRunPhaseOpts :=
  MkUpdateRunPhaseOpts (rs_Phase s) (rs_CurrentStage s) (rs_Message s) (rs_StartedAt s) (rs_CompletedAt s)
    (rs_ResourceVersion s) (rs_StageStatuses s) true.
(** The namespace of the run's project and the name of its pipeline. *)
Definition identity_row (id : string) (w : World) : option (string * string) :=
  r ← w_runs w !! id; p ← w_projects w !! run_ProjectID r; pl ← w_pipelines w !! run_PipelineID r;
  Some (pj_K8sNamespace p, pl_Name pl).
Definition DBRunUpdater_Update (s : RunStatus) : Op World X (result dberr bool) :=
  try_op (db "lookup run namespace: " (read (identity_row (rs_RunID s)))) (λ row,
  match row with
  | None => mret (Ok false)
  | Some (expectedNS, pipelineName) =>
    if negb (bool_decide (rs_Namespace s = expectedNS)) then mret (Ok false)
    else if negb (bool_decide (rs_PipelineRunName s = PipelineRunName IsDNS1123Subdomain pipelineName (rs_RunID s)))
    then mret (Ok false)
    else
      r ← UpdateRunPhase (rs_RunID s) (run_opts s);
      mret (match r with Err ErrRunNotFound => Ok false | r => r end)
  end).
Definition preview_opts (s : RunStatus) : UpdatePreviewPhaseOpts :=
  MkUpdatePreviewPhaseOpts (rs_Phase s) (rs_CurrentStage s) (rs_Message s) (rs_StartedAt s) (rs_CompletedAt s)
    (rs_ResourceVersion s) (rs_StageStatuses s) true.
Definition update_preview (id : string) (o : UpdatePreviewPhaseOpts) (w : World) : World * bool :=
  let (rows, hit) := UpdatePreviewPhase (w_now w) id o (w_previews w) in (set_previews rows w, hit).
Definition DBPreviewUpdater_Update (s : RunStatus) : Op World X (result dberr bool) :=
  let id := default EmptyString (rs_PreviewID s) in
  try_op (db "lookup preview: " (read (λ w, find (λ p, bool_decide (p_ID p = id)) (w_previews w)))) (λ p,
  match p with
  | None => mret (Ok false)
  | Some p =>
    if negb (bool_decide (rs_Namespace s = p_K8sNamespace p)) ||
       negb (bool_decide (rs_PipelineRunName s = PreviewPipelineRunName (p_ID p)))
    then mret (Ok false)
    else db "update preview: " (call (update_preview (p_ID p) (preview_opts s)))
  end).
Definition RoutingUpdater_Update (s : RunStatus) : Op World X (result dberr bool) :=
  match rs_PreviewID s with Some _ => DBPreviewUpdater_Update s | None => DBRunUpdater_Update s end.

(** ** Coalescing *)

Definition status_key (s : RunStatus) : string * string := (rs_Namespace s, rs_PipelineRunName s).
Definition coalesced (c : cache) (s : RunStatus) : bool :=
  match c !! status_key s with Some prev => equalsForDB prev.1 s | None => false end.
Definition CoalescedUpdater_Update (inner : RunStatus → Op World X (result dberr bool)) (c : cache) (s : RunStatus) :
    Op World X (cache * result dberr bool) :=
  if coalesced c s then mret (c, Ok false)
  else
    r ← inner s;
    match r with
    | Err e => mret (c, Err e)
    | Ok false => mret (c, Ok false)
    | Ok true => now ← local w_now; mret (<[status_key s := (s, now)]> c, Ok true)
    end.
Definition Forget (k : string * string) (c : cache) : cache := delete k c.
Definition SweepOnce (now maxAge : Z) (c : cache) : cache := filter (λ kv, (now - maxAge ≤ kv.2.2)%Z) c.

(** ** The reconciler *)

(** The status of an object, or nothing to report. *)
Definition object_status (ns name : string) (o : RunObject) : option RunStatus :=
  if ro_Deleting o then None
  else
    '(id, preview) ← match ro_Labels o !! "datuplet.io/preview-id" with
      | Some l => id ← uuid_Parse l; Some (id, Some id)
      | None => l ← ro_Labels o !! "datuplet.io/run-id"; id ← uuid_Parse l; Some (id, None)
      end;
    if str_empty (ro_Phase o) then None
    else
      rv ← Atoi (ro_ResourceVersion o);
      if (rv <=? 0)%Z then None
      else Some (MkRunStatus id preview ns name (ro_Phase o) (ro_CurrentStage o) (ro_Message o) (ro_StartTime o)
                   (ro_CompletionTime o) rv (ro_StageStatuses o)).
(** [Err] requeues the key. *)
Definition reconcileOne (k : string * string) (c : cache) : Op World X (cache * result string unit) :=
  o ← get_object w_run_objects k;
  match o with
  | Err NotFound => mret (c, Ok ())
  | Err e => mret (c, Err (kerr_text e))
  | Ok o =>
    match object_status k.1 k.2 o with
    | None => mret (c, Ok ())
    | Some s =>
      '(c, r) ← CoalescedUpdater_Update RoutingUpdater_Update c s;
      mret (c, match r with Ok _ => Ok () | Err _ => Err "update run" end)
    end
  end.
End Mirror.

(** ** When no call fails *)

Section Reliable.
Context `{PL : !PoolLib} `{UL : !UuidLib} {X : Type} `{F : !Faults X} `{RL : !Reliable X}.
Variable IsDNS1123Subdomain : string → list string.

(** What the updater does when its calls succeed. *)
Definition mirror (s : RunStatus) (w : World) : World * bool :=
  match identity_row (rs_RunID s) w with
  | None => (w, false)
  | Some (ns, pipeline) =>
    if bool_decide (rs_Namespace s = ns) && bool_decide (rs_PipelineRunName s = PipelineRunName IsDNS1123Subdomain pipeline (rs_RunID s))
    then update_run (rs_RunID s) (run_opts s) w
    else (w, false)
  end.
Lemma DBRunUpdater_done s w x : ∃ x', DBRunUpdater_Update IsDNS1123Subdomain s (w, x) = (((mirror s w).1, x'), Some (Ok (mirror s w).2)).
Proof.
  unfold DBRunUpdater_Update, try_op, db, read, mbind, Op_bind. rewrite call_done. cbn [fst snd]. unfold mret, Op_ret. cbn [map_err]. unfold mirror.
  destruct (identity_row _ _) as [[ns pipeline]|]; [|by eexists].
  destruct (bool_decide (rs_Namespace s = ns)); cbn [negb andb]; [|by eexists].
  destruct (bool_decide (rs_PipelineRunName s = _)); cbn [negb]; [|by eexists].
  unfold UpdateRunPhase, try_op, db, mbind, Op_bind. rewrite call_done. unfold mret, Op_ret. cbn [map_err fst snd run_opts ur_GuardTerminal].
  destruct (update_run _ _ _) as [w' []]; cbn; rewrite ?andb_false_r; by eexists.
Qed.
End Reliable.

(** ** Out-of-band ends stand, and the newest observation wins *)

Definition out_of_band (phase : string) : Prop := phase ∈ ["Cancelled"; "Expired"].
#[export] Instance out_of_band_dec phase : Decision (out_of_band phase).
Proof. unfold out_of_band. apply _. Defined.
(** What the observer sends for an object: a resource version, and a phase of the
    operator. *)
Definition observation (s : RunStatus) : Prop := (0 < rs_ResourceVersion s)%Z ∧ ¬ out_of_band (rs_Phase s).
(** An object has one state per resource version. *)
Definition versions (ss : list RunStatus) : Prop :=
  ∀ s s', s ∈ ss → s' ∈ ss → rs_ResourceVersion s = rs_ResourceVersion s' → s = s'.
Definition row_status (r : Run) : string * string * string * Z := (run_Phase r, run_CurrentStage r, run_Message r, run_ObservedRV r).
Definition fixed_columns (r : Run) := (run_ProjectID r, run_PipelineID r, run_TriggeredBy r, run_CreatedAt r).

Section Newest.
Context {A : Type} (col : Run → option A) (field : RunStatus → option A).
(** A column that is only written when the status has it: the newest status
    decides when it has it; otherwise the column keeps a value of before or of
    another status, and is not erased. *)
Definition coalesced_column (r : Run) (ss : list RunStatus) (s : RunStatus) (r' : Run) : Prop :=
  match field s with
  | Some v => col r' = Some v
  | None => col r' = col r ∨ ∃ s', s' ∈ ss ∧ (run_ObservedRV r < rs_ResourceVersion s')%Z ∧ is_Some (field s') ∧ col r' = field s'
  end.
End Newest.
(** [r'] is [r] brought up to date with the newest of [ss]. *)
Definition newest_wins (r : Run) (ss : list RunStatus) (r' : Run) : Prop :=
  ((∀ s, s ∈ ss → (rs_ResourceVersion s ≤ run_ObservedRV r)%Z) ∧ r' = r) ∨
  ∃ s, s ∈ ss ∧ (run_ObservedRV r < rs_ResourceVersion s)%Z ∧ (∀ s', s' ∈ ss → (rs_ResourceVersion s' ≤ rs_ResourceVersion s)%Z) ∧
    row_status r' = (rs_Phase s, rs_CurrentStage s, rs_Message s, rs_ResourceVersion s) ∧ fixed_columns r' = fixed_columns r ∧
    coalesced_column run_StageStatuses rs_StageStatuses r ss s r' ∧
    coalesced_column run_StartedAt rs_StartedAt r ss s r' ∧
    coalesced_column run_CompletedAt rs_CompletedAt r ss s r'.

(** One observation of a row. *)
Definition observe (now : Z) (r : Run) (s : RunStatus) : Run := if run_guard (run_opts s) r then run_set now (run_opts s) r else r.
Lemma observe_guard now r s : observation s → ¬ out_of_band (run_Phase r) →
  observe now r s = if (run_ObservedRV r <? rs_ResourceVersion s)%Z then run_set now (run_opts s) r else r.
Proof.
  intros [Hrv _] Hr. unfold observe, run_guard. cbn [run_opts ur_ObservedRV ur_GuardTerminal negb orb]. rewrite (bool_decide_false (run_Phase r ∈ _)) by done.
  cbn [negb]. rewrite andb_true_r. rewrite (proj2 (Z.eqb_neq _ _)) by lia. done.
Qed.
Lemma observe_live now r s : observation s → ¬ out_of_band (run_Phase r) → ¬ out_of_band (run_Phase (observe now r s)).
Proof. intros Hs Hr. rewrite observe_guard by done. destruct (_ <? _)%Z; [|done]. apply Hs. Qed.
Lemma observe_out_of_band now r s : out_of_band (run_Phase r) → observe now r s = r.
Proof. intros Hr. unfold observe, run_guard. rewrite (bool_decide_true (run_Phase r ∈ _)) by done. cbn. by rewrite andb_false_r. Qed.
Lemma foldl_out_of_band now r ss : out_of_band (run_Phase r) → foldl (observe now) r ss = r.
Proof. intros Hr. induction ss as [|s ss IH]; [done|]. cbn. by rewrite observe_out_of_band. Qed.
Lemma newest_rv r ss r' : newest_wins r ss r' → (run_ObservedRV r ≤ run_ObservedRV r')%Z ∧ ∀ s, s ∈ ss → (rs_ResourceVersion s ≤ run_ObservedRV r')%Z.
Proof.
  intros [[Hle ->]|(s & Hs & Hlt & Hmax & Hrow & _)]; [by split; [lia|]|]. injection Hrow as _ _ _ ->. split; [lia|done].
Qed.
Section Came.
Context {A : Type} (col : Run → option A) (field : RunStatus → option A).
Definition came (r : Run) (ss : list RunStatus) (v : option A) : Prop :=
  v = col r ∨ ∃ s', s' ∈ ss ∧ (run_ObservedRV r < rs_ResourceVersion s')%Z ∧ is_Some (field s') ∧ v = field s'.
Lemma coalesced_came r ss s r' : s ∈ ss → (run_ObservedRV r < rs_ResourceVersion s)%Z → coalesced_column col field r ss s r' → came r ss (col r').
Proof. unfold coalesced_column, came. intros Hs Hlt. destruct (field s) as [v|] eqn:E; [|done]. intros ->. right. exists s. rewrite E. by split_and!. Qed.
Lemma came_more r ss l v : came r ss v → came r (ss ++ l) v.
Proof. intros [?|(s' & Hs' & H)]; [by left|right]. exists s'. split; [|done]. apply elem_of_app. by left. Qed.
Lemma coalesced_more r ss l s r' : coalesced_column col field r ss s r' → coalesced_column col field r (ss ++ l) s r'.
Proof. unfold coalesced_column. destruct (field s); [done|]. apply came_more. Qed.
Lemma coalesced_last r ss s r1 r' : came r ss (col r1) → col r' = coalesce (field s) (col r1) → coalesced_column col field r (ss ++ [s]) s r'.
Proof. unfold coalesced_column. intros Hc ->. destruct (field s); [done|]. cbn. by apply came_more. Qed.
End Came.
Lemma newest_came r ss r' : newest_wins r ss r' → fixed_columns r' = fixed_columns r ∧
  came run_StageStatuses rs_StageStatuses r ss (run_StageStatuses r') ∧ came run_StartedAt rs_StartedAt r ss (run_StartedAt r') ∧ came run_CompletedAt rs_CompletedAt r ss (run_CompletedAt r').
Proof.
  intros [[_ ->]|(s & Hs & Hlt & _ & _ & Hf & H1 & H2 & H3)]; [split_and!; first [done|by left]|]. split_and!; [done|by eapply coalesced_came..].
Qed.
Lemma newest_step now r ss r1 s : newest_wins r ss r1 → observation s → ¬ out_of_band (run_Phase r1) → newest_wins r (ss ++ [s]) (observe now r1 s).
Proof.
  intros Hn Hs Hr1. destruct (newest_rv _ _ _ Hn) as [Hle Hmax]. destruct (newest_came _ _ _ Hn) as (Hf & C1 & C2 & C3). rewrite observe_guard by done.
  destruct (Z.ltb_spec (run_ObservedRV r1) (rs_ResourceVersion s)) as [Hlt|Hge].
  - right. exists s. split_and!; [apply elem_of_app; right; by left|lia| |cbn; unfold row_status; cbn; do 2 f_equal; lia|by rewrite <- Hf|by eapply coalesced_last..].
    intros s' [Hs'|Hs'%list_elem_of_singleton]%elem_of_app; [specialize (Hmax _ Hs'); lia|by subst s'].
  - destruct Hn as [[Hall ->]|(s0 & Hs0 & Hlt & Hmax0 & Hrow & Hf0 & H1 & H2 & H3)].
    + left. split; [|done]. intros s' [Hs'|Hs'%list_elem_of_singleton]%elem_of_app; [by apply Hall|by subst s'].
    + right. exists s0. split_and!; [apply elem_of_app; by left|done| |done|done|by apply coalesced_more..].
      injection Hrow as _ _ _ Hrv. intros s' [Hs'|Hs'%list_elem_of_singleton]%elem_of_app; [by apply Hmax0|subst s'; lia].
Qed.
Lemma foldl_newest now r ss : Forall observation ss → ¬ out_of_band (run_Phase r) →
  newest_wins r ss (foldl (observe now) r ss) ∧ ¬ out_of_band (run_Phase (foldl (observe now) r ss)).
Proof.
  intros Ho Hr. induction ss as [|s ss IH] using rev_ind; [split; [left|done]; split; [by intros s ?%elem_of_nil|done]|].
  apply Forall_app in Ho as [Ho Hs]. apply Forall_cons in Hs as [Hs _]. destruct (IH Ho) as [IH1 IH2]. rewrite foldl_app. cbn [foldl].
  split; [by apply newest_step|by apply observe_live].
Qed.
(** Two rows that follow the newest of the same statuses. *)
Lemma newest_agree r ss ss' r1 r2 : versions ss → ss ≡ₚ ss' → newest_wins r ss r1 → newest_wins r ss' r2 →
  row_status r1 = row_status r2 ∧ (∀ s, s ∈ ss → rs_ResourceVersion s = run_ObservedRV r1 → (run_ObservedRV r < rs_ResourceVersion s)%Z →
    (is_Some (rs_StageStatuses s) → run_StageStatuses r1 = run_StageStatuses r2) ∧ (is_Some (rs_StartedAt s) → run_StartedAt r1 = run_StartedAt r2) ∧
    (is_Some (rs_CompletedAt s) → run_CompletedAt r1 = run_CompletedAt r2)).
Proof.
  intros Hv Hp [[Ha ->]|(s1 & Hs1 & Hlt1 & Hm1 & Hrow1 & _ & C1 & C2 & C3)] [[Ha' ->]|(s2 & Hs2 & Hlt2 & Hm2 & Hrow2 & _ & D1 & D2 & D3)].
  - done.
  - exfalso. rewrite <- Hp in Hs2. specialize (Ha _ Hs2). lia.
  - exfalso. rewrite Hp in Hs1. specialize (Ha' _ Hs1). lia.
  - assert (s1 = s2) as <-.
    { rewrite <- Hp in Hs2. apply Hv; [done..|]. apply Z.le_antisymm; [apply Hm2; by rewrite <- Hp|by apply Hm1]. }
    split; [by rewrite Hrow1, Hrow2|]. intros s Hs Hrv _. injection Hrow1 as _ _ _ Hrv1. rewrite Hrv1 in Hrv. apply Hv in Hrv as ->; [|done..].
    unfold coalesced_column in *. split_and!; intros [v E]; rewrite E in *; congruence.
Qed.

Section Delivered.
Context `{PL : !PoolLib} {X : Type} `{F : !Faults X} `{RL : !Reliable X}.
Variable IsDNS1123Subdomain : string → list string.

(** The observer hands statuses to the updater, one after the other. *)
Definition deliver (ss : list RunStatus) (s : World * X) : World * X := foldl (λ s st, (DBRunUpdater_Update IsDNS1123Subdomain st s).1) s ss.
(** A status of the run [id]'s own object: not one of a decoy, nor of another run. *)
Definition own (id : string) (w : World) (s : RunStatus) : Prop :=
  rs_RunID s = id ∧ ∃ ns pipeline, identity_row id w = Some (ns, pipeline) ∧ rs_Namespace s = ns ∧ rs_PipelineRunName s = PipelineRunName IsDNS1123Subdomain pipeline id.
#[export] Instance own_dec id w s : Decision (own id w s).
Proof.
  unfold own. destruct (identity_row id w) as [[ns pl]|]; [|right; by intros (_ & ? & ? & [=] & _)].
  destruct (decide (rs_RunID s = id ∧ rs_Namespace s = ns ∧ rs_PipelineRunName s = PipelineRunName IsDNS1123Subdomain pl id)) as [(? & ? & ?)|Hn]; [left|right].
  - split; [done|]. by exists ns, pl.
  - intros (? & ? & ? & [= <- <-] & ? & ?). by destruct Hn.
Defined.
Lemma mirror_row id w s r : w_runs w !! id = Some r → w_runs (mirror IsDNS1123Subdomain s w).1 !! id = Some (if decide (own id w s) then observe (w_now w) r s else r).
Proof.
  intros Hr. unfold mirror. destruct (decide (own id w s)) as [(Hid & ns & pl & Hi & Hns & Hn)|Hno].
  - rewrite Hid, Hi, !bool_decide_true by done. cbn [andb]. unfold update_run. rewrite Hr. unfold observe. destruct (run_guard _ _); [|done]. cbn. by rewrite lookup_insert_eq.
  - destruct (identity_row (rs_RunID s) w) as [[ns pl]|] eqn:Ei; [|done].
    destruct (bool_decide_reflect (rs_Namespace s = ns)) as [Hns|]; cbn [andb]; [|done]. destruct (bool_decide_reflect (rs_PipelineRunName s = PipelineRunName IsDNS1123Subdomain pl (rs_RunID s))) as [Hn|]; [|done].
    assert (rs_RunID s ≠ id) as Hne by (intros <-; apply Hno; split; [done|]; by exists ns, pl).
    unfold update_run. destruct (w_runs w !! rs_RunID s); [|done]. destruct (run_guard _ _); [|done]. cbn. by rewrite lookup_insert_ne.
Qed.
Lemma mirror_same s w : w_now (mirror IsDNS1123Subdomain s w).1 = w_now w ∧ ∀ id, identity_row id (mirror IsDNS1123Subdomain s w).1 = identity_row id w.
Proof.
  unfold mirror. destruct (identity_row (rs_RunID s) w) as [[ns pl]|]; [|done]. destruct (_ && _); [|done]. unfold update_run. destruct (w_runs w !! rs_RunID s) as [r|] eqn:Er; [|done].
  destruct (run_guard _ _); [|done]. split; [done|]. intros id. unfold identity_row. cbn. destruct (decide (id = rs_RunID s)) as [->|]; [by rewrite lookup_insert_eq, Er|by rewrite lookup_insert_ne].
Qed.
Lemma own_identity id w w' s : identity_row id w' = identity_row id w → own id w' s ↔ own id w s.
Proof. unfold own. by intros ->. Qed.
Lemma deliver_row id ss w x r : w_runs w !! id = Some r → w_runs (deliver ss (w, x)).1 !! id = Some (foldl (observe (w_now w)) r (filter (own id w) ss)).
Proof.
  revert w x r. induction ss as [|s ss IH]; intros w x r Hr; [done|]. unfold deliver. cbn [foldl]. destruct (DBRunUpdater_done IsDNS1123Subdomain s w x) as [x' ->]. cbn [fst].
  pose proof (mirror_row id w s r Hr) as Hr'. destruct (mirror_same s w) as [Hnow Hid]. specialize (IH _ x' _ Hr'). unfold deliver in IH. rewrite IH, Hnow. f_equal.
  rewrite filter_cons. assert (filter (own id (mirror IsDNS1123Subdomain s w).1) ss = filter (own id w) ss) as -> by (apply list_filter_iff; intros s'; by apply own_identity).
  by destruct (decide (own id w s)).
Qed.
End Delivered.
Arguments own {_} _ _ _ _.
Arguments deliver {_ _ _} _ _ _.

(** C19: The row of a run follows its newest status, in whatever order the
    observer's events arrive and however often they are replayed.  When no call
    fails and statuses of any runs and decoys are handed to the updater, the row of
    a run that was cancelled or expired stays as it is; the row of another one that
    is older than the newest status of its own object has that one's phase, stage,
    message and resource version afterwards, and its stage statuses, start and end
    where it has them.  Where it does not, each of these columns keeps the value it
    had or takes that of another status, which may depend on the order, and none is
    erased; project, pipeline, author and creation time never change.  Any two orders
    agree on all columns but those the newest status leaves out and the time of the
    update. *)
Theorem mirror_converges `{PL : !PoolLib} {X : Type} `{F : !Faults X} `{RL : !Reliable X} (IsDNS1123Subdomain : string → list string)
    (id : string) (ss ss' : list RunStatus) (w : World) (x x' : X) (r : Run)
    (Hr : w_runs w !! id = Some r) (Hown : Forall observation (filter (own IsDNS1123Subdomain id w) ss))
    (Hv : versions (filter (own IsDNS1123Subdomain id w) ss)) (Hp : ss ≡ₚ ss') :
  let mine := filter (own IsDNS1123Subdomain id w) ss in
  ∃ r1 r2, w_runs (deliver IsDNS1123Subdomain ss (w, x)).1 !! id = Some r1 ∧ w_runs (deliver IsDNS1123Subdomain ss' (w, x')).1 !! id = Some r2 ∧
    (out_of_band (run_Phase r) → r1 = r) ∧ (¬ out_of_band (run_Phase r) → newest_wins r mine r1) ∧
    row_status r1 = row_status r2 ∧ fixed_columns r1 = fixed_columns r2 ∧
    (¬ out_of_band (run_Phase r) → ∀ s, s ∈ mine → rs_ResourceVersion s = run_ObservedRV r1 → (run_ObservedRV r < rs_ResourceVersion s)%Z →
      (is_Some (rs_StageStatuses s) → run_StageStatuses r1 = run_StageStatuses r2) ∧ (is_Some (rs_StartedAt s) → run_StartedAt r1 = run_StartedAt r2) ∧
      (is_Some (rs_CompletedAt s) → run_CompletedAt r1 = run_CompletedAt r2)).
Proof.
  intros mine. subst mine. set (mine := filter _ ss) in *. pose proof (filter_Permutation (own IsDNS1123Subdomain id w) _ _ Hp) as Hpm. fold mine in Hpm. set (mine' := filter _ ss') in *.
  exists (foldl (observe (w_now w)) r mine), (foldl (observe (w_now w)) r mine'). split; [by apply deliver_row|]. split; [by apply deliver_row|].
  destruct (decide (out_of_band (run_Phase r))) as [Ho|Ho]; [rewrite !foldl_out_of_band by done; by split_and!|].
  assert (Forall observation mine') as Hown' by by rewrite <- Hpm. destruct (foldl_newest (w_now w) r mine Hown Ho) as [H1 _], (foldl_newest (w_now w) r mine' Hown' Ho) as [H2 _].
  destruct (newest_agree _ _ _ _ _ Hv Hpm H1 H2) as [Hs Hc]. split_and!; [done|done|done| |by intros _]. by rewrite (proj1 (newest_came _ _ _ H1)), (proj1 (newest_came _ _ _ H2)).
Qed.

(** ** Decoys *)

Section Decoys.
Context `{PL : !PoolLib} {X : Type} `{F : !Faults X}.
Variable IsDNS1123Subdomain : string → list string.

(** Whatever calls fail, an update of the observer changes at most the row of
    the run it names, and that only when it comes from the namespace of the run's
    project and carries the name derived from the run's pipeline and id: a decoy
    that copies a run's label cannot write its status.  The row was not
    cancelled or expired, and was older. *)
Theorem decoy_rejected (s : RunStatus) (w : World) (x : X) :
  let '((w', _), _) := DBRunUpdater_Update IsDNS1123Subdomain s (w, x) in
  w' = w ∨ ∃ r p pl, w_runs w !! rs_RunID s = Some r ∧ w_projects w !! run_ProjectID r = Some p ∧
    w_pipelines w !! run_PipelineID r = Some pl ∧ rs_Namespace s = pj_K8sNamespace p ∧
    rs_PipelineRunName s = PipelineRunName IsDNS1123Subdomain (pl_Name pl) (rs_RunID s) ∧
    ¬ out_of_band (run_Phase r) ∧ (rs_ResourceVersion s = 0 ∨ run_ObservedRV r < rs_ResourceVersion s)%Z ∧
    w' = set_runs (<[rs_RunID s := run_set (w_now w) (run_opts s) r]> (w_runs w)) w.
Proof.
  unfold DBRunUpdater_Update, try_op, db, read, mbind, Op_bind. unfold call at 1. cbn [fst snd]. destruct (fault x) as [x1 []].
  2-3: by left. 2: by destruct applied; left.
  unfold mret, Op_ret. cbn [map_err fst snd]. destruct (identity_row _ w) as [[ns pipeline]|] eqn:Eid; [|by left].
  unfold identity_row in Eid. destruct (w_runs w !! rs_RunID s) as [r|] eqn:Er; [|done]. cbn in Eid.
  destruct (w_projects w !! run_ProjectID r) as [p|] eqn:Ep; [|done]. cbn in Eid. destruct (w_pipelines w !! run_PipelineID r) as [pl|] eqn:Epl; [|done].
  injection Eid as <- <-.
  destruct (bool_decide_reflect (rs_Namespace s = pj_K8sNamespace p)) as [Hns|]; [|by left].
  destruct (bool_decide_reflect (rs_PipelineRunName s = PipelineRunName IsDNS1123Subdomain (pl_Name pl) (rs_RunID s))) as [Hn|]; [|by left].
  cbn [negb]. unfold UpdateRunPhase, try_op, db, mbind, Op_bind, call, update_run. cbn [fst snd]. rewrite Er. unfold run_guard. cbn [run_opts ur_ObservedRV ur_GuardTerminal negb orb].
  destruct (_ && _) eqn:Eg.
  - apply andb_true_iff in Eg as [Eg1 Eg2]. apply negb_true_iff, bool_decide_eq_false in Eg2.
    assert (rs_ResourceVersion s = 0 ∨ run_ObservedRV r < rs_ResourceVersion s)%Z as Hrv by (apply orb_true_iff in Eg1 as [?|?]; to_arith; auto).
    destruct (fault x1) as [x2 []]; cbn; try destruct applied; try (by left); right; exists r, p, pl; done.
  - destruct (fault x1) as [x2 []]; cbn; rewrite ?andb_false_r; try destruct applied; by left.
Qed.
End Decoys.

(** ** Coalescing loses nothing *)

Lemma str_app_same_length p q s t : slen s = slen t → p +:+ s = q +:+ t → s = t.
Proof.
  revert q. induction p as [|c p IH]; intros [|d q] Hl; rewrite ?str_nil_app, ?str_app_cons; intros E.
  - done.
  - apply (f_equal slen) in E. cbn in E. rewrite slen_app in E. lia.
  - apply (f_equal slen) in E. cbn in E. rewrite slen_app in E. lia.
  - injection E as _ E. by eapply IH.
Qed.
Lemma PipelineRunName_inj `{PL : !PoolLib} V p p' id id' : slen id = slen id' →
  PipelineRunName V p id = PipelineRunName V p' id' → id = id'.
Proof.
  intros Hl. unfold PipelineRunName.
  destruct (is_empty _), (is_empty _); rewrite <-?(str_app_assoc _ _ id), <-?(str_app_assoc _ _ id');
    rewrite <-?(str_app_assoc _ (_ +:+ _) id), <-?(str_app_assoc _ (_ +:+ _) id'); by apply str_app_same_length.
Qed.

Section Coalescing.
Context `{PL : !PoolLib} {X : Type} `{F : !Faults X} `{RL : !Reliable X}.
Variable IsDNS1123Subdomain : string → list string.

(** What the observer meets: statuses of runs, and what happens elsewhere: other
    writes, deletions of objects, the janitor, a restart of its process. *)
Inductive event : Type :=
| Observe (s : RunStatus)
| Elsewhere (f : World → World)
| Deleted (k : string * string)
| Janitor (maxAge : Z)
| Restarted.
Definition direct (s : World * X) (ev : event) : World * X :=
  match ev with
  | Observe st => (DBRunUpdater_Update IsDNS1123Subdomain st s).1
  | Elsewhere f => (f s.1, s.2)
  | _ => s
  end.
Definition coalescing (sc : World * X * cache) (ev : event) : World * X * cache :=
  let '(s, c) := sc in
  match ev with
  | Observe st =>
    match CoalescedUpdater_Update (DBRunUpdater_Update IsDNS1123Subdomain) c st s with
    | (s', Some (c', _)) => (s', c')
    | (s', None) => (s', ∅)
    end
  | Elsewhere f => ((f s.1, s.2), c)
  | Deleted k => (s, Forget k c)
  | Janitor maxAge => (s, SweepOnce (w_now s.1) maxAge c)
  | Restarted => (s, ∅)
  end.

(** What a reader of the row sees: all but the resource version and the time of the update. *)
Definition content (r : Run) :=
  (run_ProjectID r, run_PipelineID r, run_Phase r, run_CurrentStage r, run_Message r, run_StageStatuses r,
   run_StartedAt r, run_CompletedAt r, run_TriggeredBy r, run_CreatedAt r).
Definition same_content (w w' : World) : Prop :=
  w_projects w = w_projects w' ∧ w_pipelines w = w_pipelines w' ∧ content <$> w_runs w = content <$> w_runs w'.
(** Other writers only cancel, expire or delete runs. *)
Definition only_ends (f : World → World) : Prop :=
  (∀ w w', same_content w w' → same_content (f w) (f w')) ∧
  ∀ w, w_projects (f w) = w_projects w ∧ w_pipelines (f w) = w_pipelines w ∧
    ∀ id r', w_runs (f w) !! id = Some r' → ∃ r, w_runs w !! id = Some r ∧ (run_ObservedRV r' ≤ Z.max 0 (run_ObservedRV r))%Z ∧
      run_ProjectID r' = run_ProjectID r ∧ run_PipelineID r' = run_PipelineID r ∧
      (content r' = content r ∨ out_of_band (run_Phase r')).
Definition status_ok (s : RunStatus) : Prop :=
  slen (rs_RunID s) = 36 ∧ rs_StageStatuses s ≠ Some EmptyString ∧ (0 < rs_ResourceVersion s)%Z ∧ ¬ out_of_band (rs_Phase s).
Definition event_ok (ev : event) : Prop :=
  match ev with Observe s => status_ok s | Elsewhere f => only_ends f | _ => True end.
(** The resource versions of each run increase, from those of its row on. *)
Fixpoint increasing (seen : string → Z) (evs : list event) : Prop :=
  match evs with
  | [] => True
  | Observe s :: evs => (seen (rs_RunID s) < rs_ResourceVersion s)%Z ∧
      increasing (λ id, if decide (id = rs_RunID s) then rs_ResourceVersion s else seen id) evs
  | _ :: evs => increasing seen evs
  end.
Definition seen_in (w : World) (id : string) : Z := match w_runs w !! id with Some r => Z.max 0 (run_ObservedRV r) | None => 0 end.

(** A row that already says what a status says. *)
Definition absorbs (s : RunStatus) (r : Run) : Prop :=
  run_Phase r = rs_Phase s ∧ run_CurrentStage r = rs_CurrentStage s ∧ run_Message r = rs_Message s ∧
  coalesce (rs_StageStatuses s) (run_StageStatuses r) = run_StageStatuses r ∧
  coalesce (rs_StartedAt s) (run_StartedAt r) = run_StartedAt r ∧
  coalesce (rs_CompletedAt s) (run_CompletedAt r) = run_CompletedAt r.
Definition matches (s : RunStatus) (w : World) : Prop :=
  ∃ ns pipeline, identity_row (rs_RunID s) w = Some (ns, pipeline) ∧ rs_Namespace s = ns ∧
    rs_PipelineRunName s = PipelineRunName IsDNS1123Subdomain pipeline (rs_RunID s).
Definition bounded (seen : string → Z) (w : World) : Prop :=
  ∀ id, (0 ≤ seen id)%Z ∧ ∀ r, w_runs w !! id = Some r → (run_ObservedRV r ≤ seen id)%Z.
Definition cache_ok (c : cache) (w : World) : Prop :=
  ∀ k p t, c !! k = Some (p, t) → status_key p = k ∧ status_ok p ∧
    (∃ pipeline, rs_PipelineRunName p = PipelineRunName IsDNS1123Subdomain pipeline (rs_RunID p)) ∧
    ∀ r, w_runs w !! rs_RunID p = Some r → matches p w ∧ (out_of_band (run_Phase r) ∨ absorbs p r).

Lemma same_content_row w w' id r : same_content w w' → w_runs w !! id = Some r →
  ∃ r', w_runs w' !! id = Some r' ∧ content r' = content r.
Proof.
  intros (_ & _ & H) Hr. apply (f_equal (λ m, m !! id)) in H. rewrite !lookup_fmap, Hr in H. cbn in H.
  destruct (w_runs w' !! id) as [r'|]; [|done]. exists r'. split; [done|]. cbn in H. by apply (inj Some) in H.
Qed.
Lemma same_content_sym w w' : same_content w w' → same_content w' w.
Proof. intros (H1 & H2 & H3). by split_and!. Qed.
Lemma identity_same w w' id : same_content w w' → identity_row id w = identity_row id w'.
Proof.
  intros Hs. pose proof Hs as (Hp & Hpl & _). unfold identity_row. destruct (w_runs w !! id) as [r|] eqn:E.
  - destruct (same_content_row _ _ _ _ Hs E) as (r' & -> & Hc). cbn. rewrite Hp, Hpl. unfold content in Hc. injection Hc as -> ->. done.
  - destruct (w_runs w' !! id) as [r'|] eqn:E'; [|done]. destruct (same_content_row _ _ _ _ (same_content_sym _ _ Hs) E') as (r & Hr & _). congruence.
Qed.
Lemma mirror_inert s w : (mirror IsDNS1123Subdomain s w).2 = false → (mirror IsDNS1123Subdomain s w).1 = w.
Proof.
  unfold mirror, update_run. destruct (identity_row _ _) as [[ns pl]|]; [|done]. destruct (_ && _); [|done].
  destruct (w_runs w !! _); [|done]. by destruct (run_guard _ _).
Qed.
(** An update that is not out of date. *)
Lemma mirror_fresh seen s w : status_ok s → bounded seen w → (seen (rs_RunID s) < rs_ResourceVersion s)%Z →
  (mirror IsDNS1123Subdomain s w = (w, false) ∧ (matches s w → ∀ r, w_runs w !! rs_RunID s = Some r → out_of_band (run_Phase r))) ∨
  ∃ r, w_runs w !! rs_RunID s = Some r ∧ matches s w ∧ ¬ out_of_band (run_Phase r) ∧
    mirror IsDNS1123Subdomain s w = (set_runs (<[rs_RunID s := run_set (w_now w) (run_opts s) r]> (w_runs w)) w, true).
Proof.
  intros (_ & _ & Hrv & _) Hb Hlt. unfold mirror, matches, update_run.
  destruct (identity_row (rs_RunID s) w) as [[ns pl]|] eqn:Eid; [|left; split; [done|]; intros (ns & pl & [=] & _)].
  destruct (bool_decide_reflect (rs_Namespace s = ns)) as [->|Hn]; cbn [andb];
    [|left; split; [done|]; intros (ns' & pl' & [= <- <-] & ? & _); by destruct Hn].
  destruct (bool_decide_reflect (rs_PipelineRunName s = PipelineRunName IsDNS1123Subdomain pl (rs_RunID s))) as [Hm|Hm];
    [|left; split; [done|]; intros (ns' & pl' & [= <- <-] & _ & ?); by destruct Hm].
  destruct (w_runs w !! rs_RunID s) as [r|] eqn:Er; [|by left]. destruct (Hb (rs_RunID s)) as [_ Hle]. specialize (Hle _ Er). unfold run_guard. cbn [run_opts ur_ObservedRV ur_GuardTerminal negb orb].
  destruct (rs_ResourceVersion s =? 0)%Z eqn:E0; to_arith; [lia|]. destruct (run_ObservedRV r <? rs_ResourceVersion s)%Z eqn:E1; to_arith; [|lia].
  cbn [orb andb]. destruct (bool_decide _) eqn:Eo; cbn [negb]; [apply bool_decide_eq_true in Eo|apply bool_decide_eq_false in Eo].
  - left. split; [done|]. by intros _ r' [= <-].
  - right. exists r. split_and!; try done. by exists ns, pl.
Qed.

Lemma run_set_content now now' s r r' : content r = content r' → content (run_set now (run_opts s) r) = content (run_set now' (run_opts s) r').
Proof. unfold content. cbn. intros [= -> -> _ _ _ -> -> -> -> ->]. done. Qed.
Lemma run_set_absorbed now s p r : status_ok s → status_ok p → equalsForDB p s = true → absorbs p r →
  content (run_set now (run_opts s) r) = content r.
Proof.
  intros (_ & Hs & _) (_ & Hp & _) He (H1 & H2 & H3 & H4 & H5 & H6). unfold equalsForDB in He.
  rewrite !andb_true_iff, !bool_decide_eq_true in He. destruct He as (((((E1 & E2) & E3) & E4) & E5) & E6).
  unfold timePtrEqual in *. rewrite bool_decide_eq_true in E4, E5. unfold bytes_Equal in E6. rewrite bool_decide_eq_true in E6.
  assert (rs_StageStatuses p = rs_StageStatuses s) as Ess.
  { destruct (rs_StageStatuses p), (rs_StageStatuses s); cbn in E6; congruence. }
  unfold content. cbn. by rewrite <-E1, <-E2, <-E3, <-E4, <-E5, <-Ess, H1, H2, H3, H4, H5, H6.
Qed.
Lemma absorbs_set now s r : absorbs s (run_set now (run_opts s) r).
Proof. unfold absorbs. cbn. split_and!; try done; by destruct (rs_StageStatuses s), (rs_StartedAt s), (rs_CompletedAt s). Qed.
Lemma absorbs_content s r r' : content r = content r' → absorbs s r → absorbs s r'.
Proof. unfold content, absorbs. intros [= _ _ -> -> -> -> -> -> _ _]. done. Qed.
Lemma content_phase r r' : content r = content r' → run_Phase r = run_Phase r'.
Proof. unfold content. congruence. Qed.
Lemma same_content_insert w w' id r r' : same_content w w' → content r = content r' →
  same_content (set_runs (<[id := r]> (w_runs w)) w) (set_runs (<[id := r']> (w_runs w')) w').
Proof. intros (H1 & H2 & H3) Hr. split_and!; [done..|]. cbn. by rewrite !fmap_insert, H3, Hr. Qed.
Lemma same_content_absorb w w' id r r0 : same_content w w' → w_runs w !! id = Some r0 → content r = content r0 →
  same_content (set_runs (<[id := r]> (w_runs w)) w) w'.
Proof.
  intros (H1 & H2 & H3) Hr Hc. split_and!; [done..|]. cbn. rewrite fmap_insert, Hc, <-H3. apply insert_id. by rewrite lookup_fmap, Hr.
Qed.
Lemma matches_set s p w r r0 : w_runs w !! rs_RunID s = Some r0 → run_ProjectID r = run_ProjectID r0 → run_PipelineID r = run_PipelineID r0 →
  matches p w → matches p (set_runs (<[rs_RunID s := r]> (w_runs w)) w).
Proof.
  intros Hr H1 H2 (ns & pl & Hid & H). exists ns, pl. split; [|done]. rewrite <-Hid. unfold identity_row. cbn.
  destruct (decide (rs_RunID p = rs_RunID s)) as [E|E]; [|by rewrite lookup_insert_ne].
  rewrite E, lookup_insert_eq, Hr. cbn. by rewrite H1, H2.
Qed.
Lemma bounded_insert seen w s r : bounded seen w → (seen (rs_RunID s) < rs_ResourceVersion s)%Z →
  (run_ObservedRV r ≤ rs_ResourceVersion s)%Z →
  bounded (λ id, if decide (id = rs_RunID s) then rs_ResourceVersion s else seen id) (set_runs (<[rs_RunID s := r]> (w_runs w)) w).
Proof.
  intros Hb Hs Hr id. pose proof (Hb (rs_RunID s)) as [H0 _]. cbn. destruct (decide (id = rs_RunID s)) as [->|E].
  - split; [lia|]. intros r1. by rewrite lookup_insert_eq; intros [= <-].
  - split; [apply Hb|]. intros r1. rewrite lookup_insert_ne by done. apply Hb.
Qed.
Lemma bounded_seen seen w s : bounded seen w → (seen (rs_RunID s) < rs_ResourceVersion s)%Z →
  bounded (λ id, if decide (id = rs_RunID s) then rs_ResourceVersion s else seen id) w.
Proof.
  intros Hb Hs id. pose proof (Hb id) as [H0 H1]. split; [destruct (decide _) as [->|]; lia|]. intros r Hr. pose proof (H1 _ Hr). destruct (decide _) as [->|]; lia.
Qed.
Lemma cache_ok_set c w s r t : status_ok s → w_runs w !! rs_RunID s = Some r → matches s w → cache_ok c w →
  let w' := set_runs (<[rs_RunID s := run_set (w_now w) (run_opts s) r]> (w_runs w)) w in
  cache_ok (<[status_key s := (s, t)]> c) w'.
Proof.
  intros Hok Hr Hm Hc. cbv zeta. intros k p t'. destruct (decide (k = status_key s)) as [->|Hk].
  - rewrite lookup_insert_eq. intros [= <- <-]. destruct Hm as (ns & pl & Hm). split_and!; [done..|by exists pl; apply Hm|].
    intros r'. cbn. rewrite lookup_insert_eq. intros [= <-]. split; [eapply matches_set; [done..|]; by exists ns, pl|right; apply absorbs_set].
  - rewrite lookup_insert_ne by done. intros Hp. destruct (Hc _ _ _ Hp) as (H1 & H2 & H3 & H4). split_and!; try done.
    intros r'. cbn. destruct (decide (rs_RunID p = rs_RunID s)) as [E|E].
    + intros _. rewrite E in H4. destruct (H4 r Hr) as [(ns & pl & Hid & Hns & Hn) _]. destruct Hm as (ns' & pl' & Hid' & Hns' & Hn').
      rewrite E, Hid' in Hid. injection Hid as -> ->. destruct Hk. rewrite <-H1. unfold status_key. by rewrite Hns, Hn, Hns', Hn', E.
    + rewrite lookup_insert_ne by done. intros Hr'. destruct (H4 r' Hr') as [Hm' Ha]. split; [by eapply matches_set|done].
Qed.

Definition synced (seen : string → Z) (w1 w2 : World) (c : cache) : Prop :=
  same_content w1 w2 ∧ bounded seen w1 ∧ bounded seen w2 ∧ cache_ok c w2.
Lemma cache_ok_sub c c' w : c' ⊆ c → cache_ok c w → cache_ok c' w.
Proof. intros Hsub Hc k p t Hk. eapply Hc, lookup_weaken; [exact Hk|done]. Qed.
Lemma elsewhere_synced seen w1 w2 c f : only_ends f → synced seen w1 w2 c → synced seen (f w1) (f w2) c.
Proof.
  intros [Hf1 Hf2] (H1 & H2 & H3 & H4). split_and!; [by apply Hf1| | |].
  - intros id. destruct (H2 id) as [H0 Hb]. split; [done|]. intros r Hr. destruct (Hf2 w1) as (_ & _ & Hrow).
    destruct (Hrow _ _ Hr) as (r0 & Hr0 & Hle & _). pose proof (Hb _ Hr0). lia.
  - intros id. destruct (H3 id) as [H0 Hb]. split; [done|]. intros r Hr. destruct (Hf2 w2) as (_ & _ & Hrow).
    destruct (Hrow _ _ Hr) as (r0 & Hr0 & Hle & _). pose proof (Hb _ Hr0). lia.
  - intros k p t Hk. destruct (H4 _ _ _ Hk) as (Hkey & Hok & Hn & Hr). split_and!; try done. intros r Hr'.
    destruct (Hf2 w2) as (Hp & Hpl & Hrow). destruct (Hrow _ _ Hr') as (r0 & Hr0 & _ & E1 & E2 & Hc). destruct (Hr _ Hr0) as [(ns & pl & Hid & Hm) Ha]. split.
    + exists ns, pl. split; [|done]. rewrite <-Hid. unfold identity_row. by rewrite Hr', Hr0, Hp, Hpl; cbn; rewrite E1, E2.
    + destruct Hc as [Hc|Hc]; [|by left]. rewrite (content_phase _ _ Hc). destruct Ha as [?|Ha]; [by left|right]. by eapply absorbs_content.
Qed.
(** One observation, in both. *)
Lemma observe_synced seen s w1 w2 c t : status_ok s → (seen (rs_RunID s) < rs_ResourceVersion s)%Z → synced seen w1 w2 c →
  let seen' id := if decide (id = rs_RunID s) then rs_ResourceVersion s else seen id in
  let m1 := mirror IsDNS1123Subdomain s w1 in let m2 := mirror IsDNS1123Subdomain s w2 in
  if coalesced c s then synced seen' m1.1 w2 c
  else m1.2 = m2.2 ∧ synced seen' m1.1 m2.1 (if m2.2 then <[status_key s := (s, t)]> c else c).
Proof.
  intros Hok Hlt (H1 & H2 & H3 & H4) seen' m1 m2. subst m1 m2.
  destruct (mirror_fresh seen s w1 Hok H2 Hlt) as [[-> Hm1]|(r1 & Hr1 & Hm1 & Ho1 & ->)];
    (destruct (coalesced c s) eqn:Ec; [|destruct (mirror_fresh seen s w2 Hok H3 Hlt) as [[-> Hm2]|(r2 & Hr2 & Hm2 & Ho2 & ->)]]); cbn [fst snd].
  - split_and!; [done|by apply bounded_seen..|done].
  - split; [done|]. split_and!; [done|by apply bounded_seen..|done].
  - exfalso. destruct (same_content_row _ _ _ _ (same_content_sym _ _ H1) Hr2) as (r1 & Hr1 & Hc). apply Ho2. rewrite <-(content_phase _ _ Hc).
    apply (Hm1); [|done]. destruct Hm2 as (ns & pl & Hid & Hm2). exists ns, pl. by rewrite (identity_same _ _ _ H1).
  - unfold coalesced in Ec. destruct (c !! status_key s) as [[p tp]|] eqn:Ep; [|done]. cbn in Ec.
    destruct (H4 _ _ _ Ep) as (Hkey & Hokp & (pl & Hn) & Hrow). destruct Hm1 as (ns & pl' & Hid & Hns & Hn').
    assert (rs_RunID p = rs_RunID s) as Eid.
    { apply (PipelineRunName_inj IsDNS1123Subdomain pl pl'); [destruct Hok as [-> _]; by destruct Hokp as [-> _]|].
      rewrite <-Hn, <-Hn'. unfold status_key in Hkey. by injection Hkey. }
    destruct (same_content_row _ _ _ _ H1 Hr1) as (r2 & Hr2 & Hc). rewrite Eid in Hrow. destruct (Hrow _ Hr2) as [_ [Ho|Ha]].
    + destruct Ho1. by rewrite <-(content_phase _ _ Hc).
    + split_and!; [|apply bounded_insert; [done..|]|by apply bounded_seen|done].
      * eapply same_content_absorb; [done..|]. eapply run_set_absorbed; [done..|]. by eapply absorbs_content.
      * cbn. destruct (H2 (rs_RunID s)) as [_ Hb]. pose proof (Hb _ Hr1). lia.
  - exfalso. destruct (same_content_row _ _ _ _ H1 Hr1) as (r2 & Hr2 & Hc). apply Ho1. rewrite <-(content_phase _ _ Hc).
    apply (Hm2); [|done]. destruct Hm1 as (ns & pl & Hid & Hm1). exists ns, pl. by rewrite <-(identity_same _ _ _ H1).
  - split; [done|]. destruct (same_content_row _ _ _ _ H1 Hr1) as (r2' & Hr2' & Hc). rewrite Hr2 in Hr2'. injection Hr2' as <-.
    destruct (H2 (rs_RunID s)) as [_ Hb1], (H3 (rs_RunID s)) as [_ Hb2]. pose proof (Hb1 _ Hr1). pose proof (Hb2 _ Hr2).
    split_and!; [apply same_content_insert; [done|]; by apply run_set_content|apply bounded_insert; [done..|]; cbn; lia
      |apply bounded_insert; [done..|]; cbn; lia|by apply cache_ok_set].
Qed.
Definition seen_after (seen : string → Z) (ev : event) : string → Z :=
  match ev with Observe s => λ id, if decide (id = rs_RunID s) then rs_ResourceVersion s else seen id | _ => seen end.
Definition event_new (seen : string → Z) (ev : event) : Prop :=
  match ev with Observe s => (seen (rs_RunID s) < rs_ResourceVersion s)%Z | _ => True end.
Lemma step_synced seen ev w1 x1 w2 x2 c : event_ok ev → event_new seen ev → synced seen w1 w2 c →
  synced (seen_after seen ev) (direct (w1, x1) ev).1 (coalescing (w2, x2, c) ev).1.1 (coalescing (w2, x2, c) ev).2.
Proof.
  intros Hok Hnew Hs. destruct ev as [s|f|k|maxAge|]; cbn [seen_after direct coalescing].
  - destruct (DBRunUpdater_done IsDNS1123Subdomain s w1 x1) as [x1' ->]. cbn [fst snd]. pose proof (observe_synced seen s w1 w2 c (w_now (mirror IsDNS1123Subdomain s w2).1) Hok Hnew Hs) as H.
    unfold CoalescedUpdater_Update. destruct (coalesced c s); [exact H|]. unfold mbind, Op_bind.
    destruct (DBRunUpdater_done IsDNS1123Subdomain s w2 x2) as [x2' ->]. destruct H as [_ H].
    destruct (mirror IsDNS1123Subdomain s w2).2; exact H.
  - by apply elsewhere_synced.
  - destruct Hs as (H1 & H2 & H3 & H4). split_and!; [done..|]. eapply cache_ok_sub, H4. apply delete_subseteq.
  - destruct Hs as (H1 & H2 & H3 & H4). split_and!; [done..|]. eapply cache_ok_sub, H4. apply map_filter_subseteq.
  - destruct Hs as (H1 & H2 & H3 & H4). split_and!; [done..|]. intros k p t. cbn [snd]. by rewrite lookup_empty.
Qed.
Lemma increasing_cons seen ev evs : increasing seen (ev :: evs) → event_new seen ev ∧ increasing (seen_after seen ev) evs.
Proof. destruct ev; cbn; naive_solver. Qed.
Lemma events_synced seen evs w1 x1 w2 x2 c : Forall event_ok evs → increasing seen evs → synced seen w1 w2 c →
  same_content (foldl direct (w1, x1) evs).1 (foldl coalescing (w2, x2, c) evs).1.1.
Proof.
  intros Hok. revert seen w1 x1 w2 x2 c. induction Hok as [|ev evs Hev _ IH]; intros seen w1 x1 w2 x2 c Hinc Hs; [apply Hs|].
  apply increasing_cons in Hinc as [Hnew Hinc]. pose proof (step_synced seen ev w1 x1 w2 x2 c Hev Hnew Hs) as Hs'. cbn [foldl].
  destruct (direct (w1, x1) ev) as [w1' x1'], (coalescing (w2, x2, c) ev) as [[w2' x2'] c']. by eapply IH.
Qed.
(** What a cancel and the reaper write. *)
Lemma end_only_ends id o : ur_ObservedRV o = 0%Z → out_of_band (ur_Phase o) → only_ends (λ w, (update_run id o w).1).
Proof.
  intros Hrv Ho. split.
  - intros w w' Hs. unfold update_run. destruct (w_runs w !! id) as [r|] eqn:Er.
    + destruct (same_content_row _ _ _ _ Hs Er) as (r' & -> & Hc). unfold run_guard. rewrite Hrv. cbn [Z.eqb orb andb]. rewrite (content_phase _ _ Hc).
      destruct (_ || _); [|done]. cbn. apply same_content_insert; [done|]. unfold content in *. cbn. by injection Hc as -> -> _ _ _ -> -> -> -> ->.
    + destruct (w_runs w' !! id) as [r'|] eqn:Er'; [|done].
      destruct (same_content_row _ _ _ _ (same_content_sym _ _ Hs) Er') as (r & Hr & _). congruence.
  - intros w. assert (∀ i r', w_runs w !! i = Some r' → ∃ r, w_runs w !! i = Some r ∧ (run_ObservedRV r' ≤ Z.max 0 (run_ObservedRV r))%Z ∧
      run_ProjectID r' = run_ProjectID r ∧ run_PipelineID r' = run_PipelineID r ∧ (content r' = content r ∨ out_of_band (run_Phase r'))) as Hsame.
    { intros i r' Hr'. exists r'. split_and!; [done|lia|done..|by left]. }
    unfold update_run. destruct (w_runs w !! id) as [r|] eqn:Er; [|by split_and!].
    destruct (run_guard o r); [|by split_and!]. split_and!; [done..|]. intros i r'. cbn.
    destruct (decide (i = id)) as [->|Hi]; [|rewrite lookup_insert_ne by done; apply Hsame].
    rewrite lookup_insert_eq. intros [= <-]. exists r. split_and!; [done| |done..|by right]. cbn. lia.
Qed.
End Coalescing.

(** C17: the cache of the observer is transparent: when its calls succeed, a stream
    of observations that passes through the cache, between cancellations,
    expiries, deletions, janitor sweeps and restarts, leaves the rows with the
    same content as writing every observation. *)
Theorem coalescing_transparent `{PL : !PoolLib} {X : Type} `{F : !Faults X} `{RL : !Reliable X}
    (IsDNS1123Subdomain : string → list string) (evs : list event) (w : World) (x x' : X)
    (Hok : Forall event_ok evs) (Hinc : increasing (seen_in w) evs) :
  same_content (foldl (direct IsDNS1123Subdomain) (w, x) evs).1 (foldl (coalescing IsDNS1123Subdomain) (w, x', ∅) evs).1.1.
Proof.
  apply (events_synced _ (seen_in w)); [done..|]. split_and!; [done| | |].
  - intros id. unfold seen_in. split; [destruct (w_runs w !! id); lia|]. intros r ->. lia.
  - intros id. unfold seen_in. split; [destruct (w_runs w !! id); lia|]. intros r ->. lia.
  - intros k p t. by rewrite lookup_empty.
Qed.

(** ** Examples *)

Module MirrorExamples.
Import Scripted.
#[local] Instance lib : PoolLib := {| sha256_hex x := "h" +:+ x; to_lower_above_latin1 r := r |}.
Definition valid : string → list string := λ _, [].
Definition id1 : string := "11111111-1111-1111-1111-111111111111".
Definition pending : Run := MkRun "p" "pl" "Pending" EmptyString EmptyString None None None None 0 0 0.
Definition w0 : World :=
  set_runs {[id1 := pending]} (MkWorld 100 {["p" := MkProject "shop" "datuplet-p" "lk"]} {["pl" := MkPipelineRow "p" "daily"]} ∅ ∅ [] ∅ ∅ ∅ ∅ ∅ ∅ ∅).
Definition status (phase stage : string) (rv : Z) : RunStatus :=
  MkRunStatus id1 None "datuplet-p" (PipelineRunName valid "daily" id1) phase stage EmptyString (Some 5%Z) None rv None.
Definition running : RunStatus := status "Running" "extract" 7.
Definition again : RunStatus := status "Running" "extract" 8.
Definition loading : RunStatus := status "Running" "load" 9.
Definition back : RunStatus := status "Running" "extract" 10.

Lemma status_good phase stage rv : (0 < rv)%Z → bool_decide (out_of_band phase) = false →
  status_ok (status phase stage rv) ∧ observation (status phase stage rv).
Proof. intros Hrv H%bool_decide_eq_false. by split_and!. Qed.

(** A decoy that copies the label, and three statuses of the run out of order. *)
Definition decoy : RunStatus := MkRunStatus id1 None "elsewhere" (PipelineRunName valid "daily" id1) "Succeeded" EmptyString EmptyString None None 99 None.
Definition arriving : list RunStatus := [loading; decoy; running; loading; again].
Lemma arriving_own : filter (own valid id1 w0) arriving = [loading; running; loading; again].
Proof. by vm_compute. Qed.
Lemma mirror_converges_witness :
  ∃ r1 r2, w_runs (deliver valid arriving (w0, ())).1 !! id1 = Some r1 ∧ w_runs (deliver valid (reverse arriving) (w0, ())).1 !! id1 = Some r2 ∧
    run_CurrentStage r1 = "load" ∧ row_status r1 = row_status r2 ∧ run_StartedAt r1 = run_StartedAt r2.
Proof.
  destruct (mirror_converges valid id1 arriving (reverse arriving) w0 () () pending) as (r1 & r2 & H1 & H2 & _ & H3 & H4 & _ & H5).
  - by vm_compute.
  - rewrite arriving_own. repeat (apply Forall_cons; split; [by apply status_good|]). by apply Forall_nil.
  - rewrite arriving_own. intros s s'. rewrite !elem_of_cons, !elem_of_nil. intros Hs Hs' E. naive_solver.
  - by rewrite reverse_Permutation.
  - exists r1, r2. assert (¬ out_of_band (run_Phase pending)) as Ho by (apply (bool_decide_unpack _); by vm_compute). rewrite arriving_own in H3, H5.
    assert ((λ r, (run_CurrentStage r, run_ObservedRV r)) <$> w_runs (deliver valid arriving (w0, ())).1 !! id1 = Some ("load", 9%Z)) as Hc by (by vm_compute).
    rewrite H1 in Hc. injection Hc as Hst Hrv.
    split_and!; [done..|]. apply (H5 Ho loading); [by left|done|by vm_compute|by eexists].
Defined.

Definition stream : list event :=
  [Observe running; Observe again; Janitor 3600; Observe loading; Elsewhere (λ w, (update_run id1 (MkUpdateRunPhaseOpts "Cancelled" EmptyString EmptyString None None 0 None false) w).1); Observe back].
Lemma coalescing_transparent_witness :
  same_content (foldl (direct valid) (w0, ()) stream).1 (foldl (coalescing valid) (w0, (), ∅) stream).1.1.
Proof.
  apply coalescing_transparent.
  - unfold stream. rewrite !Forall_cons, Forall_nil. split_and?; try done; [by apply status_good..| |by apply status_good].
    apply end_only_ends; [done|]. by vm_compute; left.
  - repeat split.
Defined.
(** The second observation changes nothing and is not written. *)
Example again_coalesced : coalesced (<[status_key running := (running, 100%Z)]> ∅) again = true.
Proof. by vm_compute. Qed.

(** A write that took effect but whose answer was lost leaves the cache behind
    the row: when the status returns to what the cache holds, it is dropped, and
    the row keeps what the lost write said. *)
Example lost_answer_sticks :
  let step sc s := match CoalescedUpdater_Update (DBRunUpdater_Update valid) sc.2 s sc.1 with
                   | (s', Some (c, _)) => (s', c) | (s', None) => (s', ∅) end in
  let calls : list outcome := [Done; Done; Done; Lost "timeout"] in
  let '((w, _), c) := foldl step ((w0, (calls, [])), ∅) [running; loading; back] in
  run_CurrentStage <$> w_runs w !! id1 = Some "load" ∧ coalesced c back = true.
Proof. by vm_compute. Qed.
End MirrorExamples.
