(* ===== verification/RunBackend.v ===== *)
(** * RunBackend: triggering and cancelling runs
      (pkg/pipelineapi/runbackend/k8s.go, pkg/pipelineapi/k8s: namespace.go,
       secret_rbac.go, limitrange.go, pipeline_apply.go, run_create.go,
       pkg/pipelineapi/tokens/capabilities.go)

    The lifecycle of a run on the side of the API server: the namespace of its
    project, its document, its grant, its row, its token and its objects, in the
    order the backend makes the calls, and what a cancel undoes. *)

From S2P Require Import Prelude ApiTypes Status GoTime Policy PreviewStore Authz PipelineDoc CommitPool Tokens Calls RunWorld RunMirror.

(** ** What a pipeline needs *)

Record PipelineIntent := MkPipelineIntent { HasWrites : bool; HasReads : bool }.
Definition reads (c : DocComponent) : bool :=
  match dc_Inputs c with Some i => negb (is_empty (din_Buckets i)) || negb (is_empty (din_Tables i)) | None => false end.
Definition writes (c : DocComponent) : bool :=
  match dc_Outputs c with
  | Some o => negb (str_empty (do_DefaultBucket o)) || negb (is_empty (do_Buckets o)) || negb (is_empty (do_Tables o))
  | None => false
  end.
Definition PipelineIntentFromPipeline (p : option DocPipeline) : PipelineIntent :=
  match p with
  | None => MkPipelineIntent false false
  | Some p =>
    let comps := mjoin (ds_Components <$> d_Stages p) in
    MkPipelineIntent (existsb writes comps) (existsb reads comps)
  end.
Definition buildRunTuples (runUUID lakekeeperProjectID : string) (parsed : option DocPipeline) : list Tuple :=
  if str_empty lakekeeperProjectID then []
  else
    let intent := PipelineIntentFromPipeline parsed in
    if negb (HasReads intent) && negb (HasWrites intent) then []
    else [MkTuple (Object_String (UserObject runUUID)) (if HasWrites intent then RelationEditor else RelationViewer)
            (ProjectObject lakekeeperProjectID)].

(** The phases that a cancel leaves. *)
Definition terminal_phases : list string := ["Succeeded"; "FailedUser"; "FailedApplication"; "Cancelled"; "Expired"].
Definition terminal (phase : string) : bool := bool_decide (phase ∈ terminal_phases).

Definition RunTokenLifetime : Z := 24 * 3600 * second.
Definition run_id_label : string := "datuplet.io/run-id".
Definition dberr_text (e : dberr) : string :=
  match e with ErrRunNotFound => "run not found" | ErrProjectNotFound => "project not found" | DBError m => m end.
Definition run_secret_name (id : string) : string := "runtoken-" +:+ id.

Section Backend.
Context `{UT : !UnicodeTables} `{PL : !PoolLib} `{J : !Jwt} {X : Type} `{F : !Faults X}.
Variable IsDNS1123Subdomain : string → list string.

(** ** The namespace of a project *)

Definition ProjectNamespaceLabel : string := "datuplet.io/project-id".
Definition NamespaceForProject (projectID : string) : string := "datuplet-" +:+ projectID.
(** Get, and create if it is missing. *)
Definition ensure {K O} `{EqDecision K} `{!Countable K} (objs : World → gmap K O) (set : gmap K O → World → World)
    (what : string) (k : K) (o : O) : Op World X (result string ()) :=
  r ← get_object objs k;
  match r with
  | Ok _ => mret (Ok ())
  | Err NotFound =>
    r ← create_object objs set k o;
    mret (match r with
          | Ok _ | Err AlreadyExists => Ok ()
          | Err e => Err ("create " +:+ what +:+ ": " +:+ kerr_text e)
          end)
  | Err e => mret (Err ("get " +:+ what +:+ ": " +:+ kerr_text e))
  end.
Definition ensureNamespace (name projectID : string) : Op World X (result string ()) :=
  ensure w_namespaces set_namespaces ("namespace " +:+ name) name {[ProjectNamespaceLabel := projectID]}.
Definition ensureRole (namespace name : string) (rules : list (list string * list string)) : Op World X (result string ()) :=
  ensure w_defaults set_defaults ("role " +:+ namespace +:+ "/" +:+ name) ("Role", (namespace, name)) (RoleObject rules).
Definition ensureSecretRole (namespace name : string) (verbs : list string) : Op World X (result string ()) :=
  ensureRole namespace name [(["secrets"], verbs)].
Definition ensureRoleBinding (namespace roleName saName saNS : string) : Op World X (result string ()) :=
  ensure w_defaults set_defaults ("rolebinding " +:+ namespace +:+ "/" +:+ roleName) ("RoleBinding", (namespace, roleName))
    (RoleBindingObject roleName saName saNS).
Definition secretVerbsPipelineAPI : list string := ["get"; "list"; "create"; "update"; "patch"; "delete"].
Definition secretVerbsOperator : list string := ["get"; "create"].
Definition podLogsRules : list (list string * list string) := [(["pods"], ["get"; "list"]); (["pods/log"], ["get"])].
(** The environment: POD_NAMESPACE and the namespace file of the service account. *)
Variable POD_NAMESPACE : string.
Variable saNamespaceFile : option string.
Definition installNamespace : string :=
  if negb (str_empty (TrimSpace POD_NAMESPACE)) then TrimSpace POD_NAMESPACE
  else match saNamespaceFile with
  | Some b => if negb (str_empty (TrimSpace b)) then TrimSpace b else "datuplet"
  | None => "datuplet"
  end.
Definition then_op {E} (m k : Op World X (result E ())) : Op World X (result E ()) := try_op m (λ _, k).
Definition ensureSecretsRBAC (namespace : string) : Op World X (result string ()) :=
  then_op (ensureSecretRole namespace "datuplet-secrets" secretVerbsPipelineAPI)
  (then_op (ensureSecretRole namespace "datuplet-secrets-operator" secretVerbsOperator)
  (then_op (ensureRole namespace "datuplet-pod-logs" podLogsRules)
  (then_op (ensureRoleBinding namespace "datuplet-secrets" "pipeline-api" installNamespace)
  (then_op (ensureRoleBinding namespace "datuplet-pod-logs" "pipeline-api" installNamespace)
  (ensureRoleBinding namespace "datuplet-secrets-operator" "pipeline-operator" installNamespace))))).
Definition EnsureProjectLimitRange (projectID : string) : Op World X (result string ()) :=
  let ns := NamespaceForProject projectID in
  ensure w_defaults set_defaults ("limitrange " +:+ ns +:+ "/datuplet-defaults") ("LimitRange", (ns, "datuplet-defaults"))
    (LimitRangeObject [("cpu", "1"); ("memory", "512Mi")] [("cpu", "100m"); ("memory", "128Mi")]).
Definition EnsureProjectNamespace (projectID : string) : Op World X (result string ()) :=
  let name := NamespaceForProject projectID in
  then_op (ensureNamespace name projectID) (then_op (ensureSecretsRBAC name) (EnsureProjectLimitRange projectID)).
Definition ProjectNS_Ensure (projectID : string) : Op World X (result string string) :=
  p ← GetProjectByID projectID;
  match p with
  | Err e => mret (Err ("get project: " +:+ dberr_text e))
  | Ok p =>
    r ← EnsureProjectNamespace projectID;
    mret (match r with Err e => Err ("ensure namespace: " +:+ e) | Ok _ => Ok (pj_K8sNamespace p) end)
  end.

(** ** The document of a pipeline *)

Definition ApplyPipelineCRD (namespace : string) (doc : option DocPipeline) : Op World X (result string ()) :=
  match doc with
  | None => mret (Err "pipeline doc is nil")
  | Some doc =>
    if str_empty (d_Name doc) then mret (Err "pipeline doc has no name")
    else
      let k := (namespace, d_Name doc) in
      let replace :=
        r ← update_object w_documents set_documents k doc;
        mret (match r with Ok _ => Ok () | Err e => Err ("update Pipeline CRD: " +:+ kerr_text e) end) in
      r ← get_object w_documents k;
      match r with
      | Ok _ => replace
      | Err NotFound =>
        r ← create_object w_documents set_documents k doc;
        match r with
        | Ok _ => mret (Ok ())
        | Err AlreadyExists =>
          r ← get_object w_documents k;
          match r with
          | Ok _ => replace
          | Err e => mret (Err ("get Pipeline CRD after AlreadyExists: " +:+ kerr_text e))
          end
        | Err e => mret (Err ("create Pipeline CRD: " +:+ kerr_text e))
        end
      | Err e => mret (Err ("get Pipeline CRD: " +:+ kerr_text e))
      end
  end.

(** ** The objects of a run *)

Record CreateResourcesOpts := MkCreateResourcesOpts { rc_Namespace : string; rc_PipelineName : string; rc_RunID : string; rc_Token : string }.
Definition new_secret (id token : string) (owners : list (string * string)) (at_ : Z) : SecretObject :=
  MkSecretObject {[run_id_label := id]} token owners at_.
(** The server draws the uid and the first resource version. *)
Definition new_run_object (pipeline id uid rv : string) (at_ : Z) : RunObject :=
  MkRunObject {[run_id_label := id]} at_ false rv uid pipeline id (run_secret_name id) EmptyString EmptyString EmptyString None None None.
Definition CreateRunResources (o : CreateResourcesOpts) : Op World X (result string ()) :=
  if str_empty (rc_Namespace o) || str_empty (rc_PipelineName o) then mret (Err "namespace and pipeline name are required")
  else
    let sec_key := (rc_Namespace o, run_secret_name (rc_RunID o)) in
    let pr_key := (rc_Namespace o, PipelineRunName IsDNS1123Subdomain (rc_PipelineName o) (rc_RunID o)) in
    now ← local w_now;
    r ← create_object w_secrets set_secrets sec_key (new_secret (rc_RunID o) (rc_Token o) [] now);
    match r with
    | Err e => mret (Err ("create Secret: " +:+ kerr_text e))
    | Ok _ =>
      uid ← new_uuid; rv ← new_uuid;
      r ← create_object w_run_objects set_run_objects pr_key (new_run_object (rc_PipelineName o) (rc_RunID o) uid rv now);
      match r with
      | Err e => mret (Err ("create PipelineRun: " +:+ kerr_text e))
      | Ok _ =>
        r ← get_object w_run_objects pr_key;
        match r with
        | Err e => mret (Err ("get created PipelineRun: " +:+ kerr_text e))
        | Ok pr =>
          _ ← update_object w_secrets set_secrets sec_key (new_secret (rc_RunID o) (rc_Token o) [(pr_key.2, ro_UID pr)] now);
          mret (Ok ())
        end
      end
    end.

(** ** The backend *)

Record K8sBackend := MkK8sBackend {
  b_db : bool;
  b_authzr : bool;
  b_audience : string;
  b_signer : option Signer;
  b_warehouseResolver : option (World → string → result string string);
}.
Definition NewK8sBackend (db authzr : bool) (audience : string) (signer : option Signer)
    (resolver : option (World → string → result string string)) : K8sBackend :=
  MkK8sBackend db authzr (if str_empty audience then TableTokenAudience else audience) signer resolver.
Record TriggerRequest := MkTriggerRequest {
  tr_ProjectID : string;
  tr_UserID : option string;
  tr_PipelineName : string;
  tr_PipelineID : string;
  tr_Doc : option DocPipeline;
}.
Record CancelRequest := MkCancelRequest { cn_ProjectID : string; cn_RunID : string }.
Variable b : K8sBackend.
Variable ctx : option string.  (** the user of the request *)

Definition phase_opts (phase msg : string) (at_ : option Z) : UpdateRunPhaseOpts :=
  MkUpdateRunPhaseOpts phase EmptyString msg None at_ 0 None false.
Definition MarkFailed (runID reason : string) : Op World X () := ignore (UpdateRunPhase runID (phase_opts "FailedApplication" reason None)).
Definition failed_run (runID reason : string) : Op World X (result string (string * string)) :=
  _ ← MarkFailed runID reason; mret (Err reason).

(** From the namespace to the warehouse: what the run is about. *)
Record Prepared := MkPrepared { pp_ns : string; pp_id : string; pp_lakekeeper : string; pp_warehouse : string }.
Definition Trigger_prepare (req : TriggerRequest) : Op World X (result string Prepared) :=
  try_op (ProjectNS_Ensure (tr_ProjectID req)) (λ ns,
  r ← ApplyPipelineCRD ns (tr_Doc req);
  match r with
  | Err e => mret (Err ("apply pipeline: " +:+ e))
  | Ok _ =>
    id ← new_uuid;
    lk ← (if b_db b then
            p ← GetProjectByID (tr_ProjectID req);
            mret (match p with Ok p => Ok (pj_LakekeeperProjectID p) | Err e => Err ("get project: " +:+ dberr_text e) end)
          else mret (Ok EmptyString));
    match lk with
    | Err e => mret (Err e)
    | Ok lk =>
      match b_warehouseResolver b with
      | None => mret (Ok (MkPrepared ns id lk EmptyString))
      | Some resolve =>
        wh ← call_err (λ w, (w, resolve w lk));
        mret (match wh with Ok wh => Ok (MkPrepared ns id lk wh) | Err e => Err ("resolve warehouse: " +:+ e) end)
      end
    end
  end).
Definition run_tuples_of (req : TriggerRequest) (p : Prepared) : list Tuple := buildRunTuples (pp_id p) (pp_lakekeeper p) (tr_Doc req).
(** Steps 1 and 2: the breadcrumb, then the grant. *)
Definition Trigger_grant (req : TriggerRequest) (p : Prepared) : Op World X (result string ()) :=
  let tuples := run_tuples_of req p in
  if is_empty tuples then mret (Ok ())
  else
    r ← (if b_db b then RecordRunTuples (pp_id p) tuples else mret (Ok ()));
    match r with
    | Err e => mret (Err ("record run_tuples: " +:+ dberr_text e))
    | Ok _ =>
      if b_authzr b then
        r ← authz_WriteTuples tuples;
        match r with
        | Err e => _ ← ignore (if b_db b then DeleteRunTuples (pp_id p) else mret (Err (DBError "DeleteRunTuples: pool is required")));
                   mret (Err ("write FGA tuples: " +:+ e))
        | Ok _ => mret (Ok ())
        end
      else mret (Ok ())
    end.
(** Step 3, the row; then the token and the objects, and step 4. *)
Definition Trigger_insert (req : TriggerRequest) (p : Prepared) : Op World X (result string ()) :=
  r ← CreateRun (MkCreateRunOpts (pp_id p) (tr_ProjectID req) (tr_PipelineID req) (tr_UserID req));
  mret (match r with Ok _ => Ok () | Err e => Err ("insert run: " +:+ dberr_text e) end).
Definition spec_of (req : TriggerRequest) (p : Prepared) : RunSpec :=
  MkRunSpec (pp_id p) (pp_lakekeeper p) (tr_PipelineName req) (pp_warehouse p) (b_audience b) RunTokenLifetime.
Definition Trigger_start (req : TriggerRequest) (p : Prepared) : Op World X (result string (string * string)) :=
  now ← local w_now;
  match MintRunToken now ctx (b_signer b) (spec_of req p) with
  | Err e => failed_run (pp_id p) ("mint run token: " +:+ e)
  | Ok tok =>
    r ← CreateRunResources (MkCreateResourcesOpts (pp_ns p) (tr_PipelineName req) (pp_id p) tok);
    match r with
    | Err e => failed_run (pp_id p) ("create K8s resources: " +:+ e)
    | Ok _ =>
      _ ← (if b_db b && negb (is_empty (run_tuples_of req p)) then ignore (MarkRunTuplesCommitted (pp_id p)) else mret ());
      mret (Ok (pp_id p, pp_ns p))
    end
  end.
Definition TriggerRun (req : TriggerRequest) : Op World X (result string (string * string)) :=
  try_op (Trigger_prepare req) (λ p,
  try_op (Trigger_grant req p) (λ _,
  try_op (Trigger_insert req p) (λ _, Trigger_start req p))).

Definition cleanupRunTuples (runID : string) : Op World X () :=
  if negb (b_db b) then mret ()
  else
    rec ← GetRunTuples runID;
    match rec with
    | Err _ | Ok None => mret ()
    | Ok (Some rec) =>
      r ← (if b_authzr b && negb (is_empty (rec_Tuples rec)) then authz_DeleteTuples (rec_Tuples rec) else mret (Ok ()));
      match r with
      | Err _ => mret ()
      | Ok _ => ignore (DeleteRunTuples runID)
      end
    end.
Definition CompleteRun (runID : string) : Op World X () := cleanupRunTuples runID.
Definition patch_pod (k : string * string) : Op World X () :=
  ignore (k8s (λ w, match w_pods w !! k with
                    | Some p => (set_pods (<[k := MkPodObject (po_Labels p) true]> (w_pods w)) w, Ok ())
                    | None => (w, Err NotFound)
                    end)).
Definition annotateRunPodsCancelled (namespace runID : string) : Op World X () :=
  l ← list_objects w_pods;
  match l with
  | Err _ => mret ()
  | Ok l => for_each patch_pod (fst <$> filter (λ kp, kp.1.1 = namespace ∧ po_Labels kp.2 !! run_id_label = Some runID) l)
  end.
Definition cancelled_opts (now : Z) : UpdateRunPhaseOpts := phase_opts "Cancelled" "cancelled by user" (Some now).
(** The object is gone: [true]; it ended by itself: [false]. *)
Definition stop_object (k : string * string) (runID : string) : Op World X (result dberr bool) :=
  r ← get_object w_run_objects k;
  match r with
  | Err NotFound => mret (Ok true)
  | Err e => mret (Err (DBError ("get PipelineRun: " +:+ kerr_text e)))
  | Ok pr =>
    if terminal (ro_Phase pr) then mret (Ok false)
    else
      _ ← annotateRunPodsCancelled k.1 runID;
      r ← delete_object w_run_objects set_run_objects k;
      mret (match r with Ok _ | Err NotFound => Ok true | Err e => Err (DBError ("delete PipelineRun: " +:+ kerr_text e)) end)
  end.
Definition wrap_db {A} (what : string) (r : result dberr A) : result dberr A := map_err (λ e, DBError (what +:+ dberr_text e)) r.
Definition CancelRun (req : CancelRequest) : Op World X (result dberr ()) :=
  try_op (GetRunByID (cn_RunID req)) (λ run,
  if negb (bool_decide (run_ProjectID run = cn_ProjectID req)) then mret (Err ErrRunNotFound)
  else
    _ ← cleanupRunTuples (cn_RunID req);
    try_op (r ← GetProjectByID (cn_ProjectID req); mret (wrap_db "get project: " r)) (λ proj,
    try_op (r ← GetPipelineNameByID (run_PipelineID run); mret (wrap_db "get pipeline: " r)) (λ pipeName,
    try_op (stop_object (pj_K8sNamespace proj, PipelineRunName IsDNS1123Subdomain pipeName (cn_RunID req)) (cn_RunID req)) (λ gone,
    if negb gone || terminal (run_Phase run) then mret (Ok ())
    else
      now ← local w_now;
      r ← UpdateRunPhase (cn_RunID req) (cancelled_opts now);
      mret (match r with Ok _ => Ok () | Err e => Err (DBError ("update run phase: " +:+ dberr_text e)) end))))).
End Backend.
