(* ===== verification/RunReaper.v ===== *)
(** * RunReaper: sweeping finished runs and their grants
      (pkg/pipelineapi/k8s/reaper.go, reap_run_tuples.go)

    One sweep: old PipelineRuns, run-token secrets without an owner, and the rows
    of run_tuples with the grants they record. *)

From S2P Require Import Prelude ApiTypes Status GoTime Policy PreviewStore Authz PipelineDoc CommitPool Tokens Calls RunWorld RunMirror RunBackend.

(** [time.Duration.String]. *)
Fixpoint trim_zeros (s : string) : string :=
  match s with
  | EmptyString => EmptyString
  | String c s => let r := trim_zeros s in if str_empty r && Ascii.eqb c "0"%char then EmptyString else String c r
  end.
(** The fraction of [v / 10^prec], without trailing zeros. *)
Definition fmtFrac (v : Z) (prec : nat) : string :=
  let digits := itoa (v mod 10 ^ Z.of_nat prec) in
  let frac := trim_zeros (list_str (replicate (prec - slen digits) "0"%char) +:+ digits) in
  if str_empty frac then EmptyString else "." +:+ frac.
Definition Duration_String (d : Z) : string :=
  let u := Z.abs d in
  let scaled prec := itoa (u / 10 ^ Z.of_nat prec) +:+ fmtFrac u prec in
  (if (d <? 0)%Z then "-" else EmptyString) +:+
  (if (u =? 0)%Z then "0s"
   else if (u <? 1000)%Z then itoa u +:+ "ns"
   else if (u <? 1000000)%Z then scaled 3 +:+ "µs"
   else if (u <? second)%Z then scaled 6 +:+ "ms"
   else
     let secs := (u / second)%Z in
     let mins := (secs / 60)%Z in
     let hours := (mins / 60)%Z in
     (if (0 <? hours)%Z then itoa hours +:+ "h" else EmptyString) +:+
     (if (0 <? mins)%Z then itoa (mins mod 60) +:+ "m" else EmptyString) +:+
     itoa (secs mod 60) +:+ fmtFrac u 9 +:+ "s").
Example a_day : Duration_String (24 * 3600 * second) = "24h0m0s".
Proof. by vm_compute. Qed.
Example a_bit : (Duration_String (90 * second + 50000000), Duration_String 1500) = ("1m30.05s", "1.5µs").
Proof. by vm_compute. Qed.

(** The phases of an object whose run ended by itself. *)
Definition object_terminal (phase : string) : bool := bool_decide (phase ∈ ["Succeeded"; "FailedUser"; "FailedApplication"]).
(** [None] for the zero time: do not reap. *)
Definition reapAge (pr : RunObject) : option Z :=
  if negb (object_terminal (ro_Phase pr)) then ro_StartTime pr
  else match ro_CompletionTime pr with
  | Some t => Some t
  | None => match ro_StartTime pr with Some t => Some t | None => Some (ro_CreationTimestamp pr) end
  end.
Definition orphanRunTuplesAge : Z := 30 * 60 * second.
(** The row of run_tuples and the phase of its run, if there is one. *)
Record runTupleSweepRow := MkSweepRow { sw_RunID : string; sw_Tuples : list Tuple; sw_phase : option string; sw_CreatedAt : Z }.
Inductive sweep_case : Type := CaseTerminal | CaseLive | CaseOrphan | CaseYoung.
Definition case_of (cutoff : Z) (r : runTupleSweepRow) : sweep_case :=
  match sw_phase r with
  | Some phase => if terminal phase then CaseTerminal else CaseLive
  | None => if (sw_CreatedAt r <? cutoff)%Z then CaseOrphan else CaseYoung
  end.
Definition has_label (l : string) (m : gmap string string) : bool := match m !! l with Some _ => true | None => false end.

Section Reaper.
Context `{UT : !UnicodeTables} `{PL : !PoolLib} `{UL : !UuidLib} {X : Type} `{F : !Faults X}.
Variable IsDNS1123Subdomain : string → list string.

(** ** PipelineRuns *)

Definition expired_status (maxAge now : Z) (k : string * string) (id : string) : RunStatus :=
  MkRunStatus id None k.1 k.2 "Expired" EmptyString ("reaped after " +:+ Duration_String maxAge) None (Some now) 0 None.
(** One object of the list. *)
Definition reap_object (maxAge cutoff : Z) (updater : bool) (ko : (string * string) * RunObject) : Op World X () :=
  let '(k, pr) := ko in
  match reapAge pr with
  | None => mret ()
  | Some age =>
    if negb (age <? cutoff)%Z then mret ()
    else
      r ← delete_object w_run_objects set_run_objects k;
      match r with
      | Ok _ =>
        if updater && negb (object_terminal (ro_Phase pr)) then
          match l ← ro_Labels pr !! run_id_label; uuid_Parse l with
          | Some id => now ← local w_now; ignore (DBRunUpdater_Update IsDNS1123Subdomain (expired_status maxAge now k id))
          | None => mret ()
          end
        else mret ()
      | Err _ => mret ()
      end
  end.
Definition reap_secret (cutoff : Z) (ks : (string * string) * SecretObject) : Op World X () :=
  let '(k, sec) := ks in
  if negb (is_empty (so_Owners sec)) then mret ()
  else if negb (so_CreationTimestamp sec <? cutoff)%Z then mret ()
  else ignore (delete_object w_secrets set_secrets k).
Definition reap_namespace (cutoff : Z) (ns : string) : Op World X () :=
  l ← list_objects w_secrets;
  match l with
  | Err _ => mret ()
  | Ok l => for_each (reap_secret cutoff) (filter (λ ks, ks.1.1 = ns ∧ has_label run_id_label (so_Labels ks.2) = true) l)
  end.
Definition reapOrphanSecrets (cutoff : Z) : Op World X (result string ()) :=
  l ← list_objects w_namespaces;
  match l with
  | Err e => mret (Err ("list project namespaces: " +:+ kerr_text e))
  | Ok l =>
    _ ← for_each (reap_namespace cutoff) (fst <$> filter (λ n, has_label ProjectNamespaceLabel n.2 = true) l);
    mret (Ok ())
  end.
Definition ReapOnce (maxAge : Z) (updater : bool) : Op World X (result string ()) :=
  if (maxAge <=? 0)%Z then mret (Err ("reaper: maxAge must be positive (got " +:+ Duration_String maxAge +:+ "); refusing to run"))
  else
    l ← list_objects w_run_objects;
    match l with
    | Err e => mret (Err ("list PipelineRuns: " +:+ kerr_text e))
    | Ok l =>
      now ← local w_now;
      let cutoff := (now - maxAge)%Z in
      _ ← for_each (reap_object maxAge cutoff updater) (filter (λ ko, has_label run_id_label (ro_Labels ko.2) = true) l);
      _ ← ignore (reapOrphanSecrets cutoff);
      mret (Ok ())
    end.

(** ** Grants *)

Variable authzr : bool.
Definition sweep_join (w : World) : list (string * RunTuplesRow * option string) :=
  (λ kr, (kr.1, kr.2, run_Phase <$> w_runs w !! kr.1)) <$> map_to_list (w_run_tuples w).
(** The rows that decode. *)
Definition sweep_row (r : string * RunTuplesRow * option string) : option runTupleSweepRow :=
  match decodeAuthzTuples (rt_tuples r.1.2) with
  | Ok ts => Some (MkSweepRow r.1.1 ts r.2 (rt_created_at r.1.2))
  | Err _ => None
  end.
Definition cleanupRunTuplesRow (r : runTupleSweepRow) : Op World X () :=
  ok ← (if authzr && negb (is_empty (sw_Tuples r)) then
          d ← authz_DeleteTuples (sw_Tuples r); mret (match d with Ok _ => true | Err e => isMissingTupleErr e end)
        else mret true);
  if ok : bool then ignore (call (λ w : World, (drop_tuples (sw_RunID r) w, ()))) else mret ().
Definition labelled (id : string) (o : RunObject) : bool := bool_decide (ro_Labels o !! run_id_label = Some id).
Definition pipelineRunIsLive (runID : string) : Op World X (result kerr bool) :=
  k8s (λ w, (w, Ok (existsb (λ ko, labelled runID ko.2) (map_to_list (w_run_objects w))))).
Definition reap_row (cutoff : Z) (k8sClient : bool) (r : runTupleSweepRow) : Op World X () :=
  match case_of cutoff r with
  | CaseTerminal => cleanupRunTuplesRow r
  | CaseLive | CaseYoung => mret ()
  | CaseOrphan =>
    if k8sClient then
      live ← pipelineRunIsLive (sw_RunID r);
      match live with
      | Ok false => cleanupRunTuplesRow r
      | _ => mret ()
      end
    else cleanupRunTuplesRow r
  end.
Definition ReapRunTuples (k8sClient : bool) : Op World X (result string ()) :=
  rows ← read sweep_join;
  match rows with
  | Err e => mret (Err ("ReapRunTuples: select: " +:+ e))
  | Ok rows =>
    rows ← in_order rows;
    now ← local w_now;
    _ ← for_each (reap_row (now - orphanRunTuplesAge) k8sClient) (omap sweep_row rows);
    mret (Ok ())
  end.
Definition ReapOnceWith (maxAge : Z) (updater pool : bool) : Op World X (result string ()) :=
  r ← ReapOnce maxAge updater;
  match r with
  | Err e => mret (Err e)
  | Ok _ => _ ← (if pool then ignore (ReapRunTuples true) else mret ()); mret (Ok ())
  end.
End Reaper.
