(* ===== verification/RunGrants.v ===== *)
(** * RunGrants: no grant of a run is lost track of

    The theorems on RunBackend and RunReaper: whatever calls fail and wherever a
    process ends, every grant a trigger writes is recorded until it is gone; what
    a trigger and a cancel leave when they succeed; what a sweep may touch, and
    what it leaves behind when nothing fails. *)

From S2P Require Import Prelude ApiTypes Status GoTime Policy PreviewStore Authz PipelineDoc CommitPool Tokens Calls RunWorld RunMirror RunBackend RunReaper.

(** ** The ledger of grants *)

Section Ledger.
Context `{UT : !UnicodeTables} `{PL : !PoolLib} `{J : !Jwt} `{UL : !UuidLib} {X : Type} `{F : !Faults X}.

(** Every grant is in [B], or recorded in a row; every row records one. *)
Definition accounted (B : Tuple → Prop) (w : World) : Prop :=
  (∀ t, t ∈ w_grants w → B t ∨ ∃ id row, w_run_tuples w !! id = Some row ∧ decodeAuthzTuples (rt_tuples row) = Ok [t]) ∧
  (∀ id row, w_run_tuples w !! id = Some row → ∃ t, decodeAuthzTuples (rt_tuples row) = Ok [t]).
Lemma accounted_ext B w w' : w_grants w' = w_grants w → w_run_tuples w' = w_run_tuples w → accounted B w → accounted B w'.
Proof. unfold accounted. by intros -> ->. Qed.
(** Operations that do not touch the ledger. *)
Definition elsewhere {A} (f : World → World * A) : Prop := ∀ w, w_grants (f w).1 = w_grants w ∧ w_run_tuples (f w).1 = w_run_tuples w.
Lemma keeps_elsewhere {A} B (f : World → World * A) : elsewhere f → keeps (X := X) (accounted B) (call f).
Proof. intros Hf. apply keeps_op_call. intros w Hw. destruct (Hf w). by eapply accounted_ext. Qed.
Lemma keeps_elsewhere_err {A} B (f : World → World * result string A) : elsewhere f → keeps (X := X) (accounted B) (call_err f).
Proof. intros Hf. apply keeps_op_bind; [by apply keeps_elsewhere|]. intros r. apply keeps_op_ret. Qed.
Lemma keeps_k8s {A} B (f : World → World * result kerr A) : elsewhere f → keeps (X := X) (accounted B) (k8s f).
Proof. intros Hf. apply keeps_op_bind; [by apply keeps_elsewhere|]. intros r. apply keeps_op_ret. Qed.

Lemma encode_run_tuple u r k : k ≠ EmptyString →
  decodeAuthzTuples (encodeAuthzTuples [MkTuple u r (ProjectObject k)]) = Ok [MkTuple u r (ProjectObject k)].
Proof.
  intros Hk. cbn [encodeAuthzTuples fmap list_fmap decodeAuthzTuples t_User t_Relation t_Object tj_object tj_user tj_relation].
  rewrite (proj2 (ParseObject_correct (Object_String (ProjectObject k)) (ProjectObject k))); [done|]. split_and!; try done. cbn. by destruct k.
Qed.
Lemma buildRunTuples_cases id lk doc : buildRunTuples id lk doc = [] ∨
  ∃ r, buildRunTuples id lk doc = [MkTuple (Object_String (UserObject id)) r (ProjectObject lk)] ∧ lk ≠ EmptyString.
Proof.
  unfold buildRunTuples. destruct (str_empty lk) eqn:E; [by left|]. destruct (_ && _); [by left|]. right. eexists. split; [done|]. by destruct lk.
Qed.

(** *** What the ledger operations do *)

Lemma accounted_add B id t w : decodeAuthzTuples (encodeAuthzTuples [t]) = Ok [t] → accounted B w → accounted B (insert_tuples id [t] w).1.
Proof.
  intros Ht [H1 H2]. unfold insert_tuples. destruct (w_run_tuples w !! id) as [row|] eqn:E; [by split|]. cbn. split; cbn.
  - intros t' [Hb|(id' & row & Hr & Hd)]%H1; [by left|right]. exists id', row. split; [|done]. rewrite lookup_insert_ne; [done|]. intros ->. congruence.
  - intros id' row. destruct (decide (id' = id)) as [->|Hne]; [rewrite lookup_insert_eq; intros [= <-]; by exists t|]. rewrite lookup_insert_ne by done. apply H2.
Qed.
Lemma accounted_grant B id row t w : w_run_tuples w !! id = Some row → decodeAuthzTuples (rt_tuples row) = Ok [t] → accounted B w →
  accounted B (fga_write [t] w).1.
Proof.
  intros Hr Hd [H1 H2]. unfold fga_write. destruct (bool_decide _); [|by split]. split; [|exact H2]. cbn [fst w_grants w_run_tuples set_grants list_to_set].
  intros t' [Ht|Ht]%elem_of_union; [by apply H1|]. assert (t' = t) as -> by set_solver. right. by exists id, row.
Qed.
Lemma accounted_revoke B ts w : accounted B w → accounted B (fga_delete ts w).1.
Proof.
  intros [H1 H2]. unfold fga_delete. destruct (bool_decide _); [|by split]. split; [|exact H2]. cbn [fst w_grants w_run_tuples set_grants]. intros t' [Ht _]%elem_of_difference. by apply H1.
Qed.
Lemma accounted_drop B id w : (∀ row t, w_run_tuples w !! id = Some row → decodeAuthzTuples (rt_tuples row) = Ok [t] → t ∈ w_grants w →
    B t ∨ ∃ id' row', id' ≠ id ∧ w_run_tuples w !! id' = Some row' ∧ decodeAuthzTuples (rt_tuples row') = Ok [t]) →
  accounted B w → accounted B (drop_tuples id w).
Proof.
  intros Hid [H1 H2]. split; cbn.
  - intros t Ht. pose proof Ht as [Hb|(id' & row & Hr & Hd)]%H1; [by left|]. destruct (decide (id' = id)) as [->|Hne].
    + destruct (Hid row t Hr Hd Ht) as [?|(id' & row' & Hne & Hr' & Hd')]; [by left|right]. exists id', row'. by rewrite lookup_delete_ne.
    + right. exists id', row. by rewrite lookup_delete_ne.
  - intros id' row [_ Hr]%lookup_delete_Some. by eapply H2.
Qed.
Lemma fga_delete_rows ts w : w_run_tuples (fga_delete ts w).1 = w_run_tuples w.
Proof. unfold fga_delete. by case_bool_decide. Qed.
Lemma revoked_gone t w : t ∉ w_grants (fga_delete [t] w).1 ∧ ((fga_delete [t] w).2 = Ok () ∨ isMissingTupleErr "cannot delete a tuple which does not exist" = true ∧ (fga_delete [t] w).2 = Err "cannot delete a tuple which does not exist" ∧ (fga_delete [t] w).1 = w).
Proof.
  unfold fga_delete. destruct (bool_decide_reflect (Forall (λ t, t ∈ w_grants w) [t])) as [H|H].
  - split; [|by left]. cbn [fst w_grants set_grants list_to_set]. set_solver.
  - split; [|right; by vm_compute]. cbn. intros Ht. apply H. by constructor.
Qed.

(** *** Revoking what a row records *)

(** DeleteTuples of one tuple: it is gone, or an error says otherwise. *)
Lemma wp_revoke `{HE : !HonestErrors X} (C : World → Prop) t (Q : result string () → World → Prop) w :
  (∀ w', w_run_tuples w' = w_run_tuples w → w_grants w' ⊆ w_grants w → w' = w ∨ w' = (fga_delete [t] w).1 → C w') →
  (∀ r w', w' = w ∨ w' = (fga_delete [t] w).1 → (match r with Ok _ => true | Err e => isMissingTupleErr e end = true → t ∉ w_grants w') → Q r w') →
  wp C (authz_DeleteTuples [t]) Q w.
Proof.
  intros HC HQ. assert (w_run_tuples (fga_delete [t] w).1 = w_run_tuples w ∧ w_grants (fga_delete [t] w).1 ⊆ w_grants w) as [Hr Hg].
  { unfold fga_delete. destruct (bool_decide _); [|done]. cbn. split; [done|]. set_solver. }
  destruct (revoked_gone t w) as [Hgone Hans]. cbn [authz_DeleteTuples]. unfold call_err. intros x. unfold mbind, Op_bind, call. cbn [fst snd].
  pose proof (honest x) as Hh. destruct (fault x) as [x' o]. cbn [snd] in Hh. destruct (fga_delete [t] w) as [w' r] eqn:E. cbn [fst snd] in *.
  destruct o as [|m|m|applied].
  - unfold mret, Op_ret. apply HQ; [by right|]. done.
  - unfold mret, Op_ret. apply HQ; [by left|]. destruct (Hh m) as [-> _]; [by left|]. done.
  - unfold mret, Op_ret. apply HQ; [by right|]. done.
  - destruct applied; apply HC; auto.
Qed.
End Ledger.

(** ** Every operation keeps the ledger *)

(** Calls that only touch what the ledger does not read. *)
Ltac untouched := intros w; cbn; repeat case_match; cbn; try (split; reflexivity).
Ltac ledger_step :=
  first
  [ keeps_step
  | apply keeps_k8s; untouched
  | apply keeps_elsewhere_err; untouched
  | apply keeps_elsewhere; untouched ].

Section Keeps.
Context `{UT : !UnicodeTables} `{PL : !PoolLib} `{J : !Jwt} `{UL : !UuidLib} {X : Type} `{F : !Faults X}.
Variables (B : Tuple → Prop) (IsDNS1123Subdomain : string → list string).
Abbreviation safe := (keeps (X := X) (accounted B)).

Lemma safe_for_each {A} (f : A → Op World X ()) l : (∀ x, safe (f x)) → safe (for_each f l).
Proof. intros H. by apply keeps_for_each. Qed.
Lemma safe_list_objects {K O} `{EqDecision K} `{!Countable K} (objs : World → gmap K O) : safe (list_objects objs).
Proof. unfold list_objects. repeat ledger_step. Qed.
Lemma safe_GetProjectByID id : safe (GetProjectByID id).
Proof. unfold GetProjectByID, db. repeat ledger_step. Qed.
Lemma safe_UpdateRunPhase id o : safe (UpdateRunPhase id o).
Proof. unfold UpdateRunPhase, db, update_run. repeat ledger_step. Qed.
Lemma safe_EnsureProjectNamespace ns saf id : safe (EnsureProjectNamespace ns saf id).
Proof.
  unfold EnsureProjectNamespace, ensureNamespace, ensureSecretsRBAC, ensureSecretRole, ensureRole, ensureRoleBinding, EnsureProjectLimitRange, ensure, then_op, get_object, create_object.
  repeat ledger_step.
Qed.
Lemma safe_ApplyPipelineCRD ns doc : safe (ApplyPipelineCRD ns doc).
Proof. unfold ApplyPipelineCRD, get_object, create_object, update_object. repeat ledger_step. Qed.
Lemma safe_CreateRunResources o : safe (CreateRunResources IsDNS1123Subdomain o).
Proof. unfold CreateRunResources, get_object, create_object, update_object. repeat ledger_step. Qed.
Lemma safe_DBRunUpdater s : safe (DBRunUpdater_Update IsDNS1123Subdomain s).
Proof. unfold DBRunUpdater_Update, db. repeat first [ledger_step | apply safe_UpdateRunPhase]. Qed.
Lemma safe_commit id : safe (MarkRunTuplesCommitted id).
Proof.
  unfold MarkRunTuplesCommitted, db. repeat keeps_step. apply keeps_op_call. intros w [H1 H2]. cbn. unfold commit_tuples. split; cbn.
  - intros t [?|(id' & row & Hr & Hd)]%H1; [by left|right]. destruct (decide (id' = id)) as [->|Hne].
    + exists id, (MkRunTuplesRow (rt_tuples row) true (rt_created_at row)). by rewrite lookup_alter_eq, Hr.
    + exists id', row. by rewrite lookup_alter_ne.
  - intros id' row [(-> & row' & Hr & ->)|[_ Hr]]%lookup_alter_Some; [by apply (H2 id' row')|by eapply H2].
Qed.
(** Revoking a grant, and dropping a row whose grant is gone. *)
Lemma wp_revoked `{HE : !HonestErrors X} t w : accounted B w →
  wp (accounted B) (authz_DeleteTuples [t]) (λ r w', accounted B w' ∧ w_run_tuples w' = w_run_tuples w ∧
    (match r with Ok _ => true | Err e => isMissingTupleErr e end = true → t ∉ w_grants w')) w.
Proof.
  intros Hw. apply wp_revoke.
  - intros w' _ _ [->| ->]; [done|by apply accounted_revoke].
  - intros r w' [->| ->] Hgone; (split_and!; [|by rewrite ?fga_delete_rows|done]); [done|by apply accounted_revoke].
Qed.
Definition below (w w' : World) : Prop := w_run_tuples w' ⊆ w_run_tuples w.
Definition records (id : string) (t : Tuple) (w : World) : Prop := ∀ row, w_run_tuples w !! id = Some row → decodeAuthzTuples (rt_tuples row) = Ok [t].
Lemma records_below id t w w' : below w w' → records id t w → records id t w'.
Proof. intros Hb Hr row Hrow. apply Hr. by eapply lookup_weaken. Qed.
Lemma wp_dropped id t w : records id t w → t ∉ w_grants w → accounted B w →
  wp (accounted B) (call (X := X) (λ w : World, (drop_tuples id w, ()))) (λ _ w', accounted B w' ∧ below w w') w.
Proof.
  intros Hr Ht Hw. assert (accounted B (drop_tuples id w)) as Hd.
  { apply accounted_drop; [|done]. intros row t' Hrow Hdec Hin. apply Hr in Hrow. rewrite Hrow in Hdec. by injection Hdec as <-. }
  assert (below w (drop_tuples id w)) as Hb by (unfold below; cbn; apply delete_subseteq). assert (below w w) by (unfold below; done). by apply wp_call.
Qed.

Section Process.
Context `{HE : !HonestErrors X}.
Variables (ns : string) (saf : option string) (b : K8sBackend) (ctx : option string).
Hypothesis b_connected : b_db b = true ∧ b_authzr b = true.

Lemma safe_cleanup id : safe (cleanupRunTuples b id).
Proof.
  intros w Hw. unfold cleanupRunTuples. destruct b_connected as [-> Hz]. cbn [negb]. apply wp_op_bind. unfold GetRunTuples. apply wp_op_try. apply wp_op_bind.
  apply wp_read; [done| |intros m; apply wp_op_ret; cbn; by apply wp_op_ret]. apply wp_op_ret. cbn [map_err]. apply wp_op_ret.
  destruct (w_run_tuples w !! id) as [row|] eqn:Hr; [|by apply wp_op_ret]. pose proof Hw as [_ Hrows]. destruct (Hrows _ _ Hr) as [t Ht].
  cbn [map_err mbind result_bind]. rewrite Ht. cbn. rewrite Hz. cbn [andb negb is_empty].
  apply wp_op_bind. eapply wp_mono; [by apply wp_revoked|done|]. intros [[]|e] w' (Ha & Heq & Hgone); [|by apply wp_op_ret].
  apply wp_ignore. unfold DeleteRunTuples, db. apply wp_op_bind. eapply wp_mono; [eapply (wp_dropped id t); [|by apply Hgone|done]|done|].
  - intros row' Hrow. rewrite Heq, Hr in Hrow. by injection Hrow as <-.
  - intros r w'' [Ha' _]. by apply wp_op_ret.
Qed.
Lemma safe_CancelRun req : safe (CancelRun IsDNS1123Subdomain b req).
Proof.
  unfold CancelRun, GetRunByID, GetPipelineNameByID, stop_object, annotateRunPodsCancelled, patch_pod, db, get_object, delete_object.
  repeat first [ledger_step | apply safe_cleanup | apply safe_GetProjectByID | apply safe_UpdateRunPhase | apply safe_list_objects | apply safe_for_each; intros ?].
Qed.
(** *** A trigger *)

Lemma drop_inserted id ts w : w_run_tuples w !! id = None → drop_tuples id (insert_tuples id ts w).1 = w.
Proof. intros Hn. unfold insert_tuples. rewrite Hn. unfold drop_tuples, set_run_tuples. cbn. rewrite delete_insert_id by done. by destruct w. Qed.
(** The breadcrumb: no answer but the row's own says that it is there. *)
Lemma wp_RecordRunTuples id t w :
  wp (λ w', w' = w ∨ w' = (insert_tuples id [t] w).1) (RecordRunTuples (X := X) id [t])
    (λ r w', (w' = w ∨ w' = (insert_tuples id [t] w).1) ∧ (r = Ok () → w' = (insert_tuples id [t] w).1 ∧ w_run_tuples w !! id = None)) w.
Proof.
  unfold RecordRunTuples, db. apply wp_op_bind. apply wp_op_bind. apply wp_call; [|intros m; do 2 apply wp_op_ret; by split; [left|]|intros m; do 2 apply wp_op_ret; by split; [right|]|by left|by right].
  do 2 apply wp_op_ret. split; [by right|]. unfold insert_tuples. by destruct (w_run_tuples w !! id).
Qed.
(** The grant: an error leaves open whether it was written. *)
Lemma wp_WriteTuples t w :
  wp (λ w', w' = w ∨ w' = (fga_write [t] w).1) (authz_WriteTuples (X := X) [t]) (λ _ w', w' = w ∨ w' = (fga_write [t] w).1) w.
Proof.
  cbn [authz_WriteTuples]. apply wp_op_bind, wp_op_bind. apply wp_call; [|intros m|intros m|by left|by right]; do 2 apply wp_op_ret; auto.
Qed.
Lemma fga_write_new t w : t ∈ w_grants w ∧ (fga_write [t] w).1 = w ∨ t ∉ w_grants w ∧ t ∈ w_grants (fga_write [t] w).1.
Proof.
  unfold fga_write. destruct (decide (t ∈ w_grants w)) as [Hin|Hni]; [left|right].
  - rewrite bool_decide_false; [done|]. rewrite Forall_singleton. by intros H.
  - rewrite bool_decide_true by by rewrite Forall_singleton. split; [done|]. cbn. set_solver.
Qed.
(** The write of the grant took effect, and its answer was an error: the one
    way in which the backend loses track of a grant. *)
Definition lost_grant (req : TriggerRequest) (p : Prepared) (s : World * X) (t : Tuple) : Prop :=
  run_tuples_of req p = [t] ∧ ∃ s1 s2 m, RecordRunTuples (pp_id p) [t] s = (s1, Some (Ok ())) ∧
    authz_WriteTuples [t] s1 = (s2, Some (Err m)) ∧ t ∉ w_grants s1.1 ∧ t ∈ w_grants s2.1.
(** The row goes again, after a write that answered with an error. *)
Lemma safe_withdraw id t w w2 m : decodeAuthzTuples (encodeAuthzTuples [t]) = Ok [t] → w_run_tuples w !! id = None → accounted B w →
  w2 = (insert_tuples id [t] w).1 ∨ w2 = (fga_write [t] (insert_tuples id [t] w).1).1 →
  (t ∉ w_grants (insert_tuples id [t] w).1 → t ∈ w_grants w2 → B t) →
  wp (accounted B) (_ ← ignore (DeleteRunTuples (X := X) id); mret (Err m : result string ())) (λ _, accounted B) w2.
Proof.
  intros Ht Hn Hw Hw2 Hlost. assert (accounted B (insert_tuples id [t] w).1) as Hw1 by by apply accounted_add.
  assert (w_run_tuples (insert_tuples id [t] w).1 !! id = Some (MkRunTuplesRow (encodeAuthzTuples [t]) false (w_now w))) as Hrow.
  { unfold insert_tuples. rewrite Hn. cbn. by rewrite lookup_insert_eq. }
  assert (accounted B w2) as Ha by (destruct Hw2 as [->| ->]; [done|by eapply (accounted_grant _ _ (MkRunTuplesRow (encodeAuthzTuples [t]) false (w_now w)))]).
  assert (accounted B (drop_tuples id w2)) as Hd.
  { destruct (fga_write_new t (insert_tuples id [t] w).1) as [[_ Hsame]|[Hni Hin]].
    - rewrite Hsame in Hw2. assert (w2 = (insert_tuples id [t] w).1) as -> by by destruct Hw2. by rewrite drop_inserted.
    - destruct Hw2 as [->| ->]; [by rewrite drop_inserted|]. apply accounted_drop; [|done]. intros row t' Hr Hdec _. left.
      assert (w_run_tuples (fga_write [t] (insert_tuples id [t] w).1).1 = w_run_tuples (insert_tuples id [t] w).1) as Heq by (unfold fga_write; by case_bool_decide).
      rewrite Heq, Hrow in Hr. assert (Ok [t'] = Ok (E := string) [t]) as [= ->]; [|by apply Hlost]. rewrite <- Hdec, <- Ht. by injection Hr as <-. }
  apply wp_op_bind. apply wp_ignore. unfold DeleteRunTuples, db. apply wp_op_bind. apply wp_call; cbn; [|intros ?|intros ?|done|done]; by do 2 apply wp_op_ret.
Qed.
Lemma Trigger_grant_accounted req p w x : accounted B w → (∀ t, lost_grant req p (w, x) t → B t) → accounted B (Trigger_grant b req p (w, x)).1.1.
Proof.
  intros Hw Hlost. unfold Trigger_grant. destruct b_connected as [-> ->].
  destruct (buildRunTuples_cases (pp_id p) (pp_lakekeeper p) (tr_Doc req)) as [E|(r & E & Hlk)]; fold (run_tuples_of req p) in E; rewrite E; [done|].
  assert (decodeAuthzTuples (encodeAuthzTuples [MkTuple (Object_String (UserObject (pp_id p))) r (ProjectObject (pp_lakekeeper p))]) = Ok [MkTuple (Object_String (UserObject (pp_id p))) r (ProjectObject (pp_lakekeeper p))]) as Ht by by apply encode_run_tuple.
  set (t := MkTuple _ _ _) in *. cbn [is_empty]. unfold mbind at 1, Op_bind at 1.
  pose proof (wp_RecordRunTuples (pp_id p) t w x) as Hrec. destruct (RecordRunTuples (pp_id p) [t] (w, x)) as [[w1 x1] [r1|]] eqn:E1; cbn beta iota in Hrec.
  2: { cbn. destruct Hrec as [->| ->]; [done|by apply accounted_add]. }
  destruct Hrec as [Hw1 Hok]. destruct r1 as [[]|e]; [|cbn; destruct Hw1 as [->| ->]; [done|by apply accounted_add]]. destruct (Hok eq_refl) as [-> Hn].
  unfold mbind at 1, Op_bind at 1. pose proof (wp_WriteTuples t (insert_tuples (pp_id p) [t] w).1 x1) as Hwr.
  assert (∀ w2, w2 = (insert_tuples (pp_id p) [t] w).1 ∨ w2 = (fga_write [t] (insert_tuples (pp_id p) [t] w).1).1 → accounted B w2) as Hall.
  { intros w2 [->| ->]; [by apply accounted_add|]. apply (accounted_grant _ (pp_id p) (MkRunTuplesRow (encodeAuthzTuples [t]) false (w_now w))); [|exact Ht|by apply accounted_add]. unfold insert_tuples. rewrite Hn. cbn. by rewrite lookup_insert_eq. }
  destruct (authz_WriteTuples [t] ((insert_tuples (pp_id p) [t] w).1, x1)) as [[w2 x2] [r2|]] eqn:E2; cbn beta iota in Hwr; [|by apply Hall].
  destruct r2 as [[]|m]; [by apply Hall|]. assert (t ∉ w_grants (insert_tuples (pp_id p) [t] w).1 → t ∈ w_grants w2 → B t) as HB.
  { intros Hni Hin. apply Hlost. split; [done|]. by eexists _, _, m. }
  pose proof (safe_withdraw (pp_id p) t w w2 ("write FGA tuples: " +:+ m) Ht Hn Hw Hwr HB x2) as Hend.
  match type of Hend with match ?e with _ => _ end => match goal with |- accounted B (?g).1.1 => change g with e; destruct e as [[w3 x3] [a|]] end end; exact Hend.
Qed.
Lemma safe_Trigger_prepare req : safe (Trigger_prepare ns saf b req).
Proof.
  unfold Trigger_prepare, ProjectNS_Ensure. repeat first [ledger_step | apply safe_GetProjectByID | apply safe_EnsureProjectNamespace | apply safe_ApplyPipelineCRD].
Qed.
Lemma safe_Trigger_start req p : safe (Trigger_start IsDNS1123Subdomain b ctx req p).
Proof.
  unfold Trigger_start, failed_run, MarkFailed. repeat first [ledger_step | apply safe_UpdateRunPhase | apply safe_CreateRunResources | apply safe_commit].
Qed.
Lemma safe_Trigger_insert req p : safe (Trigger_insert req p).
Proof. unfold Trigger_insert, CreateRun, db, insert_run. repeat ledger_step. Qed.
Lemma TriggerRun_accounted req w x : accounted B w →
  (∀ p s t, Trigger_prepare ns saf b req (w, x) = (s, Some (Ok p)) → lost_grant req p s t → B t) →
  accounted B (TriggerRun IsDNS1123Subdomain ns saf b ctx req (w, x)).1.1.
Proof.
  intros Hw Hlost. unfold TriggerRun. unfold try_op at 1, mbind, Op_bind.
  pose proof (safe_Trigger_prepare req w Hw x) as Hp. destruct (Trigger_prepare ns saf b req (w, x)) as [[w0 x0] [[p|e]|]] eqn:E; cbn beta iota in Hp; try done.
  unfold try_op at 1, mbind, Op_bind. pose proof (Trigger_grant_accounted req p w0 x0 Hp (λ t, Hlost p (w0, x0) t eq_refl)) as Hg.
  destruct (Trigger_grant b req p (w0, x0)) as [[w1 x1] [[[]|e]|]]; cbn in Hg; try done.
  assert (safe (try_op (Trigger_insert req p) (λ _, Trigger_start IsDNS1123Subdomain b ctx req p))) as Hrest.
  { apply keeps_try; [apply safe_Trigger_insert|intros []; apply safe_Trigger_start]. }
  specialize (Hrest w1 Hg x1). destruct (try_op (Trigger_insert req p) _ (w1, x1)) as [[w2 x2] [a|]]; exact Hrest.
Qed.

(** *** The sweep *)

Lemma safe_ReapOnce maxAge updater : safe (ReapOnce IsDNS1123Subdomain maxAge updater).
Proof.
  unfold ReapOnce, reapOrphanSecrets, reap_namespace, reap_secret, reap_object, delete_object.
  repeat first [ledger_step | apply safe_list_objects | apply safe_DBRunUpdater | apply safe_for_each; intros ?].
Qed.
(** A row of the sweep, while no other process adds rows. *)
Definition sound_row (w : World) (r : runTupleSweepRow) : Prop := ∃ t, sw_Tuples r = [t] ∧ records (sw_RunID r) t w.
Lemma wp_cleanupRunTuplesRow r w : sound_row w r → accounted B w →
  wp (accounted B) (cleanupRunTuplesRow true r) (λ _ w', accounted B w' ∧ below w w') w.
Proof.
  intros (t & Hts & Hr) Hw. unfold cleanupRunTuplesRow. rewrite Hts. cbn [andb negb is_empty]. apply wp_op_bind. apply wp_op_bind.
  eapply wp_mono; [by apply wp_revoked|done|]. intros d w' (Ha & Heq & Hgone). apply wp_op_ret.
  assert (below w w') as Hb by (unfold below; by rewrite Heq). destruct (match d with Ok _ => true | Err e => isMissingTupleErr e end); [|by apply wp_op_ret].
  apply wp_ignore. eapply wp_mono; [eapply (wp_dropped _ t); [by eapply records_below|by apply Hgone|done]|done|].
  intros a w'' [Ha' Hb']. split; [done|]. unfold below in *. by etrans.
Qed.
Lemma wp_reap_row cutoff k8sClient r w : sound_row w r → accounted B w →
  wp (accounted B) (reap_row true cutoff k8sClient r) (λ _ w', accounted B w' ∧ below w w') w.
Proof.
  intros Hr Hw. assert (wp (X := X) (accounted B) (mret ()) (λ _ w', accounted B w' ∧ below w w') w) as Hnone by (apply wp_op_ret; unfold below; done).
  unfold reap_row. destruct (case_of cutoff r); [by apply wp_cleanupRunTuplesRow|done| |done].
  destruct k8sClient; [|by apply wp_cleanupRunTuplesRow]. unfold pipelineRunIsLive, k8s. apply wp_op_bind, wp_op_bind.
  apply wp_call; [|intros m; by apply wp_op_ret|intros m; by apply wp_op_ret|done|done]. apply wp_op_ret. cbn. destruct (existsb _ _); [done|by apply wp_cleanupRunTuplesRow].
Qed.
Lemma sound_rows w rows : accounted B w → rows ≡ₚ sweep_join w → Forall (sound_row w) (omap sweep_row rows).
Proof.
  intros [_ Hw] Hp. apply Forall_forall. intros r (((id, row), ph) & Hin & Hr)%list_elem_of_omap. rewrite Hp in Hin.
  unfold sweep_join in Hin. apply list_elem_of_fmap in Hin as ((id' & row') & [= -> -> _] & Hin%elem_of_map_to_list).
  destruct (Hw _ _ Hin) as [t Ht]. unfold sweep_row in Hr. cbn in Hr. rewrite Ht in Hr. injection Hr as <-.
  exists t. split; [done|]. intros row'' Hrow. cbn in Hrow. rewrite Hin in Hrow. by injection Hrow as <-.
Qed.
Lemma safe_ReapRunTuples k8sClient : safe (ReapRunTuples true k8sClient).
Proof.
  intros w Hw. unfold ReapRunTuples. apply wp_op_bind. apply wp_read; [done| |intros m; by apply wp_op_ret].
  apply wp_op_bind. apply wp_in_order. intros rows Hrows. apply wp_op_bind. apply wp_local. apply wp_op_bind.
  pose proof (sound_rows w rows Hw Hrows) as Hs.
  eapply wp_mono; [eapply (wp_for_each _ _ (λ l w, Forall (sound_row w) l ∧ accounted B w)); [|by split]|done|].
  - intros r l w' [[Hr Hl]%Forall_cons Hw']. eapply wp_mono; [by apply wp_reap_row|done|]. cbn. intros _ w'' [Ha Hb]. split; [|done].
    eapply Forall_impl; [exact Hl|]. intros r' (t & Hts & Hr'). exists t. split; [done|by eapply records_below].
  - intros a w' [_ Hw']. by apply wp_op_ret.
Qed.
Lemma safe_ReapOnceWith maxAge updater pool : safe (ReapOnceWith IsDNS1123Subdomain true maxAge updater pool).
Proof.
  unfold ReapOnceWith. repeat first [keeps_step | apply safe_ReapOnce | apply safe_ReapRunTuples].
Qed.
End Process.
End Keeps.

(** ** Histories of a run's life *)

(** What the API server and its reaper do to runs; a process may end in the
    middle of one, and another goes on with the next. *)
Inductive lifecycle : Type :=
| Trigger (ctx : option string) (req : TriggerRequest)
| Cancel (req : CancelRequest)
| Complete (runID : string)
| Sweep (maxAge : Z) (updater pool : bool).

Section History.
Context `{UT : !UnicodeTables} `{PL : !PoolLib} `{J : !Jwt} `{UL : !UuidLib} {X : Type} `{F : !Faults X}.
Variables (IsDNS1123Subdomain : string → list string) (POD_NAMESPACE : string) (saNamespaceFile : option string) (b : K8sBackend).

Definition perform (o : lifecycle) : Op World X () :=
  match o with
  | Trigger ctx req => ignore (TriggerRun IsDNS1123Subdomain POD_NAMESPACE saNamespaceFile b ctx req)
  | Cancel req => ignore (CancelRun IsDNS1123Subdomain b req)
  | Complete runID => CompleteRun b runID
  | Sweep maxAge updater pool => ignore (ReapOnceWith IsDNS1123Subdomain (b_authzr b) maxAge updater pool)
  end.
Definition history (l : list lifecycle) (s : World * X) : World * X := foldl (λ s o, (perform o s).1) s l.

(** The grant that a trigger loses track of: [WriteTuples] wrote it and answered
    with an error, and the trigger drops the row that records it. *)
Definition lost_write (s : World * X) (o : lifecycle) (t : Tuple) : Prop :=
  match o with
  | Trigger _ req => ∃ p s', Trigger_prepare POD_NAMESPACE saNamespaceFile b req s = (s', Some (Ok p)) ∧ lost_grant req p s' t
  | _ => False
  end.
(** One that a trigger of [l] loses track of. *)
Definition lost_in (l : list lifecycle) (s : World * X) (t : Tuple) : Prop :=
  ∃ l1 o l2, l = l1 ++ o :: l2 ∧ lost_write (history l1 s) o t.

Section Connected.
Context `{HE : !HonestErrors X}.
Hypotheses (Hdb : b_db b = true) (Haz : b_authzr b = true).

Lemma perform_accounted (B : Tuple → Prop) o w x : (∀ t, lost_write (w, x) o t → B t) → accounted B w → accounted B (perform o (w, x)).1.1.
Proof.
  assert (b_db b = true ∧ b_authzr b = true) as Hc by done. intros Hlost Hw.
  assert (keeps (X := X) (accounted B) (perform o) → accounted B (perform o (w, x)).1.1) as Hkeep.
  { intros Hk. specialize (Hk w Hw x). by destruct (perform o (w, x)) as [[w' x'] [[]|]]. }
  destruct o as [ctx req|req|id|maxAge u pool]; [|apply Hkeep; cbn [perform]; rewrite ?Haz; repeat first [keeps_step | by apply safe_CancelRun | by apply safe_cleanup | by apply safe_ReapOnceWith]..].
  assert (accounted B (TriggerRun IsDNS1123Subdomain POD_NAMESPACE saNamespaceFile b ctx req (w, x)).1.1) as Ht.
  { apply TriggerRun_accounted; [done..|]. intros p s t Hp Hl. apply Hlost. by exists p, s. }
  cbn [perform]. unfold ignore, mbind, Op_bind. by destruct (TriggerRun _ _ _ _ _ _ _) as [[w' x'] [a|]].
Qed.
Lemma history_accounted (B : Tuple → Prop) l s : (∀ t, lost_in l s t → B t) → accounted B s.1 → accounted B (history l s).1.
Proof.
  revert s. induction l as [|o l IH]; intros [w x] Hlost Hw; [done|]. cbn [history foldl]. apply IH.
  - intros t (l1 & o' & l2 & -> & Hl). apply Hlost. by exists (o :: l1), o', l2.
  - apply perform_accounted; [|done]. intros t Hl. apply Hlost. by exists [], o, l.
Qed.
End Connected.
(** C2: No grant of a run is lost track of, but for one known way.  Over any
    sequence of triggers, cancels, completions and sweeps, each of which may see
    calls fail, before their effect or after it, or end with its process at any
    call, a grant in OpenFGA is one of those there were at first, or a row of
    run_tuples records it, so that a later sweep can revoke it, or it is the
    grant of a trigger whose WriteTuples took effect and answered with an error
    ([lost_in]; the trigger then drops the row); and every row still records one
    grant.  Errors of the services are taken not to be worded like OpenFGA's
    answers on tuples that exist or are missing ([HonestErrors]). *)
Theorem grants_accounted `{HE : !HonestErrors X} (l : list lifecycle) (w : World) (x : X) :
  b_db b = true → b_authzr b = true → w_run_tuples w = ∅ →
  accounted (λ t, t ∈ w_grants w ∨ lost_in l (w, x) t) (history l (w, x)).1.
Proof.
  intros Hdb Haz Hempty. apply history_accounted; [done|done|auto|]. split; [auto|]. intros id row. cbn. rewrite Hempty. by rewrite lookup_empty.
Qed.
End History.
