(* ===== verification/RunSweep.v ===== *)
(** * RunSweep: what a sweep takes and what it leaves
      (pkg/pipelineapi/k8s/reaper.go, reap_run_tuples.go)

    The sweep of run_tuples, when nothing fails, as a function of the tables and
    of the objects of the cluster; and, whatever fails, the bounds of what a sweep
    of the objects may delete. *)

From S2P Require Import Prelude ApiTypes Status GoTime Policy PreviewStore Authz PipelineDoc CommitPool Tokens Calls RunWorld RunMirror RunBackend RunReaper RunGrants.

(** ** The sweep of run_tuples *)

Section Rows.
Context `{UT : !UnicodeTables} `{PL : !PoolLib} `{UL : !UuidLib} {X : Type} `{F : !Faults X}.

(** Some object of the cluster carries the id of the run. *)
Definition has_object (w : World) (id : string) : bool := existsb (λ ko, labelled id ko.2) (map_to_list (w_run_objects w)).
(** The rows a sweep takes: of a run that has ended, or of no run, once they are
    old enough for the object of their run to be there if it ever will be. *)
Definition due (cutoff : Z) (w : World) (id : string) (row : RunTuplesRow) : bool :=
  match w_runs w !! id with
  | Some run => terminal (run_Phase run)
  | None => (rt_created_at row <? cutoff)%Z && negb (has_object w id)
  end.
Definition one_tuple_rows (w : World) : Prop := ∀ id row, w_run_tuples w !! id = Some row → ∃ t, decodeAuthzTuples (rt_tuples row) = Ok [t].

Definition due_row (cutoff : Z) (w : World) (r : runTupleSweepRow) : bool :=
  match case_of cutoff r with CaseTerminal => true | CaseLive | CaseYoung => false | CaseOrphan => negb (has_object w (sw_RunID r)) end.
Definition sweep_effect (cutoff : Z) (w : World) (r : runTupleSweepRow) : World :=
  if due_row cutoff w r then drop_tuples (sw_RunID r) (set_grants (w_grants w ∖ list_to_set (sw_Tuples r)) w) else w.

Lemma fga_delete_effect t w : set_grants (w_grants w ∖ list_to_set [t]) w = (fga_delete [t] w).1 ∧
  match (fga_delete [t] w).2 with Ok _ => true | Err e => isMissingTupleErr e end = true.
Proof.
  unfold fga_delete. case_bool_decide as H; [done|]. split; [|by vm_compute]. cbn [fst]. rewrite difference_disjoint_L; [by destruct w|].
  cbn. assert (t ∉ w_grants w); [|set_solver]. intros Ht. apply H. by constructor.
Qed.
Context `{RL : !Reliable X}.
Lemma cleanup_row_done r t w x : sw_Tuples r = [t] →
  ∃ x', cleanupRunTuplesRow true r (w, x) = ((drop_tuples (sw_RunID r) (set_grants (w_grants w ∖ list_to_set (sw_Tuples r)) w), x'), Some ()).
Proof.
  intros Ht. unfold cleanupRunTuplesRow. rewrite Ht. cbn [andb negb is_empty authz_DeleteTuples]. destruct (fga_delete_effect t w) as [-> Hok].
  unfold call_err, ignore, mbind, Op_bind, mret, Op_ret. rewrite call_done. cbn [fst snd]. rewrite Hok, call_done. by eexists.
Qed.
Lemma reap_row_done cutoff r t w x : sw_Tuples r = [t] → ∃ x', reap_row true cutoff true r (w, x) = ((sweep_effect cutoff w r, x'), Some ()).
Proof.
  intros Ht. unfold reap_row, sweep_effect, due_row. destruct (case_of cutoff r); [by eapply cleanup_row_done|by eexists| |by eexists].
  unfold pipelineRunIsLive, k8s, mbind, Op_bind, mret, Op_ret. rewrite call_done. cbn [fst snd]. fold (has_object w (sw_RunID r)).
  destruct (has_object w (sw_RunID r)); cbn [negb]; [by eexists|by eapply cleanup_row_done].
Qed.
Lemma reap_rows_done cutoff l w x : (∀ r, r ∈ l → ∃ t, sw_Tuples r = [t]) →
  ∃ x', for_each (reap_row true cutoff true) l (w, x) = ((foldl (sweep_effect cutoff) w l, x'), Some ()).
Proof.
  revert w x. induction l as [|r l IH]; intros w x Hl; [by eexists|]. cbn [for_each foldl].
  destruct (Hl r) as [t Ht]; [by left|]. destruct (reap_row_done cutoff r t w x Ht) as [x1 E]. unfold mbind, Op_bind. rewrite E. apply IH. intros r' Hr'. apply Hl. by right.
Qed.

(** *** The effect on the tables *)

Lemma sweep_effect_other cutoff w r : w_run_objects (sweep_effect cutoff w r) = w_run_objects w ∧ w_runs (sweep_effect cutoff w r) = w_runs w.
Proof. unfold sweep_effect. by destruct (due_row cutoff w r). Qed.
Lemma due_row_same cutoff w w' r : w_run_objects w' = w_run_objects w → due_row cutoff w' r = due_row cutoff w r.
Proof. intros H. unfold due_row, has_object. by rewrite H. Qed.
Lemma swept_rows cutoff l : ∀ w, let w' := foldl (sweep_effect cutoff) w l in
  (∀ id row, w_run_tuples w' !! id = Some row ↔ w_run_tuples w !! id = Some row ∧ ∀ r, r ∈ l → due_row cutoff w r = true → sw_RunID r ≠ id) ∧
  (∀ t, t ∈ w_grants w' ↔ t ∈ w_grants w ∧ ∀ r, r ∈ l → due_row cutoff w r = true → t ∉ sw_Tuples r) ∧
  w_run_objects w' = w_run_objects w ∧ w_runs w' = w_runs w.
Proof.
  induction l as [|r l IH]; intros w; cbn [foldl].
  { cbn. split_and!; [set_solver|set_solver|done|done]. }
  destruct (IH (sweep_effect cutoff w r)) as (Hrows & Hgrants & Hobjs & Hruns). destruct (sweep_effect_other cutoff w r) as [Ho Hr].
  rewrite Hobjs, Hruns, Ho, Hr. setoid_rewrite (due_row_same cutoff _ _ _ Ho) in Hrows. setoid_rewrite (due_row_same cutoff _ _ _ Ho) in Hgrants. split_and!; [| |done|done].
  - intros id row. rewrite Hrows. setoid_rewrite elem_of_cons. unfold sweep_effect. destruct (due_row cutoff w r) eqn:E.
    + cbn. rewrite lookup_delete_Some. clear -E. split; [intros [[Ha Hb] H]; split; [done|intros r' [->|?] ?; [done|by apply H]]|].
      intros [Ha H]. split_and!; [apply H; [by left|done]|done|intros r' ? ?; apply H; [by right|done]].
    + clear -E. split; intros [Ha H]; (split; [done|]); intros r'; [intros [->|?] ?; [congruence|by apply H]|intros ? ?; apply H; [by right|done]].
  - intros t. rewrite Hgrants. setoid_rewrite elem_of_cons. unfold sweep_effect. destruct (due_row cutoff w r) eqn:E.
    + cbn. rewrite elem_of_difference, elem_of_list_to_set. clear -E. split; [intros [[Ha Hb] H]; split; [done|intros r' [->|?] ?; [done|by apply H]]|].
      intros [Ha H]. split_and!; [done|apply H; [by left|done]|intros r' ? ?; apply H; [by right|done]].
    + clear -E. split; intros [Ha H]; (split; [done|]); intros r'; [intros [->|?] ?; [congruence|by apply H]|intros ? ?; apply H; [by right|done]].
Qed.

(** *** The rows of the select *)

Lemma swept_row w rows r : rows ≡ₚ sweep_join w → r ∈ omap sweep_row rows ↔
  ∃ row, w_run_tuples w !! sw_RunID r = Some row ∧ decodeAuthzTuples (rt_tuples row) = Ok (sw_Tuples r) ∧
    sw_phase r = run_Phase <$> w_runs w !! sw_RunID r ∧ sw_CreatedAt r = rt_created_at row.
Proof.
  intros Hp. rewrite list_elem_of_omap. setoid_rewrite Hp. unfold sweep_join. split.
  - intros (((id, row), ph) & Hin & Hr). apply list_elem_of_fmap in Hin as ((id' & row') & [= -> -> ->] & Hin%elem_of_map_to_list).
    unfold sweep_row in Hr. cbn in Hr. destruct (decodeAuthzTuples _) eqn:E; [|done]. injection Hr as <-. by exists row'.
  - intros (row & Hrow & Hdec & Hph & Hc). exists (sw_RunID r, row, run_Phase <$> w_runs w !! sw_RunID r). split.
    + apply list_elem_of_fmap. exists (sw_RunID r, row). split; [done|]. by apply elem_of_map_to_list.
    + unfold sweep_row. cbn. rewrite Hdec, <- Hph, <- Hc. by destruct r.
Qed.
Lemma due_of_row cutoff w r row : sw_phase r = run_Phase <$> w_runs w !! sw_RunID r → sw_CreatedAt r = rt_created_at row →
  due_row cutoff w r = due cutoff w (sw_RunID r) row.
Proof.
  intros Hp Hc. unfold due_row, due, case_of. rewrite Hp, Hc. destruct (w_runs w !! sw_RunID r) as [run|]; cbn; [by destruct (terminal _)|by destruct (_ <? _)%Z].
Qed.
Lemma ReapRunTuples_done w x : one_tuple_rows w → ∃ w' x', ReapRunTuples true true (w, x) = ((w', x'), Some (Ok ())) ∧
  (∀ id row, w_run_tuples w' !! id = Some row ↔ w_run_tuples w !! id = Some row ∧ due (w_now w - orphanRunTuplesAge) w id row = false) ∧
  (∀ t, t ∈ w_grants w' ↔ t ∈ w_grants w ∧
    ∀ id row, w_run_tuples w !! id = Some row → due (w_now w - orphanRunTuplesAge) w id row = true → decodeAuthzTuples (rt_tuples row) ≠ Ok [t]) ∧
  w_run_objects w' = w_run_objects w ∧ w_runs w' = w_runs w.
Proof.
  intros H1. unfold ReapRunTuples, read, mbind, Op_bind. rewrite call_done. unfold in_order. cbn [fst snd].
  pose proof (list_order_perm _ (sweep_join w) (fault x).1) as Hp. destruct (list_order (sweep_join w) (fault x).1) as [x1 rows]. cbn [snd] in Hp.
  unfold local. cbn [fst snd]. set (cutoff := (w_now w - orphanRunTuplesAge)%Z).
  assert (∀ r, r ∈ omap sweep_row rows → ∃ t, sw_Tuples r = [t]) as Hone.
  { intros r (row & Hrow & Hdec & _)%(swept_row w); [|done]. destruct (H1 _ _ Hrow) as [t Ht]. rewrite Hdec in Ht. injection Ht as ->. by exists t. }
  destruct (reap_rows_done cutoff _ w x1 Hone) as [x2 ->]. destruct (swept_rows cutoff (omap sweep_row rows) w) as (Hrows & Hgrants & Ho & Hr).
  eexists _, _. split; [done|]. split_and!; [| |done|done].
  - intros id row. rewrite Hrows. split; intros [Hrow Hd]; (split; [done|]).
    + destruct (H1 _ _ Hrow) as [t Ht]. apply not_true_iff_false. intros Hdue.
      apply (Hd (MkSweepRow id [t] (run_Phase <$> w_runs w !! id) (rt_created_at row))); [apply (swept_row w _ _ Hp); by exists row| |done].
      by rewrite (due_of_row cutoff w _ row).
    + intros r (row' & Hrow' & Hdec & Hph & Hc)%(swept_row w _ _ Hp) Hdue <-. rewrite Hrow in Hrow'. injection Hrow' as <-.
      rewrite (due_of_row cutoff w r row) in Hdue by done. congruence.
  - intros t. rewrite Hgrants. split; intros [Ht Hd]; (split; [done|]).
    + intros id row Hrow Hdue Hdec. apply (Hd (MkSweepRow id [t] (run_Phase <$> w_runs w !! id) (rt_created_at row))); cbn; [apply (swept_row w _ _ Hp); by exists row| |by left].
      by rewrite (due_of_row cutoff w _ row).
    + intros r Hin Hdue Hts. destruct (Hone r Hin) as [t' Ht']. rewrite Ht' in Hts. apply list_elem_of_singleton in Hts as <-.
      apply (swept_row w _ _ Hp) in Hin as (row & Hrow & Hdec & Hph & Hc). rewrite Ht' in Hdec. rewrite (due_of_row cutoff w r row) in Hdue by done. by eapply Hd.
Qed.
(** C18: A sweep of run_tuples in which nothing fails is exact.  It takes the rows
    of the runs that have ended, and those of no run that are older than half an
    hour and of which the cluster has no object; it revokes the grants those rows
    record, and no other; every other row, the runs and the objects stay. *)
Theorem sweep_exact (w : World) (x : X) : one_tuple_rows w →
  ∃ w' x', ReapRunTuples true true (w, x) = ((w', x'), Some (Ok ())) ∧
  (∀ id row, w_run_tuples w' !! id = Some row ↔ w_run_tuples w !! id = Some row ∧ due (w_now w - orphanRunTuplesAge) w id row = false) ∧
  (∀ t, t ∈ w_grants w' ↔ t ∈ w_grants w ∧
    ∀ id row, w_run_tuples w !! id = Some row → due (w_now w - orphanRunTuplesAge) w id row = true → decodeAuthzTuples (rt_tuples row) ≠ Ok [t]) ∧
  w_run_objects w' = w_run_objects w ∧ w_runs w' = w_runs w.
Proof. apply ReapRunTuples_done. Qed.
End Rows.

(** ** The sweep of the objects *)

Section Objects.
Context `{UT : !UnicodeTables} `{PL : !PoolLib} `{UL : !UuidLib} {X : Type} `{F : !Faults X}.
Variables (IsDNS1123Subdomain : string → list string) (maxAge : Z) (w0 : World).

(** Old objects of runs: a run that ended by itself, by its end; one that has
    not, by its start, and never before it has one. *)
Definition reapable (o : RunObject) : Prop :=
  has_label run_id_label (ro_Labels o) = true ∧ ∃ age, reapAge o = Some age ∧ (age < w_now w0 - maxAge)%Z.
Definition reapable_secret (k : string * string) (s : SecretObject) : Prop :=
  has_label run_id_label (so_Labels s) = true ∧ so_Owners s = [] ∧ (so_CreationTimestamp s < w_now w0 - maxAge)%Z ∧
  ∃ labels, w_namespaces w0 !! k.1 = Some labels ∧ has_label ProjectNamespaceLabel labels = true.
(** A row that expires is the row of such an object. *)
Definition expires (id : string) : Prop := ∃ k o l, w_run_objects w0 !! k = Some o ∧ reapable o ∧ object_terminal (ro_Phase o) = false ∧
  ro_Labels o !! run_id_label = Some l ∧ uuid_Parse l = Some id.
Definition spared (w : World) : Prop :=
  w_now w = w_now w0 ∧ w_namespaces w = w_namespaces w0 ∧ w_run_tuples w = w_run_tuples w0 ∧ w_grants w = w_grants w0 ∧
  (∀ k, w_run_objects w !! k = w_run_objects w0 !! k ∨ w_run_objects w !! k = None ∧ ∃ o, w_run_objects w0 !! k = Some o ∧ reapable o) ∧
  (∀ k, w_secrets w !! k = w_secrets w0 !! k ∨ w_secrets w !! k = None ∧ ∃ s, w_secrets w0 !! k = Some s ∧ reapable_secret k s) ∧
  (∀ id, w_runs w !! id = w_runs w0 !! id ∨ expires id ∧ ∃ r0 r, w_runs w0 !! id = Some r0 ∧ w_runs w !! id = Some r ∧
    run_Phase r = "Expired" ∧ run_Phase r0 ∉ ["Cancelled"; "Expired"]).

Lemma wp_list_objects {K O} `{EqDecision K} `{!Countable K} (C : World → Prop) (objs : World → gmap K O) (Q : result kerr (list (K * O)) → World → Prop) w :
  C w → (∀ l, l ≡ₚ map_to_list (objs w) → Q (Ok l) w) → (∀ e, Q (Err e) w) → wp C (X := X) (list_objects objs) Q w.
Proof.
  intros HC Hl He. unfold list_objects, k8s. apply wp_op_bind, wp_op_bind. apply wp_call; [|intros m; do 2 apply wp_op_ret; apply He|intros m; do 2 apply wp_op_ret; apply He|done|done].
  apply wp_op_ret. cbn. apply wp_op_bind, wp_in_order. intros l' Hp. apply wp_op_ret. by apply Hl.
Qed.
Lemma keeps_filtered {K O} `{EqDecision K} `{!Countable K} (I : World → Prop) (objs : World → gmap K O) (P : K * O → Prop) `{!∀ x, Decision (P x)}
    (f : K * O → Op World X ()) w l : l ≡ₚ map_to_list (objs w) →
  (∀ k o, objs w !! k = Some o → P (k, o) → keeps I (f (k, o))) → keeps I (for_each f (filter P l)).
Proof. intros Hp Hf. apply keeps_for_each. intros [k o] [HP Hin]%list_elem_of_filter. apply Hf; [|done]. rewrite Hp in Hin. by apply elem_of_map_to_list in Hin. Qed.

Lemma keeps_delete_object {K O} `{EqDecision K} `{!Countable K} (I : World → Prop) (objs : World → gmap K O) (set : gmap K O → World → World) k :
  (∀ w o, I w → objs w !! k = Some o → I (set (delete k (objs w)) w)) → keeps (X := X) I (delete_object objs set k).
Proof.
  intros H. unfold delete_object, k8s. apply keeps_op_bind; [|intros r; apply keeps_op_ret]. apply keeps_op_call. intros w Hw. destruct (objs w !! k) eqn:E; cbn; eauto.
Qed.
Lemma spared_object k o : w_run_objects w0 !! k = Some o → reapable o → ∀ w o', spared w → w_run_objects w !! k = Some o' → spared (set_run_objects (delete k (w_run_objects w)) w).
Proof.
  intros Hk Ho w o' (H1 & H2 & H3 & H4 & Hobj & H5) _. split_and!; try apply H5; try done. cbn. intros k'. destruct (decide (k' = k)) as [->|Hne].
  - right. rewrite lookup_delete_eq. split; [done|]. by exists o.
  - rewrite lookup_delete_ne by done. apply Hobj.
Qed.
Lemma spared_secret k s : w_secrets w0 !! k = Some s → reapable_secret k s → ∀ w s', spared w → w_secrets w !! k = Some s' → spared (set_secrets (delete k (w_secrets w)) w).
Proof.
  intros Hk Ho w o' (H1 & H2 & H3 & H4 & Hobj & Hsec & H5) _. split_and!; try apply H5; try done. cbn. intros k'. destruct (decide (k' = k)) as [->|Hne].
  - right. rewrite lookup_delete_eq. split; [done|]. by exists s.
  - rewrite lookup_delete_ne by done. apply Hsec.
Qed.
Lemma spared_update id o : expires id → ur_Phase o = "Expired" → ur_GuardTerminal o = true → ∀ w, spared w → spared (update_run id o w).1.
Proof.
  intros He Hp Hg w Hw. unfold update_run. destruct (w_runs w !! id) as [r|] eqn:Hr; [|done]. destruct (run_guard o r) eqn:E; [|done].
  destruct Hw as (H1 & H2 & H3 & H4 & Hobj & Hsec & Hruns). split_and!; try done. cbn. intros id'. destruct (decide (id' = id)) as [->|Hne].
  - right. split; [done|]. destruct (Hruns id) as [Heq|(_ & r0 & r' & Hr0 & Hr' & Hph & Hno)].
    + exists r, (run_set (w_now w) o r). rewrite lookup_insert_eq, <- Heq. split_and!; [done|done|done|]. unfold run_guard in E. rewrite Hg in E.
      apply andb_prop in E as [_ E]. cbn in E. by apply negb_true_iff, bool_decide_eq_false in E.
    + exists r0, (run_set (w_now w) o r). by rewrite lookup_insert_eq.
  - rewrite lookup_insert_ne by done. apply Hruns.
Qed.
Lemma spared_Update now k o l id : w_run_objects w0 !! k = Some o → reapable o → object_terminal (ro_Phase o) = false →
  ro_Labels o !! run_id_label = Some l → uuid_Parse l = Some id → keeps (X := X) spared (DBRunUpdater_Update IsDNS1123Subdomain (expired_status maxAge now k id)).
Proof.
  intros Hk Ho Hterm Hl Hid. unfold DBRunUpdater_Update, UpdateRunPhase, db. repeat keeps_step. apply keeps_op_call. apply spared_update; [|done|done]. by exists k, o, l.
Qed.
Lemma spared_reap_object updater k o : w_run_objects w0 !! k = Some o → has_label run_id_label (ro_Labels o) = true →
  keeps (X := X) spared (reap_object IsDNS1123Subdomain maxAge (w_now w0 - maxAge) updater (k, o)).
Proof.
  intros Hk Hl. unfold reap_object. destruct (reapAge o) as [age|] eqn:Ha; [|apply keeps_op_ret]. destruct (age <? w_now w0 - maxAge)%Z eqn:Hc; cbn [negb]; [|apply keeps_op_ret].
  assert (reapable o) as Ho by (split; [done|]; exists age; split; [done|lia]).
  apply keeps_op_bind; [apply keeps_delete_object; by eapply spared_object|]. intros [[]|e]; [|apply keeps_op_ret].
  destruct (updater && negb (object_terminal (ro_Phase o))) eqn:E; [|apply keeps_op_ret]. apply andb_prop in E as [_ E%negb_true_iff].
  destruct (ro_Labels o !! run_id_label) as [l|] eqn:El; [|apply keeps_op_ret]. cbn [mbind option_bind]. destruct (uuid_Parse l) as [id|] eqn:Eid; [|apply keeps_op_ret].
  repeat keeps_step. by eapply spared_Update.
Qed.
Lemma spared_reapOrphanSecrets : keeps (X := X) spared (reapOrphanSecrets (w_now w0 - maxAge)).
Proof.
  intros w Hw. unfold reapOrphanSecrets. apply wp_op_bind. apply wp_list_objects; [done| |intros e; by apply wp_op_ret]. intros l Hl.
  apply (keeps_op_bind spared); [|intros; apply keeps_op_ret|done]. apply keeps_for_each. intros ns Hns. unfold reap_namespace.
  apply list_elem_of_fmap in Hns as ([ns' labels] & -> & [Hlab Hin]%list_elem_of_filter). cbn in *. rewrite Hl in Hin. apply elem_of_map_to_list in Hin.
  assert (w_namespaces w0 !! ns' = Some labels) as Hns by (by destruct Hw as (_ & <- & _)).
  intros w1 Hw1. apply wp_op_bind. apply wp_list_objects; [done| |intros e; by apply wp_op_ret]. intros l1 Hl1.
  apply (keeps_filtered spared w_secrets _ _ w1); [done| |done]. intros k s Hk [Hkn Hls]. cbn in *. unfold reap_secret.
  destruct (so_Owners s) eqn:Eo; cbn [is_empty negb]; [|apply keeps_op_ret]. destruct (so_CreationTimestamp s <? _)%Z eqn:Ec; cbn [negb]; [|apply keeps_op_ret].
  apply keeps_ignore. apply keeps_delete_object. destruct Hw1 as (_ & _ & _ & _ & _ & Hsec & _). destruct (Hsec k) as [Heq|[Hnone _]]; [|congruence].
  apply (spared_secret k s); [congruence|]. split_and!; [done|done|lia|]. exists labels. by rewrite Hkn.
Qed.
Lemma spared_refl : spared w0.
Proof. split_and!; auto. Qed.
End Objects.

(** Whatever fails, and wherever its process ends, a sweep of the objects
    stays in its bounds.  It refuses an age that is not positive.  An object of
    the cluster that goes was labelled with its run and older than that age, by
    the end of its run or, if the run has not ended, by its start, which it must
    have; a secret that goes had no owner and was as old, in the namespace of a
    project; a row that changes becomes Expired, was not Cancelled or Expired,
    and is the row of such an object whose run had not ended; no grant and no
    record of one is touched. *)
Theorem sweep_spares `{UT : !UnicodeTables} `{PL : !PoolLib} `{UL : !UuidLib} {X : Type} `{F : !Faults X}
    (IsDNS1123Subdomain : string → list string) (maxAge : Z) (updater : bool) (w : World) :
  wp (X := X) (spared maxAge w) (ReapOnce IsDNS1123Subdomain maxAge updater)
    (λ r w', spared maxAge w w' ∧ match r with Ok _ => (0 < maxAge)%Z | Err _ => (maxAge <= 0)%Z → w' = w end) w.
Proof.
  unfold ReapOnce. pose proof (spared_refl maxAge w) as Hw. destruct (maxAge <=? 0)%Z eqn:Hm; [by apply wp_op_ret|].
  apply wp_op_bind. apply wp_list_objects; [done| |intros e; apply wp_op_ret; split; [done|lia]]. intros l Hl. apply wp_op_bind, wp_local.
  eapply wp_mono; [|done|intros r w' H; exact H]. apply wp_op_bind.
  eapply wp_mono; [eapply (keeps_filtered (spared maxAge w) w_run_objects); [exact Hl| |done]|done|].
  { intros k o Hk Hlab. by apply spared_reap_object. }
  intros [] w1 Hw1. apply wp_op_bind. eapply wp_mono; [apply (keeps_ignore (spared maxAge w)); [apply spared_reapOrphanSecrets|done]|done|].
  intros [] w2 Hw2. apply wp_op_ret. split; [done|lia].
Qed.
