(* ===== verification/RunStart.v ===== *)
(** * RunStart: what a trigger and a cancel leave behind
      (pkg/pipelineapi/runbackend/k8s.go, pkg/pipelineapi/k8s/run_create.go)

    The contracts of TriggerRun and CancelRun: what holds of the tables, the
    grants and the cluster when they answer that they succeeded, whichever of
    their calls failed on the way. *)

From S2P Require Import Prelude ApiTypes Status GoTime Policy PreviewStore Authz PipelineDoc CommitPool Tokens Calls RunWorld RunMirror RunBackend RunReaper RunGrants.

Section Frames.
Context {X : Type} `{F : !Faults X}.
Lemma keeps_k8s_any {A} (I : World → Prop) (f : World → World * result kerr A) : (∀ w, I w → I (f w).1) → keeps (X := X) I (k8s f).
Proof. intros Hf. apply keeps_op_bind; [by apply keeps_op_call|]. intros r. apply keeps_op_ret. Qed.
Lemma wp_frame {A} (C I : World → Prop) (m : Op World X A) (Q : A → World → Prop) w :
  wp C m Q w → keeps I m → I w → wp C m (λ a w', Q a w' ∧ I w') w.
Proof. intros H HI Hw x. specialize (H x). specialize (HI w Hw x). by destruct (m (w, x)) as [[w' x'] [a|]]. Qed.
Lemma wp_any {A} (m : Op World X A) w : wp (λ _, True) m (λ _ _, True) w.
Proof. intros x. by destruct (m (w, x)) as [[w' x'] [a|]]. Qed.
(** What a call that answered did. *)
Lemma wp_k8s {A} (f : World → World * result kerr A) (Q : result kerr A → World → Prop) w :
  Q (f w).2 (f w).1 → (∀ m, Q (Err (KError m)) w) → (∀ m, Q (Err (KError m)) (f w).1) → wp (λ _, True) (k8s (X := X) f) Q w.
Proof. intros Hd Hf Hl. apply wp_op_bind. apply wp_call; try done; intros; by apply wp_op_ret. Qed.
End Frames.

(** Calls that touch nothing the invariant reads. *)
Ltac kept := intros ? ?; cbn; repeat case_match; cbn; by first [assumption | tauto].
Ltac kept_step :=
  first
  [ keeps_step
  | apply keeps_k8s_any; kept
  | apply keeps_call_err; kept
  | apply keeps_op_call; kept ].

Section Trigger.
Context `{UT : !UnicodeTables} `{PL : !PoolLib} `{J : !Jwt} {X : Type} `{F : !Faults X}.
Variables (IsDNS1123Subdomain : string → list string) (POD_NAMESPACE : string) (saNamespaceFile : option string) (b : K8sBackend) (ctx : option string).
Abbreviation any := (λ _ : World, True).

(** *** The document *)

Lemma wp_ApplyPipelineCRD ns doc w : wp (X := X) any (ApplyPipelineCRD ns doc)
  (λ r w', r = Ok () → ∃ d, doc = Some d ∧ w_documents w' !! (ns, d_Name d) = Some d) w.
Proof.
  unfold ApplyPipelineCRD. destruct doc as [d|]; [|by apply wp_op_ret]. destruct (str_empty (d_Name d)); [by apply wp_op_ret|].
  assert (∀ w, wp (X := X) any (r ← update_object w_documents set_documents (ns, d_Name d) d; mret (match r with Ok _ => Ok () | Err e => Err ("update Pipeline CRD: " +:+ kerr_text e) end))
    (λ r w', r = Ok () → ∃ d', Some d = Some d' ∧ w_documents w' !! (ns, d_Name d') = Some d') w) as Hput.
  { intros w1. apply wp_op_bind. apply wp_k8s; [|intros; by apply wp_op_ret|intros; by apply wp_op_ret]. apply wp_op_ret.
    destruct (w_documents w1 !! (ns, d_Name d)); [|done]. intros _. exists d. split; [done|]. cbn. by rewrite lookup_insert_eq. }
  cbv zeta. apply wp_op_bind. apply wp_k8s; [|intros; by apply wp_op_ret|intros; by apply wp_op_ret]. destruct (w_documents w !! (ns, d_Name d)) eqn:E; [by apply Hput|].
  cbn [fst snd]. apply wp_op_bind. apply wp_k8s; [|intros; by apply wp_op_ret|intros; by apply wp_op_ret]. rewrite E. cbn [fst snd]. apply wp_op_ret. intros _.
  exists d. split; [done|]. cbn. by rewrite lookup_insert_eq.
Qed.
Definition prepared (req : TriggerRequest) (w : World) (p : Prepared) (w' : World) : Prop :=
  ∃ proj d, w_projects w !! tr_ProjectID req = Some proj ∧ pp_ns p = pj_K8sNamespace proj ∧
    (b_db b = true → pp_lakekeeper p = pj_LakekeeperProjectID proj) ∧
    tr_Doc req = Some d ∧ w_documents w' !! (pp_ns p, d_Name d) = Some d.
Definition untouched_by_prepare (w w' : World) : Prop :=
  w_now w' = w_now w ∧ w_projects w' = w_projects w ∧ w_pipelines w' = w_pipelines w ∧ w_runs w' = w_runs w ∧
  w_run_tuples w' = w_run_tuples w ∧ w_grants w' = w_grants w ∧ w_run_objects w' = w_run_objects w ∧ w_secrets w' = w_secrets w.
Lemma kept_GetProjectByID (I : World → Prop) id : keeps (X := X) I (GetProjectByID id).
Proof. unfold GetProjectByID, db. repeat keeps_step. Qed.
Lemma kept_ProjectNS_Ensure w0 id : keeps (X := X) (untouched_by_prepare w0) (ProjectNS_Ensure POD_NAMESPACE saNamespaceFile id).
Proof.
  unfold ProjectNS_Ensure, EnsureProjectNamespace, ensureNamespace, ensureSecretsRBAC, ensureSecretRole, ensureRole, ensureRoleBinding, EnsureProjectLimitRange, ensure, then_op, get_object, create_object.
  repeat first [kept_step | apply kept_GetProjectByID].
Qed.
Lemma kept_ApplyPipelineCRD w0 ns doc : keeps (X := X) (untouched_by_prepare w0) (ApplyPipelineCRD ns doc).
Proof. unfold ApplyPipelineCRD, get_object, create_object, update_object. repeat kept_step. Qed.
Lemma kept_Trigger_prepare w0 req : keeps (X := X) (untouched_by_prepare w0) (Trigger_prepare POD_NAMESPACE saNamespaceFile b req).
Proof. unfold Trigger_prepare. repeat first [kept_step | apply kept_GetProjectByID | apply kept_ProjectNS_Ensure | apply kept_ApplyPipelineCRD]. Qed.
Lemma wp_GetProjectByID id w : wp (X := X) any (GetProjectByID id) (λ r w', w' = w ∧ ∀ p, r = Ok p → w_projects w !! id = Some p) w.
Proof.
  unfold GetProjectByID, db. apply wp_op_try, wp_op_bind. apply wp_read; [done| |intros; by apply wp_op_ret]. do 2 apply wp_op_ret. split; [done|]. intros p. by destruct (w_projects w !! id); intros [= ->].
Qed.
Lemma wp_ProjectNS_Ensure id w : wp (X := X) any (ProjectNS_Ensure POD_NAMESPACE saNamespaceFile id)
  (λ r w', ∀ ns, r = Ok ns → ∃ p, w_projects w !! id = Some p ∧ ns = pj_K8sNamespace p) w.
Proof.
  unfold ProjectNS_Ensure. apply wp_op_bind. eapply wp_mono; [apply wp_GetProjectByID|done|]. intros [p|e] w' [-> Hp]; [|by apply wp_op_ret].
  apply wp_op_bind. eapply wp_mono; [apply wp_any|done|]. intros [[]|e] w' _; apply wp_op_ret; [|done].
  intros ns [= <-]. exists p. by auto.
Qed.
Lemma wp_Trigger_prepare req w : wp (X := X) any (Trigger_prepare POD_NAMESPACE saNamespaceFile b req)
  (λ r w', ∀ p, r = Ok p → prepared req w p w') w.
Proof.
  unfold Trigger_prepare. apply wp_op_try. eapply wp_mono; [eapply wp_frame; [apply wp_ProjectNS_Ensure|apply (kept_ProjectNS_Ensure w)|by split_and!]|done|].
  intros [ns|e] w1 [Hns Hw1]; [|done]. destruct (Hns ns) as (proj & Hp & ->); [done|]. clear Hns. apply wp_op_bind.
  eapply wp_mono; [eapply wp_frame; [apply wp_ApplyPipelineCRD|apply (kept_ApplyPipelineCRD w)|done]|done|].
  intros [[]|e] w2 [Hd (_ & Hproj & _)]; [|by apply wp_op_ret]. destruct Hd as (d & Hd & Hdoc); [done|]. apply wp_op_bind, wp_new_uuid. intros id. apply wp_op_bind.
  assert (∀ lk wh, (b_db b = true → lk = pj_LakekeeperProjectID proj) → prepared req w (MkPrepared (pj_K8sNamespace proj) id lk wh) w2) as Hend.
  { intros lk wh Hlk. by exists proj, d. }
  assert (∀ lk, (b_db b = true → lk = pj_LakekeeperProjectID proj) → wp (X := X) any
    match b_warehouseResolver b with
    | None => mret (Ok (MkPrepared (pj_K8sNamespace proj) id lk EmptyString))
    | Some resolve => wh ← call_err (λ w, (w, resolve w lk)); mret (match wh with Ok wh => Ok (MkPrepared (pj_K8sNamespace proj) id lk wh) | Err e => Err ("resolve warehouse: " +:+ e) end)
    end (λ r w', ∀ p, r = Ok p → prepared req w p w') w2) as Htail.
  { intros lk Hlk. destruct (b_warehouseResolver b) as [resolve|]; [|apply wp_op_ret; intros p [= <-]; by apply Hend].
    apply wp_op_bind. apply wp_op_bind. apply wp_call; try done; [|by intros; do 2 apply wp_op_ret..]. do 2 apply wp_op_ret. cbn.
    destruct (resolve w2 lk); intros p [= <-]. by apply Hend. }
  destruct (b_db b) eqn:Hb; [|by apply wp_op_ret, Htail].
  apply wp_op_bind. eapply wp_mono; [apply wp_GetProjectByID|done|]. intros [p|e] w3 [-> Hp3]; apply wp_op_ret; [|by apply wp_op_ret].
  apply Htail. intros _. specialize (Hp3 p eq_refl). rewrite Hproj, Hp in Hp3. by injection Hp3 as <-.
Qed.

(** *** The grant *)

Definition granted (req : TriggerRequest) (p : Prepared) (w : World) : Prop :=
  b_db b = true → b_authzr b = true → ∀ t, t ∈ run_tuples_of req p → t ∈ w_grants w ∧
    ∃ row, w_run_tuples w !! pp_id p = Some row ∧ decodeAuthzTuples (rt_tuples row) = Ok [t].
Lemma wp_WriteTuple_ok `{HE : !HonestErrors X} t w :
  wp (X := X) any (authz_WriteTuples [t]) (λ r w', w_run_tuples w' = w_run_tuples w ∧ (r = Ok () → t ∈ w_grants w')) w.
Proof.
  intros x. cbn [authz_WriteTuples]. unfold call_err, call, mbind, Op_bind, mret, Op_ret. cbn [fst snd].
  pose proof (honest x) as Hh. destruct (fault x) as [x' o]. cbn [snd] in Hh. unfold fga_write. case_bool_decide as Hall; cbn [fst snd] in *.
  - destruct o as [|m|m|a]; cbn; [split; [done|set_solver]|destruct (Hh m) as [_ ->]; [by left|done]|destruct (Hh m) as [_ ->]; [by right|done]|done].
  - assert (t ∈ w_grants w) as Ht by (apply dec_stable; intros Ht; apply Hall; by repeat constructor).
    destruct o as [|m|m|a]; cbn; [done|destruct (Hh m) as [_ ->]; [by left|done]|destruct (Hh m) as [_ ->]; [by right|done]|done].
Qed.
Lemma wp_Trigger_grant `{HE : !HonestErrors X} req p w : wp (X := X) any (Trigger_grant b req p) (λ r w', r = Ok () → granted req p w') w.
Proof.
  unfold Trigger_grant, granted. destruct (run_tuples_of req p) as [|t l] eqn:Ets; cbn [is_empty]; [apply wp_op_ret; set_solver|].
  destruct (buildRunTuples_cases (pp_id p) (pp_lakekeeper p) (tr_Doc req)) as [Hn|(rel & Hn & Hlk)]; unfold run_tuples_of in Ets; rewrite Hn in Ets; [done|].
  injection Ets as Et El. subst l. assert (decodeAuthzTuples (encodeAuthzTuples [t]) = Ok [t]) as Hdec by (rewrite <- Et; by apply encode_run_tuple).
  destruct (b_db b); [|eapply wp_mono; [apply wp_any|done|done]].
  apply wp_op_bind. unfold RecordRunTuples, db. do 2 apply wp_op_bind. apply wp_call; [|intros m; by do 3 apply wp_op_ret|intros m; by do 3 apply wp_op_ret|done|done]. do 2 apply wp_op_ret.
  unfold insert_tuples. destruct (w_run_tuples w !! pp_id p) as [row|] eqn:Hr; [by apply wp_op_ret|]. cbn [fst snd map_err].
  destruct (b_authzr b); [|by apply wp_op_ret]. apply wp_op_bind. eapply wp_mono; [apply wp_WriteTuple_ok|done|]. intros [[]|e] w' [Hrows Hin].
  - apply wp_op_ret. intros _ _ _ t' Ht'. apply list_elem_of_singleton in Ht' as ->. split; [by apply Hin|]. rewrite Hrows. cbn. rewrite lookup_insert_eq. by eexists.
  - apply wp_op_bind. eapply wp_mono; [apply wp_any|done|]. intros [] w'' _. by apply wp_op_ret.
Qed.

(** *** The row *)

Definition pending_row (req : TriggerRequest) (now : Z) : Run :=
  MkRun (tr_ProjectID req) (tr_PipelineID req) "Pending" EmptyString EmptyString None None None (tr_UserID req) now now 0.
Lemma wp_Trigger_insert req p w : wp (X := X) any (Trigger_insert req p) (λ r w', r = Ok () → w_runs w !! pp_id p = None ∧
  pl_ProjectID <$> w_pipelines w !! tr_PipelineID req = Some (tr_ProjectID req) ∧
  w' = set_runs (<[pp_id p := pending_row req (w_now w)]> (w_runs w)) w) w.
Proof.
  unfold Trigger_insert, CreateRun, db. do 3 apply wp_op_bind. apply wp_call; [|intros m; by do 3 apply wp_op_ret|intros m; by do 3 apply wp_op_ret|done|done].
  do 3 apply wp_op_ret. unfold insert_run. cbn [cr_ID cr_ProjectID cr_PipelineID cr_TriggeredBy]. destruct (w_runs w !! pp_id p); [done|]. by case_bool_decide.
Qed.

(** *** The objects *)

(** What the creation of the objects does not touch. *)
Definition untouched_by_create (w w' : World) : Prop :=
  w_now w' = w_now w ∧ w_projects w' = w_projects w ∧ w_runs w' = w_runs w ∧ w_run_tuples w' = w_run_tuples w ∧
  w_grants w' = w_grants w ∧ w_documents w' = w_documents w.
Lemma kept_CreateRunResources w0 o : keeps (X := X) (untouched_by_create w0) (CreateRunResources IsDNS1123Subdomain o).
Proof. unfold CreateRunResources, get_object, create_object, update_object. repeat kept_step. Qed.
Definition created (o : CreateResourcesOpts) (w' : World) : Prop :=
  (∃ sec, w_secrets w' !! (rc_Namespace o, run_secret_name (rc_RunID o)) = Some sec ∧ so_Token sec = rc_Token o ∧ so_Labels sec !! run_id_label = Some (rc_RunID o)) ∧
  (∃ pr, w_run_objects w' !! (rc_Namespace o, PipelineRunName IsDNS1123Subdomain (rc_PipelineName o) (rc_RunID o)) = Some pr ∧
    ro_Labels pr !! run_id_label = Some (rc_RunID o) ∧ ro_PipelineRef pr = rc_PipelineName o ∧ ro_RunID pr = rc_RunID o ∧
    ro_RunTokenRef pr = run_secret_name (rc_RunID o) ∧ ro_Phase pr = EmptyString).
Lemma wp_CreateRunResources o w : wp (X := X) any (CreateRunResources IsDNS1123Subdomain o) (λ r w', r = Ok () → created o w') w.
Proof.
  unfold CreateRunResources. destruct (_ || _); [by apply wp_op_ret|]. apply wp_op_bind, wp_local. cbv zeta.
  set (sk := (rc_Namespace o, run_secret_name _)). set (pk := (rc_Namespace o, PipelineRunName _ _ _)).
  apply wp_op_bind. apply wp_k8s; [|intros; by apply wp_op_ret|intros; by apply wp_op_ret]. destruct (w_secrets w !! sk) eqn:Es; [by apply wp_op_ret|]. cbn [fst snd].
  apply wp_op_bind, wp_new_uuid. intros uid. apply wp_op_bind, wp_new_uuid. intros rv. apply wp_op_bind. apply wp_k8s; [|intros; by apply wp_op_ret|intros; by apply wp_op_ret].
  cbn [w_run_objects set_secrets]. destruct (w_run_objects w !! pk) eqn:Ep; [by apply wp_op_ret|]. cbn [fst snd].
  apply wp_op_bind. apply wp_k8s; [|intros; by apply wp_op_ret|intros; by apply wp_op_ret]. cbn [fst snd w_run_objects set_run_objects]. rewrite lookup_insert_eq.
  set (pr := new_run_object _ _ _ _ _). apply wp_op_bind.
  assert (∀ w' sec, w_secrets w' !! sk = Some sec → so_Token sec = rc_Token o → so_Labels sec !! run_id_label = Some (rc_RunID o) →
    w_run_objects w' !! pk = Some pr → created o w') as Hend.
  { intros w' sec Hs Ht Hl Hp. split; [by exists sec|exists pr; split_and!; [done| |done..]]. by vm_compute. }
  apply wp_k8s.
  - cbn [w_secrets set_run_objects set_secrets]. rewrite lookup_insert_eq. cbn [fst snd]. apply wp_op_ret. intros _. eapply Hend; cbn; by rewrite ?lookup_insert_eq.
  - intros m. apply wp_op_ret. intros _. eapply Hend; cbn; by rewrite ?lookup_insert_eq.
  - intros m. cbn [w_secrets set_run_objects set_secrets]. rewrite lookup_insert_eq. cbn [fst snd]. apply wp_op_ret. intros _. eapply Hend; cbn; by rewrite ?lookup_insert_eq.
Qed.

(** *** The whole trigger *)

(** What does not change once the row is in, when the trigger succeeds. *)
Definition settled (w w' : World) : Prop :=
  w_runs w' = w_runs w ∧ w_documents w' = w_documents w ∧ w_grants w' = w_grants w ∧
  ∀ id row, w_run_tuples w !! id = Some row → ∃ row', w_run_tuples w' !! id = Some row' ∧ rt_tuples row' = rt_tuples row.
Lemma settled_commit w w1 id : untouched_by_create w w1 → settled w w1 ∧ settled w (commit_tuples id w1).
Proof.
  intros (_ & _ & H1 & H2 & H3 & H4). split; (split_and!; [done..|]); intros id' row Hrow; cbn.
  - rewrite H2. by exists row.
  - rewrite H2. destruct (decide (id' = id)) as [->|Hne]; [rewrite lookup_alter_eq, Hrow; cbn; by eexists|rewrite lookup_alter_ne by done; by exists row].
Qed.
Definition opts_of (req : TriggerRequest) (p : Prepared) (tok : string) : CreateResourcesOpts := MkCreateResourcesOpts (pp_ns p) (tr_PipelineName req) (pp_id p) tok.
Lemma wp_Trigger_start req p w : wp (X := X) any (Trigger_start IsDNS1123Subdomain b ctx req p) (λ r w', ∀ id ns, r = Ok (id, ns) →
  id = pp_id p ∧ ns = pp_ns p ∧ settled w w' ∧ ∃ tok, MintRunToken (w_now w) ctx (b_signer b) (spec_of b req p) = Ok tok ∧ created (opts_of req p tok) w') w.
Proof.
  unfold Trigger_start, failed_run. apply wp_op_bind, wp_local. destruct (MintRunToken _ _ _ _) as [tok|e] eqn:Em; [|apply wp_op_bind; eapply wp_mono; [apply wp_any|done|]; intros [] w' _; by apply wp_op_ret].
  apply wp_op_bind. eapply wp_mono; [eapply wp_frame; [apply wp_CreateRunResources|apply (kept_CreateRunResources w)|by split_and!]|done|].
  intros [[]|e] w1 [Hc Hw1]; [|apply wp_op_bind; eapply wp_mono; [apply wp_any|done|]; intros [] w' _; by apply wp_op_ret].
  specialize (Hc eq_refl). destruct (settled_commit w w1 (pp_id p) Hw1) as [Hs Hs']. apply wp_op_bind.
  assert (∀ w', settled w w' → created (opts_of req p tok) w' → ∀ id ns, (Ok (pp_id p, pp_ns p) : result string _) = Ok (id, ns) → id = pp_id p ∧ ns = pp_ns p ∧ settled w w' ∧
    ∃ tok', (Ok tok : result string string) = Ok tok' ∧ created (opts_of req p tok') w') as Hend.
  { intros w' Hset Hcr id ns [= <- <-]. split_and!; try done. by exists tok. }
  destruct (_ && _); [|apply wp_op_ret, wp_op_ret; by apply Hend].
  apply wp_ignore. unfold MarkRunTuplesCommitted, db. apply wp_op_bind. apply wp_call; try done; intros; apply wp_op_ret, wp_op_ret; by apply Hend.
Qed.
(** A run that was started. *)
Definition started (req : TriggerRequest) (w : World) (id ns : string) (w' : World) : Prop :=
  ∃ proj d lk wh tok,
    w_projects w !! tr_ProjectID req = Some proj ∧ ns = pj_K8sNamespace proj ∧ (b_db b = true → lk = pj_LakekeeperProjectID proj) ∧
    tr_Doc req = Some d ∧ w_documents w' !! (ns, d_Name d) = Some d ∧
    w_runs w !! id = None ∧ w_runs w' !! id = Some (pending_row req (w_now w)) ∧
    MintRunToken (w_now w) ctx (b_signer b) (MkRunSpec id lk (tr_PipelineName req) wh (b_audience b) RunTokenLifetime) = Ok tok ∧
    created (MkCreateResourcesOpts ns (tr_PipelineName req) id tok) w' ∧
    (b_db b = true → b_authzr b = true → ∀ t, t ∈ buildRunTuples id lk (Some d) → t ∈ w_grants w' ∧
      ∃ row, w_run_tuples w' !! id = Some row ∧ decodeAuthzTuples (rt_tuples row) = Ok [t]).
Lemma kept_Trigger_grant (w0 : World) req p : keeps (X := X) (λ w, w_now w = w_now w0 ∧ w_runs w = w_runs w0 ∧ w_documents w = w_documents w0) (Trigger_grant b req p).
Proof.
  unfold Trigger_grant, RecordRunTuples, DeleteRunTuples, insert_tuples, authz_WriteTuples, fga_write, db. repeat kept_step.
Qed.
(** C15: A trigger that succeeds has started the run.  Whatever failed on the way,
    if TriggerRun answers with a run and a namespace, the namespace is the one of
    the project and holds the document of the pipeline; the run is new and its
    row is Pending, for this project, pipeline and user; the secret of the run
    holds a token minted for this run and this pipeline, in the catalog project of
    this project; the PipelineRun that names that secret is there under the name
    the observer expects; and, when the pipeline reads or writes, the grant is in
    OpenFGA and recorded. *)
Theorem trigger_starts `{HE : !HonestErrors X} (req : TriggerRequest) (w : World) :
  wp (X := X) any (TriggerRun IsDNS1123Subdomain POD_NAMESPACE saNamespaceFile b ctx req)
    (λ r w', ∀ id ns, r = Ok (id, ns) → started req w id ns w') w.
Proof.
  unfold TriggerRun. apply wp_op_try. eapply wp_mono; [eapply wp_frame; [apply wp_Trigger_prepare|apply (kept_Trigger_prepare w)|by split_and!]|done|].
  intros [p|e] w1 [Hp (Hnow & _ & _ & Hruns & _)]; [|done]. destruct (Hp p eq_refl) as (proj & d & Hproj & Hns & Hlk & Hd & Hdoc).
  apply wp_op_try. eapply wp_mono; [eapply wp_frame; [apply wp_Trigger_grant|apply (kept_Trigger_grant w1)|done]|done|].
  intros [[]|e] w2 [Hg (Hnow2 & Hruns2 & Hdocs2)]; [|done]. specialize (Hg eq_refl).
  apply wp_op_try. eapply wp_mono; [apply wp_Trigger_insert|done|]. intros [[]|e] w3 Hi; [|done]. destruct (Hi eq_refl) as (Hnone & _ & ->).
  eapply wp_mono; [apply wp_Trigger_start|done|]. intros r w4 Hs id ns ->. destruct (Hs id ns eq_refl) as (-> & -> & (Hr4 & Hd4 & Hg4 & Hrt4) & tok & Htok & Hc).
  exists proj, d, (pp_lakekeeper p), (pp_warehouse p), tok. cbn in *. split_and!; try done; [congruence|congruence|..].
  - rewrite Hr4, lookup_insert_eq. congruence.
  - unfold spec_of in Htok. congruence.
  - intros Hdb Haz t Ht. destruct (Hg Hdb Haz t) as [Hin (row & Hrow & Hdec)]; [unfold run_tuples_of; by rewrite Hd|]. split; [by rewrite Hg4|].
    destruct (Hrt4 _ _ Hrow) as (row' & Hrow' & Heq). exists row'. by rewrite Heq.
Qed.
End Trigger.

(** ** Cancelling *)

Section Cancel.
Context `{UT : !UnicodeTables} `{PL : !PoolLib} `{J : !Jwt} {X : Type} `{F : !Faults X}.
Variables (IsDNS1123Subdomain : string → list string) (b : K8sBackend).
Abbreviation any := (λ _ : World, True).

(** What the first half of a cancel does not touch. *)
Definition runs_intact (w w' : World) : Prop :=
  w_now w' = w_now w ∧ w_projects w' = w_projects w ∧ w_pipelines w' = w_pipelines w ∧ w_runs w' = w_runs w ∧ w_run_objects w' = w_run_objects w.
Lemma kept_cleanupRunTuples w0 id : keeps (X := X) (runs_intact w0) (cleanupRunTuples b id).
Proof. unfold cleanupRunTuples, GetRunTuples, DeleteRunTuples, authz_DeleteTuples, fga_delete, db. repeat kept_step. Qed.
Lemma kept_annotate w0 ns id : keeps (X := X) (runs_intact w0) (annotateRunPodsCancelled ns id).
Proof. unfold annotateRunPodsCancelled, patch_pod, list_objects. repeat first [kept_step | apply keeps_for_each; intros ? ?]. Qed.
Lemma wp_GetPipelineNameByID id w : wp (X := X) any (GetPipelineNameByID id) (λ r w', w' = w ∧ ∀ n, r = Ok n → pl_Name <$> w_pipelines w !! id = Some n) w.
Proof.
  unfold GetPipelineNameByID, db. apply wp_op_try, wp_op_bind. apply wp_read; [done| |intros; by apply wp_op_ret]. do 2 apply wp_op_ret. split; [done|]. intros n.
  destruct (w_pipelines w !! id); cbn; [by intros [= <-]|done].
Qed.
Lemma wp_GetRunByID id w : wp (X := X) any (GetRunByID id) (λ r w', w' = w ∧ ∀ run, r = Ok run → w_runs w !! id = Some run) w.
Proof.
  unfold GetRunByID, db. apply wp_op_try, wp_op_bind. apply wp_read; [done| |intros; by apply wp_op_ret]. do 2 apply wp_op_ret. split; [done|]. intros n.
  by destruct (w_runs w !! id); intros [= ->].
Qed.
(** The object is gone, or it had ended and is left alone. *)
Lemma wp_stop_object k id w : wp (X := X) any (stop_object k id) (λ r w',
  w_now w' = w_now w ∧ w_runs w' = w_runs w ∧
  match r with
  | Ok true => w_run_objects w' = delete k (w_run_objects w)
  | Ok false => w_run_objects w' = w_run_objects w ∧ ∃ o, w_run_objects w !! k = Some o ∧ terminal (ro_Phase o) = true
  | Err _ => True
  end) w.
Proof.
  unfold stop_object. apply wp_op_bind. apply wp_k8s; [|intros; by apply wp_op_ret|intros; by apply wp_op_ret].
  destruct (w_run_objects w !! k) as [pr|] eqn:Hk; cbn [fst snd]; [|apply wp_op_ret; split_and!; [done|done|by rewrite delete_id]].
  destruct (terminal (ro_Phase pr)) eqn:Ht; [apply wp_op_ret; split_and!; [done..|by exists pr]|].
  apply wp_op_bind. eapply wp_mono; [eapply (wp_frame _ (runs_intact w)); [apply wp_any|apply kept_annotate|by split_and!]|done|].
  intros [] w1 [_ (Hn & _ & _ & Hr & Ho)]. apply wp_op_bind. apply wp_k8s; [|intros; by apply wp_op_ret|intros; apply wp_op_ret].
  - rewrite Ho, Hk. cbn [fst snd]. by apply wp_op_ret.
  - by destruct (w_run_objects w1 !! k).
Qed.
Definition cancelled (req : CancelRequest) (w w' : World) : Prop :=
  ∃ run proj name, w_runs w !! cn_RunID req = Some run ∧ run_ProjectID run = cn_ProjectID req ∧ w_projects w !! cn_ProjectID req = Some proj ∧
    pl_Name <$> w_pipelines w !! run_PipelineID run = Some name ∧
    let k := (pj_K8sNamespace proj, PipelineRunName IsDNS1123Subdomain name (cn_RunID req)) in
    (w_run_objects w' = w_run_objects w ∧ w_runs w' = w_runs w ∧ ∃ o, w_run_objects w !! k = Some o ∧ terminal (ro_Phase o) = true) ∨
    (w_run_objects w' = delete k (w_run_objects w) ∧
     if terminal (run_Phase run) then w_runs w' = w_runs w
     else ∃ r, w_runs w' = <[cn_RunID req := r]> (w_runs w) ∧ run_Phase r = "Cancelled" ∧ run_CompletedAt r = Some (w_now w)).
(** C16: A cancel that succeeds has stopped the run, and a cancel never touches the
    run of another project.  Whatever failed on the way, if CancelRun answers
    without an error, the run was one of this project, and either its PipelineRun
    had ended by itself and it and the row are as they were, or it is gone, and
    the row, unless its run had ended, is Cancelled with the time of the cancel;
    no other object and no other row changed.  For a run of another project
    nothing at all changes. *)
Theorem cancel_stops (req : CancelRequest) (w : World) :
  wp (X := X) any (CancelRun IsDNS1123Subdomain b req) (λ r w',
    (r = Ok () → cancelled req w w') ∧
    (run_ProjectID <$> w_runs w !! cn_RunID req ≠ Some (cn_ProjectID req) → w' = w ∧ r ≠ Ok ())) w.
Proof.
  unfold CancelRun. apply wp_op_try. eapply wp_mono; [apply wp_GetRunByID|done|]. intros [run|e] w1 [-> Hrun]; [|by split]. specialize (Hrun run eq_refl). rewrite Hrun. cbn [fmap option_fmap option_map].
  case_bool_decide as Hproj; cbn [negb]; [|by apply wp_op_ret].
  match goal with |- wp _ ?m ?Q _ => eapply (wp_mono _ _ m (λ r w', r = Ok () → cancelled req w w')); [|done|intros r w' Hr; split; [exact Hr|congruence]] end.
  apply wp_op_bind. eapply wp_mono; [eapply (wp_frame _ (runs_intact w)); [apply wp_any|apply kept_cleanupRunTuples|by split_and!]|done|].
  intros [] w2 [_ (Hn & Hps & Hpl & Hr & Ho)]. apply wp_op_try. apply wp_op_bind. eapply wp_mono; [apply wp_GetProjectByID|done|]. intros [proj|e] w3 [-> Hp]; apply wp_op_ret; [|done].
  specialize (Hp proj eq_refl). cbn [wrap_db map_err]. apply wp_op_try. apply wp_op_bind. eapply wp_mono; [apply wp_GetPipelineNameByID|done|]. intros [name|e] w3 [-> Hname]; apply wp_op_ret; [|done].
  specialize (Hname name eq_refl). cbn [wrap_db map_err]. apply wp_op_try. eapply wp_mono; [apply wp_stop_object|done|]. intros [gone|e] w3 (Hn3 & Hr3 & Hg); [|done].
  assert (∀ w', (w_run_objects w' = w_run_objects w ∧ w_runs w' = w_runs w ∧ gone = false) ∨ (w_run_objects w' = w_run_objects w3 ∧ gone = true ∧
      if terminal (run_Phase run) then w_runs w' = w_runs w
      else ∃ r, w_runs w' = <[cn_RunID req := r]> (w_runs w) ∧ run_Phase r = "Cancelled" ∧ run_CompletedAt r = Some (w_now w)) → cancelled req w w') as Hend.
  { intros w' Hw'. exists run, proj, name. rewrite <- Hps, <- Hpl. split_and!; [done..|]. destruct Hw' as [(H1 & H2 & ->)|(H1 & -> & H2)].
    - left. rewrite <- Ho. split_and!; [congruence|congruence|apply Hg].
    - right. split; [|done]. rewrite H1, <- Ho. apply Hg. }
  destruct gone; cbn [negb orb].
  - destruct (terminal (run_Phase run)) eqn:Ht; [apply wp_op_ret; intros _; apply Hend; right; rewrite Hr3, Hr; auto|].
    apply wp_op_bind, wp_local. apply wp_op_bind. unfold UpdateRunPhase, db. apply wp_op_try, wp_op_bind. apply wp_call; [|intros; by do 2 apply wp_op_ret|intros; by do 2 apply wp_op_ret|done|done].
    apply wp_op_ret. unfold update_run. rewrite Hr3, Hr, Hrun. cbn [fst snd map_err run_guard cancelled_opts phase_opts ur_ObservedRV ur_GuardTerminal Z.eqb orb andb negb]. do 2 apply wp_op_ret. intros _.
    apply Hend. right. split_and!; [done|done|]. eexists. cbn. split_and!; [done|done|]. by rewrite Hn3, Hn.
  - apply wp_op_ret. intros _. apply Hend. left. destruct Hg as [Hg _]. split_and!; congruence.
Qed.
End Cancel.
