(* ===== verification/BackendExamples.v ===== *)
(** * BackendExamples: runs triggered, cancelled and swept
      (pkg/pipelineapi/runbackend/k8s.go, pkg/pipelineapi/k8s/reap_run_tuples.go)

    Concrete histories: the theorems of RunGrants, RunSweep and RunStart applied
    to them, and the histories that the comments of the code leave out. *)

From S2P Require Import Prelude ApiTypes Status GoTime Policy PreviewStore Authz PipelineDoc CommitPool Tokens Calls RunWorld RunMirror RunBackend RunReaper RunGrants RunSweep RunStart.
Import Scripted.
#[local] Existing Instances TokenExamples.ascii_tables TokenExamples.lib TokenExamples.uuids TokenExamples.jwt.

(** Calls that fail before their effect, fail after it, or end the process. *)
Inductive weather : Type := Fine | Refused | Vague | Killed (applied : bool).
#[export] Instance calm : Faults (list weather * list string) := {|
  fault x := match x.1 with
             | Fine :: l => ((l, x.2), Done)
             | Refused :: l => ((l, x.2), Failed "unavailable")
             | Vague :: l => ((l, x.2), Lost "timeout")
             | Killed a :: l => ((l, x.2), Crashed a)
             | [] => (x, Done)
             end;
  uuid_New x := match x.2 with id :: l => ((x.1, l), id) | [] => (x, EmptyString) end;
  list_order A l x := (x, l);
  list_order_perm A l x := Permutation_refl l;
|}.
#[export] Instance calm_honest : HonestErrors (list weather * list string).
Proof. intros [[|[| | |a] l] ids] m; cbn; intros [[=]|[=]]; subst m; by vm_compute. Qed.

Definition valid : string → list string := λ _, [].
Definition doc : DocPipeline :=
  MkDocPipeline "daily" EmptyString (MkDocGateway 0 0 0 0)
    [MkDocStage "load" [MkDocComponent "a" "csv" EmptyString EmptyString [] None (Some (MkDocOutputs "raw" EmptyString [] [] [])) None]].
Definition b : K8sBackend := NewK8sBackend true true EmptyString (Some TokenExamples.sg) None.
Definition req : TriggerRequest := MkTriggerRequest "p" (Some "u1") "daily" "pl" (Some doc).
Definition w0 : World := MkWorld (100 * second) {["p" := MkProject "shop" "datuplet-p" "lk"]} {["pl" := MkPipelineRow "p" "daily"]} ∅ ∅ [] ∅ ∅ ∅ ∅ ∅ ∅ ∅.
Definition trigger {X} `{!Faults X} : Op World X (result string (string * string)) := TriggerRun valid EmptyString None b (Some "u1") req.
Definition grant (id : string) : Tuple := MkTuple (Object_String (UserObject id)) RelationEditor (ProjectObject "lk").
Example triggered : match trigger (w0, ([], ["r1"; "uid"; "rv"]) : list weather * list string) with
  | ((w, _), r) => r = Some (Ok ("r1", "datuplet-p")) ∧ run_Phase <$> w_runs w !! "r1" = Some "Pending" ∧ elements (w_grants w) = [grant "r1"] ∧
                   rt_committed <$> w_run_tuples w !! "r1" = Some true
  end.
Proof. by vm_compute. Qed.

(** ** Grants and their records *)

(** The grant of one trigger is written although the answer is an error, another
    trigger is cut short after the grant, a third fails to create its secret, a
    fourth succeeds and is cancelled; then a sweep. *)
Definition refused_at (n : nat) : list weather := replicate n Fine ++ [Refused].
Definition story : list lifecycle :=
  [Trigger (Some "u1") req; Trigger (Some "u1") req; Trigger (Some "u1") req; Trigger (Some "u1") req; Cancel (MkCancelRequest "p" "r3"); Sweep (3600 * second) true true].
Definition accidents : list weather * list string :=
  ((replicate 21 Fine ++ [Vague; Fine]) ++ (replicate 13 Fine ++ [Killed true]) ++ refused_at 15, ["r0"; "r1"; "r2"; "r3"; "uid"; "rv"]).
Lemma grants_accounted_witness :
  accounted (λ t, t ∈ w_grants w0 ∨ lost_in valid EmptyString None b story (w0, accidents) t) (history valid EmptyString None b story (w0, accidents)).1.
Proof. apply (grants_accounted valid EmptyString None b story w0 accidents); reflexivity. Defined.
Example story_ends :
  let w := (history valid EmptyString None b story (w0, accidents)).1 in
  elements (w_grants w) = [grant "r1"; grant "r0"] ∧ map_to_list (rt_tuples <$> w_run_tuples w) = [("r1", encodeAuthzTuples [grant "r1"])] ∧
  map_to_list (run_Phase <$> w_runs w) = [("r3", "Cancelled"); ("r2", "FailedApplication")].
Proof. by vm_compute. Qed.
(** A write of the grant that took effect but whose answer was lost: the record
    is deleted, the grant stays, and nothing knows of it. *)
Example lost_write_leaks :
  let calls : script := (replicate 21 Done ++ [Lost "timeout"], ["r1"]) in
  match trigger (w0, calls) with
  | ((w, _), r) => r = Some (Err "write FGA tuples: timeout") ∧ elements (w_grants w) = [grant "r1"] ∧ fst <$> map_to_list (w_run_tuples w) = []
  end.
Proof. by vm_compute. Qed.
(** A process that ends between the row and the objects: the run stays Pending,
    without an object, and no sweep ever takes its grant. *)
Example stranded :
  match trigger (w0, (replicate 23 Fine ++ [Killed false], ["r1"])) with
  | ((w, _), r) => r = None ∧ run_Phase <$> w_runs w !! "r1" = Some "Pending" ∧ fst <$> map_to_list (w_run_objects w) = [] ∧
                   elements (w_grants w) = [grant "r1"] ∧ fst <$> map_to_list (w_run_tuples w) = ["r1"] ∧
                   ∀ cutoff row, due cutoff w "r1" row = false
  end.
Proof. vm_compute. by split_and!. Qed.
(** The object is there and the operator will run it, but it could not be read
    back: the run is marked as failed. *)
Example started_but_failed :
  match trigger (w0, (replicate 25 Fine ++ [Refused], ["r1"; "uid"; "rv"])) with
  | ((w, _), r) => is_Some r ∧ run_Phase <$> w_runs w !! "r1" = Some "FailedApplication" ∧ fst <$> map_to_list (w_run_objects w) = [("datuplet-p", "daily-r1")] ∧
                   ∀ cutoff row, due cutoff w "r1" row = true
  end.
Proof. vm_compute. split_and!; [by eexists|done..]. Qed.
(** A cancel between the row and the objects: the run starts all the same, and
    without its grant. *)
Definition prepared_run : Prepared := MkPrepared "datuplet-p" "r1" "lk" EmptyString.
Example cancelled_then_started :
  let op : Op World (list weather * list string) (result string (string * string)) :=
    _ ← Trigger_grant b req prepared_run; _ ← Trigger_insert req prepared_run; _ ← CancelRun valid b (MkCancelRequest "p" "r1");
    Trigger_start valid b (Some "u1") req prepared_run in
  match op (w0, ([], ["uid"; "rv"])) with
  | ((w, _), r) => r = Some (Ok ("r1", "datuplet-p")) ∧ run_Phase <$> w_runs w !! "r1" = Some "Cancelled" ∧
                   fst <$> map_to_list (w_run_objects w) = [("datuplet-p", "daily-r1")] ∧ elements (w_grants w) = []
  end.
Proof. by vm_compute. Qed.

(** ** A sweep, and a trigger *)

Definition row (id : string) (at_ : Z) : RunTuplesRow := MkRunTuplesRow (encodeAuthzTuples [grant id]) true at_.
Definition run_in (phase : string) : Run := MkRun "p" "pl" phase EmptyString EmptyString None None None None 0 0 0.
(** A run that has ended, one that goes on, and rows of no run: an old one, an old
    one whose object is there, a young one. *)
Definition w1 : World :=
  MkWorld (3600 * second) ∅ ∅ {["ended" := run_in "Succeeded"; "going" := run_in "Running"]}
    {["ended" := row "ended" 0; "going" := row "going" 0; "old" := row "old" 0; "live" := row "live" 0; "young" := row "young" (3000 * second)]}
    [] (list_to_set (grant <$> ["ended"; "going"; "old"; "live"; "young"])) ∅ ∅ ∅
    {[("datuplet-p", "daily-live") := new_run_object "daily" "live" "uid" "rv" 0]} ∅ ∅.
Lemma w1_row id r : w_run_tuples w1 !! id = Some r → (∃ at_, r = row id at_) ∧ (grant id = grant "live" → id = "live").
Proof.
  cbn [w_run_tuples w1]. intros Hr. do 4 (apply lookup_insert_Some in Hr as [[<- <-]|[_ Hr]]; [split; [by eexists|done]|]). apply lookup_singleton_Some in Hr as [<- <-].
  split; [by eexists|done].
Qed.
Lemma row_decodes id at_ : decodeAuthzTuples (rt_tuples (row id at_)) = Ok [grant id].
Proof. by apply encode_run_tuple. Qed.
Lemma w1_rows : one_tuple_rows w1.
Proof. intros id r [[at_ ->] _]%w1_row. eexists. apply row_decodes. Qed.
Lemma sweep_exact_witness : ∃ w' x', ReapRunTuples true true (w1, ()) = ((w', x'), Some (Ok ())) ∧
  w_run_tuples w' !! "going" = Some (row "going" 0) ∧ w_run_tuples w' !! "old" = None ∧ grant "live" ∈ w_grants w' ∧ grant "ended" ∉ w_grants w'.
Proof.
  destruct (sweep_exact w1 () w1_rows) as (w' & x' & E & Hrows & Hgrants & _). exists w', x'. split_and!; [done|..].
  - apply Hrows. split; by vm_compute.
  - destruct (w_run_tuples w' !! "old") as [r|] eqn:Er; [|done]. apply Hrows in Er as [Hr Hdue].
    assert (w_run_tuples w1 !! "old" = Some (row "old" 0)) as Hold by by vm_compute. rewrite Hr in Hold. injection Hold as ->. by vm_compute in Hdue.
  - apply Hgrants. split; [apply (bool_decide_unpack _); by vm_compute|]. intros id r Hr Hdue Hdec.
    destruct (w1_row id r Hr) as [[at_ ->] Hid]. rewrite row_decodes in Hdec. assert (grant id = grant "live") as ->%Hid by congruence. unfold due in Hdue.
    by rewrite (eq_refl : has_object w1 "live" = true), (eq_refl : w_runs w1 !! "live" = None), andb_false_r in Hdue.
  - intros Ht. apply Hgrants in Ht as [_ Ht]. apply (Ht "ended" (row "ended" 0)); by vm_compute.
Defined.
Lemma trigger_starts_witness :
  match trigger (w0, (replicate 27 Fine ++ [Refused], ["r1"; "uid"; "rv"])) with
  | ((w, _), r) => r = Some (Ok ("r1", "datuplet-p")) ∧ started valid b (Some "u1") req w0 "r1" "datuplet-p" w
  end.
Proof.
  pose proof (trigger_starts valid EmptyString None b (Some "u1") req w0 (replicate 27 Fine ++ [Refused], ["r1"; "uid"; "rv"])) as H.
  unfold trigger. destruct (TriggerRun valid EmptyString None b (Some "u1") req (w0, _)) as [[w x] r] eqn:E.
  assert (r = Some (Ok ("r1", "datuplet-p"))) as ->; [|split; [done|by apply H]].
  apply (f_equal snd) in E. cbn [snd] in E. rewrite <- E. by vm_compute.
Defined.
(** The grant is already gone: the row that recorded it stays. *)
Example missing_grant_keeps_row :
  match CompleteRun b "r1" (set_run_tuples {["r1" := row "r1" 0]} w0, ([], []) : list weather * list string) with
  | ((w, _), r) => r = Some () ∧ fst <$> map_to_list (w_run_tuples w) = ["r1"]
  end.
Proof. by vm_compute. Qed.
