(* ===== verification/AppStore.v ===== *)
(** * AppStore: the tables of user apps (pkg/pipelineapi/apps/store.go)

    Apps, their immutable versions, the two channels that point at versions, the
    viewer tokens and the render logs, and the statements the store runs on them.
    A transaction is one step, except that Promote reads its target in a statement
    of its own. *)

From S2P Require Import Prelude CommitPool Authz Tokens Password Calls.

(** ** The database and the libraries *)

(** The order in which a query visits the rows of a table. *)
Class DBOrder : Type := {
  scan : ∀ {A : Type}, gmap string A → list (string * A);
  scan_perm : ∀ A (m : gmap string A), scan m ≡ₚ map_to_list m;
  (** The order of text in the database. *)
  collate : string → string → bool;
}.
(** compress/gzip. *)
Class Gzip : Type := { gz : string → string; gunzip : string → result string string }.
Class GzipLaws `{GZ : !Gzip} : Prop := gunzip_gz : ∀ b, gunzip (gz b) = Ok b.

Definition MaxBundleBytes : Z := 5 * 1024 * 1024.
Definition MaxProjectBytes : Z := 200 * 1024 * 1024.
Definition MaxUnreferencedVersions : nat := 20.
Definition MaxRenderLogsPerApp : nat := 200.

Inductive aerr : Type :=
| ErrNotFound (what : string)
| ErrAlreadyExists
| ErrBundleTooLarge
| ErrProjectQuota
| ErrCASMismatch
| AppError (msg : string).

(** ** Rows *)

Record AppRow := MkAppRow { a_ProjectID : string; a_Name : string; a_FGARegistered : bool; a_CreatedAt : Z }.
Record VersionRow := MkVersionRow { v_AppID : string; v_Hash : string; v_bundle : string; v_SizeBytes : Z; v_CreatedAt : Z }.
Record ChannelRow := MkChannelRow { ch_version : string; ch_UpdatedAt : Z }.
(** The salt, and the digest of salt and secret. *)
Record TokenRow := MkTokenRow { tk_AppID : string; tk_salt : string; tk_hash : string; tk_CreatedAt : Z; tk_RevokedAt : option Z }.
Record RenderLogRecord := MkRenderLogRecord {
  rl_AppID : string;
  rl_VersionHash : string;
  rl_Channel : string;
  rl_PrincipalKind : string;
  rl_PrincipalID : string;
  rl_StartedAt : Z;
  rl_DurationMS : Z;
  rl_Outcome : string;
  rl_LogText : string;
  rl_Error : string;
}.
Record AppsWorld := MkAppsWorld {
  ap_now : Z;
  ap_projects : gmap string string;  (** the lakekeeper project, empty before it is provisioned *)
  ap_apps : gmap string AppRow;
  ap_versions : gmap string VersionRow;
  ap_channels : gmap (string * string) ChannelRow;  (** by app and channel *)
  ap_tokens : gmap string TokenRow;
  ap_logs : gmap string RenderLogRecord;
  ap_grants : gset Tuple;
}.
Definition set_apps (m : gmap string AppRow) (w : AppsWorld) : AppsWorld :=
  MkAppsWorld (ap_now w) (ap_projects w) m (ap_versions w) (ap_channels w) (ap_tokens w) (ap_logs w) (ap_grants w).
Definition set_versions (m : gmap string VersionRow) (w : AppsWorld) : AppsWorld :=
  MkAppsWorld (ap_now w) (ap_projects w) (ap_apps w) m (ap_channels w) (ap_tokens w) (ap_logs w) (ap_grants w).
Definition set_channels (m : gmap (string * string) ChannelRow) (w : AppsWorld) : AppsWorld :=
  MkAppsWorld (ap_now w) (ap_projects w) (ap_apps w) (ap_versions w) m (ap_tokens w) (ap_logs w) (ap_grants w).
Definition set_tokens (m : gmap string TokenRow) (w : AppsWorld) : AppsWorld :=
  MkAppsWorld (ap_now w) (ap_projects w) (ap_apps w) (ap_versions w) (ap_channels w) m (ap_logs w) (ap_grants w).
Definition set_logs (m : gmap string RenderLogRecord) (w : AppsWorld) : AppsWorld :=
  MkAppsWorld (ap_now w) (ap_projects w) (ap_apps w) (ap_versions w) (ap_channels w) (ap_tokens w) m (ap_grants w).
Definition set_app_grants (g : gset Tuple) (w : AppsWorld) : AppsWorld :=
  MkAppsWorld (ap_now w) (ap_projects w) (ap_apps w) (ap_versions w) (ap_channels w) (ap_tokens w) (ap_logs w) g.
(** Comparison of CHAR(64): trailing blanks do not count. *)
Fixpoint unpad (s : string) : string :=
  match s with
  | EmptyString => EmptyString
  | String c s => let r := unpad s in if str_empty r && Ascii.eqb c " "%char then EmptyString else String c r
  end.

(** The order of [ORDER BY ... DESC]. *)
Definition not_older {A} (at_ : A → Z) (a b : string * A) : Prop := (at_ b.2 ≤ at_ a.2)%Z.
#[export] Instance not_older_dec {A} (at_ : A → Z) : RelDecision (not_older at_).
Proof. intros a b. unfold not_older. apply _. Defined.

Section Store.
Context `{PL : !PoolLib} `{DO : !DBOrder} `{GZ : !Gzip} `{UL : !UuidLib} {X : Type} `{F : !Faults X}.

Record App := MkApp { app_ID : string; app_Row : AppRow }.
Record Version := MkVersion { ver_ID : string; ver_Row : VersionRow }.
Definition app_error {A} (what : string) (m : Op AppsWorld X (result string (result aerr A))) : Op AppsWorld X (result aerr A) :=
  r ← m; mret (match r with Ok r => r | Err e => Err (AppError (what +:+ e)) end).
Definition with_uuid {A} (what id : string) (f : string → Op AppsWorld X (result aerr A)) : Op AppsWorld X (result aerr A) :=
  match uuid_Parse id with Some u => f u | None => mret (Err (AppError ("apps: invalid " +:+ what +:+ " id"))) end.

(** ** Apps *)

Definition is_app (projectID name : string) (a : AppRow) : bool :=
  bool_decide (a_ProjectID a = projectID) && bool_decide (a_Name a = name).
Definition find_app (projectID name : string) (w : AppsWorld) : option (string * AppRow) :=
  find (λ ka, is_app projectID name ka.2) (scan (ap_apps w)).
Definition insert_app (projectID name id : string) (w : AppsWorld) : AppsWorld * result aerr App :=
  match find_app projectID name w, ap_apps w !! id, ap_projects w !! projectID with
  | Some _, _, _ => (w, Err ErrAlreadyExists)
  | None, None, Some _ =>
    let a := MkAppRow projectID name false (ap_now w) in
    (set_apps (<[id := a]> (ap_apps w)) w, Ok (MkApp id a))
  | None, Some _, _ => (w, Err (AppError "apps: insert app: duplicate key value violates unique constraint"))
  | None, None, None => (w, Err (AppError "apps: insert app: insert or update violates foreign key constraint"))
  end.
Definition Create (projectID name : string) : Op AppsWorld X (result aerr App) :=
  id ← new_uuid; app_error "apps: insert app: " (call (insert_app projectID name id)).
Definition Get (projectID name : string) : Op AppsWorld X (result aerr App) :=
  app_error "apps: get app: " (read (λ w,
    match find_app projectID name w with Some (id, a) => Ok (MkApp id a) | None => Err (ErrNotFound "app") end)).
Definition GetByID (appID : string) : Op AppsWorld X (result aerr App) :=
  with_uuid "app" appID (λ id, app_error "apps: get app by id: " (read (λ w,
    match ap_apps w !! id with Some a => Ok (MkApp id a) | None => Err (ErrNotFound "app") end))).
(** The row goes, and with it what refers to it. *)
Definition drop_app (id : string) (w : AppsWorld) : AppsWorld :=
  MkAppsWorld (ap_now w) (ap_projects w) (delete id (ap_apps w))
    (filter (λ kv, v_AppID kv.2 ≠ id) (ap_versions w)) (filter (λ kc, kc.1.1 ≠ id) (ap_channels w))
    (filter (λ kt, tk_AppID kt.2 ≠ id) (ap_tokens w)) (filter (λ kl, rl_AppID kl.2 ≠ id) (ap_logs w)) (ap_grants w).
Definition Delete (appID : string) : Op AppsWorld X (result aerr ()) :=
  with_uuid "app" appID (λ id, app_error "apps: delete app: " (call (λ w,
    match ap_apps w !! id with Some _ => (drop_app id w, Ok ()) | None => (w, Err (ErrNotFound "app")) end))).
Definition mark_registered (id : string) (w : AppsWorld) : AppsWorld :=
  set_apps (alter (λ a, MkAppRow (a_ProjectID a) (a_Name a) true (a_CreatedAt a)) id (ap_apps w)) w.
Definition SetFGARegistered (appID : string) : Op AppsWorld X (result aerr ()) :=
  with_uuid "app" appID (λ id, app_error "apps: mark fga_registered: " (call (λ w, (mark_registered id w, Ok ())))).

(** ** Versions *)

Definition has_hash (hash : string) (v : VersionRow) : bool := bool_decide (unpad (v_Hash v) = unpad hash).
Definition is_version (appID hash : string) (v : VersionRow) : bool := bool_decide (v_AppID v = appID) && has_hash hash v.
Definition find_version (appID hash : string) (w : AppsWorld) : option (string * VersionRow) :=
  find (λ kv, is_version appID hash kv.2) (scan (ap_versions w)).
(** The sum of a number over the rows of a table. *)
Definition total {A} (f : string → A → Z) (m : gmap string A) : Z := foldr (λ ka acc, f ka.1 ka.2 + acc)%Z 0%Z (map_to_list m).
Definition size_in (apps : gmap string AppRow) (projectID : string) (_ : string) (v : VersionRow) : Z :=
  if bool_decide (a_ProjectID <$> apps !! v_AppID v = Some projectID) then v_SizeBytes v else 0%Z.
Definition used_bytes (projectID : string) (w : AppsWorld) : Z := total (size_in (ap_apps w) projectID) (ap_versions w).
(** Newest first. *)
Definition newest {A} (at_ : A → Z) (l : list (string * A)) : list (string * A) := merge_sort (not_older at_) l.
Definition referenced (appID : string) (w : AppsWorld) : list string :=
  (λ kc, ch_version kc.2) <$> filter (λ kc, kc.1.1 = appID) (map_to_list (ap_channels w)).
Definition unreferenced (appID : string) (w : AppsWorld) : list (string * VersionRow) :=
  filter (λ kv, v_AppID kv.2 = appID ∧ kv.1 ∉ referenced appID w) (scan (ap_versions w)).
Definition retained (appID : string) (w : AppsWorld) : list string :=
  fst <$> take MaxUnreferencedVersions (newest v_CreatedAt (unreferenced appID w)).
Definition gcVersions (appID : string) (w : AppsWorld) : AppsWorld :=
  set_versions (filter (λ kv, ¬ (v_AppID kv.2 = appID ∧ kv.1 ∉ referenced appID w ∧ kv.1 ∉ retained appID w)) (ap_versions w)) w.
Definition point_channel (appID channel version : string) (w : AppsWorld) : AppsWorld :=
  set_channels (<[(appID, channel) := MkChannelRow version (ap_now w)]> (ap_channels w)) w.
(** The transaction of an upload, under the lock of its project. *)
Definition put_version (appID bundle id : string) (w : AppsWorld) : AppsWorld * result aerr Version :=
  let hash := sha256_hex bundle in
  let size := Z.of_nat (slen bundle) in
  let finish vid v w := (gcVersions appID (point_channel appID "draft" vid w), Ok (MkVersion vid v)) in
  match ap_apps w !! appID with
  | None => (w, Err (ErrNotFound "app"))
  | Some a =>
    match find_version appID hash w with
    | Some (vid, v) => finish vid v w
    | None =>
      if (MaxProjectBytes <? used_bytes (a_ProjectID a) w + size)%Z then (w, Err ErrProjectQuota)
      else match ap_versions w !! id with
      | Some _ => (w, Err (AppError "apps: insert version: duplicate key value violates unique constraint"))
      | None =>
        let v := MkVersionRow appID hash (gz bundle) size (ap_now w) in
        finish id v (set_versions (<[id := v]> (ap_versions w)) w)
      end
    end
  end.
Definition PutVersion (appID bundle : string) : Op AppsWorld X (result aerr Version) :=
  if (MaxBundleBytes <? Z.of_nat (slen bundle))%Z then mret (Err ErrBundleTooLarge)
  else with_uuid "app" appID (λ app, id ← new_uuid; app_error "apps: " (call (put_version app bundle id))).

Definition points_at (appID hash : string) (ch : ChannelRow) (w : AppsWorld) : bool :=
  match ap_versions w !! ch_version ch with Some v => is_version appID hash v | None => false end.
(** The conditional write, and its foreign keys. *)
Definition swap_production (appID target expected : string) (w : AppsWorld) : AppsWorld * result aerr () :=
  let write := match ap_apps w !! appID, ap_versions w !! target with
               | Some _, Some _ => (point_channel appID "production" target w, Ok ())
               | _, _ => (w, Err (AppError "apps: promote: insert or update violates foreign key constraint"))
               end in
  match ap_channels w !! (appID, "production") with
  | None => if str_empty expected then write else (w, Err ErrCASMismatch)
  | Some ch => if str_empty expected then (w, Err ErrCASMismatch)
               else if points_at appID expected ch w then write else (w, Err ErrCASMismatch)
  end.
Definition Promote_target (app versionHash : string) : Op AppsWorld X (result aerr string) :=
  app_error "apps: lookup target version: " (read (λ w,
    match find_version app versionHash w with Some (id, _) => Ok id | None => Err (ErrNotFound "version hash") end)).
Definition Promote (appID versionHash expectedProduction : string) : Op AppsWorld X (result aerr ()) :=
  with_uuid "app" appID (λ app,
  try_op (Promote_target app versionHash) (λ target,
  app_error "apps: promote: " (call (swap_production app target expectedProduction)))).
Record Resolved := MkResolved { r_AppID : string; r_VersionID : string; r_VersionHash : string }.
Definition resolve (projectID name channel : string) (w : AppsWorld) : option Resolved :=
  '(id, a) ← find_app projectID name w; ch ← ap_channels w !! (id, channel); v ← ap_versions w !! ch_version ch;
  Some (MkResolved id (ch_version ch) (v_Hash v)).
Definition Resolve (projectID name channel : string) : Op AppsWorld X (result aerr Resolved) :=
  app_error "apps: resolve: " (read (λ w,
    match resolve projectID name channel w with Some r => Ok r | None => Err (ErrNotFound "channel") end)).
Definition find_bundle (hash : string) (w : AppsWorld) : option string :=
  (λ kv, v_bundle kv.2) <$> find (λ kv, has_hash hash kv.2) (scan (ap_versions w)).
Definition GetBundle (hash : string) : Op AppsWorld X (result aerr string) :=
  app_error "apps: get bundle: " (read (λ w,
    match find_bundle hash w with
    | Some compressed => map_err (λ e, AppError ("apps: gunzip read: " +:+ e)) (gunzip compressed)
    | None => Err (ErrNotFound "bundle")
    end)).
Definition ListVersions (appID : string) (limit : Z) : Op AppsWorld X (result aerr (list Version)) :=
  with_uuid "app" appID (λ app,
  let n := if (limit <=? 0)%Z then (MaxUnreferencedVersions + 2)%nat else Z.to_nat limit in
  app_error "apps: list versions: " (read (λ w,
    Ok ((λ kv, MkVersion kv.1 kv.2) <$> take n (newest v_CreatedAt (filter (λ kv, v_AppID kv.2 = app) (scan (ap_versions w)))))))).

(** *** Listings *)

Record ChannelRef := MkChannelRef { cr_Channel : string; cr_VersionHash : string; cr_UpdatedAt : Z }.
Definition by_channel (a b : ChannelRef) : Prop := String.le (cr_Channel a) (cr_Channel b).
#[local] Instance by_channel_dec : RelDecision by_channel.
Proof. intros a b. unfold by_channel. apply _. Defined.
(** The channels of an app, with the hashes they serve. *)
Definition channels_of (appID : string) (w : AppsWorld) : list ChannelRef :=
  merge_sort by_channel (omap (λ kc, if bool_decide (kc.1.1 = appID)
    then v ← ap_versions w !! ch_version kc.2; Some (MkChannelRef kc.1.2 (v_Hash v) (ch_UpdatedAt kc.2)) else None) (map_to_list (ap_channels w))).
Definition Channels (appID : string) : Op AppsWorld X (result aerr (list ChannelRef)) :=
  with_uuid "app" appID (λ app, app_error "apps: list channels: " (read (λ w, Ok (channels_of app w)))).
Record AppSummary := MkAppSummary { as_App : App; as_Channels : list ChannelRef }.
(** The rows of the outer join, by name and channel. *)
Definition by_name (a b : string * AppRow) : Prop := collate (a_Name a.2) (a_Name b.2) = true.
#[local] Instance by_name_dec : RelDecision by_name.
Proof. intros a b. unfold by_name. apply _. Defined.
Definition list_rows (projectID : string) (w : AppsWorld) : list (App * option ChannelRef) :=
  apps ← merge_sort by_name (filter (λ ka, a_ProjectID ka.2 = projectID) (scan (ap_apps w)));
  match channels_of apps.1 w with
  | [] => [(MkApp apps.1 apps.2, None)]
  | cs => (λ c, (MkApp apps.1 apps.2, Some c)) <$> cs
  end.
(** The loop over the rows: a row of the app before joins its channels. *)
Fixpoint group_rows (cur : option AppSummary) (rows : list (App * option ChannelRef)) : list AppSummary :=
  match rows with
  | [] => option_list cur
  | (a, c) :: rows =>
    match cur with
    | Some s =>
      if bool_decide (app_ID (as_App s) = app_ID a) then group_rows (Some (MkAppSummary (as_App s) (as_Channels s ++ option_list c))) rows
      else s :: group_rows (Some (MkAppSummary a (option_list c))) rows
    | None => group_rows (Some (MkAppSummary a (option_list c))) rows
    end
  end.
Definition List (projectID : string) : Op AppsWorld X (result aerr (list AppSummary)) :=
  app_error "apps: list apps: " (read (λ w, Ok (group_rows None (list_rows projectID w)))).

(** ** Viewer tokens *)

Definition hashToken (salt secret : string) : string := sha256_hex (salt +:+ secret).
(** base64.RawURLEncoding: the two last digits differ. *)
Definition url_char (c : ascii) : ascii := if Ascii.eqb c "+"%char then "-"%char else if Ascii.eqb c "/"%char then "_"%char else c.
Definition RawURL_Encode (s : string) : string := list_str (url_char <$> str_list (EncodeToString s)).
Definition insert_token (appID salt secret id : string) (w : AppsWorld) : AppsWorld * result aerr (string * string) :=
  match ap_apps w !! appID, ap_tokens w !! id with
  | Some _, None => (set_tokens (<[id := MkTokenRow appID salt (hashToken salt secret) (ap_now w) None]> (ap_tokens w)) w, Ok (id, secret))
  | None, _ => (w, Err (AppError "apps: insert token: insert or update violates foreign key constraint"))
  | _, Some _ => (w, Err (AppError "apps: insert token: duplicate key value violates unique constraint"))
  end.
(** [secret] and [salt]: what crypto/rand gave. *)
Definition MintToken (secret salt : result string string) (appID : string) : Op AppsWorld X (result aerr (string * string)) :=
  with_uuid "app" appID (λ app,
  match secret, salt with
  | Err e, _ => mret (Err (AppError ("apps: generate secret: " +:+ e)))
  | Ok _, Err e => mret (Err (AppError ("apps: generate salt: " +:+ e)))
  | Ok secret, Ok salt => id ← new_uuid; app_error "apps: insert token: " (call (insert_token app salt (RawURL_Encode secret) id))
  end).
Definition token_of (appID tokenID : string) (w : AppsWorld) : option TokenRow :=
  t ← ap_tokens w !! tokenID; if bool_decide (tk_AppID t = appID) then Some t else None.
Definition verify_token (appID tokenID secret : string) (w : AppsWorld) : bool :=
  match token_of appID tokenID w with
  | Some t => match tk_RevokedAt t with Some _ => false | None => bool_decide (hashToken (tk_salt t) secret = tk_hash t) end
  | None => false
  end.
Definition VerifyToken (appID tokenID secret : string) : Op AppsWorld X (result aerr bool) :=
  with_uuid "app" appID (λ app, with_uuid "token" tokenID (λ tok,
  app_error "apps: lookup token: " (read (λ w, Ok (verify_token app tok secret w))))).
Definition token_active (appID tokenID : string) (w : AppsWorld) : bool :=
  match token_of appID tokenID w with Some t => match tk_RevokedAt t with Some _ => false | None => true end | None => false end.
Definition TokenActive (appID tokenID : string) : Op AppsWorld X (result aerr bool) :=
  with_uuid "app" appID (λ app, with_uuid "token" tokenID (λ tok,
  app_error "apps: lookup token: " (read (λ w, Ok (token_active app tok w))))).
Definition revoke_token (appID tokenID : string) (w : AppsWorld) : AppsWorld * result aerr () :=
  match token_of appID tokenID w with
  | Some t => (set_tokens (<[tokenID := MkTokenRow (tk_AppID t) (tk_salt t) (tk_hash t) (tk_CreatedAt t) (Some (ap_now w))]> (ap_tokens w)) w, Ok ())
  | None => (w, Err (ErrNotFound "token"))
  end.
Definition RevokeToken (appID tokenID : string) : Op AppsWorld X (result aerr ()) :=
  with_uuid "app" appID (λ app, with_uuid "token" tokenID (λ tok,
  app_error "apps: revoke token: " (call (revoke_token app tok)))).
Record TokenSummary := MkTokenSummary { ts_TokenID : string; ts_CreatedAt : Z; ts_RevokedAt : option Z }.
Definition ListTokens (appID : string) : Op AppsWorld X (result aerr (list TokenSummary)) :=
  with_uuid "app" appID (λ app, app_error "apps: list tokens: " (read (λ w,
    Ok ((λ kt, MkTokenSummary kt.1 (tk_CreatedAt kt.2) (tk_RevokedAt kt.2)) <$>
        newest tk_CreatedAt (filter (λ kt, tk_AppID kt.2 = app) (scan (ap_tokens w))))))).

(** ** Render logs *)

Variable retention : Z.
Definition logs_of (appID : string) (w : AppsWorld) : list (string * RenderLogRecord) :=
  newest rl_StartedAt (filter (λ kl, rl_AppID kl.2 = appID) (scan (ap_logs w))).
Definition trim_by_age (appID : string) (w : AppsWorld) : AppsWorld :=
  set_logs (filter (λ kl, ¬ (rl_AppID kl.2 = appID ∧ (rl_StartedAt kl.2 < ap_now w - retention)%Z)) (ap_logs w)) w.
Definition trim_by_count (appID : string) (w : AppsWorld) : AppsWorld :=
  set_logs (filter (λ kl, ¬ (rl_AppID kl.2 = appID ∧ kl.1 ∉ (fst <$> take MaxRenderLogsPerApp (logs_of appID w)))) (ap_logs w)) w.
Definition append_log (requestID : string) (rec : RenderLogRecord) (w : AppsWorld) : AppsWorld * result aerr () :=
  match ap_logs w !! requestID, ap_apps w !! rl_AppID rec with
  | None, Some _ => (trim_by_count (rl_AppID rec) (trim_by_age (rl_AppID rec) (set_logs (<[requestID := rec]> (ap_logs w)) w)), Ok ())
  | Some _, _ => (w, Err (AppError "apps: insert render log: duplicate key value violates unique constraint"))
  | _, None => (w, Err (AppError "apps: insert render log: insert or update violates foreign key constraint"))
  end.
Definition log_for (app : string) (rec : RenderLogRecord) : RenderLogRecord :=
  MkRenderLogRecord app (rl_VersionHash rec) (rl_Channel rec) (rl_PrincipalKind rec) (rl_PrincipalID rec) (rl_StartedAt rec)
    (rl_DurationMS rec) (rl_Outcome rec) (rl_LogText rec) (rl_Error rec).
Definition AppendRenderLog (requestID : string) (rec : RenderLogRecord) : Op AppsWorld X (result aerr ()) :=
  with_uuid "app" (rl_AppID rec) (λ app, with_uuid "request" requestID (λ req,
  app_error "apps: insert render log: " (call (append_log req (log_for app rec))))).
Definition GetRenderLogs (appID requestID : string) (limit : Z) : Op AppsWorld X (result aerr (list (string * RenderLogRecord))) :=
  with_uuid "app" appID (λ app,
  if str_empty requestID then
    let n := if (limit <=? 0)%Z then MaxRenderLogsPerApp else Z.to_nat limit in
    app_error "apps: list render logs: " (read (λ w, Ok (take n (logs_of app w))))
  else with_uuid "request" requestID (λ req,
    app_error "apps: get render log: " (read (λ w,
      match ap_logs w !! req with
      | Some l => if bool_decide (rl_AppID l = app) then Ok [(req, l)] else Err (ErrNotFound "render log")
      | None => Err (ErrNotFound "render log")
      end)))).
End Store.
