(* ===== verification/AppInv.v ===== *)
(** * AppInv: the invariant of the tables of user apps
      (pkg/pipelineapi/apps/store.go)

    What the tables hold after any sequence of statements, wherever a process
    ends: content addresses, references, and the bounds on versions, bytes and
    render logs. *)

From S2P Require Import Prelude CommitPool Authz Tokens Password Calls AppStore.

(** ** Sums and sizes over tables *)

Section Tables.
Context {A : Type}.
Implicit Types (f : string → A → Z) (m : gmap string A) (l : list (string * A)).

Definition tsum f l : Z := foldr (λ ka acc, f ka.1 ka.2 + acc)%Z 0%Z l.
Lemma tsum_perm f l l' : l ≡ₚ l' → tsum f l = tsum f l'.
Proof. unfold tsum. induction 1; cbn; lia. Qed.
Lemma tsum_submseteq f l l' : (∀ k a, (k, a) ∈ l' → 0 ≤ f k a)%Z → l ⊆+ l' → (tsum f l ≤ tsum f l')%Z.
Proof.
  intros Hf [k Hk]%submseteq_Permutation. rewrite (tsum_perm _ _ _ Hk). 
  assert (0 ≤ tsum f k)%Z as Hk0.
  { assert (∀ i a, (i, a) ∈ k → 0 ≤ f i a)%Z as Hk'.
    { intros i a Hin. apply Hf. rewrite Hk. apply elem_of_app. by right. }
    clear -Hk'. induction k as [|[i a] k IH]; [done|]. pose proof (Hk' i a ltac:(by left)). assert (0 ≤ tsum f k)%Z; [|unfold tsum in *; cbn; lia].
    apply IH. intros j b Hj. apply Hk'. by right. }
  clear -Hk0. unfold tsum in *. induction l as [|[i a] l IH]; cbn; lia.
Qed.
Lemma total_insert f m k a : m !! k = None → total f (<[k := a]> m) = (f k a + total f m)%Z.
Proof. intros Hk. change (tsum f (map_to_list (<[k := a]> m)) = f k a + tsum f (map_to_list m))%Z. by rewrite (tsum_perm f _ _ (map_to_list_insert m k a Hk)). Qed.
Lemma total_mono f m m' : (∀ k a, m' !! k = Some a → 0 ≤ f k a)%Z → m ⊆ m' → (total f m ≤ total f m')%Z.
Proof.
  intros Hf Hm. apply (tsum_submseteq f); [|by apply map_to_list_submseteq]. intros k a Hin%elem_of_map_to_list. by apply Hf.
Qed.
Lemma table_total_ext f g m : (∀ k a, m !! k = Some a → f k a = g k a) → total f m = total g m.
Proof.
  intros Hfg. unfold total. assert (∀ k a, (k, a) ∈ map_to_list m → f k a = g k a) as H by (intros k a Hin%elem_of_map_to_list; by apply Hfg).
  induction (map_to_list m) as [|[k a] l IH]; [done|]. cbn. rewrite (H k a) by by left. rewrite IH; [done|]. intros i b Hi. apply H. by right.
Qed.
End Tables.
(** A table whose keys are in a list is no longer than the list. *)
Lemma size_le_list {K A} `{EqDecision K} `{!Countable K} (m : gmap K A) (l : list K) : (∀ k, is_Some (m !! k) → k ∈ l) → (size m ≤ length l)%nat.
Proof.
  intros H. rewrite <- length_map_to_list. rewrite <- (length_fmap fst). apply submseteq_length. apply NoDup_submseteq; [apply NoDup_fst_map_to_list|].
  intros k Hk. apply H. apply list_elem_of_fmap in Hk as ([k' a] & -> & Hin%elem_of_map_to_list). by eexists.
Qed.
Lemma filter_size_mono {K A} `{EqDecision K} `{!Countable K} (P : K * A → Prop) `{!∀ x, Decision (P x)} (m m' : gmap K A) :
  m ⊆ m' → (size (filter P m) ≤ size (filter P m'))%nat.
Proof. intros Hm. apply map_subseteq_size. apply map_subseteq_spec. intros i x [Hx HP]%map_lookup_filter_Some. apply map_lookup_filter_Some. split; [by eapply lookup_weaken|done]. Qed.
Lemma find_scan `{DO : !DBOrder} {A} (P : string → A → bool) (m : gmap string A) k a :
  find (λ ka, P ka.1 ka.2) (scan m) = Some (k, a) → m !! k = Some a ∧ P k a = true.
Proof.
  intros [Hin HP]%find_some. split; [|done]. apply elem_of_map_to_list. rewrite <- scan_perm. by apply list_elem_of_In.
Qed.
Lemma find_scan_none `{DO : !DBOrder} {A} (P : string → A → bool) (m : gmap string A) k a :
  find (λ ka, P ka.1 ka.2) (scan m) = None → m !! k = Some a → P k a = false.
Proof.
  intros Hn Hk. apply (find_none _ _ Hn (k, a)). apply list_elem_of_In. rewrite scan_perm. by apply elem_of_map_to_list.
Qed.

(** ** The invariant *)

Section Invariant.
Context `{PL : !PoolLib} `{DO : !DBOrder} `{GZ : !Gzip} `{UL : !UuidLib}.

(** A version holds the bundle that its hash addresses. *)
Definition holds_content (v : VersionRow) : Prop :=
  ∃ raw, v_Hash v = sha256_hex raw ∧ v_bundle v = gz raw ∧ v_SizeBytes v = Z.of_nat (slen raw) ∧ (Z.of_nat (slen raw) ≤ MaxBundleBytes)%Z.
Definition versions_of (app : string) (w : AppsWorld) : gmap string VersionRow := filter (λ kv, v_AppID kv.2 = app) (ap_versions w).
Definition ring_of (app : string) (w : AppsWorld) : gmap string RenderLogRecord := filter (λ kl, rl_AppID kl.2 = app) (ap_logs w).
Record apps_ok (w : AppsWorld) : Prop := MkAppsOk {
  ok_apps : ∀ id a, ap_apps w !! id = Some a → is_Some (ap_projects w !! a_ProjectID a);
  ok_names : ∀ i j a b, ap_apps w !! i = Some a → ap_apps w !! j = Some b → a_ProjectID a = a_ProjectID b → a_Name a = a_Name b → i = j;
  ok_versions : ∀ id v, ap_versions w !! id = Some v → is_Some (ap_apps w !! v_AppID v) ∧ holds_content v;
  ok_hashes : ∀ i j u v, ap_versions w !! i = Some u → ap_versions w !! j = Some v → v_AppID u = v_AppID v → unpad (v_Hash u) = unpad (v_Hash v) → i = j;
  ok_channels : ∀ app ch c, ap_channels w !! (app, ch) = Some c →
    ch ∈ ["production"; "draft"] ∧ ∃ v, ap_versions w !! ch_version c = Some v ∧ v_AppID v = app;
  ok_tokens : ∀ id t, ap_tokens w !! id = Some t → is_Some (ap_apps w !! tk_AppID t);
  ok_logs : ∀ id l, ap_logs w !! id = Some l → is_Some (ap_apps w !! rl_AppID l);
  ok_count : ∀ app, (size (versions_of app w) ≤ MaxUnreferencedVersions + 2)%nat;
  ok_quota : ∀ p, (used_bytes p w ≤ MaxProjectBytes)%Z;
  ok_ring : ∀ app, (size (ring_of app w) ≤ MaxRenderLogsPerApp)%nat;
}.
Lemma size_nonneg w apps p : apps_ok w → ∀ k v, ap_versions w !! k = Some v → (0 ≤ size_in apps p k v)%Z.
Proof.
  intros Hw k v Hv. unfold size_in. case_bool_decide; [|lia]. destruct (ok_versions w Hw _ _ Hv) as [_ (raw & _ & _ & -> & _)]. lia.
Qed.

(** *** The collection of versions *)

Lemma referenced_spec app w id : id ∈ referenced app w ↔ ∃ ch c, ap_channels w !! (app, ch) = Some c ∧ ch_version c = id.
Proof.
  unfold referenced. rewrite list_elem_of_fmap. split.
  - intros ([[a ch] c] & -> & [Ha Hin]%list_elem_of_filter). cbn in Ha. subst a. apply elem_of_map_to_list in Hin. by exists ch, c.
  - intros (ch & c & Hc & <-). exists ((app, ch), c). split; [done|]. apply list_elem_of_filter. split; [done|]. by apply elem_of_map_to_list.
Qed.
Lemma referenced_few app w : (∀ ch c, ap_channels w !! (app, ch) = Some c → ch ∈ ["production"; "draft"]) → (length (referenced app w) ≤ 2)%nat.
Proof.
  intros Hch. unfold referenced. rewrite length_fmap. set (m := filter (λ kc : (string * string) * ChannelRow, kc.1.1 = app) (ap_channels w)).
  assert (filter (λ kc, kc.1.1 = app) (map_to_list (ap_channels w)) ≡ₚ map_to_list m) as ->.
  { apply NoDup_Permutation; [apply NoDup_filter, NoDup_map_to_list|apply NoDup_map_to_list|]. intros [k c].
    rewrite list_elem_of_filter, !elem_of_map_to_list. unfold m. rewrite map_lookup_filter_Some. tauto. }
  rewrite length_map_to_list. apply (size_le_list m [(app, "production"); (app, "draft")]). intros [a ch] [c [Hc Ha]%map_lookup_filter_Some].
  cbn in Ha. subst a. apply Hch in Hc. revert Hc. rewrite !elem_of_cons, !elem_of_nil. intros [->|[->|[]]]; auto.
Qed.
Lemma retained_few app w : (length (retained app w) ≤ MaxUnreferencedVersions)%nat.
Proof. unfold retained. rewrite length_fmap, length_take. lia. Qed.
Lemma gc_sub app w : ap_versions (gcVersions app w) ⊆ ap_versions w.
Proof. apply map_filter_subseteq. Qed.
Lemma gc_keeps app w id v : ap_versions (gcVersions app w) !! id = Some v ↔
  ap_versions w !! id = Some v ∧ (v_AppID v = app → id ∈ referenced app w ∨ id ∈ retained app w).
Proof.
  cbn. rewrite map_lookup_filter_Some. cbn. split; intros [Hv Hn]; (split; [done|]).
  - intros Ha. destruct (decide (id ∈ referenced app w)); [by left|]. destruct (decide (id ∈ retained app w)); [by right|]. by destruct Hn.
  - intros (Ha & H1 & H2). destruct (Hn Ha); contradiction.
Qed.
Lemma gc_count app w : (∀ ch c, ap_channels w !! (app, ch) = Some c → ch ∈ ["production"; "draft"]) →
  (size (versions_of app (gcVersions app w)) ≤ MaxUnreferencedVersions + 2)%nat.
Proof.
  intros Hch. etrans; [apply (size_le_list _ (referenced app w ++ retained app w))|].
  - intros id [v [Hv Ha]%map_lookup_filter_Some]. apply gc_keeps in Hv as [_ Hk]. apply elem_of_app. by apply Hk.
  - rewrite length_app. pose proof (referenced_few app w Hch). pose proof (retained_few app w). lia.
Qed.
Lemma versions_of_mono app w w' : ap_versions w ⊆ ap_versions w' → (size (versions_of app w) ≤ size (versions_of app w'))%nat.
Proof. apply filter_size_mono. Qed.
Lemma gc_ok app w : 
  (∀ id a, ap_apps w !! id = Some a → is_Some (ap_projects w !! a_ProjectID a)) →
  (∀ i j a b, ap_apps w !! i = Some a → ap_apps w !! j = Some b → a_ProjectID a = a_ProjectID b → a_Name a = a_Name b → i = j) →
  (∀ id v, ap_versions w !! id = Some v → is_Some (ap_apps w !! v_AppID v) ∧ holds_content v) →
  (∀ i j u v, ap_versions w !! i = Some u → ap_versions w !! j = Some v → v_AppID u = v_AppID v → unpad (v_Hash u) = unpad (v_Hash v) → i = j) →
  (∀ a ch c, ap_channels w !! (a, ch) = Some c → ch ∈ ["production"; "draft"] ∧ ∃ v, ap_versions w !! ch_version c = Some v ∧ v_AppID v = a) →
  (∀ id t, ap_tokens w !! id = Some t → is_Some (ap_apps w !! tk_AppID t)) →
  (∀ id l, ap_logs w !! id = Some l → is_Some (ap_apps w !! rl_AppID l)) →
  (∀ app', app' ≠ app → (size (versions_of app' w) ≤ MaxUnreferencedVersions + 2)%nat) →
  (∀ p, (used_bytes p w ≤ MaxProjectBytes)%Z) →
  (∀ a, (size (ring_of a w) ≤ MaxRenderLogsPerApp)%nat) →
  apps_ok (gcVersions app w).
Proof.
  intros Happs Hnames Hvers Hhash Hchan Htok Hlogs Hcount Hquota Hring. split; try done.
  - intros id v [Hv _]%gc_keeps. by apply Hvers in Hv.
  - intros i j u v [Hu _]%gc_keeps [Hv _]%gc_keeps. by eapply Hhash.
  - intros a ch c Hc. destruct (Hchan _ _ _ Hc) as (Hin & v & Hv & Ha). split; [done|]. exists v. split; [|done]. apply gc_keeps. split; [done|].
    intros Heq. left. apply referenced_spec. exists ch, c. split; [|done]. by rewrite <- Heq, Ha.
  - intros a. destruct (decide (a = app)) as [->|Hne]; [apply gc_count; intros ch c Hc; by apply Hchan in Hc as [? _]|].
    etrans; [apply (versions_of_mono a _ w), gc_sub|by apply Hcount].
  - intros p. unfold used_bytes. cbn [ap_apps gcVersions set_versions]. etrans; [|apply (Hquota p)]. apply total_mono; [|apply gc_sub].
    intros k v Hv. unfold size_in. case_bool_decide; [|lia]. destruct (Hvers _ _ Hv) as [_ (raw & _ & _ & -> & _)]. lia.
Qed.
End Invariant.

(** ** Every statement keeps it *)

Section Kept.
Context `{PL : !PoolLib} `{DO : !DBOrder} `{GZ : !Gzip} `{UL : !UuidLib}.

Lemma insert_app_ok pid name id w : apps_ok w → apps_ok (insert_app pid name id w).1.
Proof.
  intros Hw. unfold insert_app. destruct (find_app pid name w) eqn:Ef; [done|]. destruct (ap_apps w !! id) eqn:Ei; [done|].
  destruct (ap_projects w !! pid) eqn:Ep; [|done]. destruct Hw as [Happs Hnames Hvers Hhash Hchan Htok Hlogs Hcount Hquota Hring].
  assert (∀ k, is_Some (ap_apps w !! k) → is_Some (<[id := MkAppRow pid name false (ap_now w)]> (ap_apps w) !! k)) as Hgrow.
  { intros k Hk. rewrite lookup_insert_is_Some. destruct (decide (id = k)); [by left|by right]. }
  split; cbn; try done.
  - intros i a [[<- <-]|[Hne Ha]]%lookup_insert_Some; [by eexists|by eapply Happs].
  - intros i j a b Ha Hb Hp Hn. assert (∀ k c, ap_apps w !! k = Some c → ¬ (a_ProjectID c = pid ∧ a_Name c = name)) as Hfree.
    { intros k c Hc [<- <-]. pose proof (find_scan_none (λ _ a', is_app (a_ProjectID c) (a_Name c) a') _ _ _ Ef Hc) as H. unfold is_app in H. by rewrite !bool_decide_true in H. }
    apply lookup_insert_Some in Ha as [[<- <-]|[Hi Ha]]; apply lookup_insert_Some in Hb as [[<- <-]|[Hj Hb]]; cbn in *; [done| | |by eapply Hnames].
    + by destruct (Hfree _ _ Hb).
    + by destruct (Hfree _ _ Ha).
  - intros k v Hv. destruct (Hvers _ _ Hv) as [Ha Hc]. by split; [apply Hgrow|].
  - intros k t Ht. apply Hgrow. by eapply Htok.
  - intros k l Hl. apply Hgrow. by eapply Hlogs.
  - intros p. unfold used_bytes. cbn. erewrite table_total_ext; [apply (Hquota p)|]. intros k v Hv. cbn. unfold size_in. rewrite lookup_insert_ne; [done|].
    intros ->. destruct (Hvers _ _ Hv) as [[a Ha] _]. congruence.
Qed.
Lemma mark_registered_ok id w : apps_ok w → apps_ok (mark_registered id w).
Proof.
  intros Hw. destruct Hw as [Happs Hnames Hvers Hhash Hchan Htok Hlogs Hcount Hquota Hring]. unfold mark_registered.
  set (f := λ a, MkAppRow (a_ProjectID a) (a_Name a) true (a_CreatedAt a)).
  assert (∀ k, is_Some (ap_apps w !! k) → is_Some (alter f id (ap_apps w) !! k)) as Hsome.
  { intros k [a Ha]. destruct (decide (k = id)) as [->|Hne]; [rewrite lookup_alter_eq, Ha; by eexists|rewrite lookup_alter_ne by done; by eexists]. }
  assert (∀ k a, alter f id (ap_apps w) !! k = Some a → ∃ a', ap_apps w !! k = Some a' ∧ a_ProjectID a' = a_ProjectID a ∧ a_Name a' = a_Name a) as Hback.
  { intros k a [(-> & a' & Ha & ->)|[_ Ha]]%lookup_alter_Some; [by exists a'|by exists a]. }
  split; cbn; try done.
  - intros i a (a' & Ha & <- & _)%Hback. by eapply Happs.
  - intros i j a b (a' & Ha & E1 & E2)%Hback (b' & Hb & E3 & E4)%Hback Hp Hn. eapply Hnames; [done|done|congruence|congruence].
  - intros k v Hv. destruct (Hvers _ _ Hv) as [Ha Hc]. by split; [apply Hsome|].
  - intros k t Ht. apply Hsome. by eapply Htok.
  - intros k l Hl. apply Hsome. by eapply Hlogs.
  - intros p. unfold used_bytes. cbn. erewrite table_total_ext; [apply (Hquota p)|]. intros k v Hv. cbn. unfold size_in.
    assert (a_ProjectID <$> alter f id (ap_apps w) !! v_AppID v = a_ProjectID <$> ap_apps w !! v_AppID v) as ->; [|done].
    destruct (decide (v_AppID v = id)) as [->|Hne]; [rewrite lookup_alter_eq; by destruct (ap_apps w !! id)|by rewrite lookup_alter_ne].
Qed.
Lemma drop_app_ok id w : apps_ok w → apps_ok (drop_app id w).
Proof.
  intros Hw. pose proof (size_nonneg w (ap_apps w)) as Hpos. destruct Hw as [Happs Hnames Hvers Hhash Hchan Htok Hlogs Hcount Hquota Hring]. unfold drop_app. split; cbn.
  - intros i a [_ Ha]%lookup_delete_Some. by eapply Happs.
  - intros i j a b [_ Ha]%lookup_delete_Some [_ Hb]%lookup_delete_Some. by eapply Hnames.
  - intros i v [Hv Hne]%map_lookup_filter_Some. cbn in Hne. rewrite lookup_delete_ne by done. by eapply Hvers.
  - intros i j u v [Hu _]%map_lookup_filter_Some [Hv _]%map_lookup_filter_Some. by eapply Hhash.
  - intros a ch c [Hc Hne]%map_lookup_filter_Some. cbn in Hne. destruct (Hchan _ _ _ Hc) as (Hin & v & Hv & Ha). split; [done|]. exists v.
    split; [|done]. apply map_lookup_filter_Some. cbn. by rewrite Ha.
  - intros k t [Ht Hne]%map_lookup_filter_Some. cbn in Hne. rewrite lookup_delete_ne by done. by eapply Htok.
  - intros k t [Ht Hne]%map_lookup_filter_Some. cbn in Hne. rewrite lookup_delete_ne by done. by eapply Hlogs.
  - intros a. etrans; [|apply (Hcount a)]. apply filter_size_mono. apply map_filter_subseteq.
  - intros p. unfold used_bytes. cbn. etrans; [|apply (Hquota p)]. unfold used_bytes. rewrite (table_total_ext (size_in (delete id (ap_apps w)) p) (size_in (ap_apps w) p)).
    + apply total_mono; [|apply map_filter_subseteq]. intros k v Hv. by apply Hpos.
    + intros k v [Hv Hne]%map_lookup_filter_Some. cbn in Hne. unfold size_in. by rewrite lookup_delete_ne by done.
  - intros a. etrans; [|apply (Hring a)]. apply filter_size_mono. apply map_filter_subseteq.
Qed.
(** The draft channel is moved to a version of the app, then the rest collected. *)
Lemma finish_ok app vid v w : ap_versions w !! vid = Some v → v_AppID v = app → 
  (∀ id a, ap_apps w !! id = Some a → is_Some (ap_projects w !! a_ProjectID a)) →
  (∀ i j a b, ap_apps w !! i = Some a → ap_apps w !! j = Some b → a_ProjectID a = a_ProjectID b → a_Name a = a_Name b → i = j) →
  (∀ id v, ap_versions w !! id = Some v → is_Some (ap_apps w !! v_AppID v) ∧ holds_content v) →
  (∀ i j u v, ap_versions w !! i = Some u → ap_versions w !! j = Some v → v_AppID u = v_AppID v → unpad (v_Hash u) = unpad (v_Hash v) → i = j) →
  (∀ a ch c, ap_channels w !! (a, ch) = Some c → ch ∈ ["production"; "draft"] ∧ ∃ v, ap_versions w !! ch_version c = Some v ∧ v_AppID v = a) →
  (∀ id t, ap_tokens w !! id = Some t → is_Some (ap_apps w !! tk_AppID t)) →
  (∀ id l, ap_logs w !! id = Some l → is_Some (ap_apps w !! rl_AppID l)) →
  (∀ app', app' ≠ app → (size (versions_of app' w) ≤ MaxUnreferencedVersions + 2)%nat) →
  (∀ p, (used_bytes p w ≤ MaxProjectBytes)%Z) →
  (∀ a, (size (ring_of a w) ≤ MaxRenderLogsPerApp)%nat) →
  apps_ok (gcVersions app (point_channel app "draft" vid w)).
Proof.
  intros Hv Ha Happs Hnames Hvers Hhash Hchan Htok Hlogs Hcount Hquota Hring. apply gc_ok; try done.
  cbn. intros a ch c [[[= <- <-] <-]|[Hne Hc]]%lookup_insert_Some; [|by apply Hchan]. split; [set_solver|]. by exists v.
Qed.
Lemma put_version_ok app bundle id w : (Z.of_nat (slen bundle) ≤ MaxBundleBytes)%Z → apps_ok w → apps_ok (put_version app bundle id w).1.
Proof.
  intros Hsize Hw. unfold put_version. destruct (ap_apps w !! app) as [a|] eqn:Ea; [|done].
  pose proof Hw as [Happs Hnames Hvers Hhash Hchan Htok Hlogs Hcount Hquota Hring].
  destruct (find_version app _ w) as [[vid v]|] eqn:Ef.
  { apply (find_scan (λ _ v, is_version app (sha256_hex bundle) v)) in Ef as [Hv [Ha%bool_decide_eq_true _]%andb_prop]. by eapply finish_ok. }
  destruct (_ <? _)%Z eqn:Eq; [done|]. destruct (ap_versions w !! id) eqn:Ei; [done|]. cbn [fst].
  set (v := MkVersionRow app (sha256_hex bundle) (gz bundle) (Z.of_nat (slen bundle)) (ap_now w)).
  assert (∀ i u, <[id := v]> (ap_versions w) !! i = Some u → (i = id ∧ u = v) ∨ (i ≠ id ∧ ap_versions w !! i = Some u)) as Hins.
  { intros i u [[<- <-]|[Hne Hu]]%lookup_insert_Some; [by left|by right]. }
  eapply (finish_ok app id v); cbn; try done.
  - by rewrite lookup_insert_eq.
  - intros i u [[-> ->]|[_ Hu]]%Hins; [|by apply Hvers in Hu]. split; [by eexists|]. by exists bundle.
  - intros i j u u' Hu Hu' Happ Hh. apply Hins in Hu as [[-> ->]|[_ Hu]]; apply Hins in Hu' as [[-> ->]|[_ Hu']]; [done| | |by eapply Hhash].
    + pose proof (find_scan_none (λ _ u, is_version app (sha256_hex bundle) u) _ _ _ Ef Hu') as Hf. unfold is_version, has_hash in Hf. cbn in *.
      by rewrite !bool_decide_true in Hf.
    + pose proof (find_scan_none (λ _ u, is_version app (sha256_hex bundle) u) _ _ _ Ef Hu) as Hf. unfold is_version, has_hash in Hf. cbn in *.
      by rewrite !bool_decide_true in Hf.
  - intros a' ch c Hc. destruct (Hchan _ _ _ Hc) as (Hin & u & Hu & Hua). split; [done|]. exists u. split; [|done]. rewrite lookup_insert_ne; [done|]. congruence.
  - intros app' Hne. unfold versions_of. cbn. rewrite map_filter_insert_not'; [apply Hcount|cbn; congruence|intros u Hu; congruence].
  - intros p. unfold used_bytes. cbn. rewrite total_insert by done. fold (used_bytes p w). unfold size_in at 1. cbn. rewrite Ea. cbn.
    case_bool_decide as Hp; [|pose proof (Hquota p); lia]. injection Hp as <-. lia.
Qed.
Lemma swap_production_ok app target expected w : (∀ v, ap_versions w !! target = Some v → v_AppID v = app) → apps_ok w → apps_ok (swap_production app target expected w).1.
Proof.
  intros Ht Hw. assert (∀ a v, ap_apps w !! app = Some a → ap_versions w !! target = Some v → apps_ok (point_channel app "production" target w)) as Hwrite.
  { intros a v Ha Hv. pose proof Hw as [Happs Hnames Hvers Hhash Hchan Htok Hlogs Hcount Hquota Hring]. split; try done.
    cbn. intros a' ch c [[[= <- <-] <-]|[Hne Hc]]%lookup_insert_Some; [|by apply Hchan]. split; [set_solver|]. exists v. split; [done|by apply Ht]. }
  unfold swap_production. destruct (ap_apps w !! app) as [a|] eqn:Ea, (ap_versions w !! target) as [v|] eqn:Ev; repeat case_match; try done; by eapply Hwrite.
Qed.
Lemma insert_token_ok app salt secret id w : apps_ok w → apps_ok (insert_token app salt secret id w).1.
Proof.
  intros Hw. unfold insert_token. destruct (ap_apps w !! app) as [a|] eqn:Ea, (ap_tokens w !! id) eqn:Et; try done.
  destruct Hw as [Happs Hnames Hvers Hhash Hchan Htok Hlogs Hcount Hquota Hring]. split; try done. cbn.
  intros k t [[<- <-]|[_ Ht]]%lookup_insert_Some; [by eexists|by eapply Htok].
Qed.
Lemma token_of_Some app id w t : token_of app id w = Some t → ap_tokens w !! id = Some t ∧ tk_AppID t = app.
Proof. unfold token_of. destruct (ap_tokens w !! id) as [t'|]; cbn; [|done]. case_bool_decide; [|done]. by intros [= <-]. Qed.
Lemma revoke_token_ok app id w : apps_ok w → apps_ok (revoke_token app id w).1.
Proof.
  intros Hw. unfold revoke_token. destruct (token_of app id w) as [t|] eqn:Et; [|done]. apply token_of_Some in Et as [Et _].
  destruct Hw as [Happs Hnames Hvers Hhash Hchan Htok Hlogs Hcount Hquota Hring]. split; try done. cbn.
  intros k t' [[<- <-]|[_ Ht]]%lookup_insert_Some; cbn; by eapply Htok.
Qed.
Lemma ring_bound app w : (size (ring_of app (trim_by_count app w)) ≤ MaxRenderLogsPerApp)%nat.
Proof.
  etrans; [apply (size_le_list _ (fst <$> take MaxRenderLogsPerApp (logs_of app w)))|rewrite length_fmap, length_take; lia].
  intros id [l [[Hl Hn]%map_lookup_filter_Some Ha]%map_lookup_filter_Some]. cbn in *.
  destruct (decide (id ∈ (fst <$> take MaxRenderLogsPerApp (logs_of app w)))) as [|Hout]; [done|]. by destruct Hn.
Qed.
Lemma append_log_ok retention id rec w : apps_ok w → apps_ok (append_log retention id rec w).1.
Proof.
  intros Hw. unfold append_log. destruct (ap_logs w !! id) eqn:El; [done|]. destruct (ap_apps w !! rl_AppID rec) as [a|] eqn:Ea; [|done].
  destruct Hw as [Happs Hnames Hvers Hhash Hchan Htok Hlogs Hcount Hquota Hring]. split; try done.
  - cbn. intros k l [[[[<- <-]|[_ Hl]]%lookup_insert_Some _]%map_lookup_filter_Some _]%map_lookup_filter_Some; [by eexists|by eapply Hlogs].
  - intros app. cbn [fst]. destruct (decide (app = rl_AppID rec)) as [->|Hne]; [apply ring_bound|].
    etrans; [|apply (Hring app)]. unfold ring_of. apply map_subseteq_size, map_subseteq_spec. intros k l [[[Hl _]%map_lookup_filter_Some _]%map_lookup_filter_Some Hk]%map_lookup_filter_Some.
    cbn in Hl, Hk. apply map_lookup_filter_Some. split; [|done]. apply lookup_insert_Some in Hl as [[_ <-]|[_ Hl]]; [congruence|done].
Qed.
End Kept.

(** ** Histories *)

(** The calls of the store that write. *)
Inductive store_call : Type :=
| CreateApp (projectID name : string)
| PutBundle (appID bundle : string)
| PromoteTo (appID versionHash expectedProduction : string)
| MintViewer (secret salt : result string string) (appID : string)
| RevokeViewer (appID tokenID : string)
| AppendLog (requestID : string) (rec : RenderLogRecord)
| MarkRegistered (appID : string)
| DeleteApp (appID : string).

Section History.
Context `{PL : !PoolLib} `{DO : !DBOrder} `{GZ : !Gzip} `{UL : !UuidLib} {X : Type} `{F : !Faults X}.
Variable retention : Z.

Definition run_call (c : store_call) : Op AppsWorld X () :=
  match c with
  | CreateApp pid name => ignore (Create pid name)
  | PutBundle app bundle => ignore (PutVersion app bundle)
  | PromoteTo app hash expected => ignore (Promote app hash expected)
  | MintViewer secret salt app => ignore (MintToken secret salt app)
  | RevokeViewer app id => ignore (RevokeToken app id)
  | AppendLog req rec => ignore (AppendRenderLog retention req rec)
  | MarkRegistered app => ignore (SetFGARegistered app)
  | DeleteApp app => ignore (Delete app)
  end.
Definition run_calls (l : list store_call) (s : AppsWorld * X) : AppsWorld * X := foldl (λ s c, (run_call c s).1) s l.

Lemma keeps_app_error {A} (I : AppsWorld → Prop) what (m : Op AppsWorld X (result string (result aerr A))) : keeps I m → keeps I (app_error what m).
Proof. intros Hm. apply keeps_op_bind; [done|]. intros r. apply keeps_op_ret. Qed.
Lemma keeps_with_uuid {A} (I : AppsWorld → Prop) what id (f : string → Op AppsWorld X (result aerr A)) : (∀ u, keeps I (f u)) → keeps I (with_uuid what id f).
Proof. intros Hf. unfold with_uuid. destruct (uuid_Parse id); [apply Hf|apply keeps_op_ret]. Qed.
Lemma keeps_write {A} (what : string) (f : AppsWorld → AppsWorld * result aerr A) : (∀ w, apps_ok w → apps_ok (f w).1) → keeps (X := X) apps_ok (app_error what (call f)).
Proof. intros Hf. apply keeps_app_error. by apply keeps_op_call. Qed.
Lemma keeps_Promote app hash expected : keeps (X := X) apps_ok (Promote app hash expected).
Proof.
  apply keeps_with_uuid. intros id w Hw. apply wp_op_try. unfold Promote_target, app_error. apply wp_op_bind.
  apply wp_read; [done| |intros m; by apply wp_op_ret]. apply wp_op_ret. destruct (find_version id hash w) as [[vid v]|] eqn:Ef; [|done].
  apply (find_scan (λ _ v, is_version id hash v)) in Ef as [Hv [Ha%bool_decide_eq_true _]%andb_prop].
  assert (apps_ok (swap_production id vid expected w).1) as Hs by (apply swap_production_ok; [intros v'; congruence|done]).
  apply wp_op_bind. apply wp_call; try done; intros; by apply wp_op_ret.
Qed.
Lemma keeps_run_call c : keeps (X := X) apps_ok (run_call c).
Proof.
  destruct c; cbn [run_call]; apply keeps_ignore.
  - apply keeps_op_bind; [apply keeps_new_uuid|]. intros id. apply keeps_write. intros w. by apply insert_app_ok.
  - unfold PutVersion. destruct (_ <? _)%Z eqn:Es; [apply keeps_op_ret|]. apply keeps_with_uuid. intros u. apply keeps_op_bind; [apply keeps_new_uuid|]. intros id.
    apply keeps_write. intros w. apply put_version_ok. lia.
  - apply keeps_Promote.
  - apply keeps_with_uuid. intros u. destruct secret as [secret|], salt as [salt|]; try apply keeps_op_ret. apply keeps_op_bind; [apply keeps_new_uuid|].
    intros id. apply keeps_write. intros w. by apply insert_token_ok.
  - apply keeps_with_uuid. intros u. apply keeps_with_uuid. intros t. apply keeps_write. intros w. by apply revoke_token_ok.
  - apply keeps_with_uuid. intros u. apply keeps_with_uuid. intros t. apply keeps_write. intros w. by apply append_log_ok.
  - apply keeps_with_uuid. intros u. apply keeps_write. intros w. by apply mark_registered_ok.
  - apply keeps_with_uuid. intros u. apply keeps_write. intros w Hw. destruct (ap_apps w !! u); [by apply drop_app_ok|done].
Qed.
Lemma run_calls_ok (projects : gmap string string) (now : Z) (l : list store_call) (x : X) :
  apps_ok (run_calls l (MkAppsWorld now projects ∅ ∅ ∅ ∅ ∅ ∅, x)).1.
Proof.
  assert (apps_ok (MkAppsWorld now projects ∅ ∅ ∅ ∅ ∅ ∅)) as Hw.
  { assert (∀ (P : string * VersionRow → Prop) `{!∀ x, Decision (P x)}, size (filter P (∅ : gmap string VersionRow)) = 0%nat) as Hv by (intros P HP; by rewrite map_filter_empty, map_size_empty).
    assert (∀ (P : string * RenderLogRecord → Prop) `{!∀ x, Decision (P x)}, size (filter P (∅ : gmap string RenderLogRecord)) = 0%nat) as Hl by (intros P HP; by rewrite map_filter_empty, map_size_empty).
    split; unfold versions_of, ring_of, used_bytes, total; cbn.
    all: try (intros *; by rewrite lookup_empty).
    - intros app. rewrite Hv. lia.
    - intros p. by rewrite map_to_list_empty.
    - intros app. rewrite Hl. lia. }
  revert Hw. generalize (MkAppsWorld now projects ∅ ∅ ∅ ∅ ∅ ∅) as w. revert x. induction l as [|c l IH]; intros x w Hw; [done|]. cbn [run_calls foldl].
  pose proof (keeps_run_call c w Hw x) as Hc. destruct (run_call c (w, x)) as [[w' x'] [[]|]]; by apply IH.
Qed.
(** C8: The tables of apps are always in order.  After any calls of the store,
    with failures and processes that end at any of them, an app's project exists
    and its name is its own; a version holds the bundle its hash addresses, within
    the limit, and no other version of its app has that hash; a channel is
    production or draft and points at a version of its app; tokens and logs are
    those of apps that exist; an app has at most two versions more than are
    retained without a channel, a project stays in its quota, and an app keeps at
    most the newest logs. *)
Theorem tables_bounded (projects : gmap string string) (now : Z) (l : list store_call) (x : X) :
  apps_ok (run_calls l (MkAppsWorld now projects ∅ ∅ ∅ ∅ ∅ ∅, x)).1.
Proof. apply run_calls_ok. Qed.
End History.
