(* ===== verification/AppHistory.v ===== *)
(** * AppHistory: what the store of user apps promises over time
      (pkg/pipelineapi/apps/store.go)

    Promotions of concurrent requests as a compare-and-swap, uploads and what is
    resolved and served after them, and the life of a viewer token. *)

From S2P Require Import Prelude CommitPool Authz Tokens Password Calls AppStore AppInv.

Section Channels.
Context `{PL : !PoolLib} `{DO : !DBOrder} `{GZ : !Gzip} `{UL : !UuidLib}.

(** The hash a channel serves; empty when it is not set. *)
Definition served (app channel : string) (w : AppsWorld) : string :=
  match ap_channels w !! (app, channel) with
  | Some c => match ap_versions w !! ch_version c with Some v => unpad (v_Hash v) | None => EmptyString end
  | None => EmptyString
  end.
Lemma served_channel app channel w c : apps_ok w → ap_channels w !! (app, channel) = Some c →
  ∃ v, ap_versions w !! ch_version c = Some v ∧ v_AppID v = app ∧ served app channel w = unpad (v_Hash v).
Proof. intros Hw Hc. destruct (ok_channels w Hw _ _ _ Hc) as (_ & v & Hv & Ha). exists v. unfold served. by rewrite Hc, Hv. Qed.
(** A statement that leaves the channels of an app and what they point at. *)
Lemma served_same app channel w w' : ap_channels w' !! (app, channel) = ap_channels w !! (app, channel) →
  (∀ c, ap_channels w !! (app, channel) = Some c → ap_versions w' !! ch_version c = ap_versions w !! ch_version c) →
  served app channel w' = served app channel w.
Proof. intros Hc Hv. unfold served. rewrite Hc. destruct (ap_channels w !! (app, channel)) as [c|]; [|done]. by rewrite Hv. Qed.
(** Versions that a channel points at survive the collection. *)
Lemma gc_served app' app channel w : apps_ok (gcVersions app' w) → served app channel (gcVersions app' w) = served app channel w.
Proof.
  intros Hw. apply served_same; [done|]. intros c Hc. destruct (served_channel app channel _ c Hw Hc) as (v & Hv & _). rewrite Hv. symmetry. by apply gc_keeps in Hv as [? _].
Qed.
Lemma put_version_served app channel app' bundle id w : (Z.of_nat (slen bundle) ≤ MaxBundleBytes)%Z → apps_ok w →
  (app', "draft") ≠ (app, channel) → served app channel (put_version app' bundle id w).1 = served app channel w.
Proof.
  intros Hs Hw Hne. pose proof (put_version_ok app' bundle id w Hs Hw) as Hok. unfold put_version in *. destruct (ap_apps w !! app'); [|done].
  assert (∀ vid w1, ap_channels w1 = ap_channels w → (∀ c, ap_channels w !! (app, channel) = Some c → ap_versions w1 !! ch_version c = ap_versions w !! ch_version c) →
    apps_ok (gcVersions app' (point_channel app' "draft" vid w1)) → served app channel (gcVersions app' (point_channel app' "draft" vid w1)) = served app channel w) as Hfin.
  { intros vid w1 Hc Hv H1. rewrite gc_served by done. apply served_same; [cbn; rewrite Hc; by rewrite lookup_insert_ne by done|done]. }
  destruct (find_version _ _ _) as [[vid v]|]; [by apply Hfin|]. destruct (_ <? _)%Z; [done|]. destruct (ap_versions w !! id) eqn:Ei; [done|]. apply Hfin; [done| |done].
  intros c Hc. destruct (ok_channels w Hw _ _ _ Hc) as (_ & v & Hv & _). cbn. rewrite lookup_insert_ne; [done|]. congruence.
Qed.
(** The write of a promotion. *)
Lemma swap_served app target expected w hash : apps_ok w → (∀ v, ap_versions w !! target = Some v → is_version app hash v = true) →
  match swap_production app target expected w with
  | (w', Ok ()) => unpad expected = served app "production" w ∧ served app "production" w' = unpad hash
  | (w', Err _) => w' = w
  end.
Proof.
  intros Hw Ht. unfold swap_production.
  assert (∀ a v, ap_apps w !! app = Some a → ap_versions w !! target = Some v → served app "production" (point_channel app "production" target w) = unpad hash) as Hnew.
  { intros a v _ Hv. unfold served, point_channel. cbn. rewrite lookup_insert_eq. cbn. rewrite Hv. by apply Ht, andb_prop in Hv as [_ ?%bool_decide_eq_true]. }
  destruct (ap_channels w !! (app, "production")) as [c|] eqn:Ec.
  - destruct (str_empty expected); [done|]. destruct (points_at app expected c w) eqn:Ep; [|done].
    assert (unpad expected = served app "production" w) as He.
    { unfold points_at in Ep. unfold served. rewrite Ec. destruct (ap_versions w !! ch_version c) as [v|]; [|done].
      by apply andb_prop in Ep as [_ ?%bool_decide_eq_true]. }
    destruct (ap_apps w !! app) eqn:Ea, (ap_versions w !! target) eqn:Ev; try done. by split; [|eapply Hnew].
  - destruct (str_empty expected) eqn:Ee; [|done]. assert (unpad expected = served app "production" w) as He by (unfold served; rewrite Ec; by destruct expected).
    destruct (ap_apps w !! app) eqn:Ea, (ap_versions w !! target) eqn:Ev; try done. by split; [|eapply Hnew].
Qed.
Lemma swap_others app' target expected app w : app ≠ app' → served app "production" (swap_production app' target expected w).1 = served app "production" w.
Proof.
  intros Hne. unfold swap_production. assert (served app "production" (point_channel app' "production" target w) = served app "production" w) as H.
  { apply served_same; [|done]. cbn. apply lookup_insert_ne. congruence. }
  destruct (ap_apps w !! app'), (ap_versions w !! target); repeat case_match; done.
Qed.
End Channels.

(** ** Concurrent promotions *)

(** A target that the first statement of a promotion found. *)
Record found := MkFound { fo_app : string; fo_hash : string; fo_version : string }.
(** The tables, and the promotions between their two statements. *)
Record store_sys := MkStoreSys { sy_world : AppsWorld; sy_found : list found }.
(** What a statement did, as far as promotions go. *)
Inductive store_event : Type :=
| Promoted (app expected hash : string)
| Deleted (app : string)
| OtherStatement.

Section Promotions.
Context `{PL : !PoolLib} `{DO : !DBOrder} `{GZ : !Gzip} `{UL : !UuidLib}.
Variable retention : Z.

(** The next statement, of any request; a version's id is not drawn while a
    promotion holds it. *)
Inductive store_step : store_sys → store_event → store_sys → Prop :=
| st_time w l t : store_step (MkStoreSys w l) OtherStatement
    (MkStoreSys (MkAppsWorld t (ap_projects w) (ap_apps w) (ap_versions w) (ap_channels w) (ap_tokens w) (ap_logs w) (ap_grants w)) l)
| st_create w l pid name id : store_step (MkStoreSys w l) OtherStatement (MkStoreSys (insert_app pid name id w).1 l)
| st_register w l id : store_step (MkStoreSys w l) OtherStatement (MkStoreSys (mark_registered id w) l)
| st_delete w l id : store_step (MkStoreSys w l) (Deleted id) (MkStoreSys (drop_app id w) l)
| st_put w l app bundle id : (Z.of_nat (slen bundle) ≤ MaxBundleBytes)%Z → (∀ f, f ∈ l → fo_version f ≠ id) →
    store_step (MkStoreSys w l) OtherStatement (MkStoreSys (put_version app bundle id w).1 l)
| st_target w l app hash id v : find_version app hash w = Some (id, v) →
    store_step (MkStoreSys w l) OtherStatement (MkStoreSys w (MkFound app hash id :: l))
| st_promoted w l f expected w' : f ∈ l → swap_production (fo_app f) (fo_version f) expected w = (w', Ok ()) →
    store_step (MkStoreSys w l) (Promoted (fo_app f) expected (fo_hash f)) (MkStoreSys w' l)
| st_refused w l f expected w' e : f ∈ l → swap_production (fo_app f) (fo_version f) expected w = (w', Err e) →
    store_step (MkStoreSys w l) OtherStatement (MkStoreSys w' l)
| st_token w l app salt secret id : store_step (MkStoreSys w l) OtherStatement (MkStoreSys (insert_token app salt secret id w).1 l)
| st_revoke w l app id : store_step (MkStoreSys w l) OtherStatement (MkStoreSys (revoke_token app id w).1 l)
| st_log w l req rec : store_step (MkStoreSys w l) OtherStatement (MkStoreSys (append_log retention req rec w).1 l).
Inductive store_run : store_sys → list store_event → store_sys → Prop :=
| run_nil s : store_run s [] s
| run_cons s e s1 l s2 : store_step s e s1 → store_run s1 l s2 → store_run s (e :: l) s2.
(** The promotions of an app, in the order they took effect. *)
Definition promotions (app : string) (l : list store_event) : list (string * string) :=
  omap (λ e, match e with Promoted a expected hash => if bool_decide (a = app) then Some (expected, hash) else None | _ => None end) l.
(** Each expects what the one before has set. *)
Fixpoint chain (from : string) (l : list (string * string)) (to_ : string) : Prop :=
  match l with [] => from = to_ | (expected, hash) :: l => unpad expected = from ∧ chain (unpad hash) l to_ end.

Definition sys_ok (s : store_sys) : Prop :=
  apps_ok (sy_world s) ∧
  ∀ f v, f ∈ sy_found s → ap_versions (sy_world s) !! fo_version f = Some v → is_version (fo_app f) (fo_hash f) v = true.
Lemma is_version_app app hash v : is_version app hash v = true → v_AppID v = app.
Proof. by intros [?%bool_decide_eq_true _]%andb_prop. Qed.
Lemma apps_ok_time w t : apps_ok w → apps_ok (MkAppsWorld t (ap_projects w) (ap_apps w) (ap_versions w) (ap_channels w) (ap_tokens w) (ap_logs w) (ap_grants w)).
Proof. intros [Happs Hnames Hvers Hhash Hchan Htok Hlogs Hcount Hquota Hring]. by split. Qed.
(** No statement changes a version, and only an upload adds one, under its id. *)
Lemma put_version_versions app bundle id w k v : ap_versions (put_version app bundle id w).1 !! k = Some v → k = id ∨ ap_versions w !! k = Some v.
Proof.
  unfold put_version. destruct (ap_apps w !! app); [|auto]. destruct (find_version _ _ _) as [[vid v']|]; [intros [H _]%gc_keeps; auto|].
  destruct (_ <? _)%Z; [auto|]. destruct (ap_versions w !! id) eqn:Ei; [auto|]. intros [H _]%gc_keeps. cbn in H. apply lookup_insert_Some in H as [[<- _]|[_ H]]; auto.
Qed.
Lemma swap_versions app target expected w : ap_versions (swap_production app target expected w).1 = ap_versions w.
Proof. unfold swap_production. destruct (ap_apps w !! app), (ap_versions w !! target); repeat case_match; done. Qed.
Lemma step_versions s e s' f v : store_step s e s' → f ∈ sy_found s →
  ap_versions (sy_world s') !! fo_version f = Some v → ap_versions (sy_world s) !! fo_version f = Some v.
Proof.
  intros Hs Hf. destruct Hs; cbn in *; try done.
  - unfold insert_app. by repeat case_match.
  - by intros [? _]%map_lookup_filter_Some.
  - intros [Hk|?]%put_version_versions; [|done]. by destruct (H0 f).
  - pose proof (swap_versions (fo_app f0) (fo_version f0) expected w) as Hsw. rewrite H0 in Hsw. cbn in Hsw. by rewrite Hsw.
  - pose proof (swap_versions (fo_app f0) (fo_version f0) expected w) as Hsw. rewrite H0 in Hsw. cbn in Hsw. by rewrite Hsw.
  - unfold insert_token. by repeat case_match.
  - unfold revoke_token. by repeat case_match.
  - unfold append_log. by repeat case_match.
Qed.
Lemma store_step_ok s e s' : store_step s e s' → sys_ok s → sys_ok s'.
Proof.
  intros Hs [Hw Hf]. assert (∀ f v, f ∈ sy_found s → ap_versions (sy_world s') !! fo_version f = Some v → is_version (fo_app f) (fo_hash f) v = true) as Hold.
  { intros f v Hin Hv. apply (Hf f v Hin). by eapply step_versions. }
  destruct Hs; cbn in *; split; cbn; try done.
  - by apply apps_ok_time.
  - by apply insert_app_ok.
  - by apply mark_registered_ok.
  - by apply drop_app_ok.
  - by apply put_version_ok.
  - intros f v' [->|Hin]%elem_of_cons Hv'; [|by apply Hold]. cbn in *. apply (find_scan (λ _ v, is_version app hash v)) in H as [Hk Hv]. congruence.
  - pose proof (swap_production_ok (fo_app f) (fo_version f) expected w) as Ho. rewrite H0 in Ho. apply Ho; [|done]. intros v Hv. eapply is_version_app, Hf; done.
  - pose proof (swap_production_ok (fo_app f) (fo_version f) expected w) as Ho. rewrite H0 in Ho. apply Ho; [|done]. intros v Hv. eapply is_version_app, Hf; done.
  - by apply insert_token_ok.
  - by apply revoke_token_ok.
  - by apply append_log_ok.
Qed.
Lemma drop_served app app' channel w : apps_ok w → app ≠ app' → served app channel (drop_app app' w) = served app channel w.
Proof.
  intros Hw Hne. assert (ap_channels (drop_app app' w) !! (app, channel) = ap_channels w !! (app, channel)) as Hc.
  { cbn. rewrite map_lookup_filter. destruct (ap_channels w !! (app, channel)) as [c|]; cbn; [|done]. by rewrite option_guard_True. }
  apply served_same; [done|]. intros c Hch. destruct (ok_channels w Hw _ _ _ Hch) as (_ & v & Hv & Ha). cbn. rewrite map_lookup_filter, Hv. cbn.
  rewrite option_guard_True; [done|]. by rewrite Ha.
Qed.
(** One statement: only a promotion of the app moves its production. *)
Lemma step_production app s e s' : store_step s e s' → sys_ok s → e ≠ Deleted app →
  chain (served app "production" (sy_world s)) (promotions app [e]) (served app "production" (sy_world s')).
Proof.
  intros Hs [Hw Hf] He. destruct Hs; cbn in *; try done.
  - unfold insert_app. by repeat case_match.
  - symmetry. apply drop_served; [done|]. congruence.
  - symmetry. by apply put_version_served.
  - assert (∀ v, ap_versions w !! fo_version f = Some v → is_version (fo_app f) (fo_hash f) v = true) as Ht by (intros v Hv; by apply Hf).
    pose proof (swap_served _ _ expected w _ Hw Ht) as Hsw. rewrite H0 in Hsw. case_bool_decide as Ha; cbn.
    + subst app. destruct Hsw as [H1 H2]. by split.
    + pose proof (swap_others (fo_app f) (fo_version f) expected app w ltac:(done)) as Ho. by rewrite H0 in Ho.
  - assert (∀ v, ap_versions w !! fo_version f = Some v → is_version (fo_app f) (fo_hash f) v = true) as Ht by (intros v Hv; by apply Hf).
    pose proof (swap_served _ _ expected w _ Hw Ht) as Hsw. rewrite H0 in Hsw. by subst.
  - unfold insert_token. by repeat case_match.
  - unfold revoke_token. by repeat case_match.
  - unfold append_log. repeat case_match; done.
Qed.
Lemma chain_app a l b l' c : chain a l b → chain b l' c → chain a (l ++ l') c.
Proof. revert a. induction l as [|[e h] l IH]; intros a; cbn; [by intros ->|]. intros [He Hl] Hc. by split; [|apply IH]. Qed.
Lemma run_production app s l s' : store_run s l s' → sys_ok s → Deleted app ∉ l →
  chain (served app "production" (sy_world s)) (promotions app l) (served app "production" (sy_world s')).
Proof.
  induction 1 as [s|s e s1 l s2 Hs Hr IH]; intros Hok Hnd; [done|]. change (e :: l) with ([e] ++ l). unfold promotions. rewrite omap_app.
  eapply chain_app; [apply (step_production app); [done..|]|apply IH; [by eapply store_step_ok|]]; intros Hd; apply Hnd; rewrite ?Hd; by constructor.
Qed.
(** C7: Promotion is a compare-and-swap, however requests interleave.  As long as
    the app is not deleted, the promotions of an app that took effect form a
    chain from what production served to what it serves now: each one expected
    exactly what the one before had set, and nothing else, an upload, its
    collection of old versions or another app's promotion, moves production. *)
Theorem promotions_chain (app : string) (s : store_sys) (l : list store_event) (s' : store_sys)
    (Hok : sys_ok s) (Hrun : store_run s l s') (Hlive : Deleted app ∉ l) :
  chain (served app "production" (sy_world s)) (promotions app l) (served app "production" (sy_world s')).
Proof. by apply run_production. Qed.
End Promotions.

(** ** Uploads and what is served *)

Section Served.
Context `{PL : !PoolLib} `{DO : !DBOrder} `{GZ : !Gzip} `{GL : !GzipLaws} `{UL : !UuidLib} {X : Type} `{F : !Faults X}.

Lemma wp_app_error {A} C what (m : Op AppsWorld X (result string (result aerr A))) Q w :
  wp C m (λ r, Q (match r with Ok r => r | Err e => Err (AppError (what +:+ e)) end)) w → wp C (app_error what m) Q w.
Proof. intros H. apply wp_op_bind. eapply wp_mono; [exact H|done|]. intros a w' Ha. by apply wp_op_ret. Qed.
Lemma put_version_result app bundle id w : apps_ok w → (Z.of_nat (slen bundle) ≤ MaxBundleBytes)%Z →
  match put_version app bundle id w with
  | (w', Ok v) => unpad (v_Hash (ver_Row v)) = unpad (sha256_hex bundle) ∧ served app "draft" w' = unpad (sha256_hex bundle)
  | (w', Err e) => w' = w ∧ match e with
      | ErrNotFound what => what = "app" ∧ ap_apps w !! app = None
      | ErrProjectQuota => ∃ a, ap_apps w !! app = Some a ∧ (MaxProjectBytes < used_bytes (a_ProjectID a) w + Z.of_nat (slen bundle))%Z
      | AppError _ => is_Some (ap_versions w !! id)
      | _ => False
      end
  end.
Proof.
  intros Hw Hs. pose proof (put_version_ok app bundle id w Hs Hw) as Hok. unfold put_version in *. destruct (ap_apps w !! app) as [a|] eqn:Ea; [|done].
  assert (∀ vid v w1, ap_versions w1 !! vid = Some v → unpad (v_Hash v) = unpad (sha256_hex bundle) → apps_ok (gcVersions app (point_channel app "draft" vid w1)) →
    served app "draft" (gcVersions app (point_channel app "draft" vid w1)) = unpad (sha256_hex bundle)) as Hfin.
  { intros vid v w1 Hv Hh H1. rewrite gc_served by done. unfold served, point_channel. cbn. rewrite lookup_insert_eq. cbn. by rewrite Hv. }
  destruct (find_version _ _ _) as [[vid v]|] eqn:Ef.
  - apply (find_scan (λ _ v, is_version app (sha256_hex bundle) v)) in Ef as [Hv [_ Hh%bool_decide_eq_true]%andb_prop]. split; [done|by eapply Hfin].
  - destruct (_ <? _)%Z eqn:Eq; [split; [done|]; exists a; split; [done|lia]|]. destruct (ap_versions w !! id) eqn:Ei; [by split; [|eexists]|].
    split; [done|]. eapply Hfin; [cbn; apply lookup_insert_eq|done|done].
Qed.
(** C12: What an upload does, whatever fails.  An upload that succeeds has made the
    draft channel serve its content; one that is refused has changed nothing, and
    for the reason it says: the bundle is over the limit, the project's quota does
    not hold it, or the app is gone.  Production serves what it served before in
    every case, also when the answer is lost or the process ends. *)
Theorem upload_outcome (app id bundle : string) (w : AppsWorld) (Happ : uuid_Parse app = Some id) (Hw : apps_ok w) :
  wp (X := X) (λ w', served id "production" w' = served id "production" w) (PutVersion app bundle) (λ res w',
    served id "production" w' = served id "production" w ∧
    match res with
    | Ok v => unpad (v_Hash (ver_Row v)) = unpad (sha256_hex bundle) ∧ served id "draft" w' = unpad (sha256_hex bundle)
    | Err ErrBundleTooLarge => w' = w ∧ (MaxBundleBytes < Z.of_nat (slen bundle))%Z
    | Err ErrProjectQuota => w' = w ∧ ∃ a, ap_apps w !! id = Some a ∧ (MaxProjectBytes < used_bytes (a_ProjectID a) w + Z.of_nat (slen bundle))%Z
    | Err (ErrNotFound what) => w' = w ∧ what = "app" ∧ ap_apps w !! id = None
    | Err (AppError _) => True
    | Err _ => False
    end) w.
Proof.
  unfold PutVersion. destruct (_ <? _)%Z eqn:Es; [apply wp_op_ret; split; [done|]; split; [done|lia]|]. unfold with_uuid. rewrite Happ.
  apply wp_op_bind, wp_new_uuid. intros vid. assert (Z.of_nat (slen bundle) ≤ MaxBundleBytes)%Z as Hs by lia.
  pose proof (put_version_served id "production" id bundle vid w Hs Hw ltac:(done)) as Hp.
  apply wp_app_error, wp_call; try done. split; [done|]. pose proof (put_version_result id bundle vid w Hw Hs) as Hr.
  destruct (put_version id bundle vid w) as [w' [v|[]]]; cbn [fst snd]; [done|destruct Hr as [-> Hr]..]; done.
Qed.

Lemma resolve_served projectID name channel w r : apps_ok w → resolve projectID name channel w = Some r →
  ∃ v, ap_versions w !! r_VersionID r = Some v ∧ v_Hash v = r_VersionHash r ∧ v_AppID v = r_AppID r ∧
    (∃ a, find_app projectID name w = Some (r_AppID r, a)) ∧ served (r_AppID r) channel w = unpad (r_VersionHash r).
Proof.
  intros Hw. unfold resolve. destruct (find_app projectID name w) as [[id a]|] eqn:Ea; cbn; [|done].
  destruct (ap_channels w !! (id, channel)) as [c|] eqn:Ec; cbn; [|done]. destruct (ap_versions w !! ch_version c) as [v|] eqn:Ev; cbn; [|done].
  intros [= <-]. exists v. destruct (served_channel id channel w c Hw Ec) as (v' & Hv' & Hid & Hs). cbn. split_and!; try done; [congruence|by exists a|congruence].
Qed.
(** Whatever is resolved can be fetched, and is what its hash says.  In every
    world the store can produce, resolving a channel names the version of the app of
    that name that the channel serves, and fetching the bundle of that hash gives content with exactly
    that hash or reports that the database failed, never that there is none. *)
Theorem resolved_bundle_served (retention now : Z) (projects : gmap string string) (l : list store_call) (x : X) (projectID name channel : string) (r : Resolved) :
  let w := (run_calls retention l (MkAppsWorld now projects ∅ ∅ ∅ ∅ ∅ ∅, x)).1 in
  resolve projectID name channel w = Some r →
  (∃ a, ap_apps w !! r_AppID r = Some a ∧ a_ProjectID a = projectID ∧ a_Name a = name) ∧
  served (r_AppID r) channel w = unpad (r_VersionHash r) ∧
  wp (X := X) (λ w', w' = w) (GetBundle (r_VersionHash r)) (λ res w', w' = w ∧
    match res with Ok raw => unpad (sha256_hex raw) = unpad (r_VersionHash r) | Err e => ∃ m, e = AppError m end) w.
Proof.
  intros w Hr. assert (apps_ok w) as Hw by apply run_calls_ok. destruct (resolve_served _ _ _ _ _ Hw Hr) as (v & Hv & Hh & _ & (a & Ha) & Hs). split; [|split; [exact Hs|]].
  { apply (find_scan (λ _ a, is_app projectID name a)) in Ha as [Ha [H1%bool_decide_eq_true H2%bool_decide_eq_true]%andb_prop]. by exists a. }
  unfold GetBundle. apply wp_app_error, wp_read; [done| |intros m; split; [done|by eexists]]. split; [done|]. unfold find_bundle.
  destruct (find _ (scan (ap_versions w))) as [[k v']|] eqn:Ef; cbn.
  - apply (find_scan (λ _ u, has_hash (r_VersionHash r) u)) in Ef as [Hk Hu%bool_decide_eq_true].
    destruct (ok_versions w Hw _ _ Hk) as [_ (raw & Hraw & -> & _)]. rewrite gunzip_gz. cbn. congruence.
  - pose proof (find_scan_none (λ _ u, has_hash (r_VersionHash r) u) _ _ _ Ef Hv) as Hn. unfold has_hash in Hn. rewrite Hh in Hn. by rewrite bool_decide_true in Hn.
Qed.
End Served.

(** ** Viewer tokens *)

Section ViewerTokens.
Context `{PL : !PoolLib} `{DO : !DBOrder} `{GZ : !Gzip} `{UL : !UuidLib} {X : Type} `{F : !Faults X}.
Variable retention : Z.

Definition deletes (id : string) (c : store_call) : Prop := match c with DeleteApp app => uuid_Parse app = Some id | _ => False end.
Definition revokes (tok : string) (c : store_call) : Prop := match c with RevokeViewer _ t => uuid_Parse t = Some tok | _ => False end.
(** A statement that at most touches another token. *)
Lemma keeps_token_call (I : AppsWorld → Prop) c :
  (∀ f : AppsWorld → AppsWorld, (∀ w, ap_tokens (f w) = ap_tokens w) → ∀ w, I w → I (f w)) →
  (∀ app salt secret id w, I w → I (insert_token app salt secret id w).1) →
  (∀ app a t tok, c = RevokeViewer a t → uuid_Parse t = Some tok → ∀ w, I w → I (revoke_token app tok w).1) →
  (∀ app id, c = DeleteApp app → uuid_Parse app = Some id → ∀ w, I w → I (drop_app id w)) →
  keeps I (run_call (X := X) retention c).
Proof.
  intros Hsame Hins Hrev Hdel. assert (∀ {B} (f : AppsWorld → AppsWorld * B), (∀ w, ap_tokens (f w).1 = ap_tokens w) → ∀ w, I w → I (f w).1) as Hsame'.
  { intros B f Hf. by apply (Hsame (λ w, (f w).1)). }
  destruct c; cbn [run_call]; apply keeps_ignore.
  - apply keeps_op_bind; [apply keeps_new_uuid|]. intros id. apply keeps_app_error, keeps_op_call, Hsame'. intros w. unfold insert_app. by repeat case_match.
  - unfold PutVersion. destruct (_ <? _)%Z; [apply keeps_op_ret|]. apply keeps_with_uuid. intros u. apply keeps_op_bind; [apply keeps_new_uuid|]. intros id.
    apply keeps_app_error, keeps_op_call, Hsame'. intros w. unfold put_version. by repeat case_match.
  - unfold Promote. apply keeps_with_uuid. intros u. apply keeps_try; [apply keeps_app_error, keeps_read|]. intros t. apply keeps_app_error, keeps_op_call, Hsame'.
    intros w. unfold swap_production. by repeat case_match.
  - apply keeps_with_uuid. intros u. destruct secret as [secret|], salt as [salt|]; try apply keeps_op_ret. apply keeps_op_bind; [apply keeps_new_uuid|].
    intros id. apply keeps_app_error, keeps_op_call. intros w. apply Hins.
  - apply keeps_with_uuid. intros u. unfold with_uuid. destruct (uuid_Parse tokenID) as [t|] eqn:Et; [|apply keeps_op_ret].
    apply keeps_app_error, keeps_op_call. by eapply Hrev.
  - apply keeps_with_uuid. intros u. apply keeps_with_uuid. intros t. apply keeps_app_error, keeps_op_call, Hsame'. intros w. unfold append_log. by repeat case_match.
  - apply keeps_with_uuid. intros u. apply keeps_app_error, keeps_op_call, Hsame'. done.
  - unfold Delete, with_uuid. destruct (uuid_Parse appID) as [u|] eqn:Eu; [|apply keeps_op_ret]. apply keeps_app_error, keeps_op_call. intros w Hw.
    destruct (ap_apps w !! u); [by eapply Hdel|done].
Qed.
Lemma run_calls_keeps (I : AppsWorld → Prop) l w x : (∀ c, c ∈ l → keeps I (run_call (X := X) retention c)) → I w → I (run_calls retention l (w, x)).1.
Proof.
  revert w x. induction l as [|c l IH]; intros w x Hl Hw; [done|]. cbn [run_calls foldl]. pose proof (Hl c ltac:(by left) w Hw x) as Hc.
  destruct (run_call retention c (w, x)) as [[w' x'] [[]|]]; (apply IH; [intros c' Hc'; apply Hl; by right|done]).
Qed.
Lemma drop_tokens id w tok t : ap_tokens w !! tok = Some t → tk_AppID t ≠ id → ap_tokens (drop_app id w) !! tok = Some t.
Proof. intros Ht Hne. cbn. by apply map_lookup_filter_Some. Qed.
Lemma token_stays tok t c : ¬ deletes (tk_AppID t) c → ¬ revokes tok c → keeps (X := X) (λ w, ap_tokens w !! tok = Some t) (run_call retention c).
Proof.
  intros Hd Hr. apply keeps_token_call.
  - intros f Hf w. by rewrite Hf.
  - intros app salt secret id w Ht. unfold insert_token. repeat case_match; try done. cbn. rewrite lookup_insert_ne; [done|]. congruence.
  - intros app a u k -> Hk w Ht. assert (k ≠ tok) as Hne by (intros ->; by apply Hr). unfold revoke_token. destruct (token_of app k w); [|done]. cbn. by rewrite lookup_insert_ne.
  - intros app id -> Hid w Ht. apply drop_tokens; [done|]. intros <-. by apply Hd.
Qed.
Lemma revoked_stays id tok c : ¬ deletes id c → keeps (X := X) (λ w, ∃ t, ap_tokens w !! tok = Some t ∧ tk_AppID t = id ∧ tk_RevokedAt t ≠ None) (run_call retention c).
Proof.
  intros Hd. apply keeps_token_call.
  - intros f Hf w. by rewrite Hf.
  - intros app salt secret k w (t & Ht & Hrest). exists t. split; [|done]. unfold insert_token. repeat case_match; try done. cbn. rewrite lookup_insert_ne; [done|]. congruence.
  - intros app a u k -> Hk w (t & Ht & Ha & Hrest). unfold revoke_token. destruct (token_of app k w) as [t'|] eqn:Et; [|by exists t]. cbn.
    apply token_of_Some in Et as [Et _]. destruct (decide (k = tok)) as [->|Hne]; [|rewrite lookup_insert_ne by done; by exists t].
    rewrite lookup_insert_eq. eexists. split; [done|]. cbn. split; [congruence|done].
  - intros app k -> Hk w (t & Ht & Ha & Hrest). exists t. split; [|done]. apply drop_tokens; [done|]. intros Hk'. apply Hd. cbn. congruence.
Qed.

Lemma minted_row raw salt app id w x w' x' tok secret : uuid_Parse app = Some id → MintToken (Ok raw) (Ok salt) app (w, x) = ((w', x'), Some (Ok (tok, secret))) →
  secret = RawURL_Encode raw ∧ ∃ t, ap_tokens w' !! tok = Some t ∧ tk_AppID t = id ∧ tk_RevokedAt t = None ∧ tk_salt t = salt ∧ tk_hash t = hashToken salt secret.
Proof.
  intros Happ Hm. assert (wp (X := X) (λ _, True) (MintToken (Ok raw) (Ok salt) app) (λ r w', match r with Ok (tok, secret) =>
    secret = RawURL_Encode raw ∧ ∃ t, ap_tokens w' !! tok = Some t ∧ tk_AppID t = id ∧ tk_RevokedAt t = None ∧ tk_salt t = salt ∧ tk_hash t = hashToken salt secret | _ => True end) w) as Hwp.
  { unfold MintToken, with_uuid. rewrite Happ. apply wp_op_bind, wp_new_uuid. intros k. apply wp_app_error, wp_call; try done. unfold insert_token.
    destruct (ap_apps w !! id), (ap_tokens w !! k) eqn:Ek; cbn; try done. split; [done|]. rewrite lookup_insert_eq. eexists. split; [done|]. done. }
  specialize (Hwp x). by rewrite Hm in Hwp.
Qed.
(** C24: A viewer token opens its app until it is revoked.  The secret given when a
    token is minted verifies after any later calls, with any failures, as long as
    none of them revokes the token or deletes the app; any other secret verifies
    only if it has the same salted digest. *)
Theorem token_opens_until_revoked (raw salt app id tok secret : string) (l : list store_call) (w w' : AppsWorld) (x x' : X)
    (Happ : uuid_Parse app = Some id) (Hmint : MintToken (Ok raw) (Ok salt) app (w, x) = ((w', x'), Some (Ok (tok, secret))))
    (Hl : ∀ c, c ∈ l → ¬ deletes id c ∧ ¬ revokes tok c) :
  let w2 := (run_calls retention l (w', x')).1 in
  secret = RawURL_Encode raw ∧ token_active id tok w2 = true ∧
  ∀ s, verify_token id tok s w2 = true ↔ hashToken salt s = hashToken salt secret.
Proof.
  intros w2. destruct (minted_row _ _ _ _ _ _ _ _ _ _ Happ Hmint) as (Hs & t & Ht & Ha & Hr & Hsalt & Hh).
  assert (ap_tokens w2 !! tok = Some t) as Ht2.
  { apply (run_calls_keeps (λ w, ap_tokens w !! tok = Some t)); [|done]. intros c Hc. destruct (Hl c Hc). apply token_stays; [by rewrite Ha|done]. }
  split; [done|]. unfold token_active, verify_token, token_of. rewrite Ht2. cbn. rewrite bool_decide_true by done. rewrite Hr, Hh, Hsalt. split; [done|]. intros s. apply bool_decide_eq_true.
Qed.
Lemma revoked_row app id tokenID tok w x w' x' : uuid_Parse app = Some id → uuid_Parse tokenID = Some tok →
  RevokeToken app tokenID (w, x) = ((w', x'), Some (Ok ())) → ∃ t, ap_tokens w' !! tok = Some t ∧ tk_AppID t = id ∧ tk_RevokedAt t ≠ None.
Proof.
  intros Happ Htok Hrun. assert (wp (X := X) (λ _, True) (RevokeToken app tokenID) (λ r w', match r with Ok () =>
    ∃ t, ap_tokens w' !! tok = Some t ∧ tk_AppID t = id ∧ tk_RevokedAt t ≠ None | _ => True end) w) as Hwp.
  { unfold RevokeToken, with_uuid. rewrite Happ, Htok. apply wp_app_error, wp_call; try done. unfold revoke_token.
    destruct (token_of id tok w) as [t|] eqn:Et; cbn; [|done]. apply token_of_Some in Et as [_ Ha]. rewrite lookup_insert_eq. by eexists. }
  specialize (Hwp x). by rewrite Hrun in Hwp.
Qed.
(** Revocation is final.  Once a revocation has been answered, no secret
    verifies for that token and it is not active, after any later calls with any
    failures that do not delete the app, minting further tokens included. *)
Theorem revocation_is_final (app id tokenID tok : string) (l : list store_call) (w w' : AppsWorld) (x x' : X)
    (Happ : uuid_Parse app = Some id) (Htok : uuid_Parse tokenID = Some tok) (Hrev : RevokeToken app tokenID (w, x) = ((w', x'), Some (Ok ())))
    (Hl : ∀ c, c ∈ l → ¬ deletes id c) :
  let w2 := (run_calls retention l (w', x')).1 in token_active id tok w2 = false ∧ ∀ s, verify_token id tok s w2 = false.
Proof.
  intros w2. destruct (revoked_row _ _ _ _ _ _ _ _ Happ Htok Hrev) as (t & Ht & Ha & Hr).
  assert (∃ t, ap_tokens w2 !! tok = Some t ∧ tk_AppID t = id ∧ tk_RevokedAt t ≠ None) as (t2 & Ht2 & Ha2 & Hr2).
  { apply (run_calls_keeps (λ w, ∃ t, ap_tokens w !! tok = Some t ∧ tk_AppID t = id ∧ tk_RevokedAt t ≠ None)); [|by exists t]. intros c Hc. apply revoked_stays. by apply Hl. }
  unfold token_active, verify_token, token_of. rewrite Ht2. cbn. rewrite bool_decide_true by done. by destruct (tk_RevokedAt t2).
Qed.
End ViewerTokens.
