(* ===== verification/AppHandlers.v ===== *)
(** * AppHandlers: the author routes of user apps, and the identity of an app
      (pkg/pipelineapi/apps: identity.go, handlers.go)

    Each handler as one operation: who may call it, what it does in which order,
    and its answer.  What encoding/json made of a request's body is given; the
    model of OpenFGA that answers a check is a parameter. *)

From S2P Require Import Prelude GoTime CommitPool Authz RunWorld Tokens Password Calls AppStore.

(** ** OpenFGA, as the authorizer calls it *)

(** A write of a tuple that is there, and a delete of one that is not, change nothing. *)
Definition app_fga_write (t : Tuple) (w : AppsWorld) : AppsWorld * result string () :=
  if bool_decide (t ∈ ap_grants w) then (w, Err "cannot write a tuple which already exists") else (set_app_grants ({[t]} ∪ ap_grants w) w, Ok ()).
Definition app_fga_delete (t : Tuple) (w : AppsWorld) : AppsWorld * result string () :=
  if bool_decide (t ∈ ap_grants w) then (set_app_grants (ap_grants w ∖ {[t]}) w, Ok ()) else (w, Err "cannot delete a tuple which does not exist").
(** What the model of OpenFGA derives from the tuples. *)
Class FgaModel : Type := { derives : gset Tuple → string → string → Object → bool }.

(** ** Requests and answers *)

(** The body of a request: over the limit, not what the route takes, or a value. *)
Inductive json_body (A : Type) : Type :=
| BodyTooLarge
| BodyInvalid (msg : string)
| Body (a : A).
Arguments BodyTooLarge {A}.
Arguments BodyInvalid {A} msg.
Arguments Body {A} a.
(** The caller that auth.WithUser found, and the path. *)
Record AppRequest := MkAppRequest { q_user : option string; q_pid : string; q_name : string }.
Inductive answer : Type :=
| AError (status : Z) (msg : string)
| ANoContent
| APut (app_id version_hash : string)
| AProduction (version : string)
| AToken (token_id token : string)
| ATokens (l : list TokenSummary)
| AApps (l : list AppSummary)
| AApp (a : App) (channels : list ChannelRef) (versions : list Version)
| ALog (l : string * RenderLogRecord)
| ALogs (l : list (string * RenderLogRecord)).

(** A word in quotes. *)
Definition dq (s : string) : string := String dquote (s +:+ String dquote EmptyString).
Definition relationRead : string := "describe_effective".
Definition relationWrite : string := "data_admin".
Definition maxUploadBodyBytes : Z := 8 * 1024 * 1024.

Definition appNamePattern : string := "^[a-z0-9]([a-z0-9-]{0,61}[a-z0-9])?$".
Definition name_edge (c : ascii) : bool := is_lower_byte c || is_digit_byte c.
Definition name_byte (c : ascii) : bool := name_edge c || Ascii.eqb c "-"%char.
(** The match with the pattern. *)
Definition appNameRe (name : string) : bool :=
  (1 <=? slen name)%nat && (slen name <=? 63)%nat && forall_byte name_byte name &&
  match name with String c _ => name_edge c | EmptyString => false end &&
  match cut_last name with Some (_, c) => name_edge c | None => false end.

(** The four base64 alphabets: standard or URL, padded or not. *)
Definition std_char (c : ascii) : option ascii :=
  if Ascii.eqb c "-"%char then Some "+"%char else if Ascii.eqb c "_"%char then Some "/"%char
  else if Ascii.eqb c "+"%char || Ascii.eqb c "/"%char then None else Some c.
Fixpoint from_url (s : string) : option string :=
  match s with EmptyString => Some EmptyString | String c s => c ← std_char c; s ← from_url s; Some (String c s) end.
Definition is_newline (c : ascii) : bool := (code c =? 10)%N || (code c =? 13)%N.
Fixpoint no_newlines (s : string) : string :=
  match s with EmptyString => EmptyString | String c s => if is_newline c then no_newlines s else String c (no_newlines s) end.
(** The digits of a padded text: its length is a multiple of four, at most two pads end it. *)
Definition unpadded (s : string) : option string :=
  let s := no_newlines s in
  if negb (Nat.eqb (slen s mod 4) 0) then None
  else match cut_suffix_byte "="%char s with
       | Some s' => match cut_suffix_byte "="%char s' with Some s'' => Some s'' | None => Some s' end
       | None => Some s
       end.
Definition to_option {E A} (r : result E A) : option A := match r with Ok a => Some a | Err _ => None end.
Definition base64_decoders : list (string → option string) :=
  [λ s, s ← unpadded s; to_option (DecodeString s); λ s, to_option (DecodeString s);
   λ s, s ← unpadded s; s ← from_url s; to_option (DecodeString s); λ s, s ← from_url s; to_option (DecodeString s)].
Fixpoint first_some {A B} (l : list (A → option B)) (a : A) : option B :=
  match l with [] => None | f :: l => match f a with Some b => Some b | None => first_some l a end end.
Definition decodeBase64 (s : string) : result string string :=
  match first_some base64_decoders s with Some b => Ok b | None => Err "apps: not valid base64" end.

Section Handlers.
Context `{UT : !UnicodeTables} `{PL : !PoolLib} `{DO : !DBOrder} `{GZ : !Gzip} `{J : !Jwt} `{UL : !UuidLib} `{FM : !FgaModel} {X : Type} `{F : !Faults X}.

(** ** The identity of an app *)

Definition AppJWTSubject (appUUID : string) : string := AppSubjectPrefix +:+ appUUID.
Definition AppFGASubject (appUUID : string) : string := Object_String (UserObject (AppJWTSubject appUUID)).
(** authz.WriteProjectTuple and DeleteProjectTuple, call by call. *)
Definition write_project_tuple (sub rel lk : string) : Op AppsWorld X (result string ()) :=
  r ← call_err (app_fga_write (project_tuple sub rel lk));
  mret (match r with Err e => if isTupleAlreadyExistsErr e || isAlreadyExistsErr e then Ok () else Err ("write " +:+ rel +:+ " tuple: " +:+ e) | Ok u => Ok u end).
Definition delete_project_tuple (sub rel lk : string) : Op AppsWorld X (result string ()) :=
  r ← call_err (app_fga_delete (project_tuple sub rel lk));
  mret (match r with
        | Err e => if isMissingTupleErr e then Ok () else Err ("delete " +:+ rel +:+ " tuple for user " +:+ quote sub +:+ ": " +:+ e)
        | Ok u => Ok u
        end).
(** [None]: there is no such project. *)
Definition LakekeeperProjectID (pid : string) : Op AppsWorld X (result string (option string)) := read (λ w, ap_projects w !! pid).
Definition resolveProject (appID projectID : string) : Op AppsWorld X (result string string) :=
  if str_empty appID then mret (Err "apps: identity: appID is required")
  else match uuid_Parse projectID with
  | None => mret (Err ("apps: identity: invalid project id " +:+ quote projectID))
  | Some parsed =>
    r ← LakekeeperProjectID parsed;
    mret (match r with
          | Err e => Err ("apps: identity: look up lakekeeper project for " +:+ projectID +:+ ": " +:+ e)
          | Ok None => Err ("apps: identity: look up lakekeeper project for " +:+ projectID +:+ ": apps: not found")
          | Ok (Some lk) => if str_empty lk then Err ("apps: identity: lakekeeper project for " +:+ projectID +:+ " is not provisioned yet") else Ok lk
          end)
  end.
Definition Identity_Register (appID projectID : string) : Op AppsWorld X (result string ()) :=
  try_op (resolveProject appID projectID) (λ lk,
  r ← write_project_tuple (AppJWTSubject appID) RelationViewer lk;
  mret (map_err (λ e, "apps: register identity for app " +:+ appID +:+ ": " +:+ e) r)).
Definition Identity_Unregister (appID projectID : string) : Op AppsWorld X (result string ()) :=
  try_op (resolveProject appID projectID) (λ lk,
  r ← delete_project_tuple (AppJWTSubject appID) RelationViewer lk;
  mret (map_err (λ e, "apps: unregister identity for app " +:+ appID +:+ ": " +:+ e) r)).
(** [rand]: what crypto/rand gave for the id of the token. *)
Definition Identity_Mint (signer : option Signer) (rand : result string string) (appID projectID : string) : Op AppsWorld X (result string string) :=
  try_op (resolveProject appID projectID) (λ lk,
  now ← local ap_now;
  mret (match MintAppToken now signer rand appID lk with
        | Ok (t, _) => Ok t
        | Err e => Err ("apps: mint app token for " +:+ appID +:+ ": " +:+ e)
        end)).

(** ** Shared plumbing *)

(** Whether an error of the authorizer wraps ErrAuthzUnavailable. *)
Variable unavailable : string → bool.
Definition Authz_Check (user relation : string) (obj : Object) : Op AppsWorld X (result string bool) :=
  read (λ w, derives (ap_grants w) user relation obj).
Definition authorize (q : AppRequest) (relation : string) (k : string → string → Op AppsWorld X answer) : Op AppsWorld X answer :=
  match q_user q with
  | None => mret (AError 401 "not authenticated")
  | Some user =>
    match uuid_Parse (q_pid q) with
    | None => mret (AError 400 "invalid project id")
    | Some pid =>
      r ← LakekeeperProjectID pid;
      match r with
      | Err _ => mret (AError 500 "get project")
      | Ok None => mret (AError 404 "project not found")
      | Ok (Some lk) =>
        if str_empty lk then mret (AError 503 "project authz not yet provisioned (lakekeeper project pending)")
        else
          r ← Authz_Check (Object_String (UserObject user)) relation (ProjectObject lk);
          match r with
          | Err e => mret (if unavailable e then AError 503 "authz backend unavailable" else AError 500 "check authz")
          | Ok true => k user pid
          | Ok false => mret (AError 403 "forbidden")
          end
      end
    end
  end.
Definition resolveApp (q : AppRequest) (relation : string) (k : App → string → Op AppsWorld X answer) : Op AppsWorld X answer :=
  authorize q relation (λ user pid,
  r ← Get pid (q_name q);
  match r with
  | Ok app => k app user
  | Err (ErrNotFound _) => mret (AError 404 "app not found")
  | Err _ => mret (AError 500 "get app")
  end).
Definition readJSONBody {A} (body : json_body A) (k : A → Op AppsWorld X answer) : Op AppsWorld X answer :=
  match body with
  | BodyTooLarge => mret (AError 413 ("body exceeds " +:+ itoa maxUploadBodyBytes +:+ " bytes"))
  | BodyInvalid e => mret (AError 400 ("invalid JSON body: " +:+ e))
  | Body a => k a
  end.
Definition readBundle (body : json_body string) (k : string → Op AppsWorld X answer) : Op AppsWorld X answer :=
  readJSONBody body (λ b64,
  if str_empty b64 then mret (AError 400 (dq "bundle_base64" +:+ " is required"))
  else match decodeBase64 b64 with
  | Err _ => mret (AError 400 "bundle_base64 is not valid base64")
  | Ok bundle => if str_empty bundle then mret (AError 400 "bundle is empty") else k bundle
  end).

(** ** The routes *)

Definition get_or_create (projectID name : string) : Op AppsWorld X (result aerr App) :=
  app ← Get projectID name;
  match app with
  | Err (ErrNotFound _) =>
    app ← Create projectID name;
    match app with Err ErrAlreadyExists => Get projectID name | r => mret r end
  | r => mret r
  end.
Definition ensure_registered (app : App) (k : App → Op AppsWorld X answer) : Op AppsWorld X answer :=
  let a := app_Row app in
  if a_FGARegistered a then k app
  else
    r ← Identity_Register (app_ID app) (a_ProjectID a);
    match r with
    | Err _ => mret (AError 503 "could not register the app identity; retry")
    | Ok _ =>
      r ← SetFGARegistered (app_ID app);
      match r with
      | Err _ => mret (AError 500 "record app identity registration")
      | Ok _ => k (MkApp (app_ID app) (MkAppRow (a_ProjectID a) (a_Name a) true (a_CreatedAt a)))
      end
    end.
Definition upsertApp (projectID name : string) (k : App → Op AppsWorld X answer) : Op AppsWorld X answer :=
  app ← get_or_create projectID name;
  match app with Err _ => mret (AError 500 "get or create app") | Ok app => ensure_registered app k end.
Definition handlePutApp (q : AppRequest) (body : json_body string) : Op AppsWorld X answer :=
  authorize q relationWrite (λ _ pid,
  if negb (appNameRe (q_name q)) then mret (AError 400 ("invalid app name: must be a DNS label matching " +:+ appNamePattern))
  else readBundle body (λ bundle,
  upsertApp pid (q_name q) (λ app,
  r ← PutVersion (app_ID app) bundle;
  mret (match r with
        | Ok v => APut (app_ID app) (v_Hash (ver_Row v))
        | Err ErrBundleTooLarge => AError 413 ("bundle exceeds the " +:+ itoa MaxBundleBytes +:+ " byte limit")
        | Err ErrProjectQuota => AError 409 ("project app-bundle storage quota (" +:+ itoa MaxProjectBytes +:+ " bytes) exceeded; delete unused apps or versions")
        | Err _ => AError 500 "store app version"
        end)))).
Definition handleListApps (q : AppRequest) : Op AppsWorld X answer :=
  authorize q relationRead (λ _ pid,
  r ← List pid; mret (match r with Ok l => AApps l | Err _ => AError 500 "list apps" end)).
Definition handleGetApp (q : AppRequest) : Op AppsWorld X answer :=
  resolveApp q relationRead (λ app _,
  c ← Channels (app_ID app);
  match c with
  | Err _ => mret (AError 500 "get app channels")
  | Ok cs => v ← ListVersions (app_ID app) 0; mret (match v with Ok vs => AApp app cs vs | Err _ => AError 500 "list app versions" end)
  end).
(** The grant goes before the row. *)
Definition handleDeleteApp (q : AppRequest) : Op AppsWorld X answer :=
  resolveApp q relationWrite (λ app _,
  r ← Identity_Unregister (app_ID app) (a_ProjectID (app_Row app));
  match r with
  | Err _ => mret (AError 503 "could not revoke the app identity; the app was NOT deleted, retry")
  | Ok _ =>
    r ← Delete (app_ID app);
    mret (match r with Ok _ => ANoContent | Err (ErrNotFound _) => AError 404 "app not found" | Err _ => AError 500 "delete app" end)
  end).
(** [expectedProduction]: [None] when it is null or missing. *)
Definition handlePromote (q : AppRequest) (body : json_body (string * option string)) : Op AppsWorld X answer :=
  resolveApp q relationWrite (λ app _,
  readJSONBody body (λ '(version, expectedProduction),
  if str_empty version then mret (AError 400 (dq "version" +:+ " is required (the content hash to promote)"))
  else
    r ← Promote (app_ID app) version (default EmptyString expectedProduction);
    mret (match r with
          | Ok _ => AProduction version
          | Err ErrCASMismatch => AError 409 "production has moved since expectedProduction was read; re-read the app and retry"
          | Err (ErrNotFound _) => AError 400 "unknown version hash for this app"
          | Err _ => AError 500 "promote app version"
          end))).
Definition handleLogs (q : AppRequest) (requestID limit : string) : Op AppsWorld X answer :=
  resolveApp q relationRead (λ app _,
  if negb (str_empty requestID) then
    match uuid_Parse requestID with
    | None => mret (AError 400 "invalid request_id")
    | Some _ =>
      r ← GetRenderLogs (app_ID app) requestID 0;
      mret (match r with
            | Err (ErrNotFound _) => AError 404 "no render log for that request_id"
            | Err _ | Ok [] => AError 500 "get render log"
            | Ok (l :: _) => ALog l
            end)
    end
  else
    let list (n : Z) := r ← GetRenderLogs (app_ID app) EmptyString n; mret (match r with Ok l => ALogs l | Err _ => AError 500 "list render logs" end) in
    if str_empty limit then list 0%Z
    else match Atoi limit with
    | Some n => if (n <=? 0)%Z then mret (AError 400 "invalid limit") else list (Z.min n (Z.of_nat MaxRenderLogsPerApp))
    | None => mret (AError 400 "invalid limit")
    end).
Definition handleCreateToken (secret salt : result string string) (q : AppRequest) : Op AppsWorld X answer :=
  resolveApp q relationWrite (λ app _,
  r ← MintToken secret salt (app_ID app);
  mret (match r with
        | Ok (id, secret) => AToken id ("vw_" +:+ id +:+ "." +:+ secret)
        | Err _ => AError 500 "mint viewer token"
        end)).
Definition handleListTokens (q : AppRequest) : Op AppsWorld X answer :=
  resolveApp q relationRead (λ app _,
  r ← ListTokens (app_ID app); mret (match r with Ok l => ATokens l | Err _ => AError 500 "list viewer tokens" end)).
Definition handleDeleteToken (q : AppRequest) (tokenID : string) : Op AppsWorld X answer :=
  resolveApp q relationWrite (λ app _,
  match uuid_Parse tokenID with
  | None => mret (AError 400 "invalid token id")
  | Some _ =>
    r ← RevokeToken (app_ID app) tokenID;
    mret (match r with Ok _ => ANoContent | Err (ErrNotFound _) => AError 404 "viewer token not found" | Err _ => AError 500 "revoke viewer token" end)
  end).

(** The routes Register installs. *)
Inductive author_call : Type :=
| RoutePutApp (body : json_body string)
| RouteListApps
| RouteGetApp
| RouteDeleteApp
| RoutePromote (body : json_body (string * option string))
| RouteLogs (requestID limit : string)
| RouteCreateToken (secret salt : result string string)
| RouteListTokens
| RouteDeleteToken (tokenID : string).
Definition author_route (q : AppRequest) (c : author_call) : Op AppsWorld X answer :=
  match c with
  | RoutePutApp body => handlePutApp q body
  | RouteListApps => handleListApps q
  | RouteGetApp => handleGetApp q
  | RouteDeleteApp => handleDeleteApp q
  | RoutePromote body => handlePromote q body
  | RouteLogs requestID limit => handleLogs q requestID limit
  | RouteCreateToken secret salt => handleCreateToken secret salt q
  | RouteListTokens => handleListTokens q
  | RouteDeleteToken tokenID => handleDeleteToken q tokenID
  end.
Definition relation_of (c : author_call) : string :=
  match c with RouteListApps | RouteGetApp | RouteLogs _ _ | RouteListTokens => relationRead | _ => relationWrite end.
End Handlers.
