(* ===== verification/AppGrants.v ===== *)
(** * AppGrants: what the author routes of user apps may change
      (pkg/pipelineapi/apps: identity.go, handlers.go, store.go)

    Who may change an app, that nobody touches another app, and that every grant
    of an app's identity belongs to an app that exists, wherever a request ends;
    with the two histories in which the grant and the row fall apart. *)

From S2P Require Import Prelude GoTime CommitPool Authz RunWorld Tokens Password Calls AppStore AppInv AppHistory AppHandlers.

(** The ids of github.com/google/uuid are their own canonical text. *)
Class UuidLaws `{UL : !UuidLib} : Prop := uuid_canonical : ∀ s u, uuid_Parse s = Some u → uuid_Parse u = Some u.
Class DrawnUuids (X : Type) `{UL : !UuidLib} `{F : !Faults X} : Prop := drawn_uuid : ∀ x : X, uuid_Parse (uuid_New x).2 = Some (uuid_New x).2.

Section Author.
Context `{UT : !UnicodeTables} `{PL : !PoolLib} `{DO : !DBOrder} `{GZ : !Gzip} `{J : !Jwt} `{UL : !UuidLib} `{FM : !FgaModel} {X : Type} `{F : !Faults X}.
Variable unavailable : string → bool.

(** ** Who may change what *)

Definition allowed (q : AppRequest) (relation : string) (w : AppsWorld) : Prop :=
  ∃ user pid lk, q_user q = Some user ∧ uuid_Parse (q_pid q) = Some pid ∧ ap_projects w !! pid = Some lk ∧ lk ≠ EmptyString ∧
    derives (ap_grants w) (Object_String (UserObject user)) relation (ProjectObject lk) = true.
Definition refusals : list Z := [401; 400; 404; 503; 500; 403]%Z.
Lemma wp_authorize C q relation k Q w : C w → (∀ status msg, status ∈ refusals → Q (AError status msg) w) →
  (∀ user pid, allowed q relation w → uuid_Parse (q_pid q) = Some pid → wp C (k user pid) Q w) → wp (X := X) C (authorize unavailable q relation k) Q w.
Proof.
  intros HC He Hk. unfold authorize. destruct (q_user q) as [user|] eqn:Eu; [|apply wp_op_ret, He; set_solver].
  destruct (uuid_Parse (q_pid q)) as [pid|] eqn:Ep; [|apply wp_op_ret, He; set_solver].
  apply wp_op_bind, wp_read; [done| |intros m; apply wp_op_ret, He; set_solver]. destruct (ap_projects w !! pid) as [lk|] eqn:El; [|apply wp_op_ret, He; set_solver].
  destruct (str_empty lk) eqn:Ee; [apply wp_op_ret, He; set_solver|]. apply wp_op_bind, wp_read; [done| |intros m; apply wp_op_ret; destruct (unavailable m); apply He; set_solver].
  destruct (derives _ _ _ _) eqn:Ed; [|apply wp_op_ret, He; set_solver]. apply Hk; [|done]. exists user, pid, lk. split_and!; try done. by destruct lk.
Qed.
Lemma wp_Get C pid name Q w : C w → (∀ id a, ap_apps w !! id = Some a → is_app pid name a = true → Q (Ok (MkApp id a)) w) → (find_app pid name w = None → Q (Err (ErrNotFound "app")) w) → (∀ m, Q (Err (AppError m)) w) →
  wp (X := X) C (Get pid name) Q w.
Proof.
  intros HC Hok Hn He. unfold Get. apply wp_app_error, wp_read; [done| |intros m; apply He]. destruct (find_app pid name w) as [[id a]|] eqn:Ef; [|by apply Hn].
  apply (find_scan (λ _ a, is_app pid name a)) in Ef as [Ha Hi]. by apply Hok.
Qed.
Lemma wp_resolveApp C q relation k Q w : C w → (∀ status msg, status ∈ refusals → Q (AError status msg) w) →
  (∀ pid id a user, allowed q relation w → uuid_Parse (q_pid q) = Some pid → ap_apps w !! id = Some a → is_app pid (q_name q) a = true → wp C (k (MkApp id a) user) Q w) →
  wp (X := X) C (resolveApp unavailable q relation k) Q w.
Proof.
  intros HC He Hk. unfold resolveApp. apply wp_authorize; [done..|]. intros user pid Hal Hp. apply wp_op_bind, wp_Get; [done|..].
  - intros id a Ha Hi. by eapply Hk.
  - intros _. apply wp_op_ret, He. set_solver.
  - intros m. apply wp_op_ret, He. set_solver.
Qed.

(** ** Apps that a request is not about *)

(** All that belongs to an app is the same. *)
Record same_app (id : string) (w w' : AppsWorld) : Prop := MkSameApp {
  sm_row : ap_apps w' !! id = ap_apps w !! id;
  sm_versions : ∀ k v, v_AppID v = id → ap_versions w' !! k = Some v ↔ ap_versions w !! k = Some v;
  sm_channels : ∀ ch, ap_channels w' !! (id, ch) = ap_channels w !! (id, ch);
  sm_tokens : ∀ k t, tk_AppID t = id → ap_tokens w' !! k = Some t ↔ ap_tokens w !! k = Some t;
  sm_logs : ∀ k l, rl_AppID l = id → ap_logs w' !! k = Some l ↔ ap_logs w !! k = Some l;
  sm_grants : ∀ rel lk, project_tuple (AppJWTSubject id) rel lk ∈ ap_grants w' ↔ project_tuple (AppJWTSubject id) rel lk ∈ ap_grants w;
}.
Lemma same_refl id w : same_app id w w.
Proof. done. Qed.
Lemma same_trans id w1 w2 w3 : same_app id w1 w2 → same_app id w2 w3 → same_app id w1 w3.
Proof.
  intros [A1 A2 A3 A4 A5 A6] [B1 B2 B3 B4 B5 B6]. split; [congruence|..].
  - intros k v Hv. by rewrite B2, A2.
  - intros ch. by rewrite B3.
  - intros k t Ht. by rewrite B4, A4.
  - intros k l Hl. by rewrite B5, A5.
  - intros rel lk. by rewrite B6, A6.
Qed.
Lemma same_insert_app id pid name new w : is_Some (ap_apps w !! id) → same_app id w (insert_app pid name new w).1.
Proof. intros [a Ha]. unfold insert_app. repeat case_match; try done. split; try done. cbn. apply lookup_insert_ne. congruence. Qed.
Lemma same_mark id id' w : id ≠ id' → same_app id w (mark_registered id' w).
Proof. intros Hne. split; try done. cbn. by apply lookup_alter_ne. Qed.
Lemma same_drop id id' w : id ≠ id' → same_app id w (drop_app id' w).
Proof.
  intros Hne. split; cbn; try done.
  - by apply lookup_delete_ne.
  - intros k v Hv. rewrite map_lookup_filter_Some. cbn. split; [tauto|]. intros Hk. split; [done|congruence].
  - intros ch. rewrite map_lookup_filter. destruct (ap_channels w !! (id, ch)); cbn; [|done]. by rewrite option_guard_True.
  - intros k v Hv. rewrite map_lookup_filter_Some. cbn. split; [tauto|]. intros Hk. split; [done|congruence].
  - intros k v Hv. rewrite map_lookup_filter_Some. cbn. split; [tauto|]. intros Hk. split; [done|congruence].
Qed.
Lemma same_put id app bundle k w : id ≠ app → same_app id w (put_version app bundle k w).1.
Proof.
  intros Hne. unfold put_version. destruct (ap_apps w !! app); [|done].
  assert (∀ vid w1, same_app id w w1 → same_app id w (gcVersions app (point_channel app "draft" vid w1))) as Hfin.
  { intros vid w1 Hs. eapply same_trans; [exact Hs|]. split; try done; cbn.
    - intros i v Hv. rewrite map_lookup_filter_Some. cbn. split; [tauto|]. intros Hi. split; [done|]. intros [Ha _]. congruence.
    - intros ch. apply lookup_insert_ne. congruence. }
  destruct (find_version _ _ _) as [[vid v]|]; [by apply Hfin|]. destruct (_ <? _)%Z; [done|]. destruct (ap_versions w !! k) eqn:Ek; [done|]. apply Hfin.
  split; try done. cbn. intros i v Hv. rewrite lookup_insert_Some. split; [intros [[<- <-]|[_ H]]; [by cbn in Hv|done]|]. intros Hi. right. split; [congruence|done].
Qed.
Lemma same_swap id app target expected w : id ≠ app → same_app id w (swap_production app target expected w).1.
Proof.
  intros Hne. unfold swap_production. assert (same_app id w (point_channel app "production" target w)) as H by (split; try done; cbn; intros ch; apply lookup_insert_ne; congruence).
  destruct (ap_apps w !! app), (ap_versions w !! target); repeat case_match; done.
Qed.
Lemma same_insert_token id app salt secret k w : id ≠ app → same_app id w (insert_token app salt secret k w).1.
Proof.
  intros Hne. unfold insert_token. destruct (ap_apps w !! app), (ap_tokens w !! k) eqn:Ek; try done. split; try done. cbn. intros i t Ht.
  rewrite lookup_insert_Some. split; [intros [[<- <-]|[_ H]]; [by cbn in Ht|done]|]. intros Hi. right. split; [congruence|done].
Qed.
Lemma same_revoke_token id app k w : id ≠ app → same_app id w (revoke_token app k w).1.
Proof.
  intros Hne. unfold revoke_token. destruct (token_of app k w) as [t|] eqn:Et; [|done]. apply token_of_Some in Et as [Et Ha]. split; try done. cbn. intros i t' Ht.
  rewrite lookup_insert_Some. split; [intros [[<- <-]|[_ H]]; [cbn in Ht; congruence|done]|]. intros Hi. right. split; [congruence|done].
Qed.
Lemma app_tuple_inj id id' rel rel' lk lk' : project_tuple (AppJWTSubject id) rel lk = project_tuple (AppJWTSubject id') rel' lk' → id = id' ∧ rel = rel' ∧ lk = lk'.
Proof. unfold project_tuple, UserObject, AppJWTSubject, AppSubjectPrefix. cbn. by intros [= Hid Hrel Hlk]. Qed.
Lemma same_fga_write id id' rel lk w : id ≠ id' → same_app id w (app_fga_write (project_tuple (AppJWTSubject id') rel lk) w).1.
Proof.
  intros Hne. unfold app_fga_write. case_bool_decide; [done|]. split; try done. cbn. intros rel' lk'. rewrite elem_of_union, elem_of_singleton.
  split; [|by right]. intros [(Hid & _)%app_tuple_inj|]; [congruence|done].
Qed.
Lemma same_fga_delete id id' rel lk w : id ≠ id' → same_app id w (app_fga_delete (project_tuple (AppJWTSubject id') rel lk) w).1.
Proof.
  intros Hne. unfold app_fga_delete. case_bool_decide; [|done]. split; try done. cbn. intros rel' lk'. rewrite elem_of_difference, elem_of_singleton.
  split; [tauto|]. intros H1. split; [done|]. intros (Hid & _)%app_tuple_inj. congruence.
Qed.

(** *** The ids in the tables are canonical *)

Definition canonical (w : AppsWorld) : Prop :=
  ∀ id a, ap_apps w !! id = Some a → uuid_Parse id = Some id ∧ uuid_Parse (a_ProjectID a) = Some (a_ProjectID a).
Lemma canonical_insert pid name id w : uuid_Parse id = Some id → uuid_Parse pid = Some pid → canonical w → canonical (insert_app pid name id w).1.
Proof.
  intros Hid Hp Hw. unfold insert_app. repeat case_match; try done. intros k a. cbn. intros [[<- <-]|[_ Ha]]%lookup_insert_Some; [done|by apply Hw].
Qed.
Lemma canonical_mark id w : canonical w → canonical (mark_registered id w).
Proof. intros Hw k a. cbn. intros [(-> & a' & Ha & ->)|[_ Ha]]%lookup_alter_Some; [by apply (Hw _ a')|by apply Hw]. Qed.
Lemma canonical_drop id w : canonical w → canonical (drop_app id w).
Proof. intros Hw k a. cbn. intros [_ Ha]%lookup_delete_Some. by apply Hw. Qed.

(** *** One request *)

Context `{UW : !UuidLaws} `{DU : !DrawnUuids X}.
Section Isolated.
Variable other : string.
Variable w0 : AppsWorld.
Hypothesis Hother : is_Some (ap_apps w0 !! other).
(** What the rest of a request on another app keeps. *)
Definition untouched (w : AppsWorld) : Prop := same_app other w0 w.
Lemma untouched_write {A} (what : string) (f : AppsWorld → AppsWorld * result aerr A) :
  (∀ w, same_app other w (f w).1) → keeps (X := X) untouched (app_error what (call f)).
Proof. intros Hf. apply keeps_app_error, keeps_op_call. intros w Hw. eapply same_trans; [exact Hw|done]. Qed.
Lemma untouched_read {A} (what : string) (f : AppsWorld → result aerr A) : keeps (X := X) untouched (app_error what (read f)).
Proof. apply keeps_app_error, keeps_read. Qed.
Lemma untouched_new_app w pid name id : untouched w → same_app other w (insert_app pid name id w).1.
Proof. intros Hw. apply same_insert_app. by rewrite (sm_row _ _ _ Hw). Qed.
Lemma with_canonical {A} what id (f : string → Op AppsWorld X (result aerr A)) : uuid_Parse id = Some id → with_uuid what id f = f id.
Proof. unfold with_uuid. by intros ->. Qed.

Variable id : string.
Hypothesis Hid : uuid_Parse id = Some id.
Hypothesis Hne : other ≠ id.
Lemma untouched_put bundle : keeps (X := X) untouched (PutVersion id bundle).
Proof.
  unfold PutVersion. destruct (_ <? _)%Z; [apply keeps_op_ret|]. rewrite with_canonical by done. apply keeps_op_bind; [apply keeps_new_uuid|]. intros k.
  apply untouched_write. intros w. by apply same_put.
Qed.
Lemma untouched_promote version expected : keeps (X := X) untouched (Promote id version expected).
Proof.
  unfold Promote. rewrite with_canonical by done. apply keeps_try; [apply untouched_read|]. intros t. apply untouched_write. intros w. by apply same_swap.
Qed.
Lemma untouched_mint secret salt : keeps (X := X) untouched (MintToken secret salt id).
Proof.
  unfold MintToken. rewrite with_canonical by done. destruct secret, salt; try apply keeps_op_ret. apply keeps_op_bind; [apply keeps_new_uuid|]. intros k.
  apply untouched_write. intros w. by apply same_insert_token.
Qed.
Lemma untouched_revoke tok : keeps (X := X) untouched (RevokeToken id tok).
Proof.
  unfold RevokeToken. rewrite with_canonical by done. apply keeps_with_uuid. intros t. apply untouched_write. intros w. by apply same_revoke_token.
Qed.
Lemma untouched_mark : keeps (X := X) untouched (SetFGARegistered id).
Proof. unfold SetFGARegistered. rewrite with_canonical by done. apply untouched_write. intros w. by apply same_mark. Qed.
Lemma untouched_delete : keeps (X := X) untouched (Delete id).
Proof.
  unfold Delete. rewrite with_canonical by done. apply untouched_write. intros w. destruct (ap_apps w !! id); [by apply same_drop|done].
Qed.
Lemma keeps_resolveProject (I : AppsWorld → Prop) appID pid : keeps (X := X) I (resolveProject appID pid).
Proof.
  unfold resolveProject. destruct (str_empty appID); [apply keeps_op_ret|]. destruct (uuid_Parse pid); [|apply keeps_op_ret].
  apply keeps_op_bind; [apply keeps_read|]. intros r. apply keeps_op_ret.
Qed.
Lemma untouched_register pid : keeps (X := X) untouched (Identity_Register id pid).
Proof.
  unfold Identity_Register. apply keeps_try; [apply keeps_resolveProject|]. intros lk. apply keeps_op_bind; [|intros r; apply keeps_op_ret].
  apply keeps_op_bind; [|intros r; apply keeps_op_ret]. apply keeps_call_err. intros w Hw. eapply same_trans; [exact Hw|by apply same_fga_write].
Qed.
Lemma untouched_unregister pid : keeps (X := X) untouched (Identity_Unregister id pid).
Proof.
  unfold Identity_Unregister. apply keeps_try; [apply keeps_resolveProject|]. intros lk. apply keeps_op_bind; [|intros r; apply keeps_op_ret].
  apply keeps_op_bind; [|intros r; apply keeps_op_ret]. apply keeps_call_err. intros w Hw. eapply same_trans; [exact Hw|by apply same_fga_delete].
Qed.
(** The part of an upload after the row of the app is known. *)
Lemma untouched_registered a (k : App → Op AppsWorld X answer) : (∀ row, keeps untouched (k (MkApp id row))) → keeps untouched (ensure_registered (MkApp id a) k).
Proof.
  intros Hk. unfold ensure_registered. cbn [app_Row app_ID]. destruct (a_FGARegistered a); [apply Hk|]. apply keeps_op_bind; [apply untouched_register|]. intros [u|e]; [|apply keeps_op_ret].
  apply keeps_op_bind; [apply untouched_mark|]. intros [u'|e]; [apply Hk|apply keeps_op_ret].
Qed.
End Isolated.

(** The row an upload goes on with is the one of the app of that name. *)
Lemma wp_get_or_create (I : AppsWorld → Prop) pid name w : uuid_Parse pid = Some pid → canonical w → I w →
  (∀ id w', uuid_Parse id = Some id → canonical w' → I w' → I (insert_app pid name id w').1) →
  wp (X := X) (λ w', canonical w' ∧ I w') (get_or_create pid name) (λ r w', canonical w' ∧ I w' ∧
    ∀ app, r = Ok app → ap_apps w' !! app_ID app = Some (app_Row app) ∧ is_app pid name (app_Row app) = true) w.
Proof.
  intros Hp Hc HI Hins. unfold get_or_create. apply wp_op_bind, wp_Get; [done| |intros Hn|].
  - intros id a Ha Hi. apply wp_op_ret. split_and!; [done..|]. by intros app [= <-].
  - apply wp_op_bind. unfold Create, new_uuid. intros x. unfold mbind, Op_bind at 1. cbn [fst snd]. pose proof (drawn_uuid x) as Hid. destruct (uuid_New x) as [x1 id]. cbn in Hid.
    revert x1. change (wp (λ w', canonical w' ∧ I w') (app_error "apps: insert app: " (call (insert_app pid name id))) (λ app, wp (λ w', canonical w' ∧ I w') match app with Err ErrAlreadyExists => Get pid name | r => mret r end
      (λ r w', canonical w' ∧ I w' ∧ ∀ app, r = Ok app → ap_apps w' !! app_ID app = Some (app_Row app) ∧ is_app pid name (app_Row app) = true)) w).
    assert (canonical (insert_app pid name id w).1) as Hc' by by apply canonical_insert.
    pose proof (Hins id w Hid Hc HI) as HI'.
    apply wp_app_error, wp_call; [|by intros m; apply wp_op_ret; split_and!|by intros m; apply wp_op_ret; split_and!|done|done].
    destruct (insert_app pid name id w) as [w' r] eqn:Er. cbn [fst snd] in *. destruct r as [app|e].
    + apply wp_op_ret. split_and!; [done..|]. intros app' [= <-]. unfold insert_app in Er.
      destruct (find_app pid name w), (ap_apps w !! id), (ap_projects w !! pid); try done. injection Er as <- <-. cbn. rewrite lookup_insert_eq. split; [done|].
      unfold is_app. cbn. by rewrite !bool_decide_true.
    + destruct e; try (by apply wp_op_ret; split_and!). apply wp_Get; [done|..].
      * intros id' a Ha Hi. split_and!; [done..|]. by intros app [= <-].
      * intros _. by split_and!.
      * intros m. by split_and!.
  - intros m. apply wp_op_ret. by split_and!.
Qed.
Lemma wp_of_keeps {A} (I : AppsWorld → Prop) (m : Op AppsWorld X A) w : keeps I m → I w → wp I m (λ _, I) w.
Proof. intros Hm Hw. by apply Hm. Qed.
Lemma author_untouched q c w other a pid : canonical w → ap_apps w !! other = Some a → uuid_Parse (q_pid q) = Some pid → is_app pid (q_name q) a = false →
  wp (X := X) (same_app other w) (author_route unavailable q c) (λ _, same_app other w) w.
Proof.
  intros Hc Ha Hp Hi. assert (is_Some (ap_apps w !! other)) as Hsome by by eexists.
  assert (∀ id b, ap_apps w !! id = Some b → is_app pid (q_name q) b = true → uuid_Parse id = Some id ∧ other ≠ id) as Hid.
  { intros id b Hb Hib. split; [by apply (Hc _ b)|]. intros ->. congruence. }
  assert (∀ relation k, (∀ id b user, uuid_Parse id = Some id → other ≠ id → keeps (untouched other w) (k (MkApp id b) user)) →
    wp (X := X) (same_app other w) (resolveApp unavailable q relation k) (λ _, same_app other w) w) as Hres.
  { intros relation k Hk. apply wp_resolveApp; [done..|]. intros pid' id b user _ Hp' Hb Hib. rewrite Hp in Hp'. injection Hp' as <-.
    destruct (Hid id b Hb Hib). by apply Hk. }
  destruct c; cbn [author_route].
  - unfold handlePutApp. apply wp_authorize; [done..|]. intros user pid' _ Hp'. rewrite Hp in Hp'. injection Hp' as <-.
    destruct (negb _); [by apply wp_op_ret|]. unfold readBundle, readJSONBody. destruct body as [|e|b64]; [by apply wp_op_ret..|]. destruct (str_empty b64); [by apply wp_op_ret|].
    destruct (decodeBase64 b64) as [bundle|]; [|by apply wp_op_ret]. destruct (str_empty bundle); [by apply wp_op_ret|]. unfold upsertApp. apply wp_op_bind.
    eapply wp_mono; [apply (wp_get_or_create (untouched other w)); [by eapply uuid_canonical|done|done|]|by intros w' [_ H]|].
    { intros id w' _ _ Hw'. eapply same_trans; [exact Hw'|]. by eapply untouched_new_app. }
    intros [app|e] w' (Hc' & Hw' & Happ); [|by apply wp_op_ret]. destruct (Happ app eq_refl) as [Hrow Hia]. destruct app as [id row]. cbn in Hrow, Hia.
    assert (uuid_Parse id = Some id) as Hcid by by apply (Hc' _ row). assert (other ≠ id) as Hne.
    { intros <-. rewrite (sm_row _ _ _ Hw'), Ha in Hrow. congruence. }
    apply (wp_of_keeps (untouched other w)); [|done]. apply untouched_registered; [done..|]. intros row'. apply keeps_op_bind; [by apply untouched_put|]. intros r. apply keeps_op_ret.
  - apply wp_authorize; [done..|]. intros user pid' _ _. apply (wp_of_keeps (untouched other w)); [|done]. apply keeps_op_bind; [apply untouched_read|]. intros r. apply keeps_op_ret.
  - apply Hres. intros id b user Hcid Hne. apply keeps_op_bind; [apply keeps_with_uuid; intros u; apply untouched_read|]. intros [cs|]; [|apply keeps_op_ret].
    apply keeps_op_bind; [apply keeps_with_uuid; intros u; apply untouched_read|]. intros r. apply keeps_op_ret.
  - apply Hres. intros id b user Hcid Hne. apply keeps_op_bind; [by apply untouched_unregister|]. intros [u|]; [|apply keeps_op_ret].
    apply keeps_op_bind; [by apply untouched_delete|]. intros r. apply keeps_op_ret.
  - apply Hres. intros id b user Hcid Hne. unfold readJSONBody. destruct body as [|e|[version expected]]; [apply keeps_op_ret..|]. destruct (str_empty version); [apply keeps_op_ret|].
    apply keeps_op_bind; [by apply untouched_promote|]. intros r. apply keeps_op_ret.
  - apply Hres. intros id b user Hcid Hne. assert (∀ req n, keeps (X := X) (untouched other w) (GetRenderLogs id req n)) as Hlogs.
    { intros req n. apply keeps_with_uuid. intros u. destruct (str_empty req); [apply untouched_read|]. apply keeps_with_uuid. intros u'. apply untouched_read. }
    destruct (negb (str_empty requestID)).
    + destruct (uuid_Parse requestID); [|apply keeps_op_ret]. apply keeps_op_bind; [apply Hlogs|]. intros r. apply keeps_op_ret.
    + destruct (str_empty limit); [apply keeps_op_bind; [apply Hlogs|]; intros r; apply keeps_op_ret|].
      destruct (Atoi limit) as [n|]; [|apply keeps_op_ret]. destruct (n <=? 0)%Z; [apply keeps_op_ret|]. apply keeps_op_bind; [apply Hlogs|]. intros r. apply keeps_op_ret.
  - apply Hres. intros id b user Hcid Hne. apply keeps_op_bind; [by apply untouched_mint|]. intros r. apply keeps_op_ret.
  - apply Hres. intros id b user Hcid Hne. apply keeps_op_bind; [apply keeps_with_uuid; intros u; apply untouched_read|]. intros r. apply keeps_op_ret.
  - apply Hres. intros id b user Hcid Hne. destruct (uuid_Parse tokenID); [|apply keeps_op_ret]. apply keeps_op_bind; [by apply untouched_revoke|]. intros r. apply keeps_op_ret.
Qed.

Lemma author_unauthorized q c w :
  wp (X := X) (λ w', w' = w ∨ allowed q (relation_of c) w) (author_route unavailable q c) (λ r w',
    (w' = w ∧ ∃ status msg, r = AError status msg ∧ status ∈ refusals) ∨ allowed q (relation_of c) w) w.
Proof.
  assert (∀ (m : Op AppsWorld X answer), allowed q (relation_of c) w → wp (λ w', w' = w ∨ allowed q (relation_of c) w) m (λ r w',
    (w' = w ∧ ∃ status msg, r = AError status msg ∧ status ∈ refusals) ∨ allowed q (relation_of c) w) w) as Hany.
  { intros m Hal x. destruct (m (w, x)) as [[w' x'] [r|]]; by right. }
  assert (∀ status msg, status ∈ refusals → (w = w ∧ ∃ status' msg', AError status msg = AError status' msg' ∧ status' ∈ refusals) ∨ allowed q (relation_of c) w) as Href.
  { intros status msg Hs. left. split; [done|]. by exists status, msg. }
  destruct c; cbn [author_route relation_of] in *;
    (apply wp_resolveApp; [by left|done|intros pid id a user Hal _ _ _; by apply Hany]) || (apply wp_authorize; [by left|done|intros user pid Hal _; by apply Hany]).
Qed.
Lemma author_reads q c w : relation_of c = relationRead → wp (X := X) (λ w', w' = w) (author_route unavailable q c) (λ _ w', w' = w) w.
Proof.
  intros Hc. assert (∀ {A} what (f : AppsWorld → result aerr A), keeps (X := X) (λ w', w' = w) (app_error what (read f))) as Hread by (intros; apply keeps_app_error, keeps_read).
  assert (∀ {A} (m : Op AppsWorld X (result aerr A)) (f : result aerr A → answer), keeps (λ w', w' = w) m → keeps (λ w', w' = w) (r ← m; mret (f r))) as Hret.
  { intros A m f Hm. apply keeps_op_bind; [done|]. intros r. apply keeps_op_ret. }
  destruct c; try done; cbn [author_route].
  - apply wp_authorize; [done..|]. intros user pid _ _. apply (wp_of_keeps (λ w', w' = w)); [|done]. apply Hret, Hread.
  - apply wp_resolveApp; [done..|]. intros pid id a user _ _ _ _. apply (wp_of_keeps (λ w', w' = w)); [|done]. apply keeps_op_bind; [apply keeps_with_uuid; intros u; apply Hread|].
    intros [cs|]; [|apply keeps_op_ret]. apply Hret, keeps_with_uuid. intros u. apply Hread.
  - apply wp_resolveApp; [done..|]. intros pid id a user _ _ _ _. apply (wp_of_keeps (λ w', w' = w)); [|done].
    assert (∀ req n, keeps (X := X) (λ w', w' = w) (GetRenderLogs id req n)) as Hlogs.
    { intros req n. apply keeps_with_uuid. intros u. destruct (str_empty req); [apply Hread|]. apply keeps_with_uuid. intros u'. apply Hread. }
    cbn [app_ID]. destruct (negb (str_empty requestID)).
    + destruct (uuid_Parse requestID); [|apply keeps_op_ret]. apply Hret, Hlogs.
    + destruct (str_empty limit); [apply Hret, Hlogs|]. destruct (Atoi limit) as [n|]; [|apply keeps_op_ret]. destruct (n <=? 0)%Z; [apply keeps_op_ret|]. apply Hret, Hlogs.
  - apply wp_resolveApp; [done..|]. intros pid id a user _ _ _ _. apply (wp_of_keeps (λ w', w' = w)); [|done]. apply Hret, keeps_with_uuid. intros u. apply Hread.
Qed.

(** C10: An author's request does what its caller may do, to the app it names, and
    nothing else.  For every route, whatever calls fail and wherever the process
    ends: unless OpenFGA gives the caller the relation of the route on the project
    of the path, nothing changes and the answer is a refusal; the routes that read
    change nothing; and the row, versions, channels, tokens, logs and grants of
    any app but the one that the path names are as they were. *)
Theorem author_request_confined (q : AppRequest) (c : author_call) (w : AppsWorld) (Hc : canonical w) :
  let confined w' :=
    (¬ allowed q (relation_of c) w → w' = w) ∧ (relation_of c = relationRead → w' = w) ∧
    ∀ pid other a, uuid_Parse (q_pid q) = Some pid → ap_apps w !! other = Some a → is_app pid (q_name q) a = false → same_app other w w' in
  wp (X := X) confined (author_route unavailable q c) (λ r w', confined w' ∧
    (¬ allowed q (relation_of c) w → ∃ status msg, r = AError status msg ∧ status ∈ refusals)) w.
Proof.
  intros confined x. pose proof (author_unauthorized q c w x) as Hu. pose proof (author_reads q c w) as Hr.
  assert (∀ pid other a, uuid_Parse (q_pid q) = Some pid → ap_apps w !! other = Some a → is_app pid (q_name q) a = false →
    same_app other w (author_route unavailable q c (w, x)).1.1) as Hs.
  { intros pid other a Hp Ha Hi. pose proof (author_untouched q c w other a pid Hc Ha Hp Hi x) as Hx. by destruct (author_route unavailable q c (w, x)) as [[w' x'] [r|]]. }
  destruct (author_route unavailable q c (w, x)) as [[w' x'] [r|]] eqn:E; cbn in Hs.
  - assert (confined w') as Hcf; [|split; [done|]].
    + split_and!; [by destruct Hu as [[? _]|]| |done]. intros He. specialize (Hr He x). by rewrite E in Hr.
    + intros Hn. by destruct Hu as [[_ ?]|].
  - split_and!; [by destruct Hu| |done]. intros He. specialize (Hr He x). by rewrite E in Hr.
Qed.
End Author.
