(* ===== verification/AppLedger.v ===== *)
(** * AppLedger: the grants of the identities of user apps
      (pkg/pipelineapi/apps: identity.go, handlers.go)

    Requests that run one after the other, each of which may end anywhere, leave
    no grant behind for an app that is gone, and an app that is marked as
    registered has its grant as long as no deletion of it was cut short; with the
    histories in which the two fall apart. *)

From S2P Require Import Prelude GoTime CommitPool Authz RunWorld Tokens Password Calls AppStore AppInv AppHistory AppHandlers AppGrants.

(** The network does not speak for OpenFGA. *)
Class HonestFga (X : Type) `{F : !Faults X} : Prop :=
  honest_fga : ∀ (x : X) m, (fault x).2 = Failed m ∨ (fault x).2 = Lost m →
    isMissingTupleErr m = false ∧ isTupleAlreadyExistsErr m = false ∧ isAlreadyExistsErr m = false.

Section Ledger.
Context `{UT : !UnicodeTables} `{PL : !PoolLib} `{DO : !DBOrder} `{GZ : !Gzip} `{J : !Jwt} `{UL : !UuidLib} `{FM : !FgaModel} {X : Type} `{F : !Faults X}.
Variable unavailable : string → bool.
Variable B : gset Tuple.

Definition grant_of (id lk : string) : Tuple := project_tuple (AppJWTSubject id) RelationViewer lk.
(** Every grant is one of [B], or that of an app that exists on its project. *)
Definition ledger (w : AppsWorld) : Prop :=
  canonical w ∧
  ∀ t, t ∈ ap_grants w → t ∈ B ∨ ∃ id a lk, ap_apps w !! id = Some a ∧ ap_projects w !! a_ProjectID a = Some lk ∧ t = grant_of id lk.
(** An app that is marked as registered has its grant. *)
Definition registered (w : AppsWorld) : Prop :=
  ∀ id a, ap_apps w !! id = Some a → a_FGARegistered a = true → ∃ lk, ap_projects w !! a_ProjectID a = Some lk ∧ grant_of id lk ∈ ap_grants w.

(** The ledger, and where [K] holds the marks too. *)
Definition in_order_if (K : Prop) (w : AppsWorld) : Prop := ledger w ∧ (K → registered w).

(** *** What the statements do to it *)

(** The mark of every other app is right. *)
Definition registered_but (id : string) (w : AppsWorld) : Prop :=
  ∀ k a, k ≠ id → ap_apps w !! k = Some a → a_FGARegistered a = true → ∃ lk, ap_projects w !! a_ProjectID a = Some lk ∧ grant_of k lk ∈ ap_grants w.
Lemma registered_drop id w : registered_but id w → registered (drop_app id w).
Proof. intros Hb k a. cbn. intros [Hne Ha]%lookup_delete_Some. by apply Hb. Qed.
Lemma registered_but_delete id lk w : registered_but id w → registered_but id (app_fga_delete (grant_of id lk) w).1.
Proof.
  intros Hb. unfold app_fga_delete. case_bool_decide; [|done]. intros k a Hne Ha Hreg. destruct (Hb k a Hne Ha Hreg) as (lk' & Hlk' & Hg). exists lk'. split; [done|].
  cbn. apply elem_of_difference. split; [done|]. intros (Hk & _)%elem_of_singleton%app_tuple_inj. congruence.
Qed.
(** What depends on the apps, the projects and the grants only. *)
Definition on_ledger (I : AppsWorld → Prop) : Prop :=
  ∀ w w', ap_apps w' = ap_apps w → ap_projects w' = ap_projects w → ap_grants w' = ap_grants w → I w → I w'.
Lemma ledger_on : on_ledger ledger.
Proof. intros w w' Ha Hp Hg. unfold ledger, canonical. by rewrite Ha, Hp, Hg. Qed.
Lemma registered_on : on_ledger registered.
Proof. intros w w' Ha Hp Hg. unfold registered. by rewrite Ha, Hp, Hg. Qed.
Lemma in_order_on K : on_ledger (in_order_if K).
Proof. intros w w' Ha Hp Hg [Hl Hr]. split; [by eapply ledger_on|]. intros HK. by eapply registered_on, Hr. Qed.
Lemma keeps_off {A} (I : AppsWorld → Prop) what (f : AppsWorld → AppsWorld * result aerr A) : on_ledger I →
  (∀ w, ap_apps (f w).1 = ap_apps w ∧ ap_projects (f w).1 = ap_projects w ∧ ap_grants (f w).1 = ap_grants w) → keeps (X := X) I (app_error what (call f)).
Proof. intros HI Hf. apply keeps_app_error, keeps_op_call. intros w Hw. destruct (Hf w) as (Ha & Hp & Hg). by eapply HI. Qed.
Lemma keeps_off_put I app bundle : on_ledger I → keeps (X := X) I (PutVersion app bundle).
Proof.
  intros HI. unfold PutVersion. destruct (_ <? _)%Z; [apply keeps_op_ret|]. apply keeps_with_uuid. intros u. apply keeps_op_bind; [apply keeps_new_uuid|]. intros id.
  apply keeps_off; [done|]. intros w. unfold put_version. by repeat case_match.
Qed.
Lemma keeps_off_promote I app version expected : on_ledger I → keeps (X := X) I (Promote app version expected).
Proof.
  intros HI. apply keeps_with_uuid. intros u. apply keeps_try; [apply keeps_app_error, keeps_read|]. intros t. apply keeps_off; [done|].
  intros w. unfold swap_production. by repeat case_match.
Qed.
Lemma keeps_off_mint I secret salt app : on_ledger I → keeps (X := X) I (MintToken secret salt app).
Proof.
  intros HI. apply keeps_with_uuid. intros u. destruct secret, salt; try apply keeps_op_ret. apply keeps_op_bind; [apply keeps_new_uuid|]. intros id.
  apply keeps_off; [done|]. intros w. unfold insert_token. by repeat case_match.
Qed.
Lemma keeps_off_revoke I app tok : on_ledger I → keeps (X := X) I (RevokeToken app tok).
Proof.
  intros HI. apply keeps_with_uuid. intros u. apply keeps_with_uuid. intros t. apply keeps_off; [done|]. intros w. unfold revoke_token. by repeat case_match.
Qed.

Lemma ledger_insert pid name id w : uuid_Parse id = Some id → uuid_Parse pid = Some pid → ledger w → ledger (insert_app pid name id w).1.
Proof.
  intros Hid Hp [Hc Hg]. split; [by apply canonical_insert|]. unfold insert_app. destruct (find_app pid name w), (ap_apps w !! id) eqn:Ei, (ap_projects w !! pid); try done.
  cbn. intros t [?|(k & a & lk & Ha & Hlk & ->)]%Hg; [by left|right]. exists k, a, lk. split; [|done]. rewrite lookup_insert_ne; [done|]. congruence.
Qed.
Lemma registered_insert pid name id w : registered w → registered (insert_app pid name id w).1.
Proof.
  intros Hr. unfold insert_app. destruct (find_app pid name w), (ap_apps w !! id) eqn:Ei, (ap_projects w !! pid); try done.
  intros k a. cbn. intros [[_ <-]|[_ Ha]]%lookup_insert_Some; [done|]. by apply Hr.
Qed.
Lemma ledger_mark id w : ledger w → ledger (mark_registered id w).
Proof.
  intros [Hc Hg]. split; [by apply canonical_mark|]. cbn. intros t [?|(k & a & lk & Ha & Hlk & ->)]%Hg; [by left|right].
  destruct (decide (k = id)) as [->|Hne]; [|exists k, a, lk; by rewrite lookup_alter_ne]. eexists id, _, lk. rewrite lookup_alter_eq, Ha. by split.
Qed.
Lemma registered_mark id a lk w : ap_apps w !! id = Some a → ap_projects w !! a_ProjectID a = Some lk → grant_of id lk ∈ ap_grants w → registered w → registered (mark_registered id w).
Proof.
  intros Ha Hlk Hg Hr k b. cbn. intros [(-> & a' & Ha' & ->)|[_ Hb]]%lookup_alter_Some; [|by apply Hr]. intros _. cbn. exists lk. split; [|done]. congruence.
Qed.
Lemma ledger_write id a lk w : ap_apps w !! id = Some a → ap_projects w !! a_ProjectID a = Some lk → ledger w → ledger (app_fga_write (grant_of id lk) w).1.
Proof.
  intros Ha Hlk [Hc Hg]. unfold app_fga_write. case_bool_decide; [done|]. split; [done|]. cbn. intros t [->%elem_of_singleton|Ht]%elem_of_union; [right; by exists id, a, lk|by apply Hg].
Qed.
Lemma registered_write t w : registered w → registered (app_fga_write t w).1.
Proof.
  intros Hr. unfold app_fga_write. case_bool_decide; [done|]. intros id a Ha Hreg. destruct (Hr id a Ha Hreg) as (lk & Hlk & Hg). exists lk. split; [done|]. cbn. by apply elem_of_union_r.
Qed.
Lemma ledger_delete t w : ledger w → ledger (app_fga_delete t w).1.
Proof.
  intros [Hc Hg]. unfold app_fga_delete. case_bool_decide; [|done]. split; [done|]. cbn. intros t' [Ht _]%elem_of_difference. by apply Hg.
Qed.
Lemma ledger_drop id a lk w : ap_apps w !! id = Some a → ap_projects w !! a_ProjectID a = Some lk → grant_of id lk ∉ ap_grants w → ledger w → ledger (drop_app id w).
Proof.
  intros Ha Hlk Hn [Hc Hg]. split; [by apply canonical_drop|]. cbn. intros t Ht. destruct (Hg t Ht) as [?|(k & b & lk' & Hb & Hlk' & ->)]; [by left|right].
  exists k, b, lk'. split; [|done]. rewrite lookup_delete_ne; [done|]. intros <-. assert (b = a) as -> by congruence. assert (lk' = lk) as -> by congruence. done.
Qed.

(** *** Registration and its undoing *)

Context `{HF : !HonestFga X}.
Lemma wp_call_honest {A} C (f : AppsWorld → AppsWorld * result string A) (Q : result string A → AppsWorld → Prop) w :
  Q (f w).2 (f w).1 → (∀ m, isMissingTupleErr m = false → isTupleAlreadyExistsErr m = false → isAlreadyExistsErr m = false → Q (Err m) w ∧ Q (Err m) (f w).1) →
  C w → C (f w).1 → wp (X := X) C (call_err f) Q w.
Proof.
  intros Hd He HC HC' x. unfold call_err, mbind, Op_bind, call. cbn. pose proof (honest_fga x) as Hx. destruct (fault x) as [x' o]. cbn in Hx. destruct (f w) as [w' r]. cbn in *.
  destruct o as [|m|m|[]]; try done.
  - destruct (Hx m ltac:(by left)) as (H1 & H2 & H3). by apply (He m).
  - destruct (Hx m ltac:(by right)) as (H1 & H2 & H3). by apply (He m).
Qed.
Lemma wp_resolveProject C id pid Q w : uuid_Parse pid = Some pid → C w → (∀ lk, ap_projects w !! pid = Some lk → lk ≠ EmptyString → Q (Ok lk) w) → (∀ e, Q (Err e) w) →
  wp (X := X) C (resolveProject id pid) Q w.
Proof.
  intros Hp HC Hok He. unfold resolveProject. destruct (str_empty id); [by apply wp_op_ret|]. rewrite Hp. apply wp_op_bind, wp_read; [done| |intros m; by apply wp_op_ret].
  apply wp_op_ret. destruct (ap_projects w !! pid) as [lk|] eqn:El; [|done]. destruct (str_empty lk) eqn:Ee; [done|]. apply Hok; [done|]. by destruct lk.
Qed.
(** What a registration ensures about the app whose row is there. *)
Lemma wp_Register K id a w : ap_apps w !! id = Some a → in_order_if K w →
  wp (X := X) (in_order_if K) (Identity_Register id (a_ProjectID a)) (λ r w', in_order_if K w' ∧ ap_apps w' !! id = Some a ∧
    (r = Ok () → ∃ lk, ap_projects w' !! a_ProjectID a = Some lk ∧ grant_of id lk ∈ ap_grants w')) w.
Proof.
  intros Ha [Hl Hr]. unfold Identity_Register. apply wp_op_try, wp_resolveProject; [by apply (proj1 Hl) in Ha as [_ ?]|done| |intros; by split_and!].
  intros lk Hlk Hne. unfold write_project_tuple. fold (grant_of id lk).
  assert (in_order_if K (app_fga_write (grant_of id lk) w).1) as Hl' by (split; [by eapply ledger_write|by intros HK%Hr; apply registered_write]).
  assert (ap_apps (app_fga_write (grant_of id lk) w).1 !! id = Some a) as Ha' by (unfold app_fga_write; by case_bool_decide).
  assert (∃ lk', ap_projects (app_fga_write (grant_of id lk) w).1 !! a_ProjectID a = Some lk' ∧ grant_of id lk' ∈ ap_grants (app_fga_write (grant_of id lk) w).1) as Hg.
  { exists lk. unfold app_fga_write. case_bool_decide; [done|]. split; [done|]. cbn. by apply elem_of_union_l, elem_of_singleton. }
  apply wp_op_bind, wp_op_bind, wp_call_honest; [|intros m Hm1 Hm2 Hm3; split; apply wp_op_ret; rewrite Hm2, Hm3; cbn; by apply wp_op_ret; split_and!|done|done].
  apply wp_op_ret. destruct (app_fga_write (grant_of id lk) w).2 as [u|e]; [by apply wp_op_ret; split_and!|]. destruct (_ || _); by apply wp_op_ret; split_and!.
Qed.
Lemma wp_Unregister (K : Prop) id a w : ap_apps w !! id = Some a → ledger w → (K → registered_but id w) →
  wp (X := X) ledger (Identity_Unregister id (a_ProjectID a)) (λ r w', ledger w' ∧ ap_apps w' !! id = Some a ∧ (K → registered_but id w') ∧
    (r = Ok () → ∃ lk, ap_projects w' !! a_ProjectID a = Some lk ∧ grant_of id lk ∉ ap_grants w')) w.
Proof.
  intros Ha Hl Hb. unfold Identity_Unregister. apply wp_op_try, wp_resolveProject; [by apply (proj1 Hl) in Ha as [_ ?]|done| |intros; by split_and!].
  intros lk Hlk Hne. unfold delete_project_tuple. fold (grant_of id lk). pose proof (ledger_delete (grant_of id lk) w Hl) as Hl'.
  assert (K → registered_but id (app_fga_delete (grant_of id lk) w).1) as Hb' by (intros HK%Hb; by apply registered_but_delete).
  assert (ap_apps (app_fga_delete (grant_of id lk) w).1 !! id = Some a) as Ha' by (unfold app_fga_delete; by case_bool_decide).
  assert (∃ lk', ap_projects (app_fga_delete (grant_of id lk) w).1 !! a_ProjectID a = Some lk' ∧ grant_of id lk' ∉ ap_grants (app_fga_delete (grant_of id lk) w).1) as Hg.
  { exists lk. unfold app_fga_delete. case_bool_decide; [|done]. split; [done|]. cbn. rewrite elem_of_difference, elem_of_singleton. tauto. }
  apply wp_op_bind, wp_op_bind, wp_call_honest; [|intros m Hm1 Hm2 Hm3; split; apply wp_op_ret; rewrite Hm1; by apply wp_op_ret; split_and!|done|done].
  apply wp_op_ret. destruct (app_fga_delete (grant_of id lk) w).2 as [u|e]; [by apply wp_op_ret; split_and!|]. destruct (isMissingTupleErr e); by apply wp_op_ret; split_and!.
Qed.

(** ** The routes *)

Context `{UW : !UuidLaws} `{DU : !DrawnUuids X}.
Lemma in_order_canonical K w : in_order_if K w → canonical w.
Proof. by intros [[Hc _] _]. Qed.
Lemma wp_SetFGARegistered K id a w : ap_apps w !! id = Some a → in_order_if K w →
  (∃ lk, ap_projects w !! a_ProjectID a = Some lk ∧ grant_of id lk ∈ ap_grants w) →
  wp (X := X) (in_order_if K) (SetFGARegistered id) (λ r w', in_order_if K w' ∧ (r = Ok () →
    ∃ b lk, ap_apps w' !! id = Some b ∧ a_ProjectID b = a_ProjectID a ∧ ap_projects w' !! a_ProjectID a = Some lk ∧ grant_of id lk ∈ ap_grants w')) w.
Proof.
  intros Ha Hw (lk & Hlk & Hg). unfold SetFGARegistered. pose proof (in_order_canonical K w Hw id a Ha) as [Hid _]. rewrite with_canonical by done.
  assert (in_order_if K (mark_registered id w)) as Hw' by (destruct Hw as [Hl Hr]; split; [by apply ledger_mark|intros HK%Hr; by eapply registered_mark]).
  apply wp_app_error, wp_call; [|by intros m; split|by intros m; split|done|done]. split; [done|]. intros _. cbn. eexists _, lk. rewrite lookup_alter_eq, Ha. by split_and!.
Qed.
Lemma wp_ensure_registered K id a k Q w : ap_apps w !! id = Some a → in_order_if K w →
  (∀ status msg w', in_order_if K w' → Q (AError status msg) w') →
  (∀ row w', in_order_if K w' → (K → ∃ b lk, ap_apps w' !! id = Some b ∧ a_ProjectID b = a_ProjectID a ∧ ap_projects w' !! a_ProjectID a = Some lk ∧ grant_of id lk ∈ ap_grants w') →
    wp (in_order_if K) (k (MkApp id row)) Q w') →
  wp (X := X) (in_order_if K) (ensure_registered (MkApp id a) k) Q w.
Proof.
  intros Ha Hw He Hk. unfold ensure_registered. cbn [app_Row app_ID]. destruct (a_FGARegistered a) eqn:Er.
  { apply Hk; [done|]. intros HK. destruct (proj2 Hw HK id a Ha Er) as (lk & Hlk & Hg). by exists a, lk. }
  apply wp_op_bind. eapply wp_mono; [by apply (wp_Register K)|done|]. intros [[]|e] w' (Hw' & Ha' & Hg); [|by apply wp_op_ret, He].
  apply wp_op_bind. eapply wp_mono; [apply (wp_SetFGARegistered K id a); auto|done|]. intros [[]|e] w2 (Hw2 & Hg2); [|by apply wp_op_ret, He].
  apply Hk; [done|]. auto.
Qed.
Lemma wp_put K q body w : in_order_if K w → wp (X := X) (in_order_if K) (handlePutApp unavailable q body) (λ r w', in_order_if K w' ∧
  (K → ∀ id hash, r = APut id hash → ∃ b lk, ap_apps w' !! id = Some b ∧ ap_projects w' !! a_ProjectID b = Some lk ∧ grant_of id lk ∈ ap_grants w')) w.
Proof.
  intros Hw. unfold handlePutApp. apply wp_authorize; [done|by intros; split|]. intros user pid _ Hp.
  destruct (negb _); [by apply wp_op_ret|]. unfold readBundle, readJSONBody. destruct body as [|e|b64]; [by apply wp_op_ret..|]. destruct (str_empty b64); [by apply wp_op_ret|].
  destruct (decodeBase64 b64) as [bundle|]; [|by apply wp_op_ret]. destruct (str_empty bundle); [by apply wp_op_ret|]. unfold upsertApp. apply wp_op_bind.
  eapply wp_mono; [apply (wp_get_or_create (in_order_if K)); [by eapply uuid_canonical|by eapply in_order_canonical|done|]|by intros w' [_ H]|].
  { intros id w' Hid _ [Hl Hr]. split; [apply ledger_insert; [done|by eapply uuid_canonical|done]|]. intros HK%Hr. by apply registered_insert. }
  intros [app|e] w' (Hc' & Hw' & Happ); [|by apply wp_op_ret]. destruct (Happ app eq_refl) as [Hrow _]. destruct app as [id row]. cbn in Hrow.
  apply wp_ensure_registered; [done..|]. intros row' w2 Hw2 Hg2. cbn [app_ID].
  apply wp_op_bind. set (I w' := in_order_if K w' ∧ (K → ∃ b lk, ap_apps w' !! id = Some b ∧ ap_projects w' !! a_ProjectID b = Some lk ∧ grant_of id lk ∈ ap_grants w')).
  assert (on_ledger I) as HI.
  { intros w3 w4 Ha3 Hp3 Hg3 [H1 H2]. split; [by eapply in_order_on|]. by rewrite Ha3, Hp3, Hg3. }
  eapply wp_mono; [apply (keeps_off_put I id bundle HI)|by intros w3 [? _]|].
  { split; [done|]. intros HK. destruct (Hg2 HK) as (b & lk & Hb & Hpb & Hlk & Hg). exists b, lk. by rewrite Hpb. }
  intros r w3 [Hw3 Hg3]. apply wp_op_ret. split; [done|]. intros HK id' hash Hr. destruct (Hg3 HK) as (b & lk & Hrest).
  destruct r as [v|[]]; try done. injection Hr as <- _. by exists b, lk.
Qed.
Lemma wp_delete K q w : in_order_if K w → wp (X := X) ledger (handleDeleteApp unavailable q) (λ r w', ledger w' ∧ (r = ANoContent → K → registered w')) w.
Proof.
  intros [Hl Hr]. unfold handleDeleteApp. apply wp_resolveApp; [done|by intros; split|]. intros pid id a user _ _ Ha _. cbn [app_ID app_Row]. apply wp_op_bind.
  eapply wp_mono; [apply (wp_Unregister K id a w Ha Hl)|done|]; [intros HK k b _; by apply Hr|]. intros [[]|e] w' (Hl' & Ha' & Hb' & Hg); [|by apply wp_op_ret].
  destruct (Hg eq_refl) as (lk & Hlk & Hn). unfold Delete. rewrite with_canonical by by apply (proj1 Hl') in Ha' as [? _].
  apply wp_op_bind, wp_app_error, wp_call; rewrite ?Ha'; cbn [fst snd]; try done; try (intros m; by apply wp_op_ret).
  - apply wp_op_ret. split; [by eapply ledger_drop|]. intros _ HK. by apply registered_drop, Hb'.
  - intros m. apply wp_op_ret. split; [by eapply ledger_drop|done].
  - by eapply ledger_drop.
Qed.
Lemma author_in_order K q c w : c ≠ RouteDeleteApp → in_order_if K w → wp (X := X) (in_order_if K) (author_route unavailable q c) (λ _, in_order_if K) w.
Proof.
  intros Hc Hw. pose proof (in_order_on K) as HI.
  assert (∀ {A} what (f : AppsWorld → result aerr A), keeps (X := X) (in_order_if K) (app_error what (read f))) as Hread by (intros; apply keeps_app_error, keeps_read).
  assert (∀ {A} (m : Op AppsWorld X (result aerr A)) (f : result aerr A → answer), keeps (in_order_if K) m → keeps (in_order_if K) (r ← m; mret (f r))) as Hret.
  { intros A m f Hm. apply keeps_op_bind; [done|]. intros r. apply keeps_op_ret. }
  assert (∀ relation k, (∀ app user, keeps (X := X) (in_order_if K) (k app user)) → wp (in_order_if K) (resolveApp unavailable q relation k) (λ _, in_order_if K) w) as Hres.
  { intros relation k Hk. apply wp_resolveApp; [done..|]. intros. by apply Hk. }
  destruct c; cbn [author_route]; try done.
  - eapply wp_mono; [by apply (wp_put K)|done|]. by intros r w' [? _].
  - apply wp_authorize; [done..|]. intros user pid _ _. by apply (wp_of_keeps (in_order_if K)); [apply Hret, Hread|].
  - apply Hres. intros app user. apply keeps_op_bind; [apply keeps_with_uuid; intros u; apply Hread|]. intros [cs|]; [|apply keeps_op_ret]. apply Hret, keeps_with_uuid. intros u. apply Hread.
  - apply Hres. intros app user. unfold readJSONBody. destruct body as [|e|[version expected]]; [apply keeps_op_ret..|]. destruct (str_empty version); [apply keeps_op_ret|]. by apply Hret, keeps_off_promote.
  - apply Hres. intros app user. assert (∀ req n, keeps (X := X) (in_order_if K) (GetRenderLogs (app_ID app) req n)) as Hlogs.
    { intros req n. apply keeps_with_uuid. intros u. destruct (str_empty req); [apply Hread|]. apply keeps_with_uuid. intros u'. apply Hread. }
    destruct (negb (str_empty requestID)); [destruct (uuid_Parse requestID); [apply Hret, Hlogs|apply keeps_op_ret]|].
    destruct (str_empty limit); [apply Hret, Hlogs|]. destruct (Atoi limit) as [n|]; [|apply keeps_op_ret]. destruct (n <=? 0)%Z; [apply keeps_op_ret|apply Hret, Hlogs].
  - apply Hres. intros app user. by apply Hret, keeps_off_mint.
  - apply Hres. intros app user. apply Hret, keeps_with_uuid. intros u. apply Hread.
  - apply Hres. intros app user. destruct (uuid_Parse tokenID); [|apply keeps_op_ret]. by apply Hret, keeps_off_revoke.
Qed.

(** ** Histories *)

Definition serve (l : list (AppRequest * author_call)) (s : AppsWorld * X) : AppsWorld * X :=
  foldl (λ s qc, (author_route unavailable qc.1 qc.2 s).1) s l.
(** C5: No grant is left for an app that is gone.  After any requests one after the
    other, each of which may fail at any call, lose its answers or end anywhere,
    every grant that was not there before is the viewer grant of an app that
    exists, on the catalog project of its own project. *)
Theorem app_grants_accounted (l : list (AppRequest * author_call)) (w : AppsWorld) (x : X) (Hw : ledger w) : ledger (serve l (w, x)).1.
Proof.
  revert w x Hw. induction l as [|[q c] l IH]; intros w x Hw; [done|]. cbn [serve foldl fst snd].
  assert (in_order_if False w) as Hi by done.
  assert (wp ledger (author_route unavailable q c) (λ _, ledger) w) as Hc.
  { destruct c; try (eapply wp_mono; [by apply (author_in_order False)|by intros w' [? _]|by intros r w' [? _]]).
    eapply wp_mono; [by apply (wp_delete False)|done|]. by intros r w' [? _]. }
  specialize (Hc x). destruct (author_route unavailable q c (w, x)) as [[w' x'] [r|]]; by apply IH.
Qed.
(** Requests among which no deletion was cut short: each that deletes said so, or changed nothing. *)
Fixpoint deletions_complete (l : list (AppRequest * author_call)) (s : AppsWorld * X) : Prop :=
  match l with
  | [] => True
  | (q, c) :: l =>
    let r := author_route unavailable q c s in
    (c = RouteDeleteApp → r.2 = Some ANoContent ∨ r.1.1 = s.1) ∧ deletions_complete l r.1
  end.
(** C13: An app whose upload was answered can read its project.  As long as no
    deletion was cut short after it took the grant away, whatever else fails or
    ends anywhere, an answered upload leaves the app of that id with its viewer
    grant on the catalog project of its project. *)
Theorem uploaded_app_can_read (l : list (AppRequest * author_call)) (q : AppRequest) (body : json_body string) (w : AppsWorld) (x : X) (id hash : string)
    (Hw : ledger w) (Hr : registered w) (Hdel : deletions_complete l (w, x)) (Hput : (author_route unavailable q (RoutePutApp body) (serve l (w, x))).2 = Some (APut id hash)) :
  let w' := (author_route unavailable q (RoutePutApp body) (serve l (w, x))).1.1 in
  ∃ a lk, ap_apps w' !! id = Some a ∧ ap_projects w' !! a_ProjectID a = Some lk ∧ grant_of id lk ∈ ap_grants w'.
Proof.
  assert (in_order_if True (serve l (w, x)).1) as Hi.
  { clear Hput. revert w x Hw Hr Hdel. induction l as [|[q' c] l IH]; intros w x Hw Hr Hdel; [by split|]. destruct Hdel as [Hd Hdel]. cbn [serve foldl fst snd] in *.
    assert (in_order_if True (author_route unavailable q' c (w, x)).1.1) as [Hl Hreg].
    { assert (c = RouteDeleteApp ∨ c ≠ RouteDeleteApp) as [->|Hc] by (destruct c; auto).
      - pose proof (wp_delete True q' w ltac:(by split) x) as Hx. cbn [author_route] in *. destruct (Hd eq_refl) as [Hok|Hsame]; [|rewrite Hsame; by split].
        destruct (handleDeleteApp unavailable q' (w, x)) as [[w' x'] r]. cbn in *. subst r. destruct Hx as [H1 H2]. split; [done|auto].
      - pose proof (author_in_order True q' c w Hc ltac:(by split) x) as Hx. by destruct (author_route unavailable q' c (w, x)) as [[w' x'] [r|]]. }
    destruct (author_route unavailable q' c (w, x)) as [[w' x'] r]. apply IH; auto. }
  cbn [author_route] in *. destruct (serve l (w, x)) as [w1 x1]. pose proof (wp_put True q body w1 Hi x1) as Hx.
  destruct (handlePutApp unavailable q body (w1, x1)) as [[w2 x2] r]. cbn in *. subst r. destruct Hx as [_ Hx]. by apply (Hx I id hash).
Qed.
End Ledger.
