(* ===== verification/AppInternal.v ===== *)
(** * AppInternal: the routes of user apps that app-worker calls
      (pkg/pipelineapi/apps/internal.go)

    The service credential that gates them, and the seven handlers: resolving a
    channel, serving a bundle, verifying a viewer token and a platform session,
    minting the credential of an app, and the render log. *)

From S2P Require Import Prelude GoTime CommitPool Authz RunWorld Tokens Password Calls AppStore AppHandlers.

(** ** The service credential *)

(** The digest of the secret. *)
Record ServiceToken := MkServiceToken { st_digest : string }.
(** [strings.EqualFold] with an ASCII word that has no special folds. *)
Definition fold_byte (c : ascii) : ascii := if is_upper_byte c then byte_of (code c + 32) else c.
Fixpoint fold_str (s : string) : string := match s with EmptyString => EmptyString | String c s => String (fold_byte c) (fold_str s) end.
Definition bearerToken (hdr : string) : option string :=
  if (slen hdr <=? 7)%nat || negb (bool_decide (fold_str (str_take 7 hdr) = "bearer ")) then None
  else let tok := TrimSpace (str_drop 7 hdr) in if str_empty tok then None else Some tok.

Section Credential.
Context `{PL : !PoolLib}.
Definition NewServiceToken (secret : string) : result string ServiceToken :=
  if str_empty (TrimSpace secret) then Err "apps: internal service token is empty" else Ok (MkServiceToken (sha256_hex secret)).
Definition LoadServiceToken (ReadFile : string → result string string) (path : string) : result string ServiceToken :=
  raw ← map_err (λ e, "apps: read internal service token: " +:+ e) (ReadFile path); NewServiceToken (TrimSpace raw).
(** No token when the variable is not set. *)
Definition ServiceTokenFromEnv (ReadFile : string → result string string) (env : string) : result string (option ServiceToken) :=
  let path := TrimSpace env in
  if str_empty path then Ok None else t ← LoadServiceToken ReadFile path; Ok (Some t).
Definition Matches (t : option ServiceToken) (presented : string) : bool :=
  match t with None => false | Some t => negb (str_empty presented) && bool_decide (sha256_hex presented = st_digest t) end.
End Credential.

(** ** Requests and answers *)

(** The headers that the routes read. *)
Record IRequest := MkIRequest { i_Authorization : string; i_Forwarded : string; i_Cookie : option string }.
(** What the session resolver sees: the cookies and the Authorization header. *)
Record CallerRequest := MkCallerRequest { cq_Cookie : option string; cq_Authorization : string }.
Inductive ianswer : Type :=
| IError (status : Z) (kind : string) (msg : string)
| INoContent
| IResolved (app_id version_hash : string)
| IBundle (bundle : string)
| IVerified (ok : bool)
| IActive (active : bool)
| ISession (user_id : string) (project_member : bool)
| IToken (token : string).
Record verifyTokenRequest := MkVerifyTokenRequest { vt_AppID : string; vt_TokenID : string; vt_Secret : string }.
Record appendLogRequest := MkAppendLogRequest {
  al_RequestID : string;
  al_AppID : string;
  al_VersionHash : string;
  al_Channel : string;
  al_PrincipalKind : string;
  al_PrincipalID : string;
  al_StartedAt : string;
  al_DurationMS : Z;
  al_Outcome : string;
  al_LogText : string;
  al_Error : string;
}.
Definition kindBadRequest : string := "bad_request".
Definition kindUnauthorized : string := "unauthorized".
Definition kindNotFound : string := "app_not_found".
Definition kindUnavailable : string := "unavailable".
Definition maxInternalBodyBytes : Z := 512 * 1024.
Definition MaxRenderLogBytes : Z := 64 * 1024.
Definition principalKinds : list string := ["viewer_token"; "platform_user"].
(** [^[0-9a-f]{64}$]. *)
Definition hex_byte (c : ascii) : bool := is_digit_byte c || byte_between 97 102 c.
Definition bundleHashRe (s : string) : bool := Nat.eqb (slen s) 64 && forall_byte hex_byte s.
(** [time.Parse(time.RFC3339Nano, s)], in nanoseconds. *)
Class TimeLib : Type := { ParseRFC3339Nano : string → option Z }.

Section Internal.
Context `{UT : !UnicodeTables} `{PL : !PoolLib} `{DO : !DBOrder} `{GZ : !Gzip} `{J : !Jwt} `{UL : !UuidLib} `{FM : !FgaModel} `{TL : !TimeLib} {X : Type} `{F : !Faults X}.
Variable retention : Z.
Variable Token : option ServiceToken.

Definition requireServiceToken (r : IRequest) (next : Op AppsWorld X ianswer) : Op AppsWorld X ianswer :=
  match bearerToken (i_Authorization r) with
  | Some presented => if Matches Token presented then next else mret (IError 401 kindUnauthorized "invalid or missing internal service credential")
  | None => mret (IError 401 kindUnauthorized "invalid or missing internal service credential")
  end.
Definition readInternalJSON {A} (body : json_body A) (k : A → Op AppsWorld X ianswer) : Op AppsWorld X ianswer :=
  match body with
  | BodyTooLarge => mret (IError 413 kindBadRequest ("body exceeds " +:+ itoa maxInternalBodyBytes +:+ " bytes"))
  | BodyInvalid e => mret (IError 400 kindBadRequest ("invalid JSON body: " +:+ e))
  | Body a => k a
  end.
Definition mustGetApp (appID : string) (k : App → Op AppsWorld X ianswer) : Op AppsWorld X ianswer :=
  r ← GetByID appID;
  match r with
  | Ok app => k app
  | Err (ErrNotFound _) => mret (IError 404 kindNotFound "no such app")
  | Err _ => mret (IError 503 kindUnavailable "could not read the app")
  end.
Definition handleResolve (pid name channel : string) : Op AppsWorld X ianswer :=
  match uuid_Parse pid with
  | None => mret (IError 400 kindBadRequest "invalid project id")
  | Some pid =>
    let channel := if str_empty channel then "production" else channel in
    if negb (bool_decide (channel ∈ ["production"; "draft"])) then mret (IError 400 kindBadRequest ("channel must be " +:+ dq "production" +:+ " or " +:+ dq "draft"))
    else
      r ← Resolve pid name channel;
      mret (match r with
            | Ok res => IResolved (r_AppID res) (r_VersionHash res)
            | Err (ErrNotFound _) => IError 404 kindNotFound "no such app or channel"
            | Err _ => IError 503 kindUnavailable "could not resolve the app"
            end)
  end.
Definition handleBundle (hash : string) : Op AppsWorld X ianswer :=
  if negb (bundleHashRe hash) then mret (IError 400 kindBadRequest "hash must be a hex SHA-256 digest")
  else
    r ← GetBundle hash;
    mret (match r with
          | Ok bundle => IBundle bundle
          | Err (ErrNotFound _) => IError 404 kindNotFound "no such bundle"
          | Err _ => IError 503 kindUnavailable "could not read the bundle"
          end).
Definition handleVerifyViewerToken (body : json_body verifyTokenRequest) : Op AppsWorld X ianswer :=
  readInternalJSON body (λ req,
  match uuid_Parse (vt_AppID req), uuid_Parse (vt_TokenID req) with
  | None, _ => mret (IError 400 kindBadRequest "invalid app_id")
  | _, None => mret (IError 400 kindBadRequest "invalid token_id")
  | Some _, Some _ =>
    if str_empty (vt_Secret req) then mret (IError 400 kindBadRequest (dq "secret" +:+ " is required"))
    else
      r ← VerifyToken (vt_AppID req) (vt_TokenID req) (vt_Secret req);
      mret (match r with Ok ok => IVerified ok | Err _ => IError 503 kindUnavailable "could not verify the viewer token" end)
  end).
(** [app_id] and [token_id]. *)
Definition handleTokenActive (body : json_body (string * string)) : Op AppsWorld X ianswer :=
  readInternalJSON body (λ '(app, tok),
  match uuid_Parse app, uuid_Parse tok with
  | None, _ => mret (IError 400 kindBadRequest "invalid app_id")
  | _, None => mret (IError 400 kindBadRequest "invalid token_id")
  | Some _, Some _ =>
    r ← TokenActive app tok;
    mret (match r with Ok active => IActive active | Err _ => IError 503 kindUnavailable "could not check the viewer token" end)
  end).
Definition callerCredentialRequest (r : IRequest) : CallerRequest := MkCallerRequest (i_Cookie r) (i_Forwarded r).
(** The resolver of the browser routes: the user's id, nobody, or an error. *)
Variable UserFor : CallerRequest → Op AppsWorld X (result string (option string)).
Definition handleVerifySession (r : IRequest) (body : json_body string) : Op AppsWorld X ianswer :=
  readInternalJSON body (λ pid,
  match uuid_Parse pid with
  | None => mret (IError 400 kindBadRequest "invalid pid")
  | Some pid =>
    u ← UserFor (callerCredentialRequest r);
    match u with
    | Err _ => mret (IError 503 kindUnavailable "could not verify the session")
    | Ok None => mret (ISession EmptyString false)
    | Ok (Some user) =>
      p ← LakekeeperProjectID pid;
      match p with
      | Err _ => mret (IError 503 kindUnavailable "could not read the project")
      | Ok None => mret (ISession user false)
      | Ok (Some lk) =>
        if str_empty lk then mret (IError 503 kindUnavailable "project authz not yet provisioned (lakekeeper project pending)")
        else
          m ← Authz_Check (Object_String (UserObject user)) relationRead (ProjectObject lk);
          mret (match m with Ok member => ISession user member | Err _ => IError 503 kindUnavailable "authz backend unavailable" end)
      end
    end
  end).
Definition handleImpersonate (signer : option Signer) (rand : result string string) (body : json_body string) : Op AppsWorld X ianswer :=
  readInternalJSON body (λ appID,
  match uuid_Parse appID with
  | None => mret (IError 400 kindBadRequest "invalid app_id")
  | Some _ =>
    mustGetApp appID (λ app,
    r ← Identity_Mint signer rand (app_ID app) (a_ProjectID (app_Row app));
    mret (match r with Ok t => IToken t | Err _ => IError 503 kindUnavailable "could not mint the app credential" end))
  end).
Definition toRecord (now : Z) (appID : string) (req : appendLogRequest) : result string RenderLogRecord :=
  if negb (str_empty (al_AppID req)) && negb (bool_decide (al_AppID req = appID)) then Err "app_id in the body does not match the path"
  else match uuid_Parse (al_RequestID req) with
  | None => Err "request_id must be a UUID"
  | Some _ =>
    if negb (bundleHashRe (al_VersionHash req)) then Err "version_hash must be a hex SHA-256 digest"
    else if negb (bool_decide (al_Channel req ∈ ["production"; "draft"])) then Err ("channel must be " +:+ dq "production" +:+ " or " +:+ dq "draft")
    else if negb (bool_decide (al_PrincipalKind req ∈ principalKinds)) then Err ("principal_kind must be " +:+ dq "viewer_token" +:+ " or " +:+ dq "platform_user")
    else if str_empty (al_Outcome req) then Err (dq "outcome" +:+ " is required")
    else if (al_DurationMS req <? 0)%Z then Err "duration_ms must not be negative"
    else
      started ← (if str_empty (al_StartedAt req) then Ok now
                 else match ParseRFC3339Nano (al_StartedAt req) with Some t => Ok t | None => Err "started_at must be an RFC3339 timestamp" end);
      Ok (MkRenderLogRecord appID (al_VersionHash req) (al_Channel req) (al_PrincipalKind req) (al_PrincipalID req) started
            (al_DurationMS req) (al_Outcome req) (str_take (Z.to_nat MaxRenderLogBytes) (al_LogText req)) (str_take (Z.to_nat MaxRenderLogBytes) (al_Error req)))
  end.
Definition handleAppendLog (appID : string) (body : json_body appendLogRequest) : Op AppsWorld X ianswer :=
  match uuid_Parse appID with
  | None => mret (IError 400 kindBadRequest "invalid app id")
  | Some _ =>
    readInternalJSON body (λ req,
    now ← local ap_now;
    match toRecord now appID req with
    | Err e => mret (IError 400 kindBadRequest e)
    | Ok rec =>
      mustGetApp appID (λ _,
      r ← AppendRenderLog retention (al_RequestID req) rec;
      mret (match r with Ok _ => INoContent | Err _ => IError 503 kindUnavailable "could not append the render log" end))
    end)
  end.

(** The routes RegisterInternal installs, each behind the credential. *)
Inductive internal_call : Type :=
| RouteResolve (pid name channel : string)
| RouteBundle (hash : string)
| RouteVerifyToken (body : json_body verifyTokenRequest)
| RouteTokenActive (body : json_body (string * string))
| RouteVerifySession (body : json_body string)
| RouteImpersonate (rand : result string string) (body : json_body string)
| RouteAppendLog (appID : string) (body : json_body appendLogRequest).
Variable signer : option Signer.
Definition internal_route (r : IRequest) (c : internal_call) : Op AppsWorld X ianswer :=
  requireServiceToken r (match c with
  | RouteResolve pid name channel => handleResolve pid name channel
  | RouteBundle hash => handleBundle hash
  | RouteVerifyToken body => handleVerifyViewerToken body
  | RouteTokenActive body => handleTokenActive body
  | RouteVerifySession body => handleVerifySession r body
  | RouteImpersonate rand body => handleImpersonate signer rand body
  | RouteAppendLog appID body => handleAppendLog appID body
  end).
End Internal.

(** ** What the routes give away *)

Section Given.
Context `{UT : !UnicodeTables} `{PL : !PoolLib} `{DO : !DBOrder} `{GZ : !Gzip} `{J : !Jwt} `{UL : !UuidLib} `{FM : !FgaModel} `{TL : !TimeLib} {X : Type} `{F : !Faults X}.
Variable retention : Z.
Variable Token : option ServiceToken.
Variable UserFor : CallerRequest → Op AppsWorld X (result string (option string)).
Variable signer : option Signer.

(** The credential that a request presents. *)
Definition holds_credential (r : IRequest) : Prop :=
  ∃ t presented, Token = Some t ∧ bearerToken (i_Authorization r) = Some presented ∧ sha256_hex presented = st_digest t.
Lemma requireServiceToken_spec r next : (holds_credential r ∧ requireServiceToken (X := X) Token r next = next) ∨
  (¬ holds_credential r ∧ requireServiceToken (X := X) Token r next = mret (IError 401 kindUnauthorized "invalid or missing internal service credential")).
Proof.
  unfold requireServiceToken, Matches. destruct (bearerToken (i_Authorization r)) as [p|] eqn:Ep; [|right; split; [|done]; intros (t & p' & _ & H & _); congruence].
  destruct Token as [t|] eqn:Et; [|right; split; [|done]; intros (t' & p' & H & _); congruence].
  assert (str_empty p = false) as ->.
  { unfold bearerToken in Ep. destruct (_ || _); [done|]. by destruct (str_empty (TrimSpace _)) eqn:E; [|injection Ep as <-]. }
  cbn [negb andb]. case_bool_decide as Hd; [left|right]; (split; [|done]).
  - by exists t, p.
  - intros (t' & p' & Ht & Hp & Hs). congruence.
Qed.
(** Operations after which anything may be the case, but for the answer. *)
Lemma wp_after {A B} (m : Op AppsWorld X A) (f : A → Op AppsWorld X B) Q w : (∀ a w', wp (λ _, True) (f a) Q w') → wp (λ _, True) (m ≫= f) Q w.
Proof. intros Hf. apply wp_op_bind. intros x. destruct (m (w, x)) as [[w' x'] [a|]]; [apply Hf|done]. Qed.
Definition no_token (a : ianswer) : Prop := match a with IToken _ => False | _ => True end.
Lemma no_token_get (appID : string) k w : (∀ app w', wp (X := X) (λ _, True) (k app) (λ a _, no_token a) w') → wp (λ _, True) (mustGetApp appID k) (λ a _, no_token a) w.
Proof. intros Hk. apply wp_after. intros [app|[]] w'; [apply Hk|by apply wp_op_ret..]. Qed.
Lemma only_impersonate r c w : (∀ rand body, c ≠ RouteImpersonate rand body) → wp (X := X) (λ _, True) (internal_route retention Token UserFor signer r c) (λ a _, no_token a) w.
Proof.
  intros Hc. unfold internal_route. destruct (requireServiceToken_spec r (match c with
  | RouteResolve pid name channel => handleResolve pid name channel
  | RouteBundle hash => handleBundle hash
  | RouteVerifyToken body => handleVerifyViewerToken body
  | RouteTokenActive body => handleTokenActive body
  | RouteVerifySession body => handleVerifySession UserFor r body
  | RouteImpersonate rand body => handleImpersonate signer rand body
  | RouteAppendLog appID body => handleAppendLog retention appID body
  end)) as [[_ ->]|[_ ->]]; [|by apply wp_op_ret].
  destruct c; unfold handleResolve, handleBundle, handleVerifyViewerToken, handleTokenActive, handleVerifySession, handleAppendLog, readInternalJSON.
  - destruct (uuid_Parse pid); [|by apply wp_op_ret]. destruct (negb _); [by apply wp_op_ret|]. apply wp_after. intros [|[]] w'; by apply wp_op_ret.
  - destruct (negb _); [by apply wp_op_ret|]. apply wp_after. intros [|[]] w'; by apply wp_op_ret.
  - destruct body as [| |req]; [by apply wp_op_ret..|]. destruct (uuid_Parse (vt_AppID req)), (uuid_Parse (vt_TokenID req)); try (by apply wp_op_ret).
    destruct (str_empty _); [by apply wp_op_ret|]. apply wp_after. intros [|] w'; by apply wp_op_ret.
  - destruct body as [| |[app tok]]; [by apply wp_op_ret..|]. destruct (uuid_Parse app), (uuid_Parse tok); try (by apply wp_op_ret). apply wp_after. intros [|] w'; by apply wp_op_ret.
  - destruct body as [| |pid]; [by apply wp_op_ret..|]. destruct (uuid_Parse pid); [|by apply wp_op_ret]. apply wp_after. intros [[user|]|] w'; [|by apply wp_op_ret..].
    apply wp_after. intros [[lk|]|] w2; [|by apply wp_op_ret..]. destruct (str_empty lk); [by apply wp_op_ret|]. apply wp_after. intros [|] w3; by apply wp_op_ret.
  - by destruct (Hc rand body).
  - destruct (uuid_Parse appID); [|by apply wp_op_ret]. destruct body as [| |req]; [by apply wp_op_ret..|]. apply wp_after. intros now w'.
    destruct (toRecord now appID req); [|by apply wp_op_ret]. apply no_token_get. intros app w2. apply wp_after. intros [|] w3; by apply wp_op_ret.
Qed.
Definition spoken_for (w : AppsWorld) (rand : result string string) (appID t : string) : Prop :=
  ∃ id row lk jti sg, uuid_Parse appID = Some id ∧ ap_apps w !! id = Some row ∧ (∃ pid, uuid_Parse (a_ProjectID row) = Some pid ∧ ap_projects w !! pid = Some lk) ∧
    lk ≠ EmptyString ∧ signer = Some sg ∧ newAppTokenJTI rand id = Ok jti ∧ SignedString (sg_priv sg) (MkHeader "RS256" (sg_KeyID sg)) (app_claims (ap_now w) id lk jti) = Ok t.
Lemma wp_impersonate rand body w : wp (X := X) (λ w', w' = w) (handleImpersonate signer rand body) (λ a w', w' = w ∧
  ∀ t, a = IToken t → ∃ appID, body = Body appID ∧ spoken_for w rand appID t) w.
Proof.
  unfold handleImpersonate, readInternalJSON. destruct body as [|e|appID]; [by apply wp_op_ret..|]. destruct (uuid_Parse appID) as [id|] eqn:Eid; [|by apply wp_op_ret].
  unfold mustGetApp, GetByID, with_uuid. rewrite Eid. apply wp_op_bind. unfold app_error. apply wp_op_bind, wp_read; [done| |intros m; apply wp_op_ret; by apply wp_op_ret].
  apply wp_op_ret. destruct (ap_apps w !! id) as [row|] eqn:Er; [|by apply wp_op_ret]. cbn [app_ID app_Row]. apply wp_op_bind. unfold Identity_Mint. apply wp_op_try.
  unfold resolveProject. destruct (str_empty id); [by apply wp_op_ret, wp_op_ret|]. destruct (uuid_Parse (a_ProjectID row)) as [pid|] eqn:Ep; [|by apply wp_op_ret, wp_op_ret].
  apply wp_op_bind, wp_read; [done| |intros m; by apply wp_op_ret, wp_op_ret]. apply wp_op_ret.
  destruct (ap_projects w !! pid) as [lk|] eqn:El; [|by apply wp_op_ret]. destruct (str_empty lk) eqn:Ee; [by apply wp_op_ret|].
  apply wp_op_bind, wp_local, wp_op_ret, wp_op_ret. split; [done|]. intros t. unfold MintAppToken, the_signer.
  destruct signer as [sg|] eqn:Esg; [|done]. destruct (str_empty id); [done|]. rewrite Ee. destruct (newAppTokenJTI rand id) as [jti|] eqn:Ej; cbn; [|done].
  unfold sign. destruct (SignedString _ _ _) as [t'|] eqn:Et; cbn; [|done]. intros [= <-]. exists appID. split; [done|]. exists id, row, lk, jti, sg. split_and!; try done; [by exists pid|by destruct lk].
Qed.
(** What the two token routes answer is what the store says. *)
Lemma verified_answer r req w w' x x' ok : internal_route retention Token UserFor signer r (RouteVerifyToken (Body req)) (w, x) = ((w', x'), Some (IVerified ok)) →
  w' = w ∧ ∃ app tok, uuid_Parse (vt_AppID req) = Some app ∧ uuid_Parse (vt_TokenID req) = Some tok ∧ ok = verify_token app tok (vt_Secret req) w.
Proof.
  intros Hrun. assert (wp (X := X) (λ _, True) (internal_route retention Token UserFor signer r (RouteVerifyToken (Body req))) (λ a w', a = IVerified ok →
    w' = w ∧ ∃ app tok, uuid_Parse (vt_AppID req) = Some app ∧ uuid_Parse (vt_TokenID req) = Some tok ∧ ok = verify_token app tok (vt_Secret req) w) w) as Hwp.
  { unfold internal_route. destruct (requireServiceToken_spec r (handleVerifyViewerToken (Body req))) as [[_ ->]|[_ ->]]; [|by apply wp_op_ret].
    unfold handleVerifyViewerToken, readInternalJSON. destruct (uuid_Parse (vt_AppID req)) as [app|] eqn:Ea; [|by apply wp_op_ret].
    destruct (uuid_Parse (vt_TokenID req)) as [tok|] eqn:Et; [|by apply wp_op_ret]. destruct (str_empty (vt_Secret req)); [by apply wp_op_ret|].
    unfold VerifyToken, with_uuid. rewrite Ea, Et. apply wp_op_bind. unfold app_error. apply wp_op_bind, wp_read; [done| |intros m; apply wp_op_ret; by apply wp_op_ret].
    apply wp_op_ret, wp_op_ret. intros [= <-]. split; [done|]. by exists app, tok. }
  specialize (Hwp x). rewrite Hrun in Hwp. by apply Hwp.
Qed.
Lemma active_answer r app tok w w' x x' active : internal_route retention Token UserFor signer r (RouteTokenActive (Body (app, tok))) (w, x) = ((w', x'), Some (IActive active)) →
  w' = w ∧ ∃ a t, uuid_Parse app = Some a ∧ uuid_Parse tok = Some t ∧ active = token_active a t w.
Proof.
  intros Hrun. assert (wp (X := X) (λ _, True) (internal_route retention Token UserFor signer r (RouteTokenActive (Body (app, tok)))) (λ a w', a = IActive active →
    w' = w ∧ ∃ a t, uuid_Parse app = Some a ∧ uuid_Parse tok = Some t ∧ active = token_active a t w) w) as Hwp.
  { unfold internal_route. destruct (requireServiceToken_spec r (handleTokenActive (Body (app, tok)))) as [[_ ->]|[_ ->]]; [|by apply wp_op_ret].
    unfold handleTokenActive, readInternalJSON. destruct (uuid_Parse app) as [a|] eqn:Ea; [|by apply wp_op_ret]. destruct (uuid_Parse tok) as [t|] eqn:Et; [|by apply wp_op_ret].
    unfold TokenActive, with_uuid. rewrite Ea, Et. apply wp_op_bind. unfold app_error. apply wp_op_bind, wp_read; [done| |intros m; apply wp_op_ret; by apply wp_op_ret].
    apply wp_op_ret, wp_op_ret. intros [= <-]. split; [done|]. by exists a, t. }
  specialize (Hwp x). rewrite Hrun in Hwp. by apply Hwp.
Qed.
(** C14: Without the service credential nothing is answered, and with it an app's
    credential speaks for that app only.  On every internal route, whatever fails:
    a request that does not present the credential gets 401 and changes nothing;
    and a token is only given out for an app that has a row, signed with the
    claims of that app's identity on the catalog project that its row names, so
    the caller chooses the app and nothing else. *)
Theorem internal_routes_guarded (r : IRequest) (c : internal_call) (w w' : AppsWorld) (x x' : X) (a : option ianswer)
    (Hrun : internal_route retention Token UserFor signer r c (w, x) = ((w', x'), a)) :
  (¬ holds_credential r → w' = w ∧ a = Some (IError 401 kindUnauthorized "invalid or missing internal service credential")) ∧
  ∀ t, a = Some (IToken t) → w' = w ∧ ∃ rand appID, c = RouteImpersonate rand (Body appID) ∧ spoken_for w rand appID t.
Proof.
  split.
  - intros Hn. unfold internal_route in Hrun. destruct (requireServiceToken_spec r (match c with
    | RouteResolve pid name channel => handleResolve pid name channel
    | RouteBundle hash => handleBundle hash
    | RouteVerifyToken body => handleVerifyViewerToken body
    | RouteTokenActive body => handleTokenActive body
    | RouteVerifySession body => handleVerifySession UserFor r body
    | RouteImpersonate rand body => handleImpersonate signer rand body
    | RouteAppendLog appID body => handleAppendLog retention appID body
    end)) as [[? _]|[_ He]]; [done|]. rewrite He in Hrun. by injection Hrun as <- <- <-.
  - intros t ->. assert ((∃ rand body, c = RouteImpersonate rand body) ∨ ∀ rand body, c ≠ RouteImpersonate rand body) as [(rand & body & ->)|Hc] by (destruct c; eauto; by right).
    2: { pose proof (only_impersonate r c w Hc x) as Hx. by rewrite Hrun in Hx. }
    unfold internal_route in Hrun. destruct (requireServiceToken_spec r (handleImpersonate signer rand body)) as [[_ He]|[_ He]]; rewrite He in Hrun; [|by injection Hrun].
    pose proof (wp_impersonate rand body w x) as Hx. rewrite Hrun in Hx. destruct Hx as [-> Hx]. split; [done|]. destruct (Hx t eq_refl) as (appID & -> & Hs). by exists rand, appID.
Qed.
End Given.
