(* ===== verification/WorkerClient.v ===== *)
(** * WorkerClient: app-worker's client of the API server
      (pkg/appworker/apiclient.go)

    The calls of the internal routes with the service credential, and the caches
    in front of them: answers with a time to live, verified bundles under a byte
    budget, and the bounded queue of render logs.  The other end of a call is the
    route of AppInternal. *)

From S2P Require Import Prelude GoTime CommitPool Authz RunWorld Tokens Password Calls AppStore AppHandlers AppInternal.

Definition resolveCacheTTL : Z := 15 * second.
Definition sessionCacheTTL : Z := 15 * second.
Definition verifyTokenPositiveTTL : Z := 15 * second.
Definition verifyTokenNegativeTTL : Z := 60 * second.
Definition tokenActiveCacheTTL : Z := 15 * second.
Definition defaultBundleCacheBytes : Z := 256 * 1024 * 1024.
Definition defaultLogQueueSize : nat := 256.
Definition defaultHTTPTimeout : Z := 30 * second.
Definition HardCapBundleMaxBytes : Z := 5242880.

(** ** Caches *)

(** A value, and the time from which it does not count. *)
Definition ttlCache (V : Type) : Type := gmap string (V * Z).
Section Ttl.
Context {V : Type}.
Definition ttl_get (now : Z) (key : string) (c : ttlCache V) : option V :=
  '(v, expiresAt) ← c !! key; if (now <? expiresAt)%Z then Some v else None.
Definition ttl_set (now : Z) (key : string) (v : V) (ttl : Z) (c : ttlCache V) : ttlCache V := <[key := (v, (now + ttl)%Z)]> c.
End Ttl.
Definition hashKey `{PL : !PoolLib} (parts : list string) : string := sha256_hex (concat_str (with_nul <$> parts)).

(** The entries by last use, most recent first; no two have one hash. *)
Record bundleLRU := MkBundleLRU { lru_maxBytes : Z; lru_curBytes : Z; lru_order : list (string * string) }.
Definition newBundleLRU (maxBytes : Z) : bundleLRU := MkBundleLRU maxBytes 0 [].
Definition size_of (data : string) : Z := Z.of_nat (slen data).
Definition lru_find (hash : string) (c : bundleLRU) : option string := snd <$> find (λ e, bool_decide (e.1 = hash)) (lru_order c).
Definition to_front (hash : string) (c : bundleLRU) : bundleLRU :=
  MkBundleLRU (lru_maxBytes c) (lru_curBytes c)
    (filter (λ e, e.1 = hash) (lru_order c) ++ filter (λ e, e.1 ≠ hash) (lru_order c)).
Definition lru_get (hash : string) (c : bundleLRU) : bundleLRU * option string :=
  match lru_find hash c with Some data => (to_front hash c, Some data) | None => (c, None) end.
(** Drop from the back until [size] bytes fit: what is left, and its bytes. *)
Fixpoint evict (size maxBytes cur : Z) (back : list (string * string)) : Z * list (string * string) :=
  match back with
  | e :: rest => if (maxBytes <? cur + size)%Z then evict size maxBytes (cur - size_of e.2) rest else (cur, back)
  | [] => (cur, [])
  end.
Definition lru_put (hash data : string) (c : bundleLRU) : bundleLRU :=
  match lru_find hash c with
  | Some _ => to_front hash c
  | None =>
    if (lru_maxBytes c <? size_of data)%Z then c
    else
      let (cur, back) := evict (size_of data) (lru_maxBytes c) (lru_curBytes c) (reverse (lru_order c)) in
      MkBundleLRU (lru_maxBytes c) (cur + size_of data) ((hash, data) :: reverse back)
  end.

(** ** The client *)

Record Resolved_ := MkResolved_ { rs_AppID : string; rs_VersionHash : string }.
Record SessionInfo := MkSessionInfo { si_UserID : string; si_ProjectMember : bool }.
Inductive cerr : Type :=
| APIError (status : Z) (kind msg : string)
| CallError (msg : string).
Record APIClient := MkAPIClient {
  c_resolve : ttlCache Resolved_;
  c_positive : ttlCache bool;
  c_inactive : ttlCache bool;
  c_wrongSecret : ttlCache bool;
  c_active : ttlCache bool;
  c_session : ttlCache SessionInfo;
  c_bundles : bundleLRU;
  c_maxBundleBytes : Z;
  c_logQueue : list appendLogRequest;
  c_logQueueSize : nat;
}.
Definition set_resolve m c := MkAPIClient m (c_positive c) (c_inactive c) (c_wrongSecret c) (c_active c) (c_session c) (c_bundles c) (c_maxBundleBytes c) (c_logQueue c) (c_logQueueSize c).
Definition set_positive m c := MkAPIClient (c_resolve c) m (c_inactive c) (c_wrongSecret c) (c_active c) (c_session c) (c_bundles c) (c_maxBundleBytes c) (c_logQueue c) (c_logQueueSize c).
Definition set_inactive m c := MkAPIClient (c_resolve c) (c_positive c) m (c_wrongSecret c) (c_active c) (c_session c) (c_bundles c) (c_maxBundleBytes c) (c_logQueue c) (c_logQueueSize c).
Definition set_wrongSecret m c := MkAPIClient (c_resolve c) (c_positive c) (c_inactive c) m (c_active c) (c_session c) (c_bundles c) (c_maxBundleBytes c) (c_logQueue c) (c_logQueueSize c).
Definition set_active m c := MkAPIClient (c_resolve c) (c_positive c) (c_inactive c) (c_wrongSecret c) m (c_session c) (c_bundles c) (c_maxBundleBytes c) (c_logQueue c) (c_logQueueSize c).
Definition set_session m c := MkAPIClient (c_resolve c) (c_positive c) (c_inactive c) (c_wrongSecret c) (c_active c) m (c_bundles c) (c_maxBundleBytes c) (c_logQueue c) (c_logQueueSize c).
Definition set_bundles m c := MkAPIClient (c_resolve c) (c_positive c) (c_inactive c) (c_wrongSecret c) (c_active c) (c_session c) m (c_maxBundleBytes c) (c_logQueue c) (c_logQueueSize c).
Definition set_logQueue m c := MkAPIClient (c_resolve c) (c_positive c) (c_inactive c) (c_wrongSecret c) (c_active c) (c_session c) (c_bundles c) (c_maxBundleBytes c) m (c_logQueueSize c).
Definition NewAPIClient (bundleCacheBytes maxBundleBytes : Z) (logQueueSize : nat) : APIClient :=
  MkAPIClient ∅ ∅ ∅ ∅ ∅ ∅ (newBundleLRU bundleCacheBytes) maxBundleBytes [] logQueueSize.

(** The clock of the worker, the store behind the server, and the client. *)
Record Worker := MkWorker { wk_now : Z; wk_store : AppsWorld; wk_client : APIClient }.
Definition set_store (s : AppsWorld) (k : Worker) : Worker := MkWorker (wk_now k) s (wk_client k).
Definition set_client (c : APIClient) (k : Worker) : Worker := MkWorker (wk_now k) (wk_store k) c.

Section Client.
Context `{UT : !UnicodeTables} `{PL : !PoolLib} `{DO : !DBOrder} `{GZ : !Gzip} `{J : !Jwt} `{UL : !UuidLib} `{FM : !FgaModel} `{TL : !TimeLib} {X : Type} `{F : !Faults X}.
(** The server: its settings, the credential it expects, its resolver and key. *)
Variable retention : Z.
Variable Token : option ServiceToken.
Variable UserFor : CallerRequest → Op AppsWorld X (result string (option string)).
Variable signer : option Signer.
Variable serviceToken : string.

(** A request over the network: it may not arrive, its answer may be lost, and
    the server may end while it serves it. *)
Definition remote (m : Op AppsWorld X ianswer) : Op Worker X (result string ianswer) := λ s,
  let (x, o) := fault s.2 in
  let run := m (wk_store s.1, x) in
  let after := set_store run.1.1 s.1 in
  match o with
  | Done => ((after, run.1.2), Some (match run.2 with Some a => Ok a | None => Err "EOF" end))
  | Failed e => ((s.1, x), Some (Err e))
  | Lost e => ((after, run.1.2), Some (Err e))
  | Crashed applied => ((if applied then after else s.1, x), None)
  end.
Definition doInternal (authz : string) (cookies : option string) (c : internal_call) : Op Worker X (result cerr ianswer) :=
  r ← remote (internal_route retention Token UserFor signer (MkIRequest ("Bearer " +:+ serviceToken) authz cookies) c);
  mret (match r with
        | Err e => Err (CallError ("appworker: call pipeline-api: " +:+ e))
        | Ok (IError status kind msg) => Err (APIError status kind msg)
        | Ok a => Ok a
        end).
Definition unexpected : cerr := CallError "appworker: decode pipeline-api response".
Definition cached {V} (cache : APIClient → ttlCache V) (key : string) : Op Worker X (option V) := local (λ k, ttl_get (wk_now k) key (cache (wk_client k))).
Definition remember {V} (cache : APIClient → ttlCache V) (set : ttlCache V → APIClient → APIClient) (key : string) (v : V) (ttl : Z) : Op Worker X () :=
  internal (λ k, (set_client (set (ttl_set (wk_now k) key v ttl (cache (wk_client k))) (wk_client k)) k, ())).

(** *** Resolve *)

Definition Worker_Resolve (pid name channel : string) : Op Worker X (result cerr Resolved_) :=
  let channel := if str_empty channel then "production" else channel in
  let key := hashKey ["resolve"; pid; name; channel] in
  let fetch :=
    r ← doInternal EmptyString None (RouteResolve pid name channel);
    mret (match r with Ok (IResolved app hash) => Ok (MkResolved_ app hash) | Ok _ => Err unexpected | Err e => Err e end) in
  if bool_decide (channel = "draft") then fetch
  else
    v ← cached c_resolve key;
    match v with
    | Some v => mret (Ok v)
    | None => try_op fetch (λ res, _ ← remember c_resolve set_resolve key res resolveCacheTTL; mret (Ok res))
    end.

(** *** Bundle *)

Definition Worker_Bundle (hash : string) : Op Worker X (result cerr string) :=
  b ← internal (λ k, let (l, b) := lru_get hash (c_bundles (wk_client k)) in (set_client (set_bundles l (wk_client k)) k, b));
  match b with
  | Some b => mret (Ok b)
  | None =>
    try_op (r ← doInternal EmptyString None (RouteBundle hash);
            mret (match r with Ok (IBundle data) => Ok data | Ok _ => Err unexpected | Err e => Err e end)) (λ data,
    max ← local (λ k, c_maxBundleBytes (wk_client k));
    if (max <? size_of data)%Z then mret (Err (CallError ("appworker: bundle " +:+ hash +:+ " exceeds " +:+ itoa max +:+ "-byte structural cap")))
    else if negb (bool_decide (sha256_hex data = hash)) then mret (Err (CallError ("appworker: bundle hash mismatch: want " +:+ hash +:+ ", got " +:+ sha256_hex data)))
    else
      _ ← internal (λ k, (set_client (set_bundles (lru_put hash data (c_bundles (wk_client k))) (wk_client k)) k, ()));
      mret (Ok data))
  end.

(** *** Viewer tokens *)

Definition positiveKey (app tok secret : string) : string := hashKey ["verify-token-pos"; app; tok; secret].
Definition inactiveKey (app tok : string) : string := hashKey ["verify-token-inactive"; app; tok].
Definition wrongSecretKey (app tok secret : string) : string := hashKey ["verify-token-wrong-secret"; app; tok; secret].
Definition activeKey (app tok : string) : string := hashKey ["token-active"; app; tok].
(** The three caches in front of a verification. *)
Definition known_verdict (now : Z) (app tok secret : string) (c : APIClient) : option bool :=
  match ttl_get now (positiveKey app tok secret) (c_positive c) with
  | Some v => Some v
  | None =>
    match ttl_get now (inactiveKey app tok) (c_inactive c) with
    | Some _ => Some false
    | None => match ttl_get now (wrongSecretKey app tok secret) (c_wrongSecret c) with Some _ => Some false | None => None end
    end
  end.
Definition known_active (now : Z) (app tok : string) (c : APIClient) : option bool := ttl_get now (activeKey app tok) (c_active c).
Definition remember_active (now : Z) (app tok : string) (active : bool) (c : APIClient) : APIClient :=
  set_active (ttl_set now (activeKey app tok) active tokenActiveCacheTTL (c_active c)) c.
Definition remember_valid (now : Z) (app tok secret : string) (c : APIClient) : APIClient :=
  set_positive (ttl_set now (positiveKey app tok secret) true verifyTokenPositiveTTL (c_positive c)) c.
(** A refusal, by whether the token itself is active. *)
Definition remember_refusal (now : Z) (app tok secret : string) (active : bool) (c : APIClient) : APIClient :=
  if active then set_wrongSecret (ttl_set now (wrongSecretKey app tok secret) false verifyTokenNegativeTTL (c_wrongSecret c)) c
  else set_inactive (ttl_set now (inactiveKey app tok) false verifyTokenNegativeTTL (c_inactive c)) c.
Definition on_client (f : Z → APIClient → APIClient) : Op Worker X () := internal (λ k, (set_client (f (wk_now k) (wk_client k)) k, ())).

Definition CheckTokenActive (app tok : string) : Op Worker X (result cerr bool) :=
  v ← local (λ k, known_active (wk_now k) app tok (wk_client k));
  match v with
  | Some v => mret (Ok v)
  | None =>
    r ← doInternal EmptyString None (RouteTokenActive (Body (app, tok)));
    match r with
    | Ok (IActive active) => _ ← on_client (λ now, remember_active now app tok active); mret (Ok active)
    | Ok _ => mret (Err unexpected)
    | Err e => mret (Err e)
    end
  end.
Definition Worker_VerifyToken (app tok secret : string) : Op Worker X (result cerr bool) :=
  v ← local (λ k, known_verdict (wk_now k) app tok secret (wk_client k));
  match v with
  | Some v => mret (Ok v)
  | None =>
    r ← doInternal EmptyString None (RouteVerifyToken (Body (MkVerifyTokenRequest app tok secret)));
    match r with
    | Ok (IVerified true) => _ ← on_client (λ now, remember_valid now app tok secret); mret (Ok true)
    | Ok (IVerified false) =>
      a ← CheckTokenActive app tok;
      match a with
      | Err _ => mret (Ok false)
      | Ok active => _ ← on_client (λ now, remember_refusal now app tok secret active); mret (Ok false)
      end
    | Ok _ => mret (Err unexpected)
    | Err e => mret (Err e)
    end
  end.

(** *** Sessions, credentials and logs *)

Definition Worker_VerifySession (pid cookies authz : string) : Op Worker X (result cerr SessionInfo) :=
  let key := hashKey ["session"; pid; cookies; authz] in
  v ← cached c_session key;
  match v with
  | Some v => mret (Ok v)
  | None =>
    r ← doInternal authz (if str_empty cookies then None else Some cookies) (RouteVerifySession (Body pid));
    match r with
    | Ok (ISession user member) =>
      let info := MkSessionInfo user member in
      _ ← remember c_session set_session key info sessionCacheTTL; mret (Ok info)
    | Ok _ => mret (Err unexpected)
    | Err e => mret (Err e)
    end
  end.
Definition Worker_Impersonate (rand : result string string) (app : string) : Op Worker X (result cerr string) :=
  r ← doInternal EmptyString None (RouteImpersonate rand (Body app));
  mret (match r with Ok (IToken t) => Ok t | Ok _ => Err unexpected | Err e => Err e end).
(** The record, or nothing when the queue is full. *)
Definition AppendLog (rec : appendLogRequest) (c : APIClient) : APIClient * result string () :=
  if (length (c_logQueue c) <? c_logQueueSize c)%nat then (set_logQueue (c_logQueue c ++ [rec]) c, Ok ())
  else (c, Err "appworker: render-log queue full, dropping record").
(** One round of the loop: the oldest record is taken and posted, its error dropped. *)
Definition runLogLoop_once : Op Worker X () :=
  rec ← internal (λ k, match c_logQueue (wk_client k) with
                       | [] => (k, None)
                       | rec :: q => (set_client (set_logQueue q (wk_client k)) k, Some rec)
                       end);
  match rec with
  | Some rec => ignore (doInternal EmptyString None (RouteAppendLog (al_AppID rec) (Body rec)))
  | None => mret ()
  end.
End Client.
