(* ===== verification/WorkerRevoke.v ===== *)
(** * WorkerRevoke: the life of a viewer token across app-worker and the store
      (pkg/appworker/apiclient.go, pkg/pipelineapi/apps: internal.go, store.go)

    The requests of one app-worker that verify viewer tokens, with their calls in
    flight at the same time, the caches they share, the store behind the server
    and whatever else changes it: a transition system whose steps are those of
    WorkerClient.  How long a revoked token may still open an app, and that
    nobody's wrong guesses shut out its holder. *)

From S2P Require Import Prelude GoTime CommitPool Authz RunWorld Tokens Password Calls AppStore AppInv AppHistory AppHandlers AppInternal WorkerClient.

(** ** The system *)

(** Where a verification stands; [VValid] with the time the server answered. *)
Inductive vstage : Type :=
| VAsked
| VValid (at_ : Z)
| VRefused
| VClassified (active : bool).
Record vflight := MkVflight { vf_app : string; vf_tok : string; vf_secret : string; vf_begun : Z; vf_stage : vstage }.
Record aflight := MkAflight { af_app : string; af_tok : string; af_begun : Z; af_answer : option (bool * Z) }.
Record wsys := MkWsys { ws_now : Z; ws_store : AppsWorld; ws_client : APIClient; ws_v : list vflight; ws_a : list aflight }.
(** What a request is told, and when; or what happens to the store. *)
Inductive wevent : Type :=
| Verdict (now : Z) (app tok secret : string) (valid : bool)
| ActiveVerdict (now : Z) (app tok : string) (active : bool)
| StoreCall (c : store_call)
| Quiet.
Definition at_stage (f : vflight) (st : vstage) : vflight := MkVflight (vf_app f) (vf_tok f) (vf_secret f) (vf_begun f) st.
(** Waiting for the answer of a call that has a deadline. *)
Definition waiting (st : vstage) : bool := match st with VAsked | VValid _ => true | _ => false end.

(** The ids the server parses hold no NUL. *)
Class UuidText `{UL : !UuidLib} : Prop := uuid_text : ∀ s u, uuid_Parse s = Some u → nul_free s.

Section System.
Context `{UT : !UnicodeTables} `{PL : !PoolLib} `{DO : !DBOrder} `{GZ : !Gzip} `{J : !Jwt} `{UL : !UuidLib} `{FM : !FgaModel} `{TL : !TimeLib} {X : Type} `{F : !Faults X}.
Variable retention : Z.
Variable Token : option ServiceToken.
Variable UserFor : CallerRequest → Op AppsWorld X (result string (option string)).
Variable signer : option Signer.
Variable serviceToken : string.
(** A call takes at most this long, from its start to the use of its answer. *)
Variable limit : Z.
Abbreviation serve_call := (internal_route retention Token UserFor signer (MkIRequest ("Bearer " +:+ serviceToken) EmptyString None)).

Inductive wstep : wsys → wevent → wsys → Prop :=
| w_time n w c vs as_ t : (n ≤ t)%Z → (∀ f, f ∈ vs → waiting (vf_stage f) = true → (t ≤ vf_begun f + limit)%Z) →
    (∀ f, f ∈ as_ → (t ≤ af_begun f + limit)%Z) → wstep (MkWsys n w c vs as_) Quiet (MkWsys t w c vs as_)
| w_store n w c vs as_ sc (x : X) : wstep (MkWsys n w c vs as_) (StoreCall sc) (MkWsys n (run_call retention sc (w, x)).1.1 c vs as_)
(** A verification: a known verdict, or a call, its answer, and what becomes of it. *)
| w_known n w c vs as_ app tok secret v : known_verdict n app tok secret c = Some v →
    wstep (MkWsys n w c vs as_) (Verdict n app tok secret v) (MkWsys n w c vs as_)
| w_ask n w c vs as_ app tok secret : known_verdict n app tok secret c = None →
    wstep (MkWsys n w c vs as_) Quiet (MkWsys n w c (MkVflight app tok secret n VAsked :: vs) as_)
| w_answered n w c vs1 vs2 as_ f w' (x x' : X) ok : vf_stage f = VAsked →
    serve_call (RouteVerifyToken (Body (MkVerifyTokenRequest (vf_app f) (vf_tok f) (vf_secret f)))) (w, x) = ((w', x'), Some (IVerified ok)) →
    wstep (MkWsys n w c (vs1 ++ f :: vs2) as_) Quiet (MkWsys n w' c (vs1 ++ at_stage f (if ok then VValid n else VRefused) :: vs2) as_)
| w_failed n w c vs1 vs2 as_ f : waiting (vf_stage f) = true → wstep (MkWsys n w c (vs1 ++ f :: vs2) as_) Quiet (MkWsys n w c (vs1 ++ vs2) as_)
| w_valid n w c vs1 vs2 as_ f a : vf_stage f = VValid a →
    wstep (MkWsys n w c (vs1 ++ f :: vs2) as_) (Verdict n (vf_app f) (vf_tok f) (vf_secret f) true)
      (MkWsys n w (remember_valid n (vf_app f) (vf_tok f) (vf_secret f) c) (vs1 ++ vs2) as_)
| w_classified n w c vs1 vs2 as_ f active : vf_stage f = VRefused →
    known_active n (vf_app f) (vf_tok f) c = Some active ∨ (∃ g a, g ∈ as_ ∧ af_app g = vf_app f ∧ af_tok g = vf_tok f ∧ af_answer g = Some (active, a)) →
    wstep (MkWsys n w c (vs1 ++ f :: vs2) as_) Quiet (MkWsys n w c (vs1 ++ at_stage f (VClassified active) :: vs2) as_)
| w_unclassified n w c vs1 vs2 as_ f : vf_stage f = VRefused →
    wstep (MkWsys n w c (vs1 ++ f :: vs2) as_) (Verdict n (vf_app f) (vf_tok f) (vf_secret f) false) (MkWsys n w c (vs1 ++ vs2) as_)
| w_refused n w c vs1 vs2 as_ f active : vf_stage f = VClassified active →
    wstep (MkWsys n w c (vs1 ++ f :: vs2) as_) (Verdict n (vf_app f) (vf_tok f) (vf_secret f) false)
      (MkWsys n w (remember_refusal n (vf_app f) (vf_tok f) (vf_secret f) active c) (vs1 ++ vs2) as_)
(** A question whether a token is active. *)
| w_active_known n w c vs as_ app tok v : known_active n app tok c = Some v →
    wstep (MkWsys n w c vs as_) (ActiveVerdict n app tok v) (MkWsys n w c vs as_)
| w_active_ask n w c vs as_ app tok : known_active n app tok c = None →
    wstep (MkWsys n w c vs as_) Quiet (MkWsys n w c vs (MkAflight app tok n None :: as_))
| w_active_answered n w c vs as1 as2 f w' (x x' : X) active : af_answer f = None →
    serve_call (RouteTokenActive (Body (af_app f, af_tok f))) (w, x) = ((w', x'), Some (IActive active)) →
    wstep (MkWsys n w c vs (as1 ++ f :: as2)) Quiet (MkWsys n w' c vs (as1 ++ MkAflight (af_app f) (af_tok f) (af_begun f) (Some (active, n)) :: as2))
| w_active_failed n w c vs as1 as2 f : wstep (MkWsys n w c vs (as1 ++ f :: as2)) Quiet (MkWsys n w c vs (as1 ++ as2))
| w_active_end n w c vs as1 as2 f active a : af_answer f = Some (active, a) →
    wstep (MkWsys n w c vs (as1 ++ f :: as2)) (ActiveVerdict n (af_app f) (af_tok f) active)
      (MkWsys n w (remember_active n (af_app f) (af_tok f) active c) vs (as1 ++ as2)).
Inductive wrun : wsys → list wevent → wsys → Prop :=
| wrun_nil s : wrun s [] s
| wrun_cons s e s1 l s2 : wstep s e s1 → wrun s1 l s2 → wrun s (e :: l) s2.
Lemma wrun_invariant (I : wsys → Prop) (P : wevent → Prop) : (∀ s e s', wstep s e s' → P e → I s → I s') →
  ∀ s l s', wrun s l s' → (∀ e, e ∈ l → P e) → I s → I s'.
Proof. intros HI s l s'. induction 1 as [|s e s1 l s2 Hs Hr IH]; intros HP Hi; [done|]. apply IH; [intros e' He'; apply HP; by right|]. eapply HI; [done|apply HP; by left|done]. Qed.

(** ** Keys *)

Context `{UX : !UuidText}.
Hypothesis collision_free : ∀ x y, sha256_hex x = sha256_hex y → x = y.
Lemma with_nul_inj s t : with_nul s = with_nul t → s = t.
Proof.
  unfold with_nul. revert t. induction s as [|c s IH]; intros [|d t]; cbn; [done|intros [= _ H]; by destruct t|intros [= _ H]; by destruct s|].
  intros [= -> H]. by rewrite (IH _ H).
Qed.
Lemma hashKey_3 k app tok app' tok' : nul_free k → nul_free app → nul_free tok → nul_free app' → nul_free tok' →
  hashKey [k; app; tok] = hashKey [k; app'; tok'] → app = app' ∧ tok = tok'.
Proof. intros Hk Ha Ht Ha' Ht' E%collision_free. apply key_parts in E; [by injection E|by repeat constructor..]. Qed.
Lemma hashKey_4 k app tok secret app' tok' secret' : nul_free k → nul_free app → nul_free tok → nul_free app' → nul_free tok' →
  hashKey [k; app; tok; secret] = hashKey [k; app'; tok'; secret'] → app = app' ∧ tok = tok' ∧ secret = secret'.
Proof.
  intros Hk Ha Ht Ha' Ht' E%collision_free. cbn [fmap list_fmap concat_str foldr] in E.
  assert (∀ s t u v, nul_free s → nul_free t → with_nul s +:+ u = with_nul t +:+ v → s = t ∧ u = v) as Hsplit.
  { intros s t u v Hs Hn. unfold with_nul. rewrite !str_app_assoc. intros H. apply (span_byte_inj (λ c, negb (Ascii.eqb c nul))) in H as [-> H]; [|done..]. by injection H. }
  apply Hsplit in E as [_ E]; [|done..]. apply Hsplit in E as [-> E]; [|done..]. apply Hsplit in E as [-> E]; [|done..]. rewrite !str_app_nil in E.
  by apply with_nul_inj in E.
Qed.

(** ** What always holds *)

Hypothesis Hlimit : (0 ≤ limit)%Z.
Definition parsed (app tok : string) : Prop := is_Some (uuid_Parse app) ∧ is_Some (uuid_Parse tok).
Definition vflight_ok (now : Z) (f : vflight) : Prop :=
  (vf_begun f ≤ now)%Z ∧ (waiting (vf_stage f) = true → now ≤ vf_begun f + limit)%Z ∧
  ∀ a, vf_stage f = VValid a → (vf_begun f ≤ a ≤ now)%Z ∧ parsed (vf_app f) (vf_tok f).
Definition aflight_ok (now : Z) (f : aflight) : Prop :=
  (af_begun f ≤ now ≤ af_begun f + limit)%Z ∧ ∀ v a, af_answer f = Some (v, a) → (af_begun f ≤ a ≤ now)%Z ∧ parsed (af_app f) (af_tok f).
Record wok (s : wsys) : Prop := MkWok {
  ok_positive : ∀ k v e, c_positive (ws_client s) !! k = Some (v, e) → v = true ∧ (e ≤ ws_now s + verifyTokenPositiveTTL)%Z;
  ok_active : ∀ k v e, c_active (ws_client s) !! k = Some (v, e) → (e ≤ ws_now s + tokenActiveCacheTTL)%Z;
  ok_v : ∀ f, f ∈ ws_v s → vflight_ok (ws_now s) f;
  ok_a : ∀ f, f ∈ ws_a s → aflight_ok (ws_now s) f;
}.
Lemma in_rest {A} (x f : A) l1 l2 : x ∈ l1 ++ l2 → x ∈ l1 ++ f :: l2.
Proof. rewrite !elem_of_app, elem_of_cons. tauto. Qed.
Lemma in_changed {A} (x f g : A) l1 l2 : x ∈ l1 ++ g :: l2 → x = g ∨ x ∈ l1 ++ f :: l2.
Proof. rewrite !elem_of_app, !elem_of_cons. tauto. Qed.
Lemma in_mid {A} (f : A) l1 l2 : f ∈ l1 ++ f :: l2.
Proof. rewrite elem_of_app, elem_of_cons. auto. Qed.
Lemma set_positive_lookup n app tok secret c k v e : c_positive (remember_valid n app tok secret c) !! k = Some (v, e) →
  (k = positiveKey app tok secret ∧ v = true ∧ e = (n + verifyTokenPositiveTTL)%Z) ∨ c_positive c !! k = Some (v, e).
Proof. cbn. unfold ttl_set. intros [[<- [= <- <-]]|[_ H]]%(lookup_insert_Some (M:=gmap string)); auto. Qed.
Lemma set_active_lookup n app tok b c k v e : c_active (remember_active n app tok b c) !! k = Some (v, e) →
  (k = activeKey app tok ∧ v = b ∧ e = (n + tokenActiveCacheTTL)%Z) ∨ c_active c !! k = Some (v, e).
Proof. cbn. unfold ttl_set. intros [[<- [= <- <-]]|[_ H]]%(lookup_insert_Some (M:=gmap string)); auto. Qed.
Lemma refusal_others n app tok secret b c : c_positive (remember_refusal n app tok secret b c) = c_positive c ∧ c_active (remember_refusal n app tok secret b c) = c_active c.
Proof. by destruct b. Qed.
Lemma vflight_later n t f : (n ≤ t)%Z → (waiting (vf_stage f) = true → t ≤ vf_begun f + limit)%Z → vflight_ok n f → vflight_ok t f.
Proof. intros Hn Hw (H1 & H2 & H3). split_and!; [lia|done|]. intros a Ha. destruct (H3 a Ha) as [H4 H5]. split; [lia|done]. Qed.
Lemma wok_step s e s' : wstep s e s' → wok s → wok s'.
Proof.
  intros Hs [Hp Ha Hv Hb]. destruct Hs; cbn in *.
  - split; cbn; [intros k v e Hk%Hp; split; [tauto|lia]|intros k v e Hk%Ha; lia|intros f Hf; eapply vflight_later; eauto|].
    intros f Hf. destruct (Hb f Hf) as [H2 H3]. split; [specialize (H1 f Hf); lia|]. intros v a Hva. destruct (H3 v a Hva). split; [lia|done].
  - by split.
  - by split.
  - split; try done. cbn. intros f [->|Hf]%elem_of_cons; [|by apply Hv]. split_and!; cbn; [lia|lia|done].
  - pose proof (Hv f (in_mid _ _ _)) as (H1 & H2 & _). rewrite H in H2. split; try done. cbn. intros g [->|Hg]%(in_changed g f); [|by apply Hv].
    apply verified_answer in H0 as (-> & app & tok & Happ & Htok & _). cbn in Happ, Htok. split_and!; cbn; [done|intros _; by apply H2|]. intros a. destruct ok; [|done]. intros [= <-].
    split; [lia|]. split; by eexists.
  - split; try done. cbn. intros g Hg%(in_rest _ f). by apply Hv.
  - split; try done; cbn; [|intros g Hg%(in_rest _ f); by apply Hv]. intros k v e [(_ & -> & ->)|Hk]%set_positive_lookup; [split; [done|lia]|by eapply Hp].
  - pose proof (Hv f (in_mid _ _ _)) as (H1 & _ & _). split; try done. cbn. intros g [->|Hg]%(in_changed g f); [|by apply Hv]. by split_and!.
  - split; try done. cbn. intros g Hg%(in_rest _ f). by apply Hv.
  - destruct (refusal_others n (vf_app f) (vf_tok f) (vf_secret f) active c) as [E1 E2]. split; cbn; rewrite ?E1, ?E2; try done. intros g Hg%(in_rest _ f). by apply Hv.
  - by split.
  - split; try done. cbn. intros f [->|Hf]%elem_of_cons; [|by apply Hb]. split; cbn; [lia|done].
  - pose proof (Hb f (in_mid _ _ _)) as [H1 _]. split; try done. cbn. intros g [->|Hg]%(in_changed g f); [|by apply Hb].
    apply active_answer in H0 as (-> & a & t & Happ & Htok & _). split; [done|]. cbn. intros v b [= <- <-]. split; [lia|]. split; by eexists.
  - split; try done. cbn. intros g Hg%(in_rest _ f). by apply Hb.
  - split; try done; cbn; [|intros g Hg%(in_rest _ f); by apply Hb]. intros k v e [(_ & _ & ->)|Hk]%set_active_lookup; [lia|by eapply Ha].
Qed.

(** ** After a revocation *)

Section Revoked.
Variable T : Z.
Variable a tk : string.
(** The texts that name the revoked token. *)
Definition names (app tok : string) : Prop := uuid_Parse app = Some a ∧ uuid_Parse tok = Some tk.
Definition bound : Z := T + limit + verifyTokenPositiveTTL.
Definition revoked_row (w : AppsWorld) : Prop := ∃ t, ap_tokens w !! tk = Some t ∧ tk_AppID t = a ∧ tk_RevokedAt t ≠ None.
Record revoked_ok (s : wsys) : Prop := MkRevokedOk {
  rv_ok : wok s;
  rv_row : revoked_row (ws_store s);
  rv_positive : ∀ app tok secret v e, names app tok → c_positive (ws_client s) !! positiveKey app tok secret = Some (v, e) → (e ≤ bound)%Z;
  rv_active : ∀ app tok e, names app tok → c_active (ws_client s) !! activeKey app tok = Some (true, e) → (e ≤ bound)%Z;
  rv_v : ∀ f b, f ∈ ws_v s → vf_stage f = VValid b → names (vf_app f) (vf_tok f) → (b ≤ T)%Z;
  rv_a : ∀ f b, f ∈ ws_a s → af_answer f = Some (true, b) → names (af_app f) (af_tok f) → (b ≤ T)%Z;
}.
Lemma revoked_dead app tok w : names app tok → revoked_row w → ∀ app' tok' secret, uuid_Parse app = Some app' → uuid_Parse tok = Some tok' →
  verify_token app' tok' secret w = false ∧ token_active app' tok' w = false.
Proof.
  intros [Ha Ht] (t & Hr & Hid & Hrev) app' tok' secret Ha' Ht'. rewrite Ha in Ha'. rewrite Ht in Ht'. injection Ha' as <-. injection Ht' as <-.
  unfold verify_token, token_active, token_of. rewrite Hr. cbn. rewrite bool_decide_true by done. by destruct (tk_RevokedAt t).
Qed.
Lemma nul_free_names app tok : names app tok → nul_free app ∧ nul_free tok.
Proof. intros [Ha Ht]. split; by eapply uuid_text. Qed.
Lemma nul_free_parsed app tok : parsed app tok → nul_free app ∧ nul_free tok.
Proof. intros [[u Ha] [v Ht]]. split; by eapply uuid_text. Qed.
Definition told_ok (e : wevent) : Prop :=
  match e with
  | Verdict n app tok _ true | ActiveVerdict n app tok true => names app tok → (n < bound)%Z
  | _ => True
  end.
(** An answer of yes that is used in time was given before the revocation. *)
Lemma in_time (b begun n : Z) : (begun ≤ b)%Z → (b ≤ T)%Z → (n ≤ begun + limit)%Z → (n < bound ∧ n + verifyTokenPositiveTTL ≤ bound)%Z.
Proof. unfold bound, verifyTokenPositiveTTL, second. lia. Qed.
Lemma revoked_step s e s' : wstep s e s' → (∀ c, e = StoreCall c → ¬ deletes a c) → revoked_ok s → revoked_ok s' ∧ told_ok e.
Proof.
  intros Hs Hd [Hok Hrow Hpos Hact Hrv Hra]. pose proof (wok_step _ _ _ Hs Hok) as Hok'. destruct Hok as [Hp Hac Hv Hb].
  assert (∀ k v e', ttl_get (ws_now s) k (c_positive (ws_client s)) = Some v → c_positive (ws_client s) !! k = Some (v, e') → (ws_now s < e')%Z) as Hfresh.
  { intros k v e' Hg Hk. unfold ttl_get in Hg. rewrite Hk in Hg. cbn in Hg. destruct (_ <? _)%Z eqn:E; [lia|done]. }
  destruct Hs; cbn in *.
  - by split.
  - split; [|done]. split; try done. cbn. pose proof (revoked_stays retention a tk sc (Hd sc eq_refl) w Hrow x) as Hx. by destruct (run_call retention sc (w, x)) as [[w' x'] [[]|]].
  - split; [by split|]. destruct v; [|done]. intros Hn. unfold known_verdict in H. destruct (ttl_get n _ (c_positive c)) as [v|] eqn:Eg; [|repeat case_match; done].
    unfold ttl_get in Eg. destruct (c_positive c !! positiveKey app tok secret) as [[v' e']|] eqn:Ek; cbn in Eg; [|done]. destruct (n <? e')%Z eqn:E; [|done].
    specialize (Hpos _ _ _ _ _ Hn Ek). lia.
  - split; [|done]. split; try done. cbn. intros f b [->|Hf]%elem_of_cons; [done|by apply Hrv].
  - split; [|done]. apply verified_answer in H0 as (-> & app & tok & Happ & Htok & Hok0). cbn in Happ, Htok. split; try done. cbn.
    intros g b [->|Hg]%(in_changed g f); [|by apply Hrv]. cbn. destruct ok; [|done]. intros _ Hn. destruct (revoked_dead _ _ w Hn Hrow _ _ (vf_secret f) Happ Htok) as [Hf _]. cbn in Hok0. congruence.
  - split; [|done]. split; try done. cbn. intros g b Hg%(in_rest _ f). by apply Hrv.
  - pose proof (Hv f (in_mid _ _ _)) as (_ & H2 & H3). rewrite H in H2. destruct (H3 a0 H) as [H4 Hparse]. specialize (H2 eq_refl).
    assert (names (vf_app f) (vf_tok f) → (n < bound ∧ n + verifyTokenPositiveTTL ≤ bound)%Z) as Hin.
    { intros Hn. apply (in_time a0 (vf_begun f)); [lia| |done]. by eapply Hrv; [apply in_mid|..]. }
    split; [|by intros Hn; apply Hin]. split; try done; cbn; [|intros g b Hg%(in_rest _ f); by apply Hrv].
    intros app tok secret v e Hn [(Hk & -> & ->)|Hk]%set_positive_lookup; [|by eapply Hpos]. apply nul_free_names in Hn as Hnf. destruct Hnf as [Hn1 Hn2]. destruct (nul_free_parsed _ _ Hparse) as [Hn3 Hn4].
    apply hashKey_4 in Hk as (-> & -> & _); try done. by apply Hin.
  - split; [|done]. split; try done. cbn. intros g b [->|Hg]%(in_changed g f); [done|by apply Hrv].
  - split; [|done]. split; try done. cbn. intros g b Hg%(in_rest _ f). by apply Hrv.
  - split; [|done]. destruct (refusal_others n (vf_app f) (vf_tok f) (vf_secret f) active c) as [E1 E2]. split; cbn; rewrite ?E1, ?E2; try done. intros g b Hg%(in_rest _ f). by apply Hrv.
  - split; [by split|]. destruct v; [|done]. intros Hn. unfold known_active, ttl_get in H. destruct (c_active c !! activeKey app tok) as [[v' e']|] eqn:Ek; cbn in H; [|done].
    destruct (n <? e')%Z eqn:E; [|done]. injection H as ->. specialize (Hact _ _ _ Hn Ek). lia.
  - split; [|done]. split; try done. cbn. intros f b [->|Hf]%elem_of_cons; [done|by apply Hra].
  - split; [|done]. apply active_answer in H0 as (-> & app & tok & Happ & Htok & Hok0). split; try done. cbn. intros g b [->|Hg]%(in_changed g f); [|by apply Hra].
    cbn. intros [= -> _] Hn. destruct (revoked_dead _ _ w Hn Hrow _ _ EmptyString Happ Htok) as [_ Hf]. congruence.
  - split; [|done]. split; try done. cbn. intros g b Hg%(in_rest _ f). by apply Hra.
  - pose proof (Hb f (in_mid _ _ _)) as [H2 H3]. destruct (H3 _ _ H) as [H4 Hparse].
    assert (active = true → names (af_app f) (af_tok f) → (n < bound ∧ n + verifyTokenPositiveTTL ≤ bound)%Z) as Hin.
    { intros -> Hn. apply (in_time a0 (af_begun f)); [lia| |lia]. by eapply Hra; [apply in_mid|..]. }
    split; [|destruct active; [|done]; intros Hn; by apply Hin]. split; try done; cbn; [|intros g b Hg%(in_rest _ f); by apply Hra].
    intros app tok e Hn [(Hk & <- & ->)|Hk]%set_active_lookup; [|by eapply Hact]. apply nul_free_names in Hn as Hnf. destruct Hnf as [Hn1 Hn2]. destruct (nul_free_parsed _ _ Hparse) as [Hn3 Hn4].
    apply hashKey_3 in Hk as (-> & ->); try done. by apply Hin.
Qed.
Lemma revoked_run s l s' : wrun s l s' → (∀ c, StoreCall c ∈ l → ¬ deletes a c) → revoked_ok s → ∀ e, e ∈ l → told_ok e.
Proof.
  induction 1 as [|s e s1 l s2 Hs Hr IH]; intros Hd Hi e' He'; [by apply elem_of_nil in He'|].
  destruct (revoked_step _ _ _ Hs) as [Hi1 Ht]; [intros c ->; apply Hd; by left|done|]. apply elem_of_cons in He' as [->|He']; [done|].
  apply IH; [intros c Hc; apply Hd; by right|done|done].
Qed.
Lemma revoked_start s : wok s → T = ws_now s → revoked_row (ws_store s) → revoked_ok s.
Proof.
  intros Hok HT Hrow. destruct Hok as [Hp Ha Hv Hb]. split; try done.
  - intros app tok secret v e _ [_ He]%Hp. unfold bound. lia.
  - intros app tok e _ He%Ha. unfold bound, verifyTokenPositiveTTL, tokenActiveCacheTTL in *. lia.
  - intros f b Hf Hst _. destruct (Hv f Hf) as (_ & _ & H3). destruct (H3 b Hst). lia.
  - intros f b Hf Hst _. destruct (Hb f Hf) as [_ H3]. destruct (H3 _ b Hst). lia.
Qed.
End Revoked.

(** A worker that has just started, at time [n] over the store [w]. *)
Definition boot (n : Z) (w : AppsWorld) : wsys := MkWsys n w (NewAPIClient defaultBundleCacheBytes HardCapBundleMaxBytes defaultLogQueueSize) [] [].
Lemma wok_boot n w : wok (boot n w).
Proof. split; cbn; intros *; rewrite ?lookup_empty; try done; set_solver. Qed.
Lemma wok_run s l s' : wrun s l s' → wok s → wok s'.
Proof. intros Hr. eapply (wrun_invariant wok (λ _, True)); [|exact Hr|done]. intros s1 e s2 Hs _. by eapply wok_step. Qed.

(** ** Wrong guesses *)

Section Holder.
Variable a tk app tok secret : string.
Hypothesis Happ : uuid_Parse app = Some a.
Hypothesis Htok : uuid_Parse tok = Some tk.
(** The token of the holder, and that no refusal of it is kept anywhere. *)
Definition live_row (w : AppsWorld) : Prop := ∃ t, ap_tokens w !! tk = Some t ∧ tk_AppID t = a ∧ tk_RevokedAt t = None ∧ tk_hash t = hashToken (tk_salt t) secret.
Definition holds (w : AppsWorld) (t : TokenRow) : Prop := ap_tokens w !! tk = Some t.
Record holder_ok (t : TokenRow) (s : wsys) : Prop := MkHolderOk {
  h_ok : wok s;
  h_row : holds (ws_store s) t;
  h_inactive : c_inactive (ws_client s) !! inactiveKey app tok = None;
  h_wrong : c_wrongSecret (ws_client s) !! wrongSecretKey app tok secret = None;
  h_active : ∀ v e, c_active (ws_client s) !! activeKey app tok = Some (v, e) → v = true;
  h_v : ∀ f, f ∈ ws_v s → match vf_stage f with VAsked => True | VValid _ => True
        | VRefused => parsed (vf_app f) (vf_tok f) ∧ (vf_app f = app → vf_tok f = tok → vf_secret f ≠ secret)
        | VClassified b => parsed (vf_app f) (vf_tok f) ∧ (vf_app f = app → vf_tok f = tok → vf_secret f ≠ secret ∧ b = true) end;
  h_a : ∀ f v b, f ∈ ws_a s → af_answer f = Some (v, b) → af_app f = app → af_tok f = tok → v = true;
}.
Definition told_holder (e : wevent) : Prop :=
  match e with
  | Verdict _ app' tok' secret' false => ¬ (app' = app ∧ tok' = tok ∧ secret' = secret)
  | ActiveVerdict _ app' tok' false => ¬ (app' = app ∧ tok' = tok)
  | _ => True
  end.
Lemma live_answers t w : holds w t → tk_AppID t = a → tk_RevokedAt t = None → tk_hash t = hashToken (tk_salt t) secret →
  verify_token a tk secret w = true ∧ token_active a tk w = true.
Proof.
  intros Hr Hid Hrev Hh. unfold verify_token, token_active, token_of. rewrite Hr. cbn. rewrite bool_decide_true by done. rewrite Hrev. split; [|done]. by apply bool_decide_eq_true.
Qed.
Lemma holder_step t s e s' : tk_AppID t = a → tk_RevokedAt t = None → tk_hash t = hashToken (tk_salt t) secret → wstep s e s' →
  (∀ c, e = StoreCall c → ¬ deletes a c ∧ ¬ revokes tk c) → holder_ok t s → holder_ok t s' ∧ told_holder e.
Proof.
  intros Hid Hrev Hh Hs Hd [Hok Hrow Hin Hwr Hac Hhv Hha]. pose proof (wok_step _ _ _ Hs Hok) as Hok'. destruct Hok as [Hp _ _ Hb].
  destruct (live_answers t _ Hrow Hid Hrev Hh) as [Hver Hact].
  assert (nul_free app ∧ nul_free tok) as [Hn1 Hn2] by (split; by eapply uuid_text).
  destruct Hs; cbn in *.
  - by split.
  - split; [|done]. split; try done. unfold holds in *. cbn. destruct (Hd sc eq_refl) as [Hd1 Hd2].
    pose proof (token_stays retention tk t sc ltac:(by rewrite Hid) Hd2 w Hrow x) as Hx. by destruct (run_call retention sc (w, x)) as [[w' x'] [[]|]].
  - split; [by split|]. destruct v; [done|]. cbn. intros (-> & -> & ->). unfold known_verdict, ttl_get in H. rewrite Hin, Hwr in H. cbn in H.
    destruct (c_positive c !! positiveKey app tok secret) as [[v' e']|] eqn:Ek; cbn in H; [|done]. apply Hp in Ek as [-> _]. by destruct (n <? e')%Z.
  - split; [|done]. split; try done. cbn. intros f [->|Hf]%elem_of_cons; [done|by apply Hhv].
  - split; [|done]. apply verified_answer in H0 as (-> & app' & tok' & Happ' & Htok' & Hok0). cbn in Happ', Htok', Hok0. split; try done. cbn.
    intros g [->|Hg]%(in_changed g f); [|by apply Hhv]. destruct ok; cbn; [done|]. split; [split; by eexists|]. intros E1 E2 E3. rewrite E1, Happ in Happ'. rewrite E2, Htok in Htok'.
    injection Happ' as <-. injection Htok' as <-. congruence.
  - split; [|done]. split; try done. cbn. intros g Hg%(in_rest _ f). by apply Hhv.
  - split; [|done]. split; try done. cbn. intros g Hg%(in_rest _ f). by apply Hhv.
  - split; [|done]. pose proof (Hhv f (in_mid _ _ _)) as Hf. rewrite H in Hf. destruct Hf as [Hpf Hne]. split; try done. cbn. intros g [->|Hg]%(in_changed g f); [|by apply Hhv].
    cbn. split; [done|]. intros E1 E2. split; [by apply Hne|]. destruct H0 as [Hk|(g & b & Hg & Eg1 & Eg2 & Hans)].
    + unfold known_active, ttl_get in Hk. rewrite E1, E2 in Hk. destruct (c_active c !! activeKey app tok) as [[v' e']|] eqn:Ek; cbn in Hk; [|done]. rewrite (Hac v' e' eq_refl) in Hk. by destruct (n <? e')%Z; [injection Hk as <-|].
    + eapply Hha; [exact Hg|exact Hans|congruence|congruence].
  - pose proof (Hhv f (in_mid _ _ _)) as Hf. rewrite H in Hf. destruct Hf as [Hpf Hne]. split; [|cbn; intros (E1 & E2 & E3); by apply Hne].
    split; try done. cbn. intros g Hg%(in_rest _ f). by apply Hhv.
  - pose proof (Hhv f (in_mid _ _ _)) as Hf. rewrite H in Hf. destruct Hf as [Hpf Hne]. destruct (nul_free_parsed _ _ Hpf) as [Hn3 Hn4].
    split; [|cbn; intros (E1 & E2 & E3); by destruct (Hne E1 E2)].
    assert (∀ g, g ∈ vs1 ++ vs2 → g ∈ vs1 ++ f :: vs2) as Hsub by (intros g Hg; by apply (in_rest _ f)).
    destruct active; split; cbn; try done; try (intros g Hg; apply Hhv; by apply Hsub).
    + apply (lookup_insert_None (M:=gmap string)). split; [done|]. intros (E1 & E2 & E3)%hashKey_4; try done. by destruct (Hne E1 E2).
    + apply (lookup_insert_None (M:=gmap string)). split; [done|]. intros (E1 & E2)%hashKey_3; try done. by destruct (Hne E1 E2).
  - split; [by split|]. destruct v; [done|]. cbn. intros (-> & ->). unfold known_active, ttl_get in H. destruct (c_active c !! activeKey app tok) as [[v' e']|] eqn:Ek; cbn in H; [|done].
    rewrite (Hac v' e' eq_refl) in H. by destruct (n <? e')%Z.
  - split; [|done]. split; try done. cbn. intros f v b [->|Hf]%elem_of_cons; [done|by eapply Hha].
  - split; [|done]. apply active_answer in H0 as (-> & app' & tok' & Happ' & Htok' & Hok0). split; try done. cbn. intros g v b [->|Hg]%(in_changed g f); [|by eapply Hha].
    cbn. intros [= <- _] E1 E2. rewrite E1, Happ in Happ'. rewrite E2, Htok in Htok'. injection Happ' as <-. injection Htok' as <-. congruence.
  - split; [|done]. split; try done. cbn. intros g v b Hg%(in_rest _ f). by eapply Hha.
  - assert (af_app f = app → af_tok f = tok → active = true) as Hf by (eapply Hha; [apply in_mid|done]).
    split; [|destruct active; [done|]; cbn; intros (E1 & E2); by specialize (Hf E1 E2)]. split; try done; cbn; [|intros g v b Hg%(in_rest _ f); by eapply Hha].
    intros v e [(Hk & -> & ->)|Hk]%set_active_lookup; [|by eapply Hac]. destruct (nul_free_parsed _ _ (proj2 (proj2 (Hb f (in_mid _ _ _)) _ _ H))) as [Hn3 Hn4].
    apply hashKey_3 in Hk as (E1 & E2); try done. by apply Hf.
Qed.
Lemma holder_run t s l s' : tk_AppID t = a → tk_RevokedAt t = None → tk_hash t = hashToken (tk_salt t) secret → wrun s l s' →
  (∀ c, StoreCall c ∈ l → ¬ deletes a c ∧ ¬ revokes tk c) → holder_ok t s → ∀ e, e ∈ l → told_holder e.
Proof.
  intros Hid Hrev Hh. induction 1 as [|s e s1 l s2 Hs Hr IH]; intros Hd Hi e' He'; [by apply elem_of_nil in He'|].
  destruct (holder_step t _ _ _ Hid Hrev Hh Hs) as [Hi1 Ht]; [intros c ->; apply Hd; by left|done|]. apply elem_of_cons in He' as [->|He']; [done|].
  apply IH; [intros c Hc; apply Hd; by right|done|done].
Qed.
End Holder.
End System.
