(* ===== verification/WorkerCache.v ===== *)
(** * WorkerCache: bundles in app-worker (pkg/appworker/apiclient.go)

    The byte budget and the order of the bundle cache, and that only content with
    the hash that was asked for is kept or handed out. *)

From S2P Require Import Prelude GoTime CommitPool Authz RunWorld Tokens Password Calls AppStore AppHandlers AppInternal WorkerClient.

Definition bytes (l : list (string * string)) : Z := foldr (λ e acc, size_of e.2 + acc)%Z 0%Z l.
Lemma bytes_app l l' : bytes (l ++ l') = (bytes l + bytes l')%Z.
Proof. unfold bytes. induction l as [|e l IH]; cbn; lia. Qed.
Lemma bytes_perm l l' : l ≡ₚ l' → bytes l = bytes l'.
Proof. unfold bytes. induction 1; cbn; lia. Qed.
Lemma bytes_nonneg l : (0 ≤ bytes l)%Z.
Proof. unfold bytes, size_of. induction l as [|e l IH]; cbn; lia. Qed.

Section Cache.
Context `{PL : !PoolLib}.
Record lru_ok (c : bundleLRU) : Prop := MkLruOk {
  lk_bytes : lru_curBytes c = bytes (lru_order c);
  lk_max : (lru_curBytes c ≤ lru_maxBytes c)%Z;
  lk_unique : NoDup (lru_order c).*1;
  lk_content : ∀ h d, (h, d) ∈ lru_order c → sha256_hex d = h;
}.
Lemma evict_spec size max cur back : cur = bytes back → ∃ dropped rest, back = dropped ++ rest ∧ evict size max cur back = (bytes rest, rest) ∧
  (rest = [] ∨ bytes rest + size ≤ max)%Z ∧ (∀ d1 e d2, dropped = d1 ++ e :: d2 → max < bytes (e :: d2 ++ rest) + size)%Z.
Proof.
  revert cur. induction back as [|e back IH]; intros cur ->; cbn [evict].
  - exists [], []. split_and!; [done..|by left|]. intros [|] ? ?; done.
  - destruct (_ <? _)%Z eqn:E; to_arith.
    + destruct (IH (bytes (e :: back) - size_of e.2)%Z) as (dropped & rest & Eb & Ev & Hr & Hd); [cbn; unfold bytes; lia|].
      exists (e :: dropped), rest. split_and!; [by rewrite Eb|done|done|]. intros [|e' d1] f d2; cbn; intros [= -> Hd2].
      * subst dropped. by rewrite <- Eb.
      * by eapply Hd.
    + exists [], (e :: back). split_and!; [done..|right; lia|]. intros [|] ? ?; done.
Qed.
Lemma to_front_perm hash l : filter (λ e : string * string, e.1 = hash) l ++ filter (λ e, e.1 ≠ hash) l ≡ₚ l.
Proof.
  induction l as [|e l IH]; [done|]. rewrite !filter_cons. destruct (decide (e.1 = hash)) as [He|He]; rewrite ?decide_True, ?decide_False by (try done; tauto).
  - cbn. by rewrite IH.
  - rewrite <- Permutation_middle. by rewrite IH.
Qed.
Lemma to_front_ok hash c : lru_ok c → lru_ok (to_front hash c).
Proof.
  intros [Hb Hm Hu Hc]. pose proof (to_front_perm hash (lru_order c)) as Hp. split; cbn.
  - rewrite Hb. by apply bytes_perm.
  - done.
  - by rewrite Hp.
  - intros h d. rewrite Hp. apply Hc.
Qed.
Lemma lru_find_Some hash c d : lru_find hash c = Some d → (hash, d) ∈ lru_order c.
Proof.
  unfold lru_find. destruct (find _ _) as [[h d']|] eqn:E; [|done]. intros [= ->]. apply find_some in E as [Hin He%bool_decide_eq_true]. cbn in He. subst h. by apply list_elem_of_In.
Qed.
Lemma lru_find_None hash c : lru_find hash c = None → hash ∉ (lru_order c).*1.
Proof.
  unfold lru_find. destruct (find _ _) as [|] eqn:E; [done|]. intros _ (e & -> & He)%list_elem_of_fmap. apply list_elem_of_In in He. pose proof (find_none _ _ E e He) as Hn.
  cbn in Hn. by rewrite bool_decide_true in Hn.
Qed.
(** What is kept: the new entry and the longest front that fits with it. *)
Lemma lru_put_order hash data c : lru_ok c → lru_find hash c = None → (size_of data ≤ lru_maxBytes c)%Z →
  ∃ front dropped, lru_order c = front ++ dropped ∧ lru_order (lru_put hash data c) = (hash, data) :: front ∧ lru_curBytes (lru_put hash data c) = (bytes front + size_of data)%Z ∧
    (bytes front + size_of data ≤ lru_maxBytes c)%Z ∧ (∀ d1 e d2, dropped = d1 ++ e :: d2 → lru_maxBytes c < bytes (front ++ d1 ++ [e]) + size_of data)%Z.
Proof.
  intros Hok Hn Hs. unfold lru_put. rewrite Hn. destruct (_ <? _)%Z eqn:E; [lia|].
  destruct (evict_spec (size_of data) (lru_maxBytes c) (lru_curBytes c) (reverse (lru_order c))) as (dropped & rest & Eb & -> & Hr & Hd).
  { rewrite (lk_bytes c Hok). apply bytes_perm. by rewrite reverse_Permutation. }
  exists (reverse rest), (reverse dropped). cbn. assert (bytes (reverse rest) = bytes rest) as Hrev by (apply bytes_perm, reverse_Permutation).
  split_and!; try done.
  - rewrite <- reverse_app, <- Eb. by rewrite reverse_involutive.
  - by rewrite Hrev.
  - rewrite Hrev. destruct Hr as [->|]; [cbn; lia|done].
  - intros d1 e d2 He. assert (dropped = reverse d2 ++ e :: reverse d1) as Hdr.
    { rewrite <- (reverse_involutive dropped), He, reverse_app, reverse_cons. by rewrite <- app_assoc. }
    specialize (Hd _ _ _ Hdr). rewrite !bytes_app, Hrev. cbn [app] in Hd. unfold bytes in Hd at 1. cbn [foldr] in Hd. fold (bytes (reverse d1 ++ rest)) in Hd. rewrite bytes_app in Hd.
    rewrite (bytes_perm (reverse d1) d1 (reverse_Permutation d1)) in Hd. cbn. lia.
Qed.
Lemma lru_put_ok hash data c : sha256_hex data = hash → lru_ok c → lru_ok (lru_put hash data c).
Proof.
  intros Hh Hok. destruct (lru_find hash c) as [d|] eqn:Ef; [unfold lru_put; rewrite Ef; by apply to_front_ok|].
  destruct (Z.lt_ge_cases (lru_maxBytes c) (size_of data)) as [Hlt|Hge].
  { unfold lru_put. rewrite Ef. destruct (_ <? _)%Z eqn:E; [done|lia]. }
  destruct (lru_put_order hash data c Hok Ef Hge) as (front & dropped & Eo & Ep & Ec & Hfit & _). destruct Hok as [Hb Hm Hu Hc].
  assert (lru_maxBytes (lru_put hash data c) = lru_maxBytes c) as Emax by (unfold lru_put; rewrite Ef; destruct (_ <? _)%Z; [done|]; by destruct (evict _ _ _ _)).
  split.
  - rewrite Ec, Ep. cbn. unfold bytes. lia.
  - rewrite Ec, Emax. lia.
  - rewrite Ep. cbn. apply NoDup_cons. rewrite Eo, fmap_app in Hu. apply NoDup_app in Hu as [Hu _]. split; [|done].
    intros Hin. apply (lru_find_None _ _ Ef). rewrite Eo, fmap_app. apply elem_of_app. by left.
  - rewrite Ep. intros h d [[= -> ->]|Hin]%elem_of_cons; [done|]. apply Hc. rewrite Eo. apply elem_of_app. by left.
Qed.
Lemma newBundleLRU_ok max : (0 ≤ max)%Z → lru_ok (newBundleLRU max).
Proof. intros H. split; [done|done|by apply NoDup_nil|]. intros h d Hin. by apply elem_of_nil in Hin. Qed.
(** The bundle cache is a byte-bounded least-recently-used list of verified
    bundles.  Storing a bundle that is not there keeps the most recently used ones
    that fit with it in the budget, as many as fit, in their order, behind it; the
    count of bytes stays exact and within the budget, no hash is there twice, and
    every entry has the hash it is kept under. *)
Theorem bundle_cache_lru (hash data : string) (c : bundleLRU) (Hok : lru_ok c) (Hhash : sha256_hex data = hash) :
  lru_ok (lru_get hash c).1 ∧ lru_ok (lru_put hash data c) ∧
  (lru_find hash c = None → (size_of data ≤ lru_maxBytes c)%Z → ∃ front dropped, lru_order c = front ++ dropped ∧
    lru_order (lru_put hash data c) = (hash, data) :: front ∧
    ∀ d1 e d2, dropped = d1 ++ e :: d2 → (lru_maxBytes c < bytes (front ++ d1 ++ [e]) + size_of data)%Z).
Proof.
  split_and!; [|by apply lru_put_ok|].
  - unfold lru_get. destruct (lru_find hash c); [by apply to_front_ok|done].
  - intros Hn Hs. destruct (lru_put_order hash data c Hok Hn Hs) as (front & dropped & H1 & H2 & _ & _ & H3). by exists front, dropped.
Qed.
End Cache.

Section Fetch.
Context `{UT : !UnicodeTables} `{PL : !PoolLib} `{DO : !DBOrder} `{GZ : !Gzip} `{J : !Jwt} `{UL : !UuidLib} `{FM : !FgaModel} `{TL : !TimeLib} {X : Type} `{F : !Faults X}.
Variable retention : Z.
Variable Token : option ServiceToken.
Variable UserFor : CallerRequest → Op AppsWorld X (result string (option string)).
Variable signer : option Signer.
Variable serviceToken : string.

Definition client_ok (k : Worker) : Prop := lru_ok (c_bundles (wk_client k)).
Lemma wp_remote (C : Worker → Prop) m Q k : (∀ s, C (set_store s k)) → C k → (∀ r s, Q r (set_store s k)) → (∀ e, Q (Err e) k) → wp (X := X) C (remote m) Q k.
Proof.
  intros HC HC' Hr He x. unfold remote. cbn. destruct (fault x) as [x' o]. destruct o as [|e|e|[]]; cbn; auto.
Qed.
Lemma wp_doInternal (C : Worker → Prop) authz cookies c Q k : (∀ s, C (set_store s k)) → C k → (∀ r s, Q r (set_store s k)) → (∀ e, Q (Err e) k) →
  wp (X := X) C (doInternal retention Token UserFor signer serviceToken authz cookies c) Q k.
Proof.
  intros HC HC' Hr He. apply wp_op_bind, wp_remote; [done..| |intros e; by apply wp_op_ret].
  intros [[]|e] s; by apply wp_op_ret.
Qed.
(** A bundle is the content of its hash.  Whatever the server answers and
    however its answers are lost, the worker hands out a bundle only if it has the
    hash that was asked for, keeps only such bundles, and stays in its budget. *)
Theorem bundle_verified (hash : string) (k : Worker) (Hk : client_ok k) :
  wp (X := X) client_ok (Worker_Bundle retention Token UserFor signer serviceToken hash) (λ r k', client_ok k' ∧ ∀ data, r = Ok data → sha256_hex data = hash) k.
Proof.
  unfold Worker_Bundle. apply wp_op_bind, wp_internal. unfold lru_get. destruct (lru_find hash (c_bundles (wk_client k))) as [d|] eqn:Ef; cbn [fst snd].
  - apply wp_op_ret. split; [by apply to_front_ok|]. intros data [= <-]. apply lru_find_Some in Ef. by apply (lk_content _ Hk) in Ef.
  - assert (∀ s, client_ok (set_store s (set_client (set_bundles (c_bundles (wk_client k)) (wk_client k)) k))) as Hk' by done.
    apply wp_op_try, wp_op_bind, wp_doInternal; [done|done| |intros e; by apply wp_op_ret].
    intros [[]|e] s; apply wp_op_ret; try done. apply wp_op_bind, wp_local. destruct (_ <? _)%Z; [by apply wp_op_ret|].
    case_bool_decide as Hh; cbn [negb]; [|by apply wp_op_ret]. apply wp_op_bind, wp_internal, wp_op_ret. split; [by apply lru_put_ok|]. by intros data [= <-].
Qed.
End Fetch.
