(* ===== verification/WorkerAuth.v ===== *)
(** * WorkerAuth: who looks at an app (pkg/appworker/auth.go)

    The signed session cookie, the client's address behind proxies, and
    [authenticate]: the one-time exchange of a viewer token, the cookie with its
    checks, platform credentials and the guard against cross-site requests.  What
    net/http parsed of a request is given. *)

From S2P Require Import Prelude GoTime CommitPool Authz RunWorld Tokens Password Calls AppStore AppHandlers AppInternal WorkerClient.

(** crypto/hmac with SHA-256, and encoding/json on the payload of a cookie. *)
Record cookiePayload := MkCookiePayload { cp_AppID : string; cp_TokenID : string; cp_Exp : Z }.
Class CookieLib : Type := {
  hmac_sha256 : string → string → string;
  marshal_payload : cookiePayload → string;
  unmarshal_payload : string → result string cookiePayload;
}.
(** Letters, digits and dashes, which JSON leaves alone. *)
Definition plain_byte (c : ascii) : bool := is_lower_byte c || is_upper_byte c || is_digit_byte c || Ascii.eqb c "-"%char.
Class CookieLaws `{CL : !CookieLib} : Prop := {
  payload_roundtrip : ∀ p, forall_byte plain_byte (cp_AppID p) = true → forall_byte plain_byte (cp_TokenID p) = true → in_int64 (cp_Exp p) = true →
    unmarshal_payload (marshal_payload p) = Ok p;
  payload_text : ∀ p, marshal_payload p ≠ EmptyString;
  hmac_text : ∀ k s, hmac_sha256 k s ≠ EmptyString;
}.
(** golang.org/x/time/rate: a bucket, a reservation, and its refund. *)
Class RateLib : Type := {
  rate_Limiter : Type;
  rate_Reservation : Type;
  NewRateLimiter : Z → Z → rate_Limiter;  (** admissions a minute, burst *)
  ReserveN : Z → rate_Limiter → rate_Limiter * rate_Reservation;
  DelayFrom : Z → rate_Reservation → Z;
  reservation_OK : rate_Reservation → bool;
  CancelAt : Z → rate_Reservation → rate_Limiter → rate_Limiter;
}.
(** net.SplitHostPort and netip.ParseAddr: the host, the canonical address. *)
Class NetLib : Type := { SplitHostPort : string → option string; ParseAddr : string → option string }.

Definition sessionCookieTTL : Z := 24 * 3600 * second.
Definition viewerTokenPrefix : string := "vw_".
Definition verifyFailuresPerMin : Z := 10.
Definition verifyFailureRetryAfterS : Z := 60.
Definition renderRatePerPrincipalPerMin : Z := 60.
Definition renderRatePerPrincipalBurst : Z := 10.
Definition renderRatePerAppPerMin : Z := 300.

(** ** The session cookie *)

(** [strings.Cut(s, ".")]. *)
Fixpoint cut_dot (s : string) : option (string * string) :=
  match s with
  | EmptyString => None
  | String c s => if Ascii.eqb c "."%char then Some (EmptyString, s) else '(a, b) ← cut_dot s; Some (String c a, b)
  end.
Definition RawURL_Decode (s : string) : option string := s ← from_url s; to_option (DecodeString s).
Inductive cookie_error : Type := errCookieMalformed | errCookieBadSignature | errCookiePayload.

Section Cookie.
Context `{CL : !CookieLib}.
Definition cookieMAC (key segment : string) : string := hmac_sha256 key segment.
Definition signCookie (key app tok : string) (exp : Z) : string :=
  let segment := RawURL_Encode (marshal_payload (MkCookiePayload app tok (Unix exp))) in
  segment +:+ "." +:+ RawURL_Encode (cookieMAC key segment).
Definition parseCookie (key value : string) : result cookie_error cookiePayload :=
  match cut_dot value with
  | None => Err errCookieMalformed
  | Some (segment, macSegment) =>
    if str_empty segment || str_empty macSegment || contains "." macSegment then Err errCookieMalformed
    else match RawURL_Decode macSegment with
    | None => Err errCookieMalformed
    | Some mac =>
      if negb (bool_decide (mac = cookieMAC key segment)) then Err errCookieBadSignature
      else match RawURL_Decode segment with
      | None => Err errCookieMalformed
      | Some raw =>
        match unmarshal_payload raw with
        | Err _ => Err errCookieMalformed
        | Ok p => if str_empty (cp_AppID p) || str_empty (cp_TokenID p) || (cp_Exp p =? 0)%Z then Err errCookiePayload else Ok p
        end
      end
    end
  end.
End Cookie.
Definition parseViewerToken (raw : string) : option (string * string) :=
  rest ← cut_prefix viewerTokenPrefix raw;
  '(tokenID, secret) ← cut_dot rest;
  if str_empty tokenID || str_empty secret then None else Some (tokenID, secret).

(** ** The address of the client *)

(** The trusted networks as a predicate on canonical addresses; nobody when there are none. *)
Record ProxyTrust := MkProxyTrust { pt_CIDRs : list (string → bool); pt_Hops : Z }.
Section Address.
Context `{UT : !UnicodeTables} `{NL : !NetLib}.
Definition trim_brackets (s : string) : string :=
  let is_bracket c := Ascii.eqb c "["%char || Ascii.eqb c "]"%char in
  let drop := fix drop l := match l with c :: l' => if is_bracket c then drop l' else l | [] => [] end in
  list_str (reverse (drop (reverse (drop (str_list s))))).
Definition normalizeIP (s : string) : option string :=
  let s := TrimSpace s in
  if str_empty s then None
  else match ParseAddr (trim_brackets s) with
  | Some a => Some a
  | None => host ← SplitHostPort s; ParseAddr (trim_brackets host)
  end.
Definition canonicalOrRaw (s : string) : string := default s (normalizeIP s).
Definition trust_Enabled (t : ProxyTrust) : bool := negb (Nat.eqb (length (pt_CIDRs t)) 0).
Definition trust_Contains (t : ProxyTrust) (ip : string) : bool :=
  match ParseAddr ip with Some a => existsb (λ p, p a) (pt_CIDRs t) | None => false end.
(** The entries of the headers, from the right. *)
Definition xff_chain (values : list string) : list string :=
  filter (λ p, str_empty p = false) (TrimSpace <$> (v ← values; split_byte ","%char v)).
Fixpoint first_untrusted (t : ProxyTrust) (l : list string) : option string :=
  match l with [] => None | e :: l => if trust_Contains t (canonicalOrRaw e) then first_untrusted t l else Some e end.
Definition resolveClientIP (t : ProxyTrust) (RemoteAddr : string) (xff : list string) : string :=
  let peer := default RemoteAddr (SplitHostPort RemoteAddr) in
  let peer := default peer (normalizeIP peer) in
  if negb (trust_Enabled t) || negb (trust_Contains t peer) then peer
  else match first_untrusted t (drop (Z.to_nat (pt_Hops t - 1)) (reverse (xff_chain xff))) with
  | None => peer
  | Some e => default peer (normalizeIP e)
  end.
End Address.

(** ** Rate limits *)

Section Limits.
Context `{RL : !RateLib}.
Record limiterEntry := MkLimiterEntry { le_lim : rate_Limiter; le_lastSeen : Z }.
Record limiterRegistry := MkLimiterRegistry { lr_perMinute : Z; lr_burst : Z; lr_idleTTL : Z; lr_entries : gmap string limiterEntry }.
Definition limiterSweepThreshold : nat := 1024.
Definition newLimiterRegistry (perMinute burst : Z) : limiterRegistry :=
  MkLimiterRegistry perMinute burst (Z.max (60 * second) (burst * 60 / perMinute * second)) ∅.
Definition put_entry (key : string) (e : limiterEntry) (reg : limiterRegistry) : limiterRegistry :=
  MkLimiterRegistry (lr_perMinute reg) (lr_burst reg) (lr_idleTTL reg) (<[key := e]> (lr_entries reg)).
Definition sweep_idle (now : Z) (reg : limiterRegistry) : limiterRegistry :=
  if (length (map_to_list (lr_entries reg)) <? limiterSweepThreshold)%nat then reg
  else MkLimiterRegistry (lr_perMinute reg) (lr_burst reg) (lr_idleTTL reg) (filter (λ ke, ¬ (lr_idleTTL reg ≤ now - le_lastSeen ke.2)%Z) (lr_entries reg)).
Definition registry_limiter (now : Z) (key : string) (reg : limiterRegistry) : limiterRegistry * rate_Limiter :=
  let reg := sweep_idle now reg in
  let lim := match lr_entries reg !! key with Some e => le_lim e | None => NewRateLimiter (lr_perMinute reg) (lr_burst reg) end in
  (put_entry key (MkLimiterEntry lim now) reg, lim).
(** The limiter of a key is replaced by what a call made of it. *)
Definition put_limiter (key : string) (lim : rate_Limiter) (reg : limiterRegistry) : limiterRegistry :=
  match lr_entries reg !! key with Some e => put_entry key (MkLimiterEntry lim (le_lastSeen e)) reg | None => reg end.
Definition reserve (now : Z) (key : string) (reg : limiterRegistry) : limiterRegistry * rate_Reservation :=
  let (reg, lim) := registry_limiter now key reg in
  let (lim, res) := ReserveN now lim in
  (put_limiter key lim reg, res).
Definition cancel (at_ : Z) (key : string) (res : rate_Reservation) (reg : limiterRegistry) : limiterRegistry :=
  match lr_entries reg !! key with Some e => put_limiter key (CancelAt at_ res (le_lim e)) reg | None => reg end.
Definition verifyKey (ip app : string) : string := ip +:+ String nul app.
(** An admission, when there is one, and the time it was taken. *)
Definition reserveVerifyAttempt (now : Z) (ip app : string) (reg : limiterRegistry) : limiterRegistry * option (rate_Reservation * Z) :=
  let (reg, res) := reserve now (verifyKey ip app) reg in
  if negb (reservation_OK res) || (0 <? DelayFrom now res)%Z then (cancel now (verifyKey ip app) res reg, None) else (reg, Some (res, now)).
Definition reservationWait (now : Z) (res : rate_Reservation) : Z := if reservation_OK res then DelayFrom now res else 60 * second.
(** The seconds of a duration, rounded up, at least one. *)
Definition retryAfterSeconds (d : Z) : Z := Z.max 1 (- (- d / second)).
Definition rateKeys (kind id app : string) : string * string := (app +:+ String nul (kind +:+ String nul id), app).
Definition allowRender (now : Z) (principalKey appKey : string) (ps as_ : limiterRegistry) : (limiterRegistry * limiterRegistry) * result Z () :=
  let (ps, pres) := reserve now principalKey ps in
  let (as_, ares) := reserve now appKey as_ in
  let pw := reservationWait now pres in
  let aw := reservationWait now ares in
  if (pw <=? 0)%Z && (aw <=? 0)%Z then ((ps, as_), Ok ())
  else ((cancel now principalKey pres ps, cancel now appKey ares as_), Err (retryAfterSeconds (Z.max pw aw))).
End Limits.

(** ** authenticate *)

Record resolvedApp := MkResolvedApp { ra_ProjectID : string; ra_Name : string; ra_Channel : string; ra_AppID : string; ra_VersionHash : string }.
Definition isDraft (ra : resolvedApp) : bool := bool_decide (ra_Channel ra = "draft").
Definition cookiePath (ra : resolvedApp) : string := "/apps/" +:+ ra_ProjectID ra +:+ "/" +:+ ra_Name ra.
(** The parts of a request that are read; the query with its values by name. *)
Record VRequest := MkVRequest {
  v_Method : string;
  v_Path : string;
  v_Query : gmap string (list string);
  v_Authorization : string;
  v_Cookies : string;  (** the header *)
  v_Session : option string;  (** the value of the cookie of that name in it *)
  v_AppRender : string;
  v_SecFetchSite : string;
  v_Origin : string;
  v_ForwardedProto : string;
  v_ForwardedFor : list string;
  v_Host : string;
  v_TLS : bool;
  v_RemoteAddr : string;
}.
Definition query_get (name : string) (r : VRequest) : string := match v_Query r !! name with Some (v :: _) => v | _ => EmptyString end.
Inductive principal_kind : Type := viewer_token | platform_user.
(** What becomes of a request: it goes on as somebody, or it is answered. *)
Inductive auth_answer : Type :=
| Principal (kind : principal_kind) (id : string)
| Refused (status : Z) (kind msg : string)
| RateLimited (retryAfter : Z)
| Exchanged (cookie path : string) (maxAge : Z) (target : string * gmap string (list string)).  (** the cookie, and a redirect *)

Definition tokenFreeTarget (r : VRequest) : string * gmap string (list string) := (v_Path r, delete "token" (v_Query r)).
Definition selfOrigin `{UT : !UnicodeTables} (r : VRequest) : string :=
  (if negb (str_empty (v_ForwardedProto r)) then TrimSpace (default EmptyString (head (split_byte ","%char (v_ForwardedProto r))))
   else if v_TLS r then "https" else "http") +:+ "://" +:+ v_Host r.
Definition unsafe_method (r : VRequest) : bool := negb (bool_decide (v_Method r ∈ ["GET"; "HEAD"; "OPTIONS"])).
Definition checkCSRF `{UT : !UnicodeTables} (r : VRequest) : option auth_answer :=
  if negb (unsafe_method r) then None
  else if negb (bool_decide (v_AppRender r = "1")) then Some (Refused 403 kindUnauthorized "missing app-render header")
  else if negb (str_empty (v_SecFetchSite r)) && negb (bool_decide (v_SecFetchSite r = "same-origin")) then Some (Refused 403 kindUnauthorized "cross-site render request")
  else if str_empty (v_Origin r) || negb (bool_decide (v_Origin r = selfOrigin r)) then Some (Refused 403 kindUnauthorized "cross-site render request")
  else None.

Section Authenticate.
Context `{UT : !UnicodeTables} `{PL : !PoolLib} `{DO : !DBOrder} `{GZ : !Gzip} `{J : !Jwt} `{UL : !UuidLib} `{FM : !FgaModel} `{TL : !TimeLib} {X : Type} `{F : !Faults X}.
Context `{CL : !CookieLib} `{NL : !NetLib} `{RL : !RateLib}.
(** The client the server was given, and its settings. *)
Variable retention : Z.
Variable Token : option ServiceToken.
Variable UserFor : CallerRequest → Op AppsWorld X (result string (option string)).
Variable signer : option Signer.
Variable serviceToken : string.
Variable has_api : bool.
Variable cookieKey : string.
Variable trust : ProxyTrust.
(** The worker and its registries of limiters. *)
Record Front := MkFront { fr_worker : Worker; fr_verify : limiterRegistry; fr_principals : limiterRegistry; fr_apps : limiterRegistry }.
Definition set_worker (k : Worker) (s : Front) : Front := MkFront k (fr_verify s) (fr_principals s) (fr_apps s).
Definition set_verify (r : limiterRegistry) (s : Front) : Front := MkFront (fr_worker s) r (fr_principals s) (fr_apps s).
Definition on_worker {A} (m : Op Worker X A) : Op Front X A := λ s,
  match m (fr_worker s.1, s.2) with ((k, x), a) => ((set_worker k s.1, x), a) end.
Definition fr_now (s : Front) : Z := wk_now (fr_worker s).
Abbreviation api_VerifyToken := (Worker_VerifyToken retention Token UserFor signer serviceToken).
Abbreviation api_CheckTokenActive := (CheckTokenActive retention Token UserFor signer serviceToken).
Abbreviation api_VerifySession := (Worker_VerifySession retention Token UserFor signer serviceToken).

Definition failViewerToken : auth_answer := Refused 403 kindUnauthorized "invalid viewer token".
Definition exchangeViewerToken (r : VRequest) (ra : resolvedApp) (raw : string) : Op Front X auth_answer :=
  let ip := resolveClientIP trust (v_RemoteAddr r) (v_ForwardedFor r) in
  b ← internal (λ s, let (reg, b) := reserveVerifyAttempt (fr_now s) ip (ra_AppID ra) (fr_verify s) in (set_verify reg s, b));
  match b with
  | None => mret (RateLimited verifyFailureRetryAfterS)
  | Some (res, at_) =>
    let refund := internal (λ s, (set_verify (cancel at_ (verifyKey ip (ra_AppID ra)) res (fr_verify s)) s, ())) in
    match parseViewerToken raw with
    | None => mret failViewerToken
    | Some (tok, secret) =>
      v ← on_worker (api_VerifyToken (ra_AppID ra) tok secret);
      match v with
      | Err _ => _ ← refund; mret (Refused 503 kindUnavailable "app-worker: cannot verify viewer token")
      | Ok false => mret failViewerToken
      | Ok true =>
        _ ← refund;
        now ← local fr_now;
        mret (Exchanged (signCookie cookieKey (ra_AppID ra) tok (now + sessionCookieTTL)) (cookiePath ra) (sessionCookieTTL / second) (tokenFreeTarget r))
      end
    end
  end.
Definition authenticateCookie (r : VRequest) (ra : resolvedApp) : Op Front X auth_answer :=
  let value := default EmptyString (v_Session r) in
  if str_empty value then mret (Refused 401 kindUnauthorized "no viewer session")
  else match parseCookie cookieKey value with
  | Err _ => mret (Refused 401 kindUnauthorized "invalid viewer session")
  | Ok p =>
    if negb (bool_decide (cp_AppID p = ra_AppID ra)) then mret (Refused 401 kindUnauthorized "invalid viewer session")
    else
      now ← local fr_now;
      if (cp_Exp p * second <=? now)%Z then mret (Refused 401 kindUnauthorized "viewer session expired")
      else match checkCSRF r with
      | Some a => mret a
      | None =>
        v ← on_worker (api_CheckTokenActive (ra_AppID ra) (cp_TokenID p));
        mret (match v with
              | Err _ => Refused 503 kindUnavailable "app-worker: cannot verify viewer session"
              | Ok false => Refused 401 kindUnauthorized "viewer session revoked"
              | Ok true => Principal viewer_token (cp_TokenID p)
              end)
      end
  end.
Definition authenticatePlatform (r : VRequest) (ra : resolvedApp) : Op Front X auth_answer :=
  if str_empty (v_Authorization r) && str_empty (v_Cookies r) then mret (Refused 401 kindUnauthorized "authentication required")
  else
    v ← on_worker (api_VerifySession (ra_ProjectID ra) (v_Cookies r) (v_Authorization r));
    mret (match v with
          | Err _ => Refused 503 kindUnavailable "app-worker: cannot verify session"
          | Ok info =>
            if str_empty (si_UserID info) then Refused 401 kindUnauthorized "authentication required"
            else if negb (si_ProjectMember info) then Refused 403 kindUnauthorized "not a member of this project"
            else if str_empty (v_Authorization r) then match checkCSRF r with Some a => a | None => Principal platform_user (si_UserID info) end
            else Principal platform_user (si_UserID info)
          end).
Definition authenticate (r : VRequest) (ra : resolvedApp) : Op Front X auth_answer :=
  if negb has_api || str_empty cookieKey then mret (Refused 503 kindUnavailable "app-worker: viewer auth is not configured")
  else
    let tokenParam := query_get "token" r in
    if isDraft ra then
      if negb (str_empty tokenParam) then mret (Refused 403 kindUnauthorized "viewer tokens are not accepted on the draft channel")
      else authenticatePlatform r ra
    else if negb (str_empty tokenParam) then exchangeViewerToken r ra tokenParam
    else if negb (str_empty (v_Authorization r)) then authenticatePlatform r ra
    else authenticateCookie r ra.
End Authenticate.
