(* ===== verification/WorkerAuthOk.v ===== *)
(** * WorkerAuthOk: what it takes to look at an app (pkg/appworker/auth.go)

    The cookie against its signature, the client's address against headers that
    the client writes, and [authenticate]: who is let through, and that the cookie
    of an exchange opens the app it was given for and no other. *)

From S2P Require Import Prelude GoTime CommitPool Authz RunWorld Tokens Password Calls AppStore AppHandlers AppInternal WorkerClient WorkerRevoke WorkerAuth.

(** ** The cookie *)

(** The bytes of RawURLEncoding. *)
Definition url_byte (c : ascii) : bool := is_lower_byte c || is_upper_byte c || is_digit_byte c || Ascii.eqb c "-"%char || Ascii.eqb c "_"%char.
Lemma url_sextets : Forall (λ n, std_char (url_char (sextet_char n)) = Some (sextet_char n) ∧ url_byte (url_char (sextet_char n)) = true) (N.of_nat <$> seq 0 64).
Proof. apply Forall_forall. intros x Hx. cbn in Hx. repeat (apply elem_of_cons in Hx as [->|Hx]; [by vm_compute|]). by apply elem_of_nil in Hx. Qed.
Lemma url_sextet n : (n < 64)%N → std_char (url_char (sextet_char n)) = Some (sextet_char n) ∧ url_byte (url_char (sextet_char n)) = true.
Proof.
  intros Hn. pose proof url_sextets as H. rewrite Forall_forall in H. apply H. apply list_elem_of_fmap. exists (N.to_nat n). split; [lia|]. apply elem_of_seq. lia.
Qed.
Lemma RawURL_chars l : Forall (λ n, n < 64)%N l →
  from_url (list_str (url_char <$> str_list (chars l))) = Some (chars l) ∧ forall_byte url_byte (list_str (url_char <$> str_list (chars l))) = true.
Proof.
  induction 1 as [|n l Hn _ [IH1 IH2]]; [done|]. destruct (url_sextet n Hn) as [H1 H2]. cbn. rewrite H1. cbn. rewrite IH1. cbn. split; [done|]. by rewrite H2, IH2.
Qed.
Lemma RawURL_Encode_ok s : RawURL_Decode (RawURL_Encode s) = Some s ∧ forall_byte url_byte (RawURL_Encode s) = true.
Proof.
  unfold RawURL_Decode, RawURL_Encode. pose proof (Decode_Encode s) as Hd. destruct (Encode_sextets s) as (l & Hl & He & _). rewrite He in *.
  destruct (RawURL_chars l Hl) as [H1 H2]. split; [|done]. rewrite H1. cbn. by rewrite Hd.
Qed.
Lemma url_not_dot c : url_byte c = true → Ascii.eqb c "."%char = false.
Proof. intros H. destruct (Ascii.eqb_spec c "."%char) as [->|]; [|done]. by vm_compute in H. Qed.
Lemma cut_dot_app s t : forall_byte url_byte s = true → cut_dot (s +:+ String "."%char t) = Some (s, t).
Proof.
  induction s as [|c s IH]; intros H; [done|]. cbn in H. apply andb_prop in H as [Hc Hs]. rewrite str_app_cons. cbn. rewrite (url_not_dot _ Hc), (IH Hs). done.
Qed.
Lemma no_dot s : forall_byte url_byte s = true → contains "." s = false.
Proof.
  induction s as [|c s IH]; intros H; [done|]. cbn in H. apply andb_prop in H as [Hc Hs]. pose proof (url_not_dot _ Hc) as Hd. specialize (IH Hs).
  destruct c as [[] [] [] [] [] [] [] []]; by first [exact IH | vm_compute in Hd].
Qed.
Lemma cut_dot_Some s a b : cut_dot s = Some (a, b) → s = a +:+ String "."%char b.
Proof.
  revert a. induction s as [|c s IH]; intros a; [done|]. cbn. destruct (Ascii.eqb_spec c "."%char) as [->|].
  - by intros [= <- <-].
  - destruct (cut_dot s) as [[a' b']|]; cbn; [|done]. intros [= <- <-]. by rewrite str_app_cons, (IH a').
Qed.

Section Cookies.
Context `{CL : !CookieLib} `{CW : !CookieLaws}.
(** The MAC of the segment that carries [p] is in the value. *)
Definition signed_for (key value : string) (p : cookiePayload) : Prop :=
  ∃ segment mac raw, value = segment +:+ "." +:+ mac ∧ RawURL_Decode mac = Some (cookieMAC key segment) ∧ RawURL_Decode segment = Some raw ∧ unmarshal_payload raw = Ok p.
Lemma parse_signed key value p : parseCookie key value = Ok p → signed_for key value p ∧ cp_AppID p ≠ EmptyString ∧ cp_TokenID p ≠ EmptyString.
Proof.
  unfold parseCookie. destruct (cut_dot value) as [[segment mac]|] eqn:Ec; [|done]. destruct (_ || _); [done|]. destruct (RawURL_Decode mac) as [m|] eqn:Em; [|done].
  case_bool_decide as Hm; cbn [negb]; [|done]. destruct (RawURL_Decode segment) as [raw|] eqn:Er; [|done]. destruct (unmarshal_payload raw) as [q|] eqn:Eu; [|done].
  destruct (_ || _) eqn:Ee; [done|]. intros [= ->]. apply cut_dot_Some in Ec as ->. apply orb_false_iff in Ee as [Ee _]. apply orb_false_iff in Ee as [E1 E2].
  split; [|by destruct (cp_AppID p), (cp_TokenID p)]. exists segment, mac, raw. by subst m.
Qed.
Lemma sign_parse key app tok exp : forall_byte plain_byte app = true → forall_byte plain_byte tok = true → app ≠ EmptyString → tok ≠ EmptyString →
  in_int64 (Unix exp) = true → Unix exp ≠ 0%Z → parseCookie key (signCookie key app tok exp) = Ok (MkCookiePayload app tok (Unix exp)).
Proof.
  intros Ha Ht Hae Hte Hi Hz. pose proof (payload_text (MkCookiePayload app tok (Unix exp))) as Hpe. pose proof (hmac_text key (RawURL_Encode (marshal_payload (MkCookiePayload app tok (Unix exp))))) as Hme.
  change (cookieMAC key (RawURL_Encode (marshal_payload (MkCookiePayload app tok (Unix exp)))) ≠ EmptyString) in Hme. unfold parseCookie, signCookie. set (raw := marshal_payload _) in *. set (seg := RawURL_Encode raw) in *. set (m := cookieMAC key seg) in *.
  destruct (RawURL_Encode_ok raw) as [Hd Hu]. destruct (RawURL_Encode_ok m) as [Hdm Hum]. fold seg in Hd, Hu. change ("." +:+ RawURL_Encode m) with (String "."%char (RawURL_Encode m)).
  rewrite cut_dot_app by done. rewrite (no_dot _ Hum).
  assert (str_empty seg = false) as -> by (destruct seg eqn:E; [unfold RawURL_Decode in Hd; cbn in Hd; congruence|done]).
  assert (str_empty (RawURL_Encode m) = false) as -> by (destruct (RawURL_Encode m) eqn:E; [unfold RawURL_Decode in Hdm; cbn in Hdm; congruence|done]).
  cbn [orb]. rewrite Hdm, bool_decide_true by done. cbn [negb]. rewrite Hd. subst raw. rewrite payload_roundtrip by done. cbn.
  rewrite (proj2 (Z.eqb_neq _ _) Hz). by destruct app, tok.
Qed.
End Cookies.

(** ** The address *)

Section Client.
Context `{UT : !UnicodeTables} `{NL : !NetLib}.
Lemma first_untrusted_app t l l' e : first_untrusted t l = Some e → first_untrusted t (l ++ l') = Some e.
Proof. induction l as [|x l IH]; [done|]. cbn. by destruct (trust_Contains t (canonicalOrRaw x)). Qed.
Lemma xff_chain_app a b : xff_chain (a ++ b) = xff_chain a ++ xff_chain b.
Proof. unfold xff_chain. by rewrite bind_app, fmap_app, filter_app. Qed.
(** A client cannot choose the address it is counted under.  A peer that is
    not a trusted proxy is counted under its own address whatever the headers say;
    behind a trusted one, as soon as the entries appended on the right include an
    address that is not trusted, no header put in front of them changes anything. *)
Theorem client_address_pinned (t : ProxyTrust) (remote : string) (front appended : list string) :
  let peer := default (default remote (SplitHostPort remote)) (normalizeIP (default remote (SplitHostPort remote))) in
  (trust_Enabled t = false ∨ trust_Contains t peer = false → resolveClientIP t remote appended = peer) ∧
  (is_Some (first_untrusted t (drop (Z.to_nat (pt_Hops t - 1)) (reverse (xff_chain appended)))) →
    resolveClientIP t remote (front ++ appended) = resolveClientIP t remote appended).
Proof.
  intros peer. unfold resolveClientIP. fold peer. split.
  - intros [-> | ->]; [done|]. by rewrite orb_true_r.
  - intros [e He]. destruct (_ || _); [done|]. rewrite xff_chain_app, reverse_app, skipn_app.
    assert (Z.to_nat (pt_Hops t - 1) - length (reverse (xff_chain appended)) = 0)%nat as Hz.
    { destruct (Nat.le_gt_cases (Z.to_nat (pt_Hops t - 1)) (length (reverse (xff_chain appended)))); [lia|]. rewrite drop_ge in He by lia. done. }
    rewrite Hz, drop_0, He. by rewrite (first_untrusted_app _ _ _ _ He).
Qed.
End Client.

(** ** The answers of the API server, and the caches *)

Section LetThrough.
Context `{UT : !UnicodeTables} `{PL : !PoolLib} `{DO : !DBOrder} `{GZ : !Gzip} `{J : !Jwt} `{UL : !UuidLib} `{FM : !FgaModel} `{TL : !TimeLib} {X : Type} `{F : !Faults X}.
Context `{CL : !CookieLib} `{NL : !NetLib} `{RL : !RateLib}.
Variable retention : Z.
Variable Token : option ServiceToken.
Variable UserFor : CallerRequest → Op AppsWorld X (result string (option string)).
Variable signer : option Signer.
Variable serviceToken : string.
Variable has_api : bool.
Variable cookieKey : string.
Variable trust : ProxyTrust.
Abbreviation authenticates := (authenticate retention Token UserFor signer serviceToken has_api cookieKey trust).
Abbreviation sure := (λ _, True).
Abbreviation served_by req c := (internal_route retention Token UserFor signer req c).

(** *** What the server says *)

(** The user's membership as the database and OpenFGA have it. *)
Definition member_of (user pid : string) (w : AppsWorld) : Prop :=
  ∃ id lk, uuid_Parse pid = Some id ∧ ap_projects w !! id = Some lk ∧ lk ≠ EmptyString ∧ derives (ap_grants w) (Object_String (UserObject user)) relationRead (ProjectObject lk) = true.
(** What forwards the credentials of a visitor. *)
Definition session_request (cookies authz : string) : IRequest :=
  MkIRequest ("Bearer " +:+ serviceToken) authz (if str_empty cookies then None else Some cookies).
(** A server with the store [w] takes the credentials for those of [user], a
    member of the project. *)
Definition vouched (user pid cookies authz : string) (w : AppsWorld) : Prop :=
  ∃ x w1 x1, UserFor (callerCredentialRequest (session_request cookies authz)) (w, x) = ((w1, x1), Some (Ok (Some user))) ∧ member_of user pid w1.
Definition active_in (app tok : string) (w : AppsWorld) : Prop := ∃ a t, uuid_Parse app = Some a ∧ uuid_Parse tok = Some t ∧ token_active a t w = true.
Definition valid_in (app tok secret : string) (w : AppsWorld) : Prop := ∃ a t, uuid_Parse app = Some a ∧ uuid_Parse tok = Some t ∧ verify_token a t secret w = true.
Lemma member_answer cookies authz pid w w' x x' user :
  served_by (session_request cookies authz) (RouteVerifySession (Body pid)) (w, x) = ((w', x'), Some (ISession user true)) → vouched user pid cookies authz w.
Proof.
  intros Hrun. unfold internal_route in Hrun.
  destruct (requireServiceToken_spec Token (session_request cookies authz) (handleVerifySession UserFor (session_request cookies authz) (Body pid))) as [[_ E]|[_ E]]; rewrite E in Hrun; [|done].
  unfold handleVerifySession, readInternalJSON in Hrun. destruct (uuid_Parse pid) as [id|] eqn:Eid; [|done]. unfold mbind at 1, Op_bind at 1 in Hrun.
  destruct (UserFor _ (w, x)) as [[w1 x1] [[[u|]|e]|]] eqn:Eu; [|done..]. 
  match type of Hrun with ?m _ = _ => assert (wp (X := X) sure m (λ a _, a = ISession user true → u = user ∧ member_of user pid w1) w1) as Hwp end.
  { apply wp_op_bind, wp_read; [done| |intros m; by apply wp_op_ret]. destruct (ap_projects w1 !! id) as [lk|] eqn:Elk; [|by apply wp_op_ret].
    destruct (str_empty lk) eqn:Ee; [by apply wp_op_ret|]. apply wp_op_bind, wp_read; [done| |intros m; by apply wp_op_ret].
    apply wp_op_ret. intros [= -> Hd]. split; [done|]. exists id, lk. by destruct lk. }
  specialize (Hwp x1). rewrite Hrun in Hwp. destruct (Hwp eq_refl) as [-> Hm]. by exists x, w1, x1.
Qed.

(** *** Keys of the caches *)

Context `{UX : !UuidText}.
Hypothesis collision_free : ∀ x y, sha256_hex x = sha256_hex y → x = y.
Definition session_key (pid cookies authz : string) : string := hashKey ["session"; pid; cookies; authz].
Lemma session_key_inj pid cookies authz pid' cookies' authz' : nul_free pid → nul_free cookies → nul_free authz → nul_free pid' → nul_free cookies' → nul_free authz' →
  session_key pid cookies authz = session_key pid' cookies' authz' → pid = pid' ∧ cookies = cookies' ∧ authz = authz'.
Proof. intros H1 H2 H3 H4 H5 H6 E%collision_free. apply key_parts in E; [by injection E|by repeat constructor..]. Qed.
Lemma activeKey_inj app tok app' tok' : nul_free app → nul_free app' → activeKey app tok = activeKey app' tok' → app = app' ∧ tok = tok'.
Proof.
  intros Ha Ha' E%collision_free. cbn [fmap list_fmap concat_str foldr] in E.
  assert (∀ s t u v, nul_free s → nul_free t → with_nul s +:+ u = with_nul t +:+ v → s = t ∧ u = v) as Hsplit.
  { intros s t u v Hs Hn. unfold with_nul. rewrite !str_app_assoc. intros H. apply (span_byte_inj (λ c, negb (Ascii.eqb c nul))) in H as [-> H]; [|done..]. by injection H. }
  apply Hsplit in E as [_ E]; [|done..]. apply Hsplit in E as [-> E]; [|done..]. rewrite !str_app_nil in E. split; [done|]. by eapply with_nul_inj.
Qed.

(** *** Entries of the caches

    The moments a worker has been through, as the time and the store behind the
    server; an entry that says yes is an answer of one of them. *)

Section Past.
Variable past : Z → AppsWorld → Prop.
Record justified (c : APIClient) : Prop := MkJustified {
  j_session : ∀ key user e, c_session c !! key = Some (MkSessionInfo user true, e) → ∃ pid cookies authz t w,
    key = session_key pid cookies authz ∧ nul_free pid ∧ nul_free cookies ∧ nul_free authz ∧ past t w ∧ e = (t + sessionCacheTTL)%Z ∧ vouched user pid cookies authz w;
  j_active : ∀ key e, c_active c !! key = Some (true, e) → ∃ app tok t w,
    key = activeKey app tok ∧ past t w ∧ e = (t + tokenActiveCacheTTL)%Z ∧ active_in app tok w;
  j_positive : ∀ key e, c_positive c !! key = Some (true, e) → ∃ app tok secret t w,
    key = positiveKey app tok secret ∧ past t w ∧ e = (t + verifyTokenPositiveTTL)%Z ∧ valid_in app tok secret w;
}.
(** Something held when the server was asked, less than [ttl] ago. *)
Definition within (now ttl : Z) (P : AppsWorld → Prop) : Prop := ∃ t w, past t w ∧ (now < t + ttl)%Z ∧ P w.
Lemma ttl_get_Some {V} now key (c : ttlCache V) v : ttl_get now key c = Some v → ∃ e, c !! key = Some (v, e) ∧ (now < e)%Z.
Proof. unfold ttl_get. destruct (c !! key) as [[v' e]|]; cbn; [|done]. destruct (Z.ltb_spec now e); [|done]. intros [= ->]. by exists e. Qed.
Lemma ttl_set_Some {V} now key v ttl (c : ttlCache V) k v' e : ttl_set now key v ttl c !! k = Some (v', e) → (k = key ∧ v' = v ∧ e = (now + ttl)%Z) ∨ c !! k = Some (v', e).
Proof. unfold ttl_set. intros [[<- [= <- <-]]|[_ H]]%(lookup_insert_Some (M:=gmap string)); auto. Qed.
Lemma active_in_text app tok w : active_in app tok w → nul_free app ∧ nul_free tok.
Proof. intros (a & t & Ha & Ht & _). split; by eapply uuid_text. Qed.
Lemma valid_in_text app tok secret w : valid_in app tok secret w → nul_free app ∧ nul_free tok.
Proof. intros (a & t & Ha & Ht & _). split; by eapply uuid_text. Qed.
Lemma known_session c now pid cookies authz user : justified c → nul_free pid → nul_free cookies → nul_free authz →
  ttl_get now (session_key pid cookies authz) (c_session c) = Some (MkSessionInfo user true) → within now sessionCacheTTL (vouched user pid cookies authz).
Proof.
  intros Hj Hp Hc Ha (e & Hk & Hlt)%ttl_get_Some. destruct (j_session c Hj _ _ _ Hk) as (pid' & cookies' & authz' & t & w & Ek & H1 & H2 & H3 & Ht & -> & Hv).
  apply session_key_inj in Ek as (<- & <- & <-); [|done..]. by exists t, w.
Qed.
Lemma known_active_past c now app tok : justified c → nul_free app → known_active now app tok c = Some true → within now tokenActiveCacheTTL (active_in app tok).
Proof.
  intros Hj Hn (e & Hk & Hlt)%ttl_get_Some. destruct (j_active c Hj _ _ Hk) as (app' & tok' & t & w & Ek & Ht & -> & Hv).
  destruct (active_in_text _ _ _ Hv). apply activeKey_inj in Ek as (<- & <-); [|done..]. by exists t, w.
Qed.
Lemma known_valid_past c now app tok secret : justified c → nul_free app → nul_free tok → known_verdict now app tok secret c = Some true →
  within now verifyTokenPositiveTTL (valid_in app tok secret).
Proof.
  intros Hj Ha Ht Hv. unfold known_verdict in Hv. destruct (ttl_get now (positiveKey app tok secret) (c_positive c)) as [v|] eqn:E; [|by repeat case_match]. injection Hv as ->.
  apply ttl_get_Some in E as (e & Hk & Hlt). destruct (j_positive c Hj _ _ Hk) as (app' & tok' & secret' & t & w & Ek & Hp & -> & Hv).
  destruct (valid_in_text _ _ _ _ Hv). apply (hashKey_4 collision_free) in Ek as (<- & <- & <-); [|done..]. by exists t, w.
Qed.
Lemma justified_session c now pid cookies authz user member : justified c → nul_free pid → nul_free cookies → nul_free authz →
  (member = true → ∃ w, past now w ∧ vouched user pid cookies authz w) →
  justified (set_session (ttl_set now (session_key pid cookies authz) (MkSessionInfo user member) sessionCacheTTL (c_session c)) c).
Proof.
  intros [H1 H2 H3] Hp Hc Ha Hm. split; cbn; [|done|done]. intros key u e [(-> & [= <- <-] & ->)|Hk]%ttl_set_Some; [|by eapply H1].
  destruct (Hm eq_refl) as (w & Hw & Hv). by exists pid, cookies, authz, now, w.
Qed.
Lemma justified_active c now app tok b : justified c → (b = true → ∃ w, past now w ∧ active_in app tok w) → justified (remember_active now app tok b c).
Proof.
  intros [H1 H2 H3] Hm. split; cbn; [done| |done]. intros key e [(-> & <- & ->)|Hk]%ttl_set_Some; [|by apply H2]. destruct (Hm eq_refl) as (w & Hw & Hv). by exists app, tok, now, w.
Qed.
Lemma justified_valid c now app tok secret : justified c → (∃ w, past now w ∧ valid_in app tok secret w) → justified (remember_valid now app tok secret c).
Proof.
  intros [H1 H2 H3] (w & Hw & Hv). split; cbn; [done|done|]. intros key e [(-> & _ & ->)|Hk]%ttl_set_Some; [|by apply H3]. by exists app, tok, secret, now, w.
Qed.
Lemma justified_refusal c now app tok secret b : justified c → justified (remember_refusal now app tok secret b c).
Proof. intros [H1 H2 H3]. by destruct b; split. Qed.

(** *** Calls *)

Variable now : Z.
(** The clock stands while a request is served. *)
Definition kept (k : Worker) : Prop := wk_now k = now ∧ justified (wk_client k).
Lemma kept_store w k : kept k → kept (set_store w k).
Proof. done. Qed.
(** A call over the network: an error, or the answer of the route on the store. *)
Lemma wp_internal_answer authz cookies c (Q : result cerr ianswer → Worker → Prop) k : kept k →
  (∀ e w', Q (Err e) (set_store w' k)) →
  (∀ x w' x' a, served_by (MkIRequest ("Bearer " +:+ serviceToken) authz cookies) c (wk_store k, x) = ((w', x'), Some a) → Q (Ok a) (set_store w' k)) →
  wp kept (doInternal retention Token UserFor signer serviceToken authz cookies c) Q k.
Proof.
  intros Hk He Ha. unfold doInternal. apply wp_op_bind. intros x. unfold remote. cbn. destruct (fault x) as [x1 o].
  destruct (served_by _ _ (wk_store k, x1)) as [[w' x2] a] eqn:Er. cbn.
  assert (set_store (wk_store k) k = k) as Hkk by (by destruct k). destruct o as [|m|m|[]]; try done; apply wp_op_ret; [|rewrite <- Hkk; apply He|apply He].
  destruct a as [a|]; [|apply He]. specialize (Ha _ _ _ _ Er). by destruct a.
Qed.
Lemma within_now ttl w P : past now w → (0 < ttl)%Z → P w → within now ttl P.
Proof. intros Hp Ht HP. exists now, w. split_and!; [done|lia|done]. Qed.
Lemma wp_active app tok k : kept k → past now (wk_store k) → nul_free app →
  wp kept (CheckTokenActive retention Token UserFor signer serviceToken app tok) (λ a k', kept k' ∧ (a = Ok true → within now tokenActiveCacheTTL (active_in app tok))) k.
Proof.
  intros [Hn Hj] Hp Ht. unfold CheckTokenActive. apply wp_op_bind, wp_local. rewrite Hn. destruct (known_active _ _ _ _) as [v|] eqn:Ek.
  - apply wp_op_ret. split; [done|]. intros [= ->]. by eapply known_active_past.
  - apply wp_op_bind, wp_internal_answer; [done|intros e w'; by apply wp_op_ret|]. intros x w' x' a Hrun. destruct a; try (by apply wp_op_ret).
    apply active_answer in Hrun as (-> & a & t & Ha & Htk & Hv). assert (active = true → active_in app tok (wk_store k)) as Hin by (intros ->; by exists a, t).
    apply wp_op_bind, wp_internal, wp_op_ret. split.
    + split; [done|]. cbn. rewrite Hn. apply justified_active; [done|]. intros Hb. exists (wk_store k). auto.
    + intros [= ->]. apply (within_now _ (wk_store k)); [done|done|auto].
Qed.
Lemma wp_verify_token app tok secret k : kept k → past now (wk_store k) → nul_free app → nul_free tok →
  wp kept (Worker_VerifyToken retention Token UserFor signer serviceToken app tok secret) (λ a k', kept k' ∧ (a = Ok true → within now verifyTokenPositiveTTL (valid_in app tok secret))) k.
Proof.
  intros [Hn Hj] Hp Happ Htok. unfold Worker_VerifyToken. apply wp_op_bind, wp_local. rewrite Hn. destruct (known_verdict _ _ _ _ _) as [v|] eqn:Ek.
  - apply wp_op_ret. split; [done|]. intros [= ->]. by eapply known_valid_past.
  - apply wp_op_bind, wp_internal_answer; [done|intros e w'; by apply wp_op_ret|]. intros x w' x' a Hrun. destruct a as [| | | |[]| | |]; try (by apply wp_op_ret).
    + apply verified_answer in Hrun as (-> & a & t & Ha & Ht & Hv). assert (valid_in app tok secret (wk_store k)) as Hin by (by exists a, t).
      apply wp_op_bind, wp_internal, wp_op_ret. split; [|intros _; by apply (within_now _ (wk_store k))]. split; [done|]. cbn. rewrite Hn. apply justified_valid; [done|]. by exists (wk_store k).
    + apply verified_answer in Hrun as (-> & _). apply wp_op_bind. eapply wp_mono; [by apply wp_active|done|]. intros [b|] k' [[Hn' Hj'] _]; [|by apply wp_op_ret].
      apply wp_op_bind, wp_internal, wp_op_ret. split; [|done]. split; [done|]. by apply justified_refusal.
Qed.
Lemma wp_session pid cookies authz k : kept k → past now (wk_store k) → nul_free pid → nul_free cookies → nul_free authz →
  wp kept (Worker_VerifySession retention Token UserFor signer serviceToken pid cookies authz)
    (λ a k', kept k' ∧ ∀ info, a = Ok info → si_ProjectMember info = true → within now sessionCacheTTL (vouched (si_UserID info) pid cookies authz)) k.
Proof.
  intros [Hn Hj] Hp Hpid Hc Ha. unfold Worker_VerifySession. apply wp_op_bind, wp_local. fold (session_key pid cookies authz). rewrite Hn. destruct (ttl_get _ _ _) as [v|] eqn:Ek.
  - apply wp_op_ret. split; [done|]. intros [user member] [= ->]. cbn. intros ->. by eapply known_session.
  - apply wp_op_bind, wp_internal_answer; [done|intros e w'; by apply wp_op_ret|]. intros x w' x' a Hrun. destruct a as [| | | | | |user member|]; try (by apply wp_op_ret).
    assert (member = true → vouched user pid cookies authz (wk_store k)) as Hv by (intros ->; by eapply member_answer).
    apply wp_op_bind, wp_internal, wp_op_ret. split.
    + split; [done|]. cbn. rewrite Hn. apply justified_session; [done..|]. intros Hm. exists (wk_store k). auto.
    + intros info [= <-]. cbn. intros Hm. apply (within_now _ (wk_store k)); [done|done|auto].
Qed.

(** ** Who is let through *)

(** The worker of a server keeps. *)
Definition fkept (s : Front) : Prop := kept (fr_worker s).
Lemma wp_on_worker {A} (m : Op Worker X A) (Q : A → Front → Prop) s :
  wp kept m (λ a k, Q a (set_worker k s)) (fr_worker s) → wp fkept (on_worker m) Q s.
Proof. intros H x. specialize (H x). unfold on_worker. cbn. by destruct (m (fr_worker s, x)) as [[k x'] [a|]]. Qed.
(** A request that a page of another site cannot make a browser send. *)
Definition same_site (r : VRequest) : Prop :=
  v_Method r ∈ ["GET"; "HEAD"; "OPTIONS"] ∨
  (v_AppRender r = "1" ∧ (v_SecFetchSite r = EmptyString ∨ v_SecFetchSite r = "same-origin") ∧ v_Origin r = selfOrigin r ∧ v_Origin r ≠ EmptyString).
Lemma checkCSRF_same_site r : checkCSRF r = None → same_site r.
Proof.
  unfold checkCSRF, unsafe_method, same_site. case_bool_decide as H1; cbn [negb]; [by left|]. case_bool_decide as H2; cbn [negb]; [|done].
  destruct (str_empty (v_SecFetchSite r)) eqn:E3; cbn [negb andb].
  - destruct (str_empty (v_Origin r)) eqn:E4; cbn [orb]; [done|]. case_bool_decide as H5; cbn [negb]; [|done]. intros _. right. apply str_empty_true in E3.
    split_and!; [done|by left|done|]. intros E. by rewrite E in E4.
  - case_bool_decide as H3; cbn [negb]; [|done]. destruct (str_empty (v_Origin r)) eqn:E4; cbn [orb]; [done|]. case_bool_decide as H5; cbn [negb]; [|done].
    intros _. right. split_and!; [done|by right|done|]. intros E. by rewrite E in E4.
Qed.
(** What stands behind each way of letting a request through, at the time [now]. *)
Definition viewer_grounds (r : VRequest) (ra : resolvedApp) (tok : string) : Prop :=
  isDraft ra = false ∧ query_get "token" r = EmptyString ∧ v_Authorization r = EmptyString ∧ same_site r ∧
  ∃ value p, v_Session r = Some value ∧ signed_for cookieKey value p ∧ cp_AppID p = ra_AppID ra ∧ cp_TokenID p = tok ∧ (now < cp_Exp p * second)%Z ∧
    within now tokenActiveCacheTTL (active_in (ra_AppID ra) tok).
Definition platform_grounds (r : VRequest) (ra : resolvedApp) (user : string) : Prop :=
  query_get "token" r = EmptyString ∧ (isDraft ra = true ∨ v_Authorization r ≠ EmptyString) ∧ (v_Authorization r = EmptyString → same_site r) ∧ user ≠ EmptyString ∧
  within now sessionCacheTTL (vouched user (ra_ProjectID ra) (v_Cookies r) (v_Authorization r)).
Definition exchange_grounds (r : VRequest) (ra : resolvedApp) (cookie path : string) (target : string * gmap string (list string)) : Prop :=
  isDraft ra = false ∧ path = cookiePath ra ∧ target.2 !! "token" = None ∧
  ∃ tok secret, parseViewerToken (query_get "token" r) = Some (tok, secret) ∧ within now verifyTokenPositiveTTL (valid_in (ra_AppID ra) tok secret) ∧
    cookie = signCookie cookieKey (ra_AppID ra) tok (now + sessionCookieTTL).
Definition grounds (r : VRequest) (ra : resolvedApp) (a : auth_answer) : Prop :=
  match a with
  | Principal viewer_token tok => viewer_grounds r ra tok
  | Principal platform_user user => platform_grounds r ra user
  | Exchanged cookie path _ target => exchange_grounds r ra cookie path target
  | _ => True
  end.
(** The texts of a request hold no NUL (net/http takes none in a header), nor do
    the ids of an app that was resolved. *)
Definition plain (r : VRequest) (ra : resolvedApp) : Prop :=
  Forall nul_free [ra_ProjectID ra; ra_AppID ra; v_Cookies r; v_Authorization r; query_get "token" r].
Abbreviation grounded r ra s m := (wp fkept m (λ a s', fkept s' ∧ grounds r ra a) s).
Lemma checkCSRF_refuses r a : checkCSRF r = Some a → ∃ st kd m, a = Refused st kd m.
Proof. unfold checkCSRF. repeat (destruct (_ : bool); [|try (by intros [= <-]; eauto)]). all: try done; intros [= <-]; eauto. Qed.
Lemma cut_prefix_rest p s r : cut_prefix p s = Some r → s = p +:+ r.
Proof.
  revert s. induction p as [|c p IH]; intros s; cbn; [by intros [= ->]|]. destruct s as [|d s]; [done|]. destruct (Ascii.eqb_spec c d) as [->|]; [|done].
  intros H. by rewrite (IH _ H), str_app_cons.
Qed.
Lemma viewer_token_text raw tok secret : nul_free raw → parseViewerToken raw = Some (tok, secret) → nul_free tok.
Proof.
  unfold parseViewerToken, nul_free. intros Hn. destruct (cut_prefix viewerTokenPrefix raw) as [rest|] eqn:E; cbn; [|done].
  apply cut_prefix_rest in E as ->.
  destruct (cut_dot rest) as [[a b]|] eqn:Ed; cbn; [|done]. destruct (_ || _); [done|]. intros [= -> ->]. apply cut_dot_Some in Ed as ->.
  rewrite !forall_byte_app in Hn. apply andb_prop in Hn as [_ Hn]. by apply andb_prop in Hn as [Hn _].
Qed.
Lemma exchange_grounded r ra s : plain r ra → fkept s → past now (wk_store (fr_worker s)) → isDraft ra = false →
  grounded r ra s (exchangeViewerToken retention Token UserFor signer serviceToken cookieKey trust r ra (query_get "token" r)).
Proof.
  intros Hpl Hk Hp Hd. apply Forall_cons in Hpl as [_ Hpl]. apply Forall_cons in Hpl as [Happ Hpl]. do 2 apply Forall_cons in Hpl as [_ Hpl]. apply Forall_cons in Hpl as [Hraw _].
  unfold exchangeViewerToken. apply wp_op_bind, wp_internal. destruct (reserveVerifyAttempt _ _ _ _) as [reg [[res at_]|]] eqn:Eb; cbn [fst snd]; [|by apply wp_op_ret].
  destruct (parseViewerToken _) as [[tok secret]|] eqn:Ep; [|by apply wp_op_ret]. pose proof (viewer_token_text _ _ _ Hraw Ep) as Htok.
  apply wp_op_bind, wp_on_worker. eapply wp_mono; [by apply wp_verify_token|done|].
  intros [[]|] k' [[Hn Hj] Hv]; cbn.
  - apply wp_op_bind, wp_internal, wp_op_bind, wp_local, wp_op_ret. split; [done|]. unfold exchange_grounds. cbn. split_and!; [done..|apply (lookup_delete_eq (M:=gmap string))|]. exists tok, secret.
    unfold fr_now. cbn. rewrite Hn. split_and!; [done|by apply Hv|done].
  - by apply wp_op_ret.
  - apply wp_op_bind, wp_internal, wp_op_ret. done.
Qed.
Lemma cookie_grounded r ra s : plain r ra → fkept s → past now (wk_store (fr_worker s)) → isDraft ra = false → query_get "token" r = EmptyString → v_Authorization r = EmptyString →
  grounded r ra s (authenticateCookie retention Token UserFor signer serviceToken cookieKey r ra).
Proof.
  intros Hpl Hk Hp Hd Hq Ha. apply Forall_cons in Hpl as [_ Hpl]. apply Forall_cons in Hpl as [Happ _]. unfold authenticateCookie. destruct (str_empty (default EmptyString (v_Session r))) eqn:Ee; [by apply wp_op_ret|].
  destruct (v_Session r) as [value|] eqn:Ev; [|done]. change (default EmptyString (Some value)) with value in *.
  destruct (parseCookie cookieKey value) as [p|] eqn:Ep; [|by apply wp_op_ret]. apply parse_signed in Ep as (Hs & _ & _).
  case_bool_decide as Hid; cbn [negb]; [|by apply wp_op_ret]. apply wp_op_bind, wp_local. destruct (Z.leb_spec (cp_Exp p * second) (fr_now s)) as [|Hexp]; [by apply wp_op_ret|].
  destruct (checkCSRF r) as [a|] eqn:Ec; [apply wp_op_ret; by apply checkCSRF_refuses in Ec as (st & kd & m & ->)|]. apply checkCSRF_same_site in Ec.
  apply wp_op_bind, wp_on_worker. eapply wp_mono; [by apply wp_active|done|]. intros [[]|] k' [Hk' Hact]; apply wp_op_ret; try done. split; [done|]. cbn. split_and!; [done..|].
  exists value, p. unfold fr_now in Hexp. rewrite (proj1 Hk) in Hexp. split_and!; [done..|]. by apply Hact.
Qed.
Lemma platform_grounded r ra s : plain r ra → fkept s → past now (wk_store (fr_worker s)) → query_get "token" r = EmptyString → isDraft ra = true ∨ v_Authorization r ≠ EmptyString →
  grounded r ra s (authenticatePlatform retention Token UserFor signer serviceToken r ra).
Proof.
  intros Hpl Hk Hp Hq Hd. apply Forall_cons in Hpl as [Hpid Hpl]. apply Forall_cons in Hpl as [_ Hpl]. apply Forall_cons in Hpl as [Hc Hpl]. apply Forall_cons in Hpl as [Hau _].
  unfold authenticatePlatform. destruct (_ && _); [by apply wp_op_ret|]. apply wp_op_bind, wp_on_worker. eapply wp_mono; [by apply wp_session|done|].
  intros [[user member]|] k' [Hk' Hi]; apply wp_op_ret; (split; [done|]); [|done]. cbn. destruct (str_empty user) eqn:Eu; [done|]. destruct member; cbn; [|done]. specialize (Hi _ eq_refl eq_refl).
  assert (user ≠ EmptyString) as Hne by (intros ->; done).
  destruct (str_empty (v_Authorization r)) eqn:Ez.
  - destruct (checkCSRF r) as [a|] eqn:Ec; [by apply checkCSRF_refuses in Ec as (st & kd & m & ->)|]. apply checkCSRF_same_site in Ec. cbn. by split_and!.
  - cbn. split_and!; try done. intros E. by rewrite E in Ez.
Qed.
Lemma authenticate_grounded r ra s : plain r ra → fkept s → past now (wk_store (fr_worker s)) → grounded r ra s (authenticates r ra).
Proof.
  intros Hpl Hk Hp. unfold authenticate. destruct (negb has_api || str_empty cookieKey); [by apply wp_op_ret|]. destruct (isDraft ra) eqn:Ed.
  - destruct (str_empty (query_get "token" r)) eqn:Eq; cbn [negb]; [|by apply wp_op_ret]. apply platform_grounded; [done..|by apply str_empty_true|by left].
  - destruct (str_empty (query_get "token" r)) eqn:Eq; cbn [negb]; [|by apply exchange_grounded].
    destruct (str_empty (v_Authorization r)) eqn:Ea; cbn [negb]; [apply cookie_grounded; [done..|by apply str_empty_true|by apply str_empty_true]|].
    apply platform_grounded; [done..|by apply str_empty_true|]. right. intros E. by rewrite E in Ea.
Qed.
End Past.

(** ** A worker and its visitors *)

(** One visit after the other; between two, time passes and other requests change
    what the server stores. *)
Inductive happening : Type :=
| Visit (r : VRequest) (ra : resolvedApp)
| Elapse (d : N)
| Elsewhere (w : AppsWorld).
Definition happen (h : happening) (s : Front * X) : Front * X :=
  match h with
  | Visit r ra => (authenticates r ra s).1
  | Elapse d => (set_worker (MkWorker (fr_now s.1 + Z.of_N d) (wk_store (fr_worker s.1)) (wk_client (fr_worker s.1))) s.1, s.2)
  | Elsewhere w => (set_worker (set_store w (fr_worker s.1)) s.1, s.2)
  end.
Definition visits (l : list happening) (s : Front * X) : Front * X := foldl (λ s h, happen h s) s l.
(** A time the worker has been through, and the store at that time. *)
Definition moment (l : list happening) (s : Front * X) (t : Z) (w : AppsWorld) : Prop :=
  ∃ l1 l2, l = l1 ++ l2 ∧ t = fr_now (visits l1 s).1 ∧ w = wk_store (fr_worker (visits l1 s).1).
Definition plain_visit (h : happening) : Prop := match h with Visit r ra => plain r ra | _ => True end.
(** As NewAPIClient leaves it. *)
Definition cold (c : APIClient) : Prop := ∃ bundles size queue, c = NewAPIClient bundles size queue.
Lemma visits_app l l' s : visits (l ++ l') s = visits l' (visits l s).
Proof. apply foldl_app. Qed.
Lemma moment_now l s : moment l s (fr_now (visits l s).1) (wk_store (fr_worker (visits l s).1)).
Proof. exists l, []. by rewrite app_nil_r. Qed.
Lemma moment_later l l' s t w : moment l s t w → moment (l ++ l') s t w.
Proof. intros (l1 & l2 & -> & H). exists l1, (l2 ++ l'). by rewrite app_assoc. Qed.
Lemma justified_mono (P Q : Z → AppsWorld → Prop) c : (∀ t w, P t w → Q t w) → justified P c → justified Q c.
Proof.
  intros HPQ [H1 H2 H3]. split.
  - intros key user e Hk. destruct (H1 _ _ _ Hk) as (pid & cookies & authz & t & w & ? & ? & ? & ? & ? & ? & ?). exists pid, cookies, authz, t, w. split_and!; auto.
  - intros key e Hk. destruct (H2 _ _ Hk) as (app & tok & t & w & ? & ? & ? & ?). exists app, tok, t, w. split_and!; auto.
  - intros key e Hk. destruct (H3 _ _ Hk) as (app & tok & secret & t & w & ? & ? & ? & ?). exists app, tok, secret, t, w. split_and!; auto.
Qed.
Lemma cold_justified P c : cold c → justified P c.
Proof. intros (b & m & q & ->). split; cbn; intros *; done. Qed.
(** Whatever a worker remembers, the server has said. *)
Lemma visits_justified l s : cold (wk_client (fr_worker s.1)) → Forall plain_visit l → justified (moment l s) (wk_client (fr_worker (visits l s).1)).
Proof.
  intros Hc. induction l as [|h l IH] using rev_ind; intros Hl; [by apply cold_justified|]. apply Forall_app in Hl as [Hl Hh]. apply Forall_cons in Hh as [Hh _].
  specialize (IH Hl). assert (justified (moment (l ++ [h]) s) (wk_client (fr_worker (visits l s).1))) as Hj.
  { eapply justified_mono; [|exact IH]. intros t w. apply moment_later. }
  rewrite visits_app. cbn [visits foldl]. destruct h as [r ra|d|w]; [|exact Hj..]. cbn [happen]. pose proof (moment_later _ [Visit r ra] _ _ _ (moment_now l s)) as Hm.
  destruct (visits l s) as [s1 x1]. cbn [fst] in *. pose proof (authenticate_grounded (moment (l ++ [Visit r ra]) s) (fr_now s1) r ra s1 Hh (conj eq_refl Hj) Hm x1) as Hg.
  destruct (authenticates r ra (s1, x1)) as [[s2 x2] [a|]]; [apply Hg|]. apply Hg.
Qed.
(** C9: Nobody is let through without grounds.  A worker starts with empty caches
    and serves visits one after the other, while time passes and other requests
    change what the API server stores in any way; calls fail anywhere.  Whenever
    [authenticate] lets a request through: a viewer was not on the draft channel,
    sent a cookie that this worker's key signed for this very app, before its end,
    from a page of the same site, and the server had the token as active when it
    last answered, less than tokenActiveCacheTTL ago; of a platform user, the
    server said, less than sessionCacheTTL ago, that these very credentials are
    the user's, and that the user was a member of the app's project then, and a
    browser's request came from the same site; a cookie is only given out for a
    token whose secret the server accepted, less than verifyTokenPositiveTTL ago,
    for that app, and its redirect has lost the secret.  Without a client or a key
    everything is refused.  A visit takes no time here; SHA-256 is taken to be
    free of collisions, and the texts of a request to hold no NUL. *)
Theorem admitted_on_grounds (s : Front * X) (l : list happening) (r : VRequest) (ra : resolvedApp) (s' : Front * X) (a : auth_answer)
    (Hcold : cold (wk_client (fr_worker s.1))) (Hplain : Forall plain_visit (l ++ [Visit r ra])) (Hrun : authenticates r ra (visits l s) = (s', Some a)) :
  grounds (moment l s) (fr_now (visits l s).1) r ra a ∧
  ((has_api = false ∨ cookieKey = EmptyString) → s' = visits l s ∧ ∃ kind msg, a = Refused 503 kind msg).
Proof.
  apply Forall_app in Hplain as [Hl Hr]. apply Forall_cons in Hr as [Hr _]. split.
  - pose proof (visits_justified l s Hcold Hl) as Hj. pose proof (moment_now l s) as Hm. destruct (visits l s) as [s1 x1]. cbn [fst] in *.
    pose proof (authenticate_grounded (moment l s) (fr_now s1) r ra s1 Hr (conj eq_refl Hj) Hm x1) as Hg. rewrite Hrun in Hg. destruct s' as [s2 x2]. apply Hg.
  - intros Hc. unfold authenticate in Hrun. assert (negb has_api || str_empty cookieKey = true) as E by (by destruct Hc as [-> | ->]; [|apply orb_true_r]).
    rewrite E in Hrun. injection Hrun as <- <-. eauto.
Qed.

(** The cookie of a token is not empty. *)
Lemma signCookie_text key app tok exp : str_empty (signCookie key app tok exp) = false.
Proof. unfold signCookie. by rewrite str_app_empty, andb_false_r. Qed.
Definition session_answer (tok : string) (v : result cerr bool) : auth_answer :=
  match v with
  | Err _ => Refused 503 kindUnavailable "app-worker: cannot verify viewer session"
  | Ok false => Refused 401 kindUnauthorized "viewer session revoked"
  | Ok true => Principal viewer_token tok
  end.
(** C25: The cookie of an exchange opens the app it was given for, and only that.
    Sent back unchanged with the requests for an app, the cookie that
    [exchangeViewerToken] signs is refused for every other app and, from its end
    on, for its own, with nothing asked of the server and nothing changed; before
    that, a request that a page of the same site may send is decided by whether the
    token is active, and nothing else. *)
Theorem cookie_opens_its_app `{CW : !CookieLaws} (r : VRequest) (ra : resolvedApp) (app tok : string) (exp : Z) (s : Front) (x : X)
    (Happ : forall_byte plain_byte app = true ∧ app ≠ EmptyString) (Htok : forall_byte plain_byte tok = true ∧ tok ≠ EmptyString)
    (Hexp : in_int64 (Unix exp) = true ∧ Unix exp ≠ 0%Z) (Hsent : v_Session r = Some (signCookie cookieKey app tok exp)) :
  let run := authenticateCookie retention Token UserFor signer serviceToken cookieKey r ra (s, x) in
  (app ≠ ra_AppID ra → run = ((s, x), Some (Refused 401 kindUnauthorized "invalid viewer session"))) ∧
  (app = ra_AppID ra → (Unix exp * second ≤ fr_now s)%Z → run = ((s, x), Some (Refused 401 kindUnauthorized "viewer session expired"))) ∧
  (app = ra_AppID ra → (fr_now s < Unix exp * second)%Z → checkCSRF r = None →
    run = (v ← on_worker (CheckTokenActive retention Token UserFor signer serviceToken app tok); mret (session_answer tok v)) (s, x)).
Proof.
  destruct Happ, Htok, Hexp. intros run. subst run. unfold authenticateCookie. rewrite Hsent. change (default EmptyString (Some ?v)) with v. rewrite signCookie_text, sign_parse by done. cbn.
  split_and!; intros Ha.
  - by rewrite bool_decide_false.
  - intros He. rewrite bool_decide_true by done. cbn. unfold local, mbind, Op_bind. cbn. by rewrite (proj2 (Z.leb_le _ _) He).
  - intros He Hc. rewrite bool_decide_true by done. subst app. cbn. unfold local, mbind at 1, Op_bind at 1. cbn. by rewrite (proj2 (Z.leb_gt _ _) He), Hc.
Qed.
End LetThrough.
