(* ===== verification/AppExamples.v ===== *)
(** * AppExamples: user apps on concrete tables
      (pkg/pipelineapi/apps)

    The theorems of AppHistory, AppGrants, AppLedger and AppInternal applied to an
    upload, a promotion, tokens and deletions, and the histories that the comments
    of the code leave out. *)

From S2P Require Import Prelude GoTime CommitPool Authz RunWorld Tokens Password Calls BackendExamples AppStore AppInv AppHistory AppHandlers AppGrants AppLedger AppInternal.
Import Scripted.
#[local] Existing Instances TokenExamples.ascii_tables TokenExamples.lib TokenExamples.uuids TokenExamples.jwt.

Module AppExamples.
#[export] Instance by_key : DBOrder := {| scan A m := map_to_list m; scan_perm A m := Permutation_refl _; collate a b := match String.compare a b with Gt => false | _ => true end |}.
#[export] Instance no_gzip : Gzip := {| gz b := "z" +:+ b; gunzip s := match cut_prefix "z" s with Some b => Ok b | None => Err "gzip: invalid header" end |}.
#[export] Instance no_gzip_laws : GzipLaws.
Proof. intros b. cbn. reflexivity. Qed.
(** The relations of a project that a direct grant gives. *)
#[export] Instance direct : FgaModel := {| derives g user rel obj :=
  existsb (λ t, bool_decide (t_User t = user ∧ t_Object t = obj) && (bool_decide (t_Relation t = "data_admin") || (bool_decide (rel = relationRead) && bool_decide (t_Relation t = RelationViewer)))) (elements g) |}.
#[export] Instance at_noon : TimeLib := {| ParseRFC3339Nano s := if bool_decide (s = "noon") then Some (43200 * second)%Z else None |}.
#[export] Instance uuid_laws : UuidLaws.
Proof. by intros s u [= ->]. Qed.
#[export] Instance drawn : DrawnUuids (list weather * list string).
Proof. by intros [l [|id ids]]. Qed.
#[export] Instance calm_fga : HonestFga (list weather * list string).
Proof. intros [[|[| | |a] l] ids] m; cbn; intros [[=]|[=]]; subst m; by vm_compute. Qed.

(** One project, with an author and a reader. *)
Definition author : Tuple := MkTuple (Object_String (UserObject "ann")) "data_admin" (ProjectObject "lk").
Definition reader : Tuple := MkTuple (Object_String (UserObject "rob")) RelationViewer (ProjectObject "lk").
Definition empty : AppsWorld := MkAppsWorld 100 {["p" := "lk"]} ∅ ∅ ∅ ∅ ∅ {[author; reader]}.
Lemma empty_canonical : canonical empty.
Proof. intros id a. cbn. by rewrite lookup_empty. Qed.
Definition ann (name : string) : AppRequest := MkAppRequest (Some "ann") "p" name.
Definition rob (name : string) : AppRequest := MkAppRequest (Some "rob") "p" name.
Definition never : string → bool := λ _, false.
Definition upload : json_body string := Body "aGk=".
Definition ids (l : list string) : list weather * list string := ([], l).
Abbreviation route := (author_route (X := list weather * list string) never).

Example uploaded : match route (ann "shop") (RoutePutApp upload) (empty, ids ["a1"; "v1"]) with
  | ((w, _), r) => r = Some (APut "a1" "hhi") ∧ a_Name <$> ap_apps w !! "a1" = Some "shop" ∧ served "a1" "draft" w = "hhi" ∧ served "a1" "production" w = EmptyString ∧
                   length (elements (ap_grants w)) = 3
  end.
Proof. by vm_compute. Qed.
Example reader_refused : match route (rob "shop") (RoutePutApp upload) (empty, ids ["a1"; "v1"]) with
  | ((w, _), r) => r = Some (AError 403 "forbidden") ∧ fst <$> map_to_list (ap_apps w) = [] end.
Proof. by vm_compute. Qed.

(** ** Requests of authors *)

(** The theorem, where the caller may not do what it asks for. *)
Lemma author_request_confined_witness : (route (rob "shop") (RoutePutApp upload) (empty, ids ["a1"; "v1"])).1.1 = empty.
Proof.
  pose proof (author_request_confined never (rob "shop") (RoutePutApp upload) empty empty_canonical (ids ["a1"; "v1"])) as H. cbv zeta in H.
  assert (¬ allowed (rob "shop") (relation_of (RoutePutApp upload)) empty) as Hn.
  { intros (user & pid & lk & [= <-] & [= <-] & Hp & _ & Hd). assert (Some "lk" = Some lk) as [= <-] by exact Hp. by vm_compute in Hd. }
  destruct (route _ _ _) as [[w' x'] [r|]]; cbn; [by destruct H as [[H _] _]; apply H|by destruct H as [H _]; apply H].
Defined.
(** An upload that ends after its grant was written and before its app is marked, a
    deletion, and an upload whose grant cannot be written. *)
Definition rough : list (AppRequest * author_call) :=
  [(ann "shop", RoutePutApp upload); (ann "shop", RouteDeleteApp); (ann "shop", RoutePutApp upload)].
Definition accident : list weather * list string := (replicate 5 Fine ++ [Killed true] ++ replicate 6 Fine ++ replicate 5 Fine ++ [Refused], ["a1"; "a2"; "v1"]).
Example rough_course : (λ ka, (ka.1, a_FGARegistered ka.2)) <$> map_to_list (ap_apps (serve never rough (empty, accident)).1) = [("a2", false)].
Proof. by vm_compute. Qed.
Lemma empty_ledger : ledger {[author; reader]} empty.
Proof. split; [apply empty_canonical|by left]. Qed.
Lemma app_grants_accounted_witness : ledger {[author; reader]} (serve never rough (empty, accident)).1.
Proof. apply (app_grants_accounted never {[author; reader]} rough empty accident), empty_ledger. Defined.
Lemma uploaded_app_can_read_witness : ∃ a lk,
  let w' := (route (ann "shop") (RoutePutApp upload) (serve never rough (empty, accident))).1.1 in
  ap_apps w' !! "a2" = Some a ∧ ap_projects w' !! a_ProjectID a = Some lk ∧ grant_of "a2" lk ∈ ap_grants w'.
Proof.
  apply (uploaded_app_can_read never {[author; reader]} rough (ann "shop") upload empty accident "a2" "hhi").
  - apply empty_ledger.
  - intros id a. cbn. by rewrite lookup_empty.
  - cbn [rough deletions_complete]. split; [intros [=]|]. split; [intros _; left; by vm_compute|]. split; [intros [=]|done].
  - by vm_compute.
Defined.

(** ** Histories of the store *)

(** Two versions of an app. *)
Definition start : AppsWorld * script := run_calls 86400 [CreateApp "p" "shop"; PutBundle "a1" "one"; PutBundle "a1" "two"] (MkAppsWorld 100 {["p" := "lk"]} ∅ ∅ ∅ ∅ ∅ ∅, ([], ["a1"; "v1"; "v2"])).
Definition shop : AppsWorld := start.1.
Lemma shop_ok : apps_ok shop.
Proof. apply run_calls_ok. Qed.
Lemma parsed_id s : uuid_Parse s = Some s.
Proof. done. Qed.
Lemma parts {A B} (p : A * B) b : p.2 = b → p = (p.1, b).
Proof. by intros <-; destruct p. Qed.
Definition one : found := MkFound "a1" "hone" "v1".
Definition two : found := MkFound "a1" "htwo" "v2".
Definition promote (f : found) (expected : string) (w : AppsWorld) : AppsWorld := (swap_production (fo_app f) (fo_version f) expected w).1.
Definition after_one : AppsWorld := promote one EmptyString shop.
Definition after_three : AppsWorld := (put_version "a1" "three" "v3" after_one).1.
Definition after_two : AppsWorld := promote two "hone" after_three.
Lemma promote_done f expected w : (swap_production (fo_app f) (fo_version f) expected w).2 = Ok () →
  swap_production (fo_app f) (fo_version f) expected w = (promote f expected w, Ok ()).
Proof. apply parts. Qed.
Definition contest : list store_event := [OtherStatement; OtherStatement; Promoted "a1" EmptyString "hone"; OtherStatement; OtherStatement; Promoted "a1" "hone" "htwo"].
(** Two promotions that both found nothing in production, an upload, and the second
    one again. *)
Lemma contest_run : store_run 86400 (MkStoreSys shop []) contest (MkStoreSys after_two [two; one]).
Proof.
  eapply run_cons; [apply (st_target 86400 shop [] "a1" "hone" "v1" (MkVersionRow "a1" "hone" "zone" 3 100)); by vm_compute|].
  eapply run_cons; [apply (st_target 86400 shop [one] "a1" "htwo" "v2" (MkVersionRow "a1" "htwo" "ztwo" 3 100)); by vm_compute|].
  eapply run_cons; [apply (st_promoted 86400 shop [two; one] one EmptyString after_one); [set_solver|apply promote_done; by vm_compute]|].
  eapply run_cons; [apply (st_refused 86400 after_one [two; one] two EmptyString after_one ErrCASMismatch); [set_solver|reflexivity]|].
  eapply (run_cons _ _ _ (MkStoreSys after_three [two; one])); [apply (st_put 86400 after_one [two; one] "a1" "three" "v3"); [by vm_compute|intros f; rewrite !elem_of_cons, elem_of_nil; by intros [->|[->|[]]]]|].
  eapply run_cons; [apply (st_promoted 86400 after_three [two; one] two "hone" after_two); [set_solver|apply promote_done; by vm_compute]|].
  apply run_nil.
Qed.
Lemma promotions_chain_witness : promotions "a1" contest = [(EmptyString, "hone"); ("hone", "htwo")] ∧ chain (served "a1" "production" shop) (promotions "a1" contest) (served "a1" "production" after_two).
Proof.
  split; [reflexivity|]. apply (promotions_chain 86400 "a1" (MkStoreSys shop []) contest (MkStoreSys after_two [two; one])).
  - split; [apply shop_ok|]. intros f v Hf. exfalso. exact (not_elem_of_nil f Hf).
  - apply contest_run.
  - unfold contest. intros H. repeat (apply elem_of_cons in H as [[=]|H]). by apply elem_of_nil in H.
Defined.
Lemma upload_outcome_witness : served "a1" "draft" (PutVersion "a1" "four" (shop, ([Lost "timeout"], ["v4"]) : script)).1.1 = "hfour" ∧
  wp (X := script) (λ w', served "a1" "production" w' = served "a1" "production" shop) (PutVersion "a1" "four") (λ _ w', served "a1" "production" w' = served "a1" "production" shop) shop.
Proof. split; [by vm_compute|]. eapply wp_mono; [apply (upload_outcome (X := script) "a1" "a1" "four" shop (parsed_id "a1") shop_ok)|done|]. by intros r w' [H _]. Defined.
Lemma resolved_bundle_served_witness : resolve "p" "shop" "draft" shop = Some (MkResolved "a1" "v2" "htwo") ∧
  wp (X := script) (λ w', w' = shop) (GetBundle "htwo") (λ res w', w' = shop ∧
    match res with Ok raw => unpad (sha256_hex raw) = unpad "htwo" | Err e => ∃ m, e = AppError m end) shop.
Proof.
  assert (resolve "p" "shop" "draft" shop = Some (MkResolved "a1" "v2" "htwo")) as H by (by vm_compute). split; [exact H|].
  exact (proj2 (proj2 (resolved_bundle_served (X := script) 86400 100 {["p" := "lk"]} [CreateApp "p" "shop"; PutBundle "a1" "one"; PutBundle "a1" "two"] ([], ["a1"; "v1"; "v2"]) "p" "shop" "draft" _ H))).
Defined.

(** ** Viewer tokens *)

Definition minted : (AppsWorld * script) * option (result aerr (string * string)) := MintToken (Ok "raw") (Ok "salt") "a1" (shop, ([], ["t1"; "t2"])).
Definition others : list store_call := [MintViewer (Ok "more") (Ok "salt") "a1"; RevokeViewer "a1" "t2"; PutBundle "a1" "five"].
Lemma others_spare c : c ∈ others → ¬ deletes "a1" c ∧ ¬ revokes "t1" c.
Proof. unfold others. rewrite !elem_of_cons, elem_of_nil. intros [->|[->|[->|[]]]]; split; cbn; try (by intros []); by intros [=]. Qed.
Lemma token_opens_until_revoked_witness : verify_token "a1" "t1" "cmF3" (run_calls 86400 others (minted.1.1, minted.1.2)).1 = true.
Proof.
  destruct (token_opens_until_revoked (X := script) 86400 "raw" "salt" "a1" "a1" "t1" "cmF3" others shop minted.1.1 ([], ["t1"; "t2"]) minted.1.2 (parsed_id "a1")) as (_ & _ & H).
  - by vm_compute.
  - apply others_spare.
  - exact (proj2 (H "cmF3") eq_refl).
Defined.
Definition revoked : (AppsWorld * script) * option (result aerr ()) := RevokeToken "a1" "t1" (minted.1.1, minted.1.2).
Lemma revocation_is_final_witness : ∀ s, verify_token "a1" "t1" s (run_calls 86400 others (revoked.1.1, revoked.1.2)).1 = false.
Proof.
  assert (RevokeToken "a1" "t1" (minted.1.1, minted.1.2) = ((revoked.1.1, revoked.1.2), Some (Ok ()))) as Hrun by (by vm_compute).
  exact (proj2 (revocation_is_final (X := script) 86400 "a1" "a1" "t1" "t1" others minted.1.1 revoked.1.1 minted.1.2 revoked.1.2 (parsed_id "a1") (parsed_id "t1") Hrun
    (λ c Hc, proj1 (others_spare c Hc)))).
Defined.

(** ** The internal routes *)

Definition nobody : CallerRequest → Op AppsWorld script (result string (option string)) := λ _, mret (Ok None).
Definition internal_ (header : string) (c : internal_call) := internal_route (X := script) 86400 (Some (MkServiceToken "hs3cret")) nobody (Some TokenExamples.sg) (MkIRequest header EmptyString None) c.
Definition impersonated : (AppsWorld * script) * option ianswer := internal_ "bearer s3cret " (RouteImpersonate (Ok "jti") (Body "a1")) (shop, ([], [])).
Definition given (a : option ianswer) : string := match a with Some (IToken t) => t | _ => EmptyString end.
Lemma internal_routes_guarded_witness : given impersonated.2 ≠ EmptyString ∧
  ∃ rand appID, RouteImpersonate (Ok "jti") (Body "a1") = RouteImpersonate rand (Body appID) ∧ spoken_for (Some TokenExamples.sg) shop rand appID (given impersonated.2).
Proof.
  assert (internal_ "bearer s3cret " (RouteImpersonate (Ok "jti") (Body "a1")) (shop, ([], [])) = ((shop, ([], [])), Some (IToken (given impersonated.2)))) as Hrun by (by vm_compute).
  split; [by vm_compute|].
  exact (proj2 (proj2 (internal_routes_guarded (X := script) 86400 (Some (MkServiceToken "hs3cret")) nobody (Some TokenExamples.sg) (MkIRequest "bearer s3cret " EmptyString None)
    (RouteImpersonate (Ok "jti") (Body "a1")) shop shop ([], []) ([], []) _ Hrun) (given impersonated.2) eq_refl)).
Defined.
Example no_credential : (internal_ "Bearer guess" (RouteBundle "h") (shop, ([], []))).2 = Some (IError 401 kindUnauthorized "invalid or missing internal service credential").
Proof. by vm_compute. Qed.

(** ** What the comments leave out *)

(** A deletion that takes the grant away and then fails leaves an app that is
    marked as registered.  The next upload skips the registration, and the app it
    answers for can read nothing. *)
Example half_deleted_app_reads_nothing :
  let story := [(ann "shop", RoutePutApp upload); (ann "shop", RouteDeleteApp)] in
  let calls := (replicate 8 Fine ++ replicate 5 Fine ++ [Refused], ["a1"; "v1"; "v2"]) in
  match route (ann "shop") (RoutePutApp upload) (serve never story (empty, calls)) with
  | ((w, _), r) => r = Some (APut "a1" "hhi") ∧ a_FGARegistered <$> ap_apps w !! "a1" = Some true ∧ bool_decide (grant_of "a1" "lk" ∈ ap_grants w) = false
  end.
Proof. by vm_compute. Qed.
(** An upload that has read its app while another request deletes it: the grant is
    written for an app that has no row, and nothing takes it away again. *)
Example late_registration_leaks :
  let app := MkApp "a1" (MkAppRow "p" "shop" false 100) in
  match ensure_registered (X := list weather * list string) app (λ app, r ← PutVersion (app_ID app) "hi"; mret (match r with Ok _ => ANoContent | Err _ => AError 500 "store app version" end)) (empty, ids ["v1"]) with
  | ((w, _), r) => r = Some (AError 500 "store app version") ∧ fst <$> map_to_list (ap_apps w) = [] ∧ bool_decide (grant_of "a1" "lk" ∈ ap_grants w) = true
  end.
Proof. by vm_compute. Qed.
End AppExamples.
