(* ===== verification/WorkerExamples.v ===== *)
(** * WorkerExamples: app-worker on concrete requests
      (pkg/appworker/apiclient.go, auth.go)

    The theorems of WorkerRevoke, WorkerCache and WorkerAuthOk applied to a token
    that is verified, revoked and kept, to a small bundle cache, and to requests
    with cookies, tokens and platform credentials. *)

From S2P Require Import Prelude GoTime CommitPool Authz RunWorld Tokens Password Calls AppStore AppInv AppHistory AppHandlers AppInternal WorkerClient WorkerRevoke WorkerCache WorkerAuth WorkerAuthOk AppExamples.
Import Scripted AppExamples.
#[local] Existing Instances TokenExamples.ascii_tables TokenExamples.lib TokenExamples.jwt.

Module WorkerExamples.
(** Ids are texts without NUL. *)
#[export] Instance text_ids : UuidLib := {| uuid_Parse s := if forall_byte (λ c, negb (Ascii.eqb c nul)) s then Some s else None |}.
#[export] Instance text_ids_text : UuidText.
Proof. intros s u. cbn. destruct (forall_byte _ s) eqn:E; [|done]. by intros [= <-]. Qed.
Lemma no_collisions x y : sha256_hex x = sha256_hex y → x = y.
Proof. cbn. intros H. by injection H. Qed.

(** ** A token, verified and revoked *)

Definition row : TokenRow := MkTokenRow "a1" "salt" (hashToken "salt" "open") 0 None.
Definition before : AppsWorld := MkAppsWorld 0 {["p" := "lk"]} {["a1" := MkAppRow "p" "shop" true 0]} ∅ ∅ {["t1" := row]} ∅ {[MkTuple (Object_String (UserObject "rob")) RelationViewer (ProjectObject "lk")]}.
Definition whoami : CallerRequest → Op AppsWorld script (result string (option string)) := λ q, mret (Ok (if bool_decide (cq_Authorization q = "Bearer rob") then Some "rob" else None)).
Definition secret_ : option ServiceToken := Some (MkServiceToken "hs3cret").
Definition revocation : store_call := RevokeViewer "a1" "t1".
Definition after : AppsWorld := (run_call (X := script) 0 revocation (before, ([], []))).1.1.
Definition second_call : Z := 30 * second.
Abbreviation runs := (wrun (X := script) 0 secret_ whoami None "s3cret" second_call).
Definition cache0 : APIClient := NewAPIClient defaultBundleCacheBytes HardCapBundleMaxBytes defaultLogQueueSize.
Definition cache1 : APIClient := remember_valid (5 * second) "a1" "t1" "open" cache0.
Definition flight (st : vstage) : vflight := MkVflight "a1" "t1" "open" 0 st.
Definition asked : wsys := MkWsys 0 after cache0 [flight (VValid 0)] [].
Definition last : wsys := MkWsys (19 * second) after cache1 [] [].
Lemma to_revocation : runs (boot 0 before) [Quiet; Quiet; StoreCall revocation] asked.
Proof.
  eapply wrun_cons; [apply (w_ask _ _ _ _ _ _ 0 before cache0 [] [] "a1" "t1" "open"); reflexivity|].
  eapply wrun_cons; [apply (w_answered _ _ _ _ _ _ 0 before cache0 [] [] [] (flight VAsked) before ([], []) ([], []) true); [done|reflexivity]|].
  eapply wrun_cons; [apply (w_store (X := script) _ _ _ _ _ _ 0 before cache0 [flight (VValid 0)] [] revocation ([], []))|].
  apply wrun_nil.
Qed.
(** The answer, given before the revocation, is used five seconds after it, and
    kept for fifteen more. *)
Definition told : list wevent := [Quiet; Verdict (5 * second) "a1" "t1" "open" true; Quiet; Verdict (19 * second) "a1" "t1" "open" true].
Lemma from_revocation : runs asked told last.
Proof.
  eapply wrun_cons; [apply (w_time _ _ _ _ _ _ 0 after cache0 [flight (VValid 0)] [] (5 * second)); [done| |]|].
  - intros f Hf. apply elem_of_cons in Hf as [->|Hf]; [done|by apply elem_of_nil in Hf].
  - intros f Hf. by apply elem_of_nil in Hf.
  - eapply wrun_cons; [apply (w_valid _ _ _ _ _ _ (5 * second) after cache0 [] [] [] (flight (VValid 0)) 0); reflexivity|].
    eapply wrun_cons; [apply (w_time _ _ _ _ _ _ (5 * second) after cache1 [] [] (19 * second)); [done|intros f Hf; by apply elem_of_nil in Hf..]|].
    eapply wrun_cons; [apply (w_known _ _ _ _ _ _ (19 * second) after cache1 [] [] "a1" "t1" "open" true); by vm_compute|].
    apply wrun_nil.
Qed.
Lemma told_spares c : StoreCall c ∈ told → ¬ deletes "a1" c.
Proof. unfold told. intros H. repeat (apply elem_of_cons in H as [[=]|H]). by apply elem_of_nil in H. Qed.
(** Another caller's guess is refused and kept; the holder is let in. *)
Definition guess : vflight := MkVflight "a1" "t1" "wrong" 0 VAsked.
Definition guesses : list wevent := [Quiet; Quiet; Quiet; Quiet; Quiet; Verdict 0 "a1" "t1" "wrong" false].
Definition guessed : wsys := MkWsys 0 before (remember_refusal 0 "a1" "t1" "wrong" true cache0) [] [MkAflight "a1" "t1" 0 (Some (true, 0%Z))].
Lemma guess_run : runs (boot 0 before) guesses guessed.
Proof.
  eapply wrun_cons; [apply (w_ask _ _ _ _ _ _ 0 before cache0 [] [] "a1" "t1" "wrong"); reflexivity|].
  eapply wrun_cons; [apply (w_answered _ _ _ _ _ _ 0 before cache0 [] [] [] guess before ([], []) ([], []) false); [done|reflexivity]|].
  eapply wrun_cons; [apply (w_active_ask _ _ _ _ _ _ 0 before cache0 [at_stage guess VRefused] [] "a1" "t1"); reflexivity|].
  eapply wrun_cons; [apply (w_active_answered _ _ _ _ _ _ 0 before cache0 [at_stage guess VRefused] [] [] (MkAflight "a1" "t1" 0 None) before ([], []) ([], []) true); [done|reflexivity]|].
  eapply wrun_cons; [apply (w_classified _ _ _ _ _ _ 0 before cache0 [] [] [MkAflight "a1" "t1" 0 (Some (true, 0%Z))] (at_stage guess VRefused) true); [done|]|].
  - right. exists (MkAflight "a1" "t1" 0 (Some (true, 0%Z))), 0%Z. split_and!; [apply list_elem_of_here|done..].
  - eapply wrun_cons; [apply (w_refused _ _ _ _ _ _ 0 before cache0 [] [] [MkAflight "a1" "t1" 0 (Some (true, 0%Z))] (at_stage guess (VClassified true)) true); done|].
    apply wrun_nil.
Qed.
Lemma guesses_spare c : StoreCall c ∈ guesses → ¬ deletes "a1" c ∧ ¬ revokes "t1" c.
Proof. unfold guesses. intros H. repeat (apply elem_of_cons in H as [[=]|H]). by apply elem_of_nil in H. Qed.

(** ** Bundles *)

(** Room for six bytes. *)
Definition small : bundleLRU := MkBundleLRU 6 6 [("hone", "one"); ("htwo", "two")].
Lemma small_ok : lru_ok small.
Proof.
  split; [done|by vm_compute|apply (bool_decide_unpack _); by vm_compute|]. cbn. intros h d. rewrite !elem_of_cons, elem_of_nil. by intros [[= -> ->]|[[= -> ->]|[]]].
Qed.
Lemma bundle_cache_lru_witness : lru_order (lru_put "hsix" "six" (lru_get "htwo" small).1) = [("hsix", "six"); ("htwo", "two")] ∧ lru_ok (lru_put "hsix" "six" (lru_get "htwo" small).1).
Proof.
  split; [by vm_compute|]. apply (bundle_cache_lru "hsix" "six" (lru_get "htwo" small).1 (proj1 (bundle_cache_lru "htwo" "two" small small_ok eq_refl)) eq_refl).
Defined.
Definition kept : Worker := MkWorker 0 shop (set_bundles small cache0).
(** The bundle of a version comes from the store, and is kept. *)
Lemma bundle_verified_witness : client_ok (Worker_Bundle (X := script) 0 secret_ whoami None "s3cret" "hone" (kept, ([], []))).1.1.
Proof.
  pose proof (bundle_verified (X := script) 0 secret_ whoami None "s3cret" "hone" kept small_ok ([], [])) as H.
  destruct (Worker_Bundle _ _ _ _ _ _ _) as [[k x] [r|]]; [by destruct H|done].
Defined.

(** ** Requests *)

#[local] Instance payload_eq : EqDecision cookiePayload.
Proof. solve_decision. Defined.
#[local] Instance payload_countable : Countable cookiePayload.
Proof. by refine (inj_countable' (λ p, (cp_AppID p, cp_TokenID p, cp_Exp p)) (λ x, MkCookiePayload x.1.1 x.1.2 x.2) _); intros []. Defined.
Definition write_payload (p : cookiePayload) : string := "{" +:+ TokenExamples.write_bits (encode p).
Definition read_payload (s : string) : result string cookiePayload :=
  match (b ← cut_prefix "{" s; n ← TokenExamples.read_bits b; decode n) with Some p => Ok p | None => Err "invalid character" end.
Lemma read_braced n p : decode n = Some p → read_payload ("{" +:+ TokenExamples.write_bits n) = Ok p.
Proof.
  intros Hd. unfold read_payload. change (cut_prefix "{" ("{" +:+ ?s)) with (Some s). cbn [mbind option_bind]. rewrite TokenExamples.read_write_bits. cbn [mbind option_bind].
  by rewrite Hd.
Qed.
#[local] Instance toy_cookies : CookieLib := {| hmac_sha256 k s := k +:+ ":" +:+ s; marshal_payload := write_payload; unmarshal_payload := read_payload |}.
#[local] Instance toy_cookie_laws : CookieLaws.
Proof.
  split.
  - intros p _ _ _. apply read_braced, decode_encode.
  - by intros p.
  - intros k s. cbn. by destruct k.
Qed.
(** A bucket without refill, and addresses as they are written. *)
#[local] Instance toy_rate : RateLib := {|
  rate_Limiter := nat; rate_Reservation := bool;
  NewRateLimiter _ burst := Z.to_nat burst;
  ReserveN _ n := (pred n, (0 <? n)%nat);
  DelayFrom _ ok := if ok then 0%Z else (60 * second)%Z;
  reservation_OK ok := true;
  CancelAt _ ok n := if ok then S n else n |}.
#[local] Instance toy_net : NetLib := {| SplitHostPort s := fst <$> cut_dot s; ParseAddr s := if str_empty s then None else Some s |}.

Definition sales : resolvedApp := MkResolvedApp "p" "shop" "production" "a1" "hone".
Definition other_app : resolvedApp := MkResolvedApp "p" "till" "production" "a2" "hone".
Definition key : string := "0123456789abcdef".
Definition nobody_trusted : ProxyTrust := MkProxyTrust [] 1.
Definition front : Front := MkFront (MkWorker 0 before cache0) (newLimiterRegistry 10 10) (newLimiterRegistry 60 10) (newLimiterRegistry 300 300).
Definition get (query : gmap string (list string)) (authz : string) (session : option string) : VRequest :=
  MkVRequest "GET" "/apps/p/shop" query authz (default EmptyString session) session EmptyString EmptyString EmptyString EmptyString [] "apps.example" true "1_2_3_4.5555".
Definition asks (r : VRequest) (ra : resolvedApp) (s : Front * script) : (Front * script) * option auth_answer :=
  authenticate (X := script) 0 secret_ whoami None "s3cret" true key nobody_trusted r ra s.
Definition with_token : VRequest := get {["token" := ["vw_t1.open"]]} EmptyString None.
Definition cookie : string := signCookie key "a1" "t1" sessionCookieTTL.
Definition with_cookie : VRequest := get ∅ EmptyString (Some cookie).
Definition with_bearer : VRequest := get ∅ "Bearer rob" None.
(** The exchange, the cookie for its app and for another, a member and a stranger. *)
Example exchange : match (asks with_token sales (front, ([], []))).2 with Some (Exchanged c path _ (target, q)) => c = cookie ∧ path = "/apps/p/shop" ∧ target = "/apps/p/shop" ∧ fst <$> map_to_list q = [] | _ => False end.
Proof. by vm_compute. Qed.
Example cookie_again : (asks with_cookie sales (front, ([], []))).2 = Some (Principal viewer_token "t1").
Proof. by vm_compute. Qed.
Example bearer : (asks with_bearer sales (front, ([], []))).2 = Some (Principal platform_user "rob").
Proof. by vm_compute. Qed.
Example stranger : (asks (get ∅ "Bearer eve" None) sales (front, ([], []))).2 = Some (Refused 401 kindUnauthorized "authentication required").
Proof. by vm_compute. Qed.
(** A member is let in, loses the membership, and is let in from what the worker
    remembers, for less than fifteen seconds; a stranger never is. *)
Definition expelled : AppsWorld := MkAppsWorld 0 {["p" := "lk"]} {["a1" := MkAppRow "p" "shop" true 0]} ∅ ∅ {["t1" := row]} ∅ ∅.
Definition day (d : Z) : list happening := [Visit with_bearer sales; Elsewhere expelled; Elapse (Z.to_N d)].
Abbreviation visited l := (visits (X := script) 0 secret_ whoami None "s3cret" true key nobody_trusted l (front, ([], []))).
Example still_in : (asks with_bearer sales (visited (day (14 * second)))).2 = Some (Principal platform_user "rob").
Proof. by vm_compute. Qed.
Example out : (asks with_bearer sales (visited (day (15 * second)))).2 = Some (Refused 403 kindUnauthorized "not a member of this project").
Proof. by vm_compute. Qed.
Lemma admitted_on_grounds_witness :
  within (moment (X := script) 0 secret_ whoami None "s3cret" true key nobody_trusted (day (14 * second)) (front, ([], []))) (14 * second) sessionCacheTTL
    (vouched (X := script) whoami "s3cret" "rob" "p" EmptyString "Bearer rob").
Proof.
  set (run := asks with_bearer sales (visited (day (14 * second)))).
  assert (run = (run.1, Some (Principal platform_user "rob"))) as Hrun.
  { assert (run.2 = Some (Principal platform_user "rob")) as <- by (by vm_compute). by destruct run as [[]]. }
  destruct (admitted_on_grounds (X := script) 0 secret_ whoami None "s3cret" true key nobody_trusted no_collisions (front, ([], [])) (day (14 * second)) with_bearer sales run.1 (Principal platform_user "rob")) as [(_ & _ & _ & _ & H) _].
  - by eexists _, _, _.
  - repeat constructor.
  - exact Hrun.
  - exact H.
Defined.
Lemma cookie_opens_its_app_witness :
  authenticateCookie (X := script) 0 secret_ whoami None "s3cret" key with_cookie other_app (front, ([], [])) = ((front, ([], [])), Some (Refused 401 kindUnauthorized "invalid viewer session")).
Proof.
  apply (cookie_opens_its_app (X := script) 0 secret_ whoami None "s3cret" key with_cookie other_app "a1" "t1" sessionCookieTTL front ([], [])); by vm_compute.
Defined.
End WorkerExamples.
