(* ===== verification/ArrowSink.v ===== *)
(** * ArrowSink: batches of rows to a writer of the gateway
      (sdk/go/arrow/typed_sink.go)

    The core that the sinks of the SDK share: rows gather in the columns of a
    record builder, a full batch is shipped as one Arrow stream with one Write, the
    writer opens at the first batch, and a failure is final. *)

From Stdlib Require Import SpecFloat.
From S2P Require Import Prelude GoTime.

(** ** Schemas, cells, writers *)

Inductive arrow_type : Type := TInt32 | TInt64 | TFloat64 | TBool | TString.
Inductive arrow_cell : Type := CNull | CInt (z : Z) | CFloat (f : spec_float) | CBool (b : bool) | CString (s : string).
Record arrow_field := MkArrowField { fd_Name : string; fd_Type : arrow_type; fd_Nullable : bool }.
(** A record batch: its schema, and a column for each field. *)
Record record_batch := MkBatch { rb_schema : list arrow_field; rb_columns : list (list arrow_cell) }.
Definition rb_rows (b : record_batch) : nat := match rb_columns b with [] => 0 | c :: _ => length c end.
Record CloseResult := MkCloseResult { cr_TotalRows : Z; cr_TotalBytes : Z; cr_FilesWritten : Z }.
(** The writer that a sink is given, which answers anything: open, Write, Close. *)
Class SinkEnv (X : Type) : Type := {
  open_writer : X → X * option string;
  write_chunk : string → X → X * option string;
  close_writer : X → X * result string CloseResult;
}.
(** ipc.Writer: the error of Write, or that of Close, or the bytes. *)
Class ArrowIpc : Type := { ipc_write : record_batch → option string; ipc_close : record_batch → result string string }.

(** The calls a sink has made of its writer. *)
Inductive writer_call : Type :=
| Opened (err : option string)
| Wrote (b : record_batch) (err : option string)
| Closed (r : result string CloseResult).
Record sink_world (X : Type) := MkSinkWorld { sw_env : X; sw_calls : list writer_call }.
Arguments MkSinkWorld {X}.
Arguments sw_env {X}.
Arguments sw_calls {X}.

(** ** Operations, which may panic *)

Definition SinkOp (X S A : Type) : Type := S * sink_world X → option ((S * sink_world X) * A).
#[export] Instance sink_ret {X S} : MRet (SinkOp X S) := λ A a s, Some (s, a).
#[export] Instance sink_bind {X S} : MBind (SinkOp X S) := λ A B f m s, '(s', a) ← m s; f a s'.
Definition sink_panic {X S A} : SinkOp X S A := λ _, None.
Definition sink_get {X S} : SinkOp X S S := λ s, Some (s, s.1).
Definition sink_modify {X S} (f : S → S) : SinkOp X S () := λ s, Some ((f s.1, s.2), ()).
(** A call of the writer, noted with its answer. *)
Definition ask_writer {X S A} (f : X → X * A) (note : A → writer_call) : SinkOp X S A := λ s,
  let (x, a) := f (sw_env s.2) in Some ((s.1, MkSinkWorld x (sw_calls s.2 ++ [note a])), a).

(** ** The sink *)

Inductive sink_error : Type :=
| WriteError (msg : string)
| TypeViolationError (column : string) (t : arrow_type) (valueType preview : string)
| UsageError (msg : string).
Definition DefaultBatchRows : nat := 8192.
Record Sink := MkSink {
  sk_schema : list arrow_field;
  sk_writer : bool;
  sk_builder : option (list (list arrow_cell));
  sk_batchRows : nat;
  sk_inBatch : nat;
  sk_rows : Z;
  sk_finished : bool;
  sk_failed : option sink_error;
  sk_closeResult : option CloseResult;
  sk_bytesShipped : Z;
}.
Definition set_writer s := MkSink (sk_schema s) true (sk_builder s) (sk_batchRows s) (sk_inBatch s) (sk_rows s) (sk_finished s) (sk_failed s) (sk_closeResult s) (sk_bytesShipped s).
Definition set_builder b s := MkSink (sk_schema s) (sk_writer s) b (sk_batchRows s) (sk_inBatch s) (sk_rows s) (sk_finished s) (sk_failed s) (sk_closeResult s) (sk_bytesShipped s).
Definition set_counts n rows s := MkSink (sk_schema s) (sk_writer s) (sk_builder s) (sk_batchRows s) n rows (sk_finished s) (sk_failed s) (sk_closeResult s) (sk_bytesShipped s).
Definition set_finished s := MkSink (sk_schema s) (sk_writer s) (sk_builder s) (sk_batchRows s) (sk_inBatch s) (sk_rows s) true (sk_failed s) (sk_closeResult s) (sk_bytesShipped s).
Definition set_failed e s := MkSink (sk_schema s) (sk_writer s) (sk_builder s) (sk_batchRows s) (sk_inBatch s) (sk_rows s) (sk_finished s) e (sk_closeResult s) (sk_bytesShipped s).
Definition set_closeResult r s := MkSink (sk_schema s) (sk_writer s) (sk_builder s) (sk_batchRows s) (sk_inBatch s) (sk_rows s) (sk_finished s) (sk_failed s) r (sk_bytesShipped s).
Definition set_shipped n s := MkSink (sk_schema s) (sk_writer s) (sk_builder s) (sk_batchRows s) (sk_inBatch s) (sk_rows s) (sk_finished s) (sk_failed s) (sk_closeResult s) n.

(** WithBatchRows: a value that is not positive is ignored. *)
Definition WithBatchRows (n : Z) (batchRows : nat) : nat := if (0 <? n)%Z then Z.to_nat n else batchRows.
Definition empty_columns (schema : list arrow_field) : list (list arrow_cell) := (λ _, []) <$> schema.
Definition NewSink (schema : list arrow_field) (batchRows : nat) : Sink :=
  MkSink schema false (Some (empty_columns schema)) batchRows 0 0 false None None 0.

Section SinkOps.
Context {X : Type} `{SE : !SinkEnv X} `{AI : !ArrowIpc}.

Definition releaseBuilder : SinkOp X Sink () := sink_modify (set_builder None).
(** The first failure stays. *)
Definition sink_fail (e : sink_error) : SinkOp X Sink sink_error :=
  _ ← sink_modify (λ s, match sk_failed s with None => set_failed (Some e) s | Some _ => s end);
  _ ← releaseBuilder;
  mret e.
(** builder.NewRecord: the columns, which must be of one length, and empty ones. *)
Definition NewRecord : SinkOp X Sink record_batch :=
  s ← sink_get;
  match sk_builder s with
  | None => sink_panic
  | Some columns =>
    let b := MkBatch (sk_schema s) columns in
    if forallb (λ c, Nat.eqb (length c) (rb_rows b)) columns then
      _ ← sink_modify (set_builder (Some (empty_columns (sk_schema s)))); mret b
    else sink_panic
  end.
(** [None] when there is a writer. *)
Definition ensure_writer : SinkOp X Sink (option sink_error) :=
  s ← sink_get;
  if sk_writer s then mret None
  else
    r ← ask_writer open_writer Opened;
    match r with
    | Some err => e ← sink_fail (WriteError ("failed to open writer: " +:+ err)); mret (Some e)
    | None => _ ← sink_modify set_writer; mret None
    end.
Definition ship (rec : record_batch) : SinkOp X Sink (option sink_error) :=
  match ipc_write rec with
  | Some err => e ← sink_fail (WriteError ("ipc write record: " +:+ err)); mret (Some e)
  | None =>
    match ipc_close rec with
    | Err err => e ← sink_fail (WriteError ("ipc close writer: " +:+ err)); mret (Some e)
    | Ok payload =>
      r ← ask_writer (write_chunk payload) (Wrote rec);
      match r with
      | Some err => e ← sink_fail (WriteError ("failed to write IPC batch: " +:+ err)); mret (Some e)
      | None =>
        _ ← sink_modify (λ s, set_counts 0 (sk_rows s) (set_shipped (sk_bytesShipped s + Z.of_nat (slen payload))%Z s));
        mret None
      end
    end
  end.
Definition flush : SinkOp X Sink (option sink_error) :=
  s ← sink_get;
  if Nat.eqb (sk_inBatch s) 0 then mret None
  else
    o ← ensure_writer;
    match o with
    | Some e => mret (Some e)
    | None => rec ← NewRecord; ship rec
    end.
Definition errSinkRowDoneAfterFinish : sink_error := UsageError "arrow: Sink.RowDone called after Finish".
Definition RowDone : SinkOp X Sink (option sink_error) :=
  s ← sink_get;
  match sk_failed s with
  | Some e => mret (Some e)
  | None =>
    if sk_finished s then mret (Some errSinkRowDoneAfterFinish)
    else
      _ ← sink_modify (λ s, set_counts (S (sk_inBatch s)) (sk_rows s + 1)%Z s);
      if (sk_batchRows s <=? S (sk_inBatch s))%nat then flush else mret None
  end.
Definition closeAfterFailure : SinkOp X Sink () :=
  s ← sink_get;
  if sk_finished s || negb (sk_writer s) then mret ()
  else _ ← sink_modify set_finished; _ ← ask_writer close_writer Closed; mret ().
(** What Finish returns: the rows, the result of Close, the error. *)
Definition finish_result : Type := Z * option CloseResult * option sink_error.
Definition Sink_Finish : SinkOp X Sink finish_result :=
  s ← sink_get;
  match sk_failed s with
  | Some e => _ ← closeAfterFailure; mret (sk_rows s, None, Some e)
  | None =>
    if sk_finished s then mret (sk_rows s, sk_closeResult s, None)
    else
      o ← flush;
      match o with
      | Some e => _ ← releaseBuilder; mret (sk_rows s, None, Some e)
      | None =>
        _ ← sink_modify set_finished;
        t ← sink_get;
        if negb (sk_writer t) then _ ← releaseBuilder; mret (0%Z, None, None)
        else
          r ← ask_writer close_writer Closed;
          match r with
          | Err err => e ← sink_fail (WriteError ("failed to close writer: " +:+ err)); _ ← releaseBuilder; mret (sk_rows s, None, Some e)
          | Ok cr => _ ← sink_modify (set_closeResult (Some cr)); _ ← releaseBuilder; mret (sk_rows s, Some cr, None)
          end
      end
  end.
(** A value for each field: [builder.Field(i).Append]. *)
Fixpoint append_cells (columns : list (list arrow_cell)) (cells : list arrow_cell) : list (list arrow_cell) :=
  match columns, cells with c :: columns, x :: cells => (c ++ [x]) :: append_cells columns cells | _, _ => columns end.
Definition append_row (cells : list arrow_cell) : SinkOp X Sink () :=
  s ← sink_get;
  match sk_builder s with
  | None => sink_panic
  | Some columns => sink_modify (set_builder (Some (append_cells columns cells)))
  end.
End SinkOps.
