(* ===== verification/InferSink.v ===== *)
(** * InferSink: records of decoded JSON to typed columns
      (sdk/go/arrow: sink.go, inferring_sink.go)

    The column plan and the inference of types from the first batch, the rules by
    which a value fits a column, and the two sinks that components add records to:
    [StringSink] and [InferringSink]. *)

From Stdlib Require Import SpecFloat.
From S2P Require Import Prelude GoValue GoTime ArrowSink.

(** ** Values *)

(** What encoding/json decodes, with the text of a json.Number, and the float64 of
    a caller that does not use it. *)
Inductive jvalue : Type :=
| JNull
| JNumber (text : string)
| JBool (b : bool)
| JString (s : string)
| JFloat (f : spec_float)
| JObject (m : list (string * value))
| JArray (l : list value).
(** map[string]any, in the order in which one range over it goes. *)
Definition json_record : Type := list (string * jvalue).
Definition rec_get (k : string) (rec : json_record) : jvalue := default JNull (gm_get k rec).
(** strconv.ParseFloat and FormatFloat 'g', json.Marshal, and what a conversion of
    a float64 gives when the integer type has no such value. *)
Class SinkLib : Type := {
  ParseFloat : string → option spec_float;
  FormatFloat : spec_float → string;
  json_Marshal : value → result string string;
  convert_float : Z → spec_float → Z;
}.
(** ParseFloat reads what ParseInt reads. *)
Class SinkLaws `{SL : !SinkLib} : Prop := ParseFloat_int : ∀ s z, Atoi s = Some z → is_Some (ParseFloat s).

(** strconv.ParseInt(s, 10, bits). *)
Definition in_bits (bits : Z) (z : Z) : bool := ((- 2 ^ (bits - 1) <=? z) && (z <? 2 ^ (bits - 1)))%Z.
Definition ParseInt (bits : Z) (s : string) : option Z := z ← Atoi s; if in_bits bits z then Some z else None.
(** Finite and equal to its math.Trunc. *)
Definition integral (f : spec_float) : bool :=
  match f with
  | S754_zero _ => true
  | S754_finite _ m e => (0 <=? e)%Z || (Z.pos m mod 2 ^ (- e) =? 0)%Z
  | _ => false
  end.
Definition float_value (f : spec_float) : Z :=
  match f with
  | S754_finite s m e => let n := if (0 <=? e)%Z then (Z.pos m * 2 ^ e)%Z else (Z.pos m / 2 ^ (- e))%Z in if s then (- n)%Z else n
  | _ => 0%Z
  end.

Section Values.
Context `{UT : !UnicodeTables} `{SL : !SinkLib}.

Definition marshalled (v : value) : option string := match json_Marshal v with Ok s => Some s | Err _ => None end.
(** [None]: null. *)
Definition stringifyValue (v : jvalue) : option string :=
  match v with
  | JNull => None
  | JString s => Some s
  | JNumber t => Some t
  | JBool b => Some (if b then "true" else "false")
  | JFloat f => Some (FormatFloat f)
  | JObject m => marshalled (VObj m)
  | JArray l => marshalled (VArr l)
  end.
(** [intN(x)]. *)
Definition int_of_float (bits : Z) (f : spec_float) : Z := if integral f && in_bits bits (float_value f) then float_value f else convert_float bits f.

(** ** Plans *)

Record columnPlan := MkColumnPlan { cp_names : list string; cp_extract : json_record → nat → jvalue }.
Definition plan_of_names (names : list string) : columnPlan := MkColumnPlan names (λ rec i, rec_get (nth i names EmptyString) rec).
(** The sorted union of the keys. *)
Definition planFromBatch (batch : list json_record) : columnPlan := plan_of_names (sorted_names (list_to_set (rec ← batch; gm_keys rec))).
Record TypedColumn := MkTypedColumn { tc_Name : string; tc_Type : string }.
Definition ArrowTypeFor (t : string) : result string arrow_type :=
  if bool_decide (t = "int") then Ok TInt32
  else if bool_decide (t = "long") then Ok TInt64
  else if bool_decide (t ∈ ["float"; "double"]) then Ok TFloat64
  else if bool_decide (t = "boolean") then Ok TBool
  else if bool_decide (t = "string") then Ok TString
  else Err ("arrow: unrecognized column type " +:+ quote t +:+ " (want one of: int, long, float, double, boolean, string)").
Definition planFromTypedColumns (cols : list TypedColumn) : result string (columnPlan * list arrow_type) :=
  types ← mapM_res (λ c, map_err (λ e, "arrow: declared column " +:+ quote (tc_Name c) +:+ ": " +:+ e) (ArrowTypeFor (tc_Type c))) cols;
  Ok (plan_of_names (tc_Name <$> cols), types).
(** The value of each column. *)
Definition project (p : columnPlan) (rec : json_record) : list jvalue := cp_extract p rec <$> seq 0 (length (cp_names p)).

(** ** The lattice of kinds *)

Inductive columnKind : Type := kindUnset | kindInt | kindFloat | kindBool | kindString.
#[export] Instance columnKind_eq : EqDecision columnKind.
Proof. solve_decision. Defined.
Definition classifyValue (v : jvalue) : columnKind :=
  match v with
  | JNull => kindUnset
  | JNumber t => match ParseInt 64 t with Some _ => kindInt | None => match ParseFloat t with Some _ => kindFloat | None => kindString end end
  | JBool _ => kindBool
  | JString _ => kindString
  | JFloat f => if integral f then kindInt else kindFloat
  | JObject _ | JArray _ => kindString
  end.
Definition joinKind (a b : columnKind) : columnKind :=
  match a, b with
  | kindUnset, _ => b
  | _, kindUnset => a
  | _, _ =>
    if bool_decide (a = b) then a
    else if bool_decide (a = kindInt ∧ b = kindFloat) || bool_decide (a = kindFloat ∧ b = kindInt) then kindFloat
    else kindString
  end.
Definition arrowTypeForKind (k : columnKind) : arrow_type :=
  match k with kindInt => TInt64 | kindFloat => TFloat64 | kindBool => TBool | kindUnset | kindString => TString end.
Definition inferTypesFromBatch (p : columnPlan) (batch : list json_record) : list arrow_type :=
  let kinds := foldl (λ ks rec, zip_with (λ k v, joinKind k (classifyValue v)) ks (project p rec)) (replicate (length (cp_names p)) kindUnset) batch in
  arrowTypeForKind <$> kinds.

(** ** What fits, and the cell it becomes *)

Definition valueFitsArrowType (v : jvalue) (t : arrow_type) : bool :=
  match v with
  | JNull => true
  | _ =>
    match t with
    | TInt64 => match v with JNumber s => bool_decide (is_Some (ParseInt 64 s)) | JFloat f => integral f | _ => false end
    | TFloat64 => match v with JNumber s => bool_decide (is_Some (ParseFloat s)) | JFloat _ => true | _ => false end
    | TBool => match v with JBool _ => true | _ => false end
    | TInt32 | TString => true
    end
  end.
Definition declaredValueFits (v : jvalue) (t : arrow_type) : bool :=
  match v with
  | JNull => true
  | _ =>
    match t with
    | TInt32 => match v with JNumber s => bool_decide (is_Some (ParseInt 32 s)) | JFloat f => integral f && in_bits 32 (float_value f) | _ => false end
    | TInt64 => match v with JNumber s => bool_decide (is_Some (ParseInt 64 s)) | JFloat f => integral f | _ => false end
    | TFloat64 => match v with JNumber s => bool_decide (is_Some (ParseFloat s)) | JFloat _ => true | _ => false end
    | TBool => match v with JBool _ => true | _ => false end
    | TString => match v with JBool _ => false | _ => true end
    end
  end.
(** appendValueToBuilder: the cell; [None] where no case appends one, a type
    assertion fails, or a number does not parse, all of which a value that fits
    has been checked not to do. *)
Definition cell_of (t : arrow_type) (v : jvalue) : option arrow_cell :=
  match v with
  | JNull => Some CNull
  | _ =>
    match t, v with
    | TInt32, JNumber s => CInt <$> ParseInt 32 s
    | TInt32, JFloat f => Some (CInt (int_of_float 32 f))
    | TInt64, JNumber s => CInt <$> ParseInt 64 s
    | TInt64, JFloat f => Some (CInt (int_of_float 64 f))
    | TFloat64, JNumber s => CFloat <$> ParseFloat s
    | TFloat64, JFloat f => Some (CFloat f)
    | TBool, JBool b => Some (CBool b)
    | TString, _ => Some (match stringifyValue v with Some s => CString s | None => CNull end)
    | _, _ => None
    end
  end.
Definition typeViolationPreviewLimit : nat := 80.
Definition go_type (v : jvalue) : string :=
  match v with
  | JNull => "<nil>"
  | JNumber _ => "json.Number"
  | JBool _ => "bool"
  | JString _ => "string"
  | JFloat _ => "float64"
  | JObject _ => "map[string]interface {}"
  | JArray _ => "[]interface {}"
  end.
Definition newTypeViolationError (column : string) (t : arrow_type) (v : jvalue) : sink_error :=
  let preview := default EmptyString (stringifyValue v) in
  TypeViolationError column t (go_type v)
    (if (typeViolationPreviewLimit <? slen preview)%nat then str_take typeViolationPreviewLimit preview +:+ "...(truncated)" else preview).
End Values.

(** ** The options of a constructor *)

Record sinkSettings := MkSinkSettings { ss_batchRows : nat; ss_columns : option columnPlan; ss_typedColumns : option (list TypedColumn) }.
Definition no_settings : sinkSettings := MkSinkSettings DefaultBatchRows None None.
Inductive SinkOption : Type := OptBatchRows (n : Z) | OptColumns (p : columnPlan) | OptTypedColumns (cols : list TypedColumn).
Definition apply_option (s : sinkSettings) (o : SinkOption) : sinkSettings :=
  match o with
  | OptBatchRows n => MkSinkSettings (WithBatchRows n (ss_batchRows s)) (ss_columns s) (ss_typedColumns s)
  | OptColumns p => MkSinkSettings (ss_batchRows s) (Some p) (ss_typedColumns s)
  | OptTypedColumns cols => MkSinkSettings (ss_batchRows s) (ss_columns s) (Some cols)
  end.
Definition settings_of (opts : list SinkOption) : sinkSettings := foldl apply_option no_settings opts.
Definition MaxTrackedUnknownKeys : nat := 64.

(** Names and count of the keys outside an inferred plan. *)
Definition track_key (known : gset string) (seen : gset string) (k : string) : gset string :=
  if bool_decide (k ∈ known) || bool_decide (k ∈ seen) || (MaxTrackedUnknownKeys <=? size seen)%nat then seen else {[k]} ∪ seen.
Definition track (known : gset string) (rec : json_record) (seen : gset string) (records : Z) : gset string * Z :=
  (foldl (track_key known) seen (gm_keys rec), (records + if existsb (λ k, negb (bool_decide (k ∈ known))) (gm_keys rec) then 1 else 0)%Z).

(** ** InferringSink *)

Record InferringSink := MkInferringSink {
  is_batchRows : nat;
  is_core : option Sink;
  is_plan : option columnPlan;
  is_colTypes : option (list arrow_type);
  is_pending : list json_record;
  is_fits : jvalue → arrow_type → bool;
  is_finished : bool;
  is_inferredNames : option (gset string);
  is_unknownKeys : gset string;
  is_unknownRecords : Z;
}.
Definition is_set_core c s := MkInferringSink (is_batchRows s) c (is_plan s) (is_colTypes s) (is_pending s) (is_fits s) (is_finished s) (is_inferredNames s) (is_unknownKeys s) (is_unknownRecords s).
Definition is_set_plan p s := MkInferringSink (is_batchRows s) (is_core s) p (is_colTypes s) (is_pending s) (is_fits s) (is_finished s) (is_inferredNames s) (is_unknownKeys s) (is_unknownRecords s).
Definition is_set_types t s := MkInferringSink (is_batchRows s) (is_core s) (is_plan s) t (is_pending s) (is_fits s) (is_finished s) (is_inferredNames s) (is_unknownKeys s) (is_unknownRecords s).
Definition is_set_pending l s := MkInferringSink (is_batchRows s) (is_core s) (is_plan s) (is_colTypes s) l (is_fits s) (is_finished s) (is_inferredNames s) (is_unknownKeys s) (is_unknownRecords s).
Definition is_set_finished s := MkInferringSink (is_batchRows s) (is_core s) (is_plan s) (is_colTypes s) (is_pending s) (is_fits s) true (is_inferredNames s) (is_unknownKeys s) (is_unknownRecords s).
Definition is_set_names n s := MkInferringSink (is_batchRows s) (is_core s) (is_plan s) (is_colTypes s) (is_pending s) (is_fits s) (is_finished s) n (is_unknownKeys s) (is_unknownRecords s).
Definition is_set_unknown u s := MkInferringSink (is_batchRows s) (is_core s) (is_plan s) (is_colTypes s) (is_pending s) (is_fits s) (is_finished s) (is_inferredNames s) u.1 u.2.

Section Inferring.
Context `{UT : !UnicodeTables} `{SL : !SinkLib} {X : Type} `{SE : !SinkEnv X} `{AI : !ArrowIpc}.

(** The core from the plan and the types; every field is nullable. *)
Definition schema_of (names : list string) (types : list arrow_type) : list arrow_field := zip_with (λ n t, MkArrowField n t true) names types.
Definition build_core (p : columnPlan) (types : list arrow_type) (batchRows : nat) : Sink := NewSink (schema_of (cp_names p) types) batchRows.
Definition buildCore (s : InferringSink) : InferringSink :=
  match is_plan s, is_colTypes s with
  | Some p, Some types => is_set_core (Some (build_core p types (is_batchRows s))) s
  | _, _ => s
  end.
Definition NewInferringSink (settings : sinkSettings) : result string InferringSink :=
  match ss_columns settings, ss_typedColumns settings with
  | Some _, Some _ => Err "arrow: NewInferringSink: WithTypedColumns and WithColumns are mutually exclusive"
  | _, Some cols =>
    '(plan, types) ← planFromTypedColumns cols;
    Ok (buildCore (MkInferringSink (ss_batchRows settings) None (Some plan) (Some types) [] declaredValueFits false None ∅ 0))
  | columns, None => Ok (MkInferringSink (ss_batchRows settings) None columns None [] valueFitsArrowType false None ∅ 0)
  end.

(** An operation of the core, which is there. *)
Definition on_core {A} (m : SinkOp X Sink A) : SinkOp X InferringSink A := λ s,
  match is_core s.1 with
  | None => None
  | Some c => '(c', w, a) ← m (c, s.2); Some ((is_set_core (Some c') s.1, w), a)
  end.
(** The first value that does not fit its column. *)
Fixpoint first_misfit (fits : jvalue → arrow_type → bool) (l : list (string * arrow_type * jvalue)) : option (string * arrow_type * jvalue) :=
  match l with
  | [] => None
  | (n, t, v) :: l => if fits v t then first_misfit fits l else Some (n, t, v)
  end.
Definition columns_of (names : list string) (types : list arrow_type) (values : list jvalue) : list (string * arrow_type * jvalue) := zip (zip names types) values.
Definition append_values (types : list arrow_type) (values : list jvalue) : SinkOp X Sink () :=
  match mapM (λ tv, cell_of tv.1 tv.2) (zip types values) with Some cells => append_row cells | None => sink_panic end.
Definition trackUnknownKeys (rec : json_record) : SinkOp X InferringSink () := sink_modify (λ s,
  match is_inferredNames s with
  | Some known => is_set_unknown (track known rec (is_unknownKeys s) (is_unknownRecords s)) s
  | None => s
  end).
Definition appendRow (rec : json_record) : SinkOp X InferringSink (option sink_error) :=
  s ← sink_get;
  match is_plan s, is_colTypes s with
  | Some p, Some types =>
    let values := project p rec in
    match first_misfit (is_fits s) (columns_of (cp_names p) types values) with
    | Some (n, t, v) => e ← on_core (sink_fail (newTypeViolationError n t v)); mret (Some e)
    | None => _ ← on_core (append_values types values); _ ← trackUnknownKeys rec; mret None
    end
  | _, _ => sink_panic
  end.
Definition appendAndRowDone (rec : json_record) : SinkOp X InferringSink (option sink_error) :=
  o ← appendRow rec;
  match o with Some e => mret (Some e) | None => on_core RowDone end.
Fixpoint replay (l : list json_record) : SinkOp X InferringSink (option sink_error) :=
  match l with
  | [] => mret None
  | rec :: l => o ← appendAndRowDone rec; match o with Some e => mret (Some e) | None => replay l end
  end.
Definition adopt (s : InferringSink) : InferringSink :=
  let s := match is_plan s with
           | Some _ => s
           | None => let p := planFromBatch (is_pending s) in is_set_names (Some (list_to_set (cp_names p))) (is_set_plan (Some p) s)
           end in
  match is_plan s with
  | Some p => is_set_pending [] (buildCore (is_set_types (Some (inferTypesFromBatch p (is_pending s))) s))
  | None => s
  end.
Definition adoptFromPending : SinkOp X InferringSink (option sink_error) :=
  s ← sink_get; _ ← sink_modify adopt; replay (is_pending s).
Definition core_failed (c : option Sink) : option sink_error := c ≫= sk_failed.
Definition errInferringSinkAddAfterFinish : sink_error := UsageError "arrow: InferringSink.Add called after Finish".
Definition InferringSink_Add (rec : json_record) : SinkOp X InferringSink (option sink_error) :=
  s ← sink_get;
  match core_failed (is_core s) with
  | Some e => mret (Some e)
  | None =>
    if is_finished s then mret (Some errInferringSinkAddAfterFinish)
    else match is_colTypes s with
    | None =>
      _ ← sink_modify (λ s, is_set_pending (is_pending s ++ [rec]) s);
      if (S (length (is_pending s)) <? is_batchRows s)%nat then mret None else adoptFromPending
    | Some _ => appendAndRowDone rec
    end
  end.
Definition InferringSink_Finish : SinkOp X InferringSink finish_result :=
  s ← sink_get;
  match core_failed (is_core s) with
  | Some _ => on_core Sink_Finish
  | None =>
    if is_finished s then
      mret (match is_core s with None => (0%Z, None, None) | Some c => (sk_rows c, sk_closeResult c, None) end)
    else
      o ← (match is_colTypes s with
           | None => if Nat.eqb (length (is_pending s)) 0 then mret None else adoptFromPending
           | Some _ => mret None
           end);
      match o with
      | Some _ => on_core Sink_Finish
      | None =>
        _ ← sink_modify is_set_finished;
        t ← sink_get;
        match is_core t with None => mret (0%Z, None, None) | Some _ => on_core Sink_Finish end
      end
  end.
Definition UnknownKeys (s : InferringSink) : list string * Z := (sorted_names (is_unknownKeys s), is_unknownRecords s).
End Inferring.

(** ** StringSink *)

Record StringSink := MkStringSink {
  st_batchRows : nat;
  st_core : option Sink;
  st_plan : option columnPlan;
  st_pending : list json_record;
  st_finished : bool;
  st_inferredNames : option (gset string);
  st_unknownKeys : gset string;
  st_unknownRecords : Z;
}.
Definition st_set_core c s := MkStringSink (st_batchRows s) c (st_plan s) (st_pending s) (st_finished s) (st_inferredNames s) (st_unknownKeys s) (st_unknownRecords s).
Definition st_set_pending l s := MkStringSink (st_batchRows s) (st_core s) (st_plan s) l (st_finished s) (st_inferredNames s) (st_unknownKeys s) (st_unknownRecords s).
Definition st_set_finished s := MkStringSink (st_batchRows s) (st_core s) (st_plan s) (st_pending s) true (st_inferredNames s) (st_unknownKeys s) (st_unknownRecords s).
Definition st_set_unknown u s := MkStringSink (st_batchRows s) (st_core s) (st_plan s) (st_pending s) (st_finished s) (st_inferredNames s) u.1 u.2.

Section Strings.
Context `{UT : !UnicodeTables} `{SL : !SinkLib} {X : Type} `{SE : !SinkEnv X} `{AI : !ArrowIpc}.

Definition adoptPlan (p : columnPlan) (inferred : bool) (s : StringSink) : StringSink :=
  MkStringSink (st_batchRows s) (Some (NewSink ((λ n, MkArrowField n TString true) <$> cp_names p) (st_batchRows s))) (Some p) (st_pending s) (st_finished s)
    (if inferred then Some (list_to_set (cp_names p)) else st_inferredNames s) (st_unknownKeys s) (st_unknownRecords s).
Definition NewStringSink (settings : sinkSettings) : StringSink :=
  let s := MkStringSink (ss_batchRows settings) None None [] false None ∅ 0 in
  match ss_columns settings with Some p => adoptPlan p false s | None => s end.
Definition on_string_core {A} (m : SinkOp X Sink A) : SinkOp X StringSink A := λ s,
  match st_core s.1 with
  | None => None
  | Some c => '(c', w, a) ← m (c, s.2); Some ((st_set_core (Some c') s.1, w), a)
  end.
Definition string_cell (v : jvalue) : arrow_cell := match stringifyValue v with Some s => CString s | None => CNull end.
Definition String_appendRow (rec : json_record) : SinkOp X StringSink () :=
  s ← sink_get;
  match st_plan s with
  | None => sink_panic
  | Some p =>
    _ ← on_string_core (append_row (string_cell <$> project p rec));
    sink_modify (λ s, match st_inferredNames s with
                      | Some known => st_set_unknown (track known rec (st_unknownKeys s) (st_unknownRecords s)) s
                      | None => s
                      end)
  end.
Definition String_appendAndRowDone (rec : json_record) : SinkOp X StringSink (option sink_error) :=
  _ ← String_appendRow rec; on_string_core RowDone.
Fixpoint String_replay (l : list json_record) : SinkOp X StringSink (option sink_error) :=
  match l with
  | [] => mret None
  | rec :: l => o ← String_appendAndRowDone rec; match o with Some e => mret (Some e) | None => String_replay l end
  end.
Definition String_adopt : SinkOp X StringSink (option sink_error) :=
  s ← sink_get; _ ← sink_modify (λ s, st_set_pending [] (adoptPlan (planFromBatch (st_pending s)) true s)); String_replay (st_pending s).
Definition StringSink_Add (rec : json_record) : SinkOp X StringSink (option sink_error) :=
  s ← sink_get;
  match core_failed (st_core s) with
  | Some e => mret (Some e)
  | None =>
    if st_finished s then mret (Some (UsageError "arrow: StringSink.Add called after Finish"))
    else match st_plan s with
    | None =>
      _ ← sink_modify (λ s, st_set_pending (st_pending s ++ [rec]) s);
      if (S (length (st_pending s)) <? st_batchRows s)%nat then mret None else String_adopt
    | Some _ => String_appendAndRowDone rec
    end
  end.
Definition StringSink_Finish : SinkOp X StringSink finish_result :=
  s ← sink_get;
  match core_failed (st_core s) with
  | Some _ => on_string_core Sink_Finish
  | None =>
    if st_finished s then
      mret (match st_core s with None => (0%Z, None, None) | Some c => (sk_rows c, sk_closeResult c, None) end)
    else
      o ← (match st_plan s with
           | None => if Nat.eqb (length (st_pending s)) 0 then mret None else String_adopt
           | Some _ => mret None
           end);
      match o with
      | Some _ => on_string_core Sink_Finish
      | None =>
        _ ← sink_modify st_set_finished;
        t ← sink_get;
        match st_core t with None => mret (0%Z, None, None) | Some _ => on_string_core Sink_Finish end
      end
  end.
Definition String_UnknownKeys (s : StringSink) : list string * Z := (sorted_names (st_unknownKeys s), st_unknownRecords s).
End Strings.
