(* ===== verification/SinkOk.v ===== *)
(** * SinkOk: what the sinks of the SDK promise
      (sdk/go/arrow: typed_sink.go, sink.go, inferring_sink.go)

    Every record that was accepted is shipped once, in order, in batches of the
    size asked for; no sequence of calls panics or writes after a failure or a
    Close; and the types that are inferred hold the sample they come from. *)

From Stdlib Require Import SpecFloat.
From S2P Require Import Prelude GoValue GoTime ArrowSink InferSink.

(** ** A logic for operations that do not panic *)

Section Runs.
Context {X : Type}.
Definition runs {S A} (m : SinkOp X S A) (Q : A → S → list writer_call → Prop) (s : S) (calls : list writer_call) : Prop :=
  ∀ x, match m (s, MkSinkWorld x calls) with Some ((s', w), a) => Q a s' (sw_calls w) | None => False end.
Lemma runs_mono {S A} (m : SinkOp X S A) Q Q' s calls : runs m Q s calls → (∀ a s' calls', Q a s' calls' → Q' a s' calls') → runs m Q' s calls.
Proof. intros H HQ x. specialize (H x). destruct (m _) as [[[s' w] a]|]; auto. Qed.
Lemma runs_ret {S A} (a : A) (Q : A → S → list writer_call → Prop) s calls : Q a s calls → runs (mret a) Q s calls.
Proof. by intros H x. Qed.
Lemma runs_bind {S A B} (m : SinkOp X S A) (f : A → SinkOp X S B) Q s calls : runs m (λ a, runs (f a) Q) s calls → runs (m ≫= f) Q s calls.
Proof. intros H x. specialize (H x). unfold mbind, sink_bind. cbn. destruct (m _) as [[[s' [x' calls']] a]|]; [apply H|done]. Qed.
Lemma runs_get {S} (Q : S → S → list writer_call → Prop) s calls : Q s s calls → runs sink_get Q s calls.
Proof. by intros H x. Qed.
Lemma runs_modify {S} (f : S → S) (Q : () → S → list writer_call → Prop) s calls : Q () (f s) calls → runs (sink_modify f) Q s calls.
Proof. by intros H x. Qed.
Lemma runs_ask {S A} (f : X → X * A) note (Q : A → S → list writer_call → Prop) s calls : (∀ a, Q a s (calls ++ [note a])) → runs (ask_writer f note) Q s calls.
Proof. intros H x. unfold ask_writer. cbn. destruct (f x) as [x' a]. apply H. Qed.
End Runs.
Ltac runs_step := first [apply runs_ret | apply runs_get | apply runs_modify | apply runs_bind].

(** ** Rows and columns *)

Abbreviation arrow_row := (list arrow_cell).
Definition rows_of (n : nat) (columns : list (list arrow_cell)) : list arrow_row := (λ j, (λ c, nth j c CNull) <$> columns) <$> seq 0 n.
Definition batch_rows (b : record_batch) : list arrow_row := rows_of (rb_rows b) (rb_columns b).
Lemma append_cells_length columns cells : length (append_cells columns cells) = length columns.
Proof. revert cells. induction columns as [|c columns IH]; intros [|x cells]; cbn; auto. Qed.
Lemma append_cells_even n columns cells : length cells = length columns → Forall (λ c, length c = n) columns → Forall (λ c, length c = S n) (append_cells columns cells).
Proof.
  revert cells. induction columns as [|c columns IH]; intros [|x cells] Hl; cbn in *; intros H; try done. apply Forall_cons in H as [Hc H]. constructor; [rewrite length_app; cbn; lia|].
  apply IH; [lia|done].
Qed.
Lemma nth_append_cells n columns cells j : length cells = length columns → Forall (λ c, length c = n) columns → j < n →
  (λ c, nth j c CNull) <$> append_cells columns cells = (λ c, nth j c CNull) <$> columns.
Proof.
  intros Hl H Hj. revert cells Hl. induction H as [|c columns Hc H IH]; intros [|x cells] Hl; cbn in *; try done. rewrite app_nth1 by lia. f_equal. apply IH. lia.
Qed.
Lemma last_append_cells n columns cells : length cells = length columns → Forall (λ c, length c = n) columns → (λ c, nth n c CNull) <$> append_cells columns cells = cells.
Proof.
  intros Hl H. revert cells Hl. induction H as [|c columns Hc H IH]; intros [|x cells] Hl; cbn in *; try done. f_equal; [|apply IH; lia]. rewrite app_nth2 by lia. by rewrite Hc, Nat.sub_diag.
Qed.
Lemma rows_append n columns cells : length cells = length columns → Forall (λ c, length c = n) columns → rows_of (S n) (append_cells columns cells) = rows_of n columns ++ [cells].
Proof.
  intros Hl H. unfold rows_of. rewrite seq_S, fmap_app. cbn. f_equal; [|f_equal; by apply last_append_cells]. apply list_fmap_ext. intros i j Hj. apply lookup_seq in Hj as [-> Hj].
  by eapply nth_append_cells.
Qed.
Lemma even_columns n columns : Forall (λ c : list arrow_cell, length c = n) columns → columns ≠ [] → rb_rows (MkBatch [] columns) = n.
Proof. intros H Hne. destruct H; [done|]. done. Qed.

(** ** The core *)

Section Core.
Context {X : Type} `{SE : !SinkEnv X} `{AI : !ArrowIpc}.

Definition good_writes (bs : list record_batch) : list writer_call := match bs with [] => [] | _ => Opened None :: ((λ b, Wrote b None) <$> bs) end.
(** A sink that has taken the rows [R] and shipped the batches [bs]. *)
Record gathered (R : list arrow_row) (bs : list record_batch) (c : Sink) (calls : list writer_call) : Prop := MkGathered {
  ga_failed : sk_failed c = None;
  ga_finished : sk_finished c = false;
  ga_rows : sk_rows c = Z.of_nat (length R);
  ga_size : (sk_inBatch c ≤ length R)%nat ∧ (bs = [] → length R = sk_inBatch c) ∧ (bs ≠ [] → R ≠ []);
  ga_closed : sk_closeResult c = None;
  ga_writer : sk_writer c = negb (bool_decide (bs = []));
  ga_calls : calls = good_writes bs;
  ga_columns : ∃ columns, sk_builder c = Some columns ∧ length columns = length (sk_schema c) ∧ Forall (λ col, length col = sk_inBatch c) columns ∧
    (sk_schema c ≠ [] → concat (batch_rows <$> bs) ++ rows_of (sk_inBatch c) columns = R);
  ga_full : sk_schema c ≠ [] → Forall (λ b, rb_schema b = sk_schema c ∧ rb_rows b = sk_batchRows c) bs;
  ga_bare : sk_schema c = [] → ∃ k, bs = replicate k (MkBatch [] []) ∧ (k * sk_batchRows c + sk_inBatch c = length R)%nat;
}.
(** The calls of a sink that has failed: the last one may have failed. *)
Definition broken_calls (writer : bool) (calls : list writer_call) : Prop :=
  if writer then ∃ bs, calls = Opened None :: ((λ b, Wrote b None) <$> bs) ∨ ∃ b err, calls = Opened None :: ((λ b, Wrote b None) <$> bs) ++ [Wrote b (Some err)]
  else calls = [] ∨ ∃ err, calls = [Opened (Some err)].
Definition broken (e : sink_error) (c : Sink) (calls : list writer_call) : Prop := sk_failed c = Some e ∧ sk_finished c = false ∧ broken_calls (sk_writer c) calls.

Lemma gathered_new schema batchRows : gathered [] [] (NewSink schema batchRows) [].
Proof.
  split; cbn; try done; try lia; [|intros _; by exists 0]. exists (empty_columns schema). unfold empty_columns. rewrite length_fmap. split_and!; try done. by apply Forall_fmap, Forall_true.
Qed.
Lemma runs_fail e (Q : sink_error → Sink → list writer_call → Prop) c calls : sk_failed c = None →
  Q e (set_builder None (set_failed (Some e) c)) calls → runs (X := X) (sink_fail e) Q c calls.
Proof. intros Hf HQ. unfold sink_fail, releaseBuilder. do 3 runs_step. runs_step. rewrite Hf. by runs_step. Qed.
Lemma gathered_broken R bs c calls : gathered R bs c calls → broken_calls (sk_writer c) calls.
Proof. intros [_ _ _ _ _ -> -> _ _ _]. destruct bs as [|b bs]; cbn; [by left|]. exists (b :: bs). by left. Qed.
Definition with_batch (bs : list record_batch) (b : record_batch) : list record_batch := bs ++ [b].
Lemma good_writes_app bs b : good_writes (bs ++ [b]) = Opened None :: ((λ b, Wrote b None) <$> bs) ++ [Wrote b None].
Proof. unfold good_writes. destruct bs as [|b' bs]; [done|]. cbn. by rewrite fmap_app. Qed.
(** What a flush does: nothing on no rows; or one batch of all of them; or it fails. *)
Definition flushed (R : list arrow_row) (bs : list record_batch) (c : Sink) (o : option sink_error) (c' : Sink) (calls' : list writer_call) : Prop :=
  (sk_rows c', sk_closeResult c') = (sk_rows c, sk_closeResult c) ∧
  match o with
  | Some e => broken e c' calls' ∧ ∃ m, e = WriteError m
  | None => sk_schema c' = sk_schema c ∧ sk_batchRows c' = sk_batchRows c ∧ sk_inBatch c' = 0%nat ∧
      if Nat.eqb (sk_inBatch c) 0 then c' = c ∧ calls' = good_writes bs
      else ∃ b, sk_finished c' = false ∧ sk_failed c' = None ∧ sk_writer c' = true ∧ sk_builder c' = Some (empty_columns (sk_schema c)) ∧ calls' = good_writes (bs ++ [b]) ∧ rb_schema b = sk_schema c ∧
           (sk_schema c ≠ [] → rb_rows b = sk_inBatch c ∧ concat (batch_rows <$> (bs ++ [b])) = R) ∧ (sk_schema c = [] → b = MkBatch [] [])
  end.
Lemma runs_ship bs c rec calls :
  sk_failed c = None → sk_finished c = false → sk_writer c = true → calls = Opened None :: ((λ b, Wrote b None) <$> bs) →
  runs (X := X) (ship rec) (λ o c' calls', (sk_rows c', sk_closeResult c') = (sk_rows c, sk_closeResult c) ∧ match o with
    | Some e => broken e c' calls' ∧ ∃ m, e = WriteError m
    | None => sk_schema c' = sk_schema c ∧ sk_batchRows c' = sk_batchRows c ∧ sk_inBatch c' = 0%nat ∧ sk_finished c' = false ∧ sk_failed c' = None ∧ sk_writer c' = true ∧
        sk_builder c' = sk_builder c ∧ calls' = good_writes (bs ++ [rec])
    end) c calls.
Proof.
  intros Hf Hfin Hw ->. assert (broken_calls (sk_writer c) (Opened None :: ((λ b, Wrote b None) <$> bs))) as Hb by (rewrite Hw; exists bs; by left).
  unfold ship. destruct (ipc_write rec) as [err|].
  - runs_step. apply runs_fail; [done|]. runs_step. split; [done|]. split; [by split|by eexists].
  - destruct (ipc_close rec) as [payload|err].
    2:{ runs_step. apply runs_fail; [done|]. runs_step. split; [done|]. split; [by split|by eexists]. }
    runs_step. apply runs_ask. intros [err|].
    + runs_step. apply runs_fail; [done|]. runs_step. split; [done|]. split; [|by eexists]. split_and!; [done..|]. cbn. rewrite Hw. exists bs. right. by exists rec, err.
    + do 3 runs_step. by rewrite good_writes_app.
Qed.
Lemma gathered_flush R bs c calls : gathered R bs c calls → runs (X := X) flush (flushed R bs c) c calls.
Proof.
  intros Hg. pose proof (gathered_broken _ _ _ _ Hg) as Hbr. destruct Hg as [Hf Hfin Hr Hs Hcl Hw Hc (cols & Hb & Hl & He & Hrows) Hfull Hbare].
  unfold flush. do 2 runs_step. destruct (Nat.eqb_spec (sk_inBatch c) 0) as [H0|H0].
  { runs_step. unfold flushed. rewrite H0. split_and!; done. }
  assert (∀ c1 calls1, c1 = (if sk_writer c then c else set_writer c) → calls1 = Opened None :: ((λ b, Wrote b None) <$> bs) → runs (X := X) (rec ← NewRecord; ship rec) (flushed R bs c) c1 calls1) as Hgo.
  { intros c1 calls1 -> ->. unfold NewRecord. do 3 runs_step.
    assert (sk_builder (if sk_writer c then c else set_writer c) = Some cols ∧ sk_schema (if sk_writer c then c else set_writer c) = sk_schema c) as [-> ->] by (by destruct (sk_writer c)).
    assert (forallb (λ c0, length c0 =? rb_rows (MkBatch (sk_schema c) cols)) cols = true) as ->.
    { apply forallb_forall. intros col Hin. apply Nat.eqb_eq. rewrite Forall_forall in He. apply list_elem_of_In in Hin. rewrite He by done.
      unfold rb_rows. cbn. destruct cols as [|c0 cols0]; [by apply elem_of_nil in Hin|]. symmetry. apply He. by left. }
    do 3 runs_step. eapply runs_mono; [apply (runs_ship bs); by destruct (sk_writer c) eqn:Ew|]. intros o c' calls' [Hr' Ho]. split; [rewrite Hr'; by destruct (sk_writer c)|].
    destruct o as [e|]; [done|]. destruct Ho as (H1 & H2 & H3 & H4 & H5 & H6 & H7 & ->). split_and!; [rewrite H1; by destruct (sk_writer c)|rewrite H2; by destruct (sk_writer c)|done|].
    unfold flushed. rewrite (proj2 (Nat.eqb_neq _ _) H0). exists (MkBatch (sk_schema c) cols). split_and!; try done; [|intros Hnil; rewrite Hnil in *; by destruct cols].
    intros Hne. pose proof (Hrows Hne) as HR. assert (rb_rows (MkBatch (sk_schema c) cols) = sk_inBatch c) as Hn.
    { apply even_columns; [done|]. intros ->. by destruct (sk_schema c). }
    split; [done|]. rewrite fmap_app, concat_app. cbn. rewrite app_nil_r. unfold batch_rows at 2. cbn. by rewrite Hn. }
  unfold ensure_writer. do 3 runs_step. destruct (sk_writer c) eqn:Ew.
  - runs_step. apply Hgo; [done|]. rewrite Hc. destruct bs; [by rewrite bool_decide_true in Hw by done|done].
  - runs_step. apply runs_ask. assert (bs = []) as -> by (destruct bs; [done|by rewrite bool_decide_false in Hw by done]). rewrite Hc. cbn. intros [err|].
    + runs_step. apply runs_fail; [done|]. do 2 runs_step. split; [done|]. split; [|by eexists]. split_and!; [done..|]. cbn. rewrite Ew. right. by exists err.
    + do 3 runs_step. by apply Hgo.
Qed.
Lemma runs_append_row cells (Q : () → Sink → list writer_call → Prop) c calls columns : sk_builder c = Some columns →
  Q () (set_builder (Some (append_cells columns cells)) c) calls → runs (X := X) (append_row cells) Q c calls.
Proof. intros Hb HQ. unfold append_row. do 2 runs_step. rewrite Hb. by runs_step. Qed.
(** A row, and what it leads to. *)
Lemma runs_row R bs c calls cells : gathered R bs c calls → (sk_inBatch c < sk_batchRows c)%nat → length cells = length (sk_schema c) →
  runs (X := X) (_ ← append_row cells; RowDone) (λ o c' calls', match o with
    | Some e => broken e c' calls' ∧ ∃ m, e = WriteError m
    | None => ∃ bs', gathered (R ++ [cells]) bs' c' calls' ∧ (sk_inBatch c' < sk_batchRows c')%nat ∧ sk_schema c' = sk_schema c ∧ sk_batchRows c' = sk_batchRows c
    end) c calls.
Proof.
  intros [Hf Hfin Hr Hs Hcl Hw Hc (cols & Hb & Hl & He & Hrows) Hfull Hbare] Hin Hlen. runs_step. eapply runs_append_row; [done|].
  unfold RowDone. do 2 runs_step. cbn [sk_failed set_builder sk_finished]. rewrite Hf, Hfin. do 2 runs_step.
  set (c1 := set_counts _ _ _). assert (gathered (R ++ [cells]) bs c1 calls) as Hg.
  { split; cbn; try done; [rewrite length_app; cbn; lia|split_and!; [rewrite length_app; cbn; lia|intros E; rewrite length_app, (proj1 (proj2 Hs) E); cbn; lia|by destruct R]| |intros Hnil; destruct (Hbare Hnil) as (k & -> & Hk); exists k; rewrite length_app; cbn; split; [done|lia]]. exists (append_cells cols cells).
    split_and!; [done|by rewrite append_cells_length|apply append_cells_even; [lia|done]|]. intros Hne. change (concat (batch_rows <$> bs) ++ rows_of (S (sk_inBatch c)) (append_cells cols cells) = R ++ [cells]). rewrite rows_append; [|lia|done]. by rewrite app_assoc, (Hrows Hne). }
  cbn [sk_inBatch sk_batchRows set_builder]. destruct (Nat.leb_spec (sk_batchRows c) (S (sk_inBatch c))) as [Hle|Hlt].
  - eapply runs_mono; [by apply gathered_flush|]. intros o c' calls' [Hr' Ho]. injection Hr' as Hr' Hcl'. destruct o as [e|]; [done|]. destruct Ho as (H1 & H2 & H3 & Ho). cbn in Ho.
    destruct Ho as (b & H4 & H5 & H6 & H7 & -> & H8 & H9 & H10). exists (bs ++ [b]). rewrite H3, H2. split_and!; [|cbn; lia|done|done]. split; try done; [by rewrite Hr'; apply Hg|rewrite H3; split_and!; [lia|by destruct bs|by destruct R]|by rewrite Hcl'; apply Hg|by rewrite H6, bool_decide_false by (by destruct bs)|..].
    + exists (empty_columns (sk_schema c)). rewrite H1, H3. split_and!; [done|by unfold empty_columns; rewrite length_fmap|by apply Forall_fmap, Forall_true|].
      intros Hne. destruct (H9 Hne) as [_ HR]. rewrite HR. by rewrite app_nil_r.
    + rewrite H1, H2. intros Hne. apply Forall_app. split; [by apply Hfull|]. apply Forall_singleton. destruct (H9 Hne) as [-> _]. cbn in *. split; [done|lia].
    + rewrite H1, H2, H3. intros Hnil. destruct (Hbare Hnil) as (k & -> & Hk). exists (S k). rewrite (H10 Hnil), length_app. split; [by rewrite replicate_S_end|cbn in *; lia].
  - runs_step. exists bs. split_and!; [done|cbn; lia|done..].
Qed.
(** The batches of a finished sink: all full but the last, which has a row. *)
Definition batches_sized (n : nat) (bs : list record_batch) : Prop :=
  ∃ front last, bs = front ++ [last] ∧ Forall (λ b, rb_rows b = n) front ∧ (0 < rb_rows last ≤ n)%nat.
(** A sink without columns ships as many batches as its rows would fill, and no row. *)
Definition batches_bare (n : nat) (R : list arrow_row) (bs : list record_batch) : Prop :=
  ∃ k, bs = replicate (S k) (MkBatch [] []) ∧ (k * n < length R ≤ S k * n)%nat.
Definition shipped_all (schema : list arrow_field) (batchRows : nat) (R : list arrow_row) (cr : option CloseResult) (calls : list writer_call) : Prop :=
  if bool_decide (R = []) then cr = None ∧ calls = []
  else ∃ bs r, cr = Some r ∧ calls = good_writes bs ++ [Closed (Ok r)] ∧ bs ≠ [] ∧
    match schema with
    | [] => batches_bare batchRows R bs
    | _ => Forall (λ b, rb_schema b = schema) bs ∧ concat (batch_rows <$> bs) = R ∧ batches_sized batchRows bs
    end.
Definition finish_spec (R : list arrow_row) (c : Sink) (r : finish_result) (c' : Sink) (calls' : list writer_call) : Prop :=
  match r with
  | (n, cr, None) => n = Z.of_nat (length R) ∧ sk_failed c' = None ∧ sk_finished c' = true ∧ sk_rows c' = n ∧ sk_closeResult c' = cr ∧ shipped_all (sk_schema c) (sk_batchRows c) R cr calls'
  | (n, cr, Some e) => cr = None ∧ sk_failed c' = Some e ∧ (∃ m, e = WriteError m) ∧
      (broken e c' calls' ∨ (sk_finished c' = true ∧ ∃ bs err, bs ≠ [] ∧ calls' = good_writes bs ++ [Closed (Err err)]))
  end.
Lemma gathered_finish R bs c calls : gathered R bs c calls → (sk_inBatch c < sk_batchRows c)%nat → runs (X := X) Sink_Finish (finish_spec R c) c calls.
Proof.
  intros Hg Hin. pose proof (gathered_flush _ _ _ _ Hg) as Hfl. destruct Hg as [Hf Hfin Hr Hs Hcl Hw Hc (cols & Hb & Hl & He & Hrows) Hfull Hbare].
  unfold Sink_Finish. do 2 runs_step. rewrite Hf, Hfin. runs_step. eapply runs_mono; [exact Hfl|]. intros o c1 calls1 [Hr1 Ho]. injection Hr1 as Hr1 Hcl1. destruct o as [e|].
  - destruct Ho as [Hbr Hm]. do 2 runs_step. runs_step. cbn. destruct Hbr as (B1 & B2 & B3). split_and!; [done..|]. left. by split_and!.
  - destruct Ho as (H1 & H2 & H3 & Ho).
    assert (∃ bs', sk_failed c1 = None ∧ sk_writer c1 = negb (bool_decide (bs' = [])) ∧ calls1 = good_writes bs' ∧ (bs' = [] ↔ R = []) ∧
      (sk_schema c ≠ [] → Forall (λ b, rb_schema b = sk_schema c) bs' ∧ concat (batch_rows <$> bs') = R ∧ (bs' ≠ [] → batches_sized (sk_batchRows c) bs')) ∧
      (sk_schema c = [] → R ≠ [] → batches_bare (sk_batchRows c) R bs')) as (bs' & F1 & F2 & -> & F4 & F5 & F6).
    { destruct (Nat.eqb_spec (sk_inBatch c) 0) as [H0|H0].
      - destruct Ho as [-> ->]. exists bs. rewrite H0 in *. split_and!; try done.
        + destruct Hs as (_ & Hs1 & Hs2). split; [intros E; specialize (Hs1 E); by destruct R|]. intros ->. destruct bs; [done|]. by destruct Hs2.
        + intros Hne. specialize (Hrows Hne). specialize (Hfull Hne). cbn in Hrows. rewrite app_nil_r in Hrows. split_and!; [eapply Forall_impl; [exact Hfull|]; by intros b [? _]|done|].
          intros Hnb. destruct (exists_last Hnb) as (front & last & ->). exists front, last. apply Forall_app in Hfull as [Hfr Hla]. apply Forall_singleton in Hla as [_ Hla].
          split_and!; [done|eapply Forall_impl; [exact Hfr|]; by intros b [_ ?]|lia|lia].
        + intros Hnil HR. destruct (Hbare Hnil) as (k & -> & Hk). destruct R as [|row R]; [done|]. destruct k as [|k]; [cbn in Hk; lia|]. exists k. split; [done|lia].
      - destruct Ho as (b & G1 & G2 & G3 & G4 & -> & G5 & G6 & G7'). exists (bs ++ [b]). split_and!; try done; [by rewrite G3, bool_decide_false by (by destruct bs)|..].
        + split; [by destruct bs|]. intros ->. cbn in Hs. lia.
        + intros Hne. specialize (Hfull Hne). destruct (G6 Hne) as [G7 G8]. split_and!; [apply Forall_app; split; [eapply Forall_impl; [exact Hfull|]; by intros ? [? _]|by apply Forall_singleton]|done|].
          intros _. exists bs, b. split_and!; [done|eapply Forall_impl; [exact Hfull|]; by intros ? [_ ?]|lia|lia].
        + intros Hnil _. destruct (Hbare Hnil) as (k & -> & Hk). exists k. rewrite (G7' Hnil), (replicate_S_end k). split; [done|lia]. }
    assert (sk_rows c = Z.of_nat (length R)) as Hr' by done. do 4 runs_step. cbn [sk_writer set_finished]. rewrite F2. unfold finish_spec, shipped_all. case_bool_decide as Hbs; cbn [negb].
    + apply F4 in Hbs as ->. assert (bs' = []) as -> by (by apply F4). do 3 runs_step. cbn. rewrite Hr1, Hr', Hcl1, Hcl. by split_and!.
    + assert (R ≠ []) as HR by (intros E; by apply Hbs, F4). runs_step. apply runs_ask. intros [cr|err].
      * do 5 runs_step. cbn. rewrite Hr1. split_and!; try done. rewrite bool_decide_false by done. exists bs', cr. split_and!; try done. destruct (sk_schema c) as [|f l]; [by apply F6|]. destruct F5 as (? & ? & ?); [done|]. auto.
      * runs_step. apply runs_fail; [done|]. do 3 runs_step. split_and!; [done..|by eexists|]. right. split; [done|]. by exists bs', err.
Qed.
(** A sink that has failed says so again, and closes its writer at most once. *)
Lemma broken_finish e c calls : broken e c calls → runs (X := X) Sink_Finish (λ r c' calls', r = (sk_rows c, None, Some e) ∧ sk_failed c' = Some e ∧
  if sk_writer c then sk_finished c' = true ∧ ∃ r, calls' = calls ++ [Closed r] else c' = c ∧ calls' = calls) c calls.
Proof.
  intros (Hf & Hfin & _). unfold Sink_Finish, closeAfterFailure. do 2 runs_step. rewrite Hf. do 3 runs_step. rewrite Hfin. destruct (sk_writer c) eqn:Ew; cbn.
  - do 3 runs_step. apply runs_ask. intros r. do 2 runs_step. split_and!; [done..|by exists r].
  - by do 2 runs_step.
Qed.
End Core.

(** ** The options *)

Lemma settings_batchRows opts : (0 < ss_batchRows (settings_of opts))%nat.
Proof.
  unfold settings_of. assert (0 < ss_batchRows no_settings)%nat as H by (apply Nat.ltb_lt; reflexivity). revert H. generalize no_settings. induction opts as [|o opts IH]; intros s H; [done|].
  apply IH. destruct o as [n| |]; cbn; try done. unfold WithBatchRows. destruct (Z.ltb_spec 0 n); lia.
Qed.

(** ** The lattice of kinds *)

#[export] Instance joinKind_comm : Comm (=) joinKind.
Proof. by intros [] []. Qed.
#[export] Instance joinKind_assoc : Assoc (=) joinKind.
Proof. by intros [] [] []. Qed.
#[export] Instance joinKind_idemp : IdemP (=) joinKind.
Proof. by intros []. Qed.
#[export] Instance joinKind_unset : LeftId (=) kindUnset joinKind.
Proof. by intros []. Qed.
#[export] Instance kind_le : SqSubsetEq columnKind := λ a b, joinKind a b = b.
#[export] Instance kind_order : PreOrder (⊑@{columnKind}).
Proof. split; [by intros []|by intros [] [] []]. Qed.
Lemma join_l a b : a ⊑ joinKind a b.
Proof. by destruct a, b. Qed.
Lemma join_r a b : b ⊑ joinKind a b.
Proof. by destruct a, b. Qed.
Lemma join_least a b k : a ⊑ k → b ⊑ k → joinKind a b ⊑ k.
Proof. by destruct a, b, k. Qed.

Section Inference.
Context `{UT : !UnicodeTables} `{SL : !SinkLib}.

Definition kind_in (p : columnPlan) (batch : list json_record) (i : nat) : columnKind := foldl (λ k rec, joinKind k (classifyValue (cp_extract p rec i))) kindUnset batch.
Lemma project_length p rec : length (project p rec) = length (cp_names p).
Proof. unfold project. by rewrite length_fmap, length_seq. Qed.
Lemma project_lookup p rec i : project p rec !! i = if (i <? length (cp_names p))%nat then Some (cp_extract p rec i) else None.
Proof.
  unfold project. rewrite list_lookup_fmap. destruct (Nat.ltb_spec i (length (cp_names p))); [by rewrite lookup_seq_lt|by rewrite lookup_seq_ge].
Qed.
Lemma fold_columns p batch (f : nat → columnKind) :
  foldl (λ ks rec, zip_with (λ k v, joinKind k (classifyValue v)) ks (project p rec)) (f <$> seq 0 (length (cp_names p))) batch =
  (λ i, foldl (λ k rec, joinKind k (classifyValue (cp_extract p rec i))) (f i) batch) <$> seq 0 (length (cp_names p)).
Proof.
  revert f. induction batch as [|rec batch IH]; intros f; cbn [foldl]; [by apply list_fmap_ext|].
  rewrite <- (IH (λ i, joinKind (f i) (classifyValue (cp_extract p rec i)))). f_equal. unfold project. rewrite zip_with_fmap_l, zip_with_fmap_r.
  clear IH. generalize 0. induction (length (cp_names p)) as [|n IHn]; intros m; [done|]. cbn. by rewrite IHn.
Qed.
Lemma infer_kinds p batch : inferTypesFromBatch p batch = (λ i, arrowTypeForKind (kind_in p batch i)) <$> seq 0 (length (cp_names p)).
Proof.
  unfold inferTypesFromBatch. rewrite (list_fmap_compose (kind_in p batch) arrowTypeForKind). f_equal.
  assert (replicate (length (cp_names p)) kindUnset = (λ _, kindUnset) <$> seq 0 (length (cp_names p))) as ->; [|apply fold_columns].
  generalize 0. induction (length (cp_names p)) as [|n IH]; intros m; [done|]. cbn. by rewrite (IH (S m)).
Qed.
Lemma infer_length p batch : length (inferTypesFromBatch p batch) = length (cp_names p).
Proof. by rewrite infer_kinds, length_fmap, length_seq. Qed.
Lemma foldl_join (f : json_record → columnKind) batch k : k ⊑ foldl (λ k rec, joinKind k (f rec)) k batch ∧ (∀ rec, rec ∈ batch → f rec ⊑ foldl (λ k rec, joinKind k (f rec)) k batch) ∧
  ∀ u, k ⊑ u → (∀ rec, rec ∈ batch → f rec ⊑ u) → foldl (λ k rec, joinKind k (f rec)) k batch ⊑ u.
Proof.
  revert k. induction batch as [|r batch IH]; intros k; cbn.
  - split_and!; [done|intros rec Hr; by apply elem_of_nil in Hr|done].
  - destruct (IH (joinKind k (f r))) as (H1 & H2 & H3). split_and!.
    + etrans; [apply join_l|done].
    + intros rec [->|Hr]%elem_of_cons; [etrans; [apply join_r|done]|by apply H2].
    + intros u Hk Hu. apply H3; [apply join_least; [done|apply Hu; by left]|]. intros rec Hr. apply Hu. by right.
Qed.
Lemma kind_antisym (a b : columnKind) : a ⊑ b → b ⊑ a → a = b.
Proof. by destruct a, b. Qed.
Context `{LW : !SinkLaws}.
(** A value whose kind is below that of a column fits the type of the column. *)
Lemma kind_fits v k : classifyValue v ⊑ k → valueFitsArrowType v (arrowTypeForKind k) = true.
Proof.
  destruct v as [|t|b|s|f|m|l]; cbn; try (by destruct k).
  - destruct (ParseInt 64 t) as [z|] eqn:Ez.
    + assert (is_Some (ParseFloat t)) as Hf by (apply (ParseFloat_int t z); unfold ParseInt in Ez; destruct (Atoi t) as [z'|]; cbn in Ez; [destruct (in_bits 64 z'); congruence|done]).
      destruct k; cbn; rewrite ?bool_decide_true; try done; by eexists.
    + destruct (ParseFloat t) eqn:Ef; destruct k; cbn; rewrite ?bool_decide_true; try done; by eexists.
  - destruct (integral f) eqn:Ei; by destruct k.
Qed.
Definition fits_all (fits : jvalue → arrow_type → bool) (p : columnPlan) (types : list arrow_type) (rec : json_record) : Prop :=
  first_misfit fits (columns_of (cp_names p) types (project p rec)) = None.
Lemma first_misfit_None fits l : first_misfit fits l = None ↔ Forall (λ x, fits x.2 x.1.2 = true) l.
Proof.
  induction l as [|[[n t] v] l IH]; cbn; [done|]. rewrite Forall_cons. cbn. destruct (fits v t); [rewrite IH; naive_solver|]. split; [done|]. by intros [? _].
Qed.
Lemma sample_fits p batch rec : rec ∈ batch → fits_all valueFitsArrowType p (inferTypesFromBatch p batch) rec.
Proof.
  intros Hr. apply first_misfit_None. apply Forall_lookup. intros i [[n t] v] Hi. cbn. unfold columns_of in Hi. rewrite lookup_zip_with_Some in Hi.
  destruct Hi as ([n' t'] & v' & [= -> -> ->] & Hi & Hv). rewrite lookup_zip_with_Some in Hi. destruct Hi as (n2 & t2 & [= -> ->] & _ & Ht). rewrite project_lookup in Hv.
  destruct (Nat.ltb_spec i (length (cp_names p))); [|done]. injection Hv as <-. rewrite infer_kinds, list_lookup_fmap, lookup_seq_lt in Ht by done. injection Ht as <-.
  apply kind_fits. by apply (foldl_join (λ rec, classifyValue (cp_extract p rec i))).
Qed.
(** The types that a column may be inferred to have, and which of them holds less. *)
Definition inferrable : list arrow_type := [TInt64; TFloat64; TBool; TString].
Definition type_le (a b : arrow_type) : Prop := a = b ∨ b = TString ∨ (a = TInt64 ∧ b = TFloat64).
Definition kind_of (t : arrow_type) : columnKind :=
  match t with TInt64 => kindInt | TFloat64 => kindFloat | TBool => kindBool | TInt32 | TString => kindString end.
Lemma classify_fits v t : t ∈ inferrable → classifyValue v ⊑ kind_of t ↔ valueFitsArrowType v t = true.
Proof.
  intros Ht. unfold inferrable in Ht. rewrite !elem_of_cons, elem_of_nil in Ht.
  assert (t ≠ TInt32) as Hno by naive_solver. clear Ht. split.
  - intros H. pose proof (kind_fits v (kind_of t) H) as Hf. by destruct t.
  - destruct v as [|n|b|s|f|m|l]; try (by destruct t).
    + destruct t; try done; cbn; intros H.
      * apply bool_decide_eq_true in H. by destruct (ParseInt 64 n) as [z|]; [|destruct H].
      * apply bool_decide_eq_true in H. destruct (ParseInt 64 n) as [z|]; [done|]. by destruct (ParseFloat n) as [f|]; [|destruct H].
      * by destruct (ParseInt 64 n), (ParseFloat n).
    + destruct t; try done; cbn; try (intros ->; done); by destruct (integral f).
Qed.
Lemma kind_types k t : t ∈ inferrable → k ≠ kindUnset → k ⊑ kind_of t ↔ type_le (arrowTypeForKind k) t.
Proof. unfold inferrable, type_le. rewrite !elem_of_cons, elem_of_nil. intros Ht Hk. destruct k, t; naive_solver. Qed.
Lemma kind_in_least p b i k : (∀ rec, rec ∈ b → classifyValue (cp_extract p rec i) ⊑ k) ↔ kind_in p b i ⊑ k.
Proof.
  destruct (foldl_join (λ rec, classifyValue (cp_extract p rec i)) b kindUnset) as (H1 & H2 & H3). split.
  - intros H. apply H3; [by destruct k|done].
  - intros H rec Hr. etrans; [by apply H2|done].
Qed.
Lemma kind_in_unset p b i : kind_in p b i = kindUnset ↔ ∀ rec, rec ∈ b → cp_extract p rec i = JNull.
Proof.
  assert (∀ v, classifyValue v ⊑ kindUnset ↔ v = JNull) as Hv.
  { intros v. split; [|by intros ->]. destruct v as [|n|b'|s|f|m|l]; cbn; try done; [destruct (ParseInt 64 n); [done|by destruct (ParseFloat n)]|by destruct (integral f)]. }
  assert (kind_in p b i = kindUnset ↔ kind_in p b i ⊑ kindUnset) as -> by by destruct (kind_in p b i). rewrite <- kind_in_least. by setoid_rewrite Hv.
Qed.
(** C31: The types inferred from a sample are the least that hold it.  There is one
    for each column, an int64, a float64, a bool or a string.  A column whose
    values are all null or missing is a string; of any other, the types that hold
    all its values are the inferred one and those above it, where an int64 is
    below a float64 and everything is below a string.  Every record of the sample
    fits the inferred types, so that replaying it is never refused; and neither the
    names nor the types depend on the order of the records. *)
Theorem inferred_types_least (batch : list json_record) (p : columnPlan) :
  length (inferTypesFromBatch p batch) = length (cp_names p) ∧
  (∀ i, (i < length (cp_names p))%nat → ∃ t, inferTypesFromBatch p batch !! i = Some t ∧ t ∈ inferrable ∧
    ((∀ rec, rec ∈ batch → cp_extract p rec i = JNull) → t = TString) ∧
    (¬ (∀ rec, rec ∈ batch → cp_extract p rec i = JNull) → ∀ t', t' ∈ inferrable →
      (∀ rec, rec ∈ batch → valueFitsArrowType (cp_extract p rec i) t' = true) ↔ type_le t t')) ∧
  (∀ rec, rec ∈ batch → fits_all valueFitsArrowType p (inferTypesFromBatch p batch) rec) ∧
  (∀ batch', batch' ≡ₚ batch → cp_names (planFromBatch batch') = cp_names (planFromBatch batch) ∧ inferTypesFromBatch p batch' = inferTypesFromBatch p batch).
Proof.
  split_and!; [apply infer_length| |intros rec; apply sample_fits|].
  - intros i Hi. exists (arrowTypeForKind (kind_in p batch i)). split_and!.
    + by rewrite infer_kinds, list_lookup_fmap, lookup_seq_lt.
    + unfold inferrable. rewrite !elem_of_cons, elem_of_nil. destruct (kind_in p batch i); cbn; auto.
    + intros ->%kind_in_unset. done.
    + intros Hn t' Ht'. rewrite <- (kind_types _ _ Ht') by (by rewrite kind_in_unset). rewrite <- kind_in_least.
      split; intros H rec Hr; [by apply classify_fits, H|by apply classify_fits; [|apply H]].
  - intros batch' Hp. split.
    + cbn. unfold sorted_names. f_equal. f_equal. apply leibniz_equiv. intros k. rewrite !elem_of_list_to_set, !list_elem_of_bind. by setoid_rewrite Hp.
    + rewrite !infer_kinds. apply list_fmap_ext. intros j i _. f_equal. apply kind_antisym.
      * apply kind_in_least. intros rec Hr. apply (proj2 (kind_in_least p batch i _)); [done|by rewrite <- Hp].
      * apply kind_in_least. intros rec Hr. apply (proj2 (kind_in_least p batch' i _)); [done|by rewrite Hp].
Qed.
End Inference.
