(* ===== verification/InferSinkOk.v ===== *)
(** * InferSinkOk: records in, batches out
      (sdk/go/arrow/inferring_sink.go)

    An [InferringSink] from its constructor to Finish, for any records and any
    answers of the writer: what was accepted is what was shipped. *)

From Stdlib Require Import SpecFloat.
From S2P Require Import Prelude GoValue GoTime ArrowSink InferSink SinkOk.

Section Whole.
Context `{UT : !UnicodeTables} `{SL : !SinkLib} {X : Type} `{SE : !SinkEnv X} `{AI : !ArrowIpc}.

(** ** The columns of a sink, and the rows of its records *)

(** Declared columns; or given names, or else those of the sample, with the types of the sample. *)
Definition chosen (settings : sinkSettings) (sample : list json_record) (p : columnPlan) (types : list arrow_type) : Prop :=
  match ss_typedColumns settings with
  | Some cols => planFromTypedColumns cols = Ok (p, types)
  | None => p = default (planFromBatch sample) (ss_columns settings) ∧ types = inferTypesFromBatch p sample
  end.
Definition fits_of (settings : sinkSettings) : jvalue → arrow_type → bool :=
  match ss_typedColumns settings with Some _ => declaredValueFits | None => valueFitsArrowType end.
Definition row_of (fits : jvalue → arrow_type → bool) (p : columnPlan) (types : list arrow_type) (rec : json_record) (row : arrow_row) : Prop :=
  fits_all fits p types rec ∧ mapM (λ tv, cell_of tv.1 tv.2) (zip types (project p rec)) = Some row.
(** A value that fits has a cell. *)
Definition fits_sound (fits : jvalue → arrow_type → bool) (types : list arrow_type) : Prop :=
  ∀ t v, t ∈ types → fits v t = true → is_Some (cell_of t v).
Lemma declared_sound types : fits_sound declaredValueFits types.
Proof. intros t v _. destruct t, v; cbn; intros H; try done; try (apply fmap_is_Some; by apply bool_decide_eq_true in H); by eexists. Qed.
Lemma inferred_sound p sample : fits_sound valueFitsArrowType (inferTypesFromBatch p sample).
Proof.
  intros t v Ht Hf. rewrite infer_kinds in Ht. apply list_elem_of_fmap in Ht as (i & -> & _).
  destruct (kind_in p sample i), v; cbn in *; try done; try (apply fmap_is_Some; by apply bool_decide_eq_true in Hf); by eexists.
Qed.
Lemma fitting_row fits p types rec : fits_sound fits types → length types = length (cp_names p) → fits_all fits p types rec →
  ∃ row, row_of fits p types rec row ∧ length row = length (cp_names p).
Proof.
  intros Hs Hl Hf. assert (is_Some (mapM (λ tv, cell_of tv.1 tv.2) (zip types (project p rec)))) as [row Hrow].
  { apply mapM_is_Some, Forall_lookup. intros i [t v] Hi. apply lookup_zip_with_Some in Hi as (t' & v' & [= <- <-] & Ht & Hv). cbn. apply Hs; [by eapply list_elem_of_lookup_2|].
    apply first_misfit_None in Hf. assert (is_Some (cp_names p !! i)) as [n Hn] by (apply lookup_lt_is_Some; rewrite <- Hl; by eapply lookup_lt_Some).
    eapply (Forall_lookup_1 _ _ i (n, t, v)) in Hf; [done|]. unfold columns_of. rewrite lookup_zip_with_Some. exists (n, t), v. split_and!; [done| |done]. rewrite lookup_zip_with_Some. by exists n, t. }
  exists row. split; [done|]. pose proof (length_mapM _ _ _ Hrow) as E. rewrite length_zip_with, project_length in E. cbn. lia.
Qed.

(** ** The states of a sink *)

(** The names whose absence from the plan is noted: those of the sample. *)
Definition known_of (settings : sinkSettings) (p : columnPlan) : option (gset string) :=
  match ss_typedColumns settings, ss_columns settings with None, None => Some (list_to_set (cp_names p)) | _, _ => None end.
Definition track_all (known : gset string) (recs : list json_record) : gset string * Z := foldl (λ u rec, track known rec u.1 u.2) (∅, 0%Z) recs.
Definition tracked (known : option (gset string)) (recs : list json_record) (s : InferringSink) : Prop :=
  is_inferredNames s = known ∧ (is_unknownKeys s, is_unknownRecords s) = match known with Some k => track_all k recs | None => (∅, 0%Z) end.
(** Still gathering its sample. *)
Record sampling (settings : sinkSettings) (recs : list json_record) (s : InferringSink) (calls : list writer_call) : Prop := MkSampling {
  sa_untyped : ss_typedColumns settings = None;
  sa_batchRows : is_batchRows s = ss_batchRows settings;
  sa_core : is_core s = None;
  sa_plan : is_plan s = ss_columns settings;
  sa_types : is_colTypes s = None;
  sa_pending : is_pending s = recs;
  sa_fits : is_fits s = valueFitsArrowType;
  sa_open : is_finished s = false;
  sa_calls : calls = [];
  sa_tracked : tracked None [] s;
}.
(** Shipping, with its columns chosen. *)
Definition running (fits : jvalue → arrow_type → bool) (known : option (gset string)) (n : nat) (p : columnPlan) (types : list arrow_type) (recs : list json_record) (s : InferringSink) (calls : list writer_call) : Prop :=
  (is_plan s = Some p ∧ is_colTypes s = Some types ∧ is_fits s = fits ∧ is_finished s = false ∧ fits_sound fits types ∧ length types = length (cp_names p) ∧ tracked known recs s) ∧
  ∃ c R bs, is_core s = Some c ∧ gathered R bs c calls ∧ (sk_inBatch c < sk_batchRows c)%nat ∧ sk_batchRows c = n ∧ sk_schema c = schema_of (cp_names p) types ∧ Forall2 (row_of fits p types) recs R.
(** The calls of a sink that has failed: at most one open, the writes that went
    well, at most one that did not, at most one Close. *)
Definition orderly (calls : list writer_call) : Prop :=
  ∃ writer calls0, broken_calls writer calls0 ∧ (calls = calls0 ∨ writer = true ∧ ∃ r, calls = calls0 ++ [Closed r]).
Definition spoilt (e : sink_error) (s : InferringSink) (calls : list writer_call) : Prop := ∃ c, is_core s = Some c ∧ broken e c calls.
(** The reason for a refusal that is not the writer's. *)
Definition misfit (fits : jvalue → arrow_type → bool) (p : columnPlan) (types : list arrow_type) (rec : json_record) (e : sink_error) : Prop :=
  ∃ name t v, first_misfit fits (columns_of (cp_names p) types (project p rec)) = Some (name, t, v) ∧ e = newTypeViolationError name t v.

(** ** The steps *)

Lemma runs_on_core {A} (m : SinkOp X Sink A) (Q : A → InferringSink → list writer_call → Prop) s calls c : is_core s = Some c →
  runs m (λ a c' calls', Q a (is_set_core (Some c') s) calls') c calls → runs (on_core m) Q s calls.
Proof. intros Hc H x. specialize (H x). unfold on_core. cbn. rewrite Hc. by destruct (m _) as [[[c' w] a]|]. Qed.
Lemma runs_row_done R bs c calls columns cells : gathered R bs c calls → sk_builder c = Some columns → (sk_inBatch c < sk_batchRows c)%nat → length cells = length (sk_schema c) →
  runs (X := X) RowDone (λ o c' calls', match o with
    | Some e => broken e c' calls' ∧ ∃ m, e = WriteError m
    | None => ∃ bs', gathered (R ++ [cells]) bs' c' calls' ∧ (sk_inBatch c' < sk_batchRows c')%nat ∧ sk_schema c' = sk_schema c ∧ sk_batchRows c' = sk_batchRows c
    end) (set_builder (Some (append_cells columns cells)) c) calls.
Proof.
  intros Hg Hb Hin Hlen x. pose proof (runs_row R bs c calls cells Hg Hin Hlen x) as H.
  assert (append_row cells (c, MkSinkWorld x calls) = Some ((set_builder (Some (append_cells columns cells)) c, MkSinkWorld x calls), ())) as E.
  { unfold append_row. unfold mbind, sink_bind, sink_get. cbn. by rewrite Hb. }
  unfold mbind, sink_bind in H. by rewrite E in H.
Qed.
(** A record, to a sink that is shipping. *)
Lemma runs_record fits known n p types recs s calls rec : running fits known n p types recs s calls →
  runs (appendAndRowDone rec) (λ o s' calls', match o with
    | Some e => spoilt e s' calls' ∧ ((∃ m, e = WriteError m) ∨ misfit fits p types rec e)
    | None => running fits known n p types (recs ++ [rec]) s' calls'
    end) s calls.
Proof.
  intros [(Hp & Ht & Hfi & Hfin & Hs & Hl & Htr) (c & R & bs & Hc & Hg & Hin & Hn & Hsch & HR)]. unfold appendAndRowDone, appendRow. do 3 runs_step. rewrite Hp, Ht, Hfi.
  destruct (first_misfit _ _) as [[[name t] v]|] eqn:Em.
  - runs_step. apply (runs_on_core _ _ _ _ c); [done|]. apply runs_fail; [apply Hg|]. do 2 runs_step. split; [|right; by exists name, t, v].
    eexists. split; [done|]. split_and!; [done|apply Hg|]. change (broken_calls (sk_writer c) calls). by eapply gathered_broken.
  - destruct (fitting_row fits p types rec) as (row & Hrow & Hlen); [done..|]. runs_step. apply (runs_on_core _ _ _ _ c); [done|]. unfold append_values. rewrite (proj2 Hrow).
    destruct (ga_columns _ _ _ _ Hg) as (columns & Hb & _). eapply runs_append_row; [done|]. runs_step. unfold trackUnknownKeys. do 2 runs_step.
    eapply runs_on_core; [by cbn; destruct (is_inferredNames s)|]. eapply runs_mono; [eapply runs_row_done; [done..|by rewrite Hsch; unfold schema_of; rewrite length_zip_with, Hlen; lia]|].
    intros o c' calls' Ho. destruct o as [e|].
    + destruct Ho as [Hb' Hm]. split; [|by left]. eexists. split; [by cbn; destruct (is_inferredNames s)|done].
    + destruct Ho as (bs' & Hg' & Hin' & Hsch' & Hn'). split.
      { split_and!; try done; try (by cbn; destruct (is_inferredNames s)). destruct Htr as [Hk Hu]. unfold tracked. cbn. rewrite Hk. destruct known as [k|]; cbn; [|by split].
        unfold track_all in *. by rewrite foldl_app, <- Hu. }
      exists c', (R ++ [row]), bs'.
      split_and!; [by cbn; destruct (is_inferredNames s)|done|done|congruence|congruence|]. apply Forall2_app; [done|constructor; [done|constructor]].
Qed.
Lemma runs_replay fits known n p types l : Forall (fits_all fits p types) l → ∀ recs s calls, running fits known n p types recs s calls →
  runs (replay l) (λ o s' calls', match o with Some e => spoilt e s' calls' ∧ ∃ m, e = WriteError m | None => running fits known n p types (recs ++ l) s' calls' end) s calls.
Proof.
  induction 1 as [|rec l Hfit _ IH]; intros recs s calls H; cbn [replay]; runs_step; [by rewrite app_nil_r|].
  eapply runs_mono; [by apply runs_record|]. intros [e|] s' calls' Ho.
  - runs_step. destruct Ho as [? [?|(name & t & v & Hm & _)]]; [done|]. unfold fits_all in Hfit. congruence.
  - eapply runs_mono; [by eapply IH|]. intros [e|] s2 calls2; [done|]. by rewrite <- app_assoc.
Qed.
Context `{LW : !SinkLaws}.
(** The sample chooses the columns, and is shipped. *)
Lemma runs_adopt settings recs s calls : sampling settings recs s calls → (0 < ss_batchRows settings)%nat →
  runs adoptFromPending (λ o s' calls', ∃ p types, chosen settings recs p types ∧ match o with
    | Some e => spoilt e s' calls' ∧ ∃ m, e = WriteError m
    | None => running valueFitsArrowType (known_of settings p) (ss_batchRows settings) p types recs s' calls'
    end) s calls.
Proof.
  intros [Hu Hn Hc Hp Ht Hpe Hfi Hfin -> [Hk Hun]] H0. unfold adoptFromPending. do 4 runs_step. rewrite Hpe. set (p := default (planFromBatch recs) (ss_columns settings)).
  eapply runs_mono.
  - eapply (runs_replay _ (known_of settings p) (ss_batchRows settings) p (inferTypesFromBatch p recs)); [apply Forall_forall; intros rec; by apply sample_fits|].
    assert (is_plan (adopt s) = Some p ∧ is_colTypes (adopt s) = Some (inferTypesFromBatch p recs) ∧ is_fits (adopt s) = is_fits s ∧ is_finished (adopt s) = is_finished s ∧
      is_core (adopt s) = Some (build_core p (inferTypesFromBatch p recs) (is_batchRows s)) ∧ tracked (known_of settings p) [] (adopt s)) as (E1 & E2 & E3 & E4 & E5 & E6).
    { clear H0. unfold adopt, buildCore, tracked, known_of, p. rewrite Hu. destruct s. cbn in *. subst. simplify_eq. destruct (ss_columns settings); by split_and!. }
    split; [rewrite E1, E2, E3, E4, Hfi, Hfin; split_and!; try done; [apply inferred_sound|apply infer_length]|].
    eexists _, [], []. rewrite E5, Hn. split_and!; [done|apply gathered_new|done..|constructor].
  - intros o s' calls' Ho. exists p, (inferTypesFromBatch p recs). split; [unfold chosen; by rewrite Hu|done].
Qed.

(** ** From the constructor to Finish *)

Definition sink_state (settings : sinkSettings) (recs : list json_record) (s : InferringSink) (calls : list writer_call) : Prop :=
  (sampling settings recs s calls ∧ (length recs < ss_batchRows settings)%nat) ∨
  ∃ p types, chosen settings (take (ss_batchRows settings) recs) p types ∧ (ss_typedColumns settings = None → ss_batchRows settings ≤ length recs)%nat ∧
    running (fits_of settings) (known_of settings p) (ss_batchRows settings) p types recs s calls.
Lemma chosen_more settings recs l p types : (ss_typedColumns settings = None → ss_batchRows settings ≤ length recs)%nat →
  chosen settings (take (ss_batchRows settings) recs) p types → chosen settings (take (ss_batchRows settings) (recs ++ l)) p types.
Proof. unfold chosen. destruct (ss_typedColumns settings) as [cols|]; [done|]. intros H. by rewrite take_app_le by (by apply H). Qed.
Lemma new_sink_state settings s : NewInferringSink settings = Ok s → (0 < ss_batchRows settings)%nat → sink_state settings [] s [].
Proof.
  unfold NewInferringSink. intros H H0. destruct (ss_typedColumns settings) as [cols|] eqn:Et.
  - destruct (ss_columns settings); [done|]. destruct (planFromTypedColumns cols) as [[p types]|e] eqn:Ep; [|done]. injection H as <-. right. exists p, types.
    unfold chosen, fits_of. rewrite Et. split_and!; [done..|]. assert (length types = length (cp_names p)) as Hl.
    { unfold planFromTypedColumns in Ep. destruct (mapM_res _ cols) as [ts|] eqn:Em; [|done]. injection Ep as <- <-. apply mapM_res_Ok, Forall2_length in Em. cbn. by rewrite length_fmap. }
    split; [split_and!; try done; [apply declared_sound|by unfold tracked, known_of; rewrite Et]|]. eexists _, [], []. split_and!; [done|apply gathered_new|done..|constructor].
  - assert (s = MkInferringSink (ss_batchRows settings) None (ss_columns settings) None [] valueFitsArrowType false None ∅ 0) as -> by (destruct (ss_columns settings); congruence).
    left. by split.
Qed.
(** Why a record is refused: the writer failed, or a value does not fit. *)
Definition refusal (settings : sinkSettings) (recs : list json_record) (e : sink_error) : Prop :=
  (∃ m, e = WriteError m) ∨ ∃ p types rec, chosen settings (take (ss_batchRows settings) recs) p types ∧ rec ∈ drop (match ss_typedColumns settings with Some _ => 0 | None => ss_batchRows settings end)%nat recs ∧ misfit (fits_of settings) p types rec e.
Lemma runs_Add settings recs s calls rec : sink_state settings recs s calls → (0 < ss_batchRows settings)%nat →
  runs (InferringSink_Add rec) (λ o s' calls', match o with
    | Some e => spoilt e s' calls' ∧ refusal settings (recs ++ [rec]) e
    | None => sink_state settings (recs ++ [rec]) s' calls'
    end) s calls.
Proof.
  intros [[Hsa Hlt]|(p & types & Hch & Hle & Hrun)] H0; unfold InferringSink_Add; do 2 runs_step.
  - destruct Hsa as [Hu Hn Hc Hp Ht Hpe Hfi Hfin -> Htr]. rewrite Hc, Hfin, Ht. cbn [core_failed mbind option_bind]. do 2 runs_step. rewrite Hpe, Hn.
    assert (sampling settings (recs ++ [rec]) (is_set_pending (recs ++ [rec]) s) []) as Hsa by (by split).
    destruct (Nat.ltb_spec (S (length recs)) (ss_batchRows settings)) as [Hlt'|Hge].
    + runs_step. left. rewrite length_app. cbn. split; [done|lia].
    + eapply runs_mono; [by apply (runs_adopt _ _ _ _ Hsa)|]. intros o s' calls' (p & types & Hch & Ho). destruct o as [e|].
      * destruct Ho as [? ?]. split; [done|by left].
      * right. exists p, types. rewrite take_ge by (rewrite length_app; cbn; lia). unfold fits_of. rewrite Hu. split_and!; [done|intros _; rewrite length_app; cbn; lia|done].
  - pose proof Hrun as [(Hp & Ht & Hfi & Hfin & Hs & Hl & Htr) (c & R & bs & Hc & Hg & _)]. rewrite Hc, Hfin, Ht. cbn [core_failed mbind option_bind]. rewrite (ga_failed _ _ _ _ Hg).
    eapply runs_mono; [by apply runs_record|]. intros [e|] s' calls' Ho.
    + destruct Ho as [? Hr]. split; [done|]. destruct Hr as [?|Hr]; [by left|right]. exists p, types, rec. split_and!; [by apply chosen_more| |done].
      rewrite drop_app_le; [apply elem_of_app; right; by left|]. destruct (ss_typedColumns settings); [lia|by apply Hle].
    + right. exists p, types. split_and!; [by apply chosen_more|intros E; rewrite length_app; specialize (Hle E); lia|done].
Qed.
(** What a caller does: every record, up to an error, then Finish. *)
Fixpoint add_all (recs : list json_record) : SinkOp X InferringSink (option sink_error) :=
  match recs with
  | [] => mret None
  | rec :: recs => o ← InferringSink_Add rec; match o with Some e => mret (Some e) | None => add_all recs end
  end.
Definition feed (recs : list json_record) : SinkOp X InferringSink (option sink_error * finish_result) :=
  o ← add_all recs; r ← InferringSink_Finish; mret (o, r).
Lemma refusal_more settings recs l e : refusal settings recs e → (∃ m, e = WriteError m) ∨ refusal settings (recs ++ l) e.
Proof.
  intros [?|(p & types & rec & Hch & Hin & Hm)]; [by left|]. right. right. exists p, types, rec. split_and!; [|by rewrite drop_app; apply elem_of_app; left|done].
  apply chosen_more; [|done]. intros E. rewrite E in Hin. destruct (decide (ss_batchRows settings ≤ length recs)%nat); [done|]. rewrite drop_ge in Hin by lia. by apply elem_of_nil in Hin.
Qed.
Lemma runs_add_all settings l : (0 < ss_batchRows settings)%nat → ∀ recs s calls, sink_state settings recs s calls →
  runs (add_all l) (λ o s' calls', match o with
    | Some e => spoilt e s' calls' ∧ refusal settings (recs ++ l) e
    | None => sink_state settings (recs ++ l) s' calls'
    end) s calls.
Proof.
  intros H0. induction l as [|rec l IH]; intros recs s calls H; cbn [add_all]; runs_step; [by rewrite app_nil_r|].
  eapply runs_mono; [by apply runs_Add|]. intros [e|] s' calls' Ho.
  - runs_step. destruct Ho as [Hs Hr]. split; [done|]. apply (refusal_more _ _ l) in Hr. rewrite <- app_assoc in Hr. destruct Hr as [?|?]; [by left|done].
  - eapply runs_mono; [by apply IH|]. intros o s2 calls2. by rewrite <- app_assoc.
Qed.
Lemma broken_orderly w calls : broken_calls w calls → orderly calls.
Proof. intros H. exists w, calls. split; [done|by left]. Qed.
(** A sink that has failed says so again, and closes its writer if it has one. *)
Lemma runs_spoilt_finish e s calls : spoilt e s calls → runs (on_core Sink_Finish) (λ r s' calls', (∃ n, r = (n, None, Some e)) ∧ core_failed (is_core s') = Some e ∧ orderly calls') s calls.
Proof.
  intros (c & Hc & Hb). eapply runs_on_core; [done|]. eapply runs_mono; [by apply broken_finish|]. cbn. intros r c' calls' (-> & Hf & Hw). split_and!; [by eexists|done|].
  destruct Hb as (_ & _ & Hb). destruct (sk_writer c) eqn:Ew.
  - destruct Hw as (_ & r & ->). exists true, calls. split; [done|]. right. split; [done|by exists r].
  - destruct Hw as (_ & ->). by eapply broken_orderly.
Qed.
Definition delivered (settings : sinkSettings) (recs : list json_record) (r : finish_result) (s : InferringSink) (calls : list writer_call) : Prop :=
  match r with
  | (n, cr, None) => n = Z.of_nat (length recs) ∧ ∃ p types R, chosen settings (take (ss_batchRows settings) recs) p types ∧ Forall2 (row_of (fits_of settings) p types) recs R ∧
      shipped_all (schema_of (cp_names p) types) (ss_batchRows settings) R cr calls
  | (_, cr, Some e) => cr = None ∧ (∃ m, e = WriteError m) ∧ core_failed (is_core s) = Some e ∧ orderly calls
  end.
Lemma runs_running_finish settings p types recs s calls : chosen settings (take (ss_batchRows settings) recs) p types → running (fits_of settings) (known_of settings p) (ss_batchRows settings) p types recs s calls →
  runs (_ ← sink_modify is_set_finished; t ← sink_get; match is_core t with None => mret (0%Z, None, None) | Some _ => on_core Sink_Finish end) (λ r s' calls', delivered settings recs r s' calls') s calls.
Proof.
  intros Hch [_ (c & R & bs & Hc & Hg & Hin & Hn & Hsch & HR)]. do 4 runs_step. cbn [is_core is_set_finished]. rewrite Hc. eapply runs_on_core; [done|].
  eapply runs_mono; [by eapply gathered_finish|]. intros [[n cr] [e|]] c' calls' H; cbn in *.
  - destruct H as (-> & Hf & Hm & Hor). split_and!; [done..|]. destruct Hor as [(_ & _ & Hb)|(_ & bs' & err & Hne & ->)]; [by eapply broken_orderly|].
    exists true, (good_writes bs'). split; [exists bs'; left; by destruct bs'|]. right. split; [done|by eexists].
  - destruct H as (-> & _ & _ & _ & _ & Hsh). split; [by rewrite (Forall2_length _ _ _ HR)|]. exists p, types, R. rewrite Hsch, Hn in Hsh. by split_and!.
Qed.
Lemma runs_Finish settings recs s calls : sink_state settings recs s calls → (0 < ss_batchRows settings)%nat → runs InferringSink_Finish (delivered settings recs) s calls.
Proof.
  intros [[Hsa Hlt]|(p & types & Hch & Hle & Hrun)] H0; unfold InferringSink_Finish; do 2 runs_step.
  - pose proof Hsa as [Hu Hn Hc Hp Ht Hpe Hfi Hfin Hcalls Htr]. rewrite Hc, Hfin, Ht, Hpe. cbn [core_failed mbind option_bind]. runs_step. destruct (Nat.eqb_spec (length recs) 0) as [Hz|Hz].
    + destruct recs; [|done]. do 5 runs_step. cbn [is_core is_set_finished]. rewrite Hc. runs_step. cbn. split; [done|]. rewrite take_nil.
      assert (∃ p types, chosen settings [] p types) as (p & types & Hch) by (unfold chosen; rewrite Hu; eauto). exists p, types, []. split_and!; [done|constructor|]. by rewrite Hcalls.
    + eapply runs_mono; [by apply (runs_adopt _ _ _ _ Hsa)|]. intros o s' calls' (p & types & Hch & Ho). destruct o as [e|].
      * destruct Ho as [Hs Hm]. eapply runs_mono; [by apply runs_spoilt_finish|]. intros r s2 calls2 ((n & ->) & Hf & Hor). by split_and!.
      * apply (runs_running_finish settings p types); [rewrite take_ge by lia; done|]. unfold fits_of. by rewrite Hu.
  - pose proof Hrun as [(Hp & Ht & Hfi & Hfin & Hs & Hl & Htr) (c & R & bs & Hc & Hg & _)]. rewrite Hc, Hfin, Ht. cbn [core_failed mbind option_bind]. rewrite (ga_failed _ _ _ _ Hg).
    do 2 runs_step. by eapply runs_running_finish.
Qed.
(** C28: What an inferring sink accepts is what it ships.  From its constructor, for any
    records and any answers of the writer, Add on each record and then Finish never
    panics.  When all is well, Finish says how many records there were, and the
    writer was opened once, given every record once and in order, as the cells of the
    columns that were declared or that the first records chose, in batches of the
    size asked for but the last, and closed once (never opened, for no records).  A
    sink without columns, whose sample has no keys or which was given no names,
    ships as many batches as its records would fill, but no row in them, although
    Finish counts the records.  An error of Add is the writer's or names a value that does not fit, of a record
    beyond the sample; Finish then says it again, and the calls are at most one open,
    the writes that went well, one that did not, and one Close. *)
Theorem sink_ships_all (opts : list SinkOption) (s : InferringSink) (recs : list json_record)
    (Hnew : NewInferringSink (settings_of opts) = Ok s) : let settings := settings_of opts in
  runs (feed recs) (λ r s' calls', match r with
    | (None, fin) => delivered settings recs fin s' calls'
    | (Some e, fin) => refusal settings recs e ∧ (∃ n, fin = (n, None, Some e)) ∧ core_failed (is_core s') = Some e ∧ orderly calls'
    end) s [].
Proof.
  intros settings. pose proof (settings_batchRows opts : 0 < ss_batchRows settings)%nat as Hrows.
  unfold feed. runs_step. eapply runs_mono; [apply (runs_add_all settings recs Hrows []); by apply new_sink_state|]. intros [e|] s1 calls1 Ho; runs_step.
  - destruct Ho as [Hs Hr]. unfold InferringSink_Finish. do 2 runs_step. pose proof Hs as (c & Hc & Hb). rewrite Hc. cbn [core_failed mbind option_bind]. rewrite (proj1 Hb).
    eapply runs_mono; [by apply runs_spoilt_finish|]. intros r s2 calls2 (Hn & Hf & Hor). by runs_step.
  - eapply runs_mono; [by apply (runs_Finish settings recs)|]. intros r s2 calls2 Hd. by runs_step.
Qed.

(** ** Keys outside the sample *)

Definition foreign (known : gset string) (rec : json_record) : Prop := ∃ k, k ∈ gm_keys rec ∧ k ∉ known.
#[export] Instance foreign_dec known rec : Decision (foreign known rec).
Proof.
  refine (cast_if (decide (Exists (λ k, k ∉ known) (gm_keys rec)))); unfold foreign; rewrite <- Exists_exists; assumption.
Defined.
(** All of the set, or as many as are tracked. *)
Definition tracks (seen all : gset string) : Prop := seen ⊆ all ∧ size seen ≤ MaxTrackedUnknownKeys ∧ (seen = all ∨ size seen = MaxTrackedUnknownKeys).
Definition keys_of (recs : list json_record) : gset string := list_to_set (rec ← recs; gm_keys rec).
Lemma track_key_tracks known seen all k : tracks seen all → tracks (track_key known seen k) (({[k]} ∖ known) ∪ all).
Proof.
  intros (Hs & Hl & Hc). unfold track_key. destruct (bool_decide_reflect (k ∈ known)) as [Hk|Hk]; cbn [orb]; [assert ({[k]} ∖ known ∪ all = all) as -> by set_solver; by split|].
  assert ({[k]} ∖ known ∪ all = {[k]} ∪ all) as -> by set_solver. destruct (bool_decide_reflect (k ∈ seen)) as [Hi|Hi]; cbn [orb].
  { assert ({[k]} ∪ all = all) as -> by set_solver. by split. }
  destruct (Nat.leb_spec MaxTrackedUnknownKeys (size seen)) as [Hle|Hlt]; [split_and!; [set_solver|lia|right; lia]|].
  destruct Hc as [->|Hc]; [|lia]. split_and!; [done| |by left].
  rewrite size_union by set_solver. rewrite size_singleton. lia.
Qed.
Lemma track_keys_tracks known keys seen all : tracks seen all → tracks (foldl (track_key known) seen keys) ((list_to_set keys ∖ known) ∪ all).
Proof.
  revert seen all. induction keys as [|k keys IH]; intros seen all H; cbn; [by assert (∅ ∖ known ∪ all = all) as -> by set_solver|].
  apply (track_key_tracks known _ _ k) in H. apply IH in H. by assert (({[k]} ∪ list_to_set keys) ∖ known ∪ all = list_to_set keys ∖ known ∪ ({[k]} ∖ known ∪ all)) as -> by set_solver.
Qed.
Lemma track_all_spec known recs : tracks (track_all known recs).1 (keys_of recs ∖ known) ∧ (track_all known recs).2 = Z.of_nat (length (filter (foreign known) recs)).
Proof.
  induction recs as [|rec recs [IH1 IH2]] using rev_ind; [change (track_all known []) with (∅ : gset string, 0%Z); split; [split_and!; [set_solver|unfold MaxTrackedUnknownKeys; cbn [fst]; rewrite size_empty; lia|left; unfold keys_of; cbn; set_solver]|done]|].
  unfold track_all in *. rewrite foldl_app. cbn [foldl]. remember (foldl _ (∅, 0%Z) recs) as u eqn:Eu. clear Eu. unfold track. cbn. split.
  - apply (track_keys_tracks known (gm_keys rec)) in IH1. unfold keys_of in *. rewrite bind_app, list_to_set_app_L. cbn. rewrite app_nil_r.
    by assert ((list_to_set (recs ≫= (λ rec, gm_keys rec)) ∪ list_to_set (gm_keys rec)) ∖ known = list_to_set (gm_keys rec) ∖ known ∪ list_to_set (recs ≫= (λ rec, gm_keys rec)) ∖ known) as -> by set_solver.
  - rewrite IH2, filter_app, length_app, filter_cons, filter_nil. assert (existsb (λ k, negb (bool_decide (k ∈ known))) (gm_keys rec) = bool_decide (foreign known rec)) as ->.
    { apply eq_iff_eq_true. rewrite existsb_exists, bool_decide_eq_true. unfold foreign. setoid_rewrite list_elem_of_In. setoid_rewrite negb_true_iff. by setoid_rewrite bool_decide_eq_false. }
    case_bool_decide; destruct (decide (foreign known rec)); try done; cbn; lia.
Qed.
(** C33: What falls outside the sample is reported.  A sink that takes its names from
    its first records keeps to their keys.  After any records, the count of
    UnknownKeys is that of the records with another key, exactly; and the names are
    sorted, without repetition, all such keys, or sixty-four of them. *)
Theorem unknown_keys_exact (opts : list SinkOption) (s : InferringSink) (recs : list json_record)
    (Hnew : NewInferringSink (settings_of opts) = Ok s) (Hty : ss_typedColumns (settings_of opts) = None) (Hco : ss_columns (settings_of opts) = None) : let settings := settings_of opts in
  runs (add_all recs) (λ o s' _, o = None → let known := keys_of (take (ss_batchRows settings) recs) in let (names, n) := UnknownKeys s' in
    n = Z.of_nat (length (filter (foreign known) recs)) ∧ StronglySorted String.le names ∧ NoDup names ∧ tracks (list_to_set names) (keys_of recs ∖ known)) s [].
Proof.
  intros settings. pose proof (settings_batchRows opts : 0 < ss_batchRows settings)%nat as Hrows. change (ss_typedColumns settings = None) in Hty. change (ss_columns settings = None) in Hco.
  eapply runs_mono; [apply (runs_add_all settings recs Hrows []); by apply new_sink_state|]. clearbody settings. intros [e|] s' calls Ho; [done|]. intros _. cbn [UnknownKeys app] in *.
  assert ((is_unknownKeys s', is_unknownRecords s') = track_all (keys_of (take (ss_batchRows settings) recs)) recs) as E.
  { destruct Ho as [[Hsa Hlt]|(p & types & Hch & Hle & [(_ & _ & _ & _ & _ & _ & Htr) _])].
    - destruct (sa_tracked _ _ _ _ Hsa) as [_ ->]. rewrite take_ge by lia. destruct (track_all_spec (keys_of recs) recs) as [(Hs & _) Hn]. rewrite (surjective_pairing (track_all _ _)). f_equal; [set_solver|].
      rewrite Hn. destruct (filter (foreign (keys_of recs)) recs) as [|rec l] eqn:Ef; [done|]. assert (rec ∈ filter (foreign (keys_of recs)) recs) as Hin by (rewrite Ef; by left).
      apply list_elem_of_filter in Hin as [(k & Hk & Hn') Hin]. destruct Hn'. unfold keys_of. apply elem_of_list_to_set, list_elem_of_bind. by exists rec.
    - destruct Htr as [_ ->]. unfold known_of. rewrite Hty, Hco. unfold chosen in Hch. rewrite Hty, Hco in Hch. destruct Hch as [-> _]. cbn. f_equal. apply set_eq. intros k. rewrite elem_of_list_to_set, elem_of_sorted_names. done. }
  destruct (track_all_spec (keys_of (take (ss_batchRows settings) recs)) recs) as [Ht Hn]. rewrite <- E in Ht, Hn. cbn in Ht, Hn.
  split_and!; [done|apply sorted_names_sorted|apply sorted_names_NoDup|]. assert (list_to_set (sorted_names (is_unknownKeys s')) = is_unknownKeys s') as -> by (apply set_eq; intros k; by rewrite elem_of_list_to_set, elem_of_sorted_names). done.
Qed.

(** ** A failure is final *)

Inductive sink_call : Type := DoAdd (rec : json_record) | DoFinish.
Definition run_call (o : sink_call) : SinkOp X InferringSink (option sink_error) :=
  match o with DoAdd rec => InferringSink_Add rec | DoFinish => r ← InferringSink_Finish; mret r.2 end.
Fixpoint run_calls (l : list sink_call) : SinkOp X InferringSink (list (option sink_error)) :=
  match l with [] => mret [] | o :: l => e ← run_call o; es ← run_calls l; mret (e :: es) end.
Lemma runs_failed_call o s calls c e : is_core s = Some c → sk_failed c = Some e →
  runs (run_call o) (λ r s' calls', r = Some e ∧ ∃ c', is_core s' = Some c' ∧ sk_failed c' = Some e ∧ ((calls' = calls ∧ sk_finished c' = sk_finished c) ∨ sk_finished c = false ∧ sk_finished c' = true ∧ ∃ r, calls' = calls ++ [Closed r])) s calls.
Proof.
  intros Hc Hf. destruct o as [rec|]; cbn [run_call].
  - unfold InferringSink_Add. do 2 runs_step. rewrite Hc. cbn [core_failed mbind option_bind]. rewrite Hf. runs_step. split; [done|]. exists c. split_and!; [done..|]. by left.
  - runs_step. unfold InferringSink_Finish. do 2 runs_step. rewrite Hc. cbn [core_failed mbind option_bind]. rewrite Hf. eapply runs_on_core; [done|].
    unfold Sink_Finish, closeAfterFailure. do 2 runs_step. rewrite Hf. do 3 runs_step. destruct (sk_finished c) eqn:Efi; cbn [orb].
    + do 3 runs_step. split; [done|]. exists c. split_and!; [done..|]. by left.
    + destruct (sk_writer c); cbn [negb].
      * do 3 runs_step. apply runs_ask. intros r. do 3 runs_step. split; [done|]. eexists. split_and!; [done..|]. right. split_and!; [done..|by eexists].
      * do 3 runs_step. split; [done|]. exists c. split_and!; [done..|]. by left.
Qed.
(** C30: A failure is final.  Once the core of a sink has failed, every Add and every
    Finish, in any order and for ever, gives that same error and never panics; no
    call opens the writer or writes to it again, and it is closed at most once. *)
Theorem sink_failure_final (l : list sink_call) (s : InferringSink) (calls : list writer_call) (e : sink_error)
    (Hf : core_failed (is_core s) = Some e) :
  runs (run_calls l) (λ es s' calls', es = replicate (length l) (Some e) ∧ core_failed (is_core s') = Some e ∧ (calls' = calls ∨ ∃ r, calls' = calls ++ [Closed r])) s calls.
Proof.
  destruct (is_core s) as [c|] eqn:Hc; [|done]. cbn in Hf.
  assert (∀ l s calls c, is_core s = Some c → sk_failed c = Some e → runs (run_calls l) (λ es s' calls', es = replicate (length l) (Some e) ∧ core_failed (is_core s') = Some e ∧
    (calls' = calls ∨ sk_finished c = false ∧ ∃ r, calls' = calls ++ [Closed r])) s calls) as H.
  { clear. induction l as [|o l IH]; intros s calls c Hc Hf; cbn [run_calls]; runs_step; [split_and!; [done|by rewrite Hc|by left]|].
    eapply runs_mono; [by eapply runs_failed_call|]. intros r s1 calls1 (-> & c1 & Hc1 & Hf1 & Hcase). runs_step. eapply runs_mono; [by eapply IH|].
    intros es s2 calls2 (-> & Hf2 & H). runs_step. split_and!; [done..|]. destruct Hcase as [[-> Hfi]|(Hfi & Hfi1 & r & ->)]; [by rewrite <- Hfi|].
    right. split; [done|]. destruct H as [->|[H _]]; [by exists r|congruence]. }
  eapply runs_mono; [by eapply H|]. intros es s' calls' (? & ? & Hcase). split_and!; [done..|]. destruct Hcase as [?|[_ ?]]; [by left|by right].
Qed.
End Whole.
