(* ===== verification/StringSinkOk.v ===== *)
(** * StringSinkOk: the sink whose columns are all strings
      (sdk/go/arrow/sink.go)

    A [StringSink] refuses no value: whatever the records, they are shipped as the
    text of their values. *)

From S2P Require Import Prelude GoValue GoTime ArrowSink InferSink SinkOk InferSinkOk.

Section Whole.
Context `{UT : !UnicodeTables} `{SL : !SinkLib} {X : Type} `{SE : !SinkEnv X} `{AI : !ArrowIpc}.

Definition string_schema (p : columnPlan) : list arrow_field := (λ n, MkArrowField n TString true) <$> cp_names p.
Definition string_row (p : columnPlan) (rec : json_record) : arrow_row := string_cell <$> project p rec.
(** The columns given, or those of the sample. *)
Definition string_plan (settings : sinkSettings) (sample : list json_record) : columnPlan := default (planFromBatch sample) (ss_columns settings).

Definition gathering (settings : sinkSettings) (recs : list json_record) (s : StringSink) (calls : list writer_call) : Prop :=
  ss_columns settings = None ∧ st_core s = None ∧ st_plan s = None ∧ st_pending s = recs ∧ calls = [].
Definition shipping (n : nat) (p : columnPlan) (recs : list json_record) (s : StringSink) (calls : list writer_call) : Prop :=
  st_plan s = Some p ∧ ∃ c bs, st_core s = Some c ∧ gathered (string_row p <$> recs) bs c calls ∧ (sk_inBatch c < sk_batchRows c)%nat ∧ sk_batchRows c = n ∧ sk_schema c = string_schema p.
Definition string_state (settings : sinkSettings) (recs : list json_record) (s : StringSink) (calls : list writer_call) : Prop :=
  st_batchRows s = ss_batchRows settings ∧ st_finished s = false ∧ let n := ss_batchRows settings in
  (gathering settings recs s calls ∧ (length recs < n)%nat) ∨ ((ss_columns settings = None → n ≤ length recs)%nat ∧ shipping n (string_plan settings (take n recs)) recs s calls).
Definition string_spoilt (e : sink_error) (s : StringSink) (calls : list writer_call) : Prop := (∃ m, e = WriteError m) ∧ ∃ c, st_core s = Some c ∧ broken e c calls.

Lemma runs_on_string_core {A} (m : SinkOp X Sink A) (Q : A → StringSink → list writer_call → Prop) s calls c : st_core s = Some c →
  runs m (λ a c' calls', Q a (st_set_core (Some c') s) calls') c calls → runs (on_string_core m) Q s calls.
Proof. intros Hc H x. specialize (H x). unfold on_string_core. cbn. rewrite Hc. by destruct (m _) as [[[c' w] a]|]. Qed.
Lemma runs_string_record n p recs s calls rec : shipping n p recs s calls →
  runs (String_appendAndRowDone rec) (λ o s' calls', st_batchRows s' = st_batchRows s ∧ st_finished s' = st_finished s ∧ match o with
    | Some e => string_spoilt e s' calls'
    | None => shipping n p (recs ++ [rec]) s' calls'
    end) s calls.
Proof.
  intros (Hp & c & bs & Hc & Hg & Hin & Hn & Hsch). unfold String_appendAndRowDone, String_appendRow. do 3 runs_step. rewrite Hp. runs_step. eapply runs_on_string_core; [done|].
  destruct (ga_columns _ _ _ _ Hg) as (columns & Hb & _). eapply runs_append_row; [done|]. runs_step.
  eapply runs_on_string_core; [by cbn; destruct (st_inferredNames s)|]. eapply runs_mono; [eapply (runs_row_done _ _ _ _ _ (string_row p rec)); [done..|]|].
  { rewrite Hsch. unfold string_row, string_schema. by rewrite !length_fmap, project_length. }
  intros o c' calls' Ho. split_and!; [by cbn; destruct (st_inferredNames s)..|]. destruct o as [e|].
  - destruct Ho as [Hb' Hm]. split; [done|]. exists c'. split; [by cbn; destruct (st_inferredNames s)|done].
  - destruct Ho as (bs' & Hg' & Hin' & Hsch' & Hn'). split; [by cbn; destruct (st_inferredNames s)|]. exists c', bs'. rewrite fmap_app. split_and!; [by cbn; destruct (st_inferredNames s)|done|done|congruence|congruence].
Qed.
Lemma runs_string_replay n p l : ∀ recs s calls, shipping n p recs s calls →
  runs (String_replay l) (λ o s' calls', st_batchRows s' = st_batchRows s ∧ st_finished s' = st_finished s ∧ match o with
    | Some e => string_spoilt e s' calls'
    | None => shipping n p (recs ++ l) s' calls'
    end) s calls.
Proof.
  induction l as [|rec l IH]; intros recs s calls H; cbn [String_replay]; runs_step; [by rewrite app_nil_r|].
  eapply runs_mono; [by apply runs_string_record|]. intros [e|] s' calls' (H1 & H2 & Ho); [by runs_step|].
  eapply runs_mono; [by eapply IH|]. cbn. intros o s2 calls2. by rewrite <- app_assoc, H1, H2.
Qed.
Lemma runs_String_adopt settings recs s calls : st_batchRows s = ss_batchRows settings → gathering settings recs s calls → (0 < ss_batchRows settings)%nat →
  runs String_adopt (λ o s' calls', st_batchRows s' = st_batchRows s ∧ st_finished s' = st_finished s ∧ match o with
    | Some e => string_spoilt e s' calls'
    | None => shipping (ss_batchRows settings) (string_plan settings recs) recs s' calls'
    end) s calls.
Proof.
  intros Hn (Hco & Hc & Hp & Hpe & ->) H0. unfold String_adopt. do 4 runs_step. rewrite Hpe.
  eapply runs_mono; [eapply (runs_string_replay (ss_batchRows settings) (string_plan settings recs) recs [])|done].
  unfold string_plan. rewrite Hco. split; [done|]. eexists _, []. cbn. rewrite Hn. split_and!; [done|apply gathered_new|done..].
Qed.
Lemma runs_String_Add settings recs s calls rec : string_state settings recs s calls → (0 < ss_batchRows settings)%nat →
  runs (StringSink_Add rec) (λ o s' calls', match o with Some e => string_spoilt e s' calls' | None => string_state settings (recs ++ [rec]) s' calls' end) s calls.
Proof.
  intros (Hn & Hfin & [[Hga Hlt]|[Hle Hsh]]) H0; unfold StringSink_Add; do 2 runs_step; rewrite Hfin.
  - pose proof Hga as (Hco & Hc & Hp & Hpe & ->). rewrite Hc, Hp. cbn [core_failed mbind option_bind]. do 2 runs_step. rewrite Hpe, Hn.
    assert (gathering settings (recs ++ [rec]) (st_set_pending (recs ++ [rec]) s) []) as Hga' by done.
    destruct (Nat.ltb_spec (S (length recs)) (ss_batchRows settings)) as [Hlt'|Hge].
    + runs_step. split_and!; [done..|]. left. rewrite length_app. cbn. split; [done|lia].
    + eapply runs_mono; [by apply (runs_String_adopt settings (recs ++ [rec]))|]. intros [e|] s' calls' (H1 & H2 & Ho); [done|]. split_and!; [by rewrite H1|by rewrite H2|].
      right. rewrite take_ge by (rewrite length_app; cbn; lia). split; [intros _; rewrite length_app; cbn; lia|done].
  - pose proof Hsh as (Hp & c & bs & Hc & Hg & _). rewrite Hc, Hp. cbn [core_failed mbind option_bind]. rewrite (ga_failed _ _ _ _ Hg).
    eapply runs_mono; [by apply runs_string_record|]. intros [e|] s' calls' (H1 & H2 & Ho); [done|]. split_and!; [by rewrite H1|by rewrite H2|]. right. split; [intros E; rewrite length_app; specialize (Hle E); lia|].
    unfold string_plan in *. destruct (ss_columns settings); [done|]. by rewrite take_app_le by auto.
Qed.
Fixpoint string_add_all (recs : list json_record) : SinkOp X StringSink (option sink_error) :=
  match recs with
  | [] => mret None
  | rec :: recs => o ← StringSink_Add rec; match o with Some e => mret (Some e) | None => string_add_all recs end
  end.
Definition string_feed (recs : list json_record) : SinkOp X StringSink (option sink_error * finish_result) :=
  o ← string_add_all recs; r ← StringSink_Finish; mret (o, r).
Lemma runs_string_add_all settings l : (0 < ss_batchRows settings)%nat → ∀ recs s calls, string_state settings recs s calls →
  runs (string_add_all l) (λ o s' calls', match o with Some e => string_spoilt e s' calls' | None => string_state settings (recs ++ l) s' calls' end) s calls.
Proof.
  intros H0. induction l as [|rec l IH]; intros recs s calls H; cbn [string_add_all]; runs_step; [by rewrite app_nil_r|].
  eapply runs_mono; [by apply runs_String_Add|]. intros [e|] s' calls' Ho; [by runs_step|].
  eapply runs_mono; [by apply IH|]. intros o s2 calls2. by rewrite <- app_assoc.
Qed.
(** Finish of a sink that has failed. *)
Definition said_again (e : sink_error) (r : finish_result) (s : StringSink) (calls : list writer_call) : Prop :=
  (∃ n, r = (n, None, Some e)) ∧ (∃ m, e = WriteError m) ∧ core_failed (st_core s) = Some e ∧ orderly calls.
Lemma runs_string_spoilt_finish e s calls : string_spoilt e s calls → runs (on_string_core Sink_Finish) (said_again e) s calls.
Proof.
  intros (Hm & c & Hc & Hb). eapply runs_on_string_core; [done|]. eapply runs_mono; [by apply broken_finish|]. intros r c' calls' (-> & Hf & Hw). split_and!; [by eexists|done|done|].
  destruct Hb as (_ & _ & Hb). destruct (sk_writer c) eqn:Ew.
  - destruct Hw as (_ & r & ->). exists true, calls. split; [done|]. right. split; [done|by exists r].
  - destruct Hw as (_ & ->). by eapply broken_orderly.
Qed.
Definition string_delivered (settings : sinkSettings) (recs : list json_record) (r : finish_result) (s : StringSink) (calls : list writer_call) : Prop :=
  match r.2 with
  | None => let p := string_plan settings (take (ss_batchRows settings) recs) in
      r.1.1 = Z.of_nat (length recs) ∧ shipped_all (string_schema p) (ss_batchRows settings) (string_row p <$> recs) r.1.2 calls
  | Some e => said_again e r s calls
  end.
Lemma runs_shipping_finish settings recs s calls : shipping (ss_batchRows settings) (string_plan settings (take (ss_batchRows settings) recs)) recs s calls →
  runs (_ ← sink_modify st_set_finished; t ← sink_get; match st_core t with None => mret (0%Z, None, None) | Some _ => on_string_core Sink_Finish end) (string_delivered settings recs) s calls.
Proof.
  intros (Hp & c & bs & Hc & Hg & Hin & Hn & Hsch). do 4 runs_step. cbn [st_core st_set_finished]. rewrite Hc. eapply runs_on_string_core; [done|].
  eapply runs_mono; [by eapply gathered_finish|]. intros [[n cr] [e|]] c' calls' H; unfold string_delivered; cbn in *.
  - destruct H as (-> & Hf & Hm & Hor). split_and!; [by eexists|done..|]. destruct Hor as [(_ & _ & Hb)|(_ & bs' & err & Hne & ->)]; [by eapply broken_orderly|].
    exists true, (good_writes bs'). split; [exists bs'; left; by destruct bs'|]. right. split; [done|by eexists].
  - destruct H as (-> & _ & _ & _ & _ & Hsh). rewrite Hsch, Hn in Hsh. by rewrite length_fmap.
Qed.
(** C32: A string sink ships every record as text.  From its constructor, for any
    records and any answers of the writer, Add on each record and then Finish never
    panics, and only the writer makes it fail.  When all is well the writer was
    opened once, given every record once and in order, the text of each column's
    value and null for a key that is missing, in batches of the size asked for but
    the last, and closed once.  A sink without columns, whose sample has no keys or
    which was given no names, ships as many batches as its records would fill, but
    no row in them, although Finish counts the records.  An error is said again by
    Finish, after at most one open, the writes that went well, one that did not, and
    one Close. *)
Theorem string_sink_ships_all (opts : list SinkOption) (recs : list json_record) : let settings := settings_of opts in
  runs (string_feed recs) (λ r s calls, match r with
    | (None, fin) => string_delivered settings recs fin s calls
    | (Some e, fin) => said_again e fin s calls
    end) (NewStringSink settings) [].
Proof.
  intros settings. pose proof (settings_batchRows opts : 0 < ss_batchRows settings)%nat as Hrows. clearbody settings.
  assert (string_state settings [] (NewStringSink settings) []) as Hnew.
  { unfold NewStringSink. unfold string_state, gathering, shipping, string_plan, take. destruct (ss_columns settings) as [p|] eqn:Ec; cbn; split_and!; try done; [right|by left].
    split_and!; [done..|]. eexists _, []. split_and!; [done|apply gathered_new|done..]. }
  unfold string_feed. runs_step. eapply runs_mono; [by apply (runs_string_add_all settings recs Hrows [])|]. intros [e|] s1 calls1 Ho; runs_step.
  - unfold StringSink_Finish. do 2 runs_step. pose proof Ho as (_ & c & Hc & Hb). rewrite Hc. cbn [core_failed mbind option_bind]. rewrite (proj1 Hb).
    eapply runs_mono; [by apply runs_string_spoilt_finish|]. intros r s2 calls2 H. by runs_step.
  - cbn [app] in Ho. destruct Ho as (Hn & Hfin & [[Hga Hlt]|[Hle Hsh]]); unfold StringSink_Finish; do 2 runs_step; rewrite Hfin.
    + pose proof Hga as (Hco & Hc & Hp & Hpe & ->). rewrite Hc, Hp, Hpe. cbn [core_failed mbind option_bind]. runs_step. destruct (Nat.eqb_spec (length recs) 0) as [Hz|Hz].
      * destruct recs; [|done]. do 5 runs_step. cbn [st_core st_set_finished]. rewrite Hc. do 2 runs_step. done.
      * eapply runs_mono; [by apply (runs_String_adopt settings recs)|]. intros [e|] s' calls' (H1 & H2 & Ho).
        -- eapply runs_mono; [by apply runs_string_spoilt_finish|]. intros [[n cr] o] s2 calls2 H. runs_step. pose proof H as ((n' & [= -> -> ->]) & _). done.
        -- eapply runs_mono; [apply (runs_shipping_finish settings recs); by rewrite take_ge by lia|]. intros r s2 calls2 H. by runs_step.
    + pose proof Hsh as (Hp & c & bs & Hc & Hg & _). rewrite Hc, Hp. cbn [core_failed mbind option_bind]. rewrite (ga_failed _ _ _ _ Hg). do 2 runs_step.
      eapply runs_mono; [by apply (runs_shipping_finish settings recs)|]. intros r s2 calls2 H. by runs_step.
Qed.
End Whole.
