(* ===== verification/SinkExamples.v ===== *)
(** * SinkExamples: the sinks on concrete records
      (sdk/go/arrow: typed_sink.go, sink.go, inferring_sink.go)

    The theorems of InferSinkOk and StringSinkOk applied to small samples, and runs
    of the sinks with a writer that fails where it is told to. *)

From Stdlib Require Import SpecFloat.
From S2P Require Import Prelude GoValue GoTime Tokens ArrowSink InferSink SinkOk InferSinkOk StringSinkOk.
#[local] Existing Instance TokenExamples.ascii_tables.

Module SinkExamples.
(** Floats: whole numbers, and 1.5. *)
Definition half : spec_float := S754_finite false 3 (-1).
#[export] Instance small_floats : SinkLib := {|
  ParseFloat s := match Atoi s with Some _ => Some (S754_zero false) | None => if bool_decide (s = "1.5") then Some half else None end;
  FormatFloat f := if SFeqb f half then "1.5" else "0";
  json_Marshal v := match v with VObj _ => Ok "{}" | _ => Ok "[]" end;
  convert_float bits _ := (- 2 ^ (bits - 1))%Z;
|}.
#[export] Instance small_floats_laws : SinkLaws.
Proof. intros s z H. cbn. rewrite H. by eexists. Qed.
(** A writer whose environment is the list of the answers that are errors. *)
Definition next (x : list bool) : list bool * bool := match x with [] => ([], true) | b :: x => (x, b) end.
#[export] Instance told_writer : SinkEnv (list bool) := {|
  open_writer x := let (x, ok) := next x in (x, if ok then None else Some "no gateway");
  write_chunk _ x := let (x, ok) := next x in (x, if ok then None else Some "broken pipe");
  close_writer x := let (x, ok) := next x in (x, if ok then Ok (MkCloseResult 0 0 0) else Err "no answer");
|}.
#[export] Instance plain_ipc : ArrowIpc := {| ipc_write _ := None; ipc_close _ := Ok "stream" |}.

Definition one : json_record := [("id", JNumber "1"); ("price", JNumber "2")].
Definition two : json_record := [("id", JNumber "2"); ("price", JNumber "1.5")].
Definition three : json_record := [("id", JNull); ("late", JBool true)].
Definition by_two : list SinkOption := [OptBatchRows 0; OptBatchRows 2].
Definition fresh : InferringSink := MkInferringSink 2 None None None [] valueFitsArrowType false None ∅ 0.

(** What the writer was asked, by its answers from here on. *)
Definition calls_of {A S} (r : option ((S * sink_world (list bool)) * A)) : list writer_call := match r with Some (_, w, _) => sw_calls w | None => [] end.
Definition answer_of {A S} (r : option ((S * sink_world (list bool)) * A)) : option A := match r with Some (_, _, a) => Some a | None => None end.
(** The price of the sample is a float, for both records; the third record has none,
    and a key that the sample has not. *)
Example sample_is_float :
  calls_of (feed [one; two; three] (fresh, MkSinkWorld [] [])) =
  let sch := [MkArrowField "id" TInt64 true; MkArrowField "price" TFloat64 true] in
  [Opened None; Wrote (MkBatch sch [[CInt 1; CInt 2]; [CFloat (S754_zero false); CFloat half]]) None; Wrote (MkBatch sch [[CNull]; [CNull]]) None; Closed (Ok (MkCloseResult 0 0 0))].
Proof. reflexivity. Qed.
Lemma sink_ships_all_witness :
  NewInferringSink (settings_of by_two) = Ok fresh ∧
  runs (X := list bool) (feed [one; two; three]) (λ r s' calls', match r with
    | (None, fin) => delivered (settings_of by_two) [one; two; three] fin s' calls'
    | (Some e, fin) => refusal (settings_of by_two) [one; two; three] e ∧ (∃ n, fin = (n, None, Some e)) ∧ core_failed (is_core s') = Some e ∧ orderly calls'
    end) fresh [].
Proof.
  split; [reflexivity|]. apply (sink_ships_all by_two fresh [one; two; three]). reflexivity.
Defined.
Lemma unknown_keys_exact_witness :
  runs (X := list bool) (add_all [one; two; three]) (λ o s' _, o = None → let known := keys_of (take 2 [one; two; three]) in let (names, n) := UnknownKeys s' in
    n = Z.of_nat (length (filter (foreign known) [one; two; three])) ∧ StronglySorted String.le names ∧ NoDup names ∧ tracks (list_to_set names) (keys_of [one; two; three] ∖ known)) fresh [].
Proof. apply (unknown_keys_exact by_two fresh [one; two; three]); reflexivity. Defined.
Example strings_of_the_sample :
  calls_of (string_feed [one; two; three] (NewStringSink (settings_of by_two), MkSinkWorld [] [])) =
  let sch := [MkArrowField "id" TString true; MkArrowField "price" TString true] in
  [Opened None; Wrote (MkBatch sch [[CString "1"; CString "2"]; [CString "2"; CString "1.5"]]) None; Wrote (MkBatch sch [[CNull]; [CNull]]) None; Closed (Ok (MkCloseResult 0 0 0))].
Proof. reflexivity. Qed.
Lemma inferred_types_least_witness : let p := planFromBatch [one; two] in
  inferTypesFromBatch p [one; two] = [TInt64; TFloat64] ∧
  ∀ t', t' ∈ inferrable → (∀ rec, rec ∈ [one; two] → valueFitsArrowType (cp_extract p rec 1) t' = true) ↔ type_le TFloat64 t'.
Proof.
  split; [reflexivity|]. destruct (inferred_types_least [one; two] (planFromBatch [one; two])) as (_ & H & _).
  assert (length (cp_names (planFromBatch [one; two])) = 2%nat) as Hlen by (by vm_compute). assert (inferTypesFromBatch (planFromBatch [one; two]) [one; two] !! 1%nat = Some TFloat64) as Hty by (by vm_compute).
  destruct (H 1%nat) as (t & Ht & _ & _ & Hl); [rewrite Hlen; lia|]. rewrite Hty in Ht. injection Ht as <-. apply Hl.
  intros Hn. assert (cp_extract (planFromBatch [one; two]) one 1 = JNumber "2") as E by (by vm_compute). specialize (Hn one (list_elem_of_here _ _)). congruence.
Defined.
(** A sample without keys gives a sink without columns: its batches hold no row,
    whatever the records have, and Finish counts them all the same. *)
Example no_columns_no_rows :
  let run := feed [[]; []; one] (fresh, MkSinkWorld [] []) in
  answer_of run = Some (None, (3%Z, Some (MkCloseResult 0 0 0), None)) ∧
  calls_of run = [Opened None; Wrote (MkBatch [] []) None; Wrote (MkBatch [] []) None; Closed (Ok (MkCloseResult 0 0 0))].
Proof. split; reflexivity. Qed.

(** A sink that has failed on its second batch. *)
Definition failed_core : Sink := set_failed (Some (WriteError "broken pipe")) (set_builder None (set_writer (NewSink [] 2))).
Definition failed_sink : InferringSink := is_set_core (Some failed_core) fresh.
Lemma sink_failure_final_witness :
  core_failed (is_core failed_sink) = Some (WriteError "broken pipe") ∧
  runs (X := list bool) (run_calls [DoFinish; DoAdd one; DoFinish]) (λ es s' calls', es = replicate 3 (Some (WriteError "broken pipe")) ∧ core_failed (is_core s') = Some (WriteError "broken pipe") ∧
    (calls' = [Opened None] ∨ ∃ r, calls' = [Opened None] ++ [Closed r])) failed_sink [Opened None].
Proof. split; [reflexivity|]. apply (sink_failure_final [DoFinish; DoAdd one; DoFinish] failed_sink [Opened None] (WriteError "broken pipe")). reflexivity. Defined.

(** A Finish whose own batch is refused leaves the writer open: only a second Finish
    closes it. *)
Example finish_leaves_writer_open :
  let batch := MkBatch [MkArrowField "id" TInt64 true; MkArrowField "price" TInt64 true] [[CInt 1]; [CInt 2]] in
  let refused := [Opened None; Wrote batch (Some "broken pipe")] in
  let w := MkSinkWorld [true; false] [] in
  answer_of (feed [one] (fresh, w)) = Some (None, (1%Z, None, Some (WriteError "failed to write IPC batch: broken pipe"))) ∧
  calls_of (feed [one] (fresh, w)) = refused ∧
  calls_of ((_ ← feed [one]; InferringSink_Finish) (fresh, w)) = refused ++ [Closed (Ok (MkCloseResult 0 0 0))].
Proof. split_and!; reflexivity. Qed.
(** A whole float64 beyond the int64 is taken for an integer: its cell is whatever
    the conversion gives. *)
Example huge_float_is_an_int :
  let huge := JFloat (S754_finite false 1 70) in
  classifyValue huge = kindInt ∧ valueFitsArrowType huge TInt64 = true ∧ cell_of TInt64 huge = Some (CInt (- 2 ^ 63)).
Proof. split_and!; reflexivity. Qed.
End SinkExamples.
