(* ===== verification/RunJobs.v ===== *)
(** * RunJobs: the objects a run creates (pkg/k8s/controllers/pipelinerun_jobs.go)

    The names of the per-run objects, the gateway configuration and the Job
    with its gateway sidecar and component container, as [buildComponentJob]
    builds them; [iterTagFromImage] of iter_tag.go and the pull policies of
    pipelinerun_controller.go.  Parameters: the YAML encoder and the type of
    tolerations, which are only passed on. *)

From S2P Require Import Prelude GoValue ApiTypes GoTime Policy ConfigSchema Status RunTypes.

(** ** strings.Index and strings.LastIndex ([None] is -1) *)

Fixpoint str_index (sub s : string) : option nat :=
  if has_prefix sub s then Some O
  else match s with EmptyString => None | String _ s => S <$> str_index sub s end.

Fixpoint str_last_index (sub s : string) : option nat :=
  match match s with EmptyString => None | String _ s => S <$> str_last_index sub s end with
  | Some n => Some n
  | None => if has_prefix sub s then Some O else None
  end.

Definition iterTagFromImage (img : string) : string :=
  let img := match str_index "@" img with Some at_ => str_take at_ img | None => img end in
  let img :=
    match str_last_index ":" img, str_last_index "/" img with
    | Some colon, Some slash => if (slash <? colon)%nat then str_take colon img else img
    | Some colon, None => str_take colon img
    | None, _ => img
    end in
  match str_last_index "-iter-" img with
  | Some i => str_drop (i + slen "-iter-") img
  | None => EmptyString
  end.

(** ** Kubernetes objects: the fields the operator sets *)

Class K8sTypes : Type := { Toleration : Type }.
(** [yaml.Marshal] of gopkg.in/yaml.v3 on a [map[string]any]. *)
Class YamlMarshal : Type := { yaml_Marshal : gomap value → result string string }.

Inductive EnvVar : Type :=
| EnvValue (name value : string)
| EnvFieldRef (name fieldPath : string).

Record VolumeMount := MkVolumeMount {
  vm_Name : string;
  vm_MountPath : string;
  vm_ReadOnly : bool;
}.

Inductive VolumeSource : Type :=
| ConfigMapSource (name : string)
| SecretSource (secretName : string) (optional : bool) (defaultMode : Z) (items : list (string * string))
| DownwardAPISource (items : list (string * string)).
Record Volume := MkVolume { vol_Name : string; vol_Source : VolumeSource }.

Record SecurityContext := MkSecurityContext {
  sc_AllowPrivilegeEscalation : option bool;
  sc_CapabilitiesDrop : list string;
  sc_SeccompProfile : option string;
  sc_RunAsNonRoot : option bool;
  sc_RunAsUser : option Z;
  sc_RunAsGroup : option Z;
}.
Definition empty_security_context : SecurityContext := MkSecurityContext None [] None None None None.

Section Objects.
Context `{UT : !UnicodeTables} `{Q : !Quantities} `{J : !Json} `{KT : !K8sTypes}.

Record Container := MkContainer {
  ct_Name : string;
  ct_Image : string;
  ct_ImagePullPolicy : string;
  ct_Args : list string;
  ct_Env : list EnvVar;
  ct_RestartPolicy : option string;
  ct_Ports : list Z;
  ct_VolumeMounts : list VolumeMount;
  ct_SecurityContext : option SecurityContext;
  ct_Resources : ResourceRequirements;
}.

Record PodSpec := MkPodSpec {
  ps_RestartPolicy : string;
  ps_Tolerations : list Toleration;
  ps_InitContainers : list Container;
  ps_Containers : list Container;
  ps_Volumes : list Volume;
  ps_FSGroup : option Z;  (** [SecurityContext.FSGroup] *)
  ps_AutomountServiceAccountToken : option bool;
}.

Record Job := MkJob {
  j_Name : string;
  j_Namespace : string;
  j_Labels : list (string * string);
  j_BackoffLimit : Z;
  j_TTLSecondsAfterFinished : Z;
  j_PodLabels : list (string * string);
  j_PodSpec : PodSpec;
}.

Record ConfigMapObject := MkConfigMapObject {
  cm_Name : string;
  cm_Namespace : string;
  cm_Labels : list (string * string);
  cm_Data : list (string * string);
}.

(** The configuration of [PipelineRunReconciler] that the builders read. *)
Record Reconciler := MkReconciler {
  r_GatewayImage : string;
  r_LakekeeperURL : string;
  r_PipelineAPIURL : string;
  r_HasClientset : bool;
  r_RuntimeTolerations : list Toleration;
  r_GatewayDebug : bool;
  r_GatewayProfilingEnabled : bool;
  r_GatewayProfilingServerAddress : string;
  r_GatewayProfilingUsername : string;
  r_GatewayProfilingPassword : string;
  r_RuntimePullPolicy : string;
}.

(** ** Pull policies *)

Definition componentPullPolicy (version : string) : string :=
  if IsStableVersion version then "IfNotPresent" else "Always".
Definition componentImagePullPolicy (r : Reconciler) (version : string) : string :=
  if negb (str_empty (r_RuntimePullPolicy r)) then r_RuntimePullPolicy r
  else componentPullPolicy version.
Definition runtimePullPolicy (r : Reconciler) : string :=
  if negb (str_empty (r_RuntimePullPolicy r)) then r_RuntimePullPolicy r else "Always".

(** ** Names *)

Definition PipelineRunDefaultGatewayImage : string := "datuplet/gateway:latest".
Definition PipelineRunGatewayPort : Z := 50051.
Definition JobTTLSecondsAfterFinished : Z := 3600.

Definition shortID (id : string) : string := if (slen id <? 8)%nat then id else str_take 8 id.

Definition componentJobName (pr : PipelineRun) (stageName componentName : string) : string :=
  "datuplet-" +:+ str_take (Nat.min 15 (slen (pr_Name pr))) (pr_Name pr) +:+ "-" +:+
  str_take (Nat.min 10 (slen stageName)) stageName +:+ "-" +:+
  str_take (Nat.min 10 (slen componentName)) componentName +:+ "-" +:+
  shortID (s_RunID (pr_Status pr)).

Definition runSecretsName (pr : PipelineRun) : string :=
  "datuplet-runsecrets-" +:+ shortID (s_RunID (pr_Status pr)).

(** ** Mounts on the gateway sidecar *)

Definition secretsMountFSGroup : Z := 65532.
Definition secretsMountPath : string := "/var/run/secrets/datuplet".
Definition runTokenMountPath : string := "/var/run/secrets/datuplet-runtoken".
Definition runTokenKey : string := "token".
Definition cancelAnnotationVolume : string := "podinfo".
Definition cancelAnnotationMountPath : string := "/etc/podinfo".
Definition cancelAnnotationFile : string := "annotations".

(** The container is the pod's first init container, passed by pointer: its
    changes are changes of the pod spec. *)
Definition on_gateway (f : Container → Container) (p : PodSpec) : PodSpec :=
  MkPodSpec (ps_RestartPolicy p) (ps_Tolerations p) (alter f 0 (ps_InitContainers p))
    (ps_Containers p) (ps_Volumes p) (ps_FSGroup p) (ps_AutomountServiceAccountToken p).
Definition add_volume (v : Volume) (p : PodSpec) : PodSpec :=
  MkPodSpec (ps_RestartPolicy p) (ps_Tolerations p) (ps_InitContainers p) (ps_Containers p)
    (ps_Volumes p ++ [v]) (ps_FSGroup p) (ps_AutomountServiceAccountToken p).
Definition default_fs_group (p : PodSpec) : PodSpec :=
  MkPodSpec (ps_RestartPolicy p) (ps_Tolerations p) (ps_InitContainers p) (ps_Containers p)
    (ps_Volumes p) (Some (default secretsMountFSGroup (ps_FSGroup p)))
    (ps_AutomountServiceAccountToken p).
Definition set_automount (b : bool) (p : PodSpec) : PodSpec :=
  MkPodSpec (ps_RestartPolicy p) (ps_Tolerations p) (ps_InitContainers p) (ps_Containers p)
    (ps_Volumes p) (ps_FSGroup p) (Some b).

Definition add_mount (m : VolumeMount) (c : Container) : Container :=
  MkContainer (ct_Name c) (ct_Image c) (ct_ImagePullPolicy c) (ct_Args c) (ct_Env c)
    (ct_RestartPolicy c) (ct_Ports c) (ct_VolumeMounts c ++ [m]) (ct_SecurityContext c) (ct_Resources c).
(** The fields of the sidecar's SecurityContext that are still nil. *)
Definition default_security (c : Container) : Container :=
  let sc := default empty_security_context (ct_SecurityContext c) in
  MkContainer (ct_Name c) (ct_Image c) (ct_ImagePullPolicy c) (ct_Args c) (ct_Env c)
    (ct_RestartPolicy c) (ct_Ports c) (ct_VolumeMounts c)
    (Some (MkSecurityContext (sc_AllowPrivilegeEscalation sc) (sc_CapabilitiesDrop sc)
       (sc_SeccompProfile sc) (Some (default true (sc_RunAsNonRoot sc)))
       (Some (default 65532%Z (sc_RunAsUser sc))) (Some (default 65532%Z (sc_RunAsGroup sc)))))
    (ct_Resources c).

Definition applySecretsMount (pr : PipelineRun) (pipeline : Pipeline) (p : PodSpec) : PodSpec :=
  match ReferencedSecrets (Some pipeline) with
  | [] => p
  | _ =>
    let p := default_fs_group p in
    let p := add_volume (MkVolume "datuplet-secrets" (SecretSource (runSecretsName pr) false 288 [])) p in
    let p := on_gateway (add_mount (MkVolumeMount "datuplet-secrets" secretsMountPath true)) p in
    on_gateway default_security p
  end.

Definition applyRunTokenMount (pr : PipelineRun) (p : PodSpec) : PodSpec :=
  match rs_RunTokenRef (pr_Spec pr) with
  | None => p
  | Some ref =>
    let p := default_fs_group p in
    let p := add_volume (MkVolume "datuplet-runtoken"
               (SecretSource ref false 288 [(runTokenKey, runTokenKey)])) p in
    let p := on_gateway (add_mount (MkVolumeMount "datuplet-runtoken" runTokenMountPath true)) p in
    on_gateway default_security p
  end.

Definition applyCancelAnnotationMount (p : PodSpec) : PodSpec :=
  let p := add_volume (MkVolume cancelAnnotationVolume
             (DownwardAPISource [(cancelAnnotationFile, "metadata.annotations")])) p in
  on_gateway (add_mount (MkVolumeMount cancelAnnotationVolume cancelAnnotationMountPath true)) p.

(** ** Environment of the containers *)

Definition env_if (b : bool) (env : list EnvVar) : list EnvVar := if b then env else [].
Definition profiling_on (r : Reconciler) : bool :=
  r_GatewayProfilingEnabled r && negb (str_empty (r_GatewayProfilingServerAddress r)).
(** The Basic Auth variables. *)
Definition pyroscope_auth (r : Reconciler) : list EnvVar :=
  env_if (negb (str_empty (r_GatewayProfilingUsername r)))
    [EnvValue "PYROSCOPE_USERNAME" (r_GatewayProfilingUsername r)] ++
  env_if (negb (str_empty (r_GatewayProfilingPassword r)))
    [EnvValue "PYROSCOPE_PASSWORD" (r_GatewayProfilingPassword r)].
Definition iteration_env (r : Reconciler) : list EnvVar :=
  env_if (negb (str_empty (iterTagFromImage (r_GatewayImage r))))
    [EnvValue "DATUPLET_ITERATION_ID" (iterTagFromImage (r_GatewayImage r))].

Definition buildGatewaySidecarEnv (r : Reconciler) (pr : PipelineRun) : list EnvVar :=
  [EnvValue "RUN_ID" (s_RunID (pr_Status pr))] ++
  env_if (r_GatewayDebug r) [EnvValue "DATUPLET_GATEWAY_DEBUG" "true"] ++
  env_if (profiling_on r)
    ([EnvValue "DATUPLET_GATEWAY_PROFILING" "true";
      EnvValue "PYROSCOPE_SERVER_ADDRESS" (r_GatewayProfilingServerAddress r);
      EnvFieldRef "POD_NAMESPACE" "metadata.namespace"] ++ pyroscope_auth r) ++
  iteration_env r.

Definition component_env (r : Reconciler) (pr : PipelineRun) : list EnvVar :=
  [EnvValue "DATUPLET_GATEWAY_ADDR" ("127.0.0.1:" +:+ itoa PipelineRunGatewayPort);
   EnvValue "RUN_ID" (s_RunID (pr_Status pr))] ++
  env_if (profiling_on r)
    ([EnvValue "DATUPLET_COMPONENT_PROFILING" "true";
      EnvValue "PYROSCOPE_SERVER_ADDRESS" (r_GatewayProfilingServerAddress r);
      EnvFieldRef "POD_NAMESPACE" "metadata.namespace"] ++ pyroscope_auth r ++ iteration_env r).

(** ** The gateway configuration *)

Definition num (z : Z) : value := VNum (itoa z).
Definition strs (l : list string) : value := VArr (map VStr l).
(** [m[key] = v] under a condition, for a key not yet set. *)
Definition entry_if (b : bool) (key : string) (v : value) : gomap value := if b then [(key, v)] else [].
Definition or_default (z d : Z) : Z := if (z =? 0)%Z then d else z.

(** One append of the bucket loops: [bucket] unless empty or already seen. *)
Definition add_bucket (st : list string * gset string) (bucket : string) : list string * gset string :=
  if negb (str_empty bucket) && negb (bool_decide (bucket ∈ st.2))
  then (st.1 ++ [bucket], {[bucket]} ∪ st.2) else st.

Definition inputBuckets (inputs : option InputSpec) : list string :=
  match inputs with
  | None => []
  | Some i => (foldl add_bucket (foldl add_bucket ([], ∅) (in_Buckets i)) (map it_Bucket (in_Tables i))).1
  end.

Definition outputBuckets (outputs : option OutputSpec) : list string :=
  match outputs with
  | None => []
  | Some o =>
    (foldl add_bucket (foldl add_bucket (add_bucket ([], ∅) (o_DefaultBucket o))
       (map ob_Name (o_Buckets o))) (map ot_Bucket (o_Tables o))).1
  end.

(** [time.UnixMilli] of a time in nanoseconds. *)
Definition unix_milli (t : Z) : Z := (t / 1000000)%Z.
Definition nanos_per_hour : Z := 3600000000000.
(** [now - since], for [sinceDays] and for [since]. *)
Definition days_cutoff (now days : Z) : Z :=
  unix_milli (now + wrap64 (wrap64 (wrap64 (- days) * 24) * nanos_per_hour)).
Definition since_cutoff (now d : Z) : Z := unix_milli (now + wrap64 (- d)).

(** The incremental-read entries of an input table. *)
Definition since_entries (now : Z) (t : InputTableSpec) : gomap value :=
  let column := entry_if (negb (str_empty (it_TimestampColumn t)))
                  "timestamp_column" (VStr (it_TimestampColumn t)) in
  let other :=
    if negb (str_empty (it_Since t)) then
      match parseSinceDuration (it_Since t) with
      | Err _ => []
      | Ok d => ("since_timestamp_ms", num (since_cutoff now d)) :: column
      end
    else match it_SinceSnapshot t with
         | Some snap => [("since_snapshot", num snap)]
         | None => []
         end in
  match it_SinceDays t with
  | Some days =>
    if (0 <? days)%Z then ("since_timestamp_ms", num (days_cutoff now days)) :: column else other
  | None => other
  end.

Definition input_table_entry (now : Z) (t : InputTableSpec) : list value :=
  if negb (str_empty (it_Bucket t)) && negb (str_empty (it_Table t)) then
    [VObj ([("bucket", VStr (it_Bucket t)); ("table", VStr (it_Table t))] ++
           entry_if (negb (str_empty (it_LogicalName t))) "as" (VStr (it_LogicalName t)) ++
           since_entries now t)]
  else [].

Definition output_table_entry (t : OutputTableSpec) : list value :=
  if negb (str_empty (ot_Bucket t)) && negb (str_empty (ot_Name t)) then
    let writeMode := if str_empty (ot_WriteMode t) then "APPEND" else ot_WriteMode t in
    [VObj ([("name", VStr (ot_Name t)); ("bucket", VStr (ot_Bucket t)); ("write_mode", VStr writeMode)] ++
      entry_if (negb (str_empty (ot_LogicalName t))) "logical_name" (VStr (ot_LogicalName t)) ++
      entry_if (negb (is_empty (ot_PartitionFields t))) "partition_fields"
        (VArr (map (λ pf, VObj [("source_column", VStr (pf_SourceColumn pf));
                                ("transform", VStr (pf_Transform pf))]) (ot_PartitionFields t))) ++
      entry_if (negb (is_empty (ot_Columns t))) "columns"
        (VArr (map (λ c, VObj [("name", VStr (col_Name c)); ("type", VStr (col_Type c))])
           (ot_Columns t))))]
  else [].

Definition processor_entry (p : ProcessorSpec) : value :=
  VObj (("type", VStr (proc_Type p)) ::
        entry_if (negb (is_empty (proc_Columns p))) "columns" (strs (proc_Columns p))).

Definition component_section (config : gomap value) (outputs : option OutputSpec) : gomap value :=
  entry_if (negb (is_empty config)) "config" (VObj config) ++
  match outputs with
  | Some o => entry_if (negb (is_empty (o_Processors o))) "outputs"
                (VObj [("processors", VArr (map processor_entry (o_Processors o)))])
  | None => []
  end.

(** The map that is marshalled, for the decoded component config. *)
Definition gateway_config_map (r : Reconciler) (pr : PipelineRun) (pipeline : Pipeline)
    (comp : ComponentSpec) (config : gomap value) (now : Z) : gomap value :=
  let gw := ps_Gateway (p_Spec pipeline) in
  let bufferSize := or_default (gw_BufferSize gw) 67108864 in
  let ins := inputBuckets (c_Inputs comp) in
  let outs := outputBuckets (c_Outputs comp) in
  let inputTables :=
    match c_Inputs comp with Some i => flat_map (input_table_entry now) (in_Tables i) | None => [] end in
  let outputTables :=
    match c_Outputs comp with Some o => flat_map output_table_entry (o_Tables o) | None => [] end in
  let component := component_section config (c_Outputs comp) in
  [("mode", VStr "minio"); ("run_id", VStr (s_RunID (pr_Status pr)))] ++
  match rs_Preview (pr_Spec pr) with
  | Some p => [("preview", VObj [("id", VStr (pv_ID p)); ("row_limit", num (pv_RowLimit p))])]
  | None => []
  end ++
  entry_if (negb (is_empty ins)) "input_buckets" (strs ins) ++
  entry_if (negb (is_empty outs)) "output_buckets" (strs outs) ++
  entry_if (negb (is_empty inputTables)) "input_tables" (VArr inputTables) ++
  entry_if (negb (is_empty outputTables)) "output_tables" (VArr outputTables) ++
  match c_Outputs comp with
  | Some o =>
    if str_empty (o_DefaultBucket o) then []
    else [("default_bucket", VStr (o_DefaultBucket o));
          ("default_write_mode", VStr (if str_empty (o_DefaultWriteMode o) then "FULL_LOAD"
                                       else o_DefaultWriteMode o))]
  | None => []
  end ++
  [("gateway", VObj [
      ("chunk_size", num (or_default (gw_ChunkSize gw) 33554432));
      ("buffer_size", num bufferSize);
      ("row_group_size", num (or_default (gw_RowGroupSize gw) bufferSize));
      ("target_file_size", num (or_default (gw_TargetFileSize gw) 134217728))])] ++
  entry_if (negb (is_empty component)) "component" (VObj component) ++
  entry_if (negb (is_empty (ReferencedSecrets (Some pipeline)))) "secrets_dir" (VStr secretsMountPath) ++
  if str_empty (r_LakekeeperURL r) then []
  else ("lakekeeper_url", VStr (r_LakekeeperURL r)) ::
       entry_if (negb (str_empty (r_PipelineAPIURL r))) "pipeline_api_jwks_url"
         (VStr (default (r_PipelineAPIURL r) (cut_suffix_byte "/"%char (r_PipelineAPIURL r)) +:+
                "/api/v1/auth/jwks.json")).

Definition nl : string := String newline_byte EmptyString.
(** What is returned when marshalling fails. *)
Definition fallback_config (r : Reconciler) (pr : PipelineRun) (pipeline : Pipeline) : string :=
  let gw := ps_Gateway (p_Spec pipeline) in
  let bufferSize := or_default (gw_BufferSize gw) 67108864 in
  "mode: minio" +:+ nl +:+ "run_id: " +:+ s_RunID (pr_Status pr) +:+ nl +:+
  "lakekeeper_url: " +:+ r_LakekeeperURL r +:+ nl +:+ "gateway:" +:+ nl +:+
  "  chunk_size: " +:+ itoa (or_default (gw_ChunkSize gw) 33554432) +:+ nl +:+
  "  buffer_size: " +:+ itoa bufferSize +:+ nl +:+
  "  row_group_size: " +:+ itoa (or_default (gw_RowGroupSize gw) bufferSize) +:+ nl +:+
  "  target_file_size: " +:+ itoa (or_default (gw_TargetFileSize gw) 134217728) +:+ nl.

Context `{YM : !YamlMarshal}.

Definition generateGatewayConfig (r : Reconciler) (pr : PipelineRun) (pipeline : Pipeline)
    (comp : ComponentSpec) (now : Z) : result string string :=
  config ← ConfigMap comp;
  match yaml_Marshal (gateway_config_map r pr pipeline comp (default [] config) now) with
  | Ok text => Ok text
  | Err _ => Ok (fallback_config r pr pipeline)
  end.

(** ** The Job *)

(** The stage of the component: the last one that has a component of its name
    (the break leaves the inner loop only). *)
Definition has_component (name : string) (stage : StageSpec) : bool :=
  existsb (λ c, bool_decide (c_Name c = name)) (st_Components stage).
Definition stage_of (stages : list StageSpec) (name : string) : option StageSpec :=
  find (has_component name) (rev stages).

Definition find_resolved (components : list ResolvedComponentStatus) (name : string)
    : option ResolvedComponentStatus :=
  find (λ rc, bool_decide (rcs_Name rc = name)) components.

(** The Pipeline the frozen spec is wrapped as. *)
Definition frozen_pipeline (spec : PipelineSpec) : Pipeline := MkPipeline EmptyString EmptyString 0 spec.

Definition gateway_args : list string :=
  ["--minio"; "--config"; "/config/gateway.yaml"; "--addr"; ":" +:+ itoa PipelineRunGatewayPort;
   "--run-token-path"; runTokenMountPath +:+ "/" +:+ runTokenKey;
   "--pod-annotations-path"; cancelAnnotationMountPath +:+ "/" +:+ cancelAnnotationFile].

Definition gateway_container (r : Reconciler) (pr : PipelineRun) : Container :=
  MkContainer "gateway"
    (if str_empty (r_GatewayImage r) then PipelineRunDefaultGatewayImage else r_GatewayImage r)
    (runtimePullPolicy r) gateway_args (buildGatewaySidecarEnv r pr) (Some "Always")
    [PipelineRunGatewayPort] [MkVolumeMount "gateway-config" "/config" true] None
    (MkResourceRequirements [] []).

Definition component_container (r : Reconciler) (pr : PipelineRun) (comp : ComponentSpec)
    (rc : ResolvedComponentStatus) : Container :=
  MkContainer "component" (rcs_Image rc) (componentImagePullPolicy r (rcs_Version rc)) []
    (component_env r pr) None [] []
    (Some (MkSecurityContext (Some false) ["ALL"] (Some "RuntimeDefault") None None None))
    (default (MkResourceRequirements [] []) (c_Resources comp)).

Definition base_pod (r : Reconciler) (pr : PipelineRun) (comp : ComponentSpec)
    (rc : ResolvedComponentStatus) (configMapName : string) : PodSpec :=
  MkPodSpec "Never" (r_RuntimeTolerations r) [gateway_container r pr]
    [component_container r pr comp rc] [MkVolume "gateway-config" (ConfigMapSource configMapName)]
    None None.

Definition run_labels (pr : PipelineRun) (comp : ComponentSpec) : list (string * string) :=
  [("datuplet.io/component", c_Name comp); ("datuplet.io/run-id", s_RunID (pr_Status pr))].

Definition buildComponentJob (r : Reconciler) (pr : PipelineRun) (comp : ComponentSpec) (now : Z)
    : result string (Job * ConfigMapObject) :=
  match s_ResolvedSpec (pr_Status pr) with
  | None => Err "nil resolvedSpec"  (* a nil dereference; no caller gets here *)
  | Some spec =>
    let frozen := frozen_pipeline spec in
    match stage_of (ps_Stages spec) (c_Name comp) with
    | None => Err "component not found in resolved spec"
    | Some stage =>
      match find_resolved (s_Components (pr_Status pr)) (c_Name comp) with
      | None => Err ("component " +:+ quote (c_Name comp) +:+ " not found in resolved components")
      | Some rc =>
        let jobName := componentJobName pr (st_Name stage) (c_Name comp) in
        let configMapName := "gateway-config-" +:+ jobName in
        match generateGatewayConfig r pr frozen comp now with
        | Err e => Err ("component " +:+ quote (c_Name comp) +:+ ": " +:+ e)
        | Ok gatewayConfig =>
          let configMap := MkConfigMapObject configMapName (pr_Namespace pr)
            [("app.kubernetes.io/component", "gateway-config");
             ("app.kubernetes.io/part-of", "datuplet");
             ("datuplet.io/run-id", s_RunID (pr_Status pr))]
            [("gateway.yaml", gatewayConfig)] in
          let pod := base_pod r pr comp rc configMapName in
          let pod := applySecretsMount pr frozen pod in
          let pod := applyRunTokenMount pr pod in
          let pod := applyCancelAnnotationMount pod in
          let pod := set_automount false pod in
          Ok (MkJob jobName (pr_Namespace pr)
                ([("app.kubernetes.io/component", "component");
                  ("app.kubernetes.io/part-of", "datuplet")] ++ run_labels pr comp)
                (match rs_Preview (pr_Spec pr) with Some _ => 0 | None => 1 end)
                JobTTLSecondsAfterFinished
                ([("app.kubernetes.io/component", "component")] ++ run_labels pr comp) pod,
              configMap)
        end
      end
    end
  end.
End Objects.
