(* ===== verification/RunController.v ===== *)
(** * RunController: the PipelineRun reconciler (pkg/k8s/controllers)

    [Reconcile] of pipelinerun_controller.go with everything it calls in
    pipelinerun_controller.go and pipelinerun_status.go: admission
    ([handlePending]), secret snapshots, stage execution ([handleRunning],
    [startStage], [checkStageComponents]), the preview deadline and cancel
    propagation.  The cluster is an explicit state; every API call may fail, as
    a fault plan says.  An early return of the Go code is an [Exit] of the
    monad. *)

From S2P Require Import Prelude GoValue ApiTypes GoTime Policy Registry ConfigSchema Validate Status RunTypes RunJobs.

(** ** Parameters: uuid.Parse and meta.SetStatusCondition *)

Class ControllerLib : Type := {
  uuid_Parse : string → bool;
  SetStatusCondition : list Condition → Condition → list Condition;
}.

(** What an API read returns: [None] is NotFound. *)
Definition get_result (A : Type) : Type := result string (option A).

(** ** Constants *)

Definition ProjectSecretsName : string := "datuplet-project-secrets".
Definition second : Z := 1000000000.
Definition PipelineRunRequeueInterval : Z := 5 * second.
Definition admissionTransientRetryBudget : nat := 5.
Definition admissionTransientRetryInterval : Z := 2 * second.
Definition severityTransient : string := "transient".

(** ** Findings at admission *)

Definition nonResourceFindings (findings : list Finding) : list Finding :=
  filter (λ f, contains ".resources" (f_Path f) && negb (contains ".config" (f_Path f)) = false) findings.
Definition firstErrorFinding (findings : list Finding) : option Finding :=
  find (λ f, bool_decide (f_Severity f = "error")) findings.
Definition firstTransientFinding (findings : list Finding) : option Finding :=
  find (λ f, bool_decide (f_Severity f = severityTransient)) findings.

Definition componentTerminal (p : ComponentPhase) : bool :=
  match p with
  | ComponentPhaseSucceeded | ComponentPhaseFailedUser | ComponentPhaseFailedApplication => true
  | _ => false
  end.

(** ** Pods *)

Record ContainerStatus := MkContainerStatus {
  cst_Name : string;
  cst_ImageID : string;
  cst_Terminated : option Z;  (** the exit code *)
}.
Record Pod := MkPod {
  pod_Name : string;
  pod_JobName : string;
  pod_RunID : string;
  pod_Cancel : bool;
  pod_ContainerStatuses : list ContainerStatus;
  pod_InitContainerStatuses : list ContainerStatus;
  pod_Logs : string;  (** of the component container *)
}.

Definition terminated (containerName : string) (l : list ContainerStatus) : option Z :=
  c ← find (λ cs, bool_decide (cst_Name cs = containerName) &&
                  match cst_Terminated cs with Some _ => true | None => false end) l;
  cst_Terminated c.
Definition extractExitCodeFromPod (pod : Pod) (containerName : string) : option Z :=
  match terminated containerName (pod_ContainerStatuses pod) with
  | Some code => Some code
  | None => terminated containerName (pod_InitContainerStatuses pod)
  end.
Definition extractImageIDFromPod (pod : Pod) (containerName : string) : string :=
  match find (λ cs, bool_decide (cst_Name cs = containerName)) (pod_ContainerStatuses pod) with
  | Some cs => cst_ImageID cs
  | None => EmptyString
  end.

(** The first entry of the component without an image ID gets [imageID]. *)
Fixpoint record_image (name imageID : string) (l : list ResolvedComponentStatus)
    : list ResolvedComponentStatus :=
  match l with
  | [] => []
  | rc :: l =>
    if bool_decide (rcs_Name rc = name) && str_empty (rcs_ImageID rc)
    then MkResolvedComponentStatus (rcs_Name rc) (rcs_Component rc) (rcs_Version rc) (rcs_Image rc)
           imageID :: l
    else rc :: record_image name imageID l
  end.
Definition recordComponentImageID (name imageID : string) (l : list ResolvedComponentStatus)
    : list ResolvedComponentStatus :=
  if str_empty imageID then l else record_image name imageID l.

(** [(ctrl.Result, error)], or a panic. *)
Inductive outcome : Type :=
| Done
| RequeueAfter (d : Z)
| Error (e : string)
| Panicked.

(** What a step of the reconcile does: go on, or return. *)
Inductive step_result (A : Type) : Type :=
| Continue (a : A)
| Exit (o : outcome).
Arguments Continue {A} a.
Arguments Exit {A} o.

Section Controller.
Context `{UT : !UnicodeTables} `{Q : !Quantities} `{J : !Json} `{JS : !JsonSchema} `{TR : !Transforms}
  `{KT : !K8sTypes} `{YM : !YamlMarshal} `{CL : !ControllerLib}.

(** ** ComponentRegistry: resolution against the cluster *)

(** The cluster-scoped Gets of ComponentDefinitions. *)
Definition ComponentRegistry : Type := string → get_result ComponentDefinition.
#[export] Instance ComponentRegistry_Resolve : RegistryView ComponentRegistry := λ cr component version,
  match cr component with
  | Err e => (None, [MkFinding "component" ("component " +:+ quote component +:+ ": " +:+ e) severityTransient])
  | Ok None => (None, [MkFinding "component" ("unknown component " +:+ quote component) "error"])
  | Ok (Some def) => Resolve ({[component := def]} : StaticRegistry) component version
  end.

(** ** The cluster *)

Inductive JobConditionType : Type := JobComplete | JobFailed | JobConditionOther (s : string).
Record JobCondition := MkJobCondition {
  jc_Type : JobConditionType;
  jc_Status : bool;  (** ConditionTrue *)
  jc_Message : string;
}.
Record JobObject := MkJobObject { jo_Job : Job; jo_Conditions : list JobCondition }.
Record SecretObject := MkSecretObject {
  sec_Labels : list (string * string);
  sec_Data : gmap string string;
}.

(** One run, the objects of its namespace, and the operator's memory of it.
    [w_calls] counts the API calls of the reconcile in progress. *)
Record World := MkWorld {
  w_run : option PipelineRun;
  w_jobs : gmap string JobObject;
  w_configmaps : gmap string ConfigMapObject;
  w_secrets : gmap string SecretObject;
  w_pods : list Pod;
  w_transientRetries : nat;
  w_notFoundRetries : nat;
  w_calls : nat;
}.

(** What one reconcile finds: the clock, a fresh UUID, the fault (an error
    text) of its n-th API call, the cached Pipeline, and the registry as the
    validation and as the resolve loop read it. *)
Record Env := MkEnv {
  e_now : Z;
  e_uuid : string;
  e_fault : nat → option string;
  e_pipeline : string → get_result Pipeline;
  e_registry : ComponentRegistry;
  e_registry_resolve : ComponentRegistry;
}.

(** ** The monad *)

Definition M (A : Type) : Type := World → World * step_result A.
#[export] Instance M_ret : MRet M := λ A a w, (w, Continue a).
#[export] Instance M_bind : MBind M := λ A B f m w,
  match m w with
  | (w, Continue a) => f a w
  | (w, Exit o) => (w, Exit o)
  end.
Definition exit {A} (o : outcome) : M A := λ w, (w, Exit o).
Definition get_world : M World := λ w, (w, Continue w).
Definition modify (f : World → World) : M () := λ w, (f w, Continue ()).

Definition w_set_run (v : option PipelineRun) (w : World) : World :=
  MkWorld v (w_jobs w) (w_configmaps w) (w_secrets w) (w_pods w) (w_transientRetries w) (w_notFoundRetries w) (w_calls w).
Definition w_set_jobs (v : gmap string JobObject) (w : World) : World :=
  MkWorld (w_run w) v (w_configmaps w) (w_secrets w) (w_pods w) (w_transientRetries w) (w_notFoundRetries w) (w_calls w).
Definition w_set_configmaps (v : gmap string ConfigMapObject) (w : World) : World :=
  MkWorld (w_run w) (w_jobs w) v (w_secrets w) (w_pods w) (w_transientRetries w) (w_notFoundRetries w) (w_calls w).
Definition w_set_secrets (v : gmap string SecretObject) (w : World) : World :=
  MkWorld (w_run w) (w_jobs w) (w_configmaps w) v (w_pods w) (w_transientRetries w) (w_notFoundRetries w) (w_calls w).
Definition w_set_pods (v : list Pod) (w : World) : World :=
  MkWorld (w_run w) (w_jobs w) (w_configmaps w) (w_secrets w) v (w_transientRetries w) (w_notFoundRetries w) (w_calls w).
Definition w_set_transient (v : nat) (w : World) : World :=
  MkWorld (w_run w) (w_jobs w) (w_configmaps w) (w_secrets w) (w_pods w) v (w_notFoundRetries w) (w_calls w).
Definition w_set_notFound (v : nat) (w : World) : World :=
  MkWorld (w_run w) (w_jobs w) (w_configmaps w) (w_secrets w) (w_pods w) (w_transientRetries w) v (w_calls w).
Definition w_set_calls (v : nat) (w : World) : World :=
  MkWorld (w_run w) (w_jobs w) (w_configmaps w) (w_secrets w) (w_pods w) (w_transientRetries w) (w_notFoundRetries w) v.

(** ** API calls *)

(** The fault of the next call. *)
Definition call (env : Env) : M (option string) := λ w,
  (w_set_calls (S (w_calls w)) w, Continue (e_fault env (w_calls w))).
(** A call whose failure ends the reconcile. *)
Definition call_or_exit (env : Env) : M () :=
  f ← call env;
  match f with Some e => exit (Error e) | None => mret () end.

(** The stored object after a status update. *)
Definition stored (cur : PipelineRun) (s : PipelineRunStatus) : PipelineRun :=
  MkPipelineRun (pr_Name cur) (pr_Namespace cur) (pr_Generation cur) (S (pr_ResourceVersion cur))
    (pr_Cancel cur) (pr_Spec cur) s.
(** [r.Status().Update]: rejected when the run is gone or has changed since it
    was read; only the status is written. *)
Definition try_update (env : Env) (pr : PipelineRun) : M (option string) :=
  f ← call env;
  match f with
  | Some e => mret (Some e)
  | None =>
    w ← get_world;
    match w_run w with
    | None => mret (Some "not found")
    | Some cur =>
      if bool_decide (pr_ResourceVersion pr = pr_ResourceVersion cur) then
        modify (w_set_run (Some (stored cur (pr_Status pr))));;
        mret None
      else mret (Some "the object has been modified")
    end
  end.
(** The update followed by a return: [Error] if it fails, else [o]. *)
Definition update_return {A} (env : Env) (pr : PipelineRun) (o : outcome) : M A :=
  f ← try_update env pr;
  match f with Some e => exit (Error e) | None => exit o end.

(** [r.Create], with AlreadyExists ignored. *)
Definition create_configmap (env : Env) (cm : ConfigMapObject) : M () :=
  call_or_exit env;;
  w ← get_world;
  match w_configmaps w !! cm_Name cm with
  | Some _ => mret ()
  | None => modify (w_set_configmaps (<[cm_Name cm := cm]> (w_configmaps w)))
  end.
Definition create_job (env : Env) (j : Job) : M () :=
  call_or_exit env;;
  w ← get_world;
  match w_jobs w !! j_Name j with
  | Some _ => mret ()
  | None => modify (w_set_jobs (<[j_Name j := MkJobObject j []]> (w_jobs w)))
  end.
Definition create_secret (env : Env) (name : string) (s : SecretObject) : M () :=
  call_or_exit env;;
  w ← get_world;
  match w_secrets w !! name with
  | Some _ => mret ()
  | None => modify (w_set_secrets (<[name := s]> (w_secrets w)))
  end.
(** Reads; [None] is NotFound. *)
Definition get_secret (env : Env) (name : string) : M (option SecretObject) :=
  call_or_exit env;;
  w ← get_world;
  mret (w_secrets w !! name).
Definition get_job (env : Env) (name : string) : M (option JobObject) :=
  call_or_exit env;;
  w ← get_world;
  mret (w_jobs w !! name).
(** [r.Delete], with NotFound ignored; the pods go later (background
    propagation). *)
Definition delete_job (env : Env) (name : string) : M () :=
  call_or_exit env;;
  modify (λ w, w_set_jobs (delete name (w_jobs w)) w).
(** The last pod listed for a Job; a failed List is no pod. *)
Definition last_pod (env : Env) (jobName : string) : M (option Pod) :=
  f ← call env;
  w ← get_world;
  mret (match f with
        | Some _ => None
        | None => last (filter (λ p, pod_JobName p = jobName) (w_pods w))
        end).

(** ** pipelinerun_status.go *)

Definition extractExitCodeFromJob (env : Env) (jobName : string) : M (option Z) :=
  pod ← last_pod env jobName;
  mret (p ← pod; extractExitCodeFromPod p "component").
Definition extractImageIDFromJob (env : Env) (jobName : string) : M string :=
  pod ← last_pod env jobName;
  mret (match pod with Some p => extractImageIDFromPod p "component" | None => EmptyString end).
(** [None] on an error. *)
Definition getPodLogs (env : Env) (jobName : string) : M (option string) :=
  pod ← last_pod env jobName;
  match pod with
  | None => mret None
  | Some p =>
    f ← call env;
    mret (match f with Some _ => None | None => Some (pod_Logs p) end)
  end.
Definition extractComponentStatusMessage (r : Reconciler) (env : Env) (jobName : string) (exitCode : Z)
    : M string :=
  if negb (r_HasClientset r) then mret EmptyString
  else
    logs ← getPodLogs env jobName;
    match logs with
    | None => mret EmptyString
    | Some logs =>
      match ExtractStatusMessage logs exitCode with
      | Some msg => mret msg
      | None => exit Panicked
      end
    end.

Definition updateSecretsResolvedCondition (pipeline : Pipeline) (pr : PipelineRun) : PipelineRun :=
  if is_empty (ReferencedSecrets (Some pipeline)) then pr
  else on_status (λ s, s_set_Conditions
         (SetStatusCondition (s_Conditions s) (MkCondition "SecretsResolved" true "Resolved" EmptyString)) s) pr.

(** ** Cancel *)

Fixpoint patch_pods (env : Env) (runID : string) (pods : list Pod) : M (list Pod) :=
  match pods with
  | [] => mret []
  | p :: pods =>
    if bool_decide (pod_RunID p = runID) && negb (pod_Cancel p) then
      f ← call env;
      ps ← patch_pods env runID pods;
      mret (match f with
            | Some _ => p :: ps
            | None => MkPod (pod_Name p) (pod_JobName p) (pod_RunID p) true (pod_ContainerStatuses p)
                        (pod_InitContainerStatuses p) (pod_Logs p) :: ps
            end)
    else ps ← patch_pods env runID pods; mret (p :: ps)
  end.
Definition propagateCancelToPods (env : Env) (pr : PipelineRun) : M () :=
  if str_empty (s_RunID (pr_Status pr)) then mret ()
  else
    f ← call env;
    match f with
    | Some _ => mret ()
    | None =>
      w ← get_world;
      pods ← patch_pods env (s_RunID (pr_Status pr)) (w_pods w);
      modify (w_set_pods pods)
    end.

(** ** Admission: handlePending *)

Definition set_phase (phase : PipelineRunPhase) (msg : string) (pr : PipelineRun) : PipelineRun :=
  on_status (λ s, s_set_Message msg (s_set_Phase phase s)) pr.
Definition set_completion (now : Z) (pr : PipelineRun) : PipelineRun :=
  on_status (s_set_CompletionTime (Some now)) pr.
(** Phase, message, status update, return. *)
Definition fail_user {A} (env : Env) (msg : string) (pr : PipelineRun) : M A :=
  update_return env (set_phase PipelineRunPhaseFailedUser msg pr) Done.

Definition noteTransientRetry : M nat := λ w,
  let n := S (w_transientRetries w) in (w_set_transient n w, Continue n).
Definition clearTransientRetries : M () := modify (w_set_transient 0).
Definition noteNotFoundRetry : M nat := λ w,
  let n := S (w_notFoundRetries w) in (w_set_notFound n w, Continue n).
Definition clearNotFoundRetry : M () := modify (w_set_notFound 0).

Definition requeueOnTransientAdmissionError {A} (env : Env) (pr : PipelineRun) (msg : string) : M A :=
  attempt ← noteTransientRetry;
  if (attempt <? admissionTransientRetryBudget)%nat then exit (RequeueAfter admissionTransientRetryInterval)
  else
    clearTransientRetries;;
    update_return env (set_completion (e_now env) (set_phase PipelineRunPhaseFailedApplication
      ("registry unavailable after " +:+ itoa_nat attempt +:+ " consecutive attempts: " +:+ msg) pr)) Done.

(** The referenced keys that the project Secret does not have; the snapshot is
    created when there are none. *)
Definition snapshotRunSecrets (env : Env) (pr : PipelineRun) (pipeline : Pipeline) : M (list string) :=
  match ReferencedSecrets (Some pipeline) with
  | [] => mret []
  | refs =>
    existing ← get_secret env (runSecretsName pr);
    match existing with
    | Some _ => mret []
    | None =>
      project ← get_secret env ProjectSecretsName;
      let data := match project with Some s => sec_Data s | None => ∅ end in
      match filter (λ n, data !! n = None) refs with
      | [] =>
        call_or_exit env;;  (* SetControllerReference *)
        create_secret env (runSecretsName pr)
          (MkSecretObject
             [("app.kubernetes.io/component", "run-secrets"); ("app.kubernetes.io/part-of", "datuplet");
              ("datuplet.io/run-id", s_RunID (pr_Status pr))]
             (filter (λ kv, kv.1 ∈ refs) data));;
        mret []
      | missing => mret missing
      end
    end
  end.

(** The Pipeline that is to be admitted. *)
Definition fetch_pipeline (env : Env) (pr : PipelineRun) : M Pipeline :=
  match rs_PipelineSpec (pr_Spec pr) with
  | Some spec => mret (MkPipeline (pr_Name pr) (pr_Namespace pr) 0 spec)
  | None =>
    let ref := rs_PipelineRef (pr_Spec pr) in
    if str_empty ref then fail_user env "spec.pipelineRef or spec.pipelineSpec is required" pr
    else
      match e_pipeline env ref with
      | Ok (Some p) => mret p
      | Ok None =>
        attempt ← noteNotFoundRetry;
        if (attempt <? admissionTransientRetryBudget)%nat
        then exit (RequeueAfter admissionTransientRetryInterval)
        else
          clearNotFoundRetry;;
          fail_user env ("Pipeline '" +:+ ref +:+ "' not found") pr
      | Err e => exit (Error e)
      end
  end.

Definition determine_run_id (env : Env) (pr : PipelineRun) : M string :=
  let runID := rs_RunID (pr_Spec pr) in
  if str_empty runID then mret (e_uuid env)
  else if uuid_Parse runID then mret runID
  else fail_user env ("invalid spec.runId: must be a valid UUID, got " +:+ quote runID) pr.

(** One component of the resolve loop: its frozen spec, its resolution and the
    note of a clamp. *)
Definition with_resources (res : ResourceRequirements) (c : ComponentSpec) : ComponentSpec :=
  MkComponentSpec (c_Name c) (c_Component c) (c_Version c) (c_Config c) (c_Inputs c) (c_Outputs c)
    (Some res).
Definition resolve_component (env : Env) (pr : PipelineRun) (comp : ComponentSpec)
    : M (ComponentSpec * ResolvedComponentStatus * list string) :=
  let (rc, findings) := Resolve (e_registry_resolve env) (c_Component comp) (c_Version comp) in
  match rc with
  | None =>
    match firstTransientFinding findings with
    | Some tf => requeueOnTransientAdmissionError env pr (f_Message tf)
    | None =>
      fail_user env (match firstErrorFinding findings with Some f => f_Message f | None => EmptyString end) pr
    end
  | Some rc =>
    let res := applyDefaultsThenClamp (c_Resources comp) (cr_Default (rc_Resources rc))
                 (cr_Max (rc_Resources rc)) in
    mret (with_resources (cl_Resources res) comp,
          MkResolvedComponentStatus (c_Name comp) (rc_Component rc) (rc_Version rc) (rc_Image rc) EmptyString,
          if str_empty (cl_Note res) then []
          else ["resources clamped for component " +:+ c_Name comp +:+ ": " +:+ cl_Note res])
  end.
Fixpoint resolve_components (env : Env) (pr : PipelineRun) (comps : list ComponentSpec)
    : M (list ComponentSpec * list ResolvedComponentStatus * list string) :=
  match comps with
  | [] => mret ([], [], [])
  | c :: comps =>
    '(c, rc, n) ← resolve_component env pr c;
    '(cs, rcs, ns) ← resolve_components env pr comps;
    mret (c :: cs, rc :: rcs, n ++ ns)
  end.
Fixpoint resolve_stages (env : Env) (pr : PipelineRun) (stages : list StageSpec)
    : M (list StageSpec * list ResolvedComponentStatus * list string) :=
  match stages with
  | [] => mret ([], [], [])
  | st :: stages =>
    '(cs, rcs1, ns1) ← resolve_components env pr (st_Components st);
    '(sts, rcs2, ns2) ← resolve_stages env pr stages;
    mret (MkStageSpec (st_Name st) cs :: sts, rcs1 ++ rcs2, ns1 ++ ns2)
  end.

Definition pending_stage (st : StageSpec) : StageStatus :=
  MkStageStatus (st_Name st) StagePhasePending [] None None EmptyString.

(** The status of an admitted run. *)
Definition admit_run (env : Env) (pipeline : Pipeline) (stages : list StageSpec)
    (components : list ResolvedComponentStatus) (notes : list string) (pr : PipelineRun) : PipelineRun :=
  let pr := on_status (λ s,
    s_set_StartTime (Some (e_now env)) (s_set_Phase PipelineRunPhaseRunning
      (s_set_Components components (s_set_PipelineGeneration (p_Generation pipeline)
        (s_set_ResolvedSpec (Some (MkPipelineSpec (ps_Gateway (p_Spec pipeline)) stages)) s))))) pr in
  let pr := if is_empty notes then pr else on_status (s_set_Message (join "; " notes)) pr in
  let pr := on_status (s_set_StageStatuses (map pending_stage stages)) pr in
  updateSecretsResolvedCondition pipeline pr.

Definition handlePending (env : Env) (pr : PipelineRun) : M outcome :=
  pipeline ← fetch_pipeline env pr;
  clearNotFoundRetry;;
  runID ← determine_run_id env pr;
  let pr := on_status (s_set_RunID runID) pr in
  missing ← snapshotRunSecrets env pr pipeline;
  if negb (is_empty missing) then
    let msg := StatusMessagePrefix +:+ " referenced secret(s) not found in project secrets: " +:+
               join ", " missing in
    let pr := set_phase PipelineRunPhaseFailedUser msg pr in
    let pr := on_status (λ s, s_set_Conditions (SetStatusCondition (s_Conditions s)
                (MkCondition "SecretsResolved" false "SnapshotMissing" msg)) s) pr in
    update_return env pr Done
  else
    let admissionFindings := ValidateTyped (Some pipeline) (Some (e_registry env)) None in
    match firstTransientFinding admissionFindings with
    | Some tf => requeueOnTransientAdmissionError env pr (f_Message tf)
    | None =>
      match firstErrorFinding (nonResourceFindings admissionFindings) with
      | Some f => fail_user env (f_Message f) pr
      | None =>
        '(stages, components, notes) ← resolve_stages env pr (ps_Stages (p_Spec pipeline));
        clearTransientRetries;;
        update_return env (admit_run env pipeline stages components notes pr)
          (RequeueAfter PipelineRunRequeueInterval)
      end
    end.

(** ** Stage execution: handleRunning *)

Definition saturate64 (z : Z) : Z := Z.max min_int64 (Z.min max_int64 z).
Definition previewDeadlinePassed (now : Z) (pr : PipelineRun) : bool :=
  match rs_Preview (pr_Spec pr), s_StartTime (pr_Status pr) with
  | Some p, Some start =>
    if (pv_TimeoutSeconds p <=? 0)%Z then false
    else (wrap64 (pv_TimeoutSeconds p * second) <? saturate64 (now - start))%Z
  | _, _ => false
  end.

(** The first component status of that name, with its index. *)
Definition componentStatusByName (statuses : list ComponentStatus) (name : string)
    : option (nat * ComponentStatus) :=
  list_find (λ cs, cs_Name cs = name) statuses.

Fixpoint timeout_components (r : Reconciler) (env : Env) (pr : PipelineRun) (stageName : string)
    (comps : list ComponentSpec) (statuses : list ComponentStatus) : M (list ComponentStatus) :=
  match comps with
  | [] => mret statuses
  | c :: comps =>
    let jobName := componentJobName pr stageName (c_Name c) in
    statuses ←
      match componentStatusByName statuses (c_Name c) with
      | Some (i, cs) =>
        if componentTerminal (cs_Phase cs) then mret statuses
        else
          line ← extractComponentStatusMessage r env jobName 0;
          let msg := if str_empty line then "preview timed out"
                     else SanitizeMessage ("preview timed out" +:+ "; last log: " +:+ line) in
          mret (<[i := cs_set_CompletionTime (Some (e_now env)) (cs_set_Message msg
                  (cs_set_Phase ComponentPhaseFailedUser cs))]> statuses)
      | None => mret statuses
      end;
    delete_job env jobName;;
    timeout_components r env pr stageName comps statuses
  end.

Definition failPreviewTimeout (r : Reconciler) (env : Env) (pr : PipelineRun) (stageIdx : nat)
    (stage : StageSpec) (ss : StageStatus) (timeout : Z) : M outcome :=
  let msg := "preview timed out after " +:+ itoa timeout +:+ "s during stage " +:+ st_Name stage in
  propagateCancelToPods env pr;;
  statuses ← timeout_components r env pr (st_Name stage) (st_Components stage) (ss_ComponentStatuses ss);
  let ss := ss_set_CompletionTime (Some (e_now env)) (ss_set_Message msg
              (ss_set_Phase StagePhaseFailedUser (ss_set_ComponentStatuses statuses ss))) in
  update_return env
    (set_completion (e_now env) (set_phase PipelineRunPhaseFailedUser msg (set_stage stageIdx ss pr))) Done.

(** *** startStage *)

Definition pending_component (c : ComponentSpec) : ComponentStatus :=
  MkComponentStatus (c_Name c) ComponentPhasePending None EmptyString None None EmptyString.
Definition started (env : Env) (jobName : string) (cs : ComponentStatus) : ComponentStatus :=
  cs_set_StartTime (Some (e_now env)) (cs_set_PodName jobName (cs_set_Phase ComponentPhaseRunning cs)).

(** The loop over the components, the first [i] of which are started. *)
Fixpoint start_components (r : Reconciler) (env : Env) (pr : PipelineRun) (stageIdx : nat)
    (ss : StageStatus) (i : nat) (comps : list ComponentSpec) (statuses : list ComponentStatus)
    : M (list ComponentStatus) :=
  match comps with
  | [] => mret statuses
  | comp :: comps =>
    match buildComponentJob r pr comp (e_now env) with
    | Err e =>
      let statuses := alter (λ cs, cs_set_Message e (cs_set_Phase ComponentPhaseFailedApplication cs))
                        i statuses in
      let ss := ss_set_Message ("Failed to build job for component '" +:+ c_Name comp +:+ "': " +:+ e)
                  (ss_set_Phase StagePhaseFailedApplication (ss_set_ComponentStatuses statuses ss)) in
      update_return env (set_stage stageIdx ss pr) Done
    | Ok (job, configMap) =>
      call_or_exit env;;  (* SetControllerReference on the Job *)
      call_or_exit env;;  (* and on the ConfigMap *)
      create_configmap env configMap;;
      create_job env job;;
      start_components r env pr stageIdx ss (S i) comps (alter (started env (j_Name job)) i statuses)
    end
  end.

Definition startStage (r : Reconciler) (env : Env) (pr : PipelineRun) (stageIdx : nat)
    (stage : StageSpec) (ss : StageStatus) : M outcome :=
  statuses ← start_components r env pr stageIdx ss 0 (st_Components stage)
               (map pending_component (st_Components stage));
  let ss := ss_set_StartTime (Some (e_now env)) (ss_set_Phase StagePhaseRunning
              (ss_set_ComponentStatuses statuses ss)) in
  update_return env (set_stage stageIdx ss pr) (RequeueAfter PipelineRunRequeueInterval).

(** *** checkStageComponents *)

(** The variables of the loop, with the run's resolved components. *)
Record check_state := MkCheckState {
  k_allSucceeded : bool;
  k_anyFailedUser : bool;
  k_anyFailedApp : bool;
  k_failedComponent : string;
  k_failedMessage : string;
  k_components : list ResolvedComponentStatus;
}.
(** A failed component is noted. *)
Definition note_failed (user : bool) (cs : ComponentStatus) (k : check_state) : check_state :=
  MkCheckState (k_allSucceeded k) (user || k_anyFailedUser k) (negb user || k_anyFailedApp k)
    (cs_Name cs) (cs_Message cs) (k_components k).
Definition note_pending (k : check_state) : check_state :=
  MkCheckState false (k_anyFailedUser k) (k_anyFailedApp k) (k_failedComponent k) (k_failedMessage k)
    (k_components k).
Definition note_image (name imageID : string) (k : check_state) : check_state :=
  MkCheckState (k_allSucceeded k) (k_anyFailedUser k) (k_anyFailedApp k) (k_failedComponent k)
    (k_failedMessage k) (recordComponentImageID name imageID (k_components k)).

(** One condition of the Job. *)
Definition check_condition (r : Reconciler) (env : Env) (jobName : string) (exitCode : option Z)
    (condition : JobCondition) (st : ComponentStatus * check_state) : M (ComponentStatus * check_state) :=
  let (cs, k) := st in
  match jc_Type condition, jc_Status condition with
  | JobComplete, true =>
    let cs := cs_set_CompletionTime (Some (e_now env)) (cs_set_ExitCode (Some 0%Z)
                (cs_set_Phase ComponentPhaseSucceeded cs)) in
    msg ← extractComponentStatusMessage r env jobName 0;
    mret (if str_empty msg then cs else cs_set_Message msg cs, k)
  | JobFailed, true =>
    let cs := cs_set_ExitCode exitCode cs in
    '(cs, user) ←
      match exitCode with
      | Some code =>
        let user := match ClassifyExitCode code with FailureTypeUser => true | _ => false end in
        let cs := cs_set_Phase (if user then ComponentPhaseFailedUser
                                else ComponentPhaseFailedApplication) cs in
        msg ← extractComponentStatusMessage r env jobName code;
        mret (cs_set_Message (if str_empty msg then jc_Message condition else msg) cs, user)
      | None =>
        mret (cs_set_Message (jc_Message condition) (cs_set_Phase ComponentPhaseFailedApplication cs), false)
      end;
    mret (cs_set_CompletionTime (Some (e_now env)) cs, note_failed user cs k)
  | _, _ => mret (cs, k)
  end.
Fixpoint check_conditions (r : Reconciler) (env : Env) (jobName : string) (exitCode : option Z)
    (conditions : list JobCondition) (st : ComponentStatus * check_state)
    : M (ComponentStatus * check_state) :=
  match conditions with
  | [] => mret st
  | c :: conditions =>
    st ← check_condition r env jobName exitCode c st;
    check_conditions r env jobName exitCode conditions st
  end.

(** The body of the loop. *)
Definition check_component (r : Reconciler) (env : Env) (pr : PipelineRun) (stageName : string)
    (cs : ComponentStatus) (k : check_state) : M (ComponentStatus * check_state) :=
  match cs_Phase cs with
  | ComponentPhaseSucceeded => mret (cs, k)
  | ComponentPhaseFailedUser => mret (cs, note_failed true cs k)
  | ComponentPhaseFailedApplication => mret (cs, note_failed false cs k)
  | _ =>
    let k := note_pending k in
    let jobName := componentJobName pr stageName (cs_Name cs) in
    job ← get_job env jobName;
    match job with
    | None => mret (cs, k)
    | Some job =>
      exitCode ← extractExitCodeFromJob env jobName;
      imageID ← extractImageIDFromJob env jobName;
      check_conditions r env jobName exitCode (jo_Conditions job) (cs, note_image (cs_Name cs) imageID k)
    end
  end.

(** The loop over the components of the stage; a component without a status is
    an index out of range. *)
Fixpoint check_components (r : Reconciler) (env : Env) (pr : PipelineRun) (stageName : string)
    (comps : list ComponentSpec) (statuses : list ComponentStatus) (k : check_state)
    : M (list ComponentStatus * check_state) :=
  match comps, statuses with
  | [], _ => mret (statuses, k)
  | _ :: _, [] => exit Panicked
  | _ :: comps, cs :: statuses =>
    '(cs, k) ← check_component r env pr stageName cs k;
    '(statuses, k) ← check_components r env pr stageName comps statuses k;
    mret (cs :: statuses, k)
  end.

Definition checkStageComponents (r : Reconciler) (env : Env) (pr : PipelineRun) (stageIdx : nat)
    (stage : StageSpec) (ss : StageStatus) : M outcome :=
  '(statuses, k) ← check_components r env pr (st_Name stage) (st_Components stage)
    (ss_ComponentStatuses ss)
    (MkCheckState true false false EmptyString EmptyString (s_Components (pr_Status pr)));
  let pr := on_status (s_set_Components (k_components k)) pr in
  let ss := ss_set_ComponentStatuses statuses ss in
  let finish phase ss := ss_set_CompletionTime (Some (e_now env)) (ss_set_Phase phase ss) in
  if k_anyFailedUser k || k_anyFailedApp k then
    let ss := ss_set_Message ("Component '" +:+ k_failedComponent k +:+ "' failed: " +:+ k_failedMessage k)
      (finish (if k_anyFailedUser k then StagePhaseFailedUser else StagePhaseFailedApplication) ss) in
    update_return env (set_stage stageIdx ss pr) Done
  else if k_allSucceeded k then
    update_return env (set_stage stageIdx (finish StagePhaseSucceeded ss) pr)
      (RequeueAfter PipelineRunRequeueInterval)
  else
    _ ← try_update env (set_stage stageIdx ss pr);
    exit (RequeueAfter PipelineRunRequeueInterval).

(** *** handleRunning *)

Definition succeeded_stage (ss : StageStatus) : bool := bool_decide (ss_Phase ss = StagePhaseSucceeded).
(** The first stage that has not succeeded. *)
Definition current_stage (l : list StageStatus) : option (nat * StageStatus) :=
  list_find (λ ss, succeeded_stage ss = false) l.

(** The run fails with the stage. *)
Definition fail_with_stage {A} (env : Env) (phase : PipelineRunPhase) (stage : StageSpec) (ss : StageStatus)
    (pr : PipelineRun) : M A :=
  update_return env (set_completion (e_now env) (set_phase phase
    ("Stage '" +:+ st_Name stage +:+ "' failed: " +:+ ss_Message ss) pr)) Done.

Definition handleRunning (r : Reconciler) (env : Env) (pr : PipelineRun) : M outcome :=
  match s_ResolvedSpec (pr_Status pr) with
  | None =>
    update_return env (set_completion (e_now env) (set_phase PipelineRunPhaseFailedApplication
      "internal: resolvedSpec missing on a Running PipelineRun" pr)) Done
  | Some resolvedSpec =>
    match current_stage (s_StageStatuses (pr_Status pr)) with
    | None =>
      update_return env (set_completion (e_now env) (set_phase PipelineRunPhaseSucceeded
        "All stages completed successfully" pr)) Done
    | Some (idx, ss) =>
      match ps_Stages resolvedSpec !! idx with
      | None => exit Panicked
      | Some stage =>
        let pr := on_status (s_set_CurrentStage (st_Name stage)) pr in
        match rs_Preview (pr_Spec pr), previewDeadlinePassed (e_now env) pr, ss_Phase ss with
        | Some p, true, (StagePhasePending | StagePhaseRunning) =>
          failPreviewTimeout r env pr idx stage ss (pv_TimeoutSeconds p)
        | _, _, StagePhasePending => startStage r env pr idx stage ss
        | _, _, StagePhaseRunning => checkStageComponents r env pr idx stage ss
        | _, _, StagePhaseFailedUser => fail_with_stage env PipelineRunPhaseFailedUser stage ss pr
        | _, _, StagePhaseFailedApplication =>
          fail_with_stage env PipelineRunPhaseFailedApplication stage ss pr
        | _, _, _ => exit (RequeueAfter PipelineRunRequeueInterval)
        end
      end
    end
  end.

(** ** Reconcile *)

(** [cached] is what the cached client returns for the run. *)
Definition reconcile (r : Reconciler) (env : Env) (cached : get_result PipelineRun) : M outcome :=
  match cached with
  | Err e => exit (Error e)
  | Ok None => exit Done
  | Ok (Some pr) =>
    let pr := on_status (s_set_ObservedGeneration (pr_Generation pr)) pr in
    (if pr_Cancel pr then propagateCancelToPods env pr else mret ());;
    match s_Phase (pr_Status pr) with
    | PhaseEmpty | PipelineRunPhasePending => handlePending env pr
    | PipelineRunPhaseRunning => handleRunning r env pr
    | PipelineRunPhaseSucceeded | PipelineRunPhaseFailedUser | PipelineRunPhaseFailedApplication =>
      clearTransientRetries;; clearNotFoundRetry;; exit Done
    | PhaseUnknown _ => exit Done
    end
  end.

Definition Reconcile (r : Reconciler) (env : Env) (cached : get_result PipelineRun) (w : World)
    : World * outcome :=
  match reconcile r env cached (w_set_calls 0 w) with
  | (w, Continue o) => (w, o)
  | (w, Exit o) => (w, o)
  end.

End Controller.
