(* ===== verification/RunMachine.v ===== *)
(** * RunMachine: the state machine of a run (specification)

    What a PipelineRun status may turn into, without the cluster: admission,
    the stages one after the other, and the terminal phases.  [run_ok] is the
    invariant of the machine; [RunRefine] proves that the reconciler only makes
    these steps. *)

From S2P Require Import Prelude GoValue ApiTypes RunTypes RunController.

Definition terminal (p : PipelineRunPhase) : bool :=
  match p with
  | PipelineRunPhaseSucceeded | PipelineRunPhaseFailedUser | PipelineRunPhaseFailedApplication => true
  | _ => false
  end.
Definition unadmitted (p : PipelineRunPhase) : bool :=
  match p with PhaseEmpty | PipelineRunPhasePending => true | _ => false end.
Definition failed (p : PipelineRunPhase) : bool :=
  match p with PipelineRunPhaseFailedUser | PipelineRunPhaseFailedApplication => true | _ => false end.
Definition stage_active (p : StagePhase) : bool :=
  match p with StagePhasePending | StagePhaseRunning => true | _ => false end.

(** ** Components and stages *)

(** A component that has ended stays as it is; its name never changes. *)
Definition comp_step (cs cs' : ComponentStatus) : Prop :=
  cs_Name cs' = cs_Name cs ∧ (componentTerminal (cs_Phase cs) = true → cs' = cs).
Definition has_phase (p : ComponentPhase) (cs : ComponentStatus) : Prop := cs_Phase cs = p.

Section Machine.
Context `{Q : !Quantities}.

(** A status for each component, of its name. *)
Definition statuses_for (cs : list ComponentSpec) (l : list ComponentStatus) : Prop :=
  Forall2 (λ c s, cs_Name s = c_Name c) cs l.

Inductive stage_step (st : StageSpec) (ss ss' : StageStatus) : Prop :=
| stage_start :
    ss_Phase ss = StagePhasePending → ss_Phase ss' = StagePhaseRunning →
    Forall2 (λ c s, cs_Name s = c_Name c ∧ cs_Phase s = ComponentPhaseRunning)
      (st_Components st) (ss_ComponentStatuses ss') → stage_step st ss ss'
| stage_build_failed :
    ss_Phase ss = StagePhasePending → ss_Phase ss' = StagePhaseFailedApplication →
    Exists (has_phase ComponentPhaseFailedApplication) (ss_ComponentStatuses ss') → stage_step st ss ss'
| stage_poll :
    ss_Phase ss = StagePhaseRunning → ss_Phase ss' = StagePhaseRunning →
    Forall2 comp_step (ss_ComponentStatuses ss) (ss_ComponentStatuses ss') → stage_step st ss ss'
| stage_succeed :
    ss_Phase ss = StagePhaseRunning → ss_Phase ss' = StagePhaseSucceeded →
    ss_ComponentStatuses ss' = ss_ComponentStatuses ss →
    Forall (has_phase ComponentPhaseSucceeded) (ss_ComponentStatuses ss) → stage_step st ss ss'
| stage_fail_user :
    ss_Phase ss = StagePhaseRunning → ss_Phase ss' = StagePhaseFailedUser →
    Forall2 comp_step (ss_ComponentStatuses ss) (ss_ComponentStatuses ss') → stage_step st ss ss'
| stage_fail_application :
    ss_Phase ss = StagePhaseRunning → ss_Phase ss' = StagePhaseFailedApplication →
    Forall2 comp_step (ss_ComponentStatuses ss) (ss_ComponentStatuses ss') → stage_step st ss ss'.

Definition stage_ok (st : StageSpec) (ss : StageStatus) : Prop :=
  ss_Name ss = st_Name st ∧
  match ss_Phase ss with
  | StagePhasePending | StagePhaseFailedUser | StagePhaseFailedApplication => True
  | StagePhaseRunning => statuses_for (st_Components st) (ss_ComponentStatuses ss)
  | StagePhaseSucceeded =>
    statuses_for (st_Components st) (ss_ComponentStatuses ss) ∧
    Forall (has_phase ComponentPhaseSucceeded) (ss_ComponentStatuses ss)
  | _ => False
  end.

(** A stage has begun only when all before it have succeeded. *)
Definition ordered (l : list StageStatus) : Prop :=
  ∀ i j si sj, i < j → l !! i = Some si → l !! j = Some sj →
    ss_Phase sj ≠ StagePhasePending → ss_Phase si = StagePhaseSucceeded.

(** ** Runs *)

Definition components_of (spec : PipelineSpec) : list ComponentSpec := flat_map st_Components (ps_Stages spec).
(** The resolutions recorded for a frozen spec, and distinct instance names. *)
Definition resolution_ok (spec : PipelineSpec) (l : list ResolvedComponentStatus) : Prop :=
  map rcs_Name l = map c_Name (components_of spec) ∧ NoDup (map c_Name (components_of spec)).

Definition run_ok (s : PipelineRunStatus) : Prop :=
  match s_ResolvedSpec s with
  | None => s_Phase s ≠ PipelineRunPhaseRunning ∧ s_Phase s ≠ PipelineRunPhaseSucceeded
  | Some spec =>
    unadmitted (s_Phase s) = false ∧
    Forall2 stage_ok (ps_Stages spec) (s_StageStatuses s) ∧ ordered (s_StageStatuses s) ∧
    resolution_ok spec (s_Components s) ∧
    (s_Phase s = PipelineRunPhaseSucceeded →
      Forall (λ ss, ss_Phase ss = StagePhaseSucceeded) (s_StageStatuses s))
  end.

(** An image ID is recorded at most once; nothing else of a resolution changes. *)
Definition image_step (a b : ResolvedComponentStatus) : Prop :=
  rcs_Name b = rcs_Name a ∧ rcs_Component b = rcs_Component a ∧ rcs_Version b = rcs_Version a ∧
  rcs_Image b = rcs_Image a ∧ (rcs_ImageID a ≠ EmptyString → rcs_ImageID b = rcs_ImageID a).
Definition frozen (s s' : PipelineRunStatus) : Prop :=
  s_RunID s' = s_RunID s ∧ s_ResolvedSpec s' = s_ResolvedSpec s ∧
  s_PipelineGeneration s' = s_PipelineGeneration s ∧ s_StartTime s' = s_StartTime s ∧
  Forall2 image_step (s_Components s) (s_Components s').

(** Stage [i] is the first that has not succeeded. *)
Definition current (i : nat) (ss : StageStatus) (l : list StageStatus) : Prop :=
  l !! i = Some ss ∧ ss_Phase ss ≠ StagePhaseSucceeded ∧
  ∀ j s, j < i → l !! j = Some s → ss_Phase s = StagePhaseSucceeded.

Inductive run_step (s s' : PipelineRunStatus) : Prop :=
| run_reject :
    unadmitted (s_Phase s) = true → failed (s_Phase s') = true →
    s_ResolvedSpec s' = s_ResolvedSpec s → s_StageStatuses s' = s_StageStatuses s →
    s_Components s' = s_Components s → run_step s s'
| run_admit spec :
    unadmitted (s_Phase s) = true → s_Phase s' = PipelineRunPhaseRunning →
    s_ResolvedSpec s' = Some spec → s_StageStatuses s' = map pending_stage (ps_Stages spec) →
    resolution_ok spec (s_Components s') → run_step s s'
| run_stage spec i st ss ss' :
    s_Phase s = PipelineRunPhaseRunning → s_Phase s' = PipelineRunPhaseRunning → frozen s s' →
    s_ResolvedSpec s = Some spec → ps_Stages spec !! i = Some st →
    current i ss (s_StageStatuses s) → stage_step st ss ss' → ss_Name ss' = ss_Name ss →
    s_StageStatuses s' = <[i := ss']> (s_StageStatuses s) → run_step s s'
| run_timeout i ss ss' :
    s_Phase s = PipelineRunPhaseRunning → s_Phase s' = PipelineRunPhaseFailedUser → frozen s s' →
    current i ss (s_StageStatuses s) → stage_active (ss_Phase ss) = true →
    ss_Phase ss' = StagePhaseFailedUser → ss_Name ss' = ss_Name ss →
    Forall2 comp_step (ss_ComponentStatuses ss) (ss_ComponentStatuses ss') →
    s_StageStatuses s' = <[i := ss']> (s_StageStatuses s) → run_step s s'
| run_fail i ss :
    s_Phase s = PipelineRunPhaseRunning → frozen s s' → current i ss (s_StageStatuses s) →
    (ss_Phase ss = StagePhaseFailedUser ∧ s_Phase s' = PipelineRunPhaseFailedUser ∨
     ss_Phase ss = StagePhaseFailedApplication ∧ s_Phase s' = PipelineRunPhaseFailedApplication) →
    s_StageStatuses s' = s_StageStatuses s → run_step s s'
| run_succeed :
    s_Phase s = PipelineRunPhaseRunning → s_Phase s' = PipelineRunPhaseSucceeded → frozen s s' →
    Forall (λ ss, ss_Phase ss = StagePhaseSucceeded) (s_StageStatuses s) →
    s_StageStatuses s' = s_StageStatuses s → run_step s s'.

Definition evolves : PipelineRunStatus → PipelineRunStatus → Prop := rtc run_step.
End Machine.

(** ** Lemmas *)

Section MachineLemmas.
Context `{Q : !Quantities}.
Implicit Types s : PipelineRunStatus.

Lemma image_step_refl a : image_step a a.
Proof. done. Qed.
Lemma image_step_trans a b c : image_step a b → image_step b c → image_step a c.
Proof. unfold image_step. intros (?&?&?&?&Hab) (?&?&?&?&Hbc). split_and!; [congruence..|].
  intros Hne. rewrite Hbc, Hab; auto. by rewrite Hab.
Qed.
#[export] Instance image_step_preorder : PreOrder image_step.
Proof. split; [exact image_step_refl|exact image_step_trans]. Qed.

Lemma frozen_refl s : frozen s s.
Proof. unfold frozen. split_and!; done. Qed.
Lemma frozen_trans s1 s2 s3 : frozen s1 s2 → frozen s2 s3 → frozen s1 s3.
Proof.
  intros (?&?&?&?&H12) (?&?&?&?&H23). unfold frozen. split_and!; [congruence..|]. by etrans.
Qed.

Lemma comp_step_refl cs : comp_step cs cs.
Proof. done. Qed.
Lemma comp_step_trans a b c : comp_step a b → comp_step b c → comp_step a c.
Proof.
  unfold comp_step. intros [? Hab] [? Hbc]. split; [congruence|]. intros Ht.
  assert (b = a) as -> by auto. auto.
Qed.
#[export] Instance comp_step_preorder : PreOrder comp_step.
Proof. split; [exact comp_step_refl|exact comp_step_trans]. Qed.

Lemma statuses_for_step cs l l' : statuses_for cs l → Forall2 comp_step l l' → statuses_for cs l'.
Proof.
  unfold statuses_for. intros H. revert l'. induction H as [|c a cs l Ha H IH]; intros l' Hl.
  - apply Forall2_nil_inv_l in Hl as ->. constructor.
  - apply Forall2_cons_inv_l in Hl as (b & l2 & [Hb _] & Hl2 & ->). constructor; [congruence|auto].
Qed.

Lemma stage_step_ok st ss ss' :
  stage_ok st ss → stage_step st ss ss' → ss_Name ss' = ss_Name ss → stage_ok st ss'.
Proof.
  unfold stage_ok. intros [Hn Hok] Hs Hn'. split; [congruence|].
  inv Hs; simplify_eq/=; repeat match goal with H : ss_Phase _ = _ |- _ => rewrite H in * end; try done.
  - eapply Forall2_impl; [eassumption|]. naive_solver.
  - by eapply statuses_for_step.
  - match goal with H : ss_ComponentStatuses _ = _ |- _ => rewrite H end. done.
Qed.

Lemma stage_step_moves st ss ss' : stage_step st ss ss' →
  ss_Phase ss' ≠ StagePhasePending ∧ stage_active (ss_Phase ss) = true.
Proof. intros H. inv H; repeat match goal with H : ss_Phase _ = _ |- _ => rewrite H in * end; done. Qed.

(** Replacing the current stage keeps the order. *)
Lemma ordered_insert i ss ss' l :
  ordered l → current i ss l → ordered (<[i := ss']> l).
Proof.
  intros Ho (Hi & Hns & Hbefore) a b sa sb Hab Ha Hb Hp.
  assert (i < length l) as Hlen by (apply lookup_lt_is_Some; eauto).
  destruct (decide (b = i)) as [->|Hbi].
  - rewrite list_lookup_insert_ne in Ha by lia. eauto.
  - rewrite list_lookup_insert_ne in Hb by lia. destruct (decide (a = i)) as [->|Hai].
    + exfalso. apply Hns. eapply (Ho i b); eauto.
    + rewrite list_lookup_insert_ne in Ha by lia. eauto.
Qed.

Lemma map_resolution_frozen l l' : Forall2 image_step l l' → map rcs_Name l' = map rcs_Name l.
Proof. induction 1 as [|a b l l' (Hn & _) _ IH]; simpl; congruence. Qed.

Lemma ordered_pending stages : ordered (map pending_stage stages).
Proof.
  intros i j si sj _ _ Hj Hp. exfalso. apply Hp.
  change (map pending_stage stages) with (pending_stage <$> stages) in Hj.
  apply list_lookup_fmap_Some in Hj as (st & -> & _). done.
Qed.

(** The part of the invariant that does not depend on the phase. *)
Lemma run_ok_running s spec : s_ResolvedSpec s = Some spec → run_ok s →
  Forall2 stage_ok (ps_Stages spec) (s_StageStatuses s) ∧ ordered (s_StageStatuses s) ∧
  resolution_ok spec (s_Components s).
Proof. unfold run_ok. intros ->. naive_solver. Qed.

Lemma run_ok_ordered s : run_ok s → s_Phase s = PipelineRunPhaseRunning → ordered (s_StageStatuses s).
Proof. unfold run_ok. destruct (s_ResolvedSpec s); [by intros (_ & _ & ? & _)|by intros [Hn _] Hp; destruct (Hn Hp)]. Qed.

Lemma run_ok_frozen s s' stages :
  run_ok s → s_Phase s = PipelineRunPhaseRunning → frozen s s' → unadmitted (s_Phase s') = false →
  s_StageStatuses s' = stages →
  (∀ spec, s_ResolvedSpec s = Some spec → Forall2 stage_ok (ps_Stages spec) stages) → ordered stages →
  (s_Phase s' = PipelineRunPhaseSucceeded → Forall (λ ss, ss_Phase ss = StagePhaseSucceeded) stages) →
  run_ok s'.
Proof.
  intros Hok Hph (_ & Hspec & _ & _ & Hc) Hun <- Hst Hord Hsucc. unfold run_ok in *.
  rewrite Hspec. destruct (s_ResolvedSpec s) as [spec|]; [|by destruct Hok as [Hn _]; destruct (Hn Hph)].
  destruct Hok as (_ & _ & _ & [Hr1 Hr2] & _). split_and!; auto. split; [|done].
  by rewrite (map_resolution_frozen _ _ Hc).
Qed.

(** The machine keeps its invariant. *)
Lemma run_step_ok s s' : run_ok s → run_step s s' → run_ok s'.
Proof.
  intros Hok Hs.
  inv Hs as [Hun Hf Hsp _ _|spec Hun Hp Hsp Hss Hres|spec i st ss ss' Hp Hp' Hfr Hsp Hst Hcur Hstep Hn Hss
    |i ss ss' Hp Hp' Hfr Hcur Hact Hph Hn Hcs Hss|i ss Hp Hfr Hcur Hph Hss|Hp Hp' Hfr Hall Hss].
  - unfold run_ok in *. rewrite Hsp.
    destruct (s_ResolvedSpec s); [destruct Hok; congruence|by destruct (s_Phase s')].
  - unfold run_ok. rewrite Hsp, Hp, Hss. split_and!; [done| |apply ordered_pending|done|done].
    clear. induction (ps_Stages spec); simpl; constructor; [|done]. done.
  - destruct (run_ok_running _ _ Hsp Hok) as (H1 & H2 & _).
    eapply run_ok_frozen; eauto; [by rewrite Hp'| | |by rewrite Hp'].
    + intros spec' Hsp'. simplify_eq. pose proof (proj1 Hcur) as Hi.
      destruct (Forall2_lookup_r _ _ _ _ _ H1 Hi) as (st' & Hst' & Hok'). simplify_eq.
      rewrite <-(list_insert_id _ _ _ Hst). apply Forall2_insert; [done|].
      by eapply stage_step_ok.
    + by eapply ordered_insert.
  - eapply run_ok_frozen; eauto; [by rewrite Hp'| | |by rewrite Hp'].
    + intros spec Hsp. destruct (run_ok_running _ _ Hsp Hok) as (H1 & H2 & _).
      destruct (Forall2_lookup_r _ _ _ _ _ H1 (proj1 Hcur)) as (st & Hst & [Hn' _]).
      rewrite <-(list_insert_id _ _ _ Hst). apply Forall2_insert; [done|].
      split; [congruence|]. by rewrite Hph.
    + eapply ordered_insert; [|done]. by eapply run_ok_ordered.
  - assert (failed (s_Phase s') = true) as Hf by (by destruct Hph as [[_ ->]|[_ ->]]).
    eapply run_ok_frozen; eauto; [by destruct (s_Phase s')|..].
    + intros spec Hsp. by destruct (run_ok_running _ _ Hsp Hok) as (H1 & H2 & _).
    + by eapply run_ok_ordered.
    + by destruct (s_Phase s').
  - eapply run_ok_frozen; eauto; [by rewrite Hp'|..].
    + intros spec Hsp. by destruct (run_ok_running _ _ Hsp Hok) as (H1 & H2 & _).
    + by eapply run_ok_ordered.
Qed.

Lemma evolves_ok s s' : run_ok s → evolves s s' → run_ok s'.
Proof. intros Hok H. induction H; eauto using run_step_ok. Qed.

(** Nothing follows a terminal phase. *)
Lemma run_step_terminal s s' : run_step s s' → terminal (s_Phase s) = false.
Proof. intros H. inv H; by destruct (s_Phase s). Qed.
Lemma evolves_terminal s s' : evolves s s' → terminal (s_Phase s) = true → s' = s.
Proof.
  intros H. inv H as [|? ? ? Hs _]; [done|]. intros Ht. apply run_step_terminal in Hs. congruence.
Qed.

(** Once admitted, a run stays admitted and its resolution frozen. *)
Lemma run_step_frozen s s' : run_step s s' → unadmitted (s_Phase s) = false →
  frozen s s' ∧ unadmitted (s_Phase s') = false.
Proof.
  intros H Hun.
  inv H; try congruence; split; try done;
    repeat match goal with
    | H : _ ∨ _ |- _ => destruct H as [[_ H]|[_ H]]
    | H : s_Phase s' = _ |- _ => rewrite H
    end; done.
Qed.
Lemma evolves_frozen s s' : evolves s s' → unadmitted (s_Phase s) = false → frozen s s'.
Proof.
  intros H. induction H as [s|s1 s2 s3 Hs _ IH]; [intros _; apply frozen_refl|].
  intros Hun. destruct (run_step_frozen _ _ Hs Hun). eapply frozen_trans; eauto.
Qed.

(** A stage that has succeeded stays as it is. *)
Lemma current_insert_ne i j ss ss' sj l :
  current i ss l → l !! j = Some sj → ss_Phase sj = StagePhaseSucceeded → <[i := ss']> l !! j = Some sj.
Proof.
  intros (Hi & Hns & _) Hj Hs. rewrite list_lookup_insert_ne; [done|]. intros ->. naive_solver.
Qed.
Lemma run_step_stage s s' j ss : run_step s s' → unadmitted (s_Phase s) = false →
  s_StageStatuses s !! j = Some ss → ss_Phase ss = StagePhaseSucceeded →
  s_StageStatuses s' !! j = Some ss.
Proof.
  intros H Hun Hj Hp.
  inv H; try congruence;
    match goal with H : s_StageStatuses s' = _ |- _ => rewrite H end; try done; by eapply current_insert_ne.
Qed.
Lemma evolves_stage s s' j ss : evolves s s' → unadmitted (s_Phase s) = false →
  s_StageStatuses s !! j = Some ss → ss_Phase ss = StagePhaseSucceeded →
  s_StageStatuses s' !! j = Some ss.
Proof.
  intros H. induction H as [|s1 s2 s3 Hs _ IH]; [done|]. intros Hun Hj Hp.
  apply IH; [by eapply run_step_frozen|by eapply run_step_stage|done].
Qed.
End MachineLemmas.
