(* ===== verification/RunRefine.v ===== *)
(** * RunRefine: the reconciler refines the state machine

    A Hoare logic for the reconciler's monad that tracks the stored run, a
    specification for each function of RunController in it, and the refinement:
    a reconcile of an admissible run stores nothing or one step of [run_step],
    and does not panic. *)

From S2P Require Import Prelude GoValue ApiTypes GoTime Policy Registry ConfigSchema Validate ValidateSpec Status RunTypes RunJobs RunController RunMachine.

Section Refine.
Context `{UT : !UnicodeTables} `{Q : !Quantities} `{J : !Json} `{JS : !JsonSchema} `{TR : !Transforms}
  `{KT : !K8sTypes} `{YM : !YamlMarshal} `{CL : !ControllerLib}.

(** ** The logic *)

(** Exit codes are 32-bit, as the kubelet reports them. *)
Definition int32_code (c : option Z) : Prop := ∀ z, c = Some z → (- 2 ^ 31 ≤ z < 2 ^ 31)%Z.
Definition statuses_int32 (l : list ContainerStatus) : Prop := ∀ cs, cs ∈ l → int32_code (cst_Terminated cs).
Definition pod_ok (p : Pod) : Prop :=
  statuses_int32 (pod_ContainerStatuses p) ∧ statuses_int32 (pod_InitContainerStatuses p).
Definition pods_ok (w : World) : Prop := ∀ p, p ∈ w_pods w → pod_ok p.

(** The stored run is as before, or an update of the version [rv] by a status
    in [St]. *)
Definition saved (rv : nat) (St : PipelineRunStatus → Prop) (w w' : World) : Prop :=
  w_run w' = w_run w ∨
  ∃ cur s, w_run w = Some cur ∧ pr_ResourceVersion cur = rv ∧ St s ∧ w_run w' = Some (stored cur s).

(** [m] leaves the run alone while it goes on, with a result in [Φ]; when it
    returns early it has saved at most a status in [St], and it has not
    panicked. *)
Definition hoare {A} (rv : nat) (St : PipelineRunStatus → Prop) (m : M A) (Φ : A → Prop) : Prop :=
  ∀ w, pods_ok w → pods_ok (m w).1 ∧
    match (m w).2 with
    | Continue a => w_run (m w).1 = w_run w ∧ Φ a
    | Exit o => o ≠ Panicked ∧ saved rv St w (m w).1
    end.

Section Rules.
Context (rv : nat) (St : PipelineRunStatus → Prop).

Lemma hoare_ret {A} (a : A) (Φ : A → Prop) : Φ a → hoare rv St (mret a) Φ.
Proof. intros H w Hw. done. Qed.

Lemma hoare_bind {A B} (m : M A) (f : A → M B) Φ Ψ :
  hoare rv St m Φ → (∀ a, Φ a → hoare rv St (f a) Ψ) → hoare rv St (m ≫= f) Ψ.
Proof.
  intros Hm Hf w Hw. destruct (Hm w Hw) as [Hw' H].
  unfold mbind, M_bind. destruct (m w) as [w' [a|o]]; simpl in *; [|done].
  destruct H as [Hr Ha]. destruct (Hf a Ha w' Hw') as [Hw'' H]. split; [done|].
  destruct (f a w') as [w'' [b|o]]; simpl in *.
  - destruct H. split; [congruence|done].
  - destruct H as [? Hs]. split; [done|]. unfold saved in *. by rewrite <-Hr.
Qed.

Lemma hoare_weaken {A} (m : M A) (Φ Ψ : A → Prop) :
  hoare rv St m Φ → (∀ a, Φ a → Ψ a) → hoare rv St m Ψ.
Proof.
  intros Hm HΦ w Hw. destruct (Hm w Hw) as [? H]. split; [done|].
  destruct (m w) as [w' [a|o]]; simpl in *; naive_solver.
Qed.

Lemma hoare_exit {A} o (Φ : A → Prop) : o ≠ Panicked → hoare rv St (exit o) Φ.
Proof. intros Ho w Hw. split; [done|]. split; [done|]. by left. Qed.

Lemma hoare_modify f (Φ : () → Prop) :
  (∀ w, w_run (f w) = w_run w) → (∀ w, pods_ok w → pods_ok (f w)) → Φ () → hoare rv St (modify f) Φ.
Proof. intros Hr Hp HΦ w Hw. simpl. auto. Qed.

(** What is read from the world is unknown, but for its pods. *)
Lemma hoare_get {A} (f : World → M A) Φ :
  (∀ w, pods_ok w → hoare rv St (f w) Φ) → hoare rv St (get_world ≫= f) Φ.
Proof. intros Hf w Hw. by apply (Hf w Hw w). Qed.

Lemma hoare_call env : hoare rv St (call env) (λ _, True).
Proof. intros w Hw. done. Qed.

Lemma hoare_call_or_exit env : hoare rv St (call_or_exit env) (λ _, True).
Proof.
  eapply hoare_bind; [apply hoare_call|]. intros [e|] _; [by apply hoare_exit|by apply hoare_ret].
Qed.

(** [try_update] alone may have changed the run; what follows it exits. *)
Lemma hoare_update {A} env pr (f : option string → M A) (o : option string → outcome) Φ :
  St (pr_Status pr) → pr_ResourceVersion pr = rv → (∀ e, f e = exit (o e)) → (∀ e, o e ≠ Panicked) →
  hoare rv St (try_update env pr ≫= f) Φ.
Proof.
  intros HS Hrv Hf Ho w Hw. unfold mbind, M_bind, try_update, mbind, M_bind, call, get_world.
  destruct (e_fault env (w_calls w)) as [e|]; simpl.
  { rewrite Hf. simpl. split; [done|]. split; [auto|]. by left. }
  destruct (w_run w) as [cur|] eqn:Ecur; simpl.
  2: { rewrite Hf. simpl. split; [done|]. split; [auto|]. by left. }
  case_bool_decide as Ev; simpl; rewrite Hf; simpl; (split; [done|]); (split; [auto|]); [|by left].
  right. exists cur, (pr_Status pr). by rewrite <-Ev.
Qed.

Lemma hoare_update_return {A} env pr o (Φ : A → Prop) :
  St (pr_Status pr) → pr_ResourceVersion pr = rv → o ≠ Panicked →
  hoare rv St (update_return env pr o) Φ.
Proof.
  intros HS Hrv Ho.
  apply (hoare_update env pr _ (λ e, match e with Some e => Error e | None => o end)); try done;
    by intros [e|].
Qed.
End Rules.

(** ** Leaf operations *)

Create HintDb hoare.
#[local] Hint Resolve hoare_ret hoare_call hoare_call_or_exit : hoare.

Section Leaves.
Context (rv : nat) (St : PipelineRunStatus → Prop).
Implicit Types env : Env.

Ltac frame := apply hoare_modify; [done|done|done].

Lemma hoare_create_configmap env cm : hoare rv St (create_configmap env cm) (λ _, True).
Proof.
  eapply hoare_bind; [apply hoare_call_or_exit|]. intros _ _. apply hoare_get. intros w _.
  destruct (w_configmaps w !! _); [by apply hoare_ret|frame].
Qed.
Lemma hoare_create_job env j : hoare rv St (create_job env j) (λ _, True).
Proof.
  eapply hoare_bind; [apply hoare_call_or_exit|]. intros _ _. apply hoare_get. intros w _.
  destruct (w_jobs w !! _); [by apply hoare_ret|frame].
Qed.
Lemma hoare_create_secret env name s : hoare rv St (create_secret env name s) (λ _, True).
Proof.
  eapply hoare_bind; [apply hoare_call_or_exit|]. intros _ _. apply hoare_get. intros w _.
  destruct (w_secrets w !! _); [by apply hoare_ret|frame].
Qed.
Lemma hoare_get_secret env name : hoare rv St (get_secret env name) (λ _, True).
Proof.
  eapply hoare_bind; [apply hoare_call_or_exit|]. intros _ _. apply hoare_get. intros w _. by apply hoare_ret.
Qed.
Lemma hoare_get_job env name : hoare rv St (get_job env name) (λ _, True).
Proof.
  eapply hoare_bind; [apply hoare_call_or_exit|]. intros _ _. apply hoare_get. intros w _. by apply hoare_ret.
Qed.
Lemma hoare_delete_job env name : hoare rv St (delete_job env name) (λ _, True).
Proof. eapply hoare_bind; [apply hoare_call_or_exit|]. intros _ _. frame. Qed.

Lemma hoare_last_pod env name :
  hoare rv St (last_pod env name) (λ p, match p with Some p => pod_ok p | None => True end).
Proof.
  eapply hoare_bind; [apply hoare_call|]. intros f _. apply hoare_get. intros w Hw.
  apply hoare_ret. destruct f; [done|]. destruct (last _) as [p|] eqn:E; [|done].
  apply Hw. apply last_Some_elem_of in E. by apply list_elem_of_filter in E as [_ ?].
Qed.

Lemma terminated_int32 name l : statuses_int32 l → int32_code (terminated name l).
Proof.
  intros Hl z. unfold terminated. destruct (find _ l) as [cs|] eqn:E; [|done].
  simpl. intros Hz. apply find_some in E as [Hin _]. eapply Hl; [by apply list_elem_of_In|done].
Qed.
Lemma hoare_exit_code env name : hoare rv St (extractExitCodeFromJob env name) int32_code.
Proof.
  eapply hoare_bind; [apply hoare_last_pod|]. intros [p|] Hp; [|by apply hoare_ret].
  apply hoare_ret. destruct Hp. simpl. unfold extractExitCodeFromPod.
  destruct (terminated _ (pod_ContainerStatuses p)) as [c|] eqn:E.
  - rewrite <-E. by apply terminated_int32.
  - by apply terminated_int32.
Qed.
Lemma hoare_image_id env name : hoare rv St (extractImageIDFromJob env name) (λ _, True).
Proof. eapply hoare_bind; [apply hoare_last_pod|]. intros p _. by apply hoare_ret. Qed.

(** A 32-bit exit code is printed, so a message is always extracted. *)
Lemma ExtractStatusMessage_total logs code :
  (- 2 ^ 31 ≤ code < 2 ^ 31)%Z → ∃ m, ExtractStatusMessage logs code = Some m.
Proof.
  intros Hc. unfold ExtractStatusMessage. case_match; [eauto|].
  destruct (find _ _) as [l|]; [eauto|].
  destruct (code =? 0)%Z; simpl; [eauto|].
  destruct (status_itoa code) as [s|] eqn:E; simpl; [eauto|].
  exfalso. unfold status_itoa in E. destruct (code =? 0)%Z eqn:E0; [done|]. to_arith.
  destruct (code <? 0)%Z eqn:E1; to_arith.
  - rewrite wrap64_id in E by (unfold min_int64, max_int64, two63 in *; lia).
    destruct (itoa_loop_pretty 19 20 (- code) EmptyString) as (k & Hk & Hlt); [lia|lia|].
    rewrite Hk in E. destruct k; [lia|done].
  - destruct (itoa_loop_pretty 19 20 code EmptyString) as (k & Hk & Hlt); [lia|lia|].
    by rewrite Hk in E.
Qed.

Lemma hoare_message r env name code : (- 2 ^ 31 ≤ code < 2 ^ 31)%Z →
  hoare rv St (extractComponentStatusMessage r env name code) (λ _, True).
Proof.
  intros Hc. unfold extractComponentStatusMessage. destruct (negb _); [by apply hoare_ret|].
  eapply (hoare_bind _ _ _ _ (λ _, True)).
  - eapply hoare_bind; [apply hoare_last_pod|]. intros [p|] _; [|by apply hoare_ret].
    eapply hoare_bind; [apply hoare_call|]. intros f _. by apply hoare_ret.
  - intros [logs|] _; [|by apply hoare_ret].
    destruct (ExtractStatusMessage_total logs code Hc) as [m ->]. by apply hoare_ret.
Qed.

Lemma hoare_patch_pods env runID pods : (∀ p, p ∈ pods → pod_ok p) →
  hoare rv St (patch_pods env runID pods) (λ ps, ∀ p, p ∈ ps → pod_ok p).
Proof.
  induction pods as [|p pods IH]; intros Hp; simpl; [by apply hoare_ret|].
  assert (pod_ok p) as Hpo by (apply Hp; constructor).
  assert (hoare rv St (patch_pods env runID pods) (λ ps, ∀ p, p ∈ ps → pod_ok p)) as IH'
    by (apply IH; intros q Hq; apply Hp; by constructor).
  destruct (_ && _).
  - eapply hoare_bind; [apply hoare_call|]. intros f _. eapply hoare_bind; [exact IH'|].
    intros ps Hps. apply hoare_ret. intros q. destruct f; intros [->|Hq]%elem_of_cons; auto.
  - eapply hoare_bind; [exact IH'|]. intros ps Hps. apply hoare_ret.
    intros q [->|Hq]%elem_of_cons; auto.
Qed.
Lemma hoare_cancel env pr : hoare rv St (propagateCancelToPods env pr) (λ _, True).
Proof.
  unfold propagateCancelToPods. destruct (str_empty _); [by apply hoare_ret|].
  eapply hoare_bind; [apply hoare_call|]. intros [e|] _; [by apply hoare_ret|].
  apply hoare_get. intros w Hw. eapply hoare_bind; [by apply hoare_patch_pods|].
  intros ps Hps w' Hw'. simpl. done.
Qed.
End Leaves.

(** ** Admission *)

(** What validation leaves for admission: names are unique. *)
Definition names_unique (p : Pipeline) : Prop :=
  NoDup (map c_Name (flat_map st_Components (ps_Stages (p_Spec p)))).

(** No byte of [s] is [b]. *)
Definition free_of (b : ascii) (s : string) : bool := forall_byte (λ c, negb (Ascii.eqb b c)) s.

Lemma cut_prefix_free b p s r : free_of b s = true → cut_prefix p s = Some r → free_of b p = true.
Proof.
  revert s. induction p as [|c p IH]; intros s Hs Hc; [done|]. destruct s as [|d s]; [done|].
  simpl in *. destruct (Ascii.eqb_spec c d) as [->|]; [|done].
  apply andb_true_iff in Hs as [Hd Hs]. unfold free_of in *. simpl. rewrite Hd. simpl. eauto.
Qed.
Lemma contains_free b sub s : free_of b s = true → contains sub s = true → free_of b sub = true.
Proof.
  intros Hs. induction s as [|c s IH]; simpl; unfold has_prefix.
  - rewrite orb_false_r. destruct (cut_prefix sub _) eqn:E; [|done]. intros _. by eapply cut_prefix_free.
  - destruct (cut_prefix sub _) eqn:E; simpl; [intros _; by eapply cut_prefix_free|].
    apply IH. unfold free_of in *. simpl in Hs. by apply andb_true_iff in Hs as [_ ?].
Qed.
Lemma free_of_app b s t : free_of b (s +:+ t) = free_of b s && free_of b t.
Proof. apply forall_byte_app. Qed.

Lemma pretty_N_digits n s : free_of "u" s = true → free_of "u" (pretty_N_go n s) = true.
Proof.
  revert s. induction (N.lt_wf_0 n) as [n _ IH]; intros s Hs.
  destruct (decide (n = 0%N)) as [->|Hn]; [by rewrite pretty_N_go_0|].
  rewrite pretty_N_go_step by lia. apply IH; [apply N.div_lt; lia|].
  change (negb (Ascii.eqb "u" (pretty_N_char (n `mod` 10))) && free_of "u" s = true).
  rewrite Hs, andb_true_r. unfold pretty_N_char. by repeat case_match.
Qed.
Lemma itoa_nat_free i : free_of "u" (itoa_nat i) = true.
Proof.
  unfold itoa_nat, pretty, pretty_nat, pretty, pretty_N. case_decide; [done|]. by apply pretty_N_digits.
Qed.
Lemma component_path_free i j : free_of "u" (component_path i j) = true.
Proof. unfold component_path, index. by rewrite !free_of_app, !itoa_nat_free. Qed.

(** A finding about a component's name is not about resources. *)
Lemma name_path_kept i j fs msg :
  firstErrorFinding (nonResourceFindings fs) = None →
  error_finding (component_path i j +:+ ".name") msg ∉ fs.
Proof.
  intros Hf Hin. unfold firstErrorFinding in Hf. apply (find_none _ _) with
    (x := error_finding (component_path i j +:+ ".name") msg) in Hf; [done|].
  apply list_elem_of_In, list_elem_of_filter. split; [|done]. cbn [f_Path error_finding].
  destruct (contains ".resources" _) eqn:E; [|done].
  apply (contains_free "u") in E; [done|]. by rewrite free_of_app, component_path_free.
Qed.

Lemma elem_of_concat_imap {A B} (f : nat → A → list B) l i x b :
  l !! i = Some x → b ∈ f i x → b ∈ concat (imap f l).
Proof.
  intros Hi Hb. apply list_elem_of_In, in_concat. exists (f i x).
  split; [|by apply list_elem_of_In]. apply list_elem_of_In, list_elem_of_lookup.
  exists i. by rewrite list_lookup_imap, Hi.
Qed.

Lemma nameless_reported {R} `{!RegistryView R} (reg : option R) k i cs avail c j :
  cs !! j = Some c → c_Name c = EmptyString →
  ∃ msg, error_finding (component_path i (k + j) +:+ ".name") msg ∈ (validate_components i k cs reg avail).1.
Proof.
  revert k avail j. induction cs as [|c0 cs IH]; intros k avail j Hj Hn; [done|].
  cbn [validate_components]. cbv zeta.
  destruct j as [|j]; simplify_eq/=.
  - destruct (validate_components i (S k) cs reg _). rewrite Nat.add_0_r.
    cbn [fst]. eexists. rewrite !elem_of_app. left. unfold validateComponent. rewrite Hn. cbn [report str_empty].
    rewrite !elem_of_app. left. by constructor.
  - destruct (IH (S k) (match c_Outputs c0 with Some o => registerOutputs o avail | None => avail end) j Hj Hn)
      as [msg Hin]. destruct (validate_components i (S k) cs reg _). exists msg. cbn [fst] in *.
    rewrite !elem_of_app, Nat.add_succ_r. by right; right.
Qed.
Lemma nameless_stage_reported {R} `{!RegistryView R} (reg : option R) k stages avail st i c j :
  stages !! i = Some st → st_Components st !! j = Some c → c_Name c = EmptyString →
  ∃ msg, error_finding (component_path (k + i) j +:+ ".name") msg ∈ validate_stages k stages reg avail.
Proof.
  revert k avail i. induction stages as [|st0 stages IH]; intros k avail i Hi Hj Hn; [done|].
  cbn [validate_stages]. cbv zeta. destruct i as [|i]; simplify_eq/=.
  - destruct (nameless_reported reg 0 k (st_Components st) avail c j Hj Hn) as [msg Hin].
    destruct (validate_components k 0 _ reg avail). rewrite Nat.add_0_r. exists msg.
    rewrite !elem_of_app. by right; right; left.
  - destruct (validate_components k 0 (st_Components st0) reg avail) as [fs av].
    destruct (IH (S k) av i Hi Hj Hn) as [msg Hin]. exists msg. rewrite !elem_of_app, Nat.add_succ_r.
    by right; right; right.
Qed.

(** Duplicate names are reported at some component's name. *)
Lemma unique_names_paths ps seen f : f ∈ unique_names ps seen →
  ∃ i j msg, f = error_finding (component_path i j +:+ ".name") msg.
Proof.
  revert seen. induction ps as [|[[i j] c] ps IH]; intros seen; simpl; [by intros ?%elem_of_nil|].
  destruct (str_empty _); [apply IH|]. case_bool_decide; [|apply IH].
  intros [->|Hf]%elem_of_cons; [eauto|by eapply IH].
Qed.

Lemma admitted_names (p : Pipeline) (reg : ComponentRegistry) :
  firstErrorFinding (nonResourceFindings (ValidateTyped (Some p) (Some reg) None)) = None → names_unique p.
Proof.
  intros Hf.
  assert (Forall (λ c, c_Name c ≠ EmptyString) (flat_map st_Components (ps_Stages (p_Spec p)))) as Hne.
  { apply Forall_forall. intros c Hin Hn. apply list_elem_of_In, in_flat_map in Hin as (st & Hst & Hc).
    apply list_elem_of_In, list_elem_of_lookup in Hst as [i Hi].
    apply list_elem_of_In, list_elem_of_lookup in Hc as [j Hj].
    destruct (nameless_stage_reported (Some reg) 0 _ (∅, ∅) st i c j Hi Hj Hn) as [msg Hm].
    eapply name_path_kept; [exact Hf|]. unfold ValidateTyped. cbv zeta. rewrite !elem_of_app.
    right; right; left. exact Hm. }
  assert (errors (checkUniqueComponentNames p) = []) as Hu.
  { destruct (checkUniqueComponentNames p) as [|f fs] eqn:E; [done|]. exfalso.
    assert (f ∈ checkUniqueComponentNames p) as Hin by (rewrite E; constructor).
    destruct (unique_names_paths _ _ _ Hin) as (i & j & msg & ->).
    eapply name_path_kept; [exact Hf|]. unfold ValidateTyped. cbv zeta. rewrite !elem_of_app.
    right; right; right; left. exact Hin. }
  unfold checkUniqueComponentNames in Hu. apply unique_names_ok in Hu as [Hu _].
  - unfold names_unique. by rewrite <-positions_components, map_map.
  - rewrite <-positions_components, Forall_forall in Hne. apply Forall_forall. intros x Hx.
    apply Hne, list_elem_of_fmap. eauto.
Qed.

Section Admission.
Context (pr : PipelineRun).
Abbreviation rv := (pr_ResourceVersion pr).

(** The in-memory run while it is being admitted: nothing but the run ID, the
    message and the conditions has been touched. *)
Definition admitting (pr' : PipelineRun) : Prop :=
  pr_ResourceVersion pr' = rv ∧ s_ResolvedSpec (pr_Status pr') = s_ResolvedSpec (pr_Status pr) ∧
  s_StageStatuses (pr_Status pr') = s_StageStatuses (pr_Status pr) ∧
  s_Components (pr_Status pr') = s_Components (pr_Status pr).

(** Rejections are acceptable. *)
Context (St : PipelineRunStatus → Prop).
Context (Hreject : ∀ pr', admitting pr' → failed (s_Phase (pr_Status pr')) = true → St (pr_Status pr')).

Lemma hoare_reject {A} env pr' o (Φ : A → Prop) : admitting pr' → failed (s_Phase (pr_Status pr')) = true →
  o ≠ Panicked → hoare rv St (update_return env pr' o) Φ.
Proof. intros Ha Hf Ho. apply hoare_update_return; [auto|apply Ha|done]. Qed.
Lemma hoare_fail_user {A} env msg pr' (Φ : A → Prop) : admitting pr' →
  hoare rv St (fail_user env msg pr') Φ.
Proof. intros H. by apply hoare_reject. Qed.

Lemma hoare_transient {A} env pr' msg (Φ : A → Prop) : admitting pr' →
  hoare rv St (requeueOnTransientAdmissionError env pr' msg) Φ.
Proof.
  intros H. eapply (hoare_bind _ _ _ _ (λ _, True)); [by intros w Hw|]. intros n _.
  destruct (n <? _)%nat; [by apply hoare_exit|].
  eapply (hoare_bind _ _ _ _ (λ _, True)); [by apply hoare_modify|]. intros _ _.
  by apply hoare_reject.
Qed.

Lemma hoare_snapshot env pr' pipeline :
  hoare rv St (snapshotRunSecrets env pr' pipeline) (λ _, True).
Proof.
  unfold snapshotRunSecrets. destruct (ReferencedSecrets _) as [|n refs]; [by apply hoare_ret|].
  eapply hoare_bind; [apply hoare_get_secret|]. intros [s|] _; [by apply hoare_ret|].
  eapply hoare_bind; [apply hoare_get_secret|]. intros project _.
  destruct (filter _ _); [|by apply hoare_ret].
  eapply hoare_bind; [apply hoare_call_or_exit|]. intros _ _.
  eapply hoare_bind; [apply hoare_create_secret|]. intros _ _. by apply hoare_ret.
Qed.

(** The Pipeline a run is admitted with. *)
Definition fetched (env : Env) (p : Pipeline) : Prop :=
  match rs_PipelineSpec (pr_Spec pr) with
  | Some spec => p = MkPipeline (pr_Name pr) (pr_Namespace pr) 0 spec
  | None => rs_PipelineRef (pr_Spec pr) ≠ EmptyString ∧
            e_pipeline env (rs_PipelineRef (pr_Spec pr)) = Ok (Some p)
  end.

Lemma hoare_fetch env : hoare rv St (fetch_pipeline env pr) (fetched env).
Proof.
  unfold fetch_pipeline, fetched. destruct (rs_PipelineSpec _); [by apply hoare_ret|].
  destruct (str_empty _) eqn:Ee; [by apply hoare_fail_user|]. apply str_empty_false in Ee.
  destruct (e_pipeline env _) as [[p|]|e] eqn:E; [by apply hoare_ret| |by apply hoare_exit].
  - eapply (hoare_bind _ _ _ _ (λ _, True)); [by intros w Hw|]. intros n _.
    destruct (n <? _)%nat; [by apply hoare_exit|].
    eapply (hoare_bind _ _ _ _ (λ _, True)); [by apply hoare_modify|]. intros _ _.
    by apply hoare_fail_user.
Qed.
Lemma hoare_run_id env : hoare rv St (determine_run_id env pr) (λ _, True).
Proof.
  unfold determine_run_id. destruct (str_empty _); [by apply hoare_ret|].
  destruct (uuid_Parse _); [by apply hoare_ret|by apply hoare_fail_user].
Qed.

(** The resolve loop: each component with what the registry and the clamp
    make of it. *)
Definition resolved_as (env : Env) (c : ComponentSpec) (c' : ComponentSpec)
    (rcs : ResolvedComponentStatus) : Prop :=
  ∃ rc fs, Resolve (e_registry_resolve env) (c_Component c) (c_Version c) = (Some rc, fs) ∧
    c' = with_resources (cl_Resources (applyDefaultsThenClamp (c_Resources c)
           (cr_Default (rc_Resources rc)) (cr_Max (rc_Resources rc)))) c ∧
    rcs = MkResolvedComponentStatus (c_Name c) (rc_Component rc) (rc_Version rc) (rc_Image rc) EmptyString.
Definition stage_renamed (st st' : StageSpec) : Prop :=
  st_Name st' = st_Name st ∧ length (st_Components st') = length (st_Components st).

Lemma hoare_resolve_component env pr' comp : admitting pr' →
  hoare rv St (resolve_component env pr' comp) (λ '(c, rc, _), resolved_as env comp c rc).
Proof.
  intros H. unfold resolve_component, resolved_as. destruct (Resolve _ _ _) as [[rc|] fs].
  - apply hoare_ret. eauto.
  - destruct (firstTransientFinding fs); [by apply hoare_transient|by apply hoare_fail_user].
Qed.
Lemma hoare_resolve_components env pr' comps : admitting pr' →
  hoare rv St (resolve_components env pr' comps) (λ '(cs, rcs, _), Forall3 (resolved_as env) comps cs rcs).
Proof.
  intros H. induction comps as [|c comps IH]; simpl; [apply hoare_ret; constructor|].
  eapply hoare_bind; [by apply hoare_resolve_component|]. intros [[c' rc] n] ?.
  eapply hoare_bind; [apply IH|]. intros [[cs rcs] ns] ?. apply hoare_ret. by constructor.
Qed.
Lemma hoare_resolve_stages env pr' stages : admitting pr' →
  hoare rv St (resolve_stages env pr' stages)
    (λ '(sts, rcs, _), Forall2 stage_renamed stages sts ∧
       Forall3 (resolved_as env) (flat_map st_Components stages) (flat_map st_Components sts) rcs).
Proof.
  intros H. induction stages as [|st stages IH]; simpl; [apply hoare_ret; by split; constructor|].
  eapply hoare_bind; [by apply hoare_resolve_components|]. intros [[cs rcs] ns] H1.
  eapply hoare_bind; [apply IH|]. intros [[sts rcs'] ns'] [H2 H3]. apply hoare_ret. simpl.
  split; [constructor; [split; [done|symmetry; by eapply Forall3_length_lm]|done]|by apply Forall3_app].
Qed.

Lemma resolved_names env cs cs' rcs : Forall3 (resolved_as env) cs cs' rcs →
  map c_Name cs' = map c_Name cs ∧ map rcs_Name rcs = map c_Name cs.
Proof.
  induction 1 as [|c c' rc cs cs' rcs (? & ? & _ & -> & ->) _ [IH1 IH2]]; [done|].
  simpl. by rewrite IH1, IH2.
Qed.

(** Validation against the registry lets the pipeline through. *)
Definition accepted (env : Env) (p : Pipeline) : Prop :=
  let findings := ValidateTyped (Some p) (Some (e_registry env)) None in
  firstTransientFinding findings = None ∧ firstErrorFinding (nonResourceFindings findings) = None.

(** The status of an admitted run. *)
Definition admitted_as (env : Env) (pipeline : Pipeline) (s : PipelineRunStatus) : Prop :=
  fetched env pipeline ∧ accepted env pipeline ∧
  s_Phase s = PipelineRunPhaseRunning ∧ s_StartTime s = Some (e_now env) ∧
  s_PipelineGeneration s = p_Generation pipeline ∧ names_unique pipeline ∧
  ∃ stages, s_ResolvedSpec s = Some (MkPipelineSpec (ps_Gateway (p_Spec pipeline)) stages) ∧
    s_StageStatuses s = map pending_stage stages ∧
    Forall2 stage_renamed (ps_Stages (p_Spec pipeline)) stages ∧
    Forall3 (resolved_as env) (flat_map st_Components (ps_Stages (p_Spec pipeline)))
      (flat_map st_Components stages) (s_Components s).

Lemma hoare_handlePending env :
  (∀ pipeline s, admitted_as env pipeline s → St s) → hoare rv St (handlePending env pr) (λ _, False).
Proof.
  intros Hadmit. eapply hoare_bind; [apply hoare_fetch|]. intros pipeline Hfetch.
  eapply (hoare_bind _ _ _ _ (λ _, True)); [by apply hoare_modify|]. intros _ _.
  eapply hoare_bind; [apply hoare_run_id|]. intros runID _. cbv zeta.
  eapply hoare_bind; [apply hoare_snapshot|]. intros missing _.
  destruct (negb (is_empty missing)); [by apply hoare_reject|].
  destruct (firstTransientFinding _) eqn:Et; [by apply hoare_transient|].
  destruct (firstErrorFinding _) as [f|] eqn:Ef; [by apply hoare_fail_user|].
  assert (accepted env pipeline) as Hacc by done. apply admitted_names in Ef.
  eapply hoare_bind; [by apply hoare_resolve_stages|]. intros [[stages comps] notes] [Hst Hres].
  eapply (hoare_bind _ _ _ _ (λ _, True)); [by apply hoare_modify|]. intros _ _.
  apply hoare_update_return; [apply (Hadmit pipeline)| |done];
    unfold admit_run, updateSecretsResolvedCondition; cbv zeta;
    destruct (is_empty notes), (is_empty (ReferencedSecrets _)); try done;
    (split_and!; try done; exists stages; done).
Qed.
End Admission.

Lemma admitted_step pr env pipeline s s' :
  unadmitted (s_Phase s) = true → admitted_as pr env pipeline s' → run_step s s'.
Proof.
  intros Hun (_ & _ & Hp & _ & _ & Hn & stages & Hsp & Hss & _ & Hres).
  eapply run_admit; [done|done|exact Hsp|done|].
  destruct (resolved_names _ _ _ _ Hres) as [H1 H2]. unfold resolution_ok, components_of. simpl.
  rewrite H1, H2. by split.
Qed.

Lemma hoare_pending_step env pr : unadmitted (s_Phase (pr_Status pr)) = true →
  hoare (pr_ResourceVersion pr) (run_step (pr_Status pr)) (handlePending env pr) (λ _, False).
Proof.
  intros Hun. apply hoare_handlePending.
  - intros pr' (_ & H1 & H2 & H3) Hf. by apply run_reject.
  - intros pipeline s. by apply admitted_step.
Qed.

(** ** Execution *)

Section Polling.
Context (rv : nat) (St : PipelineRunStatus → Prop).

Lemma record_image_step name image l : Forall2 image_step l (record_image name image l).
Proof.
  induction l as [|rc l IH]; simpl; [constructor|].
  destruct (bool_decide _ && _) eqn:E; constructor; try done.
  apply andb_true_iff in E as [_ E]. apply str_empty_true in E. by unfold image_step.
Qed.
Lemma recordComponentImageID_step name image l :
  Forall2 image_step l (recordComponentImageID name image l).
Proof. unfold recordComponentImageID. destruct (str_empty image); [done|apply record_image_step]. Qed.

Lemma hoare_timeout_components r env pr stageName comps statuses :
  hoare rv St (timeout_components r env pr stageName comps statuses) (Forall2 comp_step statuses).
Proof.
  revert statuses. induction comps as [|c comps IH]; intros statuses; simpl; [by apply hoare_ret|].
  eapply (hoare_bind _ _ _ _ (Forall2 comp_step statuses)).
  - destruct (componentStatusByName statuses (c_Name c)) as [[i cs]|] eqn:E; [|by apply hoare_ret].
    destruct (componentTerminal (cs_Phase cs)) eqn:Ht; [by apply hoare_ret|].
    eapply hoare_bind; [by apply hoare_message|]. intros line _. apply hoare_ret.
    apply list_find_Some in E as (Hi & _).
    rewrite <-(list_insert_id statuses i cs Hi) at 1. apply Forall2_insert; [done|].
    split; [done|congruence].
  - intros l1 H1. eapply hoare_bind; [apply hoare_delete_job|]. intros _ _.
    eapply hoare_weaken; [apply IH|]. intros l2 H2. by etrans.
Qed.

(** The flags say that every component has succeeded. *)
Definition clear (k : check_state) : bool :=
  k_allSucceeded k && negb (k_anyFailedUser k || k_anyFailedApp k).

Lemma hoare_check_condition r env name code c cs k : int32_code code →
  hoare rv St (check_condition r env name code c (cs, k))
    (λ '(cs', k'), cs_Name cs' = cs_Name cs ∧ k_components k' = k_components k ∧
       k_allSucceeded k' = k_allSucceeded k).
Proof.
  intros Hcode. unfold check_condition. destruct (jc_Type c), (jc_Status c); try (by apply hoare_ret).
  - eapply hoare_bind; [by apply hoare_message|]. intros msg _. apply hoare_ret. by destruct (str_empty msg).
  - cbv zeta. eapply (hoare_bind _ _ _ _ (λ x, cs_Name x.1 = cs_Name cs)).
    + destruct code as [z|]; [|by apply hoare_ret].
      eapply hoare_bind; [by apply hoare_message, Hcode|]. intros msg _. by apply hoare_ret.
    + intros [cs' user] Hn. by apply hoare_ret.
Qed.
Lemma hoare_check_conditions r env name code conds cs k : int32_code code →
  hoare rv St (check_conditions r env name code conds (cs, k))
    (λ '(cs', k'), cs_Name cs' = cs_Name cs ∧ k_components k' = k_components k ∧
       k_allSucceeded k' = k_allSucceeded k).
Proof.
  intros Hcode. revert cs k. induction conds as [|c conds IH]; intros cs k; simpl; [by apply hoare_ret|].
  eapply hoare_bind; [by apply hoare_check_condition|]. intros [cs1 k1] (H1 & H2 & H3).
  eapply hoare_weaken; [apply IH|]. intros [cs2 k2]. by rewrite H1, H2, H3.
Qed.

Lemma hoare_check_component r env pr stageName cs k :
  hoare rv St (check_component r env pr stageName cs k)
    (λ '(cs', k'), comp_step cs cs' ∧ Forall2 image_step (k_components k) (k_components k') ∧
       (clear k' = true → clear k = true ∧ cs' = cs ∧ cs_Phase cs = ComponentPhaseSucceeded)).
Proof.
  unfold check_component.
  destruct (componentTerminal (cs_Phase cs)) eqn:Ht.
  { destruct (cs_Phase cs) eqn:Hp; try done; apply hoare_ret; split_and!; try done;
      unfold clear, note_failed; simpl; rewrite ?orb_true_r, ?andb_false_r; done. }
  assert (hoare rv St (job ← get_job env (componentJobName pr stageName (cs_Name cs));
      match job with
      | None => mret (cs, note_pending k)
      | Some job =>
        exitCode ← extractExitCodeFromJob env (componentJobName pr stageName (cs_Name cs));
        imageID ← extractImageIDFromJob env (componentJobName pr stageName (cs_Name cs));
        check_conditions r env (componentJobName pr stageName (cs_Name cs)) exitCode
          (jo_Conditions job) (cs, note_image (cs_Name cs) imageID (note_pending k))
      end) (λ '(cs', k'), cs_Name cs' = cs_Name cs ∧ Forall2 image_step (k_components k) (k_components k') ∧
              k_allSucceeded k' = false)) as H.
  { eapply hoare_bind; [apply hoare_get_job|]. intros [job|] _; [|by apply hoare_ret].
    eapply hoare_bind; [apply hoare_exit_code|]. intros code Hcode.
    eapply hoare_bind; [apply hoare_image_id|]. intros image _.
    eapply hoare_weaken; [by apply hoare_check_conditions|]. intros [cs' k'] (H1 & H2 & H3).
    split_and!; [done| |by rewrite H3]. rewrite H2. simpl. apply recordComponentImageID_step. }
  destruct (cs_Phase cs) eqn:Hp; try done;
    (eapply hoare_weaken; [exact H|]; intros [cs' k'] (H1 & H2 & H3); split_and!;
      [by split; rewrite ?Hp|done|unfold clear; by rewrite H3]).
Qed.

Lemma hoare_check_components r env pr stageName comps statuses k :
  statuses_for comps statuses →
  hoare rv St (check_components r env pr stageName comps statuses k)
    (λ '(l, k'), Forall2 comp_step statuses l ∧ Forall2 image_step (k_components k) (k_components k') ∧
       (clear k' = true → clear k = true ∧ l = statuses ∧
          Forall (has_phase ComponentPhaseSucceeded) statuses)).
Proof.
  intros Hst. revert k. induction Hst as [|c cs comps statuses Hc Hst IH]; intros k; simpl.
  { apply hoare_ret. split_and!; [constructor|done|]. by intros. }
  eapply hoare_bind; [apply hoare_check_component|]. intros [cs1 k1] (H1 & H2 & H3).
  eapply hoare_bind; [apply IH|]. intros [l k2] (H4 & H5 & H6). apply hoare_ret.
  split_and!; [by constructor|by etrans|]. intros Hk2. destruct (H6 Hk2) as (Hk1 & -> & ?).
  destruct (H3 Hk1) as (? & -> & ?). split_and!; [done|done|by constructor].
Qed.
End Polling.

Section Running.
Context (pr : PipelineRun) (Hrun : s_Phase (pr_Status pr) = PipelineRunPhaseRunning)
  (Hok : run_ok (pr_Status pr)).
Abbreviation St := (run_step (pr_Status pr)).
Abbreviation rv := (pr_ResourceVersion pr).

(** The in-memory run while its current stage is executed. *)
Definition executing (pr' : PipelineRun) : Prop :=
  pr_ResourceVersion pr' = rv ∧ frozen (pr_Status pr) (pr_Status pr') ∧
  s_Phase (pr_Status pr') = PipelineRunPhaseRunning ∧
  s_StageStatuses (pr_Status pr') = s_StageStatuses (pr_Status pr).

Section Stage.
Context (spec : PipelineSpec) (i : nat) (st : StageSpec) (ss : StageStatus)
  (Hspec : s_ResolvedSpec (pr_Status pr) = Some spec) (Hst : ps_Stages spec !! i = Some st)
  (Hcur : current i ss (s_StageStatuses (pr_Status pr))).

Lemma hoare_stage_update {A} env pr' ss' o (Φ : A → Prop) :
  executing pr' → stage_step st ss ss' → ss_Name ss' = ss_Name ss → o ≠ Panicked →
  hoare rv St (update_return env (set_stage i ss' pr') o) Φ.
Proof.
  intros (Hrv & Hfr & Hp & Hss) Hstep Hn Ho. apply hoare_update_return; [|done|done].
  eapply (run_stage _ _ spec i st ss ss'); try done. simpl. by rewrite Hss.
Qed.

Lemma hoare_start_components r env pr' pre comps post :
  executing pr' → ss_Phase ss = StagePhasePending →
  Forall2 (λ c s, cs_Name s = c_Name c) comps post →
  hoare rv St (start_components r env pr' i ss (length pre) comps (pre ++ post))
    (λ l, ∃ post', l = pre ++ post' ∧
       Forall2 (λ c s, cs_Name s = c_Name c ∧ cs_Phase s = ComponentPhaseRunning) comps post').
Proof.
  intros Hex Hp. revert pre post. induction comps as [|c comps IH]; intros pre post Hpost; simpl.
  { apply Forall2_nil_inv_l in Hpost as ->. apply hoare_ret. exists []. done. }
  apply Forall2_cons_inv_l in Hpost as (s & post' & Hn & Hpost & ->).
  destruct (buildComponentJob r pr' c (e_now env)) as [[job cm]|e].
  - do 2 (eapply hoare_bind; [apply hoare_call_or_exit|]; intros _ _).
    eapply hoare_bind; [apply hoare_create_configmap|]. intros _ _.
    eapply hoare_bind; [apply hoare_create_job|]. intros _ _.
    rewrite (alter_app_r_alt _ pre) by lia. rewrite Nat.sub_diag. simpl.
    set (s' := started env (j_Name job) s).
    replace (pre ++ s' :: post') with ((pre ++ [s']) ++ post') by (by rewrite <-app_assoc).
    replace (S (length pre)) with (length (pre ++ [s'])) by (rewrite length_app; simpl; lia).
    eapply hoare_weaken; [by apply IH|]. intros l (p2 & -> & Hp2).
    exists (s' :: p2). split; [by rewrite <-app_assoc|]. by constructor.
  - apply hoare_stage_update; [done| |done|done]. apply stage_build_failed; [done|done|]. simpl.
    rewrite (alter_app_r_alt _ pre) by lia. rewrite Nat.sub_diag. simpl.
    apply Exists_app. right. by constructor.
Qed.

Lemma hoare_startStage r env pr' : executing pr' → ss_Phase ss = StagePhasePending →
  hoare rv St (startStage r env pr' i st ss) (λ _, False).
Proof.
  intros Hex Hp. eapply hoare_bind.
  - apply (hoare_start_components r env pr' [] (st_Components st)); [done|done|].
    clear. induction (st_Components st); simpl; by constructor.
  - intros l (l' & -> & Hl). apply hoare_stage_update; [done| |done|done]. by apply stage_start.
Qed.

Lemma hoare_checkStage r env pr' : executing pr' → ss_Phase ss = StagePhaseRunning →
  hoare rv St (checkStageComponents r env pr' i st ss) (λ _, False).
Proof.
  intros Hex Hp.
  assert (statuses_for (st_Components st) (ss_ComponentStatuses ss)) as Hfor.
  { destruct (run_ok_running _ _ Hspec Hok) as [Hall _].
    destruct (Forall2_lookup_lr _ _ _ _ _ _ Hall Hst (proj1 Hcur)) as [_ H]. by rewrite Hp in H. }
  eapply hoare_bind; [by apply hoare_check_components|]. intros [l k] (Hl & Himg & Hclear). cbv zeta.
  assert (executing (on_status (s_set_Components (k_components k)) pr')) as Hex'.
  { destruct Hex as (H1 & (F1 & F2 & F3 & F4 & F5) & H2 & H3). split_and!; try done.
    unfold frozen. simpl. split_and!; try done. by etrans. }
  unfold clear in Hclear. simpl in Himg.
  destruct (k_anyFailedUser k || k_anyFailedApp k) eqn:Ef.
  - apply hoare_stage_update; [done| |by destruct (k_anyFailedUser k)|done].
    destruct (k_anyFailedUser k); [by apply stage_fail_user|by apply stage_fail_application].
  - destruct (k_allSucceeded k).
    + destruct (Hclear eq_refl) as (_ & -> & Hall). apply hoare_stage_update; [done| |done|done].
      by apply stage_succeed.
    + destruct Hex' as (H1 & H2 & H3 & H4).
      eapply (hoare_update _ _ _ _ _ (λ _, RequeueAfter PipelineRunRequeueInterval)); try done.
      eapply (run_stage _ _ spec i st ss (ss_set_ComponentStatuses l ss)); try done; [by apply stage_poll|].
      simpl. by rewrite <-H4.
Qed.

Lemma hoare_timeout r env pr' timeout : executing pr' → stage_active (ss_Phase ss) = true →
  hoare rv St (failPreviewTimeout r env pr' i st ss timeout) (λ _, False).
Proof.
  intros (Hrv & Hfr & Hp & Hss) Hact. eapply hoare_bind; [apply hoare_cancel|]. intros _ _.
  eapply hoare_bind; [apply hoare_timeout_components|]. intros l Hl. cbv zeta.
  apply hoare_update_return; [|done|done].
  eapply (run_timeout _ _ i ss (ss_set_CompletionTime (Some (e_now env)) (ss_set_Message _
    (ss_set_Phase StagePhaseFailedUser (ss_set_ComponentStatuses l ss))))); try done.
  simpl. by rewrite Hss.
Qed.

Lemma hoare_fail_with_stage env phase pr' : executing pr' →
  ss_Phase ss = StagePhaseFailedUser ∧ phase = PipelineRunPhaseFailedUser ∨
  ss_Phase ss = StagePhaseFailedApplication ∧ phase = PipelineRunPhaseFailedApplication →
  hoare rv St (fail_with_stage env phase st ss pr') (λ _ : outcome, False).
Proof.
  intros (Hrv & Hfr & Hp & Hss) Hph. apply hoare_update_return; [|done|done].
  by eapply (run_fail _ _ i ss).
Qed.
End Stage.

Lemma current_stage_current l i ss : current_stage l = Some (i, ss) → current i ss l.
Proof.
  unfold current_stage, succeeded_stage. intros (Hi & Hns & Hb)%list_find_Some.
  apply bool_decide_eq_false in Hns. split_and!; [done|done|]. intros j s Hj Hlt.
  specialize (Hb j s Hlt Hj). apply not_false_is_true in Hb. by apply bool_decide_eq_true in Hb.
Qed.
Lemma current_stage_none l : current_stage l = None → Forall (λ ss, ss_Phase ss = StagePhaseSucceeded) l.
Proof.
  unfold current_stage, succeeded_stage. intros H%list_find_None. eapply Forall_impl; [exact H|].
  intros ss Hs. apply not_false_is_true in Hs. by apply bool_decide_eq_true in Hs.
Qed.

Lemma hoare_handleRunning r env : hoare rv St (handleRunning r env pr) (λ _, False).
Proof.
  unfold handleRunning. pose proof Hok as Hok'. unfold run_ok in Hok'.
  destruct (s_ResolvedSpec (pr_Status pr)) as [spec|] eqn:Hspec; [|by destruct (proj1 Hok' Hrun)].
  clear Hok'. destruct (run_ok_running _ _ Hspec Hok) as [Hall _].
  destruct (current_stage (s_StageStatuses (pr_Status pr))) as [[i ss]|] eqn:Ecur.
  2: { apply current_stage_none in Ecur. apply hoare_update_return; [|done|done].
       by apply run_succeed. }
  apply current_stage_current in Ecur as Hcur.
  destruct (Forall2_lookup_r _ _ _ _ _ Hall (proj1 Hcur)) as (st & Hst & _ & Hph). rewrite Hst.
  cbv zeta. set (pr' := on_status (s_set_CurrentStage (st_Name st)) pr).
  assert (executing pr') as Hex by (split_and!; done).
  destruct (rs_Preview (pr_Spec pr')) as [p|], (previewDeadlinePassed (e_now env) pr'),
    (ss_Phase ss) eqn:Hss; try done;
    first
      [ by eapply hoare_timeout; rewrite ?Hss
      | by eapply hoare_startStage
      | by eapply hoare_checkStage
      | by eapply hoare_fail_with_stage; auto
      | destruct Hcur as (_ & Hns & _); congruence ].
Qed.
End Running.

(** ** Reconcile *)

Lemma hoare_reconcile r env pr : run_ok (pr_Status pr) →
  hoare (pr_ResourceVersion pr) (run_step (pr_Status pr)) (reconcile r env (Ok (Some pr))) (λ _, False).
Proof.
  intros Hok. unfold reconcile. cbv zeta.
  set (pr1 := on_status (s_set_ObservedGeneration (pr_Generation pr)) pr).
  assert (∀ (m : M outcome), hoare (pr_ResourceVersion pr1) (run_step (pr_Status pr1)) m (λ _, False) →
    hoare (pr_ResourceVersion pr) (run_step (pr_Status pr)) m (λ _, False)) as Hobs.
  { intros m Hm w Hw. destruct (Hm w Hw) as [Hp H]. split; [done|].
    destruct (m w) as [w' [a|o]]; [by destruct H|]. destruct H as [Ho [Hs|(cur & s & ? & ? & Hs & ?)]];
      (split; [done|]); [by left|right]. exists cur, s. split_and!; try done.
    clear -Hs. inv Hs; [by apply run_reject|by eapply run_admit|by eapply run_stage
      |by eapply run_timeout|by eapply run_fail|by apply run_succeed]. }
  eapply (hoare_bind _ _ _ _ (λ _, True)).
  { destruct (pr_Cancel pr1); [apply hoare_cancel|by apply hoare_ret]. }
  intros _ _. apply Hobs. change (run_ok (pr_Status pr1)) in Hok.
  destruct (s_Phase (pr_Status pr1)) eqn:Hp;
    try (by apply hoare_pending_step; rewrite Hp);
    try (by apply hoare_handleRunning);
    try (by apply hoare_exit);
    (eapply (hoare_bind _ _ _ _ (λ _, True)); [by apply hoare_modify|]; intros _ _;
     eapply (hoare_bind _ _ _ _ (λ _, True)); [by apply hoare_modify|]; intros _ _;
     by apply hoare_exit).
Qed.

(** What a reconcile does to the stored run. *)
Lemma Reconcile_saved r env cached w w' o : pods_ok w →
  match cached with Ok (Some pr) => run_ok (pr_Status pr) | _ => True end →
  Reconcile r env cached w = (w', o) →
  pods_ok w' ∧ o ≠ Panicked ∧
  match cached with
  | Ok (Some pr) => saved (pr_ResourceVersion pr) (run_step (pr_Status pr)) w w'
  | _ => w_run w' = w_run w
  end.
Proof.
  intros Hw Hok HR. unfold Reconcile in HR. destruct cached as [[pr|]|e]; [|by simpl in HR; simplify_eq..].
  pose proof (hoare_reconcile r env pr Hok (w_set_calls 0 w) Hw) as H.
  destruct (reconcile r env (Ok (Some pr)) (w_set_calls 0 w)) as [w1 [a|o1]].
  - by destruct H as (_ & _ & []).
  - injection HR as <- <-. exact H.
Qed.
End Refine.
