(* ===== verification/RunSystem.v ===== *)
(** * RunSystem: a run in its cluster

    The step relation of one PipelineRun: reconciles, from any version of the
    run the operator's cache may still hold, interleaved with what the kubelet,
    the job controller, users and restarts do.  The theorems hold in every
    reachable state. *)

From S2P Require Import Prelude GoValue ApiTypes GoTime Policy Registry ConfigSchema Validate Status RunTypes RunJobs RunController RunMachine RunRefine.

Section System.
Context `{UT : !UnicodeTables} `{Q : !Quantities} `{J : !Json} `{JS : !JsonSchema} `{TR : !Transforms}
  `{KT : !K8sTypes} `{YM : !YamlMarshal} `{CL : !ControllerLib}.

(** ** The step relation *)

(** [sys_seen]: every version of the run the API server has stored, which is
    what a cache may return. *)
Record System := MkSystem { sys_world : World; sys_seen : list PipelineRun }.

Definition with_current (w : World) (seen : list PipelineRun) : list PipelineRun :=
  match w_run w with Some pr => pr :: seen | None => seen end.

(** A user edits spec, labels or annotations: the status stays, the version
    grows. *)
Definition edited (pr pr' : PipelineRun) : Prop :=
  pr_Name pr' = pr_Name pr ∧ pr_Namespace pr' = pr_Namespace pr ∧ pr_Status pr' = pr_Status pr ∧
  pr_ResourceVersion pr < pr_ResourceVersion pr'.

(** Jobs progress or vanish, but keep what they were created with. *)
Definition jobs_progress (jobs jobs' : gmap string JobObject) : Prop :=
  ∀ name j', jobs' !! name = Some j' → ∃ j, jobs !! name = Some j ∧ jo_Job j' = jo_Job j.
(** Only the project Secret is written by others. *)
Definition secrets_progress (s s' : gmap string SecretObject) : Prop :=
  ∀ name, name ≠ ProjectSecretsName → s' !! name = s !! name.

Inductive step : System → System → Prop :=
| step_reconcile r env cached w seen w' o :
    (∀ pr, cached = Ok (Some pr) → pr ∈ seen) → Reconcile r env cached w = (w', o) →
    step (MkSystem w seen) (MkSystem w' (with_current w' seen))
| step_cluster w seen jobs pods secrets configmaps :
    jobs_progress (w_jobs w) jobs → (∀ p, p ∈ pods → pod_ok p) → secrets_progress (w_secrets w) secrets →
    step (MkSystem w seen)
      (MkSystem (MkWorld (w_run w) jobs configmaps secrets pods (w_transientRetries w)
         (w_notFoundRetries w) (w_calls w)) seen)
| step_edit w seen pr pr' :
    w_run w = Some pr → edited pr pr' →
    step (MkSystem w seen) (MkSystem (w_set_run (Some pr') w) (pr' :: seen))
| step_delete w seen : step (MkSystem w seen) (MkSystem (w_set_run None w) seen)
| step_restart w seen : step (MkSystem w seen) (MkSystem (w_set_transient 0 (w_set_notFound 0 w)) seen).

(** A run that was just created; its namespace has none of its objects. *)
Definition initial (sys : System) : Prop :=
  ∃ pr, w_run (sys_world sys) = Some pr ∧ pr_Status pr = empty_status ∧ sys_seen sys = [pr] ∧
    w_jobs (sys_world sys) = ∅ ∧ pods_ok (sys_world sys).
Definition reachable (sys : System) : Prop := ∃ sys0, initial sys0 ∧ rtc step sys0 sys.

(** ** What a reconcile leaves unchanged *)

(** A preorder on worlds that does not look at the run, the config maps, the
    pods and the counters. *)
Record frame (R : World → World → Prop) : Prop := {
  frame_preorder : PreOrder R;
  frame_same : ∀ w w', w_jobs w' = w_jobs w → w_secrets w' = w_secrets w → R w w';
}.

Definition keeps {A} (R : World → World → Prop) (m : M A) : Prop := ∀ w, R w (m w).1.

Section Keeps.
Context (R : World → World → Prop) (HR : frame R).

Lemma keeps_same {A} (m : M A) :
  (∀ w, w_jobs (m w).1 = w_jobs w ∧ w_secrets (m w).1 = w_secrets w) → keeps R m.
Proof. intros H w. destruct (H w). by apply (frame_same R HR). Qed.

Lemma keeps_bind {A B} (m : M A) (f : A → M B) : keeps R m → (∀ a, keeps R (f a)) → keeps R (m ≫= f).
Proof.
  intros Hm Hf w. unfold mbind, M_bind. specialize (Hm w). destruct (m w) as [w1 [a|o]]; simpl in *; [|done].
  pose proof (frame_preorder R HR). etrans; [exact Hm|apply Hf].
Qed.
Lemma keeps_ret {A} (a : A) : keeps R (mret a).
Proof. by apply keeps_same. Qed.
Lemma keeps_exit {A} o : keeps R (exit o : M A).
Proof. by apply keeps_same. Qed.
Lemma keeps_call env : keeps R (call env).
Proof. by apply keeps_same. Qed.
Lemma keeps_get {A} (f : World → M A) : (∀ w, R w (f w w).1) → keeps R (get_world ≫= f).
Proof. intros Hf w. apply Hf. Qed.
Lemma keeps_call_or_exit env : keeps R (call_or_exit env).
Proof. apply keeps_bind; [apply keeps_call|]. intros [e|]; [apply keeps_exit|apply keeps_ret]. Qed.
Lemma keeps_try_update env pr : keeps R (try_update env pr).
Proof.
  apply keeps_bind; [apply keeps_call|]. intros [e|]; [apply keeps_ret|]. apply keeps_get. intros w.
  apply (frame_same R HR); destruct (w_run w); try done; by case_bool_decide.
Qed.
Lemma keeps_update_return {A} env pr o : keeps R (update_return env pr o : M A).
Proof. apply keeps_bind; [apply keeps_try_update|]. intros [e|]; apply keeps_exit. Qed.
Lemma keeps_create_configmap env cm : keeps R (create_configmap env cm).
Proof.
  apply keeps_bind; [apply keeps_call_or_exit|]. intros _. apply keeps_get. intros w.
  apply (frame_same R HR); by destruct (w_configmaps w !! _).
Qed.
Lemma keeps_get_secret env name : keeps R (get_secret env name).
Proof. apply keeps_bind; [apply keeps_call_or_exit|]. intros _. by apply keeps_same. Qed.
Lemma keeps_get_job env name : keeps R (get_job env name).
Proof. apply keeps_bind; [apply keeps_call_or_exit|]. intros _. by apply keeps_same. Qed.
Lemma keeps_last_pod env name : keeps R (last_pod env name).
Proof. apply keeps_bind; [apply keeps_call|]. intros f. by apply keeps_same. Qed.

Lemma keeps_exit_code env name : keeps R (extractExitCodeFromJob env name).
Proof. apply keeps_bind; [apply keeps_last_pod|]. intros p. apply keeps_ret. Qed.
Lemma keeps_image_id env name : keeps R (extractImageIDFromJob env name).
Proof. apply keeps_bind; [apply keeps_last_pod|]. intros p. apply keeps_ret. Qed.
Lemma keeps_message r env name code : keeps R (extractComponentStatusMessage r env name code).
Proof.
  unfold extractComponentStatusMessage. destruct (negb _); [apply keeps_ret|]. apply keeps_bind.
  - apply keeps_bind; [apply keeps_last_pod|]. intros [p|]; [|apply keeps_ret].
    apply keeps_bind; [apply keeps_call|]. intros f. apply keeps_ret.
  - intros [logs|]; [|apply keeps_ret].
    destruct (ExtractStatusMessage logs code); [apply keeps_ret|apply keeps_exit].
Qed.
Lemma keeps_patch_pods env runID pods : keeps R (patch_pods env runID pods).
Proof.
  induction pods as [|p pods IH]; simpl; [apply keeps_ret|]. destruct (_ && _).
  - apply keeps_bind; [apply keeps_call|]. intros f. apply keeps_bind; [exact IH|]. intros ps. apply keeps_ret.
  - apply keeps_bind; [exact IH|]. intros ps. apply keeps_ret.
Qed.
Lemma keeps_cancel env pr : keeps R (propagateCancelToPods env pr).
Proof.
  unfold propagateCancelToPods. destruct (str_empty _); [apply keeps_ret|].
  apply keeps_bind; [apply keeps_call|]. intros [e|]; [apply keeps_ret|]. intros w.
  unfold get_world, mbind, M_bind. pose proof (keeps_patch_pods env (s_RunID (pr_Status pr)) (w_pods w) w) as H.
  destruct (patch_pods env _ (w_pods w) w) as [w1 [ps|o]]; simpl in *; [|done].
  pose proof (frame_preorder R HR). etrans; [exact H|]. by apply (frame_same R HR).
Qed.
End Keeps.

Create HintDb keeps.
#[local] Hint Resolve keeps_ret keeps_exit keeps_call keeps_call_or_exit keeps_update_return
  keeps_create_configmap keeps_get_secret keeps_get_job keeps_exit_code keeps_image_id keeps_message
  keeps_cancel keeps_try_update : keeps.
(** Takes a computation apart into its leaves. *)
Ltac keeps_auto := repeat first
  [ progress (eauto with keeps)
  | apply keeps_bind; [assumption|..|intros]
  | match goal with |- keeps _ (match ?x with _ => _ end) => destruct x end
  | progress cbv zeta ].

Section KeepsRun.
Context (R : World → World → Prop) (HR : frame R).
Context (Hsecret : ∀ env name s, keeps R (create_secret env name s)).
Context (Hdelete : ∀ env name, keeps R (delete_job env name)).
#[local] Hint Resolve Hsecret Hdelete HR : keeps.

Lemma keeps_transient {A} env pr msg : keeps R (requeueOnTransientAdmissionError env pr msg : M A).
Proof.
  apply keeps_bind; [done|by apply keeps_same|]. intros n. destruct (n <? _)%nat; [by apply keeps_exit|].
  apply keeps_bind; [done|by apply keeps_same|]. intros _. by apply keeps_update_return.
Qed.
Lemma keeps_fail_user {A} env msg pr : keeps R (fail_user env msg pr : M A).
Proof. by apply keeps_update_return. Qed.
#[local] Hint Resolve keeps_transient keeps_fail_user : keeps.

Lemma keeps_snapshot env pr pipeline : keeps R (snapshotRunSecrets env pr pipeline).
Proof. unfold snapshotRunSecrets. keeps_auto. Qed.
Lemma keeps_fetch env pr : keeps R (fetch_pipeline env pr).
Proof.
  unfold fetch_pipeline. keeps_auto.
  - by apply keeps_same.
  - by apply keeps_same.
Qed.
Lemma keeps_run_id env pr : keeps R (determine_run_id env pr).
Proof. unfold determine_run_id. keeps_auto. Qed.
Lemma keeps_resolve_component env pr c : keeps R (resolve_component env pr c).
Proof. unfold resolve_component. destruct (Resolve _ _ _) as [[rc|] fs]; keeps_auto. Qed.
Lemma keeps_resolve_components env pr cs : keeps R (resolve_components env pr cs).
Proof. induction cs as [|c cs IH]; simpl; [by apply keeps_ret|]. pose proof (keeps_resolve_component env pr c). keeps_auto. Qed.
Lemma keeps_resolve_stages env pr sts : keeps R (resolve_stages env pr sts).
Proof. induction sts as [|st sts IH]; simpl; [by apply keeps_ret|]. pose proof (keeps_resolve_components env pr (st_Components st)). keeps_auto. Qed.
#[local] Hint Resolve keeps_snapshot keeps_fetch keeps_run_id keeps_resolve_stages : keeps.

Lemma keeps_handlePending env pr : keeps R (handlePending env pr).
Proof. unfold handlePending. keeps_auto; by apply keeps_same. Qed.

Lemma keeps_timeout_components r env pr stageName comps statuses :
  keeps R (timeout_components r env pr stageName comps statuses).
Proof. revert statuses. induction comps as [|c comps IH]; intros statuses; simpl; keeps_auto. Qed.
Lemma keeps_check_conditions r env name code conds st : keeps R (check_conditions r env name code conds st).
Proof.
  revert st. induction conds as [|c conds IH]; intros [cs k]; simpl; [by apply keeps_ret|].
  apply keeps_bind; [done| |intros st; apply IH]. unfold check_condition. keeps_auto.
Qed.
#[local] Hint Resolve keeps_timeout_components keeps_check_conditions : keeps.
Lemma keeps_check_components r env pr stageName comps statuses k :
  keeps R (check_components r env pr stageName comps statuses k).
Proof.
  revert statuses k. induction comps as [|c comps IH]; intros statuses k; simpl; [by apply keeps_ret|].
  destruct statuses as [|cs statuses]; [by apply keeps_exit|].
  apply keeps_bind; [done| |].
  - unfold check_component. keeps_auto.
  - intros [cs' k']. keeps_auto.
Qed.
#[local] Hint Resolve keeps_check_components : keeps.

Section Start.
Context (r : Reconciler) (env : Env) (pr : PipelineRun).
Context (Hjob : ∀ idx ss spec st comp job cm, s_Phase (pr_Status pr) = PipelineRunPhaseRunning →
  s_ResolvedSpec (pr_Status pr) = Some spec → ps_Stages spec !! idx = Some st →
  current_stage (s_StageStatuses (pr_Status pr)) = Some (idx, ss) → ss_Phase ss = StagePhasePending →
  comp ∈ st_Components st → buildComponentJob r pr comp (e_now env) = Ok (job, cm) →
  keeps R (create_job env job)).

Lemma keeps_start_components pr' idx ss i comps statuses :
  (∀ comp job cm, comp ∈ comps → buildComponentJob r pr' comp (e_now env) = Ok (job, cm) →
    keeps R (create_job env job)) →
  keeps R (start_components r env pr' idx ss i comps statuses).
Proof.
  revert i statuses. induction comps as [|c comps IH]; intros i statuses H; simpl; [by apply keeps_ret|].
  destruct (buildComponentJob r pr' c (e_now env)) as [[job cm]|e] eqn:E; [|by apply keeps_update_return].
  assert (keeps R (create_job env job)) by (eapply H; [constructor|done]).
  assert (∀ i statuses, keeps R (start_components r env pr' idx ss i comps statuses))
    by (intros; apply IH; intros ?????; eapply H; [by constructor|done]).
  keeps_auto.
Qed.

Lemma keeps_handleRunning : s_Phase (pr_Status pr) = PipelineRunPhaseRunning →
  keeps R (handleRunning r env pr).
Proof.
  intros Hp. unfold handleRunning. destruct (s_ResolvedSpec (pr_Status pr)) as [spec|] eqn:Hspec; [|keeps_auto].
  destruct (current_stage _) as [[idx ss]|] eqn:Hcur; [|keeps_auto].
  destruct (ps_Stages spec !! idx) as [st|] eqn:Hst; [|keeps_auto]. cbv zeta.
  set (pr' := on_status (s_set_CurrentStage (st_Name st)) pr).
  assert (ss_Phase ss = StagePhasePending → keeps R (startStage r env pr' idx st ss)) as Hstart.
  { intros Hpend. apply keeps_bind; [done| |intros; by apply keeps_update_return].
    apply keeps_start_components. intros comp job cm Hin Hb. eapply Hjob; eauto. }
  destruct (rs_Preview (pr_Spec pr')) as [p|], (previewDeadlinePassed (e_now env) pr'), (ss_Phase ss) eqn:Hss;
    try (by apply Hstart);
    unfold failPreviewTimeout, checkStageComponents, fail_with_stage; keeps_auto.
Qed.
End Start.

(** A reconcile stays in the frame when the Jobs it builds do. *)
Lemma keeps_Reconcile r env cached w :
  (∀ pr idx ss spec st comp job cm, cached = Ok (Some pr) →
    s_Phase (pr_Status pr) = PipelineRunPhaseRunning →
    s_ResolvedSpec (pr_Status pr) = Some spec → ps_Stages spec !! idx = Some st →
    current_stage (s_StageStatuses (pr_Status pr)) = Some (idx, ss) → ss_Phase ss = StagePhasePending →
    comp ∈ st_Components st → buildComponentJob r pr comp (e_now env) = Ok (job, cm) →
    keeps R (create_job env job)) →
  R w (Reconcile r env cached w).1.
Proof.
  intros Hjob. assert (keeps R (reconcile r env cached)) as H.
  { destruct cached as [[pr|]|e]; [|by apply keeps_exit..]. unfold reconcile. cbv zeta.
    apply keeps_bind; [done|destruct (pr_Cancel _); keeps_auto|]. intros _.
    destruct (s_Phase _) eqn:Hp; try (by apply keeps_handlePending).
    { apply keeps_handleRunning; [|done]. intros idx ss spec st comp job cm.
      exact (Hjob pr idx ss spec st comp job cm eq_refl). }
    all: keeps_auto; by apply keeps_same. }
  pose proof (frame_preorder R HR). etrans; [by apply (frame_same R HR w (w_set_calls 0 w))|].
  unfold Reconcile. specialize (H (w_set_calls 0 w)).
  destruct (reconcile r env cached (w_set_calls 0 w)) as [w' [o|o]]; exact H.
Qed.
End KeepsRun.

(** ** The invariant of reachable states *)

(** Job [j] was built, under the name [name], for a component of the stage that
    was current and not started in some stored version of the run. *)
Definition job_origin (seen : list PipelineRun) (name : string) (j : Job) : Prop :=
  name = j_Name j ∧
  ∃ pr idx ss spec st comp r now cm,
    pr ∈ seen ∧ s_Phase (pr_Status pr) = PipelineRunPhaseRunning ∧
    s_ResolvedSpec (pr_Status pr) = Some spec ∧ ps_Stages spec !! idx = Some st ∧
    current idx ss (s_StageStatuses (pr_Status pr)) ∧ ss_Phase ss = StagePhasePending ∧
    comp ∈ st_Components st ∧ buildComponentJob r pr comp now = Ok (j, cm).

(** Every version stored is the current one or an older one it evolved from. *)
Definition history (cur : PipelineRun) (seen : list PipelineRun) : Prop :=
  cur ∈ seen ∧ ∀ pr, pr ∈ seen →
    (pr = cur ∨ pr_ResourceVersion pr < pr_ResourceVersion cur) ∧ evolves (pr_Status pr) (pr_Status cur).

Record inv (sys : System) : Prop := {
  inv_pods : pods_ok (sys_world sys);
  inv_ok : ∀ pr, pr ∈ sys_seen sys → run_ok (pr_Status pr);
  inv_history : ∀ cur, w_run (sys_world sys) = Some cur → history cur (sys_seen sys);
  inv_jobs : ∀ name j, w_jobs (sys_world sys) !! name = Some j → job_origin (sys_seen sys) name (jo_Job j);
}.

Lemma job_origin_mono seen seen' name j : seen ⊆ seen' → job_origin seen name j → job_origin seen' name j.
Proof.
  intros Hs (Hn & pr & idx & ss & spec & st & comp & r & now & cm & Hin & H).
  split; [done|]. exists pr, idx, ss, spec, st, comp, r, now, cm. split; [by apply Hs|done].
Qed.

Definition jobs_frame (P : string → Job → Prop) (w w' : World) : Prop :=
  ∀ name j, w_jobs w' !! name = Some j → w_jobs w !! name = Some j ∨ P name (jo_Job j).
Lemma frame_jobs P : frame (jobs_frame P).
Proof.
  split; [split|].
  - intros w name j. by left.
  - intros w1 w2 w3 H12 H23 name j H. destruct (H23 name j H); [by apply H12|by right].
  - intros w w' H _ name j. rewrite H. by left.
Qed.
Lemma call_or_exit_frame env w : (call_or_exit env w).1 = w_set_calls (S (w_calls w)) w.
Proof. unfold call_or_exit, mbind, M_bind, call. by destruct (e_fault env _). Qed.
Lemma keeps_jobs_secret P env name s : keeps (jobs_frame P) (create_secret env name s).
Proof.
  apply keeps_bind; [apply frame_jobs|apply keeps_call_or_exit, frame_jobs|]. intros _ w name' j.
  unfold get_world, mbind, M_bind. destruct (w_secrets w !! name); by left.
Qed.
Lemma keeps_jobs_delete P env name : keeps (jobs_frame P) (delete_job env name).
Proof.
  apply keeps_bind; [apply frame_jobs|apply keeps_call_or_exit, frame_jobs|]. intros _ w name' j. simpl.
  intros H%lookup_delete_Some. left. apply H.
Qed.
Lemma keeps_jobs_create (P : string → Job → Prop) env job :
  P (j_Name job) job → keeps (jobs_frame P) (create_job env job).
Proof.
  intros HP. apply keeps_bind; [apply frame_jobs|apply keeps_call_or_exit, frame_jobs|]. intros _ w name j.
  unfold get_world, mbind, M_bind. destruct (w_jobs w !! j_Name job) eqn:E; simpl; [by left|].
  intros [[<- <-]|[_ H]]%lookup_insert_Some; [by right|by left].
Qed.

(** The API server rejects an update of any version but the current one. *)
Lemma history_current cur seen pr : history cur seen → pr ∈ seen →
  pr_ResourceVersion cur = pr_ResourceVersion pr → pr = cur.
Proof. intros [_ H] Hin Hrv. destruct (H pr Hin) as [[?|?] _]; [done|lia]. Qed.

Lemma history_stored cur s seen : history cur seen → run_step (pr_Status cur) s →
  history (stored cur s) (stored cur s :: seen).
Proof.
  intros [Hc Hall] Hs. split; [constructor|]. intros pr [->|Hin]%elem_of_cons.
  { split; [by left|constructor]. }
  destruct (Hall pr Hin) as [Hrv He]. split.
  - right. destruct Hrv as [->|]; simpl; lia.
  - eapply rtc_r; [exact He|exact Hs].
Qed.

Lemma inv_reconcile r env cached w seen w' o :
  inv (MkSystem w seen) → (∀ pr, cached = Ok (Some pr) → pr ∈ seen) → Reconcile r env cached w = (w', o) →
  inv (MkSystem w' (with_current w' seen)).
Proof.
  intros [Hpods Hok Hhist Hjobs] Hcached HR. simpl in *.
  assert (match cached with Ok (Some pr) => run_ok (pr_Status pr) | _ => True end) as Hcok.
  { destruct cached as [[pr|]|]; auto. }
  destruct (Reconcile_saved _ _ _ _ _ _ Hpods Hcok HR) as (Hpods' & _ & Hsaved).
  assert (seen ⊆ with_current w' seen) as Hsub.
  { unfold with_current. destruct (w_run w'); set_solver. }
  assert (w_run w' = w_run w ∨ ∃ cur s, w_run w = Some cur ∧ w_run w' = Some (stored cur s) ∧
    run_step (pr_Status cur) s) as Hrun.
  { destruct cached as [[pr|]|e]; [|by left..].
    destruct Hsaved as [H|(cur & s & Hcur & Hrv & Hs & Hw')]; [by left|right]. exists cur, s.
    assert (pr = cur) as -> by (eapply history_current; eauto). done. }
  split; simpl.
  - done.
  - intros pr Hin. unfold with_current in Hin. destruct Hrun as [Hr|(cur & s & Hcur & Hw' & Hs)].
    + rewrite Hr in Hin. destruct (w_run w) as [cur|] eqn:E; [|auto].
      apply elem_of_cons in Hin as [->|Hin]; [|auto]. apply Hok, (Hhist cur eq_refl).
    + rewrite Hw' in Hin. apply elem_of_cons in Hin as [->|Hin]; [|auto].
      eapply run_step_ok; [|exact Hs]. apply Hok, (Hhist cur Hcur).
  - intros cur' Hcur'. unfold with_current. rewrite Hcur'.
    destruct Hrun as [Hr|(cur & s & Hcur & Hw' & Hs)].
    + rewrite Hr in Hcur'. destruct (Hhist cur' Hcur') as [Hin Hall].
      split; [constructor|]. intros pr [->|Hpr]%elem_of_cons; auto.
    + rewrite Hw' in Hcur'. simplify_eq. by apply history_stored; [apply Hhist|].
  - intros name j Hj.
    assert (jobs_frame (job_origin seen) w w') as Hframe.
    { replace w' with (Reconcile r env cached w).1 by (by rewrite HR).
      apply keeps_Reconcile; [apply frame_jobs|apply keeps_jobs_secret|apply keeps_jobs_delete|].
      intros pr idx ss spec st comp job cm Hc Hp Hsp Hst Hcur Hpend Hin Hb.
      apply keeps_jobs_create. split; [done|].
      exists pr, idx, ss, spec, st, comp, r, (e_now env), cm.
      split_and!; auto. by apply current_stage_current. }
    eapply job_origin_mono; [exact Hsub|]. destruct (Hframe name j Hj); auto.
Qed.

Lemma inv_step sys sys' : inv sys → step sys sys' → inv sys'.
Proof.
  intros Hinv Hs. destruct Hs as [r env cached w seen w' o Hc HR|w seen jobs pods secrets cms Hj Hp _
    |w seen pr pr' Hr (_ & _ & Hst & Hrv)|w seen|w seen].
  - by eapply inv_reconcile.
  - destruct Hinv as [? Hok Hhist Hjobs]. split; simpl in *; [done..|].
    intros name j' Hj'. destruct (Hj name j' Hj') as (j & Hjj & ->). by apply Hjobs.
  - destruct Hinv as [? Hok Hhist Hjobs]. simpl in *. destruct (Hhist pr Hr) as [Hin Hall].
    split; simpl; [done|..].
    + intros q [->|Hq]%elem_of_cons; [rewrite Hst|]; auto.
    + intros cur [= <-]. split; [constructor|]. intros q [->|Hq]%elem_of_cons; [split; [by left|constructor]|].
      destruct (Hall q Hq) as [Hv He]. rewrite Hst. split; [|done]. right. destruct Hv as [->|]; lia.
    + intros name j H. eapply job_origin_mono; [|by apply Hjobs]. set_solver.
  - destruct Hinv as [? Hok Hhist Hjobs]. split; simpl in *; done.
  - destruct Hinv as [? Hok Hhist Hjobs]. split; simpl in *; done.
Qed.

Lemma inv_initial sys : initial sys → inv sys.
Proof.
  intros (pr & Hr & Hs & Hseen & Hj & Hp). split; [done|..]; rewrite ?Hseen.
  - intros q ->%list_elem_of_singleton. unfold run_ok. by rewrite Hs.
  - intros cur Hcur. simplify_eq. split; [constructor|]. intros q ->%list_elem_of_singleton.
    split; [by left|constructor].
  - intros name j. by rewrite Hj.
Qed.

Lemma reachable_inv sys : reachable sys → inv sys.
Proof.
  intros (sys0 & H0 & Hsteps). apply inv_initial in H0.
  induction Hsteps; eauto using inv_step.
Qed.

Lemma step_seen sys sys' : step sys sys' → sys_seen sys ⊆ sys_seen sys'.
Proof.
  intros [r env cached w seen w' o _ _|w seen jobs pods secrets cms _ _ _|w seen pr pr' _ _|w seen|w seen];
    simpl; [unfold with_current; destruct (w_run w')|..]; set_solver.
Qed.
Lemma steps_seen sys sys' : rtc step sys sys' → sys_seen sys ⊆ sys_seen sys'.
Proof. induction 1; [done|]. etrans; [by apply step_seen|done]. Qed.

(** Two stored versions of the run, in order of time. *)
Lemma run_evolves sys sys' pr pr' : reachable sys → rtc step sys sys' →
  w_run (sys_world sys) = Some pr → w_run (sys_world sys') = Some pr' →
  evolves (pr_Status pr) (pr_Status pr').
Proof.
  intros Hreach Hsteps Hr Hr'. pose proof (inv_history _ (reachable_inv _ Hreach) _ Hr) as [Hin _].
  assert (reachable sys') as Hreach' by (destruct Hreach as (s0 & ? & ?); exists s0; split; [done|by etrans]).
  apply (inv_history _ (reachable_inv _ Hreach') _ Hr'). by apply (steps_seen _ _ Hsteps).
Qed.

(** ** Properties *)

(** C1: in every reachable state, a reconcile that starts from any version of
    the run the cache may hold does not panic, and either leaves the stored run
    as it is or, when that version is the current one, advances it by one step
    of the state machine [run_step]. *)
Theorem reconcile_refines (sys : System) (r : Reconciler) (env : Env) (pr : PipelineRun) (w' : World)
    (o : outcome) (Hreach : reachable sys) (Hseen : pr ∈ sys_seen sys)
    (HR : Reconcile r env (Ok (Some pr)) (sys_world sys) = (w', o)) :
  o ≠ Panicked ∧
  (w_run w' = w_run (sys_world sys) ∨
   ∃ s, w_run (sys_world sys) = Some pr ∧ w_run w' = Some (stored pr s) ∧ run_step (pr_Status pr) s).
Proof.
  pose proof (reachable_inv _ Hreach) as [Hpods Hok Hhist _].
  destruct (Reconcile_saved _ _ (Ok (Some pr)) _ _ _ Hpods (Hok pr Hseen) HR) as (_ & Ho & Hs).
  split; [done|]. destruct Hs as [H|(cur & s & Hcur & Hrv & Hs & Hw')]; [by left|right]. exists s.
  assert (pr = cur) as -> by (eapply history_current; eauto). done.
Qed.

(** Once a run is admitted its run ID, frozen spec, pipeline generation,
    start time and resolved components never change again, whatever happens to
    the pipeline, the registry and the run's spec, except that an image ID is
    recorded once; and once it is in a terminal phase its status never changes. *)
Theorem admitted_run_frozen (sys sys' : System) (pr pr' : PipelineRun)
    (Hreach : reachable sys) (Hsteps : rtc step sys sys')
    (Hr : w_run (sys_world sys) = Some pr) (Hr' : w_run (sys_world sys') = Some pr') :
  (unadmitted (s_Phase (pr_Status pr)) = false → frozen (pr_Status pr) (pr_Status pr')) ∧
  (terminal (s_Phase (pr_Status pr)) = true → pr_Status pr' = pr_Status pr).
Proof.
  pose proof (run_evolves _ _ _ _ Hreach Hsteps Hr Hr') as He.
  split; intros H; [by apply evolves_frozen|by apply evolves_terminal].
Qed.

(** C3: a run is reported Succeeded only with every stage of its frozen spec
    Succeeded, each with one Succeeded status per component, in order. *)
Theorem succeeded_run_complete (sys : System) (pr : PipelineRun) (Hreach : reachable sys)
    (Hr : w_run (sys_world sys) = Some pr)
    (Hp : s_Phase (pr_Status pr) = PipelineRunPhaseSucceeded) :
  ∃ spec, s_ResolvedSpec (pr_Status pr) = Some spec ∧
    Forall2 (λ st ss, ss_Name ss = st_Name st ∧ ss_Phase ss = StagePhaseSucceeded ∧
      Forall2 (λ c cs, cs_Name cs = c_Name c ∧ cs_Phase cs = ComponentPhaseSucceeded)
        (st_Components st) (ss_ComponentStatuses ss))
      (ps_Stages spec) (s_StageStatuses (pr_Status pr)).
Proof.
  pose proof (reachable_inv _ Hreach) as [_ Hok Hhist _].
  destruct (Hhist pr Hr) as [Hin _]. specialize (Hok pr Hin). unfold run_ok in Hok. rewrite Hp in Hok.
  destruct (s_ResolvedSpec (pr_Status pr)) as [spec|]; [|by destruct Hok as [_ []]].
  exists spec. split; [done|]. destruct Hok as (_ & Hall & _ & _ & Hsucc). specialize (Hsucc eq_refl).
  clear -Hall Hsucc. induction Hall as [|st ss sts sss [Hn Hst] Hall IH]; [constructor|].
  apply Forall_cons in Hsucc as [Hs Hsucc]. rewrite Hs in Hst. destruct Hst as [Hfor Hph].
  constructor; [|auto]. split_and!; [done|done|]. clear -Hfor Hph. unfold has_phase in Hph.
  induction Hfor; [constructor|]. apply Forall_cons in Hph as [? ?]. constructor; auto.
Qed.

(** C34: a Job exists only for a component of a stage whose predecessors have all
    succeeded: its manifest was built from the frozen spec of a stored version
    of the run, and in the current version every earlier stage is Succeeded. *)
Theorem stages_in_order (sys : System) (cur : PipelineRun) (name : string) (j : JobObject)
    (Hreach : reachable sys) (Hr : w_run (sys_world sys) = Some cur)
    (Hj : w_jobs (sys_world sys) !! name = Some j) :
  ∃ spec idx st comp r pr now cm,
    s_ResolvedSpec (pr_Status cur) = Some spec ∧ ps_Stages spec !! idx = Some st ∧
    comp ∈ st_Components st ∧ s_RunID (pr_Status pr) = s_RunID (pr_Status cur) ∧
    buildComponentJob r pr comp now = Ok (jo_Job j, cm) ∧ name = j_Name (jo_Job j) ∧
    ∀ k, k < idx → ∃ ss, s_StageStatuses (pr_Status cur) !! k = Some ss ∧ ss_Phase ss = StagePhaseSucceeded.
Proof.
  pose proof (reachable_inv _ Hreach) as [_ Hok Hhist Hjobs].
  destruct (Hjobs name j Hj) as (Hn & pr & idx & ss & spec & st & comp & r & now & cm & Hin & Hp & Hsp & Hst &
    Hcur & Hpend & Hcomp & Hb).
  destruct (Hhist cur Hr) as [_ Hall]. destruct (Hall pr Hin) as [_ He].
  assert (unadmitted (s_Phase (pr_Status pr)) = false) as Hun by (by rewrite Hp).
  destruct (evolves_frozen _ _ He Hun) as (Hid & Hsp' & _).
  exists spec, idx, st, comp, r, pr, now, cm. split_and!; try done; [congruence|].
  intros k Hk. destruct Hcur as (Hi & _ & Hbefore).
  destruct (lookup_lt_is_Some_2 (s_StageStatuses (pr_Status pr)) k) as [sk Hsk].
  { apply lookup_lt_Some in Hi. lia. }
  exists sk. split; [|by eapply Hbefore]. eapply evolves_stage; eauto.
Qed.
End System.
