(* ===== verification/RunAdmission.v ===== *)
(** * RunAdmission: what admission does to a run

    Theorems on [handlePending]: what is frozen into the status, the clamp of
    the resources, the secret snapshot, the errors of the registry that are
    retried and the user errors that are not. *)

From S2P Require Import Prelude GoValue Secrets ApiTypes GoTime Policy Registry ConfigSchema Validate ValidateSpec Status RunTypes RunJobs RunController RunMachine RunRefine RunSystem.

Section Admission.
Context `{UT : !UnicodeTables} `{Q : !Quantities} `{J : !Json} `{JS : !JsonSchema} `{TR : !Transforms}
  `{KT : !K8sTypes} `{YM : !YamlMarshal} `{CL : !ControllerLib}.

(** ** Fault-free execution *)

Definition no_fault (env : Env) : Prop := ∀ n, e_fault env n = None.

Section NoFault.
Context (env : Env) (Hnf : no_fault env).

Lemma call_ok w : call env w = (w_set_calls (S (w_calls w)) w, Continue None).
Proof. unfold call. by rewrite Hnf. Qed.
Lemma call_or_exit_ok w : call_or_exit env w = (w_set_calls (S (w_calls w)) w, Continue ()).
Proof. unfold call_or_exit, mbind, M_bind. by rewrite call_ok. Qed.
Lemma get_secret_ok name w :
  get_secret env name w = (w_set_calls (S (w_calls w)) w, Continue (w_secrets w !! name)).
Proof. unfold get_secret, mbind, M_bind. by rewrite call_or_exit_ok. Qed.
Lemma update_return_ok {A} pr cur o w : w_run w = Some cur →
  pr_ResourceVersion pr = pr_ResourceVersion cur →
  update_return env pr o w =
    (w_set_run (Some (stored cur (pr_Status pr))) (w_set_calls (S (w_calls w)) w), Exit o : step_result A).
Proof.
  intros Hr Hv. unfold update_return, try_update, mbind, M_bind. rewrite call_ok. simpl. rewrite Hr.
  by rewrite bool_decide_true.
Qed.
End NoFault.

Lemma bind_continue {A B} (m : M A) (f : A → M B) w w1 a :
  m w = (w1, Continue a) → (m ≫= f) w = f a w1.
Proof. intros H. unfold mbind, M_bind. by rewrite H. Qed.
Lemma bind_exit {A B} (m : M A) (f : A → M B) w w1 o :
  m w = (w1, Exit o) → (m ≫= f) w = (w1, Exit o).
Proof. intros H. unfold mbind, M_bind. by rewrite H. Qed.

(** The run ID an admission uses. *)
Definition run_id (env : Env) (pr : PipelineRun) (id : string) : Prop :=
  if str_empty (rs_RunID (pr_Spec pr)) then id = e_uuid env
  else uuid_Parse (rs_RunID (pr_Spec pr)) = true ∧ id = rs_RunID (pr_Spec pr).

(** The run, not yet admitted and not cancelled, is the stored one; its
    Pipeline is observed and its run ID is valid. *)
Record admissible (env : Env) (w : World) (pr : PipelineRun) (p : Pipeline) (id : string) : Prop := {
  adm_run : w_run w = Some pr;
  adm_phase : unadmitted (s_Phase (pr_Status pr)) = true;
  adm_cancel : pr_Cancel pr = false;
  adm_fetched : fetched pr env p;
  adm_id : run_id env pr id;
}.

(** The in-memory run that reaches the snapshot. *)
Definition with_run_id (id : string) (pr : PipelineRun) : PipelineRun :=
  on_status (s_set_RunID id) (on_status (s_set_ObservedGeneration (pr_Generation pr)) pr).

(** The rest of [handlePending], from the snapshot on. *)
Definition admission (env : Env) (p : Pipeline) (pr : PipelineRun) : M outcome :=
  missing ← snapshotRunSecrets env pr p;
  if negb (is_empty missing) then
    let msg := StatusMessagePrefix +:+ " referenced secret(s) not found in project secrets: " +:+
               join ", " missing in
    let pr := set_phase PipelineRunPhaseFailedUser msg pr in
    let pr := on_status (λ s, s_set_Conditions (SetStatusCondition (s_Conditions s)
                (MkCondition "SecretsResolved" false "SnapshotMissing" msg)) s) pr in
    update_return env pr Done
  else
    let admissionFindings := ValidateTyped (Some p) (Some (e_registry env)) None in
    match firstTransientFinding admissionFindings with
    | Some tf => requeueOnTransientAdmissionError env pr (f_Message tf)
    | None =>
      match firstErrorFinding (nonResourceFindings admissionFindings) with
      | Some f => fail_user env (f_Message f) pr
      | None =>
        '(stages, components, notes) ← resolve_stages env pr (ps_Stages (p_Spec p));
        clearTransientRetries;;
        update_return env (admit_run env p stages components notes pr) (RequeueAfter PipelineRunRequeueInterval)
      end
    end.

Lemma Reconcile_admission r env w pr p id : admissible env w pr p id →
  ∃ w1, w1 = w_set_notFound 0 (w_set_calls 0 w) ∧
    Reconcile r env (Ok (Some pr)) w =
      match admission env p (with_run_id id pr) w1 with (w', Continue o) => (w', o) | (w', Exit o) => (w', o) end.
Proof.
  intros [Hr Hun Hc Hf Hid]. eexists. split; [done|]. unfold Reconcile, reconcile. cbv zeta.
  set (pr1 := on_status (s_set_ObservedGeneration (pr_Generation pr)) pr).
  assert (fetch_pipeline env pr1 (w_set_calls 0 w) = (w_set_calls 0 w, Continue p)) as Hfetch.
  { unfold fetch_pipeline, fetched in *. change (pr_Spec pr1) with (pr_Spec pr).
    destruct (rs_PipelineSpec _); [by rewrite Hf|]. destruct Hf as [Hne ->].
    apply str_empty_false in Hne. by rewrite Hne. }
  assert (∀ w, determine_run_id env pr1 w = (w, Continue id)) as Hdet.
  { intros w0. unfold determine_run_id, run_id in *. change (pr_Spec pr1) with (pr_Spec pr).
    destruct (str_empty _); [by rewrite Hid|]. by destruct Hid as [-> ->]. }
  assert (handlePending env pr1 (w_set_calls 0 w) =
    admission env p (with_run_id id pr) (w_set_notFound 0 (w_set_calls 0 w))) as Hpend.
  { unfold handlePending. rewrite (bind_continue _ _ _ _ _ Hfetch).
    rewrite (bind_continue _ _ _ (w_set_notFound 0 (w_set_calls 0 w)) ()) by done.
    by rewrite (bind_continue _ _ _ _ _ (Hdet _)). }
  change (pr_Cancel pr1) with (pr_Cancel pr). rewrite Hc.
  rewrite (bind_continue _ _ _ (w_set_calls 0 w) ()) by done.
  change (s_Phase (pr_Status pr1)) with (s_Phase (pr_Status pr)).
  destruct (s_Phase (pr_Status pr)); try done; by rewrite Hpend.
Qed.

(** ** Transient findings come from the registry only *)

Definition has_transient (fs : list Finding) : Prop := Exists (λ f, f_Severity f = severityTransient) fs.
Definition plain (fs : list Finding) : Prop := ¬ has_transient fs.

Lemma firstTransient_None fs : firstTransientFinding fs = None ↔ plain fs.
Proof.
  unfold plain, has_transient, firstTransientFinding. rewrite Exists_exists. split.
  - intros H (f & Hin%list_elem_of_In & Hf). apply (find_none _ _ H) in Hin. by case_bool_decide.
  - intros H. destruct (find _ fs) as [f|] eqn:E; [|done]. apply find_some in E as [Hin Hf].
    apply bool_decide_eq_true in Hf. destruct H. exists f. by rewrite list_elem_of_In.
Qed.
Lemma has_transient_app a b : has_transient (a ++ b) ↔ has_transient a ∨ has_transient b.
Proof. apply Exists_app. Qed.

Lemma plain_nil : plain [].
Proof. by intros ?%Exists_nil. Qed.
Lemma plain_cons f fs : f_Severity f ≠ severityTransient → plain fs → plain (f :: fs).
Proof. intros Hf Hfs [?|?]%Exists_cons; auto. Qed.
Lemma plain_app a b : plain a → plain b → plain (a ++ b).
Proof. unfold plain. rewrite has_transient_app. tauto. Qed.
Lemma plain_report b f : f_Severity f ≠ severityTransient → plain (report b f).
Proof. intros Hf. destruct b; [apply plain_cons; [done|]|]; apply plain_nil. Qed.
Lemma plain_concat_imap {A} (f : nat → A → list Finding) l : (∀ i x, plain (f i x)) → plain (concat (imap f l)).
Proof.
  revert f. induction l as [|x l IH]; intros f Hf; [apply plain_nil|]. simpl.
  apply plain_app; [done|]. apply IH. intros. apply Hf.
Qed.
Lemma plain_all_errors fs : all_errors fs → plain fs.
Proof.
  unfold all_errors, plain, has_transient. intros <-. rewrite Exists_exists.
  intros (f & [He _]%list_elem_of_filter & Hf). unfold is_error in He. rewrite Hf in He.
  by case_bool_decide.
Qed.

Create HintDb plain.
#[local] Hint Resolve plain_nil plain_cons plain_app plain_report plain_concat_imap : plain.
#[local] Hint Extern 1 (f_Severity _ ≠ severityTransient) => discriminate : plain.
Ltac plain_auto := repeat first
  [ progress (eauto with plain)
  | apply plain_concat_imap; intros | apply plain_app
  | case_match; subst
  | progress cbv zeta ].

Lemma plain_partition comp tab path i fs st : plain (partition_loop comp tab path i fs st).
Proof.
  revert i st. induction fs as [|f fs IH]; intros i st; simpl; [apply plain_nil|].
  assert (plain (partition_field comp tab path i f st).1) as H.
  { unfold partition_field. destruct st as [seen ts]. cbv zeta.
    destruct (parsePartitionTransform _) as [tr|]; [destruct (str_empty _); [|destruct (isTimeTransform tr)]|];
      cbn [fst]; plain_auto. }
  destruct (partition_field _ _ _ _ _ _) as [f1 st']. simpl in H. auto with plain.
Qed.
Lemma plain_columns comp tab path i cols seen : plain (column_loop comp tab path i cols seen).
Proof.
  revert i seen. induction cols as [|c cols IH]; intros i seen; simpl; [apply plain_nil|].
  destruct (str_empty _); [|case_bool_decide]; auto 8 with plain.
Qed.
Lemma plain_outputs comp o i j : plain (validateOutputs comp o i j).
Proof.
  pose proof plain_partition. pose proof plain_columns.
  unfold validateOutputs, report_msg, output_bucket_findings, output_table_findings, validateProcessors,
    validatePartitionSpec, validateColumnSpec, report_msg. plain_auto.
Qed.
Lemma plain_inputs comp inp i j at_ ab : plain (validateInputs comp inp i j at_ ab).
Proof.
  unfold validateInputs, input_bucket_findings, input_table_findings, report_msg. cbv zeta.
  apply plain_app; apply plain_concat_imap; intros; plain_auto.
Qed.
Lemma plain_component c i j at_ ab : plain (validateComponent c i j at_ ab).
Proof.
  unfold validateComponent. cbv zeta.
  repeat apply plain_app; try (by apply plain_report).
  - destruct (c_Inputs c); [apply plain_inputs|apply plain_nil].
  - destruct (c_Outputs c); [apply plain_outputs|apply plain_nil].
Qed.
Lemma plain_unique ps seen : plain (unique_names ps seen).
Proof.
  revert seen. induction ps as [|[[i j] c] ps IH]; intros seen; simpl; [apply plain_nil|].
  destruct (str_empty _); [done|]. case_bool_decide; auto with plain.
Qed.
Lemma plain_secret_refs c i j : plain (validateSecretRefs c i j).
Proof.
  unfold validateSecretRefs. cbv zeta. destruct (ConfigMap c) as [[cfg|]|e]; auto with plain.
  rewrite walkStrings_fold.
  match goal with |- plain (foldl ?f [] ?l) => assert (∀ fs, plain fs → plain (foldl f fs l)) as H end;
    [|apply H, plain_nil].
  induction (strings _ _) as [|[p s] l IH]; intros fs Hfs; simpl; [done|]. apply IH.
  destruct (Validate (VStr s)); auto 6 with plain.
Qed.
Lemma plain_resolve (r : StaticRegistry) c v : plain (Resolve r c v).2.
Proof.
  assert (∀ p msg, plain [error_finding p msg]) as Hv by auto with plain.
  unfold Resolve, StaticRegistry_Resolve. destruct (r !! c) as [def|]; [|apply Hv].
  case_bool_decide; [apply Hv|]. cbv zeta.
  destruct (resolveVersion c v (cdef_Spec def)) as [ver|bad] eqn:E.
  - destruct (str_empty _); [|destruct (CompileSchema _)]; destruct (cd_Deprecated _); cbn [snd];
      auto using plain_app, plain_nil, Hv with plain.
  - cbn [snd]. unfold resolveVersion in E. by repeat case_match; simplify_eq; apply Hv.
Qed.

(** ** Transient findings of a pipeline *)

Section Transient.
Context (reg : ComponentRegistry).

(** The definition of the component cannot be read. *)
Definition unreadable (c : ComponentSpec) : Prop := ∃ e, reg (c_Component c) = Err e.

Lemma registry_transient c i j : has_transient (validateRegistry c i j (Some reg)) ↔ unreadable c.
Proof.
  unfold validateRegistry, unreadable. cbv zeta.
  assert (∀ fs base, has_transient (map (λ f, MkFinding (joinKey base (f_Path f)) (f_Message f) (f_Severity f)) fs)
    ↔ has_transient fs) as Hmap.
  { intros fs base. unfold has_transient. rewrite Exists_fmap. done. }
  destruct (Resolve reg _ _) as [rc fs] eqn:E.
  assert (has_transient fs ↔ ∃ e, reg (c_Component c) = Err e) as Hfs.
  { unfold Resolve, ComponentRegistry_Resolve in E. destruct (reg (c_Component c)) as [[def|]|e].
    - pose proof (plain_resolve {[c_Component c := def]} (c_Component c) (c_Version c)) as Hp.
      rewrite E in Hp. split; [by intros ?%Hp|by intros [? ?]].
    - simplify_eq. split; [|by intros [? ?]]. by intros [?|?%Exists_nil]%Exists_cons.
    - simplify_eq. split; [eauto|]. intros _. by constructor. }
  destruct rc as [rc|]; [|by rewrite Hmap].
  rewrite !has_transient_app, Hmap, Hfs. split; [|by left].
  intros [?|[H|[H|H]]]; [done|exfalso; revert H; fold (plain (checkIOCapability c (rc_IO rc) (component_path i j)))..].
  - unfold checkIOCapability, check_io. plain_auto.
  - apply plain_all_errors. destruct (c_Resources c); [|done]. apply checkResources_all_errors.
  - destruct (rc_ConfigSchema rc); [|apply plain_nil]. destruct (ConfigMap c); [|apply plain_nil].
    apply plain_all_errors, ValidateConfig_all_errors.
Qed.

Lemma components_transient i k cs avail :
  has_transient (validate_components i k cs (Some reg) avail).1 ↔ Exists unreadable cs.
Proof.
  revert k avail. induction cs as [|c cs IH]; intros k avail; cbn [validate_components].
  { unfold has_transient. by rewrite !Exists_nil. }
  cbv zeta. specialize (IH (S k) (match c_Outputs c with Some o => registerOutputs o avail | None => avail end)).
  destruct (validate_components i (S k) cs (Some reg) _) as [fs avail']. cbn [fst] in *.
  rewrite !has_transient_app, registry_transient, IH, Exists_cons.
  pose proof (plain_component c i k avail.1 avail.2) as Hp. unfold plain in Hp. tauto.
Qed.
Lemma stages_transient k stages avail :
  has_transient (validate_stages k stages (Some reg) avail) ↔ Exists unreadable (flat_map st_Components stages).
Proof.
  revert k avail. induction stages as [|st stages IH]; intros k avail; cbn [validate_stages flat_map].
  { unfold has_transient. by rewrite !Exists_nil. }
  cbv zeta. pose proof (components_transient k 0 (st_Components st) avail) as Hc.
  destruct (validate_components k 0 _ (Some reg) avail) as [fs avail']. cbn [fst] in *.
  rewrite !has_transient_app, IH, Hc, Exists_app.
  assert (∀ b p m, ¬ has_transient (report b (error_finding p m))) as Hp
    by (intros; by apply plain_report).
  pose proof (Hp (str_empty (st_Name st))). pose proof (Hp (is_empty (st_Components st))). naive_solver.
Qed.
(** A pipeline has a transient finding exactly when the definition of one of its
    components cannot be read. *)
Lemma typed_transient (p : Pipeline) :
  has_transient (ValidateTyped (Some p) (Some reg) None) ↔
  Exists unreadable (flat_map st_Components (ps_Stages (p_Spec p))).
Proof.
  unfold ValidateTyped. cbv zeta. rewrite !has_transient_app, stages_transient.
  assert (∀ b p m, ¬ has_transient (report b (error_finding p m))) as Hp
    by (intros; by apply plain_report).
  assert (¬ has_transient (checkUniqueComponentNames p)) as Hu by apply plain_unique.
  assert (¬ has_transient (checkGatewayBounds p None)) as Hg by apply plain_nil.
  assert (¬ has_transient (concat (imap (λ i stage, concat (imap (λ j c, validateSecretRefs c i j)
    (st_Components stage))) (ps_Stages (p_Spec p))))) as Hs.
  { do 2 (apply plain_concat_imap; intros). apply plain_secret_refs. }
  pose proof (Hp (str_empty (p_Name p))). pose proof (Hp (is_empty (ps_Stages (p_Spec p)))). naive_solver.
Qed.
End Transient.

(** ** The secret snapshot *)

Definition project_data (w : World) : gmap string string :=
  match w_secrets w !! ProjectSecretsName with Some s => sec_Data s | None => ∅ end.
(** The referenced keys the project Secret lacks. *)
Definition missing_keys (w : World) (p : Pipeline) : list string :=
  filter (λ n, project_data w !! n = None) (ReferencedSecrets (Some p)).
Definition snapshot_data (w : World) (p : Pipeline) : gmap string string :=
  filter (λ kv, kv.1 ∈ ReferencedSecrets (Some p)) (project_data w).

Lemma missing_keys_nil w p n : missing_keys w p = [] → n ∈ ReferencedSecrets (Some p) →
  is_Some (project_data w !! n).
Proof.
  intros Hm Hn. destruct (project_data w !! n) eqn:E; [done|]. exfalso.
  assert (n ∈ missing_keys w p) as Hin by (by apply list_elem_of_filter). rewrite Hm in Hin.
  by apply elem_of_nil in Hin.
Qed.
Lemma snapshot_data_lookup w p n : snapshot_data w p !! n =
  if decide (n ∈ ReferencedSecrets (Some p)) then project_data w !! n else None.
Proof.
  unfold snapshot_data. destruct (decide _) as [Hn|Hn].
  - destruct (project_data w !! n) as [v|] eqn:E; [by apply map_lookup_filter_Some|].
    apply map_lookup_filter_None. by left.
  - apply map_lookup_filter_None. right. done.
Qed.

(** Fault-free, the snapshot step is this function. *)
Lemma snapshot_ok env pr p w : no_fault env →
  ∃ w1, w_run w1 = w_run w ∧ w_jobs w1 = w_jobs w ∧ w_transientRetries w1 = w_transientRetries w ∧
    match ReferencedSecrets (Some p), w_secrets w !! runSecretsName pr with
    | [], _ | _, Some _ =>
      snapshotRunSecrets env pr p w = (w1, Continue []) ∧ w_secrets w1 = w_secrets w
    | _, None =>
      snapshotRunSecrets env pr p w = (w1, Continue (missing_keys w p)) ∧
      (missing_keys w p ≠ [] → w_secrets w1 = w_secrets w) ∧
      (missing_keys w p = [] → ∃ s, w_secrets w1 = <[runSecretsName pr := s]> (w_secrets w) ∧
        sec_Data s = snapshot_data w p)
    end.
Proof.
  intros Hnf. unfold snapshotRunSecrets.
  destruct (ReferencedSecrets (Some p)) as [|n refs] eqn:Er; [by exists w|].
  rewrite (bind_continue _ _ _ _ _ (get_secret_ok env Hnf _ _)).
  destruct (w_secrets w !! runSecretsName pr) as [s|] eqn:Es.
  { by exists (w_set_calls (S (w_calls w)) w). }
  rewrite (bind_continue _ _ _ _ _ (get_secret_ok env Hnf _ _)).
  unfold missing_keys, snapshot_data. rewrite Er. fold (project_data w).
  change (match w_secrets (w_set_calls _ w) !! ProjectSecretsName with Some s => sec_Data s | None => ∅ end)
    with (project_data w).
  destruct (filter _ _) as [|m ms] eqn:Em; [|eexists; split_and!; [| | |done|done|done]; done].
  rewrite (bind_continue _ _ _ _ _ (call_or_exit_ok env Hnf _)).
  unfold create_secret, mbind, M_bind, get_world. rewrite (call_or_exit_ok env Hnf). simpl. rewrite Es. simpl.
  eexists. split_and!; [| | |done|done|]; [done..|]. intros _. eexists. done.
Qed.

(** The referenced keys are in the project Secret. *)
Definition secrets_present (w : World) (p : Pipeline) : Prop := missing_keys w p = [].
Lemma snapshot_present env pr p w : no_fault env → secrets_present w p →
  ∃ w1, snapshotRunSecrets env pr p w = (w1, Continue []) ∧ w_run w1 = w_run w ∧ w_jobs w1 = w_jobs w ∧
    w_transientRetries w1 = w_transientRetries w.
Proof.
  intros Hnf Hp. destruct (snapshot_ok env pr p w Hnf) as (w1 & ? & ? & ? & H). exists w1.
  unfold secrets_present in Hp. rewrite Hp in H.
  split_and!; [|done..].
  by destruct (ReferencedSecrets _), (w_secrets w !! runSecretsName pr); destruct H as [H _].
Qed.

(** ** Properties *)

(** SnapshotRunSecrets never touches an existing Secret, a Job or the run.
    When it goes on, either nothing is referenced or the snapshot exists, and
    one it created holds exactly the referenced keys with the values of the
    project Secret; when it reports keys, they are the referenced ones the
    project Secret lacks, no snapshot exists and none was created. *)
Theorem snapshotRunSecrets_correct (env : Env) (pr : PipelineRun) (p : Pipeline) (w : World) :
  let (w', res) := snapshotRunSecrets env pr p w in
  w_run w' = w_run w ∧ w_jobs w' = w_jobs w ∧
  (∀ n s, w_secrets w !! n = Some s → w_secrets w' !! n = Some s) ∧
  match res with
  | Continue [] =>
    ReferencedSecrets (Some p) = [] ∨
    ∃ s, w_secrets w' !! runSecretsName pr = Some s ∧
      (w_secrets w !! runSecretsName pr = None →
        (∀ n, sec_Data s !! n =
          if decide (n ∈ ReferencedSecrets (Some p)) then project_data w !! n else None) ∧
        ∀ n, n ∈ ReferencedSecrets (Some p) → is_Some (project_data w !! n))
  | Continue missing =>
    w_secrets w' = w_secrets w ∧ w_secrets w !! runSecretsName pr = None ∧
    ∀ n, n ∈ missing ↔ n ∈ ReferencedSecrets (Some p) ∧ project_data w !! n = None
  | Exit o => w_secrets w' = w_secrets w ∧ ∃ e, o = Error e
  end.
Proof.
  unfold snapshotRunSecrets.
  destruct (ReferencedSecrets (Some p)) as [|n0 refs] eqn:Er; [split_and!; auto|].
  unfold get_secret, create_secret, call_or_exit, mbind, M_bind, call, get_world, exit, mret, M_ret.
  destruct (e_fault env (w_calls w)) as [e|]; simpl; [split_and!; eauto|].
  destruct (w_secrets w !! runSecretsName pr) as [s|] eqn:Es; simpl.
  { split_and!; [done..|]. right. exists s. split; [done|]. intros; congruence. }
  destruct (e_fault env (S (w_calls w))) as [e|]; simpl; [split_and!; eauto|].
  change (match w_secrets w !! ProjectSecretsName with Some s => sec_Data s | None => ∅ end)
    with (project_data w).
  assert (filter (λ n, project_data w !! n = None) (n0 :: refs) = missing_keys w p) as Hm
    by (unfold missing_keys; by rewrite Er).
  rewrite Hm. destruct (missing_keys w p) as [|m ms] eqn:Em; simpl.
  2: { split_and!; [done..|]. intros n. rewrite <-Hm, list_elem_of_filter. tauto. }
  destruct (e_fault env (S (S (w_calls w)))) as [e|]; simpl; [split_and!; eauto|].
  destruct (e_fault env _) as [e|]; simpl; [split_and!; eauto|]. rewrite Es. simpl.
  split_and!; [done..| |].
  - intros n s Hn. rewrite lookup_insert_ne; [done|]. congruence.
  - right. eexists. split; [apply lookup_insert_eq|]. intros _. simpl. split.
    + intros n. pose proof (snapshot_data_lookup w p n) as H. unfold snapshot_data in H. by rewrite Er in H.
    + intros n Hn. eapply missing_keys_nil; [done|]. by rewrite Er.
Qed.

(** A run that references a key the project Secret lacks fails FailedUser on
    its first reconcile, with the missing keys in its message; no Job and no
    Secret is created. *)
Theorem missing_secrets_fail_user (r : Reconciler) (env : Env) (w : World) (pr : PipelineRun)
    (p : Pipeline) (id : string) (Hadm : admissible env w pr p id) (Hnf : no_fault env)
    (Hsnap : w_secrets w !! runSecretsName (with_run_id id pr) = None) (Hmiss : missing_keys w p ≠ []) :
  ∃ w' pr', Reconcile r env (Ok (Some pr)) w = (w', Done) ∧ w_run w' = Some pr' ∧
    s_Phase (pr_Status pr') = PipelineRunPhaseFailedUser ∧
    s_Message (pr_Status pr') = StatusMessagePrefix +:+
      " referenced secret(s) not found in project secrets: " +:+ join ", " (missing_keys w p) ∧
    w_jobs w' = w_jobs w ∧ w_secrets w' = w_secrets w.
Proof.
  destruct (Reconcile_admission r _ _ _ _ _ Hadm) as (w1 & Hw1 & ->).
  destruct (snapshot_ok env (with_run_id id pr) p w1 Hnf) as (w2 & Hr & Hj & _ & Hs).
  assert (w_secrets w1 = w_secrets w) as Hsec by (by subst). unfold missing_keys, project_data in *.
  rewrite Hsec, Hsnap in Hs. fold (project_data w) in *. fold (missing_keys w p) in *.
  destruct (ReferencedSecrets (Some p)) as [|n refs] eqn:Er.
  { unfold missing_keys in Hmiss. by rewrite Er in Hmiss. }
  destruct Hs as (Hs & Hsame & _). unfold admission. rewrite (bind_continue _ _ _ _ _ Hs).
  destruct (missing_keys w p) as [|m ms] eqn:Em; [done|]. cbn [is_empty negb]. cbv zeta.
  destruct Hadm as [Hrun _ _ _ _].
  rewrite (update_return_ok env Hnf _ pr); [|by rewrite Hr, Hw1|done].
  eexists _, _. split_and!; [done|done|done|done| |]; simpl.
  - by rewrite Hj, Hw1.
  - by rewrite (Hsame ltac:(done)).
Qed.

(** When the definition of a component of the pipeline cannot be read, a
    reconcile never fails the run FailedUser, whatever else is wrong with the
    pipeline: the first four consecutive ones requeue and leave the run as it
    is, the fifth fails it FailedApplication and resets the count. *)
Theorem transient_error_budget (r : Reconciler) (env : Env) (w : World) (pr : PipelineRun)
    (p : Pipeline) (id : string) (Hadm : admissible env w pr p id) (Hnf : no_fault env)
    (Hsec : secrets_present w p)
    (Hun : Exists (unreadable (e_registry env)) (flat_map st_Components (ps_Stages (p_Spec p)))) :
  let (w', o) := Reconcile r env (Ok (Some pr)) w in
  w_jobs w' = w_jobs w ∧
  if (w_transientRetries w <? 4)%nat then
    o = RequeueAfter admissionTransientRetryInterval ∧ w_run w' = w_run w ∧
    w_transientRetries w' = S (w_transientRetries w)
  else
    o = Done ∧ w_transientRetries w' = 0 ∧
    ∃ pr', w_run w' = Some pr' ∧ s_Phase (pr_Status pr') = PipelineRunPhaseFailedApplication ∧
      s_CompletionTime (pr_Status pr') = Some (e_now env).
Proof.
  destruct (Reconcile_admission r _ _ _ _ _ Hadm) as (w1 & Hw1 & ->).
  destruct (snapshot_present env (with_run_id id pr) p w1 Hnf) as (w2 & Hs & Hr & Hj & Ht); [by subst|].
  unfold admission. rewrite (bind_continue _ _ _ _ _ Hs). cbn [is_empty negb]. cbv zeta.
  apply typed_transient in Hun.
  destruct (firstTransientFinding _) as [tf|] eqn:Et; [|by apply firstTransient_None in Et].
  unfold requeueOnTransientAdmissionError. rewrite (bind_continue _ _ _ _ _ (eq_refl (noteTransientRetry w2))).
  assert (w_transientRetries w2 = w_transientRetries w) as -> by (by rewrite Ht, Hw1).
  change (S (w_transientRetries w) <? admissionTransientRetryBudget)%nat
    with (w_transientRetries w <? 4)%nat.
  destruct (w_transientRetries w <? 4)%nat.
  - split; simpl; [by rewrite Hj, Hw1|]. split_and!; [done|by rewrite Hr, Hw1|done].
  - rewrite (bind_continue _ _ _ _ _ (eq_refl (clearTransientRetries _))).
    destruct Hadm as [Hrun _ _ _ _].
    rewrite (update_return_ok env Hnf _ pr); [|simpl; by rewrite Hr, Hw1|done].
    split; simpl; [by rewrite Hj, Hw1|]. split_and!; [done..|]. eauto.
Qed.

(** ** What is frozen at admission *)

Lemma hoare_reconcile_pending r env pr : unadmitted (s_Phase (pr_Status pr)) = true →
  hoare (pr_ResourceVersion pr)
    (λ s, s_Phase s = PipelineRunPhaseRunning → ∃ p, admitted_as pr env p s)
    (reconcile r env (Ok (Some pr))) (λ _, False).
Proof.
  intros Hun. unfold reconcile. cbv zeta.
  set (pr1 := on_status (s_set_ObservedGeneration (pr_Generation pr)) pr).
  eapply (hoare_bind _ _ _ _ (λ _, True)).
  { destruct (pr_Cancel pr1); [apply hoare_cancel|by apply hoare_ret]. }
  intros _ _. change (s_Phase (pr_Status pr1)) with (s_Phase (pr_Status pr)).
  assert (hoare (pr_ResourceVersion pr)
    (λ s, s_Phase s = PipelineRunPhaseRunning → ∃ p, admitted_as pr env p s)
    (handlePending env pr1) (λ _, False)) as H.
  { apply (hoare_handlePending pr1).
    - intros pr' _ Hf Hp. by rewrite Hp in Hf.
    - intros p s Ha _. exists p. exact Ha. }
  by destruct (s_Phase (pr_Status pr)).
Qed.

Definition declares (c : ComponentSpec) : option ResourceRequirements :=
  match c_Resources c with
  | Some rr => if is_empty (rr_Requests rr) && is_empty (rr_Limits rr) then None else Some rr
  | None => None
  end.

(** A component as it is frozen, for its resolution [rc]: everything but the
    resources as in the Pipeline; the resources within the registry maximum, or
    the registry default when none are declared. *)
Definition frozen_component (c c' : ComponentSpec) (rc : ResolvedComponent) : Prop :=
  c_Name c' = c_Name c ∧ c_Component c' = c_Component c ∧ c_Version c' = c_Version c ∧
  c_Config c' = c_Config c ∧ c_Inputs c' = c_Inputs c ∧ c_Outputs c' = c_Outputs c ∧
  ∃ res, c_Resources c' = Some res ∧
    match declares c with
    | None => res = cr_Default (rc_Resources rc)
    | Some _ => rr_within (cr_Max (rc_Resources rc)) res ∧ requests_under_limits res
    end.

Lemma resolved_frozen `{QL : !QuantityLaws} env c c' rcs : resolved_as env c c' rcs →
  ∃ rc fs, Resolve (e_registry_resolve env) (c_Component c) (c_Version c) = (Some rc, fs) ∧
    frozen_component c c' rc ∧
    rcs = MkResolvedComponentStatus (c_Name c) (rc_Component rc) (rc_Version rc) (rc_Image rc) EmptyString.
Proof.
  intros (rc & fs & HR & -> & ->). exists rc, fs. split_and!; [done| |done].
  unfold frozen_component. split_and!; try done. eexists. split; [done|]. unfold declares.
  destruct (c_Resources c) as [rr|]; [|done]. destruct (is_empty (rr_Requests rr) && is_empty (rr_Limits rr)) eqn:E.
  - unfold applyDefaultsThenClamp. by rewrite E.
  - assert (rr_Limits rr ≠ [] ∨ rr_Requests rr ≠ []) as Hne.
    { destruct (rr_Limits rr); [|by left]. destruct (rr_Requests rr); [done|by right]. }
    destruct (clamp_eq rr (cr_Default (rc_Resources rc)) (cr_Max (rc_Resources rc)) Hne) as [-> _].
    split; [apply clamped_within|apply clamped_requests].
Qed.

(** C36: a run that goes from unadmitted to Running was admitted with a Pipeline
    that validation accepts (but for resource bounds); its frozen spec is that
    Pipeline's, stage by stage and component by component, each resolved by the
    registry, its resources within the registry maximum (or the default), its
    image and version recorded; every stage is Pending. *)
Theorem admission_correct `{QL : !QuantityLaws} (r : Reconciler) (env : Env) (w w' : World)
    (pr pr' : PipelineRun) (o : outcome) (Hpods : pods_ok w)
    (Hun : unadmitted (s_Phase (pr_Status pr)) = true) (Hr : w_run w = Some pr)
    (HR : Reconcile r env (Ok (Some pr)) w = (w', o)) (Hr' : w_run w' = Some pr')
    (Hp : s_Phase (pr_Status pr') = PipelineRunPhaseRunning) :
  ∃ p stages, fetched pr env p ∧ accepted env p ∧
    s_ResolvedSpec (pr_Status pr') = Some (MkPipelineSpec (ps_Gateway (p_Spec p)) stages) ∧
    s_PipelineGeneration (pr_Status pr') = p_Generation p ∧
    s_StartTime (pr_Status pr') = Some (e_now env) ∧
    s_StageStatuses (pr_Status pr') = map pending_stage stages ∧
    Forall2 stage_renamed (ps_Stages (p_Spec p)) stages ∧
    Forall3 (λ c c' rcs, ∃ rc fs,
        Resolve (e_registry_resolve env) (c_Component c) (c_Version c) = (Some rc, fs) ∧
        frozen_component c c' rc ∧
        rcs = MkResolvedComponentStatus (c_Name c) (rc_Component rc) (rc_Version rc) (rc_Image rc) EmptyString)
      (flat_map st_Components (ps_Stages (p_Spec p))) (flat_map st_Components stages)
      (s_Components (pr_Status pr')).
Proof.
  pose proof (hoare_reconcile_pending r env pr Hun (w_set_calls 0 w) Hpods) as [_ H].
  unfold Reconcile in HR.
  destruct (reconcile r env (Ok (Some pr)) (w_set_calls 0 w)) as [w1 [a|o1]]; [by destruct H as [_ []]|].
  injection HR as -> ->. destruct H as [_ [H|(cur & s & Hcur & _ & Hs & Hw')]].
  - simpl in H. assert (pr' = pr) as -> by congruence. by rewrite Hp in Hun.
  - simpl in *. assert (pr' = stored cur s) as -> by congruence.
    destruct (Hs Hp) as (p & Hf & Hacc & _ & Hst & Hgen & _ & stages & Hsp & Hss & Hren & Hres).
    exists p, stages. split_and!; try done.
    eapply Forall3_impl; [exact Hres|]. intros c c' rcs. apply resolved_frozen.
Qed.

(** ** Secrets over time *)

Definition secrets_frame (w w' : World) : Prop :=
  ∀ name s, w_secrets w !! name = Some s → w_secrets w' !! name = Some s.
Lemma frame_secrets : frame secrets_frame.
Proof.
  split; [split|].
  - by intros w name s.
  - intros w1 w2 w3 H12 H23 name s H. auto.
  - intros w w' _ H name s. by rewrite H.
Qed.

Lemma step_secrets sys sys' name s : step sys sys' → name ≠ ProjectSecretsName →
  w_secrets (sys_world sys) !! name = Some s → w_secrets (sys_world sys') !! name = Some s.
Proof.
  intros Hs Hn. destruct Hs as [r env cached w seen w' o _ HR|w seen jobs pods secrets cms _ _ Hsec
    |w seen pr pr' _ _|w seen|w seen]; simpl; [|rewrite Hsec; auto|auto..].
  replace w' with (Reconcile r env cached w).1 by (by rewrite HR). revert name s Hn.
  cut (secrets_frame w (Reconcile r env cached w).1); [auto|].
  apply keeps_Reconcile; [apply frame_secrets| | |].
  - intros env0 n s. apply keeps_bind; [apply frame_secrets|apply keeps_call_or_exit, frame_secrets|].
    intros _ w0 name s'. unfold get_world, mbind, M_bind. destruct (w_secrets w0 !! n) eqn:E; simpl; [done|].
    intros Hn. rewrite lookup_insert_ne; [done|]. congruence.
  - intros env0 n. apply keeps_bind; [apply frame_secrets|apply keeps_call_or_exit, frame_secrets|].
    by intros _ w0 name s'.
  - intros pr idx ss spec st comp job cm _ _ _ _ _ _ _ _.
    apply keeps_bind; [apply frame_secrets|apply keeps_call_or_exit, frame_secrets|].
    intros _ w0 name s'. unfold get_world, mbind, M_bind. by destruct (w_jobs w0 !! _).
Qed.

(** A snapshot Secret, once it exists, keeps its content for as long as the
    run is reconciled, whatever happens to the project Secret. *)
Theorem snapshot_immutable (sys sys' : System) (pr : PipelineRun) (s : SecretObject)
    (Hsteps : rtc step sys sys') (Hs : w_secrets (sys_world sys) !! runSecretsName pr = Some s) :
  w_secrets (sys_world sys') !! runSecretsName pr = Some s.
Proof.
  assert (runSecretsName pr ≠ ProjectSecretsName) as Hn by discriminate.
  induction Hsteps as [|x y z Hstep _ IH]; [done|]. apply IH. by eapply step_secrets.
Qed.
End Admission.
