(* ===== verification/RunStages.v ===== *)
(** * RunStages: Jobs and the outcome of a stage

    Theorems on the Jobs a stage creates (their names, images and confinement),
    on the gateway configuration, and on how [checkStageComponents] turns what
    the Jobs report into the phase of the stage. *)

From S2P Require Import Prelude GoValue ApiTypes GoTime Policy Registry ConfigSchema Validate Status RunTypes RunJobs RunController RunMachine RunRefine RunSystem RunAdmission.

(** ** Jobs *)

Section Jobs.
Context `{UT : !UnicodeTables} `{Q : !Quantities} `{J : !Json} `{KT : !K8sTypes} `{YM : !YamlMarshal}.

(** The volumes and mounts of a built pod, and who mounts what. *)
Definition mounts_volume (name : string) (c : Container) : bool :=
  existsb (λ m, bool_decide (vm_Name m = name)) (ct_VolumeMounts c).
Definition refs_of (spec : PipelineSpec) : list string := ReferencedSecrets (Some (frozen_pipeline spec)).

Lemma stage_of_unique stages i st comp :
  NoDup (map c_Name (flat_map st_Components stages)) → stages !! i = Some st → comp ∈ st_Components st →
  stage_of stages (c_Name comp) = Some st.
Proof.
  intros Hnd Hi Hin. unfold stage_of.
  assert (has_component (c_Name comp) st = true) as Hhas.
  { apply existsb_exists. exists comp. split; [by apply list_elem_of_In|by apply bool_decide_eq_true]. }
  apply list_elem_of_split_length in Hi as (l1 & l2 & -> & _).
  rewrite rev_app_distr. simpl. rewrite <-app_assoc. simpl.
  assert (∀ st', st' ∈ l2 → has_component (c_Name comp) st' = false) as Hno.
  { intros st' Hst'. destruct (has_component _ st') eqn:E; [|done]. exfalso.
    apply existsb_exists in E as (c' & Hc' & Hn%bool_decide_eq_true).
    rewrite flat_map_app, map_app in Hnd. simpl in Hnd. rewrite map_app in Hnd.
    apply NoDup_app in Hnd as (_ & _ & Hnd). apply NoDup_app in Hnd as (_ & Hdisj & _).
    apply (Hdisj (c_Name comp)); [by apply (list_elem_of_fmap_2 c_Name)|].
    rewrite <-Hn. apply list_elem_of_fmap. exists c'. split; [done|].
    apply list_elem_of_In, in_flat_map. exists st'. split; [by apply list_elem_of_In|done]. }
  assert (find (has_component (c_Name comp)) (rev l2) = None) as Hnone.
  { destruct (find _ (rev l2)) as [x|] eqn:E; [|done]. apply find_some in E as [Hx Hp].
    rewrite Hno in Hp; [done|]. apply list_elem_of_In. by apply in_rev. }
  clear -Hnone Hhas. induction (rev l2) as [|x l IH]; simpl in *; [by rewrite Hhas|].
  by destruct (has_component (c_Name comp) x); [|apply IH].
Qed.

Lemma find_resolved_Some l name : name ∈ map rcs_Name l →
  ∃ rc, find_resolved l name = Some rc ∧ rc ∈ l ∧ rcs_Name rc = name.
Proof.
  intros Hin. unfold find_resolved. destruct (find _ l) as [rc|] eqn:E.
  - apply find_some in E as [Hrc Hn%bool_decide_eq_true]. exists rc. by rewrite list_elem_of_In.
  - apply list_elem_of_fmap in Hin as (rc & -> & Hin). apply list_elem_of_In in Hin.
    apply (find_none _ _ E) in Hin. by apply bool_decide_eq_false in Hin.
Qed.

(** The sidecar after the mounts: the one init container, with the SecurityContext
    defaults when a Secret is mounted. *)
Lemma pod_shape r pr comp now job cm : buildComponentJob r pr comp now = Ok (job, cm) →
  ∃ spec stage rc, s_ResolvedSpec (pr_Status pr) = Some spec ∧
    stage_of (ps_Stages spec) (c_Name comp) = Some stage ∧
    find_resolved (s_Components (pr_Status pr)) (c_Name comp) = Some rc ∧
    j_Name job = componentJobName pr (st_Name stage) (c_Name comp) ∧
    j_BackoffLimit job = (match rs_Preview (pr_Spec pr) with Some _ => 0 | None => 1 end)%Z ∧
    (∃ text, generateGatewayConfig r pr (frozen_pipeline spec) comp now = Ok text ∧
       cm_Data cm = [("gateway.yaml", text)] ∧ cm_Name cm = "gateway-config-" +:+ j_Name job) ∧
    j_PodSpec job = set_automount false (applyCancelAnnotationMount (applyRunTokenMount pr
      (applySecretsMount pr (frozen_pipeline spec) (base_pod r pr comp rc (cm_Name cm))))).
Proof.
  unfold buildComponentJob. intros H.
  destruct (s_ResolvedSpec (pr_Status pr)) as [spec|]; [|done].
  destruct (stage_of _ _) as [stage|] eqn:Es; [|done].
  destruct (find_resolved _ _) as [rc|] eqn:Er; [|done].
  destruct (generateGatewayConfig r pr (frozen_pipeline spec) comp now) as [text|e] eqn:Eg; [|done].
  simplify_eq. exists spec, stage, rc. cbn [j_Name j_BackoffLimit j_PodSpec cm_Data cm_Name].
  split_and!; try done. exists text. done.
Qed.

(** The pod of a component gives the Secrets to the gateway sidecar only:
    the component container has no mount at all, drops every capability, cannot
    escalate, and there is no service-account token; the only Secret volumes are
    the snapshot, exactly when the frozen spec references a secret, and the run
    token, exactly when the run names one; the sidecar then runs as non-root in
    the group that owns the files. *)
Theorem secrets_reach_gateway_only (r : Reconciler) (pr : PipelineRun) (comp : ComponentSpec) (now : Z)
    (job : Job) (cm : ConfigMapObject) (spec : PipelineSpec)
    (Hb : buildComponentJob r pr comp now = Ok (job, cm))
    (Hspec : s_ResolvedSpec (pr_Status pr) = Some spec) :
  let pod := j_PodSpec job in
  ∃ gw c, ps_InitContainers pod = [gw] ∧ ps_Containers pod = [c] ∧
    ct_VolumeMounts c = [] ∧
    ct_SecurityContext c =
      Some (MkSecurityContext (Some false) ["ALL"] (Some "RuntimeDefault") None None None) ∧
    ps_AutomountServiceAccountToken pod = Some false ∧
    (∀ name optional mode items v, v ∈ ps_Volumes pod → vol_Source v = SecretSource name optional mode items →
      optional = false ∧ mode = 288%Z ∧ ps_FSGroup pod = Some 65532%Z ∧
      (∃ sc, ct_SecurityContext gw = Some sc ∧ sc_RunAsNonRoot sc = Some true ∧ sc_RunAsGroup sc = Some 65532%Z) ∧
      (name = runSecretsName pr ∧ refs_of spec ≠ [] ∨ rs_RunTokenRef (pr_Spec pr) = Some name)) ∧
    (mounts_volume "datuplet-secrets" gw = true ↔ refs_of spec ≠ []) ∧
    (mounts_volume "datuplet-runtoken" gw = true ↔ is_Some (rs_RunTokenRef (pr_Spec pr))).
Proof.
  destruct (pod_shape _ _ _ _ _ _ Hb) as (spec' & st & rc & Hs & _ & _ & _ & _ & _ & ->). simplify_eq.
  unfold applySecretsMount, applyRunTokenMount. fold (refs_of spec).
  destruct (refs_of spec) as [|n refs], (rs_RunTokenRef (pr_Spec pr)) as [ref|]; cbv zeta;
    eexists _, _; cbn; (split_and!; [done..| | |]);
    try (by split; [intros; discriminate|intros; discriminate || done || (exfalso; eauto)]);
    try (by split; [intros _; (done || eauto)|done]);
    try (by split; [intros ?; discriminate|intros [? ?]; discriminate]);
    intros name optional mode items v; rewrite ?elem_of_cons, ?elem_of_nil;
    intros Hv Hsrc; repeat destruct Hv as [->|Hv]; simplify_eq/=; try done;
    (split_and!; [done..|eexists; split_and!; done|]); naive_solver.
Qed.

(** Within a stage, the first ten bytes of a component's name decide its Job. *)
Lemma componentJobName_eq (pr : PipelineRun) (stageName a b : string) :
  componentJobName pr stageName a = componentJobName pr stageName b ↔ str_take 10 a = str_take 10 b.
Proof.
  unfold componentJobName. rewrite !str_take_min. split; [|by intros ->].
  intros H. do 5 apply str_app_inj_l in H. by apply str_app_inj_r in H.
Qed.

(** The Job of a component of an admitted run. *)
Lemma job_of_component (r : Reconciler) (pr : PipelineRun) (spec : PipelineSpec) (i : nat)
    (st : StageSpec) (comp : ComponentSpec) (now : Z) (job : Job) (cm : ConfigMapObject)
    (Hok : run_ok (pr_Status pr)) (Hspec : s_ResolvedSpec (pr_Status pr) = Some spec)
    (Hst : ps_Stages spec !! i = Some st) (Hin : comp ∈ st_Components st)
    (Hb : buildComponentJob r pr comp now = Ok (job, cm)) :
  j_Name job = componentJobName pr (st_Name st) (c_Name comp) ∧
  j_BackoffLimit job = (match rs_Preview (pr_Spec pr) with Some _ => 0 | None => 1 end)%Z ∧
  ∃ rc c, rc ∈ s_Components (pr_Status pr) ∧ rcs_Name rc = c_Name comp ∧
    ps_Containers (j_PodSpec job) = [c] ∧ ct_Image c = rcs_Image rc ∧
    ct_ImagePullPolicy c = componentImagePullPolicy r (rcs_Version rc) ∧
    ∀ res, c_Resources comp = Some res → ct_Resources c = res.
Proof.
  destruct (run_ok_running _ _ Hspec Hok) as (_ & _ & Hnames & Hnd).
  destruct (pod_shape _ _ _ _ _ _ Hb) as (spec' & st' & rc & Hs & Hst' & Hrc & Hn & Hbl & _ & Hpod).
  simplify_eq. unfold components_of in *. rewrite (stage_of_unique _ _ _ _ Hnd Hst Hin) in Hst'. injection Hst' as <-.
  split; [done|]. split; [done|].
  destruct (find_resolved_Some (s_Components (pr_Status pr)) (c_Name comp)) as (rc' & Hrc' & Hel & Hname).
  { rewrite Hnames. apply (list_elem_of_fmap_2 c_Name). apply list_elem_of_In, in_flat_map.
    exists st. split; apply list_elem_of_In; [by eapply list_elem_of_lookup_2|done]. }
  rewrite Hrc in Hrc'. injection Hrc' as <-. exists rc, (component_container r pr comp rc). rewrite Hpod.
  unfold applySecretsMount, applyRunTokenMount.
  split_and!; [done|done| |done|done|intros res Hres; simpl; by rewrite Hres].
  by destruct (ReferencedSecrets _), (rs_RunTokenRef _).
Qed.

(** For an admitted run, the Job built for a component of a stage has the
    name [checkStageComponents] polls for that stage and component, and its
    component container runs the image, pull policy and resources frozen for
    that very component; a preview's pod is not retried. *)
Theorem Job_for_component (r : Reconciler) (pr : PipelineRun) (spec : PipelineSpec) (i : nat)
    (st : StageSpec) (comp : ComponentSpec) (now : Z) (job : Job) (cm : ConfigMapObject)
    (Hok : run_ok (pr_Status pr)) (Hspec : s_ResolvedSpec (pr_Status pr) = Some spec)
    (Hst : ps_Stages spec !! i = Some st) (Hin : comp ∈ st_Components st)
    (Hb : buildComponentJob r pr comp now = Ok (job, cm)) :
  j_Name job = componentJobName pr (st_Name st) (c_Name comp) ∧
  j_BackoffLimit job = (match rs_Preview (pr_Spec pr) with Some _ => 0 | None => 1 end)%Z ∧
  ∃ rc c, rc ∈ s_Components (pr_Status pr) ∧ rcs_Name rc = c_Name comp ∧
    ps_Containers (j_PodSpec job) = [c] ∧ ct_Image c = rcs_Image rc ∧
    ct_ImagePullPolicy c = componentImagePullPolicy r (rcs_Version rc) ∧
    ∀ res, c_Resources comp = Some res → ct_Resources c = res.
Proof. by apply (job_of_component r pr spec i st comp now job cm). Qed.

(** ** The gateway configuration *)

Definition config_keys : list string :=
  ["mode"; "run_id"; "preview"; "input_buckets"; "output_buckets"; "input_tables"; "output_tables";
   "default_bucket"; "default_write_mode"; "gateway"; "component"; "secrets_dir"; "lakekeeper_url";
   "pipeline_api_jwks_url"].

Lemma entry_if_keys b key v : sublist (gm_keys (entry_if b key v)) [key].
Proof. destruct b; simpl; [done|apply sublist_nil_l]. Qed.
Lemma gm_keys_app {A} (m m' : gomap A) : gm_keys (m ++ m') = gm_keys m ++ gm_keys m'.
Proof. apply fmap_app. Qed.

Lemma config_keys_sublist r pr p comp config now :
  sublist (gm_keys (gateway_config_map r pr p comp config now)) config_keys.
Proof.
  unfold gateway_config_map. cbv zeta. rewrite !gm_keys_app.
  change config_keys with (["mode"; "run_id"] ++ ["preview"] ++ ["input_buckets"] ++ ["output_buckets"] ++
    ["input_tables"] ++ ["output_tables"] ++ ["default_bucket"; "default_write_mode"] ++ ["gateway"] ++
    ["component"] ++ ["secrets_dir"] ++ ["lakekeeper_url"; "pipeline_api_jwks_url"]).
  repeat apply sublist_app; try done; try apply entry_if_keys.
  - destruct (rs_Preview _); simpl; [done|apply sublist_nil_l].
  - destruct (c_Outputs comp) as [o|]; [|apply sublist_nil_l].
    destruct (str_empty _); simpl; [apply sublist_nil_l|done].
  - destruct (str_empty _); [apply sublist_nil_l|]. simpl. apply sublist_skip, entry_if_keys.
Qed.

Lemma gm_get_app {A} k (m m' : gomap A) :
  gm_get k (m ++ m') = match gm_get k m with Some v => Some v | None => gm_get k m' end.
Proof. induction m as [|[k' v] m IH]; simpl; [done|]. case_decide; done. Qed.
Lemma gm_get_entry_if k b v : gm_get k (entry_if b k v) = if b then Some v else None.
Proof. destruct b; simpl; [by rewrite decide_True|done]. Qed.
Lemma gm_get_entry_if_ne k k' b v : k ≠ k' → gm_get k (entry_if b k' v) = None.
Proof. intros. destruct b; simpl; [by rewrite decide_False|done]. Qed.

(** The bucket loops: no repetition, the non-empty names in order of first use. *)
Definition buckets_inv (l : list string) (st : list string * gset string) : Prop :=
  NoDup st.1 ∧ (∀ b, b ∈ st.2 ↔ b ∈ st.1) ∧ ∀ b, b ∈ st.1 ↔ b ≠ EmptyString ∧ b ∈ l.
Lemma add_bucket_inv l st b : buckets_inv l st → buckets_inv (l ++ [b]) (add_bucket st b).
Proof.
  intros (Hnd & Hs & Hl). unfold add_bucket, buckets_inv.
  destruct (str_empty b) eqn:Eb; simpl.
  { apply str_empty_true in Eb. split_and!; [done|done|]. intros x. rewrite Hl. set_solver. }
  apply str_empty_false in Eb. case_bool_decide as Hin; simpl.
  { split_and!; [done|done|]. intros x. rewrite Hl. apply Hs, Hl in Hin. set_solver. }
  split_and!.
  - apply NoDup_app. split_and!; [done| |apply NoDup_singleton].
    intros x Hx ->%list_elem_of_singleton. by apply Hin, Hs.
  - intros x. rewrite elem_of_app, list_elem_of_singleton, elem_of_union, elem_of_singleton, Hs. tauto.
  - intros x. rewrite !elem_of_app, !list_elem_of_singleton, Hl. naive_solver.
Qed.
Lemma add_buckets_inv l0 l st : buckets_inv l0 st → buckets_inv (l0 ++ l) (foldl add_bucket st l).
Proof.
  revert l0 st. induction l as [|b l IH]; intros l0 st H; simpl; [by rewrite app_nil_r|].
  rewrite (cons_middle b l0 l), app_assoc. by apply IH, add_bucket_inv.
Qed.
Lemma no_buckets : buckets_inv [] ([], ∅).
Proof.
  split_and!; simpl; [apply NoDup_nil_2|intros b; set_solver|]. intros b. rewrite elem_of_nil. tauto.
Qed.

(** Every bucket a component reads, and every bucket it writes. *)
Definition declared_inputs (c : ComponentSpec) : list string :=
  match c_Inputs c with Some i => in_Buckets i ++ map it_Bucket (in_Tables i) | None => [] end.
Definition declared_outputs (c : ComponentSpec) : list string :=
  match c_Outputs c with
  | Some o => o_DefaultBucket o :: map ob_Name (o_Buckets o) ++ map ot_Bucket (o_Tables o)
  | None => []
  end.

Lemma inputBuckets_inv c : NoDup (inputBuckets (c_Inputs c)) ∧
  ∀ b, b ∈ inputBuckets (c_Inputs c) ↔ b ≠ EmptyString ∧ b ∈ declared_inputs c.
Proof.
  unfold inputBuckets, declared_inputs. destruct (c_Inputs c) as [i|].
  - pose proof (add_buckets_inv _ (map it_Bucket (in_Tables i)) _
      (add_buckets_inv _ (in_Buckets i) _ no_buckets)) as (H1 & _ & H2). split; [done|exact H2].
  - split; [constructor|]. intros b. rewrite elem_of_nil. tauto.
Qed.
Lemma outputBuckets_inv c : NoDup (outputBuckets (c_Outputs c)) ∧
  ∀ b, b ∈ outputBuckets (c_Outputs c) ↔ b ≠ EmptyString ∧ b ∈ declared_outputs c.
Proof.
  unfold outputBuckets, declared_outputs. destruct (c_Outputs c) as [o|].
  - pose proof (add_buckets_inv _ (map ot_Bucket (o_Tables o)) _ (add_buckets_inv _ (map ob_Name (o_Buckets o)) _
      (add_bucket_inv _ _ (o_DefaultBucket o) no_buckets))) as (H1 & _ & H2). split; [done|].
    intros b. rewrite H2. simpl. done.
  - split; [constructor|]. intros b. rewrite elem_of_nil. tauto.
Qed.

Lemma strs_if_get key l : gm_get key (entry_if (negb (is_empty l)) key (strs l)) =
  if is_empty l then None else Some (strs l).
Proof. rewrite gm_get_entry_if. by destruct l. Qed.

(** The value of a key of the configuration, block by block. *)
Ltac get_blocks := repeat match goal with
  | |- context [gm_get ?k (entry_if ?b ?k ?v)] => rewrite (gm_get_entry_if k b v)
  | |- context [gm_get ?k (entry_if ?b ?k' ?v)] => rewrite (gm_get_entry_if_ne k k' b v) by discriminate
  end.
Lemma get_block r pr p comp config now :
  let m := gateway_config_map r pr p comp config now in
  let list_entry l := if is_empty l then None else Some (strs l) in
  gm_get "input_buckets" m = list_entry (inputBuckets (c_Inputs comp)) ∧
  gm_get "output_buckets" m = list_entry (outputBuckets (c_Outputs comp)) ∧
  gm_get "secrets_dir" m =
    if is_empty (ReferencedSecrets (Some p)) then None else Some (VStr secretsMountPath).
Proof.
  unfold gateway_config_map. cbv zeta. rewrite !gm_get_app. get_blocks.
  set (gw := num (or_default (gw_BufferSize (ps_Gateway (p_Spec p))) 67108864)).
  destruct (rs_Preview _) as [pv|], (c_Outputs comp) as [o|]; try destruct (str_empty (o_DefaultBucket o));
    cbn [gm_get decide]; (split_and!;
      [destruct (inputBuckets _)|destruct (outputBuckets _)|destruct (ReferencedSecrets _)]); try reflexivity;
    destruct (str_empty (r_LakekeeperURL r)); simpl; get_blocks; done.
Qed.

(** The configuration handed to the gateway sidecar has no repeated key; it
    grants read access to exactly the non-empty buckets the component declares
    as inputs and write access to exactly those it declares as outputs, each
    once; it names the secrets directory exactly when the frozen spec references
    a secret. *)
Theorem gateway_config_grants (r : Reconciler) (pr : PipelineRun) (p : Pipeline) (comp : ComponentSpec)
    (config : gomap value) (now : Z) :
  let m := gateway_config_map r pr p comp config now in
  gm_ok m ∧
  (∃ ins, NoDup ins ∧ (∀ b, b ∈ ins ↔ b ≠ EmptyString ∧ b ∈ declared_inputs comp) ∧
    gm_get "input_buckets" m = if is_empty ins then None else Some (strs ins)) ∧
  (∃ outs, NoDup outs ∧ (∀ b, b ∈ outs ↔ b ≠ EmptyString ∧ b ∈ declared_outputs comp) ∧
    gm_get "output_buckets" m = if is_empty outs then None else Some (strs outs)) ∧
  gm_get "secrets_dir" m =
    (if is_empty (ReferencedSecrets (Some p)) then None else Some (VStr secretsMountPath)).
Proof.
  cbv zeta. pose proof (config_keys_sublist r pr p comp config now) as Hk.
  assert (gm_ok (gateway_config_map r pr p comp config now)) as Hok.
  { eapply sublist_NoDup; [|exact Hk]. apply (bool_decide_unpack _). by vm_compute. }
  split; [exact Hok|].
  pose proof (inputBuckets_inv comp) as [Hi1 Hi2]. pose proof (outputBuckets_inv comp) as [Ho1 Ho2].
  split_and!; [exists (inputBuckets (c_Inputs comp))|exists (outputBuckets (c_Outputs comp))|];
    split_and?; try assumption; apply (get_block r pr p comp config now).
Qed.
End Jobs.

(** ** The outcome of a stage *)

Section Outcome.
Context `{UT : !UnicodeTables} `{Q : !Quantities} `{J : !Json} `{JS : !JsonSchema} `{TR : !Transforms}
  `{KT : !K8sTypes} `{YM : !YamlMarshal} `{CL : !ControllerLib}.

(** Fault-free polling only counts its calls: from [w], [m] goes on with a
    result in [Φ] and the same world. *)
Definition returns {A} (w : World) (m : M A) (Φ : A → Prop) : Prop :=
  ∀ c, ∃ n a, m (w_set_calls c w) = (w_set_calls n w, Continue a) ∧ Φ a.

Lemma returns_ret {A} w (a : A) (Φ : A → Prop) : Φ a → returns w (mret a) Φ.
Proof. intros H c. by exists c, a. Qed.
Lemma returns_bind {A B} w (m : M A) (f : A → M B) Φ Ψ :
  returns w m Φ → (∀ a, Φ a → returns w (f a) Ψ) → returns w (m ≫= f) Ψ.
Proof.
  intros Hm Hf c. destruct (Hm c) as (n & a & E & Ha). destruct (Hf a Ha n) as (n' & b & E' & Hb).
  exists n', b. unfold mbind, M_bind. by rewrite E.
Qed.
Lemma returns_weaken {A} w (m : M A) (Φ Ψ : A → Prop) :
  returns w m Φ → (∀ a, Φ a → Ψ a) → returns w m Ψ.
Proof. intros Hm HΦ c. destruct (Hm c) as (n & a & E & Ha). eauto. Qed.

Section World.
Context (env : Env) (Hnf : no_fault env) (w : World) (Hpods : pods_ok w).

Lemma returns_call : returns w (call env) (λ f, f = None).
Proof. intros c. unfold call. rewrite Hnf. eauto. Qed.
Lemma returns_get_job name : returns w (get_job env name) (λ j, j = w_jobs w !! name).
Proof.
  intros c. unfold get_job, mbind, M_bind. rewrite (call_or_exit_ok env Hnf). simpl. eexists _, _. split; done.
Qed.

(** The last pod of a Job, and the exit code of its component. *)
Definition job_pod (name : string) : option Pod := last (filter (λ p, pod_JobName p = name) (w_pods w)).
Definition job_exit (name : string) : option Z := p ← job_pod name; extractExitCodeFromPod p "component".

Lemma returns_last_pod name : returns w (last_pod env name) (λ p, p = job_pod name).
Proof.
  intros c. unfold last_pod, mbind, M_bind. rewrite (call_ok env Hnf). simpl. eexists _, _. split; done.
Qed.
Lemma returns_exit_code name : returns w (extractExitCodeFromJob env name) (λ e, e = job_exit name).
Proof. eapply returns_bind; [apply returns_last_pod|]. intros p ->. by apply returns_ret. Qed.
Lemma returns_image_id name : returns w (extractImageIDFromJob env name) (λ _, True).
Proof. eapply returns_bind; [apply returns_last_pod|]. intros p _. by apply returns_ret. Qed.
Lemma returns_message r name code : (- 2 ^ 31 ≤ code < 2 ^ 31)%Z →
  returns w (extractComponentStatusMessage r env name code) (λ _, True).
Proof.
  intros Hc. unfold extractComponentStatusMessage. destruct (negb _); [by apply returns_ret|].
  eapply (returns_bind _ _ _ (λ _, True)).
  - eapply returns_bind; [apply returns_last_pod|]. intros [p|] _; [|by apply returns_ret].
    eapply returns_bind; [apply returns_call|]. intros f _. by apply returns_ret.
  - intros [logs|] _; [|by apply returns_ret].
    destruct (ExtractStatusMessage_total logs code Hc) as [m ->]. by apply returns_ret.
Qed.
Lemma job_exit_int32 name : int32_code (job_exit name).
Proof.
  intros z. unfold job_exit, job_pod. destruct (last _) as [p|] eqn:E; [|done]. simpl.
  assert (pod_ok p) as [H1 H2].
  { apply Hpods. apply last_Some_elem_of in E. by apply list_elem_of_filter in E as [_ ?]. }
  unfold extractExitCodeFromPod. destruct (terminated _ (pod_ContainerStatuses p)) eqn:Et.
  - intros [= <-]. exact (terminated_int32 _ _ H1 _ Et).
  - intros H. exact (terminated_int32 _ _ H2 _ H).
Qed.

(** What a Job says of its component: the verdict of its conditions. *)
Definition condition_verdict (exit : option Z) (p : ComponentPhase) (c : JobCondition) : ComponentPhase :=
  match jc_Type c, jc_Status c with
  | JobComplete, true => ComponentPhaseSucceeded
  | JobFailed, true =>
    if bool_decide (exit = Some 1%Z) then ComponentPhaseFailedUser else ComponentPhaseFailedApplication
  | _, _ => p
  end.
(** The phase of a component after the poll: a terminal one stays; else what
    its Job reports, if there is one. *)
Definition observed (pr : PipelineRun) (stageName : string) (cs : ComponentStatus) : ComponentPhase :=
  if componentTerminal (cs_Phase cs) then cs_Phase cs
  else
    let name := componentJobName pr stageName (cs_Name cs) in
    match w_jobs w !! name with
    | Some j => foldl (condition_verdict (job_exit name)) (cs_Phase cs) (jo_Conditions j)
    | None => cs_Phase cs
    end.

(** A Job is never both Complete and Failed. *)
Definition says_complete (c : JobCondition) : bool :=
  match jc_Type c with JobComplete => jc_Status c | _ => false end.
Definition says_failed (c : JobCondition) : bool :=
  match jc_Type c with JobFailed => jc_Status c | _ => false end.
Definition exclusive (conds : list JobCondition) : bool :=
  negb (existsb says_complete conds && existsb says_failed conds).

(** The flags after a component whose phase is now [p]. *)
Definition flagged (p : ComponentPhase) (k k' : check_state) : Prop :=
  k_anyFailedUser k' = k_anyFailedUser k || bool_decide (p = ComponentPhaseFailedUser) ∧
  k_anyFailedApp k' = k_anyFailedApp k || bool_decide (p = ComponentPhaseFailedApplication).

Lemma classify_user code : match ClassifyExitCode code with FailureTypeUser => true | _ => false end =
  bool_decide (Some code = Some 1%Z).
Proof.
  unfold ClassifyExitCode. destruct (code =? 0)%Z eqn:E0; to_arith; [by subst|].
  destruct (code =? 1)%Z eqn:E1; to_arith; [by subst|]. symmetry. apply bool_decide_eq_false. congruence.
Qed.

Lemma returns_check_condition r name c cs k :
  returns w (check_condition r env name (job_exit name) c (cs, k))
    (λ '(cs', k'), cs_Name cs' = cs_Name cs ∧ cs_Phase cs' = condition_verdict (job_exit name) (cs_Phase cs) c ∧
       k_allSucceeded k' = k_allSucceeded k ∧
       (if says_failed c then flagged (cs_Phase cs') k k' else k' = k)).
Proof.
  unfold check_condition, condition_verdict, says_failed.
  destruct (jc_Type c), (jc_Status c); try (by apply returns_ret).
  - eapply returns_bind; [by apply returns_message|]. intros msg _. apply returns_ret. by destruct (str_empty msg).
  - cbv zeta.
    eapply (returns_bind _ _ _ (λ x, cs_Name x.1 = cs_Name cs ∧
      x.2 = bool_decide (job_exit name = Some 1%Z) ∧
      cs_Phase x.1 = if bool_decide (job_exit name = Some 1%Z) then ComponentPhaseFailedUser
                     else ComponentPhaseFailedApplication)).
    + pose proof (job_exit_int32 name) as H32. destruct (job_exit name) as [z|]; [|by apply returns_ret].
      eapply returns_bind; [by apply returns_message, H32|]. intros msg _. apply returns_ret. simpl.
      by rewrite classify_user.
    + intros [cs' user] (Hn & Hu & Hp). simpl in *. apply returns_ret. split_and!; [done|done|done|].
      unfold flagged, note_failed. simpl. rewrite Hp, Hu.
      case_bool_decide; simpl; by rewrite ?orb_true_r, ?orb_false_r.
Qed.

(** Without a failure, the Job says Succeeded or nothing. *)
Lemma verdict_no_failure exit p conds : existsb says_failed conds = false →
  foldl (condition_verdict exit) p conds = p ∨ foldl (condition_verdict exit) p conds = ComponentPhaseSucceeded.
Proof.
  revert p. induction conds as [|c conds IH]; intros p Hno; simpl in *; [by left|].
  apply orb_false_iff in Hno as [Hc Hno].
  destruct (IH (condition_verdict exit p c) Hno) as [->| ->]; [|by right].
  unfold condition_verdict, says_failed in *. destruct (jc_Type c), (jc_Status c); auto; done.
Qed.
Lemma returns_no_failure r name conds cs k : existsb says_failed conds = false →
  returns w (check_conditions r env name (job_exit name) conds (cs, k))
    (λ '(cs', k'), cs_Name cs' = cs_Name cs ∧
       cs_Phase cs' = foldl (condition_verdict (job_exit name)) (cs_Phase cs) conds ∧ k' = k).
Proof.
  revert cs k. induction conds as [|c conds IH]; intros cs k Hno; simpl in *; [by apply returns_ret|].
  apply orb_false_iff in Hno as [Hc Hno].
  eapply returns_bind; [apply returns_check_condition|]. intros [cs1 k1] (H1 & H2 & _ & H4).
  rewrite Hc in H4. subst k1. eapply returns_weaken; [by apply IH|]. intros [cs2 k2]. by rewrite H1, H2.
Qed.

(** The failure a Job with this exit code reports. *)
Definition failure_of (exit : option Z) : ComponentPhase :=
  if bool_decide (exit = Some 1%Z) then ComponentPhaseFailedUser else ComponentPhaseFailedApplication.
Definition settled (exit : option Z) (p : ComponentPhase) : Prop :=
  componentTerminal p = false ∨ p = failure_of exit.

Lemma flagged_refl p k : componentTerminal p = false → flagged p k k.
Proof. intros H. unfold flagged. by destruct p; simpl in *; rewrite ?orb_false_r. Qed.
Lemma flagged_failure exit p k0 k k1 : settled exit p → flagged p k0 k → flagged (failure_of exit) k k1 →
  flagged (failure_of exit) k0 k1.
Proof.
  unfold flagged. intros Hp [Hu Ha] [-> ->]. rewrite Hu, Ha. destruct Hp as [Hp| ->].
  - by destruct p; simpl in *; rewrite ?orb_false_r.
  - by rewrite <-!orb_assoc, !orb_diag.
Qed.
Lemma returns_no_complete r name conds cs k0 k : existsb says_complete conds = false →
  settled (job_exit name) (cs_Phase cs) → flagged (cs_Phase cs) k0 k →
  returns w (check_conditions r env name (job_exit name) conds (cs, k))
    (λ '(cs', k'), cs_Name cs' = cs_Name cs ∧
       cs_Phase cs' = foldl (condition_verdict (job_exit name)) (cs_Phase cs) conds ∧
       k_allSucceeded k' = k_allSucceeded k ∧ flagged (cs_Phase cs') k0 k').
Proof.
  revert cs k. induction conds as [|c conds IH]; intros cs k Hno Hs Hf; simpl in *; [by apply returns_ret|].
  apply orb_false_iff in Hno as [Hc Hno].
  eapply returns_bind; [apply returns_check_condition|]. intros [cs1 k1] (H1 & H2 & H3 & H4).
  assert (settled (job_exit name) (cs_Phase cs1) ∧ flagged (cs_Phase cs1) k0 k1) as [Hs1 Hf1].
  { rewrite H2 in *. unfold condition_verdict, says_complete, says_failed in *.
    destruct (jc_Type c), (jc_Status c); try done; try (by subst k1).
    split; [by right|]. by eapply flagged_failure. }
  eapply returns_weaken; [by apply IH|]. intros [cs2 k2]. by rewrite H1, H2, H3.
Qed.

Lemma returns_check_conditions r name conds cs k : exclusive conds = true →
  componentTerminal (cs_Phase cs) = false →
  returns w (check_conditions r env name (job_exit name) conds (cs, k))
    (λ '(cs', k'), cs_Name cs' = cs_Name cs ∧
       cs_Phase cs' = foldl (condition_verdict (job_exit name)) (cs_Phase cs) conds ∧
       k_allSucceeded k' = k_allSucceeded k ∧ flagged (cs_Phase cs') k k').
Proof.
  intros Hex Ht. apply negb_true_iff, andb_false_iff in Hex as [Hno|Hno].
  - apply returns_no_complete; [done|by left|by apply flagged_refl].
  - eapply returns_weaken; [by apply returns_no_failure|]. intros [cs' k'] (H1 & H2 & ->).
    split_and!; [done|done|done|].
    destruct (verdict_no_failure (job_exit name) (cs_Phase cs) conds Hno) as [E|E]; rewrite H2, E.
    + by apply flagged_refl.
    + unfold flagged. simpl. by rewrite !orb_false_r.
Qed.

Definition jobs_exclusive : Prop := ∀ name j, w_jobs w !! name = Some j → exclusive (jo_Conditions j) = true.

(** One component: its phase is the observed one, the flags follow. *)
Lemma returns_check_component r pr stageName cs k : jobs_exclusive →
  returns w (check_component r env pr stageName cs k)
    (λ '(cs', k'), cs_Name cs' = cs_Name cs ∧ cs_Phase cs' = observed pr stageName cs ∧
       k_allSucceeded k' = k_allSucceeded k && componentTerminal (cs_Phase cs) ∧
       flagged (cs_Phase cs') k k').
Proof.
  intros Hex. unfold check_component, observed.
  destruct (componentTerminal (cs_Phase cs)) eqn:Ht.
  { destruct (cs_Phase cs) eqn:Hp; try done; apply returns_ret; rewrite Hp; unfold flagged; simpl;
      rewrite ?andb_true_r, ?orb_false_r, ?orb_true_r; done. }
  set (name := componentJobName pr stageName (cs_Name cs)). cbv zeta.
  assert (returns w (job ← get_job env name;
      match job with
      | None => mret (cs, note_pending k)
      | Some job =>
        exitCode ← extractExitCodeFromJob env name;
        imageID ← extractImageIDFromJob env name;
        check_conditions r env name exitCode (jo_Conditions job)
          (cs, note_image (cs_Name cs) imageID (note_pending k))
      end)
    (λ '(cs', k'), cs_Name cs' = cs_Name cs ∧
       cs_Phase cs' = match w_jobs w !! name with
         | Some j => foldl (condition_verdict (job_exit name)) (cs_Phase cs) (jo_Conditions j)
         | None => cs_Phase cs
         end ∧
       k_allSucceeded k' = k_allSucceeded k && false ∧ flagged (cs_Phase cs') k k')) as H.
  { eapply returns_bind; [apply returns_get_job|]. intros job ->.
    destruct (w_jobs w !! name) as [j|] eqn:Ej.
    - eapply returns_bind; [apply returns_exit_code|]. intros code ->.
      eapply returns_bind; [apply returns_image_id|]. intros image _.
      eapply returns_weaken; [apply returns_check_conditions; eauto|]. intros [cs' k'] (H1 & H2 & H3 & H4).
      by rewrite andb_false_r.
    - apply returns_ret. rewrite andb_false_r. split_and!; [done|done|done|exact (flagged_refl _ k Ht)]. }
  by destruct (cs_Phase cs).
Qed.

(** The whole stage. *)
Lemma returns_check_components r pr stageName comps statuses k : jobs_exclusive →
  statuses_for comps statuses →
  returns w (check_components r env pr stageName comps statuses k)
    (λ '(l, k'), map cs_Name l = map cs_Name statuses ∧
       map cs_Phase l = map (observed pr stageName) statuses ∧
       k_allSucceeded k' = k_allSucceeded k && forallb (λ cs, componentTerminal (cs_Phase cs)) statuses ∧
       k_anyFailedUser k' = k_anyFailedUser k || bool_decide (ComponentPhaseFailedUser ∈ map cs_Phase l) ∧
       k_anyFailedApp k' = k_anyFailedApp k || bool_decide (ComponentPhaseFailedApplication ∈ map cs_Phase l)).
Proof.
  intros Hex Hst. revert k. induction Hst as [|c cs comps statuses Hc Hst IH]; intros k; simpl.
  { apply returns_ret. simpl. by rewrite andb_true_r, !orb_false_r. }
  eapply returns_bind; [by apply returns_check_component|]. intros [cs1 k1] (H1 & H2 & H3 & [H4 H5]).
  eapply returns_weaken; [apply returns_bind with (Φ := λ '(l, k'), map cs_Name l = map cs_Name statuses ∧
       map cs_Phase l = map (observed pr stageName) statuses ∧
       k_allSucceeded k' = k_allSucceeded k1 && forallb (λ cs, componentTerminal (cs_Phase cs)) statuses ∧
       k_anyFailedUser k' = k_anyFailedUser k1 || bool_decide (ComponentPhaseFailedUser ∈ map cs_Phase l) ∧
       k_anyFailedApp k' = k_anyFailedApp k1 || bool_decide (ComponentPhaseFailedApplication ∈ map cs_Phase l));
     [apply IH|]|intros x Hx; exact Hx].
  intros [l k2] (G1 & G2 & G3 & G4 & G5). apply returns_ret. simpl.
  rewrite H1, H2, G1, G2, G3, H3, G4, H4, G5, H5, <-!orb_assoc, andb_assoc, H2.
  split_and!; try done; f_equal; rewrite <-bool_decide_or; apply bool_decide_ext; rewrite elem_of_cons, <-G2;
    by split; (intros [?|?]; [left|right]).
Qed.

(** ** One reconcile of a running stage *)

(** The stored run executes stage [i], and no deadline or cancel intervenes. *)
Record executing_stage (pr : PipelineRun) (spec : PipelineSpec) (i : nat) (st : StageSpec)
    (ss : StageStatus) : Prop := {
  ex_run : w_run w = Some pr;
  ex_phase : s_Phase (pr_Status pr) = PipelineRunPhaseRunning;
  ex_cancel : pr_Cancel pr = false;
  ex_ok : run_ok (pr_Status pr);
  ex_spec : s_ResolvedSpec (pr_Status pr) = Some spec;
  ex_stage : ps_Stages spec !! i = Some st;
  ex_current : current_stage (s_StageStatuses (pr_Status pr)) = Some (i, ss);
  ex_deadline : previewDeadlinePassed (e_now env) pr = false;
}.

(** The run in memory during that reconcile. *)
Definition in_stage (pr : PipelineRun) (st : StageSpec) : PipelineRun :=
  on_status (s_set_CurrentStage (st_Name st))
    (on_status (s_set_ObservedGeneration (pr_Generation pr)) pr).

Lemma Reconcile_stage r pr spec i st ss : executing_stage pr spec i st ss →
  Reconcile r env (Ok (Some pr)) w =
    match (match ss_Phase ss with
           | StagePhasePending => startStage r env (in_stage pr st) i st ss
           | StagePhaseRunning => checkStageComponents r env (in_stage pr st) i st ss
           | StagePhaseFailedUser => fail_with_stage env PipelineRunPhaseFailedUser st ss (in_stage pr st)
           | StagePhaseFailedApplication =>
             fail_with_stage env PipelineRunPhaseFailedApplication st ss (in_stage pr st)
           | _ => exit (RequeueAfter PipelineRunRequeueInterval)
           end) (w_set_calls 0 w) with (w', Continue o) => (w', o) | (w', Exit o) => (w', o) end.
Proof.
  intros [Hr Hp Hc _ Hsp Hst Hcur Hd]. unfold Reconcile, reconcile. cbv zeta.
  change (pr_Cancel (on_status _ pr)) with (pr_Cancel pr). rewrite Hc.
  rewrite (bind_continue _ _ _ (w_set_calls 0 w) ()) by done.
  change (s_Phase (pr_Status (on_status _ pr))) with (s_Phase (pr_Status pr)). rewrite Hp.
  unfold handleRunning. change (s_ResolvedSpec (pr_Status (on_status _ pr))) with (s_ResolvedSpec (pr_Status pr)).
  rewrite Hsp. change (s_StageStatuses (pr_Status (on_status _ pr))) with (s_StageStatuses (pr_Status pr)).
  rewrite Hcur, Hst. fold (in_stage pr st). cbv zeta.
  change (previewDeadlinePassed (e_now env) (in_stage pr st)) with (previewDeadlinePassed (e_now env) pr).
  rewrite Hd. by destruct (rs_Preview _), (ss_Phase ss).
Qed.

(** The phase of a stage, from the phases its components are in after the poll
    and whether all of them had ended before it. *)
Definition stage_verdict (phases : list ComponentPhase) (ended : bool) : StagePhase :=
  if bool_decide (ComponentPhaseFailedUser ∈ phases) then StagePhaseFailedUser
  else if bool_decide (ComponentPhaseFailedApplication ∈ phases) then StagePhaseFailedApplication
  else if ended then StagePhaseSucceeded else StagePhaseRunning.

Lemma update_stage_ok {A} pr pr' i ss o c : w_run w = Some pr → pr_ResourceVersion pr' = pr_ResourceVersion pr →
  update_return env (set_stage i ss pr') o (w_set_calls c w) =
    (w_set_run (Some (stored pr (pr_Status (set_stage i ss pr')))) (w_set_calls (S c) w), Exit o : step_result A).
Proof. intros Hr Hv. by rewrite (update_return_ok env Hnf _ pr). Qed.

Lemma poll_stage r pr spec i st ss : executing_stage pr spec i st ss → ss_Phase ss = StagePhaseRunning →
  jobs_exclusive →
  ∃ n o pr' ss', Reconcile r env (Ok (Some pr)) w = (w_set_run (Some pr') (w_set_calls n w), o) ∧
    pr_ResourceVersion pr' = S (pr_ResourceVersion pr) ∧
    pr_Cancel pr' = pr_Cancel pr ∧ pr_Spec pr' = pr_Spec pr ∧ pr_Name pr' = pr_Name pr ∧
    s_RunID (pr_Status pr') = s_RunID (pr_Status pr) ∧
    s_ResolvedSpec (pr_Status pr') = s_ResolvedSpec (pr_Status pr) ∧
    s_Phase (pr_Status pr') = PipelineRunPhaseRunning ∧
    s_StageStatuses (pr_Status pr') = <[i := ss']> (s_StageStatuses (pr_Status pr)) ∧
    map cs_Name (ss_ComponentStatuses ss') = map cs_Name (ss_ComponentStatuses ss) ∧
    map cs_Phase (ss_ComponentStatuses ss') = map (observed pr (st_Name st)) (ss_ComponentStatuses ss) ∧
    ss_Phase ss' = stage_verdict (map cs_Phase (ss_ComponentStatuses ss'))
      (forallb (λ cs, componentTerminal (cs_Phase cs)) (ss_ComponentStatuses ss)).
Proof.
  intros Hex Hrun Hexcl. rewrite (Reconcile_stage r _ _ _ _ _ Hex), Hrun. destruct Hex as [Hr Hp _ Hok Hsp Hst Hcur _].
  assert (statuses_for (st_Components st) (ss_ComponentStatuses ss)) as Hfor.
  { apply current_stage_current in Hcur as (Hi & _).
    destruct (run_ok_running _ _ Hsp Hok) as [Hall _].
    destruct (Forall2_lookup_lr _ _ _ _ _ _ Hall Hst Hi) as [_ H]. by rewrite Hrun in H. }
  unfold checkStageComponents.
  destruct (returns_check_components r (in_stage pr st) (st_Name st) (st_Components st) (ss_ComponentStatuses ss)
    (MkCheckState true false false EmptyString EmptyString (s_Components (pr_Status (in_stage pr st)))) Hexcl Hfor 0)
    as (n & [l k] & E & Hn & Hph & Hall & Hu & Ha).
  rewrite (bind_continue _ _ _ _ _ E). cbv zeta. simpl in Hall, Hu, Ha.
  change (map (observed (in_stage pr st) (st_Name st)) (ss_ComponentStatuses ss))
    with (map (observed pr (st_Name st)) (ss_ComponentStatuses ss)) in Hph.
  set (ended := forallb (λ cs, componentTerminal (cs_Phase cs)) (ss_ComponentStatuses ss)) in *.
  pose proof (eq_refl (stage_verdict (map cs_Phase l) ended)) as Hv. unfold stage_verdict at 2 in Hv.
  rewrite Hu, Ha. destruct (bool_decide (ComponentPhaseFailedUser ∈ map cs_Phase l)); cbn [orb].
  { rewrite (update_stage_ok pr) by done. eexists _, _, _, _. split; [done|]. split_and!; done. }
  destruct (bool_decide (ComponentPhaseFailedApplication ∈ map cs_Phase l)).
  { rewrite (update_stage_ok pr) by done. eexists _, _, _, _. split; [done|]. split_and!; done. }
  rewrite Hall. destruct ended.
  { rewrite (update_stage_ok pr) by done. eexists _, _, _, _. split; [done|]. split_and!; done. }
  unfold mbind, M_bind, try_update, mbind, M_bind. rewrite (call_ok env Hnf). cbn. rewrite Hr. cbn.
  rewrite bool_decide_true by done. cbn. eexists _, _, _, _. split; [done|]. split_and!; try done.
  cbn [ss_Phase ss_set_ComponentStatuses]. rewrite Hrun. exact (eq_sym Hv).
Qed.

(** ** One reconcile that starts a stage *)

Lemma create_job_ok j w0 : ∃ n, create_job env j w0 =
  (w_set_calls n (match w_jobs w0 !! j_Name j with
                  | Some _ => w0
                  | None => w_set_jobs (<[j_Name j := MkJobObject j []]> (w_jobs w0)) w0
                  end), Continue ()).
Proof.
  unfold create_job, mbind, M_bind. rewrite (call_or_exit_ok env Hnf). unfold get_world. simpl.
  exists (S (w_calls w0)). by destruct (w_jobs w0 !! j_Name j).
Qed.
Lemma create_configmap_ok cm w0 : ∃ w1, create_configmap env cm w0 = (w1, Continue ()) ∧
  w_run w1 = w_run w0 ∧ w_jobs w1 = w_jobs w0 ∧ w_pods w1 = w_pods w0.
Proof.
  unfold create_configmap, mbind, M_bind. rewrite (call_or_exit_ok env Hnf). unfold get_world. simpl.
  destruct (w_configmaps w0 !! cm_Name cm); by eexists.
Qed.

(** The Jobs of the components, in order. *)
Definition stage_jobs (r : Reconciler) (pr : PipelineRun) (comps : list ComponentSpec) : list Job :=
  omap (λ c, match buildComponentJob r pr c (e_now env) with Ok (job, _) => Some job | Err _ => None end) comps.
(** The Job under a name once those Jobs are created: one that exists is kept,
    else the first of that name is created. *)
Definition created (jobs : gmap string JobObject) (l : list Job) (name : string) : option JobObject :=
  match jobs !! name with
  | Some j => Some j
  | None => (λ j, MkJobObject j []) <$> find (λ j, bool_decide (j_Name j = name)) l
  end.

Lemma created_cons jobs job l name :
  created jobs (job :: l) name =
  created (match jobs !! j_Name job with Some _ => jobs | None => <[j_Name job := MkJobObject job []]> jobs end)
    l name.
Proof.
  unfold created. simpl. destruct (jobs !! j_Name job) as [j0|] eqn:E0.
  - destruct (jobs !! name) eqn:E; [done|]. by rewrite bool_decide_false by congruence.
  - case_bool_decide as Hn; [subst name; by rewrite E0, lookup_insert_eq|].
    by rewrite lookup_insert_ne.
Qed.
Lemma created_kept jobs l name j : jobs !! name = Some j → created jobs l name = Some j.
Proof. unfold created. by intros ->. Qed.
Lemma created_some jobs l job : job ∈ l → is_Some (created jobs l (j_Name job)).
Proof.
  unfold created. destruct (jobs !! _); [done|]. intros Hin.
  destruct (find _ l) eqn:E; [done|]. apply list_elem_of_In in Hin. apply (find_none _ _ E) in Hin.
  by case_bool_decide.
Qed.

Lemma start_components_ok r pr i ss k comps statuses w0 :
  (∀ c, c ∈ comps → is_ok (buildComponentJob r pr c (e_now env)) = true) →
  ∃ w1 l, start_components r env pr i ss k comps statuses w0 = (w1, Continue l) ∧
    w_run w1 = w_run w0 ∧ w_pods w1 = w_pods w0 ∧
    ∀ name, w_jobs w1 !! name = created (w_jobs w0) (stage_jobs r pr comps) name.
Proof.
  revert k statuses w0. induction comps as [|c comps IH]; intros k statuses w0 Hb; simpl.
  { exists w0, statuses. split_and!; try done. intros name. unfold created. by destruct (w_jobs w0 !! name). }
  destruct (buildComponentJob r pr c (e_now env)) as [[job cm]|e] eqn:E.
  2: { specialize (Hb c ltac:(constructor)). by rewrite E in Hb. }
  rewrite !(bind_continue _ _ _ _ _ (call_or_exit_ok env Hnf _)).
  set (w1 := w_set_calls _ _). destruct (create_configmap_ok cm w1) as (w2 & E2 & Hr2 & Hj2 & Hp2).
  rewrite (bind_continue _ _ _ _ _ E2). destruct (create_job_ok job w2) as (n & E3).
  rewrite (bind_continue _ _ _ _ _ E3).
  destruct (IH (S k) (alter (started env (j_Name job)) k statuses) (w_set_calls n
    (w_set_jobs (match w_jobs w2 !! j_Name job with
      | Some _ => w_jobs w2 | None => <[j_Name job := MkJobObject job []]> (w_jobs w2) end) w2)))
    as (w4 & l & E4 & Hr4 & Hp4 & Hj4).
  { intros c' Hc'. apply Hb. by constructor. }
  exists w4, l. split_and!; [|rewrite Hr4; exact Hr2|rewrite Hp4; exact Hp2|].
  - rewrite <-E4. f_equal. by destruct (w_jobs w2 !! j_Name job), w2.
  - intros name. rewrite Hj4. simpl. rewrite Hj2. rewrite created_cons. done.
Qed.

Lemma begin_stage r pr spec i st ss : executing_stage pr spec i st ss → ss_Phase ss = StagePhasePending →
  (∀ c, c ∈ st_Components st → is_ok (buildComponentJob r pr c (e_now env)) = true) →
  ∃ w' o pr' ss', Reconcile r env (Ok (Some pr)) w = (w', o) ∧ w_run w' = Some pr' ∧ w_pods w' = w_pods w ∧
    pr_Cancel pr' = pr_Cancel pr ∧ pr_Spec pr' = pr_Spec pr ∧ pr_Name pr' = pr_Name pr ∧
    s_RunID (pr_Status pr') = s_RunID (pr_Status pr) ∧
    s_ResolvedSpec (pr_Status pr') = s_ResolvedSpec (pr_Status pr) ∧
    s_Phase (pr_Status pr') = PipelineRunPhaseRunning ∧
    s_StageStatuses (pr_Status pr') = <[i := ss']> (s_StageStatuses (pr_Status pr)) ∧
    ss_Phase ss' = StagePhaseRunning ∧
    Forall2 (λ c s, cs_Name s = c_Name c ∧ cs_Phase s = ComponentPhaseRunning)
      (st_Components st) (ss_ComponentStatuses ss') ∧
    (∀ name, w_jobs w' !! name = created (w_jobs w) (stage_jobs r pr (st_Components st)) name) ∧
    ∀ c, c ∈ st_Components st → is_Some (w_jobs w' !! componentJobName pr (st_Name st) (c_Name c)).
Proof.
  intros Hex Hpend Hb. rewrite (Reconcile_stage r _ _ _ _ _ Hex), Hpend.
  destruct Hex as [Hr Hp _ Hok Hsp Hst Hcur _]. unfold startStage.
  destruct (start_components_ok r (in_stage pr st) i ss 0 (st_Components st)
    (map pending_component (st_Components st)) (w_set_calls 0 w) Hb) as (w1 & l & E & Hr1 & Hp1 & Hj1).
  assert (Forall2 (λ c s, cs_Name s = c_Name c ∧ cs_Phase s = ComponentPhaseRunning) (st_Components st) l) as Hl.
  { apply current_stage_current in Hcur.
    assert (executing pr (in_stage pr st)) as Hexec by (split_and!; done).
    assert (Forall2 (λ c s, cs_Name s = c_Name c) (st_Components st) (map pending_component (st_Components st)))
      as Hpc by (clear; induction (st_Components st); simpl; by constructor).
    destruct (hoare_start_components pr Hp spec i st ss Hsp Hst Hcur r env (in_stage pr st) [] _ _ Hexec Hpend
      Hpc (w_set_calls 0 w) Hpods) as [_ H]. simpl in H. rewrite E in H.
    by destruct H as (_ & l' & -> & Hl). }
  rewrite (bind_continue _ _ _ _ _ E). cbv zeta. rewrite (update_return_ok env Hnf _ pr); [|by rewrite Hr1|done].
  eexists _, _, _, _. split; [done|]. split; [done|].
  split_and!; try done. intros c Hc. specialize (Hb c Hc).
  destruct (buildComponentJob r pr c (e_now env)) as [[job cm]|e] eqn:Ej; [|done].
  destruct (job_of_component _ _ _ _ _ _ _ _ _ Hok Hsp Hst Hc Ej) as [<- _].
  change (w_jobs (w_set_run _ (w_set_calls _ w1))) with (w_jobs w1). rewrite Hj1. apply created_some.
  apply list_elem_of_omap. exists c. split; [done|].
  change (buildComponentJob r (in_stage pr st) c (e_now env)) with (buildComponentJob r pr c (e_now env)).
  by rewrite Ej.
Qed.
End World.

(** The first Job of a name among those of the components, when the names of the
    Jobs are those of the stage. *)
Lemma find_stage_job env r pr stageName comps k c :
  (∀ c job cm, c ∈ comps → buildComponentJob r pr c (e_now env) = Ok (job, cm) →
     j_Name job = componentJobName pr stageName (c_Name c)) →
  (∀ c, c ∈ comps → is_ok (buildComponentJob r pr c (e_now env)) = true) →
  comps !! k = Some c →
  ∃ k' c' job cm, k' ≤ k ∧ comps !! k' = Some c' ∧ buildComponentJob r pr c' (e_now env) = Ok (job, cm) ∧
    find (λ j, bool_decide (j_Name j = componentJobName pr stageName (c_Name c))) (stage_jobs env r pr comps) =
      Some job ∧
    str_take 10 (c_Name c') = str_take 10 (c_Name c) ∧
    ∀ m d, m < k' → comps !! m = Some d → str_take 10 (c_Name d) ≠ str_take 10 (c_Name c).
Proof.
  revert k. induction comps as [|d comps IH]; intros k Hname Hok Hk; [done|].
  destruct (buildComponentJob r pr d (e_now env)) as [[job cm]|e] eqn:E.
  2: { specialize (Hok d ltac:(constructor)). by rewrite E in Hok. }
  pose proof (Hname d job cm ltac:(constructor) E) as Hd. cbn [stage_jobs omap list_omap]. rewrite E. cbn [find].
  destruct (decide (str_take 10 (c_Name d) = str_take 10 (c_Name c))) as [Heq|Hne].
  - exists 0, d, job, cm. rewrite bool_decide_true.
    2: { rewrite Hd. by apply componentJobName_eq. }
    split_and!; try done; lia.
  - rewrite bool_decide_false.
    2: { rewrite Hd. by intros ?%componentJobName_eq. }
    destruct k as [|k]; [simplify_eq/=; done|]. simpl in Hk.
    destruct (IH k) as (k' & c' & job' & cm' & Hle & Hk' & Hb & Hf & Ht & Hfirst); try done.
    + intros c0 ? ? ?. apply Hname. by constructor.
    + intros c0 ?. apply Hok. by constructor.
    + exists (S k'), c', job', cm'. split_and!; [lia|done|done|exact Hf|done|].
      intros [|m] d' Hm Hd'; simplify_eq/=; [done|]. eapply Hfirst; [|done]. lia.
Qed.

(** ** Properties *)

(** One fault-free reconcile of a running stage stores, for every component,
    what its Job reports (Succeeded when complete; when failed, FailedUser for
    exit code 1 and FailedApplication otherwise; unchanged while it runs or once
    it has ended), and the verdict of the stage: FailedUser if a component is,
    else FailedApplication if a component is, else Succeeded once every
    component had ended, else Running.  Nothing but the run is written. *)
Theorem stage_outcome (env : Env) (w : World) (r : Reconciler) (pr : PipelineRun) (spec : PipelineSpec)
    (i : nat) (st : StageSpec) (ss : StageStatus) (Hnf : no_fault env) (Hpods : pods_ok w)
    (Hex : executing_stage env w pr spec i st ss) (Hrun : ss_Phase ss = StagePhaseRunning)
    (Hexcl : jobs_exclusive w) :
  ∃ n o pr' ss', Reconcile r env (Ok (Some pr)) w = (w_set_run (Some pr') (w_set_calls n w), o) ∧
    s_Phase (pr_Status pr') = PipelineRunPhaseRunning ∧
    s_StageStatuses (pr_Status pr') = <[i := ss']> (s_StageStatuses (pr_Status pr)) ∧
    map cs_Phase (ss_ComponentStatuses ss') = map (observed w pr (st_Name st)) (ss_ComponentStatuses ss) ∧
    ss_Phase ss' = stage_verdict (map cs_Phase (ss_ComponentStatuses ss'))
      (forallb (λ cs, componentTerminal (cs_Phase cs)) (ss_ComponentStatuses ss)).
Proof.
  destruct (poll_stage env Hnf w Hpods r pr spec i st ss Hex Hrun Hexcl)
    as (n & o & pr' & ss' & E & _ & _ & _ & _ & _ & _ & Hp & Hss & _ & Hph & Hv).
  exists n, o, pr', ss'. done.
Qed.

(** One fault-free reconcile of a pending stage whose Jobs can be built puts
    the stage and each of its components in Running and keeps the Jobs that
    exist.  The Job a component will be polled under, unless there was one, is
    the new Job of the first component of the stage that agrees with it in the
    first ten bytes of the name: its own when no earlier one does. *)
Theorem stage_started (env : Env) (w : World) (r : Reconciler) (pr : PipelineRun) (spec : PipelineSpec)
    (i : nat) (st : StageSpec) (ss : StageStatus) (Hnf : no_fault env) (Hpods : pods_ok w)
    (Hex : executing_stage env w pr spec i st ss) (Hpend : ss_Phase ss = StagePhasePending)
    (Hb : ∀ c, c ∈ st_Components st → is_ok (buildComponentJob r pr c (e_now env)) = true) :
  ∃ w' o pr' ss', Reconcile r env (Ok (Some pr)) w = (w', o) ∧ w_run w' = Some pr' ∧
    s_Phase (pr_Status pr') = PipelineRunPhaseRunning ∧
    s_StageStatuses (pr_Status pr') = <[i := ss']> (s_StageStatuses (pr_Status pr)) ∧
    ss_Phase ss' = StagePhaseRunning ∧
    Forall2 (λ c s, cs_Name s = c_Name c ∧ cs_Phase s = ComponentPhaseRunning)
      (st_Components st) (ss_ComponentStatuses ss') ∧
    (∀ name j, w_jobs w !! name = Some j → w_jobs w' !! name = Some j) ∧
    ∀ k c, st_Components st !! k = Some c →
      w_jobs w !! componentJobName pr (st_Name st) (c_Name c) = None →
      ∃ k' c' job cm, k' ≤ k ∧ st_Components st !! k' = Some c' ∧
        buildComponentJob r pr c' (e_now env) = Ok (job, cm) ∧
        w_jobs w' !! componentJobName pr (st_Name st) (c_Name c) = Some (MkJobObject job []) ∧
        str_take 10 (c_Name c') = str_take 10 (c_Name c) ∧
        ∀ m d, m < k' → st_Components st !! m = Some d → str_take 10 (c_Name d) ≠ str_take 10 (c_Name c).
Proof.
  destruct (begin_stage env Hnf w Hpods r pr spec i st ss Hex Hpend Hb)
    as (w' & o & pr' & ss' & HR & Hr' & _ & _ & _ & _ & _ & _ & Hp & Hss & Hph & Hcs & Hjobs & _).
  exists w', o, pr', ss'. split_and!; try done.
  - intros name j Hj. rewrite Hjobs. by apply created_kept.
  - intros k c Hk Hnone.
    destruct (find_stage_job env r pr (st_Name st) (st_Components st) k c)
      as (k' & c' & job & cm & Hle & Hk' & Hb' & Hf & Ht & Hfirst); try done.
    { intros d job cm Hd Hbd. destruct Hex. by destruct (job_of_component r pr spec i st d (e_now env) job cm). }
    exists k', c', job, cm. split_and!; try done. rewrite Hjobs. unfold created. by rewrite Hnone, Hf.
Qed.
End Outcome.
