(* ===== verification/RunLiveness.v ===== *)
(** * RunLiveness: an admitted run completes

    When reconciles do not fail and every Job completes, an admitted run reaches
    Succeeded within three rounds per stage and one more. *)

From S2P Require Import Prelude GoValue ApiTypes GoTime Policy Registry ConfigSchema Validate Status RunTypes RunJobs RunController RunMachine RunRefine RunSystem RunAdmission RunStages.

Section Liveness.
Context `{UT : !UnicodeTables} `{Q : !Quantities} `{J : !Json} `{JS : !JsonSchema} `{TR : !Transforms}
  `{KT : !K8sTypes} `{YM : !YamlMarshal} `{CL : !ControllerLib}.

(** ** Rounds: a reconcile from the current run, then every Job completes *)

Definition completed : list JobCondition := [MkJobCondition JobComplete true EmptyString].
Definition complete_jobs (w : World) : World :=
  w_set_jobs ((λ j, MkJobObject (jo_Job j) completed) <$> w_jobs w) w.
Definition round (r : Reconciler) (env : Env) (w : World) : World :=
  match w_run w with
  | Some pr => complete_jobs (Reconcile r env (Ok (Some pr)) w).1
  | None => w
  end.
Fixpoint rounds (r : Reconciler) (envs : nat → Env) (n : nat) (w : World) : World :=
  match n with
  | O => w
  | S n => round r (envs n) (rounds r envs n w)
  end.

(** ** The invariant of the rounds and the measure *)

(** A running stage waits only for Jobs that exist. *)
Definition healthy (w : World) (pr : PipelineRun) (st : StageSpec) (ss : StageStatus) : Prop :=
  match ss_Phase ss with
  | StagePhasePending | StagePhaseSucceeded => True
  | StagePhaseRunning =>
    ∀ cs, cs ∈ ss_ComponentStatuses ss → cs_Phase cs = ComponentPhaseSucceeded ∨
      cs_Phase cs = ComponentPhaseRunning ∧
      is_Some (w_jobs w !! componentJobName pr (st_Name st) (cs_Name cs))
  | _ => False
  end.

Record smooth (w : World) (pr : PipelineRun) (spec : PipelineSpec) : Prop := {
  sm_run : w_run w = Some pr;
  sm_cancel : pr_Cancel pr = false;
  sm_preview : rs_Preview (pr_Spec pr) = None;
  sm_ok : run_ok (pr_Status pr);
  sm_spec : s_ResolvedSpec (pr_Status pr) = Some spec;
  sm_configs : ∀ c, c ∈ components_of spec → is_ok (ConfigMap c) = true;
  sm_pods : pods_ok w;
  sm_jobs : ∀ name j, w_jobs w !! name = Some j → jo_Conditions j = completed;
  sm_stages : Forall2 (healthy w pr) (ps_Stages spec) (s_StageStatuses (pr_Status pr));
  sm_phase : s_Phase (pr_Status pr) = PipelineRunPhaseRunning ∨
             s_Phase (pr_Status pr) = PipelineRunPhaseSucceeded;
}.

Definition stage_rank (ss : StageStatus) : nat :=
  match ss_Phase ss with
  | StagePhaseSucceeded => 0
  | StagePhaseRunning => if forallb (λ cs, componentTerminal (cs_Phase cs)) (ss_ComponentStatuses ss) then 1 else 2
  | _ => 3
  end.
Definition stages_rank (l : list StageStatus) : nat := sum_list (map stage_rank l).
Definition rank (pr : PipelineRun) : nat :=
  match s_Phase (pr_Status pr) with
  | PipelineRunPhaseRunning => S (stages_rank (s_StageStatuses (pr_Status pr)))
  | _ => 0
  end.

(** ** Lemmas *)

Lemma stages_rank_insert i ss ss' l : l !! i = Some ss → stage_rank ss' < stage_rank ss →
  stages_rank (<[i := ss']> l) < stages_rank l.
Proof.
  revert i. unfold stages_rank. induction l as [|x l IH]; intros [|i] Hi; simplify_eq/=; [lia|].
  specialize (IH _ Hi). lia.
Qed.

Lemma buildable r pr spec i st c now : run_ok (pr_Status pr) → s_ResolvedSpec (pr_Status pr) = Some spec →
  ps_Stages spec !! i = Some st → c ∈ st_Components st → is_ok (ConfigMap c) = true →
  is_ok (buildComponentJob r pr c now) = true.
Proof.
  intros Hok Hsp Hst Hin Hc. destruct (run_ok_running _ _ Hsp Hok) as (_ & _ & Hnames & Hnd).
  unfold buildComponentJob. rewrite Hsp. unfold components_of in *.
  rewrite (stage_of_unique _ _ _ _ Hnd Hst Hin).
  destruct (find_resolved_Some (s_Components (pr_Status pr)) (c_Name c)) as (rc & -> & _).
  { rewrite Hnames. apply (list_elem_of_fmap_2 c_Name), list_elem_of_In, in_flat_map.
    exists st. split; apply list_elem_of_In; [by eapply list_elem_of_lookup_2|done]. }
  unfold generateGatewayConfig. destruct (ConfigMap c) as [cfg|]; [|done]. simpl.
  by destruct (yaml_Marshal _).
Qed.

Lemma completed_exclusive w : (∀ name j, w_jobs w !! name = Some j → jo_Conditions j = completed) →
  jobs_exclusive w.
Proof. intros H name j Hj. by rewrite (H name j Hj). Qed.

(** A component of a running stage is observed to have succeeded. *)
Lemma observed_completed w pr st cs :
  (∀ name j, w_jobs w !! name = Some j → jo_Conditions j = completed) →
  cs_Phase cs = ComponentPhaseSucceeded ∨
    cs_Phase cs = ComponentPhaseRunning ∧ is_Some (w_jobs w !! componentJobName pr (st_Name st) (cs_Name cs)) →
  observed w pr (st_Name st) cs = ComponentPhaseSucceeded.
Proof.
  intros Hjobs [Hp|[Hp [j Hj]]]; unfold observed; rewrite Hp; simpl; [done|].
  by rewrite Hj, (Hjobs _ _ Hj).
Qed.

Lemma complete_jobs_completed w name j : w_jobs (complete_jobs w) !! name = Some j → jo_Conditions j = completed.
Proof. simpl. intros (j0 & <- & _)%lookup_fmap_Some. done. Qed.
Lemma complete_jobs_some w name : is_Some (w_jobs w !! name) → is_Some (w_jobs (complete_jobs w) !! name).
Proof. simpl. rewrite lookup_fmap. by destruct (w_jobs w !! name); simpl; intros []. Qed.

(** The stage a smooth run works on. *)
Lemma smooth_stage env w pr spec i ss : smooth w pr spec → s_Phase (pr_Status pr) = PipelineRunPhaseRunning →
  current_stage (s_StageStatuses (pr_Status pr)) = Some (i, ss) →
  ∃ st, executing_stage env w pr spec i st ss ∧ healthy w pr st ss ∧
    (ss_Phase ss = StagePhasePending ∨ ss_Phase ss = StagePhaseRunning).
Proof.
  intros [] Hp Hcur. pose proof (current_stage_current _ _ _ Hcur) as (Hi & Hns & _).
  destruct (Forall2_lookup_r _ _ _ _ _ sm_stages0 Hi) as (st & Hst & Hh). exists st.
  split_and!; [|done|].
  - split; try done. unfold previewDeadlinePassed. by rewrite sm_preview0.
  - unfold healthy in Hh. destruct (ss_Phase ss); auto; done.
Qed.

(** Replacing the stage of a smooth run. *)
Lemma healthy_insert w pr w' pr' spec i st ss ss' l :
  Forall2 (healthy w pr) (ps_Stages spec) l → ps_Stages spec !! i = Some st → l !! i = Some ss →
  (∀ name, is_Some (w_jobs w !! name) → is_Some (w_jobs w' !! name)) →
  pr_Name pr' = pr_Name pr → s_RunID (pr_Status pr') = s_RunID (pr_Status pr) →
  healthy w' pr' st ss' → Forall2 (healthy w' pr') (ps_Stages spec) (<[i := ss']> l).
Proof.
  intros Hall Hst Hi Hjobs Hn Hid Hh. rewrite <-(list_insert_id _ _ _ Hst). apply Forall2_insert; [|done].
  eapply Forall2_impl; [exact Hall|]. intros st0 ss0. unfold healthy. destruct (ss_Phase ss0); try done.
  intros H cs Hcs. destruct (H cs Hcs) as [?|[? ?]]; [by left|right]. split; [done|]. apply Hjobs.
  unfold componentJobName. by rewrite Hn, Hid.
Qed.

Lemma reconcile_ok r env w pr w' o pr' : pods_ok w → run_ok (pr_Status pr) → w_run w = Some pr →
  Reconcile r env (Ok (Some pr)) w = (w', o) → w_run w' = Some pr' → run_ok (pr_Status pr') ∧ pods_ok w'.
Proof.
  intros Hpods Hok Hr HR Hr'.
  destruct (Reconcile_saved _ _ (Ok (Some pr)) _ _ _ Hpods Hok HR) as (Hp & _ & [H|(cur & s & Hcur & _ & Hs & Hw)]);
    split; try done.
  - assert (pr' = pr) as -> by congruence. done.
  - assert (pr' = stored cur s) as -> by congruence. assert (cur = pr) as -> by congruence.
    by eapply run_step_ok.
Qed.

(** The last round. *)
Lemma finish_run r env w pr spec : no_fault env → smooth w pr spec →
  s_Phase (pr_Status pr) = PipelineRunPhaseRunning → current_stage (s_StageStatuses (pr_Status pr)) = None →
  ∃ w' o pr', Reconcile r env (Ok (Some pr)) w = (w', o) ∧ w_run w' = Some pr' ∧ w_jobs w' = w_jobs w ∧
    pr_Name pr' = pr_Name pr ∧ pr_Cancel pr' = pr_Cancel pr ∧ pr_Spec pr' = pr_Spec pr ∧
    s_RunID (pr_Status pr') = s_RunID (pr_Status pr) ∧
    s_ResolvedSpec (pr_Status pr') = s_ResolvedSpec (pr_Status pr) ∧
    s_StageStatuses (pr_Status pr') = s_StageStatuses (pr_Status pr) ∧
    s_Phase (pr_Status pr') = PipelineRunPhaseSucceeded.
Proof.
  intros Hnf [] Hp Hcur. unfold Reconcile, reconcile. cbv zeta.
  change (pr_Cancel (on_status _ pr)) with (pr_Cancel pr). rewrite sm_cancel0.
  rewrite (bind_continue _ _ _ (w_set_calls 0 w) ()) by done.
  change (s_Phase (pr_Status (on_status _ pr))) with (s_Phase (pr_Status pr)). rewrite Hp.
  unfold handleRunning. change (s_ResolvedSpec (pr_Status (on_status _ pr))) with (s_ResolvedSpec (pr_Status pr)).
  rewrite sm_spec0. change (s_StageStatuses (pr_Status (on_status _ pr))) with (s_StageStatuses (pr_Status pr)).
  rewrite Hcur. rewrite (update_return_ok env Hnf _ pr) by done.
  eexists _, _, _. split; [done|]. split; [done|]. split_and!; done.
Qed.

(** After a reconcile that replaced stage [i] by a stage of lower rank, the run
    is still smooth. *)
Lemma round_stage r env w pr spec i st ss w' o pr' ss' :
  smooth w pr spec → Reconcile r env (Ok (Some pr)) w = (w', o) → w_run w' = Some pr' →
  ps_Stages spec !! i = Some st → s_StageStatuses (pr_Status pr) !! i = Some ss →
  pr_Cancel pr' = pr_Cancel pr → pr_Spec pr' = pr_Spec pr → pr_Name pr' = pr_Name pr →
  s_RunID (pr_Status pr') = s_RunID (pr_Status pr) →
  s_ResolvedSpec (pr_Status pr') = s_ResolvedSpec (pr_Status pr) →
  s_Phase (pr_Status pr') = PipelineRunPhaseRunning →
  s_StageStatuses (pr_Status pr') = <[i := ss']> (s_StageStatuses (pr_Status pr)) →
  (∀ name, is_Some (w_jobs w !! name) → is_Some (w_jobs w' !! name)) →
  healthy (complete_jobs w') pr' st ss' →
  smooth (complete_jobs w') pr' spec.
Proof.
  intros [] HR Hr' Hst Hi Hc Hs Hn Hid Hsp Hp Hss Hjobs Hh.
  destruct (reconcile_ok _ _ _ _ _ _ _ sm_pods0 sm_ok0 sm_run0 HR Hr') as [Hok Hpods].
  split; try congruence; auto.
  - apply complete_jobs_completed.
  - rewrite Hss. eapply healthy_insert; try done. intros name Hname. by apply complete_jobs_some, Hjobs.
Qed.

Lemma round_smooth r env w pr spec : no_fault env → smooth w pr spec →
  s_Phase (pr_Status pr) = PipelineRunPhaseRunning →
  ∃ pr', smooth (round r env w) pr' spec ∧ rank pr' < rank pr.
Proof.
  intros Hnf Hsm Hp. unfold round. rewrite (sm_run _ _ _ Hsm). unfold rank at 2. rewrite Hp.
  destruct (current_stage (s_StageStatuses (pr_Status pr))) as [[i ss]|] eqn:Hcur.
  2: { destruct (finish_run r env w pr spec Hnf Hsm Hp Hcur)
         as (w' & o & pr' & HR & Hr' & Hj & Hn & Hc & Hs & Hid & Hsp & Hss & Hp').
       rewrite HR. cbn [fst]. exists pr'. destruct Hsm.
       destruct (reconcile_ok _ _ _ _ _ _ _ sm_pods0 sm_ok0 sm_run0 HR Hr') as [Hok Hpods].
       split; [split; try congruence; auto|unfold rank; rewrite Hp'; lia].
       - apply complete_jobs_completed.
       - rewrite Hss. eapply Forall2_impl; [exact sm_stages0|]. intros st0 ss0. unfold healthy.
         destruct (ss_Phase ss0); try done. intros H cs Hcs. destruct (H cs Hcs) as [?|[? ?]]; [by left|right].
         split; [done|]. apply complete_jobs_some. unfold componentJobName. by rewrite Hj, Hn, Hid. }
  pose proof (current_stage_current _ _ _ Hcur) as (Hi & _).
  destruct (smooth_stage env _ _ _ _ _ Hsm Hp Hcur) as (st & Hex & Hheal & [Hph|Hph]).
  - destruct (begin_stage env Hnf w (sm_pods _ _ _ Hsm) r pr spec i st ss Hex Hph)
      as (w' & o & pr' & ss' & HR & Hr' & _ & Hc & Hs & Hn & Hid & Hsp & Hp' & Hss & Hph' & Hcs & Hold & Hnew).
    { intros c Hin. destruct Hex, Hsm. eapply buildable; eauto. apply sm_configs0.
      unfold components_of. apply list_elem_of_In, in_flat_map. exists st.
      split; apply list_elem_of_In; [by eapply list_elem_of_lookup_2|done]. }
    rewrite HR. cbn [fst]. exists pr'. split.
    + eapply round_stage; eauto using ex_stage.
      * intros name [j Hj]. rewrite Hold. exists j. by apply created_kept.
      * unfold healthy. rewrite Hph'. intros cs Hin. right.
        apply list_elem_of_lookup in Hin as [k Hk].
        destruct (Forall2_lookup_r _ _ _ _ _ Hcs Hk) as (c & Hck & Hnm & Hpc). split; [done|].
        apply complete_jobs_some. unfold componentJobName. rewrite Hn, Hid, Hnm.
        apply Hnew. by eapply list_elem_of_lookup_2.
    + unfold rank. rewrite Hp', Hss. apply -> Nat.succ_lt_mono.
      eapply stages_rank_insert; [done|]. unfold stage_rank. rewrite Hph', Hph. case_match; lia.
  - pose proof (completed_exclusive w (sm_jobs _ _ _ Hsm)) as Hexcl.
    destruct (poll_stage env Hnf w (sm_pods _ _ _ Hsm) r pr spec i st ss Hex Hph Hexcl)
      as (n & o & pr' & ss' & HR & _ & Hc & Hs & Hn & Hid & Hsp & Hp' & Hss & _ & Hobs & Hv).
    rewrite HR. cbn [fst]. unfold healthy in Hheal. rewrite Hph in Hheal.
    assert (∀ cs, cs ∈ ss_ComponentStatuses ss' → cs_Phase cs = ComponentPhaseSucceeded) as Hall.
    { intros cs Hin. apply (list_elem_of_fmap_2 cs_Phase) in Hin.
      change (cs_Phase <$> ss_ComponentStatuses ss') with (map cs_Phase (ss_ComponentStatuses ss')) in Hin.
      rewrite Hobs in Hin. apply list_elem_of_fmap in Hin as (cs0 & -> & Hin0).
      apply observed_completed; [apply (sm_jobs _ _ _ Hsm)|auto]. }
    assert (ss_Phase ss' = if forallb (λ cs, componentTerminal (cs_Phase cs)) (ss_ComponentStatuses ss)
      then StagePhaseSucceeded else StagePhaseRunning) as Hv'.
    { rewrite Hv. unfold stage_verdict. rewrite !bool_decide_false; [done|..];
        intros (cs & Hcs & Hin)%list_elem_of_fmap; rewrite (Hall cs Hin) in Hcs; done. }
    exists pr'. split.
    + eapply round_stage; eauto using ex_stage.
      unfold healthy. rewrite Hv'. destruct (forallb _ _); [done|]. intros cs Hin. left. auto.
    + unfold rank. rewrite Hp', Hss. apply -> Nat.succ_lt_mono.
      eapply stages_rank_insert; [done|]. unfold stage_rank. rewrite Hv', Hph.
      destruct (forallb _ (ss_ComponentStatuses ss)); [lia|].
      assert (forallb (λ cs, componentTerminal (cs_Phase cs)) (ss_ComponentStatuses ss') = true) as ->; [|lia].
      apply forallb_elem. intros cs Hin. by rewrite (Hall cs Hin).
Qed.

Lemma round_done r env w pr spec : smooth w pr spec →
  s_Phase (pr_Status pr) = PipelineRunPhaseSucceeded → smooth (round r env w) pr spec.
Proof.
  intros [] Hp. unfold round. rewrite sm_run0. unfold Reconcile, reconcile. cbv zeta.
  change (pr_Cancel (on_status _ pr)) with (pr_Cancel pr). rewrite sm_cancel0.
  rewrite (bind_continue _ _ _ (w_set_calls 0 w) ()) by done.
  change (s_Phase (pr_Status (on_status _ pr))) with (s_Phase (pr_Status pr)). rewrite Hp.
  split; try done; [apply complete_jobs_completed|].
  eapply Forall2_impl; [exact sm_stages0|]. intros st0 ss0. unfold healthy.
  destruct (ss_Phase ss0); try done. intros H cs Hcs. destruct (H cs Hcs) as [?|[? ?]]; [by left|right].
  split; [done|]. by apply complete_jobs_some.
Qed.

(** A run that has just been admitted. *)
Lemma stages_rank_pending stages : stages_rank (map pending_stage stages) = 3 * length stages.
Proof. unfold stages_rank. induction stages as [|st stages IH]; simpl in *; lia. Qed.

Lemma rounds_rank r envs w pr spec : (∀ n, no_fault (envs n)) → smooth w pr spec →
  ∀ n, ∃ pr', smooth (rounds r envs n w) pr' spec ∧ rank pr' ≤ rank pr - n.
Proof.
  intros Hnf Hsm n. induction n as [|n (pr1 & Hsm1 & Hr1)]; [exists pr; split; [done|lia]|]. simpl.
  destruct (sm_phase _ _ _ Hsm1) as [Hp|Hp].
  - destruct (round_smooth r (envs n) _ _ _ (Hnf n) Hsm1 Hp) as (pr2 & Hsm2 & Hr2). exists pr2. split; [done|lia].
  - exists pr1. split; [by apply round_done|]. unfold rank. rewrite Hp. lia.
Qed.

(** C38: a run that was just admitted, is neither cancelled nor a preview, and
    whose component configs decode reaches Succeeded within [3 n + 1] rounds of
    a fault-free reconcile followed by the completion of its Jobs, for [n]
    stages, and stays there. *)
Theorem run_completes (r : Reconciler) (envs : nat → Env) (w : World) (pr : PipelineRun)
    (spec : PipelineSpec) (n : nat) (Hnf : ∀ k, no_fault (envs k)) (Hr : w_run w = Some pr)
    (Hpods : pods_ok w) (Hjobs : w_jobs w = ∅) (Hok : run_ok (pr_Status pr))
    (Hp : s_Phase (pr_Status pr) = PipelineRunPhaseRunning)
    (Hsp : s_ResolvedSpec (pr_Status pr) = Some spec)
    (Hss : s_StageStatuses (pr_Status pr) = map pending_stage (ps_Stages spec))
    (Hc : pr_Cancel pr = false) (Hpv : rs_Preview (pr_Spec pr) = None)
    (Hcfg : ∀ c, c ∈ components_of spec → is_ok (ConfigMap c) = true)
    (Hn : 3 * length (ps_Stages spec) + 1 ≤ n) :
  ∃ pr', w_run (rounds r envs n w) = Some pr' ∧ s_Phase (pr_Status pr') = PipelineRunPhaseSucceeded.
Proof.
  assert (smooth w pr spec) as Hsm.
  { split; try done; [by rewrite Hjobs| |by left]. rewrite Hss.
    clear. induction (ps_Stages spec); simpl; by constructor. }
  destruct (rounds_rank r envs w pr spec Hnf Hsm n) as (pr' & Hsm' & Hrank).
  exists pr'. split; [apply (sm_run _ _ _ Hsm')|]. destruct (sm_phase _ _ _ Hsm') as [Hp'|]; [|done].
  exfalso. unfold rank in Hrank. rewrite Hp', Hp, Hss, stages_rank_pending in Hrank. lia.
Qed.
End Liveness.
