(* ===== verification/RunExamples.v ===== *)
(** * RunExamples: the run theorems at concrete runs

    A pipeline of two stages, its registry and its run, taken through admission
    and execution by the definitions of RunController.  Each theorem of
    RunSystem, RunAdmission, RunStages and RunLiveness is applied where its
    hypotheses hold; the last section shows what the names of the Jobs do to two
    components whose names share their first ten bytes, and what a generated run
    ID does to the secret snapshot. *)

From S2P Require Import Prelude GoValue Secrets ApiTypes GoTime Policy Registry ConfigSchema Validate ValidateSpec Status RunTypes RunJobs RunController RunMachine RunRefine RunSystem RunAdmission RunStages RunLiveness.

(** ** Rounds as steps of the system *)

Section Rounds.
Context `{UT : !UnicodeTables} `{Q : !Quantities} `{J : !Json} `{JS : !JsonSchema} `{TR : !Transforms}
  `{KT : !K8sTypes} `{YM : !YamlMarshal} `{CL : !ControllerLib}.

(** A round of RunLiveness, with the versions it stores. *)
Definition sys_round (r : Reconciler) (env : Env) (sys : System) : System :=
  match w_run (sys_world sys) with
  | Some pr =>
    let w := (Reconcile r env (Ok (Some pr)) (sys_world sys)).1 in
    MkSystem (complete_jobs w) (with_current w (sys_seen sys))
  | None => sys
  end.
Fixpoint sys_rounds (r : Reconciler) (env : Env) (n : nat) (sys : System) : System :=
  match n with
  | O => sys
  | S n => sys_round r env (sys_rounds r env n sys)
  end.

Lemma reachable_steps sys sys' : reachable sys → rtc step sys sys' → reachable sys'.
Proof. intros (s0 & H0 & H1) H2. exists s0. split; [done|]. by etrans. Qed.

Lemma sys_round_steps r env sys : reachable sys → rtc step sys (sys_round r env sys).
Proof.
  intros Hreach. unfold sys_round. destruct sys as [w seen]. simpl.
  destruct (w_run w) as [pr|] eqn:Hr; [|constructor].
  pose proof (reachable_inv _ Hreach) as [Hpods Hok Hhist _]. destruct (Hhist pr Hr) as [Hin _]. simpl in Hin.
  destruct (Reconcile r env (Ok (Some pr)) w) as [w' o] eqn:HR. cbn [fst].
  destruct (Reconcile_saved _ _ (Ok (Some pr)) _ _ _ Hpods (Hok pr Hin) HR) as (Hpods' & _).
  eapply rtc_l; [by apply (step_reconcile r env (Ok (Some pr)) w seen w' o); [intros ? [= ->]|]|].
  apply rtc_once. unfold complete_jobs, w_set_jobs. apply step_cluster; [|done|done].
  intros name j' (j & <- & Hj)%lookup_fmap_Some. by exists j.
Qed.
Lemma sys_rounds_steps r env n sys : reachable sys → rtc step sys (sys_rounds r env n sys).
Proof.
  intros H. induction n as [|n IH]; simpl; [constructor|]. etrans; [exact IH|].
  apply sys_round_steps. by eapply reachable_steps.
Qed.
Lemma reachable_rounds r env n sys : reachable sys → reachable (sys_rounds r env n sys).
Proof. intros H. eapply reachable_steps; [exact H|by apply sys_rounds_steps]. Qed.
End Rounds.

Module RunExamples.
(** ** Parameters at concrete values *)

#[local] Instance ascii_tables : UnicodeTables :=
  {| is_print_above_latin1 _ := false; to_upper_above_latin1 r := r |}.
#[local] Instance int_quantities : Quantities :=
  {| quantity := Z; q_cmp := Z.compare; q_string := itoa; q_parse _ := None |}.
#[local] Instance int_quantity_laws : QuantityLaws.
Proof.
  split; simpl; [apply Z.compare_refl|intros; apply Z.compare_antisym|].
  intros a b c. rewrite !Z.compare_ngt_iff. lia.
Qed.
(** Two documents: "ref", an object that references the secret [db], and the
    empty object. *)
#[local] Instance two_documents : Json :=
  {| json_object s := if decide (s = "ref") then Ok (Some [("password", VStr "$[db]")]) else Ok (Some []);
     json_any _ := None; json_marshal _ := "{}" |}.
#[local] Instance any_schema : JsonSchema :=
  {| js_doc := unit; js_compiler := unit; js_schema := unit; js_unmarshal _ := Ok tt;
     js_add_resource _ _ := Ok tt; js_compile _ _ := Ok tt; js_validate _ _ := None |}.
#[local] Instance text_transforms : Transforms :=
  {| Transform := string; ParseTransform s := Some s; tr_String s := s; tr_type _ := OtherTransform |}.
#[local] Instance no_tolerations : K8sTypes := {| Toleration := unit |}.
#[local] Instance yaml_text : YamlMarshal := {| yaml_Marshal _ := Ok "yaml" |}.
#[local] Instance any_uuid : ControllerLib :=
  {| uuid_Parse _ := true; SetStatusCondition l c := l ++ [c] |}.

(** ** A pipeline and its run *)

Definition bucket_in (b : string) : option InputSpec := Some (MkInputSpec [b] []).
Definition bucket_out (b : string) : option OutputSpec :=
  Some (MkOutputSpec b EmptyString [] [] []).
Definition component (name config : string) (i : option InputSpec) (o : option OutputSpec) : ComponentSpec :=
  MkComponentSpec name "sql" EmptyString config i o None.
Definition transform_pipeline : Pipeline :=
  MkPipeline "orders" "ns" 3 (MkPipelineSpec (MkGatewaySpec 0 0 0 0)
    [MkStageSpec "load" [component "loader" "ref" None (bucket_out "raw")];
     MkStageSpec "sql" [component "transform-a" EmptyString (bucket_in "raw") (bucket_out "mid-a");
                        component "transform-b" EmptyString (bucket_in "raw") (bucket_out "mid-b")]]).
Definition sql_definition : ComponentDefinition :=
  MkComponentDefinition (MkComponentDefinitionSpec EmptyString EmptyString EmptyString false EmptyString
    [MkVersionSpec "v1.0.0" "img" false EmptyString
      (Some (MkComponentResources (MkResourceRequirements [] [("cpu", 1%Z)]) [("cpu", 2%Z)]))] None)
    "Ready" EmptyString.

Definition cluster_registry : ComponentRegistry := λ _, Ok (Some sql_definition).
Definition env_with (registry : ComponentRegistry) (uuid : string) : Env :=
  MkEnv 1000 uuid (λ _, None) (λ _, Ok (Some transform_pipeline)) registry registry.
Definition env0 : Env := env_with cluster_registry "0123456789ab".
Definition operator : Reconciler :=
  MkReconciler EmptyString EmptyString EmptyString false [] false false EmptyString EmptyString EmptyString
    EmptyString.

Definition new_run (runID : string) : PipelineRun :=
  MkPipelineRun "orders-1" "ns" 1 7 false (MkPipelineRunSpec "orders" runID (Some "run-token") None None)
    empty_status.
Definition run0 : PipelineRun := new_run "0123456789ab".
Definition project_secret (data : gmap string string) : gmap string SecretObject :=
  {[ProjectSecretsName := MkSecretObject [] data]}.
Definition world_with (pr : PipelineRun) (data : gmap string string) : World :=
  MkWorld (Some pr) ∅ ∅ (project_secret data) [] 0 0 0.
Definition world0 : World := world_with run0 {["db" := "hunter2"; "other" := "x"]}.
Definition sys0 : System := MkSystem world0 [run0].

Lemma no_fault_env registry uuid : no_fault (env_with registry uuid).
Proof. done. Qed.
Lemma pods_ok_nil w : w_pods w = [] → pods_ok w.
Proof. intros H p Hp. rewrite H in Hp. by apply elem_of_nil in Hp. Qed.
Lemma reachable_sys0 : reachable sys0.
Proof. exists sys0. split; [|constructor]. exists run0. split_and!; try done. by apply pods_ok_nil. Qed.

Definition after (n : nat) : System := sys_rounds operator env0 n sys0.
Lemma reachable_after n : reachable (after n).
Proof. apply reachable_rounds, reachable_sys0. Qed.
(** The run of a system. *)
Definition run_of (sys : System) : PipelineRun := default run0 (w_run (sys_world sys)).
Definition phase_of (sys : System) : PipelineRunPhase := s_Phase (pr_Status (run_of sys)).

Example rounds_of_the_run : map (λ n, phase_of (after n)) (seq 0 9) =
  [PhaseEmpty; PipelineRunPhaseRunning; PipelineRunPhaseRunning; PipelineRunPhaseRunning;
   PipelineRunPhaseRunning; PipelineRunPhaseRunning; PipelineRunPhaseRunning; PipelineRunPhaseRunning;
   PipelineRunPhaseSucceeded].
Proof. vm_compute. reflexivity. Qed.

(** ** The theorems at this run *)

Lemma run_of_after n : match w_run (sys_world (after n)) with Some _ => True | None => False end →
  w_run (sys_world (after n)) = Some (run_of (after n)).
Proof. unfold run_of. by destruct (w_run (sys_world (after n))). Qed.
Lemma run_ok_after n : match w_run (sys_world (after n)) with Some _ => True | None => False end →
  run_ok (pr_Status (run_of (after n))).
Proof.
  intros H. pose proof (reachable_inv _ (reachable_after n)) as [_ Hok Hhist _].
  apply Hok, (Hhist _ (run_of_after n H)).
Qed.
Lemma pods_ok_after n : pods_ok (sys_world (after n)).
Proof. apply (inv_pods _ (reachable_inv _ (reachable_after n))). Qed.
Lemma seen_initial n : run0 ∈ sys_seen (after n).
Proof.
  assert (sys_seen sys0 ⊆ sys_seen (after n)) as H by apply steps_seen, sys_rounds_steps, reachable_sys0.
  apply H. constructor.
Qed.

(** A reconcile from the version of the run before its admission. *)
Lemma reconcile_refines_witness : ∃ w' o,
  Reconcile operator env0 (Ok (Some run0)) (sys_world (after 3)) = (w', o) ∧ o ≠ Panicked ∧
  (w_run w' = w_run (sys_world (after 3)) ∨
   ∃ s, w_run (sys_world (after 3)) = Some run0 ∧ w_run w' = Some (stored run0 s) ∧
        run_step (pr_Status run0) s).
Proof.
  destruct (Reconcile operator env0 (Ok (Some run0)) (sys_world (after 3))) as [w' o] eqn:E.
  exists w', o. split; [done|].
  exact (reconcile_refines (after 3) operator env0 run0 w' o (reachable_after 3) (seen_initial 3) E).
Defined.

Lemma admitted_run_frozen_witness :
  phase_of (after 1) = PipelineRunPhaseRunning ∧
  frozen (pr_Status (run_of (after 1))) (pr_Status (run_of (sys_rounds operator env0 7 (after 1)))).
Proof.
  split; [vm_compute; reflexivity|].
  apply (admitted_run_frozen (after 1) (sys_rounds operator env0 7 (after 1))).
  - apply reachable_after.
  - apply sys_rounds_steps, reachable_after.
  - vm_compute; reflexivity.
  - vm_compute; reflexivity.
  - vm_compute; reflexivity.
Defined.

Lemma succeeded_run_complete_witness :
  phase_of (after 8) = PipelineRunPhaseSucceeded ∧
  ∃ spec, s_ResolvedSpec (pr_Status (run_of (after 8))) = Some spec ∧
    length (ps_Stages spec) = length (s_StageStatuses (pr_Status (run_of (after 8)))).
Proof.
  assert (s_Phase (pr_Status (run_of (after 8))) = PipelineRunPhaseSucceeded) as Hp by (vm_compute; reflexivity).
  split; [exact Hp|].
  destruct (succeeded_run_complete (after 8) (run_of (after 8)) (reachable_after 8)
    ltac:(vm_compute; reflexivity) Hp) as (spec & Hs & Hall).
  exists spec. split; [exact Hs|]. exact (Forall2_length _ _ _ Hall).
Defined.

Definition sql_job_name : string := "datuplet-orders-1-sql-transform--01234567".
Lemma stages_in_order_witness : ∃ j, w_jobs (sys_world (after 5)) !! sql_job_name = Some j ∧
  ∃ spec idx st comp r pr now cm,
    s_ResolvedSpec (pr_Status (run_of (after 5))) = Some spec ∧ ps_Stages spec !! idx = Some st ∧
    comp ∈ st_Components st ∧ s_RunID (pr_Status pr) = s_RunID (pr_Status (run_of (after 5))) ∧
    buildComponentJob r pr comp now = Ok (jo_Job j, cm) ∧ sql_job_name = j_Name (jo_Job j) ∧
    ∀ k, k < idx → ∃ ss, s_StageStatuses (pr_Status (run_of (after 5))) !! k = Some ss ∧
      ss_Phase ss = StagePhaseSucceeded.
Proof.
  destruct (w_jobs (sys_world (after 5)) !! sql_job_name) as [j|] eqn:E; [|vm_compute in E; discriminate].
  exists j. split; [reflexivity|].
  exact (stages_in_order (after 5) (run_of (after 5)) sql_job_name j (reachable_after 5)
    ltac:(vm_compute; reflexivity) E).
Defined.

Lemma admissible_new registry uuid runID data :
  admissible (env_with registry uuid) (world_with (new_run runID) data) (new_run runID) transform_pipeline
    (if str_empty runID then uuid else runID).
Proof.
  split; try reflexivity; [done|]. unfold run_id. simpl. destruct (str_empty runID); done.
Qed.

(** The project Secret has no key [db]. *)
Lemma missing_secrets_fail_user_witness : ∃ w' pr',
  Reconcile operator env0 (Ok (Some run0)) (world_with run0 ∅) = (w', Done) ∧ w_run w' = Some pr' ∧
  s_Phase (pr_Status pr') = PipelineRunPhaseFailedUser ∧
  s_Message (pr_Status pr') =
    "DUPLET_STATUS_MESSAGE: referenced secret(s) not found in project secrets: db".
Proof.
  destruct (missing_secrets_fail_user operator env0 (world_with run0 ∅) run0 transform_pipeline
    "0123456789ab") as (w' & pr' & HR & Hr & Hp & Hm & _).
  - exact (admissible_new cluster_registry "0123456789ab" "0123456789ab" ∅).
  - apply no_fault_env.
  - vm_compute; reflexivity.
  - vm_compute; discriminate.
  - exists w', pr'. split_and!; [exact HR|exact Hr|exact Hp|]. rewrite Hm. vm_compute. reflexivity.
Defined.

(** The registry cannot be read. *)
Definition down_registry : ComponentRegistry := λ _, Err "connection refused".
Definition env_down : Env := env_with down_registry "0123456789ab".
Definition world_retried : World :=
  MkWorld (Some run0) ∅ ∅ (project_secret {["db" := "hunter2"]}) [] 4 0 0.

Lemma transient_error_budget_witness :
  let (w', o) := Reconcile operator env_down (Ok (Some run0)) world_retried in
  o = Done ∧ ∃ pr', w_run w' = Some pr' ∧ s_Phase (pr_Status pr') = PipelineRunPhaseFailedApplication.
Proof.
  pose proof (transient_error_budget operator env_down world_retried run0 transform_pipeline "0123456789ab")
    as H.
  destruct (Reconcile operator env_down (Ok (Some run0)) world_retried) as [w' o].
  destruct H as (_ & Ho & _ & pr' & Hr & Hp & _).
  - split; try reflexivity; done.
  - apply no_fault_env.
  - vm_compute; reflexivity.
  - constructor. by exists "connection refused".
  - split; [exact Ho|]. exists pr'. done.
Defined.

Lemma admission_correct_witness : ∃ w' o pr',
  Reconcile operator env0 (Ok (Some run0)) world0 = (w', o) ∧ w_run w' = Some pr' ∧
  s_Phase (pr_Status pr') = PipelineRunPhaseRunning ∧ s_PipelineGeneration (pr_Status pr') = 3%Z.
Proof.
  destruct (Reconcile operator env0 (Ok (Some run0)) world0) as [w' o] eqn:E.
  assert (w' = (Reconcile operator env0 (Ok (Some run0)) world0).1) as Hw by (rewrite E; reflexivity).
  destruct (w_run w') as [pr'|] eqn:Hr; [|rewrite Hw in Hr; vm_compute in Hr; discriminate].
  assert (s_Phase (pr_Status pr') = PipelineRunPhaseRunning) as Hp.
  { rewrite Hw in Hr. vm_compute in Hr. injection Hr as <-. reflexivity. }
  exists w', o, pr'. split_and!; [reflexivity|exact Hr|exact Hp|].
  destruct (admission_correct operator env0 world0 w' run0 pr' o (pods_ok_nil world0 eq_refl)
    ltac:(vm_compute; reflexivity) ltac:(reflexivity) E Hr Hp)
    as (p & stages & [_ Hf] & _ & _ & Hg & _).
  simpl in Hf. injection Hf as <-. exact Hg.
Defined.

Lemma snapshot_immutable_witness :
  ∃ s, w_secrets (sys_world (after 1)) !! runSecretsName (run_of (after 1)) = Some s ∧
       sec_Data s = {["db" := "hunter2"]} ∧
       w_secrets (sys_world (sys_rounds operator env0 7 (after 1))) !! runSecretsName (run_of (after 1))
         = Some s.
Proof.
  destruct (w_secrets (sys_world (after 1)) !! runSecretsName (run_of (after 1))) as [s|] eqn:E;
    [|vm_compute in E; discriminate].
  exists s. split_and!; [reflexivity| |].
  - vm_compute in E. injection E as <-. vm_compute. reflexivity.
  - apply (snapshot_immutable (after 1) _ (run_of (after 1)) s).
    + apply sys_rounds_steps, reachable_after.
    + exact E.
Defined.

(** The first Job of the run. *)
Definition loader : ComponentSpec :=
  with_resources (MkResourceRequirements [] [("cpu", 1%Z)]) (component "loader" "ref" None (bucket_out "raw")).
Definition frozen_spec : PipelineSpec :=
  default (MkPipelineSpec (MkGatewaySpec 0 0 0 0) []) (s_ResolvedSpec (pr_Status (run_of (after 1)))).
Definition loader_job : result string (Job * ConfigMapObject) :=
  buildComponentJob operator (run_of (after 1)) loader 1000.

Lemma secrets_reach_gateway_only_witness : ∃ job cm gw c,
  loader_job = Ok (job, cm) ∧ ps_InitContainers (j_PodSpec job) = [gw] ∧ ps_Containers (j_PodSpec job) = [c] ∧
  ct_VolumeMounts c = [] ∧ mounts_volume "datuplet-secrets" gw = true ∧
  mounts_volume "datuplet-runtoken" gw = true.
Proof.
  destruct loader_job as [[job cm]|e] eqn:E; [|vm_compute in E; discriminate].
  destruct (secrets_reach_gateway_only operator (run_of (after 1)) loader 1000 job cm frozen_spec E
    ltac:(vm_compute; reflexivity)) as (gw & c & Hi & Hc & Hm & _ & _ & _ & Hs & Ht).
  exists job, cm, gw, c. split_and!; [reflexivity|exact Hi|exact Hc|exact Hm|apply Hs|apply Ht].
  - vm_compute. discriminate.
  - vm_compute. eexists; reflexivity.
Defined.

Lemma Job_for_component_witness : ∃ job cm, loader_job = Ok (job, cm) ∧
  j_Name job = componentJobName (run_of (after 1)) "load" "loader" ∧
  ∃ c, ps_Containers (j_PodSpec job) = [c] ∧ ct_Resources c = MkResourceRequirements [] [("cpu", 1%Z)].
Proof.
  destruct loader_job as [[job cm]|e] eqn:E; [|vm_compute in E; discriminate].
  destruct (Job_for_component operator (run_of (after 1)) frozen_spec 0 (MkStageSpec "load" [loader]) loader
    1000 job cm (run_ok_after 1 ltac:(vm_compute; exact I)) ltac:(vm_compute; reflexivity)
    ltac:(vm_compute; reflexivity) ltac:(constructor) E) as (Hn & _ & rc & c & _ & _ & Hc & _ & _ & Hres).
  exists job, cm. split_and!; [reflexivity|exact Hn|]. exists c. split; [exact Hc|]. apply Hres. reflexivity.
Defined.

(** The loader's Job has completed; the poll sees it. *)
Definition load_stage : StageStatus :=
  default (pending_stage (MkStageSpec EmptyString [])) (s_StageStatuses (pr_Status (run_of (after 2))) !! 0).
Lemma stage_outcome_witness : ∃ n o pr' ss',
  Reconcile operator env0 (Ok (Some (run_of (after 2)))) (sys_world (after 2)) =
    (w_set_run (Some pr') (w_set_calls n (sys_world (after 2))), o) ∧
  map cs_Phase (ss_ComponentStatuses ss') = [ComponentPhaseSucceeded] ∧ ss_Phase ss' = StagePhaseRunning.
Proof.
  destruct (stage_outcome env0 (sys_world (after 2)) operator (run_of (after 2)) frozen_spec 0
    (MkStageSpec "load" [loader]) load_stage) as (n & o & pr' & ss' & HR & _ & _ & Hcs & Hss).
  - apply no_fault_env.
  - apply pods_ok_after.
  - split; try (vm_compute; reflexivity). apply run_ok_after. vm_compute. exact I.
  - vm_compute. reflexivity.
  - apply completed_exclusive. intros name j Hj.
    destruct (w_run (sys_world (after 1))) as [pr|] eqn:E; [|vm_compute in E; discriminate].
    change (after 2) with (sys_round operator env0 (after 1)) in Hj. unfold sys_round in Hj. rewrite E in Hj.
    exact (complete_jobs_completed _ _ _ Hj).
  - assert (map (observed (sys_world (after 2)) (run_of (after 2)) (st_Name (MkStageSpec "load" [loader])))
      (ss_ComponentStatuses load_stage) = [ComponentPhaseSucceeded]) as Ho by (vm_compute; reflexivity).
    exists n, o, pr', ss'. split; [exact HR|]. rewrite Hcs, Ho in *. split; [reflexivity|].
    rewrite Hss. vm_compute. reflexivity.
Defined.

(** From the admission on, seven rounds. *)
Definition world_admitted : World := (Reconcile operator env0 (Ok (Some run0)) world0).1.
Definition run_admitted : PipelineRun := default run0 (w_run world_admitted).
Lemma run_completes_witness : ∃ pr',
  w_run (rounds operator (λ _, env0) 7 world_admitted) = Some pr' ∧
  s_Phase (pr_Status pr') = PipelineRunPhaseSucceeded.
Proof.
  apply (run_completes operator (λ _, env0) world_admitted run_admitted frozen_spec 7).
  - intros _. apply no_fault_env.
  - vm_compute. reflexivity.
  - apply pods_ok_nil. vm_compute. reflexivity.
  - vm_compute. reflexivity.
  - eapply (reconcile_ok operator env0 world0 run0 world_admitted
      (Reconcile operator env0 (Ok (Some run0)) world0).2).
    + apply pods_ok_nil. reflexivity.
    + split; discriminate.
    + reflexivity.
    + apply surjective_pairing.
    + vm_compute. reflexivity.
  - vm_compute. reflexivity.
  - vm_compute. reflexivity.
  - vm_compute. reflexivity.
  - vm_compute. reflexivity.
  - vm_compute. reflexivity.
  - intros c Hc.
    change (components_of frozen_spec) with (flat_map st_Components (ps_Stages frozen_spec)) in Hc.
    unfold ConfigMap. destruct (str_empty (c_Config c)); [reflexivity|]. simpl.
    destruct (decide (c_Config c = "ref")); reflexivity.
  - vm_compute. lia.
Defined.

(** ** What the names of the Jobs and a generated run ID do *)

(** The labels of the Jobs of the run. *)
Definition job_components (sys : System) : list (option string) :=
  map (λ nj, gm_get "datuplet.io/component" (j_Labels (jo_Job nj.2))) (map_to_list (w_jobs (sys_world sys))).

(** A component can be reported Succeeded without ever having run.  The
    pipeline passes validation and the run reaches Succeeded with both
    components of its stage "sql" Succeeded, but only two Jobs were ever
    created, for "loader" and "transform-a": the Job name of "transform-b" is
    that of "transform-a", so its creation is an AlreadyExists that is ignored
    and the poll reads the other component's Job. *)
Theorem shared_job_name_skips_component :
  errors (ValidateTyped (Some transform_pipeline) (Some cluster_registry) None) = [] ∧
  reachable (after 8) ∧ s_Phase (pr_Status (run_of (after 8))) = PipelineRunPhaseSucceeded ∧
  map (λ ss, map (λ cs, (cs_Name cs, cs_Phase cs)) (ss_ComponentStatuses ss))
    (s_StageStatuses (pr_Status (run_of (after 8)))) =
    [[("loader", ComponentPhaseSucceeded)];
     [("transform-a", ComponentPhaseSucceeded); ("transform-b", ComponentPhaseSucceeded)]] ∧
  ∀ n, n ≤ 8 → Some "transform-b" ∉ job_components (after n).
Proof.
  split; [vm_compute; reflexivity|]. split; [apply reachable_after|].
  split; [vm_compute; reflexivity|]. split; [vm_compute; reflexivity|].
  intros n Hn. assert (Forall (λ n, Some "transform-b" ∉ job_components (after n)) (seq 0 9)) as H.
  { apply (bool_decide_unpack _). vm_compute. exact I. }
  rewrite Forall_forall in H. apply H, elem_of_seq. lia.
Qed.

(** The status update of an admission is its fifth call. *)
Definition env_update_fails : Env :=
  MkEnv 1000 "11111111-a" (λ n, if decide (n = 4) then Some "conflict" else None)
    (λ _, Ok (Some transform_pipeline)) cluster_registry cluster_registry.
Definition env_retry : Env := env_with cluster_registry "22222222-b".
(** An admission whose status update fails after the snapshot was created, and,
    once the key is gone from the project Secret, the next one. *)
Definition interrupted (runID : string) : World :=
  (Reconcile operator env_update_fails (Ok (Some (new_run runID)))
     (world_with (new_run runID) {["db" := "hunter2"]})).1.
Definition key_removed (w : World) : World :=
  w_set_secrets (<[ProjectSecretsName := MkSecretObject [] ∅]> (w_secrets w)) w.
Definition retried (runID : string) : World :=
  (Reconcile operator env_retry (Ok (Some (new_run runID))) (key_removed (interrupted runID))).1.

(** The existence of a snapshot protects a retried admission from the
    project Secret only when the run ID is in the spec.  In both runs the first
    admission created a snapshot and lost its status update, and the key was
    removed before the second: the run with an explicit ID is admitted, the one
    whose ID is generated looks for another snapshot name, reads the project
    Secret again and fails FailedUser. *)
Theorem generated_run_id_rereads_secret :
  (∀ runID, runID = "33333333-c" ∨ runID = EmptyString →
     w_run (interrupted runID) = Some (new_run runID) ∧
     size (w_secrets (interrupted runID)) = 2) ∧
  (s_Phase ∘ pr_Status <$> w_run (retried "33333333-c")) = Some PipelineRunPhaseRunning ∧
  (s_Phase ∘ pr_Status <$> w_run (retried EmptyString)) = Some PipelineRunPhaseFailedUser.
Proof.
  split; [intros runID [-> | ->]; split; vm_compute; reflexivity|].
  split; vm_compute; reflexivity.
Qed.

(** The second stage starts. *)
Definition sql_stage : StageSpec := default (MkStageSpec EmptyString []) (ps_Stages frozen_spec !! 1).
Definition sql_status : StageStatus :=
  default (pending_stage sql_stage) (s_StageStatuses (pr_Status (run_of (after 4))) !! 1).
Lemma stage_started_witness : ∃ w' o k' c' job,
  Reconcile operator env0 (Ok (Some (run_of (after 4)))) (sys_world (after 4)) = (w', o) ∧
  st_Components sql_stage !! k' = Some c' ∧ k' ≤ 1 ∧
  w_jobs w' !! sql_job_name = Some (MkJobObject job []).
Proof.
  destruct (stage_started env0 (sys_world (after 4)) operator (run_of (after 4)) frozen_spec 1 sql_stage
    sql_status) as (w' & o & pr' & ss' & HR & _ & _ & _ & _ & _ & _ & Hjobs).
  - apply no_fault_env.
  - apply pods_ok_after.
  - split; try (vm_compute; reflexivity). apply run_ok_after. vm_compute. exact I.
  - vm_compute. reflexivity.
  - intros c Hc. assert (Forall (λ c, is_ok (buildComponentJob operator (run_of (after 4)) c (e_now env0)) = true)
      (st_Components sql_stage)) as H
      by (apply (bool_decide_unpack _); vm_compute; exact I).
    rewrite Forall_forall in H. by apply H.
  - destruct (st_Components sql_stage !! 1) as [b|] eqn:Eb; [|vm_compute in Eb; discriminate].
    assert (componentJobName (run_of (after 4)) (st_Name sql_stage) (c_Name b) = sql_job_name) as Hn.
    { vm_compute in Eb. injection Eb as <-. vm_compute. reflexivity. }
    assert (w_jobs (sys_world (after 4)) !! sql_job_name = None) as Hnone by (vm_compute; reflexivity).
    destruct (Hjobs 1 b Eb) as (k' & c' & job & cm & Hk & Hc & _ & Hj & _).
    + by rewrite Hn.
    + rewrite Hn in Hj. exists w', o, k', c', job. split_and!; [exact HR|exact Hc|exact Hk|exact Hj].
Defined.
End RunExamples.
